(* ===== verification/_CoqProject ===== *)
-Q . S2P
Prelude.v
Text.v
Varint.v
Patterns.v
PatternLaws.v
Types.v
Floats.v
Lexer.v
LexerLaws.v
Schema.v
SchemaLaws.v
Ast.v
CheckValues.v
CheckEval.v
CheckLaws.v
Parser.v
ParserParts.v
ParserQueries.v
ParserChecks.v
ParserStatements.v
Record.v
SqliteFile.v
SqliteBTree.v
SqliteSchema.v
SqliteRender.v
SqliteRenderLaws.v
SqliteWriter.v
SqliteDatabase.v
SqliteChains.v
SqliteTrees.v
SqliteReading.v
SqliteScan.v
SqliteRoundTrip.v
SqliteWithoutRowid.v
SqliteAssembly.v
SqliteDatabaseLaws.v
SqliteScenarios.v
V2Page.v
Wal.v
TxTypes.v
Memory.v
MemoryIndex.v
MemoryUndo.v
MemoryRows.v
MemoryCatalog.v
MemoryLaws.v
MemoryScenarios.v
V1Files.v
V1Engine.v
V1Persist.v
V1Laws.v
V1Scenarios.v
TxnManager.v
WaitGraph.v
TxnRelease.v
TxnLocks.v
TxnRequests.v
TxnSteps.v
V2Codec.v
V2Mvcc.v
TxnSnapshots.v
V2Pager.v
V2Recovery.v
PageStore.v
PagerStore.v
V2Rollback.v
V2BTree.v
V2BTreeShape.v
V2BTreeOps.v
V2Trees.v
V2Catalog.v
V2Engine.v
V2Storage.v
V2Rows.v
V2EngineLaws.v
V2RowLaws.v
V2Scenarios.v
