(* ===== verification/Prelude.v ===== *)
(** * rust-sqlite: a verification development

    rust-sqlite is an SQL database in Rust. A statement goes through [sql/lexer.rs],
    [sql/parser.rs], [sql/planner.rs], [sql/optimizer.rs] and [sql/executor.rs]; the
    executor reaches data through the traits of [engine/traits.rs], which four storage
    engines implement: [storage/memory.rs], [storage/v1], [storage/v2] and
    [storage/sqlite3]. This development models the [v2] engine whole (concurrency control,
    row versions, pages, write-ahead log, B+ trees, catalog, and the operations on tables,
    rows and indexes), the [memory] and [v1] engines whole, the schemas and check constraints of [common/types.rs] that all
    engines share, the pattern matchers, the lexer and the parser, and the file format of the [sqlite3]
    engine, its writer and its readers. All paths are relative to src/src/.

    ** How the parts work together

    A [FileStorage] of [storage/v2/mod.rs] holds a pager and a catalog. The pager
    ([pager.rs]) reads pages through a cache shared by the handles on one path, keeps each
    transaction's page writes with their before-images, and at commit appends the pages to
    the write-ahead log ([wal.rs]), writes them in place and truncates the log. Tables are
    B+ trees ([btree.rs]) from row ids to JSON-encoded lists of row versions ([codec.rs]);
    indexes are B+ trees ([index_tree.rs]) from encoded keys to row ids. The catalog
    ([catalog.rs]) keeps schemas and tree roots as JSON on page 1. The transaction
    manager ([txn_manager.rs]), also shared, gives out transaction ids, commit timestamps,
    snapshots and row ids, grants table locks, page write locks and predicate locks, and
    aborts a victim when a request would close a cycle of waiting transactions. A write of
    a row checks it against its schema ([common/types.rs]), takes the locks, and puts a new
    version at the head of the row's list; a commit stamps the versions it made and commits
    the pages.

    ** Files

    Shared.
    - Prelude.v: results, machine integers, byte buffers, the state monad [ST], sorting.
    - Text.v: characters, UTF-8 and the string functions of Rust that the source uses.
    - Floats.v: [f64], on the Standard Library's [SpecFloat].
    - Types.v: [Value], its order and the column types of [common/types.rs], and its
      calendar functions.

    Schemas, checks, patterns, tokens.
    - Schema.v, SchemaLaws.v: the table definitions of [common/types.rs], renaming and
      dropping columns, null, type and primary key checks of a row.
    - CheckValues.v, CheckEval.v, CheckLaws.v: the functions on values, the evaluator of
      check constraints, and the values of STRICT tables ([common/types.rs]).
    - Patterns.v, PatternLaws.v: the implementations of [LIKE], [GLOB] and [REGEXP] in
      [sql/executor.rs], [storage/sqlite3/index_expr.rs], [storage/sqlite3/engine.rs] and
      [common/types.rs], against one meaning of patterns.
    - Lexer.v, LexerLaws.v: [sql/lexer.rs] against a grammar of tokens.

    The parser ([sql/parser.rs]) and its syntax trees.
    - Ast.v: [sql/ast.rs]. Parser.v: the tokens of a parser, names, literals and types.
      ParserParts.v: tables of functions, frames and named windows. ParserQueries.v:
      expressions, conditions and queries; a [Grammar] is the methods that are called again
      for a nested expression or query, and [grammar] ties the knot. ParserChecks.v: the
      [CheckExpr] of a condition. ParserStatements.v: table definitions, and all the
      statements up to [parse_sql].

    The SQLite file format ([storage/sqlite3/]).
    - Varint.v, Record.v: [varint.rs], [record.rs] and the record readers of [btree.rs] and
      [schema.rs].
    - SqliteFile.v: [file_header.rs], [page.rs] and [pager.rs]. SqliteBTree.v: [btree.rs],
      the readers of tables and indexes. SqliteSchema.v: the reader of the schema table
      ([schema.rs]).
    - SqliteRender.v, SqliteWriter.v, SqliteDatabase.v: [writer.rs]: the SQL it renders,
      pages, overflow chains and trees, and the whole file. SqliteRenderLaws.v: rendered
      literals, lexed again.
    - SqliteChains.v, SqliteTrees.v: what the writer leaves on a page, in a chain and in a
      tree, for any cell format (the classes [CellFormat] and [TreeFormat]).
      SqliteReading.v: the four formats, and with SqliteScan.v what the readers find
      there. SqliteRoundTrip.v, SqliteWithoutRowid.v: tables and indexes there and back.
      SqliteAssembly.v, SqliteDatabaseLaws.v: the schema table and the file.
      SqliteScenarios.v: a database written, opened and read.

    The memory engine.
    - Memory.v: all of [storage/memory.rs]: tables, rows, indexes and the undo log in maps.
    - MemoryIndex.v, MemoryUndo.v: what index maintenance does, and what undoing does.
      MemoryRows.v, MemoryCatalog.v: each call records what undoes it.
      MemoryLaws.v: the reachable states and the theorems; MemoryScenarios.v: runs.

    The v1 engine.
    - V1Files.v: the part of the file system it uses, its JSON files ([v1/catalog.rs],
      [v1/pager.rs], [v1/index.rs]), loading and persisting a state. V1Engine.v: all
      of [v1/mod.rs], on the rows, indexes and undo log of Memory.v where the code is the
      same. V1Persist.v: the effects of the file operations, and what a directory that was
      persisted loads as. V1Laws.v: sessions of calls and the theorems; V1Scenarios.v: runs.

    Concurrency control of the v2 engine.
    - TxTypes.v, TxnManager.v: [tx_types.rs] and all of [txn_manager.rs]: a record of the
      manager's maps, one definition per method. WaitGraph.v: the two searches for a
      waiting path. TxnRelease.v, TxnLocks.v, TxnRequests.v: what releases, deadlock
      resolution and the three lock requests do to the manager, and requests nobody stands
      in the way of. TxnSteps.v: the reachable states (any sequence of public calls) and
      the theorems about locks. TxnSnapshots.v: histories of calls, and snapshot isolation.

    Storage of the v2 engine.
    - V2Page.v, Wal.v: [page.rs] and [wal.rs].
    - V2Codec.v, V2Mvcc.v: [codec.rs], what updates, deletions and purging do to the
      versions of a row.
    - V2Pager.v: all of [pager.rs] on files given as byte lists. V2Recovery.v: crashes
      during a commit. PageStore.v: the interface the trees ask of the pager, a type class
      with laws; PagerStore.v: the pager keeps the laws. V2Rollback.v: rolling back page
      writes, and two handles on one database.
    - V2BTree.v: [btree.rs] and [index_tree.rs], the same code at two key types, defined
      once over a key comparison and a [PageStore] and instantiated in the Modules [BTree]
      and [IndexTree]. V2BTreeShape.v: well-formed trees, and finding and replacing a
      subtree. V2BTreeOps.v: each operation against a sorted association list. V2Trees.v:
      the theorems, for any page store and for the pager.
    - V2Catalog.v: [catalog.rs]. V2Engine.v: the state of [storage/v2/mod.rs],
      transactions, locks, deadlock handling and garbage collection. V2Storage.v: opening a
      database, and the storage traits except what evaluates checks. V2Rows.v: inserting and
      updating rows, adding and dropping columns.
    - V2EngineLaws.v, V2RowLaws.v: reads, commit and row writes on the
      abstract contents of a table. V2Scenarios.v: runs of the whole engine.

    ** Theorems

    - Concurrency control: a snapshot shows exactly what was committed when it was taken
      ([snapshot_isolation]); waiting is never circular ([no_circular_wait]), so every chain of waiting
      transactions ends in one that can proceed ([waiting_ends]); each lock
      request ends, and is granted, refused, queued or resolved by aborting a victim, with
      the exclusion it promises ([acquire_page_write_correct],
      [acquire_table_lock_correct], [check_write_conflicts_correct],
      [table_locks_exclude]); a release removes everything of its transaction and nothing
      else; the two searches agree and decide reachability.
    - Row versions: updates and deletions are seen by exactly the right snapshots; purging
      preserves the view of snapshots whose active set leaves the deleters out, and a run
      in which it removes a visible row ([purge_loses_visible_row]).
    - Durability: a log cut anywhere recovers its complete commits; a commit interrupted
      anywhere leaves files that recover to the database before or after it
      ([commit_crash_safe]); rollback restores every page ([rollback_undoes]).
    - Trees: insertion and deletion keep trees well-formed and change one key; over the
      pager, table and index trees behave as sorted maps ([table_tree_correct],
      [index_tree_correct], [pager_page_store]).
    - Rows: [get_row] and [scan_rows] return the view a snapshot gives of a table
      ([reads_follow_snapshot]); [insert_row], [update_row] and [delete_row] succeed
      exactly as an abstract table says, give its errors otherwise, and change the view of
      their transaction only ([insert_row_correct], [update_row_correct],
      [delete_row_correct]); finalization makes the new versions visible to the snapshots
      taken afterwards ([finalize_publishes]).
    - Memory engine: a rollback and the return to a savepoint restore every table and index
      ([memory_rollback_restores], [memory_savepoint_restores]), a failing call changes
      nothing ([memory_failure_atomic]), and an index finds exactly the rows of a key
      ([memory_indexes_exact]), for calls that [permitted] describes; for the others four
      runs show what goes wrong.
    - Engine v1: what a commit returns success for is what a new process loads from the
      directory ([v1_commit_survives]), and a rollback restores the tables
      ([v1_rollback_restores]); a commit that is interrupted can lose rows
      ([interrupted_commit_loses_rows]).
    - Schemas and checks: dropping a column succeeds exactly when nothing needs it;
      renaming keeps constraints valid; checks evaluate without panicking except for one
      division, and keep their meaning under renaming and dropping of columns; rows of
      STRICT tables get the types of their columns.
    - Patterns: the four matchers of [LIKE] decide the same relation, up to the null
      character; so do those of [GLOB], up to one form of class, and [REGEXP] decides its
      own.
    - Lexer: it ends on every text and its tokens follow one another ([lex_total]); a text
      written by the lexical grammar lexes to the tokens it was written from
      ([lex_written]).
    - SQLite files: a table, a WITHOUT ROWID table and an index that are written as trees
      are read back by scans, searches and lookups ([sqlite_table_roundtrip],
      [sqlite_without_rowid_roundtrip], [sqlite_index_roundtrip]); a whole database is
      written as a file that opens, with every object at the root its schema table lists
      ([write_database_opens]); rendered literals lex to themselves
      ([rendered_literal_lexes]).
    - Formats: varints, records, meta pages and payload pages round-trip; the record
      readers and the recovery scan return on any bytes.

    ** Conventions

    A Rust function returning [Result] yields [Ok], [Err], [Panic] (an index out of range,
    an overflow, a failed [unwrap]) or [OutOfFuel]. A [&mut self] method is a function of
    type [ST S A], which returns the state it leaves on every outcome. Integers are [Z] at
    their width: additions that can overflow are written as checked, saturating or
    panicking operations as the code has them. Maps are [gmap]; where the code iterates a
    [BTreeMap] the entries are sorted first, and where it iterates a [HashMap] the result
    does not depend on the order.

    Fuel bounds recursion that is not structural. Lock requests retry after aborting a
    victim: [retry_fuel] is one more than the number of waiting transactions, and the
    theorems show that it suffices. The search for a path has fuel for every node of the
    graph. The recovery scan has fuel for every byte, the lexer for every character. Tree
    operations need more fuel than the height and scans more than the number of pages,
    which the theorems state ([depth] in the engine). A wait for a lock blocks until
    another thread acts: [others] is what the other threads do meanwhile, and [wait] the
    number of waits; theorems about it cover transactions that need not wait. The SQLite
    readers recurse along the file, which may be cyclic; fuel above the height of the tree
    is enough. The writer's levels get shorter, so their number bounds the loop. The parser
    calls itself only after it has consumed a token, and its loops consume a token each
    round: both have fuel for every token. The chain of base names of a window is bounded
    by the number of windows, unless it is circular.

    ** Assumptions

    [serde_json] is a parameter: [to_vec] and [from_slice] of V2Codec.v and V2BTree.v, and
    the class [Codecs] of V2Catalog.v for all the types the engine stores. Their round trip
    on the values stored is a hypothesis, for rows without reals ([plain_row]: JSON has no
    NaN and no infinities); the witnesses use concrete codecs. [JsonParser] is its
    validity check. The transcendental functions of [f64], whose precision Rust leaves
    open, are the class [Libm]. The payload of a NaN is not kept by arithmetic. The system
    clock is an argument. [default_hash] is the standard library's [DefaultHasher]. The
    value of an index term ([index_expr.rs], not modelled) and the parser of index
    predicates are arguments of the SQLite writer; its theorems hold for any. The stack is
    not modelled: a text nested deeply enough overflows that of the real parser.

    The file system of the v1 engine is a map from paths to directories and files; a budget
    of changes stands for a crash or a full disk, and file names are plain (a separator in
    a table name is excluded by hypothesis where it matters). [JsonFiles] is [serde_json]
    at the types of its files.

    Files are byte lists; a crash keeps a prefix of the operations made, the last one torn
    at any byte, so writes are assumed to reach the disk in order; other failures of the
    operating system are not modelled. The theorems about row writes are for tables without
    secondary indexes and transactions that find no other one in their way; the
    operations themselves are modelled for all tables.

    ** Not modelled

    The planner, the optimizer and the executor (but for its pattern matchers), the
    [sqlite3] engine beyond its file format (that is, transactions, triggers and expression
    indexes, and [load_catalog], which parses the rendered SQL), the traits, which hold no code of their own, and the database facade and command line; see the
    components of the manifest for the reasons. *)

From Stdlib Require Export ZArith Lia String Ascii Sorted.
From stdpp Require Export base tactics list gmap strings pretty.

#[export] Set Default Goal Selector "!".

Open Scope Z_scope.

(** ** Results: [common/error.rs] and Rust's control outcomes *)

(** [DbError]; the payload of [Io] and [Serde] errors is their message. *)
Inductive DbError :=
  | Sql (message : string)
  | Plan (message : string)
  | Storage (message : string)
  | Txn (message : string)
  | Io (message : string)
  | Serde (message : string).

#[export] Instance DbError_eq_dec : EqDecision DbError.
Proof. solve_decision. Defined.

(** What a modelled Rust function can do: return [Ok] or [Err], panic (a failed
    [unwrap], an index out of range), or, for the functions whose recursion is
    bounded by fuel here, run out of that fuel. *)
Inductive Result (A : Type) :=
  | Ok (a : A)
  | Err (e : DbError)
  | Panic (why : string)
  | OutOfFuel.
Arguments Ok {A} a.
Arguments Err {A} e.
Arguments Panic {A} why.
Arguments OutOfFuel {A}.

Definition bind {A B} (m : Result A) (k : A -> Result B) : Result B :=
  match m with
  | Ok a => k a
  | Err e => Err e
  | Panic w => Panic w
  | OutOfFuel => OutOfFuel
  end.

Declare Scope res_scope.
Delimit Scope res_scope with res.
Notation "'let?' x ':=' m 'in' k" := (bind m (fun x => k))
  (at level 10, x pattern, m at level 100, k at level 200) : res_scope.
Notation "m ';;?' k" := (bind m (fun _ => k))
  (at level 100, k at level 200, right associativity) : res_scope.
Open Scope res_scope.

(** [Option::ok_or_else], [Result::ok] and the [?]-collect of an iterator. *)
Definition ok_or {A} (o : option A) (e : DbError) : Result A :=
  match o with Some a => Ok a | None => Err e end.

Definition is_ok {A} (r : Result A) : bool :=
  match r with Ok _ => true | _ => false end.

Definition is_err {A} (r : Result A) : bool :=
  match r with Err _ => true | _ => false end.

(** The function returned: it neither panicked nor ran out of fuel. *)
Definition returns {A} (r : Result A) : Prop :=
  match r with Ok _ | Err _ => True | Panic _ | OutOfFuel => False end.

Fixpoint mapM_res {A B} (f : A -> Result B) (l : list A) : Result (list B) :=
  match l with
  | [] => Ok []
  | a :: l' => let? b := f a in let? bs := mapM_res f l' in Ok (b :: bs)
  end.

(** [for a in l { f(a)?; }] for a check [f]. *)
Fixpoint each_res {A} (f : A -> Result unit) (l : list A) : Result unit :=
  match l with
  | [] => Ok tt
  | a :: l' => f a ;;? each_res f l'
  end.

(** A loop that carries a value: [for a in l { acc = f(acc, a)?; }] *)
Fixpoint fold_res {A B} (f : B -> A -> Result B) (l : list A) (acc : B) : Result B :=
  match l with
  | [] => Ok acc
  | a :: l' => let? acc := f acc a in fold_res f l' acc
  end.

(** ** Machine integers, at their width *)

Definition u8_max : Z := 255.
Definition u16_max : Z := 65535.
Definition u32_max : Z := 4294967295.
Definition u64_max : Z := 18446744073709551615.
Definition i64_max : Z := 9223372036854775807.
Definition i64_min : Z := -9223372036854775808.

Definition is_u8 (z : Z) : Prop := 0 <= z <= u8_max.
Definition is_u32 (z : Z) : Prop := 0 <= z <= u32_max.
Definition is_u64 (z : Z) : Prop := 0 <= z <= u64_max.
Definition is_i64 (z : Z) : Prop := i64_min <= z <= i64_max.

#[export] Instance is_u8_dec z : Decision (is_u8 z).
Proof. unfold is_u8. apply _. Defined.
#[export] Instance is_u32_dec z : Decision (is_u32 z).
Proof. unfold is_u32. apply _. Defined.
#[export] Instance is_u64_dec z : Decision (is_u64 z).
Proof. unfold is_u64. apply _. Defined.
#[export] Instance is_i64_dec z : Decision (is_i64 z).
Proof. unfold is_i64. apply _. Defined.

(** Truncation to 64 bits: [<<] on [u64] and wrapping arithmetic. *)
Definition wrap64 (z : Z) : Z := z mod 18446744073709551616.
Definition u64_shl (z n : Z) : Z := wrap64 (Z.shiftl z n).
(** [as i64] / [i64::from_be_bytes]: two's complement reading of 64 bits. *)
Definition as_i64 (z : Z) : Z := if z <=? i64_max then z else z - 18446744073709551616.

(** [checked_add], [checked_sub], [checked_mul] and [saturating_add] at [u64]
    ([usize] is 64 bits wide). *)
Definition checked_add (a b : Z) : option Z :=
  if a + b <=? u64_max then Some (a + b) else None.
Definition checked_sub (a b : Z) : option Z :=
  if b <=? a then Some (a - b) else None.
Definition checked_mul (a b : Z) : option Z :=
  if a * b <=? u64_max then Some (a * b) else None.
Definition saturating_add64 (a b : Z) : Z := Z.min u64_max (a + b).
Definition saturating_add32 (a b : Z) : Z := Z.min u32_max (a + b).
Definition saturating_sub (a b : Z) : Z := Z.max 0 (a - b).

(** [u64] addition in a checked build. *)
Definition u64_add (a b : Z) : Result Z :=
  if a + b <=? u64_max then Ok (a + b) else Panic "attempt to add with overflow".

(** ** Byte buffers *)

Abbreviation bytes := (list Z).

Definition Zlen {A} (l : list A) : Z := Z.of_nat (length l).

Definition is_bytes (l : bytes) : Prop := Forall is_u8 l.

#[export] Instance is_bytes_dec l : Decision (is_bytes l).
Proof. unfold is_bytes. apply _. Defined.

(** [slice.get(a..b)] and [slice.get(a..)]. *)
Definition get_range {A} (l : list A) (a b : Z) : option (list A) :=
  if bool_decide (0 <= a /\ a <= b /\ b <= Zlen l)
  then Some (take (Z.to_nat (b - a)) (drop (Z.to_nat a) l))
  else None.

Definition get_from {A} (l : list A) (a : Z) : option (list A) :=
  get_range l a (Zlen l).

(** Indexing [l[i]] and slicing [l[a..b]], which panic out of range. *)
Definition index_at {A} (l : list A) (i : Z) : Result A :=
  if 0 <=? i then
    match l !! Z.to_nat i with Some a => Ok a | None => Panic "index out of bounds" end
  else Panic "index out of bounds".

Definition vec_index {A} (l : list A) (i : nat) : Result A :=
  match l !! i with Some x => Ok x | None => Panic "index out of bounds" end.

(** [Vec::remove] *)
Definition vec_remove {A} (l : list A) (i : nat) : Result (list A) :=
  if (i <? length l)%nat then Ok (delete i l) else Panic "removal index out of range".

Definition slice_range {A} (l : list A) (a b : Z) : Result (list A) :=
  match get_range l a b with Some s => Ok s | None => Panic "range out of bounds" end.

(** [l[a..a+src.len()].copy_from_slice(src)], panicking out of range. *)
Definition copy_at {A} (l : list A) (a : Z) (src : list A) : Result (list A) :=
  if bool_decide (0 <= a /\ a + Zlen src <= Zlen l)
  then Ok (take (Z.to_nat a) l ++ src ++ drop (Z.to_nat a + length src) l)
  else Panic "copy_from_slice out of bounds".

(** [to_le_bytes] / [from_le_bytes] of an [n]-byte integer, and the big-endian
    pair as their reversals. *)
Fixpoint to_le (n : nat) (v : Z) : bytes :=
  match n with
  | O => []
  | S n' => (v mod 256) :: to_le n' (v / 256)
  end.

Fixpoint from_le (l : bytes) : Z :=
  match l with
  | [] => 0
  | b :: l' => b + 256 * from_le l'
  end.

Definition to_be (n : nat) (v : Z) : bytes := rev (to_le n v).
Definition from_be (l : bytes) : Z := from_le (rev l).

(** Fixed-offset accesses to a page buffer whose length has been checked:
    [&page[a..a+n]] and [page[a..a+src.len()].copy_from_slice(src)]. *)
Definition get_bytes (l : bytes) (a n : nat) : bytes := take n (drop a l).
Definition set_bytes (l : bytes) (a : nat) (src : bytes) : bytes :=
  take a l ++ src ++ drop (a + length src) l.

(** ** Strings as UTF-8 byte sequences *)

Definition ascii_code (a : ascii) : Z := Z.of_N (N_of_ascii a).
Definition code_ascii (z : Z) : ascii := ascii_of_N (Z.to_N z).

Fixpoint string_bytes (s : string) : bytes :=
  match s with
  | EmptyString => []
  | String a s' => ascii_code a :: string_bytes s'
  end.

Fixpoint bytes_string (l : bytes) : string :=
  match l with
  | [] => EmptyString
  | b :: l' => String (code_ascii b) (bytes_string l')
  end.

(** [str::contains] *)
Fixpoint str_contains (s sub : string) : bool :=
  if String.prefix sub s then true
  else match s with EmptyString => false | String _ s' => str_contains s' sub end.

(** [Vec<String>::join]. *)
Definition str_join (sep : string) (l : list string) : string := String.concat sep l.

(** ** Lemmas shared by the components *)

Create HintDb bytes_db.
Create HintDb res_db.
Create Rewrite HintDb len.

Section ResultLemmas.
Context {A B : Type}.

Lemma Ok_inj (a a' : A) : Ok a = Ok a' -> a = a'.
Proof. congruence. Qed.

Lemma bind_Ok_inv (m : Result A) (k : A -> Result B) b :
  bind m k = Ok b -> exists a, m = Ok a /\ k a = Ok b.
Proof. destruct m; simpl; try discriminate. eauto. Qed.

Lemma ok_or_Ok_inv (o : option A) e a : ok_or o e = Ok a -> o = Some a.
Proof. destruct o; simpl; congruence. Qed.

Lemma returns_bind (m : Result A) (k : A -> Result B) :
  returns m -> (forall a, m = Ok a -> returns (k a)) -> returns (bind m k).
Proof. destruct m; simpl; auto. Qed.

Lemma returns_ok_or (o : option A) e : returns (ok_or o e).
Proof. by destruct o. Qed.

Lemma mapM_res_ok (f : A -> Result B) (g : A -> B) l :
  (forall a, a ∈ l -> f a = Ok (g a)) -> mapM_res f l = Ok (map g l).
Proof.
  induction l as [|a l IH]; intros Hf; simpl; [done|].
  rewrite Hf by set_solver. simpl. rewrite IH; [done|]. set_solver.
Qed.

Lemma mapM_res_Forall2 (f : A -> Result B) l bs :
  mapM_res f l = Ok bs -> Forall2 (fun a b => f a = Ok b) l bs.
Proof.
  revert bs. induction l as [|a l IH]; simpl; intros bs H.
  - injection H as <-. constructor.
  - destruct (f a) eqn:Ef; simpl in H; try discriminate.
    destruct (mapM_res f l) eqn:El; simpl in H; try discriminate.
    injection H as <-. constructor; auto.
Qed.
End ResultLemmas.

Lemma existsb_elem {A} (f : A -> bool) l : existsb f l = true <-> exists x, x ∈ l /\ f x = true.
Proof. rewrite existsb_exists. by setoid_rewrite list_elem_of_In. Qed.

Lemma existsb_eqb s l : existsb (String.eqb s) l = true <-> s ∈ l.
Proof. rewrite existsb_elem. setoid_rewrite String.eqb_eq. naive_solver. Qed.

Lemma existsb_none {A} (f : A -> bool) l : existsb f l = false <-> forall x, x ∈ l -> f x = false.
Proof.
  rewrite <- not_true_iff_false, existsb_elem. setoid_rewrite <- not_true_iff_false. naive_solver.
Qed.

Section EachLemmas.
Context {A : Type}.

Lemma each_res_Ok (f : A -> Result unit) l : each_res f l = Ok tt <-> Forall (fun a => f a = Ok tt) l.
Proof.
  induction l as [|a l IH]; simpl; [by split|]. rewrite Forall_cons, <- IH.
  destruct (f a) as [[]| | |]; simpl; split; try done; try (by intros [? ?]); by split.
Qed.

Lemma each_res_app (f : A -> Result unit) l k : each_res f (l ++ k) = (each_res f l ;;? each_res f k).
Proof. induction l as [|a l IH]; [done|]. cbn [app each_res]. rewrite IH. by destruct (f a). Qed.

Lemma each_res_flat_map {B} (f : B -> Result unit) (g : A -> list B) l : each_res f (flat_map g l) = each_res (fun a => each_res f (g a)) l.
Proof.
  induction l as [|a l IH]; [done|]. cbn [flat_map each_res]. rewrite <- IH. generalize (flat_map g l). intros k.
  induction (g a) as [|b bs IHb]; [done|]. cbn [app each_res]. rewrite IHb. by destruct (f b).
Qed.

Lemma each_res_map {B} (f : B -> Result unit) (g : A -> B) l : each_res f (map g l) = each_res (fun a => f (g a)) l.
Proof. induction l as [|a l IH]; [done|]. cbn [map each_res]. by rewrite IH. Qed.

Lemma each_res_ext (f g : A -> Result unit) l : (forall a, a ∈ l -> f a = g a) -> each_res f l = each_res g l.
Proof.
  induction l as [|a l IH]; intros Hfg; [done|]. cbn [each_res]. rewrite Hfg by by left. rewrite IH; [done|]. intros b Hb. apply Hfg. by right.
Qed.

Lemma bind_unit_Ok (m : Result unit) (k : Result A) a : m = Ok tt /\ k = Ok a <-> (m ;;? k) = Ok a.
Proof. destruct m as [[]| | |]; simpl; split; try done; by intros [? ?]. Qed.

Lemma each_res_returns (f : A -> Result unit) l : (forall a, returns (f a)) -> returns (each_res f l).
Proof. intros Hf. induction l as [|a l IH]; [done|]. apply returns_bind; [apply Hf|done]. Qed.
End EachLemmas.

Lemma each_res_first {A} (f : A -> Result unit) l e :
  each_res f l = Err e <-> exists l1 a l2, l = l1 ++ a :: l2 /\ Forall (fun b => f b = Ok tt) l1 /\ f a = Err e.
Proof.
  induction l as [|b l IH]; cbn [each_res].
  - split; [done|]. intros ([|? ?] & ? & ? & ? & _); done.
  - destruct (f b) as [[]|e'| |] eqn:E; cbn [bind].
    + rewrite IH. split.
      * intros (l1 & a & l2 & -> & H1 & H2). exists (b :: l1), a, l2. by split_and!; [|constructor|].
      * intros ([|b' l1] & a & l2 & [= <- Hl] & H1 & H2); [congruence|]. apply Forall_cons in H1 as [_ H1]. by exists l1, a, l2.
    + split; [intros [= ->]; by exists [], b, l|].
      intros ([|b' l1] & a & l2 & [= <- Hl] & H1 & H2); [congruence|]. apply Forall_cons in H1 as [H1 _]. congruence.
    + split; [done|]. intros ([|b' l1] & a & l2 & [= <- Hl] & H1 & H2); [congruence|]. apply Forall_cons in H1 as [H1 _]. congruence.
    + split; [done|]. intros ([|b' l1] & a & l2 & [= <- Hl] & H1 & H2); [congruence|]. apply Forall_cons in H1 as [H1 _]. congruence.
Qed.

Lemma Forall_zip_with {A B} (P : A -> B -> Prop) l k :
  length k = length l -> Forall (fun ab => P ab.1 ab.2) (zip l k) <-> Forall2 P l k.
Proof.
  revert k. induction l as [|a l IH]; intros [|b k] Hl; try discriminate Hl; cbn [zip zip_with].
  - split; intros _; constructor.
  - rewrite Forall_cons, Forall2_cons, IH by (cbn in Hl; lia). done.
Qed.

(** [inv_res] decomposes every successful [let?] in the context. *)
Ltac inv_res_one :=
  match goal with
  | H : bind ?m _ = Ok _ |- _ =>
      let a := fresh "a" in let E := fresh "E" in
      apply bind_Ok_inv in H; destruct H as (a & E & H)
  | H : ok_or _ _ = Ok _ |- _ => apply ok_or_Ok_inv in H
  | H : Ok _ = Ok _ |- _ => injection H as H
  | H : Err _ = Ok _ |- _ => discriminate H
  | H : Panic _ = Ok _ |- _ => discriminate H
  | H : OutOfFuel = Ok _ |- _ => discriminate H
  end.
Ltac inv_res := repeat (inv_res_one; simplify_eq/=).

(** Unfold the integer-width predicates and constants, then [lia]. *)
Ltac width :=
  unfold is_u8, is_u32, is_u64, is_i64, u8_max, u16_max, u32_max, u64_max,
    i64_max, i64_min in *; lia.

(** [lia] with division and remainder by constants. *)
Ltac zlia := Z.to_euclidean_division_equations; lia.

(** Decide a closed decidable goal by computation. *)
Ltac by_compute := apply (bool_decide_unpack _); vm_compute; exact I.

Section ByteLemmas.
Lemma is_u8_range z : is_u8 z <-> 0 <= z < 256.
Proof. width. Qed.

Lemma land_127 z : Z.land z 127 = z mod 128.
Proof. exact (Z.land_ones z 7 ltac:(lia)). Qed.

Lemma land_255 z : Z.land z 255 = z mod 256.
Proof. exact (Z.land_ones z 8 ltac:(lia)). Qed.

(** [a << n | b] is addition when [b] fits below the shift. *)
Lemma lor_shiftl_add a b n :
  0 <= n -> 0 <= b < 2 ^ n -> Z.lor (Z.shiftl a n) b = a * 2 ^ n + b.
Proof.
  intros Hn Hb. rewrite <- Z.shiftl_mul_pow2 by done.
  rewrite <- Z.lxor_lor, <- Z.add_nocarry_lxor; [done| |];
    apply Z.bits_inj'; intros i Hi; rewrite Z.land_spec, Z.bits_0;
    (destruct (Z.ltb_spec i n);
     [rewrite Z.shiftl_spec_low by lia; done|]);
    (replace (Z.testbit b i) with false; [by rewrite andb_false_r|]);
    symmetry; (destruct (decide (b = 0)) as [->|]; [apply Z.bits_0|]);
    apply Z.bits_above_log2; [lia| |lia|];
    (apply Z.lt_le_trans with n; [|lia]; apply Z.log2_lt_pow2; lia).
Qed.

(** [b | 0x80] sets the continuation bit of a 7-bit digit. *)
Lemma lor_128 b : 0 <= b < 128 -> Z.lor b 128 = b + 128.
Proof.
  intros Hb. rewrite Z.lor_comm. change 128 with (Z.shiftl 1 7) at 1.
  rewrite lor_shiftl_add by lia. lia.
Qed.

(** [b & 0x80 != 0] is [128 <= b] on a byte. *)
Lemma land_128 b : is_u8 b -> (Z.land b 128 =? 0) = (b <? 128).
Proof.
  intros Hb. apply is_u8_range in Hb.
  assert (H : forall n, (n < 256)%nat ->
    (Z.land (Z.of_nat n) 128 =? 0) = (Z.of_nat n <? 128)).
  { intros n Hn. do 256 (destruct n as [|n]; [reflexivity|]). lia. }
  specialize (H (Z.to_nat b)). rewrite Z2Nat.id in H by lia. apply H. lia.
Qed.

Lemma length_to_le n v : length (to_le n v) = n.
Proof. revert v. induction n; intros; simpl; auto. Qed.

Lemma length_to_be n v : length (to_be n v) = n.
Proof. unfold to_be. by rewrite length_rev, length_to_le. Qed.

Lemma to_le_bytes n v : is_bytes (to_le n v).
Proof.
  revert v. induction n as [|n IH]; intros v; simpl; constructor; [|apply IH].
  apply is_u8_range. apply Z.mod_pos_bound. lia.
Qed.

Lemma is_bytes_rev l : is_bytes l -> is_bytes (rev l).
Proof. apply Forall_rev. Qed.

Lemma to_be_bytes n v : is_bytes (to_be n v).
Proof. apply is_bytes_rev, to_le_bytes. Qed.

Lemma from_le_to_le n v : from_le (to_le n v) = v mod 256 ^ Z.of_nat n.
Proof.
  revert v. induction n as [|n IH]; intros v; simpl to_le; simpl from_le.
  - by rewrite Z.mod_1_r.
  - rewrite IH, Nat2Z.inj_succ, Z.pow_succ_r by lia.
    rewrite Z.rem_mul_r by lia. lia.
Qed.

Lemma from_le_to_le_small n v :
  0 <= v < 256 ^ Z.of_nat n -> from_le (to_le n v) = v.
Proof. intros. rewrite from_le_to_le. by apply Z.mod_small. Qed.

Lemma from_le_bound l : is_bytes l -> 0 <= from_le l < 256 ^ Zlen l.
Proof.
  unfold Zlen. induction 1 as [|b l Hb Hl IH]; simpl from_le; simpl length.
  - simpl. lia.
  - apply is_u8_range in Hb. rewrite Nat2Z.inj_succ, Z.pow_succ_r by lia. lia.
Qed.

Lemma to_le_from_le l : is_bytes l -> to_le (length l) (from_le l) = l.
Proof.
  induction 1 as [|b l Hb Hl IH]; simpl; [done|]. apply is_u8_range in Hb.
  f_equal.
  - zlia.
  - etrans; [|exact IH]. f_equal. zlia.
Qed.

Lemma from_be_to_be_small n v :
  0 <= v < 256 ^ Z.of_nat n -> from_be (to_be n v) = v.
Proof. intros. unfold from_be, to_be. rewrite rev_involutive. by apply from_le_to_le_small. Qed.

Lemma to_be_from_be l : is_bytes l -> to_be (length l) (from_be l) = l.
Proof.
  intros Hl. unfold to_be, from_be. rewrite <- (length_rev l).
  rewrite to_le_from_le by by apply is_bytes_rev. apply rev_involutive.
Qed.

Lemma from_be_bound l : is_bytes l -> 0 <= from_be l < 256 ^ Zlen l.
Proof.
  intros Hl. unfold from_be. replace (Zlen l) with (Zlen (rev l)).
  - by apply from_le_bound, is_bytes_rev.
  - unfold Zlen. by rewrite length_rev.
Qed.

Lemma is_bytes_app l1 l2 : is_bytes (l1 ++ l2) <-> is_bytes l1 /\ is_bytes l2.
Proof. apply Forall_app. Qed.

Lemma code_ascii_code a : code_ascii (ascii_code a) = a.
Proof. unfold code_ascii, ascii_code. rewrite N2Z.id. apply ascii_N_embedding. Qed.

Lemma ascii_code_byte a : is_u8 (ascii_code a).
Proof. unfold ascii_code. pose proof (N_ascii_bounded a). width. Qed.

Lemma bytes_string_bytes s : bytes_string (string_bytes s) = s.
Proof. induction s as [|a s IH]; simpl; [done|]. by rewrite code_ascii_code, IH. Qed.

Lemma string_bytes_is_bytes s : is_bytes (string_bytes s).
Proof. induction s; simpl; constructor; auto using ascii_code_byte. Qed.

Lemma string_bytes_string l : is_bytes l -> string_bytes (bytes_string l) = l.
Proof.
  induction 1 as [|b l Hb Hl IH]; simpl; [done|]. rewrite IH. f_equal.
  unfold ascii_code, code_ascii. rewrite N_ascii_embedding by width. width.
Qed.
End ByteLemmas.

#[export] Hint Resolve returns_ok_or : res_db.

#[export] Hint Resolve to_le_bytes to_be_bytes is_bytes_rev string_bytes_is_bytes
  ascii_code_byte : bytes_db.
#[export] Hint Rewrite length_to_le length_to_be @length_app @length_cons @length_nil
  @length_replicate @length_take @length_drop @length_map : len.

(** [len]: normalise list lengths and close by arithmetic. *)
Ltac len := unfold Zlen in *; autorewrite with len in *; try lia.

Section RangeLemmas.
Context {A : Type}.
Implicit Types l : list A.

Lemma Zlen_nonneg l : 0 <= Zlen l.
Proof. unfold Zlen. lia. Qed.

Lemma Zlen_app l1 l2 : Zlen (l1 ++ l2) = Zlen l1 + Zlen l2.
Proof. unfold Zlen. rewrite length_app. lia. Qed.

Lemma Zlen_cons a l : Zlen (a :: l) = 1 + Zlen l.
Proof. unfold Zlen. simpl. lia. Qed.

Lemma get_range_Some l a b s :
  get_range l a b = Some s <->
  0 <= a /\ a <= b /\ b <= Zlen l /\ s = take (Z.to_nat (b - a)) (drop (Z.to_nat a) l).
Proof.
  unfold get_range. case_bool_decide as Hc; split.
  - intros [= <-]. tauto.
  - by intros (_&_&_&->).
  - done.
  - tauto.
Qed.

Lemma get_range_None l a b :
  get_range l a b = None <-> ~ (0 <= a /\ a <= b /\ b <= Zlen l).
Proof. unfold get_range. by case_bool_decide; split. Qed.

Lemma get_range_Zlen l a b s : get_range l a b = Some s -> Zlen s = b - a.
Proof. rewrite get_range_Some. intros (?&?&?&->). len. Qed.

(** The middle of a concatenation. *)
Lemma get_range_app_mid l1 l2 l3 a b :
  a = Zlen l1 -> b = Zlen l1 + Zlen l2 -> get_range (l1 ++ l2 ++ l3) a b = Some l2.
Proof.
  intros -> ->. apply get_range_Some. rewrite !Zlen_app.
  pose proof (Zlen_nonneg l1). pose proof (Zlen_nonneg l2). pose proof (Zlen_nonneg l3).
  repeat split; [lia..|].
  replace (Zlen l1 + Zlen l2 - Zlen l1) with (Zlen l2) by lia.
  unfold Zlen. rewrite !Nat2Z.id, drop_app_length, take_app_length. done.
Qed.

Lemma get_range_app_l l1 l2 a b :
  b <= Zlen l1 -> get_range (l1 ++ l2) a b = get_range l1 a b.
Proof.
  intros Hb. unfold get_range. rewrite Zlen_app. pose proof (Zlen_nonneg l2).
  do 2 case_bool_decide; try (exfalso; lia); [|done]. f_equal.
  rewrite drop_app_le by (unfold Zlen in *; lia). apply take_app_le. len.
Qed.

Lemma get_from_drop l a : 0 <= a <= Zlen l -> get_from l a = Some (drop (Z.to_nat a) l).
Proof.
  intros Ha. unfold get_from. apply get_range_Some. split_and!; [lia..|].
  symmetry. apply take_ge. len.
Qed.

Lemma slice_range_Ok l a b s : slice_range l a b = Ok s <-> get_range l a b = Some s.
Proof. unfold slice_range. destruct (get_range l a b); split; congruence. Qed.
End RangeLemmas.

Lemma get_range_is_bytes (l : bytes) a b s :
  is_bytes l -> get_range l a b = Some s -> is_bytes s.
Proof.
  intros Hl. rewrite get_range_Some. intros (_&_&_&->).
  by apply Forall_take, Forall_drop.
Qed.
#[export] Hint Resolve get_range_is_bytes : bytes_db.

(** ** Three-way comparisons *)

(** What Rust's [Ord] promises: a comparison that decides equality, is antisymmetric
    and transitive, on the values satisfying [wf]. *)
Class CmpLaws {A : Type} (wf : A -> Prop) (cmp : A -> A -> comparison) : Prop := {
  cmp_refl a : cmp a a = Eq;
  cmp_eq a b : wf a -> wf b -> cmp a b = Eq -> a = b;
  cmp_antisym a b : cmp b a = CompOpp (cmp a b);
  cmp_trans a b c : wf a -> wf b -> wf c -> cmp a b = Lt -> cmp b c = Lt -> cmp a c = Lt
}.

(** The lexicographic [Ord] of slices and vectors. *)
Fixpoint lex_cmp {A} (cmp : A -> A -> comparison) (l1 l2 : list A) : comparison :=
  match l1, l2 with
  | [], [] => Eq
  | [], _ :: _ => Lt
  | _ :: _, [] => Gt
  | a :: l1', b :: l2' =>
      match cmp a b with Eq => lex_cmp cmp l1' l2' | c => c end
  end.

#[export] Instance Z_cmp_laws : CmpLaws (fun _ => True) Z.compare.
Proof.
  split.
  - apply Z.compare_refl.
  - intros a b _ _. apply Z.compare_eq.
  - intros a b. apply Z.compare_antisym.
  - intros a b c _ _ _. rewrite !Z.compare_lt_iff. lia.
Qed.

#[export] Instance lex_cmp_laws {A} (wf : A -> Prop) cmp :
  CmpLaws wf cmp -> CmpLaws (Forall wf) (lex_cmp cmp).
Proof.
  intros H. split.
  - intros l. induction l as [|a l IH]; simpl; [done|]. by rewrite cmp_refl.
  - intros l1. induction l1 as [|a l1 IH]; intros [|b l2]; simpl; try done.
    rewrite !Forall_cons. intros [Ha Hl1] [Hb Hl2].
    destruct (cmp a b) eqn:E; try done. intros E2.
    apply (cmp_eq (wf := wf)) in E; [|done..]. f_equal; auto.
  - intros l1. induction l1 as [|a l1 IH]; intros [|b l2]; simpl; try done.
    rewrite (cmp_antisym a b). destruct (cmp a b); simpl; auto.
  - intros l1. induction l1 as [|a l1 IH]; intros [|b l2] [|c l3]; simpl; try done.
    rewrite !Forall_cons. intros [Ha Hl1] [Hb Hl2] [Hc Hl3].
    destruct (cmp a b) eqn:E1; [|intros _|done].
    + apply (cmp_eq (wf := wf)) in E1; [|done..]. subst b.
      destruct (cmp a c); eauto.
    + destruct (cmp b c) eqn:E2; [|intros _|done].
      * apply (cmp_eq (wf := wf)) in E2; [|done..]. subst c. by rewrite E1.
      * by rewrite (cmp_trans (wf := wf) a b c).
Qed.

(** ** Reading back what was written at an offset *)

Lemma length_set_bytes l a src :
  (a + length src <= length l)%nat -> length (set_bytes l a src) = length l.
Proof. intros H. unfold set_bytes. len. Qed.

Lemma get_set_bytes l a src n :
  (a + length src <= length l)%nat -> n = length src -> get_bytes (set_bytes l a src) a n = src.
Proof.
  intros H ->. unfold get_bytes, set_bytes.
  rewrite drop_app_length' by len. by rewrite take_app_length.
Qed.

Lemma get_set_bytes_ne l a src b n :
  (a + length src <= length l)%nat -> (b + n <= a \/ a + length src <= b)%nat ->
  get_bytes (set_bytes l a src) b n = get_bytes l b n.
Proof.
  intros H Hd. apply list_eq. intros i. unfold get_bytes, set_bytes.
  destruct (decide (i < n)%nat) as [Hi|Hi].
  - rewrite !lookup_take_lt, !lookup_drop by done. destruct Hd as [Hd|Hd].
    + rewrite lookup_app_l by len. by rewrite lookup_take_lt by lia.
    + rewrite lookup_app_r by len. rewrite length_take, Nat.min_l by lia.
      rewrite lookup_app_r by lia. rewrite lookup_drop. f_equal. lia.
  - rewrite !lookup_take_ge by lia. done.
Qed.

Lemma set_bytes_is_bytes l a src : is_bytes l -> is_bytes src -> is_bytes (set_bytes l a src).
Proof.
  intros Hl Hs. unfold set_bytes. apply is_bytes_app. split; [by apply Forall_take|].
  apply is_bytes_app. split; [done|by apply Forall_drop].
Qed.
#[export] Hint Rewrite length_set_bytes using (rewrite ?length_to_le; simpl; lia) : len.

(** ** State passing *)

(** A method with [&mut self] that returns a [Result]: it takes the state and returns
    the outcome with the state it leaves, on the error paths too. *)
Definition ST (S A : Type) : Type := S -> Result A * S.

Definition st_ret {S A} (a : A) : ST S A := fun s => (Ok a, s).
Definition st_err {S A} (e : DbError) : ST S A := fun s => (Err e, s).
Definition st_fuel {S A} : ST S A := fun s => (OutOfFuel, s).
(** A call of a method that only reads the state. *)
Definition st_get {S A} (f : S -> Result A) : ST S A := fun s => (f s, s).
Definition st_read {S A} (f : S -> A) : ST S A := fun s => (Ok (f s), s).
(** An assignment. *)
Definition st_mod {S} (f : S -> S) : ST S unit := fun s => (Ok tt, f s).

Definition st_bind {S A B} (m : ST S A) (k : A -> ST S B) : ST S B := fun s =>
  match m s with
  | (Ok a, s) => k a s
  | (Err e, s) => (Err e, s)
  | (Panic w, s) => (Panic w, s)
  | (OutOfFuel, s) => (OutOfFuel, s)
  end.

Notation "'let!' x ':=' m 'in' k" := (st_bind m (fun x => k))
  (at level 10, x pattern, m at level 100, k at level 200) : res_scope.
Notation "m ';;!' k" := (st_bind m (fun _ => k))
  (at level 100, k at level 200, right associativity) : res_scope.
(** [if m { a } else { b }] *)
Notation "'if!' m 'then' a 'else' b" := (st_bind m (fun c : bool => if c then a else b))
  (at level 200, m at level 100, right associativity) : res_scope.

(** [match m { Err(error) => handler(error), ok => ok }], and [let _ = m;]. *)
Definition st_catch {S A} (m : ST S A) (handler : DbError -> ST S A) : ST S A := fun s =>
  match m s with
  | (Err e, s) => handler e s
  | r => r
  end.
Definition st_ignore {S A} (m : ST S A) : ST S unit :=
  st_catch (let! _ := m in st_ret tt) (fun _ => st_ret tt).

(** [for a in l { f(a)?; }] *)
Fixpoint st_each {S A} (f : A -> ST S unit) (l : list A) : ST S unit :=
  match l with
  | [] => st_ret tt
  | a :: l => f a ;;! st_each f l
  end.

(** [loop { a = body(a)?; }]: [body] gives the next value, or the one the loop ends with. *)
Fixpoint st_loop {S A B} (fuel : nat) (body : A -> ST S (A + B)) (a : A) : ST S B :=
  match fuel with
  | O => st_fuel
  | Datatypes.S fuel =>
      let! next := body a in
      match next with inl a => st_loop fuel body a | inr b => st_ret b end
  end.

(** [m] keeps the invariant [I], whatever its outcome. *)
Definition preserves {S A} (I : S -> Prop) (m : ST S A) : Prop :=
  forall s, I s -> I (m s).2.

(** What [m] guarantees from a state satisfying [P]: [Q] of its outcome and of the state
    it leaves. *)
Definition hoare {S A} (P : S -> Prop) (m : ST S A) (Q : Result A -> S -> Prop) : Prop :=
  forall s, P s -> Q (m s).1 (m s).2.

Create HintDb preserves_db.

Section StLemmas.
Context {S : Type}.
Implicit Types I P : S -> Prop.

Lemma st_bind_run {A B} (m : ST S A) (k : A -> ST S B) s :
  st_bind m k s =
  match (m s).1 with
  | Ok a => k a (m s).2
  | Err e => (Err e, (m s).2)
  | Panic w => (Panic w, (m s).2)
  | OutOfFuel => (OutOfFuel, (m s).2)
  end.
Proof. unfold st_bind. by destruct (m s) as [[] ?]. Qed.

Lemma preserves_ret {A} I (a : A) : preserves I (st_ret a).
Proof. by intros s Hs. Qed.
Lemma preserves_err {A} I e : preserves I (@st_err S A e).
Proof. by intros s Hs. Qed.
Lemma preserves_fuel {A} I : preserves I (@st_fuel S A).
Proof. by intros s Hs. Qed.
Lemma preserves_get {A} I (f : S -> Result A) : preserves I (st_get f).
Proof. by intros s Hs. Qed.
Lemma preserves_read {A} I (f : S -> A) : preserves I (st_read f).
Proof. by intros s Hs. Qed.
Lemma preserves_mod I f : (forall s, I s -> I (f s)) -> preserves I (st_mod f).
Proof. intros Hf s Hs. by apply Hf. Qed.
Lemma preserves_bind {A B} I (m : ST S A) (k : A -> ST S B) :
  preserves I m -> (forall a, preserves I (k a)) -> preserves I (st_bind m k).
Proof.
  intros Hm Hk s Hs. rewrite st_bind_run. pose proof (Hm s Hs).
  destruct (m s).1; [by apply Hk|done..].
Qed.

Lemma preserves_catch {A} I (m : ST S A) h : preserves I m -> (forall e, preserves I (h e)) -> preserves I (st_catch m h).
Proof.
  intros Hm Hh s Hs. unfold st_catch. specialize (Hm s Hs). destruct (m s) as [[] s']; cbn in *; first [done | by apply Hh].
Qed.
Lemma preserves_ignore {A} I (m : ST S A) : preserves I m -> preserves I (st_ignore m).
Proof. intros Hm. apply preserves_catch; [apply preserves_bind; [done|]|]; intros ?; apply preserves_ret. Qed.
Lemma preserves_each {A} I (f : A -> ST S unit) l : (forall a, preserves I (f a)) -> preserves I (st_each f l).
Proof. intros Hf. induction l; [apply preserves_ret|]. by apply preserves_bind. Qed.

Lemma hoare_ret {A} (a : A) P (Q : Result A -> S -> Prop) :
  (forall s, P s -> Q (Ok a) s) -> hoare P (st_ret a) Q.
Proof. intros Hq s Hs. by apply Hq. Qed.

Lemma hoare_bind {A B} P (m : ST S A) (k : A -> ST S B) (R : A -> S -> Prop)
    (Q : Result B -> S -> Prop) :
  hoare P m (fun r s => match r with
                        | Ok a => R a s
                        | Err e => Q (Err e) s
                        | Panic w => Q (Panic w) s
                        | OutOfFuel => Q OutOfFuel s
                        end) ->
  (forall a, hoare (R a) (k a) Q) -> hoare P (st_bind m k) Q.
Proof.
  intros Hm Hk s Hs. rewrite st_bind_run. specialize (Hm s Hs).
  destruct (m s).1; [by apply Hk|done..].
Qed.

Lemma hoare_weaken {A} P P' (m : ST S A) (Q Q' : Result A -> S -> Prop) :
  hoare P' m Q' -> (forall s, P s -> P' s) -> (forall r s, Q' r s -> Q r s) -> hoare P m Q.
Proof. intros Hm HP HQ s Hs. apply HQ, Hm, HP, Hs. Qed.
End StLemmas.

#[export] Hint Resolve preserves_ret preserves_err preserves_fuel preserves_get
  preserves_read preserves_mod preserves_bind preserves_catch preserves_ignore preserves_each : preserves_db.

(** Split a state-passing body into its calls, branch by branch; what is left is that
    each call preserves the invariant. *)
Ltac preserve :=
  repeat first
    [ apply preserves_ret | apply preserves_err | apply preserves_fuel
    | apply preserves_get | apply preserves_read
    | solve [eauto with preserves_db]
    | match goal with
      | |- preserves _ (st_bind _ _) => apply preserves_bind; [|intros ?]
      | |- preserves _ (match ?x with _ => _ end) => destruct x
      | |- preserves _ (let _ := _ in _) => cbv zeta
      end ].

(** ** Stable sorting: [sort_by] and friends *)

Section Sorting.
Context {A : Type} (cmp : A -> A -> comparison).

(** The position of an element among those that are not after it. *)
Fixpoint insert_sorted (a : A) (l : list A) : list A :=
  match l with
  | [] => [a]
  | b :: l' => match cmp a b with
               | Gt => b :: insert_sorted a l'
               | _ => a :: b :: l'
               end
  end.

(** [slice::sort_by]: equal elements keep their order. *)
Fixpoint sort_by (l : list A) : list A :=
  match l with
  | [] => []
  | a :: l' => insert_sorted a (sort_by l')
  end.

Lemma insert_sorted_perm a l : insert_sorted a l ≡ₚ a :: l.
Proof.
  induction l as [|b l IH]; simpl; [done|]. destruct (cmp a b); [done..|].
  rewrite IH. constructor.
Qed.

Lemma sort_by_perm l : sort_by l ≡ₚ l.
Proof. induction l as [|a l IH]; simpl; [done|]. by rewrite insert_sorted_perm, IH. Qed.

Lemma elem_of_sort_by a l : a ∈ sort_by l <-> a ∈ l.
Proof. by rewrite sort_by_perm. Qed.

Definition le_cmp (a b : A) : Prop := cmp a b <> Gt.

Lemma insert_sorted_sorted a l :
  (forall x y, cmp x y = Gt -> cmp y x <> Gt) ->
  Sorted le_cmp l -> Sorted le_cmp (insert_sorted a l).
Proof.
  intros Hgt. induction 1 as [|b l Hl IH Hd]; simpl; [by repeat constructor|].
  destruct (cmp a b) eqn:E.
  - constructor; [by constructor|]. constructor. unfold le_cmp. congruence.
  - constructor; [by constructor|]. constructor. unfold le_cmp. congruence.
  - constructor; [done|]. destruct l as [|c l]; simpl in *.
    + constructor. by apply Hgt.
    + inversion Hd; subst. destruct (cmp a c); constructor; auto; by apply Hgt.
Qed.

Lemma sort_by_sorted l :
  (forall x y, cmp x y = Gt -> cmp y x <> Gt) -> Sorted le_cmp (sort_by l).
Proof. intros Hgt. induction l; simpl; [constructor|by apply insert_sorted_sorted]. Qed.
End Sorting.

(** The elements of a [BTreeSet] of integers, in its (ascending) order. *)
Definition sorted_elements (s : gset Z) : list Z := sort_by Z.compare (elements s).

Lemma elem_of_sorted_elements x s : x ∈ sorted_elements s <-> x ∈ s.
Proof. unfold sorted_elements. by rewrite elem_of_sort_by, elem_of_elements. Qed.

(** A [BTreeMap]'s entries in key order. *)
Definition sorted_items {A} (m : gmap Z A) : list (Z * A) :=
  sort_by (fun a b => a.1 ?= b.1) (map_to_list m).

Lemma elem_of_sorted_items {A} (m : gmap Z A) q x : (q, x) ∈ sorted_items m <-> m !! q = Some x.
Proof. unfold sorted_items. by rewrite elem_of_sort_by, elem_of_map_to_list. Qed.

Lemma sorted_items_NoDup {A} (m : gmap Z A) : NoDup (map fst (sorted_items m)).
Proof.
  unfold sorted_items. pose proof (sort_by_perm (fun a b : Z * A => a.1 ?= b.1) (map_to_list m)) as Hp.
  apply (Permutation_map fst) in Hp. rewrite Hp. apply NoDup_fst_map_to_list.
Qed.

Lemma list_to_map_sorted_items {A} (m : gmap Z A) : list_to_map (sorted_items m) = m.
Proof.
  apply map_eq. intros k. apply option_eq. intros x. rewrite <- elem_of_list_to_map by apply sorted_items_NoDup.
  apply elem_of_sorted_items.
Qed.

Lemma length_sorted_items {A} (m : gmap Z A) : length (sorted_items m) = size m.
Proof. unfold sorted_items. by rewrite sort_by_perm, length_map_to_list. Qed.

(** Two ascending lists of pairs with the same elements are equal. *)
Lemma ascending_unique {A} (l1 l2 : list (Z * A)) :
  StronglySorted (fun a b => a.1 < b.1) l1 -> StronglySorted (fun a b => a.1 < b.1) l2 ->
  (forall x, x ∈ l1 <-> x ∈ l2) -> l1 = l2.
Proof.
  intros H1 H2 Heq. revert l2 H2 Heq. induction H1 as [|a l1 H1 IH Ha]; intros l2 H2 Heq.
  - destruct l2 as [|b l2]; [done|]. exfalso. apply (not_elem_of_nil b), Heq. by left.
  - destruct H2 as [|b l2 H2 Hb].
    { exfalso. apply (not_elem_of_nil a), Heq. by left. }
    rewrite Forall_forall in Ha, Hb.
    assert (a = b) as <-.
    { assert (Hab : a ∈ b :: l2) by (apply Heq; by left). assert (Hba : b ∈ a :: l1) by (apply Heq; by left).
      apply elem_of_cons in Hab as [->|Hab]; [done|]. apply elem_of_cons in Hba as [->|Hba]; [done|].
      specialize (Ha _ Hba). specialize (Hb _ Hab). lia. }
    f_equal. apply IH; [done|]. intros x. split; intros Hx.
    + assert (Hx' : x ∈ a :: l2) by (apply Heq; by right). apply elem_of_cons in Hx' as [->|?]; [|done].
      specialize (Ha _ Hx). lia.
    + assert (Hx' : x ∈ a :: l1) by (apply Heq; by right). apply elem_of_cons in Hx' as [->|?]; [|done].
      specialize (Hb _ Hx). lia.
Qed.

Lemma sorted_items_ascending {A} (m : gmap Z A) : StronglySorted (fun a b => a.1 < b.1) (sorted_items m).
Proof.
  assert (Hs : StronglySorted (le_cmp (fun a b : Z * A => a.1 ?= b.1)) (sorted_items m)).
  { apply Sorted_StronglySorted; [intros a b c; unfold le_cmp; rewrite !Z.compare_ngt_iff; lia|]. apply sort_by_sorted.
    intros a b. rewrite Z.compare_gt_iff, Z.compare_ngt_iff. lia. }
  pose proof (sorted_items_NoDup m) as Hnd. induction Hs as [|a l Hl IH Ha]; [constructor|].
  apply NoDup_cons in Hnd as [Hn Hnd]. constructor; [by apply IH|]. rewrite Forall_forall in *. intros b Hb.
  specialize (Ha b Hb). apply Z.compare_ngt_iff in Ha. assert (a.1 <> b.1); [|lia]. intros Heq. apply Hn. rewrite Heq. by apply list_elem_of_fmap_2.
Qed.

(** ** Concrete encodings, for the witnesses *)

(** A binary numeral, one bit per byte. *)
Fixpoint bits_of (p : positive) : bytes :=
  match p with xH => [] | xO p => 0 :: bits_of p | xI p => 1 :: bits_of p end.
Fixpoint of_bits (b : bytes) : positive :=
  match b with [] => xH | 0 :: b => xO (of_bits b) | _ :: b => xI (of_bits b) end.

Lemma of_bits_of p : of_bits (bits_of p) = p.
Proof. induction p; simpl; congruence. Qed.
