(* ===== verification/Text.v ===== *)
(** * Text: what the source uses of Rust's [char] and [str]

    Characters as code points, UTF-8 and its lossy decoder, white space, trimming,
    searching, and the parsing of integers. Texts themselves are byte strings
    ([Types.Text]); [chars] and [of_chars] go between the two. *)

From S2P Require Import Prelude.

(** ** Characters *)

Abbreviation char := Z.

(** A [char]: a Unicode scalar value. *)
Definition is_char (c : char) : Prop := 0 <= c <= 55295 \/ 57344 <= c <= 1114111.
#[export] Instance is_char_dec c : Decision (is_char c).
Proof. unfold is_char. apply _. Defined.

(** [u8::is_ascii_alphabetic], [is_ascii_digit] and [is_ascii_alphanumeric], which are the
    tests of [char] too. *)
Definition is_ascii (c : char) : bool := c <=? 127.
Definition is_ascii_uppercase (c : char) : bool := (65 <=? c) && (c <=? 90).
Definition is_ascii_lowercase (c : char) : bool := (97 <=? c) && (c <=? 122).
Definition is_ascii_alphabetic (c : char) : bool := is_ascii_uppercase c || is_ascii_lowercase c.
Definition is_ascii_digit (c : char) : bool := (48 <=? c) && (c <=? 57).
Definition is_ascii_alphanumeric (c : char) : bool := is_ascii_alphabetic c || is_ascii_digit c.
Definition ascii_lower (c : char) : char := if is_ascii_uppercase c then c + 32 else c.
Definition ascii_upper (c : char) : char := if is_ascii_lowercase c then c - 32 else c.

(** [char::is_whitespace]: the property [White_Space]. *)
Definition is_whitespace (c : char) : bool :=
  ((9 <=? c) && (c <=? 13)) || (c =? 32) || (c =? 133) || (c =? 160) || (c =? 5760) ||
  ((8192 <=? c) && (c <=? 8202)) || (c =? 8232) || (c =? 8233) || (c =? 8239) || (c =? 8287) || (c =? 12288).

(** The code point of a character literal: [c#"*"] is ['*']. *)
Notation "'c#' a" := (ltac:(let z := eval vm_compute in (ascii_code a%char) in exact z)) (at level 0, a at level 0, only parsing).
Definition underscore : char := c#"_".

(** ** UTF-8 *)

Definition is_cont (b : Z) : bool := (128 <=? b) && (b <=? 191).

(** [std::str::from_utf8] accepts the bytes. *)
Fixpoint utf8_valid (l : bytes) : bool :=
  match l with
  | [] => true
  | b0 :: r0 =>
      if b0 <=? 127 then utf8_valid r0
      else match r0 with
      | [] => false
      | b1 :: r1 =>
          if (194 <=? b0) && (b0 <=? 223) then is_cont b1 && utf8_valid r1
          else match r1 with
          | [] => false
          | b2 :: r2 =>
              if (224 <=? b0) && (b0 <=? 239) then
                is_cont b1 && is_cont b2 &&
                (negb (b0 =? 224) || (160 <=? b1)) && (negb (b0 =? 237) || (b1 <=? 159)) &&
                utf8_valid r2
              else match r2 with
              | [] => false
              | b3 :: r3 =>
                  (240 <=? b0) && (b0 <=? 244) && is_cont b1 && is_cont b2 && is_cont b3 &&
                  (negb (b0 =? 240) || (144 <=? b1)) && (negb (b0 =? 244) || (b1 <=? 143)) &&
                  utf8_valid r3
              end
          end
      end
  end.

(** [char::len_utf8] and [char::encode_utf8]. *)
Definition len_utf8 (c : char) : Z := if c <? 128 then 1 else if c <? 2048 then 2 else if c <? 65536 then 3 else 4.
Definition encode_utf8 (c : char) : bytes :=
  if c <? 128 then [c]
  else if c <? 2048 then [192 + c / 64; 128 + c mod 64]
  else if c <? 65536 then [224 + c / 4096; 128 + c / 64 mod 64; 128 + c mod 64]
  else [240 + c / 262144; 128 + c / 4096 mod 64; 128 + c / 64 mod 64; 128 + c mod 64].

(** The second byte a sequence of three or four may have. *)
Definition second_of_three (b0 b1 : Z) : bool :=
  is_cont b1 && (negb (b0 =? 224) || (160 <=? b1)) && (negb (b0 =? 237) || (b1 <=? 159)).
Definition second_of_four (b0 b1 : Z) : bool :=
  is_cont b1 && (negb (b0 =? 240) || (144 <=? b1)) && (negb (b0 =? 244) || (b1 <=? 143)).
Definition replacement : char := 65533.

(** The characters of [String::from_utf8_lossy]: every longest prefix of a sequence that
    is not one becomes U+FFFD. On UTF-8 these are [str::chars]. *)
Fixpoint decode_utf8 (l : bytes) : list char :=
  match l with
  | [] => []
  | b0 :: r0 =>
      if b0 <=? 127 then b0 :: decode_utf8 r0
      else if (194 <=? b0) && (b0 <=? 223) then
        match r0 with
        | b1 :: r1 => if is_cont b1 then ((b0 - 192) * 64 + (b1 - 128)) :: decode_utf8 r1 else replacement :: decode_utf8 r0
        | [] => [replacement]
        end
      else if (224 <=? b0) && (b0 <=? 239) then
        match r0 with
        | b1 :: r1 =>
            if second_of_three b0 b1 then
              match r1 with
              | b2 :: r2 =>
                  if is_cont b2 then ((b0 - 224) * 4096 + (b1 - 128) * 64 + (b2 - 128)) :: decode_utf8 r2
                  else replacement :: decode_utf8 r1
              | [] => [replacement]
              end
            else replacement :: decode_utf8 r0
        | [] => [replacement]
        end
      else if (240 <=? b0) && (b0 <=? 244) then
        match r0 with
        | b1 :: r1 =>
            if second_of_four b0 b1 then
              match r1 with
              | b2 :: r2 =>
                  if is_cont b2 then
                    match r2 with
                    | b3 :: r3 =>
                        if is_cont b3 then
                          ((b0 - 240) * 262144 + (b1 - 128) * 4096 + (b2 - 128) * 64 + (b3 - 128)) :: decode_utf8 r3
                        else replacement :: decode_utf8 r2
                    | [] => [replacement]
                    end
                  else replacement :: decode_utf8 r1
              | [] => [replacement]
              end
            else replacement :: decode_utf8 r0
        | [] => [replacement]
        end
      else replacement :: decode_utf8 r0
  end.

Definition chars (s : string) : list char := decode_utf8 (string_bytes s).
Definition of_chars (l : list char) : string := bytes_string (flat_map encode_utf8 l).
Definition from_utf8_lossy (b : bytes) : string := of_chars (decode_utf8 b).

(** [str::len]. *)
Definition byte_len (l : list char) : Z := Zlen (flat_map encode_utf8 l).

(** [str::to_ascii_uppercase], [str::to_ascii_lowercase] and [str::eq_ignore_ascii_case]. *)
Definition to_ascii_uppercase (s : string) : string := bytes_string (map ascii_upper (string_bytes s)).
Definition to_ascii_lowercase (s : string) : string := bytes_string (map ascii_lower (string_bytes s)).
Definition str_eq_ignore_case (a b : string) : bool := String.eqb (to_ascii_lowercase a) (to_ascii_lowercase b).

(** ** Trimming and searching *)

(** [trim_start_matches], [trim_end_matches] and [trim_matches]. *)
Fixpoint trim_start_matches (f : char -> bool) (l : list char) : list char :=
  match l with
  | [] => []
  | c :: l' => if f c then trim_start_matches f l' else l
  end.
Definition trim_end_matches (f : char -> bool) (l : list char) : list char := rev (trim_start_matches f (rev l)).
Definition trim_matches (f : char -> bool) (l : list char) : list char := trim_end_matches f (trim_start_matches f l).
Definition trim (l : list char) : list char := trim_matches is_whitespace l.

(** The longest prefix whose characters satisfy [f], and the rest. *)
Fixpoint span (f : char -> bool) (l : list char) : list char * list char :=
  match l with
  | [] => ([], [])
  | c :: l' => if f c then let (taken, rest) := span f l' in (c :: taken, rest) else ([], l)
  end.

(** Whether [l] starts with [p], and what follows it. *)
Fixpoint strip_prefix (p l : list Z) : option (list Z) :=
  match p, l with
  | [], _ => Some l
  | a :: p, b :: l => if a =? b then strip_prefix p l else None
  | _ :: _, [] => None
  end.

(** [str::find]: the position, in characters, of the first occurrence. *)
Fixpoint find_sub (needle l : list Z) : option nat :=
  match strip_prefix needle l with
  | Some _ => Some O
  | None => match l with [] => None | _ :: l => S <$> find_sub needle l end
  end.

(** [str::replace] for a nonempty pattern: the occurrences from the left, none overlapping. *)
Fixpoint replace_loop (fuel : nat) (pattern replacement l : list char) : list char :=
  match fuel with
  | O => l
  | S fuel =>
      match strip_prefix pattern l with
      | Some l => replacement ++ replace_loop fuel pattern replacement l
      | None => match l with [] => [] | c :: l => c :: replace_loop fuel pattern replacement l end
      end
  end.
Definition replace (pattern replacement l : list char) : list char := replace_loop (S (length l)) pattern replacement l.

(** [split_once('\0')]: what precedes the first null character. *)
Fixpoint before_nul (l : list char) : list char :=
  match l with
  | [] => []
  | c :: l => if c =? 0 then [] else c :: before_nul l
  end.

(** ** Integers in text *)

(** [IntErrorKind], as the [Display] of a [ParseIntError]. *)
Inductive IntError := IntEmpty | InvalidDigit | PosOverflow | NegOverflow.
Definition int_error_message (e : IntError) : string :=
  match e with
  | IntEmpty => "cannot parse integer from empty string"
  | InvalidDigit => "invalid digit found in string"
  | PosOverflow => "number too large to fit in target type"
  | NegOverflow => "number too small to fit in target type"
  end.

(** [char::to_digit]. *)
Definition to_digit (radix : Z) (c : char) : option Z :=
  let d := if is_ascii_digit c then c - 48
           else if is_ascii_lowercase c then c - 87
           else if is_ascii_uppercase c then c - 55 else 36 in
  if d <? radix then Some d else None.

(** The digits of [from_str_radix]; [step] adds one to the result if it still fits. *)
Fixpoint parse_digits (radix : Z) (step : Z -> Z -> IntError + Z) (acc : Z) (l : list char) : IntError + Z :=
  match l with
  | [] => inr acc
  | c :: l =>
      match to_digit radix c with
      | None => inl InvalidDigit
      | Some d => match step acc d with inl e => inl e | inr acc => parse_digits radix step acc l end
      end
  end.
Definition step_up (radix max : Z) (acc d : Z) : IntError + Z :=
  if acc * radix + d <=? max then inr (acc * radix + d) else inl PosOverflow.
Definition step_down (radix min : Z) (acc d : Z) : IntError + Z :=
  if min <=? acc * radix - d then inr (acc * radix - d) else inl NegOverflow.

(** [u64::from_str_radix] and [u8::from_str_radix]: a sign [+] is skipped. *)
Definition from_str_radix_unsigned (max radix : Z) (l : list char) : IntError + Z :=
  match l with
  | [] => inl IntEmpty
  | [43] | [45] => inl InvalidDigit
  | 43 :: l => parse_digits radix (step_up radix max) 0 l
  | _ => parse_digits radix (step_up radix max) 0 l
  end.

(** [str::parse::<i64>]. *)
Definition parse_i64 (l : list char) : IntError + Z :=
  match l with
  | [] => inl IntEmpty
  | [43] | [45] => inl InvalidDigit
  | 45 :: l => parse_digits 10 (step_down 10 i64_min) 0 l
  | 43 :: l => parse_digits 10 (step_up 10 i64_max) 0 l
  | _ => parse_digits 10 (step_up 10 i64_max) 0 l
  end.

(** ** Lemmas *)

(** The digits of [c] in base 64. *)
Lemma base64_digits c : 0 <= c ->
  exists w x y z, c = w * 262144 + x * 4096 + y * 64 + z /\ 0 <= x < 64 /\ 0 <= y < 64 /\ 0 <= z < 64 /\ 0 <= w /\
    c / 64 = w * 4096 + x * 64 + y /\ c / 4096 = w * 64 + x /\ c / 262144 = w /\
    c mod 64 = z /\ c / 64 mod 64 = y /\ c / 4096 mod 64 = x.
Proof.
  intros Hc. exists (c / 64 / 64 / 64), (c / 64 / 64 mod 64), (c / 64 mod 64), (c mod 64).
  replace (c / 4096) with (c / 64 / 64) by by rewrite Z.div_div. replace (c / 262144) with (c / 64 / 64 / 64) by by rewrite !Z.div_div.
  pose proof (Z.div_mod c 64). pose proof (Z.div_mod (c / 64) 64). pose proof (Z.div_mod (c / 64 / 64) 64).
  pose proof (Z.mod_pos_bound c 64). pose proof (Z.mod_pos_bound (c / 64) 64). pose proof (Z.mod_pos_bound (c / 64 / 64) 64).
  assert (0 <= c / 64 / 64 / 64) by (repeat apply Z.div_pos; lia). split_and!; lia.
Qed.

Lemma is_cont_add x : 0 <= x < 64 -> is_cont (128 + x) = true.
Proof. unfold is_cont. lia. Qed.

(** Settles the tests on a leading byte. *)
Ltac leading :=
  repeat match goal with
  | |- context [if ?b then _ else _] => first [replace b with true by lia | replace b with false by lia]; cbn iota
  end.

Lemma decode_encode_utf8 c l : is_char c -> decode_utf8 (encode_utf8 c ++ l) = c :: decode_utf8 l.
Proof.
  intros Hc. unfold is_char in Hc.
  destruct (base64_digits c) as (w & x & y & z & Heq & Hx & Hy & Hz & Hw & E1 & E2 & E3 & E4 & E5 & E6); [lia|].
  unfold encode_utf8. rewrite E4, E5, E6, E1, E2, E3. clear E1 E2 E3 E4 E5 E6.
  destruct (Z.ltb_spec c 128); [|destruct (Z.ltb_spec c 2048); [|destruct (Z.ltb_spec c 65536)]]; cbn [app decode_utf8].
  - by destruct (Z.leb_spec c 127); [|lia].
  - rewrite is_cont_add by done. leading. f_equal. lia.
  - rewrite is_cont_add by done. replace (second_of_three (224 + (w * 64 + x)) (128 + y)) with true.
    2:{ symmetry. unfold second_of_three. rewrite is_cont_add by done. cbn [andb]. assert (w = 0) as -> by lia. destruct (Z.eqb_spec (224 + (0 * 64 + x)) 224), (Z.eqb_spec (224 + (0 * 64 + x)) 237); lia. }
    leading. f_equal. lia.
  - rewrite !is_cont_add by done. replace (second_of_four (240 + w) (128 + x)) with true.
    2:{ symmetry. unfold second_of_four. rewrite is_cont_add by done. cbn [andb]. destruct (Z.eqb_spec (240 + w) 240), (Z.eqb_spec (240 + w) 244); lia. }
    leading. f_equal. lia.
Qed.

Lemma decode_flat_map l : Forall is_char l -> decode_utf8 (flat_map encode_utf8 l) = l.
Proof. induction 1 as [|c l Hc Hl IH]; [done|]. cbn [flat_map]. by rewrite decode_encode_utf8, IH. Qed.

Lemma encode_utf8_bytes c : is_char c -> is_bytes (encode_utf8 c).
Proof.
  intros Hc. unfold is_char in Hc.
  destruct (base64_digits c) as (w & x & y & z & Heq & Hx & Hy & Hz & Hw & E1 & E2 & E3 & E4 & E5 & E6); [lia|].
  unfold encode_utf8. rewrite E4, E5, E6, E1, E2, E3. clear E1 E2 E3 E4 E5 E6.
  destruct (Z.ltb_spec c 128); [|destruct (Z.ltb_spec c 2048); [|destruct (Z.ltb_spec c 65536)]];
    repeat constructor; unfold u8_max; lia.
Qed.

Lemma flat_map_encode_bytes l : Forall is_char l -> is_bytes (flat_map encode_utf8 l).
Proof.
  induction 1 as [|c l Hc Hl IH]; [constructor|]. cbn [flat_map]. apply Forall_app. split; [by apply encode_utf8_bytes|done].
Qed.

Lemma chars_of_chars l : Forall is_char l -> chars (of_chars l) = l.
Proof. intros Hl. unfold chars, of_chars. rewrite string_bytes_string by by apply flat_map_encode_bytes. by apply decode_flat_map. Qed.

Lemma encode_utf8_length c : Zlen (encode_utf8 c) = len_utf8 c.
Proof. unfold encode_utf8, len_utf8. by repeat case_match. Qed.

Lemma len_utf8_pos c : 1 <= len_utf8 c <= 4.
Proof. unfold len_utf8. repeat case_match; lia. Qed.

Lemma byte_len_app l1 l2 : byte_len (l1 ++ l2) = byte_len l1 + byte_len l2.
Proof. unfold byte_len, Zlen. rewrite flat_map_app, length_app. lia. Qed.

Lemma byte_len_cons c l : byte_len (c :: l) = len_utf8 c + byte_len l.
Proof. rewrite <- encode_utf8_length. unfold byte_len, Zlen. cbn [flat_map]. rewrite length_app. lia. Qed.

Lemma byte_len_nonneg l : 0 <= byte_len l.
Proof. unfold byte_len, Zlen. lia. Qed.

#[export] Hint Rewrite byte_len_app byte_len_cons : len.
