(* ===== verification/Varint.v ===== *)
(** * SQLite varints: [src/storage/sqlite3/varint.rs]

    [encode_varint] and [decode_varint] as written, and the theorems that they
    are mutually inverse: every [u64] decodes back, and every byte string that
    decodes is the canonical encoding of its value. *)

From S2P Require Import Prelude.

(** ** The code *)

Definition is_canonical_varint (value : Z) (length : nat) : bool :=
  match length with
  | 1%nat => true
  | 2%nat | 3%nat | 4%nat | 5%nat | 6%nat | 7%nat | 8%nat =>
      u64_shl 1 (7 * (Z.of_nat length - 1)) <=? value
  | 9%nat => 72057594037927935 <? value
  | _ => false
  end.

Arguments is_canonical_varint : simpl never.

(** The [for index in (0..8).rev()] loop of the nine-byte form. *)
Fixpoint encode_nine (n : nat) (value : Z) (buf : bytes) : bytes :=
  match n with
  | O => buf
  | S index =>
      encode_nine index (Z.shiftr value 7) (<[index := Z.lor (Z.land value 127) 128]> buf)
  end.

(** The [while value > 0] loop: fills [buf] downwards from [index] and returns the
    final index. [index] is the recursion measure: the loop leaves through its
    [break] before [index] can be decremented below zero. *)
Fixpoint encode_fill (value : Z) (index : nat) (buf : bytes) : nat * bytes :=
  if 0 <? value then
    let buf := <[index := Z.land value 127]> buf in
    let value := Z.shiftr value 7 in
    if value =? 0 then (index, buf)
    else match index with
         | O => (index, buf)
         | S index' => encode_fill value index' buf
         end
  else (index, buf).

Definition encode_varint (value : Z) : bytes :=
  if value <=? 127 then [value]
  else if 72057594037927935 <? value then
    let buf := <[8%nat := Z.land value 255]> (replicate 9 0) in
    encode_nine 8 (Z.shiftr value 8) buf
  else
    let '(index, buf) := encode_fill value 8 (replicate 9 0) in
    let buf := imap (fun i b => if bool_decide (index <= i < 8)%nat then Z.lor b 128 else b) buf in
    drop index buf.

(** The [for (index, byte) in bytes.iter().enumerate().take(9)] loop. *)
Fixpoint decode_loop (index : nat) (value : Z) (buf : bytes) : Result (Z * Z) :=
  match buf with
  | [] => Err (Storage "truncated sqlite varint")
  | byte :: rest =>
      if (index =? 8)%nat then
        let value := Z.lor (u64_shl value 8) byte in
        if is_canonical_varint value 9 then Ok (value, 9)
        else Err (Storage "non-canonical sqlite varint")
      else
        let value := Z.lor (u64_shl value 7) (Z.land byte 127) in
        if Z.land byte 128 =? 0 then
          let length := S index in
          if is_canonical_varint value length then Ok (value, Z.of_nat length)
          else Err (Storage "non-canonical sqlite varint")
        else decode_loop (S index) value rest
  end.

Definition decode_varint (buf : bytes) : Result (Z * Z) := decode_loop 0 0 buf.

(** ** Reference: base-128 digits, most significant first *)

(** [n] continuation digits of [v]. *)
Fixpoint digits_hi (n : nat) (v : Z) : bytes :=
  match n with
  | O => []
  | S n' => digits_hi n' (v / 128) ++ [v mod 128 + 128]
  end.

(** The value of a run of continuation digits after the accumulator [acc]. *)
Definition fold_hi (acc : Z) (l : bytes) : Z :=
  fold_left (fun a b => a * 128 + b mod 128) l acc.

(** The number of continuation digits of [v] below [2^56]. *)
Definition digit_count (v : Z) : nat := Z.to_nat (Z.log2 v / 7).

Definition encode_spec (v : Z) : bytes :=
  if v <? 72057594037927936
  then digits_hi (digit_count v) (v / 128) ++ [v mod 128]
  else digits_hi 8 (v / 256) ++ [v mod 256].

(** ** Digits *)

Lemma length_digits_hi n v : length (digits_hi n v) = n.
Proof. revert v. induction n; intros; simpl; len. rewrite IHn. lia. Qed.

Lemma digits_hi_bytes n v : Forall (fun b => 128 <= b < 256) (digits_hi n v).
Proof.
  revert v. induction n as [|n IH]; intros v; simpl; [constructor|].
  apply Forall_app. split; [apply IH|]. constructor; [zlia|constructor].
Qed.

Lemma fold_hi_digits n v acc :
  fold_hi acc (digits_hi n v) = acc * 128 ^ Z.of_nat n + v mod 128 ^ Z.of_nat n.
Proof.
  unfold fold_hi. revert v acc. induction n as [|n IH]; intros v acc.
  - simpl. rewrite Z.mod_1_r. lia.
  - simpl digits_hi. rewrite fold_left_app, IH. simpl fold_left.
    rewrite Nat2Z.inj_succ, Z.pow_succ_r by lia.
    rewrite Z.rem_mul_r by lia.
    replace ((v mod 128 + 128) mod 128) with (v mod 128) by zlia. lia.
Qed.

Lemma fold_hi_bound acc l :
  0 <= acc -> 0 <= fold_hi acc l < (acc + 1) * 128 ^ Zlen l.
Proof.
  unfold fold_hi, Zlen. revert acc. induction l as [|b l IH]; intros acc Ha; simpl fold_left.
  - simpl. lia.
  - assert (0 <= b mod 128 < 128) by (apply Z.mod_pos_bound; lia).
    specialize (IH (acc * 128 + b mod 128) ltac:(lia)).
    simpl length. rewrite Nat2Z.inj_succ, Z.pow_succ_r by lia.
    assert (0 < 128 ^ Z.of_nat (length l)) by lia. nia.
Qed.

Lemma fold_hi_snoc acc l b : fold_hi acc (l ++ [b]) = fold_hi acc l * 128 + b mod 128.
Proof. unfold fold_hi. by rewrite fold_left_app. Qed.

(** Reading a run back digit by digit. *)
Lemma digits_hi_fold l :
  Forall (fun b => 128 <= b < 256) l -> digits_hi (length l) (fold_hi 0 l) = l.
Proof.
  induction l as [|b l IH] using rev_ind; intros Hl; [done|].
  apply Forall_app in Hl as [Hl Hb]. apply Forall_cons in Hb as [Hb _]. simpl in Hb.
  rewrite length_app, Nat.add_comm. simpl length. simpl digits_hi.
  rewrite fold_hi_snoc. assert (0 <= b mod 128 < 128) by (apply Z.mod_pos_bound; lia).
  f_equal.
  - rewrite Z.div_add_l, Z.div_small, Z.add_0_r by lia. by apply IH.
  - f_equal. zlia.
Qed.

(** ** The decoder on digits *)

Lemma decode_step_value value byte :
  0 <= value < 2 ^ 49 ->
  Z.lor (u64_shl value 7) (Z.land byte 127) = value * 128 + byte mod 128.
Proof.
  intros Hv. unfold u64_shl, wrap64. rewrite Z.shiftl_mul_pow2 by lia.
  rewrite Z.mod_small, <- Z.shiftl_mul_pow2, land_127 by lia.
  apply lor_shiftl_add; [lia|]. apply Z.mod_pos_bound. lia.
Qed.

Lemma decode_last_value value byte :
  0 <= value < 2 ^ 56 -> is_u8 byte ->
  Z.lor (u64_shl value 8) byte = value * 256 + byte.
Proof.
  intros Hv Hb%is_u8_range. unfold u64_shl, wrap64. rewrite Z.shiftl_mul_pow2 by lia.
  rewrite Z.mod_small, <- Z.shiftl_mul_pow2 by lia.
  apply lor_shiftl_add; lia.
Qed.

(** Continuation digits are consumed one after the other. *)
Lemma decode_loop_hi l index acc rest :
  Forall (fun b => 128 <= b < 256) l ->
  (index + length l <= 8)%nat -> 0 <= acc < 128 ^ Z.of_nat index ->
  decode_loop index acc (l ++ rest) = decode_loop (index + length l) (fold_hi acc l) rest.
Proof.
  revert index acc. induction l as [|b l IH]; intros index acc Hl Hlen Hacc.
  - simpl. by rewrite Nat.add_0_r.
  - apply Forall_cons in Hl as [Hb Hl]. simpl in Hb, Hlen.
    assert (128 ^ Z.of_nat index <= 128 ^ 7) by (apply Z.pow_le_mono_r; lia).
    simpl decode_loop. destruct (Nat.eqb_spec index 8); [lia|].
    rewrite land_128 by width. replace (b <? 128) with false by lia.
    rewrite decode_step_value by lia.
    rewrite IH; [|done|lia|].
    + simpl length. rewrite Nat.add_succ_r. done.
    + rewrite Nat2Z.inj_succ, Z.pow_succ_r by lia.
      assert (0 <= b mod 128 < 128) by (apply Z.mod_pos_bound; lia). lia.
Qed.

Lemma digit_count_bound v :
  0 <= v < 2 ^ 56 ->
  (digit_count v <= 7)%nat /\
  (v = 0 \/ 128 ^ Z.of_nat (digit_count v) <= v) /\
  v < 128 ^ (Z.of_nat (digit_count v) + 1).
Proof.
  intros Hv. unfold digit_count. pose proof (Z.log2_nonneg v).
  assert (0 <= Z.log2 v / 7) by (apply Z.div_pos; lia).
  rewrite Z2Nat.id by lia. change 128 with (2 ^ 7). rewrite <- !Z.pow_mul_r by lia.
  destruct (decide (v = 0)) as [->|Hn].
  - split; [apply Nat.le_0_l|]. split; [by left|]. done.
  - assert (Z.log2 v < 56) by (apply Z.log2_lt_pow2; lia).
    destruct (Z.log2_spec v ltac:(lia)) as [Hlg1 Hlg2].
    assert (Z.log2 v / 7 < 8) by (apply Z.div_lt_upper_bound; lia).
    split; [lia|]. split.
    + right. etrans; [|exact Hlg1]. apply Z.pow_le_mono_r; zlia.
    + eapply Z.lt_le_trans; [exact Hlg2|]. apply Z.pow_le_mono_r; zlia.
Qed.

Lemma is_canonical_small v n :
  (n <= 7)%nat ->
  is_canonical_varint v (S n) = (n =? 0)%nat || (128 ^ Z.of_nat n <=? v).
Proof. intros Hn. do 8 (destruct n as [|n]; [reflexivity|]). lia. Qed.

(** Decoding the reference encoding. *)
Lemma decode_encode_spec v rest :
  is_u64 v -> decode_varint (encode_spec v ++ rest) = Ok (v, Zlen (encode_spec v)).
Proof.
  intros Hv. unfold decode_varint, encode_spec.
  destruct (Z.ltb_spec v 72057594037927936) as [Hs|Hs]; rewrite <- app_assoc;
    unfold Zlen; rewrite length_app, length_digits_hi; simpl length.
  - destruct (digit_count_bound v ltac:(width)) as (Hn & Hlo & Hhi).
    set (n := digit_count v) in *.
    rewrite decode_loop_hi; rewrite ?length_digits_hi; [|apply digits_hi_bytes|lia|simpl; lia].
    assert (Hd : fold_hi 0 (digits_hi n (v / 128)) = v / 128).
    { rewrite fold_hi_digits, Z.mod_small; [lia|]. split; [apply Z.div_pos; width|].
      apply Z.div_lt_upper_bound; [lia|].
      rewrite Z.pow_add_r in Hhi by lia. lia. }
    rewrite Hd. simpl. destruct (Nat.eqb_spec n 8); [lia|].
    assert (0 <= v mod 128 < 128) by (apply Z.mod_pos_bound; lia).
    rewrite land_128 by width. replace (v mod 128 <? 128) with true by lia.
    rewrite decode_step_value by (split; [apply Z.div_pos; width|];
      apply Z.div_lt_upper_bound; lia).
    rewrite Z.mod_mod by lia.
    replace (v / 128 * 128 + v mod 128) with v by zlia.
    rewrite is_canonical_small by lia.
    replace ((n =? 0)%nat || (128 ^ Z.of_nat n <=? v)) with true; [f_equal; f_equal; lia|].
    destruct (Nat.eqb_spec n 0); [done|]. simpl. symmetry. apply Z.leb_le.
    destruct Hlo as [Hz|]; [|done]. subst n. subst v. by destruct n1.
  - rewrite decode_loop_hi; rewrite ?length_digits_hi;
      [|apply digits_hi_bytes|lia|simpl; lia].
    assert (Hd : fold_hi 0 (digits_hi 8 (v / 256)) = v / 256).
    { rewrite fold_hi_digits, Z.mod_small; [lia|]. split; [apply Z.div_pos; width|].
      apply Z.div_lt_upper_bound; width. }
    rewrite Hd. simpl. assert (0 <= v mod 256 < 256) by (apply Z.mod_pos_bound; lia).
    rewrite decode_last_value;
      [|split; [apply Z.div_pos; width|apply Z.div_lt_upper_bound; width]|width].
    replace (v / 256 * 256 + v mod 256) with v by zlia.
    unfold is_canonical_varint. destruct (Z.ltb_spec 72057594037927935 v); [done|lia].
Qed.

(** How the decoder can succeed: a run of continuation digits, then a last byte. *)
Lemma decode_loop_Ok buf index acc v n :
  is_bytes buf -> (index <= 8)%nat -> 0 <= acc < 128 ^ Z.of_nat index ->
  decode_loop index acc buf = Ok (v, n) ->
  exists l b rest, buf = l ++ b :: rest /\ Forall (fun c => 128 <= c < 256) l /\ is_u8 b /\
    n = Z.of_nat (index + length l) + 1 /\
    is_canonical_varint v (S (index + length l)) = true /\
    ((index + length l < 8)%nat /\ b < 128 /\ v = fold_hi acc l * 128 + b \/
     (index + length l = 8)%nat /\ v = fold_hi acc l * 256 + b).
Proof.
  revert index acc. induction buf as [|b buf IH]; intros index acc Hb Hi Hacc; [done|].
  apply Forall_cons in Hb as [Hb Hbuf].
  simpl decode_loop. destruct (Nat.eqb_spec index 8) as [->|Hn].
  - rewrite decode_last_value by (done || lia).
    destruct (is_canonical_varint (acc * 256 + b) 9) eqn:Hc; [|done].
    intros [= <- <-]. exists [], b, buf. split_and!; auto.
  - assert (128 ^ Z.of_nat index <= 128 ^ 7) by (apply Z.pow_le_mono_r; lia).
    rewrite decode_step_value by lia. rewrite land_128 by done.
    apply is_u8_range in Hb as Hb'. destruct (Z.ltb_spec b 128) as [Hlt|Hge].
    + destruct (is_canonical_varint (acc * 128 + b mod 128) (S index)) eqn:Hc; [|done].
      clear IH. rewrite (Z.mod_small b 128) in * by lia.
      intros [= <- <-]. exists [], b, buf. simpl length. rewrite Nat.add_0_r.
      split_and!; auto; [lia|]. left. split_and!; [lia..|]. done.
    + intros Hd. apply IH in Hd as (l & c & rest & -> & Hl & Hc & -> & Hcan & Hcase);
        [|done|lia|].
      * exists (b :: l), c, rest. simpl length. rewrite Nat.add_succ_r.
        split_and!; auto. constructor; [lia|done].
      * rewrite Nat2Z.inj_succ, Z.pow_succ_r by lia.
        assert (0 <= b mod 128 < 128) by (apply Z.mod_pos_bound; lia). lia.
Qed.

Lemma digit_count_unique v n :
  128 ^ Z.of_nat n <= v < 128 ^ (Z.of_nat n + 1) -> digit_count v = n.
Proof.
  intros Hv. unfold digit_count. change 128 with (2 ^ 7) in Hv.
  rewrite <- !Z.pow_mul_r in Hv by lia.
  assert (0 < 2 ^ (7 * Z.of_nat n)) by lia.
  assert (7 * Z.of_nat n <= Z.log2 v) by (apply Z.log2_le_pow2; lia).
  assert (Z.log2 v < 7 * (Z.of_nat n + 1)) by (apply Z.log2_lt_pow2; lia).
  replace (Z.log2 v / 7) with (Z.of_nat n) by zlia. lia.
Qed.

Lemma digit_count_small v : 0 <= v < 128 -> digit_count v = 0%nat.
Proof.
  intros Hv. unfold digit_count. destruct (decide (v = 0)) as [->|]; [done|].
  assert (Z.log2 v < 7) by (apply Z.log2_lt_pow2; lia).
  pose proof (Z.log2_nonneg v). by rewrite Z.div_small by lia.
Qed.

(** What decodes is the reference encoding of its value. *)
Lemma decode_spec_canonical buf v n :
  is_bytes buf -> decode_varint buf = Ok (v, n) ->
  is_u64 v /\ exists rest, buf = encode_spec v ++ rest /\ n = Zlen (encode_spec v).
Proof.
  intros Hbuf Hd. apply decode_loop_Ok in Hd as
    (l & b & rest & -> & Hl & Hb & -> & Hc & Hcase); [|done|lia|simpl; lia].
  pose proof (fold_hi_bound 0 l ltac:(lia)) as Hf. unfold Zlen in Hf. rewrite Nat.add_0_l in *.
  apply is_u8_range in Hb. destruct Hcase as [(Hlen & Hb' & ->)|(Hlen & ->)].
  - assert (128 ^ Z.of_nat (length l) <= 128 ^ 7) by (apply Z.pow_le_mono_r; lia).
    rewrite is_canonical_small in Hc by lia.
    split; [width|]. exists rest.
    assert (He : encode_spec (fold_hi 0 l * 128 + b) = l ++ [b]).
    { unfold encode_spec. destruct (Z.ltb_spec (fold_hi 0 l * 128 + b) 72057594037927936); [|lia].
      replace ((fold_hi 0 l * 128 + b) / 128) with (fold_hi 0 l) by zlia.
      replace ((fold_hi 0 l * 128 + b) mod 128) with b by zlia. f_equal.
      replace (digit_count (fold_hi 0 l * 128 + b)) with (length l);
        [by apply digits_hi_fold|].
      destruct (Nat.eqb_spec (length l) 0) as [Hl0|Hl0]; simpl in Hc.
      - destruct l; [|done]. simpl. by rewrite digit_count_small by (simpl; lia).
      - symmetry. apply digit_count_unique. apply Z.leb_le in Hc. split; [done|].
        rewrite Z.pow_add_r by lia. lia. }
    rewrite He, <- app_assoc. split; [done|]. unfold Zlen. rewrite length_app. simpl. lia.
  - rewrite Hlen in *. simpl in Hc. apply Z.ltb_lt in Hc.
    assert (128 ^ Z.of_nat 8 = 2 ^ 56) by done.
    split; [width|]. exists rest.
    assert (He : encode_spec (fold_hi 0 l * 256 + b) = l ++ [b]).
    { unfold encode_spec. destruct (Z.ltb_spec (fold_hi 0 l * 256 + b) 72057594037927936); [lia|].
      replace ((fold_hi 0 l * 256 + b) / 256) with (fold_hi 0 l) by zlia.
      replace ((fold_hi 0 l * 256 + b) mod 256) with b by zlia. f_equal.
      rewrite <- Hlen. by apply digits_hi_fold. }
    rewrite He, <- app_assoc. split; [done|]. unfold Zlen. rewrite length_app. simpl. lia.
Qed.

(** ** The encoder is the reference encoding *)

Lemma encode_nine_spec n v pre :
  0 <= v -> (n <= length pre)%nat ->
  encode_nine n v pre = digits_hi n v ++ drop n pre.
Proof.
  revert v pre. induction n as [|n IH]; intros v pre Hv Hl; simpl; [done|].
  rewrite Z.shiftr_div_pow2 by lia. change (2 ^ 7) with 128.
  rewrite IH by (first [apply Z.div_pos; lia | rewrite length_insert; lia]).
  rewrite <- app_assoc. f_equal. simpl.
  rewrite insert_take_drop, drop_app_length' by len.
  by rewrite land_127, lor_128 by (apply Z.mod_pos_bound; lia).
Qed.

(** Base-128 digits without continuation bits. *)
Fixpoint digits_lo (n : nat) (v : Z) : bytes :=
  match n with
  | O => []
  | S n' => digits_lo n' (v / 128) ++ [v mod 128]
  end.

Lemma length_digits_lo n v : length (digits_lo n v) = n.
Proof. revert v. induction n as [|n IH]; intros; simpl; len. rewrite IH. lia. Qed.

Lemma digit_count_step v :
  128 <= v -> digit_count v = S (digit_count (v / 128)).
Proof.
  intros Hv. unfold digit_count. change 128 with (2 ^ 7) at 1.
  rewrite <- Z.shiftr_div_pow2, Z.log2_shiftr by lia.
  assert (7 <= Z.log2 v) by (apply (Z.log2_le_mono 128 v); lia).
  rewrite Z.max_r by lia. rewrite <- Z2Nat.inj_succ by (apply Z.div_pos; lia).
  f_equal. zlia.
Qed.

Lemma replicate_last_insert index x (tl : bytes) :
  <[index := x]> (replicate (S index) 0 ++ tl) = replicate index 0 ++ x :: tl.
Proof.
  replace (S index) with (index + 1)%nat by lia. rewrite replicate_add, <- app_assoc.
  rewrite insert_app_r_alt by len. by rewrite length_replicate, Nat.sub_diag.
Qed.

Lemma encode_fill_spec index v tl :
  0 < v -> (digit_count v <= index)%nat ->
  encode_fill v index (replicate (S index) 0 ++ tl) =
    ((index - digit_count v)%nat, replicate (index - digit_count v) 0 ++
       digits_lo (S (digit_count v)) v ++ tl).
Proof.
  revert v tl. induction index as [|index IH]; intros v tl Hv Hc;
    match goal with |- encode_fill _ _ ?b = _ => remember b as buf eqn:Hbuf end;
    simpl encode_fill; destruct (Z.ltb_spec 0 v); try lia;
    rewrite Z.shiftr_div_pow2, land_127 by lia; change (2 ^ 7) with 128;
    subst buf; rewrite replicate_last_insert.
  - assert (v < 128).
    { destruct (Z.lt_ge_cases v 128); [done|]. rewrite digit_count_step in Hc; lia. }
    rewrite digit_count_small, Z.div_small by lia. simpl. rewrite Z.mod_small by lia. done.
  - destruct (Z.lt_ge_cases v 128).
    + rewrite digit_count_small, Z.div_small by lia. simpl. done.
    + destruct (Z.eqb_spec (v / 128) 0); [zlia|].
      rewrite digit_count_step in * by lia. rewrite IH by (zlia || lia).
      f_equal. f_equal. simpl digits_lo. by rewrite <- !app_assoc.
Qed.

Lemma digits_hi_lo n v : digits_hi n v = map (fun b => b + 128) (digits_lo n v).
Proof. revert v. induction n as [|n IH]; intros v; simpl; [done|]. by rewrite map_app, IH. Qed.

Lemma digits_lo_bytes n v : Forall (fun b => 0 <= b < 128) (digits_lo n v).
Proof.
  revert v. induction n as [|n IH]; intros v; simpl; [constructor|].
  apply Forall_app. split; [apply IH|]. constructor; [zlia|constructor].
Qed.

(** The final pass over [bytes[index..8]] turns plain digits into the encoding. *)
Lemma mark_digits d v :
  (d <= 8)%nat ->
  drop (8 - d) (imap (fun i b => if bool_decide (8 - d <= i < 8)%nat then Z.lor b 128 else b)
    (replicate (8 - d) 0 ++ digits_lo (S d) v)) = digits_hi d (v / 128) ++ [v mod 128].
Proof.
  intros Hd. rewrite imap_app, drop_app_length' by (rewrite length_imap; len).
  simpl digits_lo. rewrite imap_app, length_replicate, digits_hi_lo, length_digits_lo.
  f_equal.
  - rewrite <- imap_const. apply imap_ext. intros i b Hb. simpl.
    apply lookup_lt_Some in Hb as Hlt. rewrite length_digits_lo in Hlt.
    pose proof (digits_lo_bytes d (v / 128)) as Hall. rewrite Forall_lookup in Hall.
    rewrite bool_decide_true by lia. apply lor_128. by apply (Hall i).
  - simpl. rewrite bool_decide_false by lia. done.
Qed.

Lemma encode_varint_spec v : is_u64 v -> encode_varint v = encode_spec v.
Proof.
  intros Hv. unfold encode_varint, encode_spec.
  destruct (Z.leb_spec v 127).
  - destruct (Z.ltb_spec v 72057594037927936); [|lia].
    rewrite digit_count_small, Z.mod_small by width. done.
  - destruct (Z.ltb_spec 72057594037927935 v), (Z.ltb_spec v 72057594037927936); try lia.
    + rewrite land_255, Z.shiftr_div_pow2 by lia. change (2 ^ 8) with 256.
      rewrite encode_nine_spec by (first [apply Z.div_pos; width | simpl; lia]). done.
    + destruct (digit_count_bound v ltac:(width)) as (Hn & _ & _).
      replace (replicate 9 0) with (replicate 9 0 ++ []) by apply app_nil_r.
      rewrite encode_fill_spec by lia. rewrite app_nil_r. apply mark_digits. lia.
Qed.

Lemma encode_spec_shape v :
  is_u64 v -> is_bytes (encode_spec v) /\ 1 <= Zlen (encode_spec v) <= 9.
Proof.
  intros Hv. assert (Hhi : forall n w, is_bytes (digits_hi n w)).
  { intros n w. eapply Forall_impl; [apply digits_hi_bytes|]. width. }
  unfold encode_spec. destruct (Z.ltb_spec v 72057594037927936);
    unfold Zlen; rewrite length_app, length_digits_hi; simpl length.
  - destruct (digit_count_bound v ltac:(width)) as (Hn & _ & _). split; [|lia].
    apply is_bytes_app. split; [apply Hhi|]. constructor; [|constructor].
    assert (0 <= v mod 128 < 128) by (apply Z.mod_pos_bound; lia). width.
  - split; [|lia]. apply is_bytes_app. split; [apply Hhi|]. constructor; [|constructor].
    assert (0 <= v mod 256 < 256) by (apply Z.mod_pos_bound; lia). width.
Qed.

(** The two halves of the round trip, for the files that decode varints. *)
Lemma decode_encode_varint v rest :
  is_u64 v -> decode_varint (encode_varint v ++ rest) = Ok (v, Zlen (encode_varint v)).
Proof. intros Hv. rewrite encode_varint_spec by done. by apply decode_encode_spec. Qed.

Lemma encode_varint_shape v :
  is_u64 v -> is_bytes (encode_varint v) /\ 1 <= Zlen (encode_varint v) <= 9.
Proof. intros Hv. rewrite encode_varint_spec by done. by apply encode_spec_shape. Qed.

Lemma decode_varint_Ok buf v n :
  is_bytes buf -> decode_varint buf = Ok (v, n) ->
  is_u64 v /\ 1 <= n <= 9 /\ n <= Zlen buf /\
  buf = encode_varint v ++ drop (Z.to_nat n) buf.
Proof.
  intros Hb Hd. destruct (decode_spec_canonical _ _ _ Hb Hd) as (Hv & rest & -> & ->).
  destruct (encode_spec_shape v Hv) as [_ Hl]. rewrite encode_varint_spec by done.
  split; [done|]. split; [done|]. split.
  - rewrite Zlen_app. pose proof (Zlen_nonneg rest). lia.
  - unfold Zlen. by rewrite Nat2Z.id, drop_app_length.
Qed.

(** ** Properties *)

(** Round trip. Every [u64] encodes to between one and nine bytes that decode,
    whatever follows them, to the value and to the number of bytes written. *)
Theorem varint_roundtrip (v : Z) (rest : bytes) :
  is_u64 v ->
  decode_varint (encode_varint v ++ rest) = Ok (v, Zlen (encode_varint v)) /\
  is_bytes (encode_varint v) /\ 1 <= Zlen (encode_varint v) <= 9.
Proof. intros Hv. split; [by apply decode_encode_varint|by apply encode_varint_shape]. Qed.

Lemma varint_roundtrip_witness :
  decode_varint (encode_varint u64_max ++ [7]) = Ok (u64_max, 9) /\
  is_bytes (encode_varint u64_max) /\ 1 <= Zlen (encode_varint u64_max) <= 9.
Proof. exact (varint_roundtrip u64_max [7] ltac:(unfold is_u64, u64_max; lia)). Defined.

(** Canonicity. The decoder accepts only canonical encodings: when it returns a
    value and a length, the buffer starts with exactly the bytes [encode_varint]
    writes for that value, so no two encodings of one value are both accepted. *)
Theorem varint_canonical (buf : bytes) (v n : Z) :
  is_bytes buf -> decode_varint buf = Ok (v, n) ->
  is_u64 v /\ n = Zlen (encode_varint v) /\
  exists rest, buf = encode_varint v ++ rest.
Proof.
  intros Hb Hd. destruct (decode_spec_canonical _ _ _ Hb Hd) as (Hv & rest & -> & ->).
  rewrite encode_varint_spec by done. eauto.
Qed.

Lemma varint_canonical_witness :
  is_u64 300 /\ 2 = Zlen (encode_varint 300) /\
  exists rest, [130; 44; 9] = encode_varint 300 ++ rest.
Proof.
  apply (varint_canonical [130; 44; 9] 300 2).
  - repeat constructor; unfold u8_max; lia.
  - reflexivity.
Defined.

(** The decoder always returns. *)
Lemma decode_varint_returns buf : returns (decode_varint buf).
Proof.
  unfold decode_varint. generalize 0%nat, 0. induction buf as [|b buf IH]; intros i acc;
    simpl; [done|].
  destruct (i =? 8)%nat; [by destruct (is_canonical_varint _ _)|].
  destruct (Z.land b 128 =? 0); [by destruct (is_canonical_varint _ _)|].
  apply IH.
Qed.
#[export] Hint Resolve decode_varint_returns : res_db.
