(* ===== verification/Patterns.v ===== *)
(** * LIKE, GLOB and REGEXP

    The pattern matchers of the source. [LIKE] has four implementations: the dynamic
    program of the executor ([sql/executor.rs]), the backtracking matcher of expression
    indexes ([storage/sqlite3/index_expr.rs]), the one of check constraints
    ([common/types.rs]) and the one of triggers ([storage/sqlite3/engine.rs]). [GLOB] and
    [REGEXP] are in the same files. Slices of a pattern or a value are the suffixes left to
    match. *)

From S2P Require Import Prelude Text.

Definition eq_ignore_ascii_case_char (lhs rhs : char) : bool := ascii_lower lhs =? ascii_lower rhs.

(** [char_eq], [sqlite_like_chars_equal] *)
Definition like_chars_equal (case_sensitive : bool) (lhs rhs : char) : bool :=
  if negb case_sensitive && is_ascii lhs && is_ascii rhs then eq_ignore_ascii_case_char lhs rhs else lhs =? rhs.

(** [like_escape_char]: the text of the [ESCAPE] clause is one character. *)
Definition like_escape_char (err : string -> DbError) (escape : option string) : Result (option char) :=
  match escape with
  | None => Ok None
  | Some escape =>
      match chars escape with
      | [ch] => Ok (Some ch)
      | _ => Err (err "ESCAPE expression must be a single character")
      end
  end.

(** ** LIKE in the executor and in expression indexes *)

Inductive LikeToken := LikeAny | LikeOne | LikeLiteral (ch : char).

Fixpoint like_tokens (escape : option char) (pattern : list char) : list LikeToken :=
  match pattern with
  | [] => []
  | ch :: pattern =>
      if bool_decide (Some ch = escape) then
        match pattern with
        | next :: pattern => LikeLiteral next :: like_tokens escape pattern
        | [] => [LikeLiteral ch]
        end
      else if ch =? c#"%" then LikeAny :: like_tokens escape pattern
      else if ch =? underscore then LikeOne :: like_tokens escape pattern
      else LikeLiteral ch :: like_tokens escape pattern
  end.

(** The row [dp[0]]: [left] is the cell before. *)
Fixpoint like_first_cells (left : bool) (pattern : list LikeToken) : list bool :=
  match pattern with
  | [] => []
  | token :: pattern =>
      let cell := match token with LikeAny => left | _ => false end in
      cell :: like_first_cells cell pattern
  end.

(** A further row: [diag], [up] and [left] are [dp[i-1][j-1]], [dp[i-1][j]] and
    [dp[i][j-1]]. *)
Fixpoint like_cells (case_sensitive : bool) (ch : char) (diag left : bool) (ups : list bool) (pattern : list LikeToken) : list bool :=
  match pattern, ups with
  | token :: pattern, up :: ups =>
      let cell := match token with
                  | LikeAny => left || up
                  | LikeOne => diag
                  | LikeLiteral literal => diag && like_chars_equal case_sensitive ch literal
                  end in
      cell :: like_cells case_sensitive ch up cell ups pattern
  | _, _ => []
  end.

(** The table, row after row; a row is its first cell and the others. *)
Fixpoint like_rows (case_sensitive : bool) (value : list char) (pattern : list LikeToken) (first : bool) (cells : list bool) : bool * list bool :=
  match value with
  | [] => (first, cells)
  | ch :: value => like_rows case_sensitive value pattern false (like_cells case_sensitive ch first false cells pattern)
  end.

(** [Executor::matches_like_pattern] *)
Definition executor_matches_like_pattern (value pattern : string) (escape : option string) (case_sensitive : bool) : Result bool :=
  let? escape := like_escape_char Plan escape in
  let pattern := like_tokens escape (chars pattern) in
  let (first, cells) := like_rows case_sensitive (before_nul (chars value)) pattern true (like_first_cells true pattern) in
  Ok (List.last cells first).

(** [(0..=value.len()).any(|index| f(&value[index..]))] *)
Fixpoint any_suffix (f : list char -> bool) (value : list char) : bool :=
  f value || match value with [] => false | _ :: value => any_suffix f value end.

(** [inner] of the matcher of expression indexes. *)
Fixpoint index_like_inner (case_sensitive : bool) (pattern : list LikeToken) (value : list char) : bool :=
  match pattern with
  | [] => bool_decide (value = [])
  | LikeAny :: pattern => any_suffix (index_like_inner case_sensitive pattern) value
  | LikeOne :: pattern => match value with [] => false | _ :: value => index_like_inner case_sensitive pattern value end
  | LikeLiteral literal :: pattern =>
      match value with
      | [] => false
      | ch :: value => like_chars_equal case_sensitive ch literal && index_like_inner case_sensitive pattern value
      end
  end.

Definition index_matches_like_pattern (value pattern : string) (escape : option string) (case_sensitive : bool) : Result bool :=
  let? escape := like_escape_char Storage escape in
  Ok (index_like_inner case_sensitive (like_tokens escape (chars pattern)) (before_nul (chars value))).

(** ** LIKE in check constraints and in triggers *)

(** [inner] of [common/types.rs]: the pattern is not cut into tokens first. *)
Fixpoint check_like_inner (escape : option char) (case_sensitive : bool) (pattern value : list char) : bool :=
  match pattern with
  | [] => bool_decide (value = [])
  | ch :: pattern =>
      if bool_decide (Some ch = escape) then
        match pattern, value with
        | literal :: pattern, v :: value =>
            like_chars_equal case_sensitive v literal && check_like_inner escape case_sensitive pattern value
        | _, _ => false
        end
      else if ch =? c#"%" then any_suffix (check_like_inner escape case_sensitive pattern) value
      else match value with
           | [] => false
           | v :: value =>
               if ch =? underscore then check_like_inner escape case_sensitive pattern value
               else like_chars_equal case_sensitive v ch && check_like_inner escape case_sensitive pattern value
           end
  end.

(** [matches_like_pattern] of [common/types.rs] *)
Definition check_matches_like_pattern (value pattern : string) (escape : option string) (case_sensitive : bool) : Result bool :=
  let? escape := like_escape_char Storage escape in
  Ok (check_like_inner escape case_sensitive (chars pattern) (chars value)).

(** [trigger_like_matches]: its [%] case tries the same suffixes one by one. *)
Definition trigger_like_matches (value pattern : string) (escape : option char) : bool :=
  check_like_inner escape false (chars pattern) (chars value).

(** ** Character classes *)

(** The loop over the members of a class. [literal_first] holds where a closing bracket
    that comes first is a member; [saw] says that there was a member. *)
Fixpoint class_loop (literal_first saw : bool) (ch : char) (matched : bool) (pattern : list char) : option (bool * list char) :=
  match pattern with
  | [] => None
  | member :: pattern =>
      if (member =? c#"]") && (negb literal_first || saw) then Some (matched, pattern)
      else match pattern with
           | dash :: high :: pattern' =>
               if (dash =? c#"-") && negb (high =? c#"]")
               then class_loop literal_first true ch (matched || ((member <=? ch) && (ch <=? high))) pattern'
               else class_loop literal_first true ch (matched || (member =? ch)) pattern
           | _ => class_loop literal_first true ch (matched || (member =? ch)) pattern
           end
  end.

(** [matches_char_class]: the pattern follows the opening bracket. *)
Definition matches_char_class (literal_first : bool) (pattern : list char) (ch : char) : option (bool * list char) :=
  let (negated, pattern) := match pattern with
                            | first :: rest => if first =? c#"^" then (true, rest) else (false, pattern)
                            | [] => (false, pattern)
                            end in
  match class_loop literal_first false ch false pattern with
  | Some (matched, rest) => Some (xorb matched negated, rest)
  | None => None
  end.

(** ** GLOB *)

(** [inner] and [matches]: each round consumes a character of the value or the pattern. *)
Fixpoint glob_inner (literal_first : bool) (fuel : nat) (value pattern : list char) : bool :=
  match fuel with
  | O => false
  | S fuel =>
      match pattern with
      | [] => bool_decide (value = [])
      | ch :: rest =>
          if ch =? c#"*" then
            glob_inner literal_first fuel value rest ||
            match value with [] => false | _ :: value => glob_inner literal_first fuel value pattern end
          else match value with
               | [] => false
               | v :: value =>
                   if ch =? c#"?" then glob_inner literal_first fuel value rest
                   else if ch =? c#"[" then
                     match matches_char_class literal_first rest v with
                     | None => false
                     | Some (matched, next) => matched && glob_inner literal_first fuel value next
                     end
                   else (v =? ch) && glob_inner literal_first fuel value rest
               end
      end
  end.
Definition glob_match (literal_first : bool) (value pattern : list char) : bool :=
  glob_inner literal_first (S (length value + length pattern)) value pattern.

(** [matches_glob_pattern] of [common/types.rs], and of the executor and the expression
    indexes. *)
Definition check_matches_glob_pattern (value pattern : string) : bool := glob_match false (chars value) (chars pattern).
Definition executor_matches_glob_pattern (value pattern : string) : bool := glob_match true (before_nul (chars value)) (chars pattern).

(** ** REGEXP *)

Section Regexp.
Context (err : string -> DbError).

(** [regexp_atom_matches]; the pattern is not empty. *)
Definition regexp_atom_matches (pattern : list char) (value : char) : Result (bool * list char) :=
  match pattern with
  | [] => Panic "index out of bounds"
  | atom :: rest =>
      if atom =? c#"." then Ok (true, rest)
      else if atom =? c#"[" then ok_or (matches_char_class true rest value) (err "unclosed '['")
      else Ok (atom =? value, rest)
  end.

(** [regexp_match_star], given the matcher of what follows the star. *)
Fixpoint regexp_match_star (match_rest : list char -> Result bool) (atom : list char) (value : list char) : Result bool :=
  let? found := match_rest value in
  if found : bool then Ok true
  else match value with
       | [] => Ok false
       | v :: value =>
           let? (matches, _) := regexp_atom_matches atom v in
           if matches : bool then regexp_match_star match_rest atom value else Ok false
       end.

(** [regexp_match_here]; each call consumes an atom of the pattern. *)
Fixpoint regexp_match_here (fuel : nat) (pattern value : list char) : Result bool :=
  match fuel with
  | O => OutOfFuel
  | S fuel =>
      match pattern with
      | [] => Ok true
      | [36] => Ok (bool_decide (value = []))
      | _ =>
          let? (_, next) := regexp_atom_matches pattern 0 in
          match next with
          | 42 :: rest => regexp_match_star (regexp_match_here fuel rest) pattern value
          | _ =>
              match value with
              | [] => Ok false
              | v :: value =>
                  let? (matches, next) := regexp_atom_matches pattern v in
                  if matches : bool then regexp_match_here fuel next value else Ok false
              end
          end
      end
  end.

(** [for index in 0..=value.len()] *)
Fixpoint regexp_search (here : list char -> Result bool) (value : list char) : Result bool :=
  let? found := here value in
  if found : bool then Ok true else match value with [] => Ok false | _ :: value => regexp_search here value end.

(** [sqlite_check_regexp], [sqlite_regexp_matches] *)
Definition sqlite_regexp_matches (pattern value : string) : Result bool :=
  let pattern := chars pattern in
  let value := before_nul (chars value) in
  match pattern with
  | 94 :: rest => regexp_match_here (S (length rest)) rest value
  | _ => regexp_search (regexp_match_here (S (length pattern)) pattern) value
  end.
End Regexp.
