(* ===== verification/PatternLaws.v ===== *)
(** * What the pattern matchers decide

    A declarative meaning of patterns, which all the implementations of [LIKE], [GLOB] and
    [REGEXP] are compared with: a pattern is a list of items, each for one character or for
    any number of them. *)

From S2P Require Import Prelude Text Patterns.

(** ** Items *)

Inductive Item := One (f : char -> bool) | Many (f : char -> bool).

Inductive Matches : list Item -> list char -> Prop :=
  | Matches_nil : Matches [] []
  | Matches_one f p c v : f c = true -> Matches p v -> Matches (One f :: p) (c :: v)
  | Matches_stop f p v : Matches p v -> Matches (Many f :: p) v
  | Matches_more f p c v : f c = true -> Matches (Many f :: p) v -> Matches (Many f :: p) (c :: v).

Definition anything (c : char) : bool := true.

Lemma Matches_nil_inv v : Matches [] v <-> v = [].
Proof. split; [by inversion 1|intros ->; constructor]. Qed.

Lemma Matches_one_inv f p v : Matches (One f :: p) v <-> exists c v', v = c :: v' /\ f c = true /\ Matches p v'.
Proof. split; [inversion 1; subst; eauto|]. intros (c & v' & -> & Hf & Hm). by constructor. Qed.

Lemma Matches_many_inv f p v :
  Matches (Many f :: p) v <-> Matches p v \/ exists c v', v = c :: v' /\ f c = true /\ Matches (Many f :: p) v'.
Proof.
  split; [inversion 1; subst; [by left|right; eauto]|].
  intros [Hm|(c & v' & -> & Hf & Hm)]; [by apply Matches_stop|by apply Matches_more].
Qed.

Lemma Matches_app p q v : Matches (p ++ q) v <-> exists v1 v2, v = v1 ++ v2 /\ Matches p v1 /\ Matches q v2.
Proof.
  split.
  - remember (p ++ q) as pq eqn:E. intros Hm. revert p E. induction Hm as [|f l c v Hf Hm IH|f l v Hm IH|f l c v Hf Hm IH]; intros p E.
    + symmetry in E. apply app_eq_nil in E as [-> ->]. exists [], []. by repeat constructor.
    + destruct p as [|i p]; [cbn in E; subst q; exists [], (c :: v); repeat constructor; done|]. injection E as <- ->.
      destruct (IH p eq_refl) as (v1 & v2 & -> & H1 & H2). exists (c :: v1), v2. by repeat constructor.
    + destruct p as [|i p]; [cbn in E; subst q; exists [], v; split_and!; [done|constructor|by apply Matches_stop]|]. injection E as <- ->.
      destruct (IH p eq_refl) as (v1 & v2 & -> & H1 & H2). exists v1, v2. split_and!; [done|by apply Matches_stop|done].
    + destruct p as [|i p]; [cbn in E; subst q; exists [], (c :: v); split_and!; [done|constructor|by apply Matches_more]|].
      destruct (IH (i :: p) E) as (v1 & v2 & -> & H1 & H2). injection E as <- ->.
      exists (c :: v1), v2. split_and!; [done|by apply Matches_more|done].
  - intros (v1 & v2 & -> & H1 & H2). induction H1; cbn [app]; [done|by constructor|by apply Matches_stop|by apply Matches_more].
Qed.

Lemma Matches_many f v : Matches [Many f] v <-> Forall (fun c => f c = true) v.
Proof.
  split.
  - remember [Many f] as p eqn:E. intros Hm. induction Hm; simplify_eq.
    + apply Matches_nil_inv in Hm as ->. constructor.
    + constructor; auto.
  - induction 1; [apply Matches_stop; constructor|by apply Matches_more].
Qed.

(** ** LIKE *)

Definition token_item (case_sensitive : bool) (t : LikeToken) : Item :=
  match t with
  | LikeAny => Many anything
  | LikeOne => One anything
  | LikeLiteral literal => One (fun c => like_chars_equal case_sensitive c literal)
  end.
Abbreviation items cs := (map (token_item cs)).

Lemma any_suffix_spec f p v :
  (forall v, f v = true <-> Matches p v) -> any_suffix f v = true <-> Matches (Many anything :: p) v.
Proof.
  intros Hf. induction v as [|c v IH]; cbn [any_suffix]; rewrite Matches_many_inv, orb_true_iff, Hf.
  - split; [intros [|]; [by left|done]|]. intros [|(c & v' & ? & _)]; [by left|done].
  - rewrite IH. split; (intros [|H]; [by left|right]); [by exists c, v|]. by destruct H as (? & ? & [= <- <-] & _ & H).
Qed.

Lemma index_like_inner_spec cs p v : index_like_inner cs p v = true <-> Matches (items cs p) v.
Proof.
  revert v. induction p as [|[| |literal] p IH]; intros v; cbn [index_like_inner map token_item].
  - rewrite bool_decide_eq_true. by rewrite Matches_nil_inv.
  - by apply any_suffix_spec.
  - rewrite Matches_one_inv. destruct v as [|c v]; [split; [done|by intros (? & ? & ? & _)]|]. rewrite IH.
    split; [by exists c, v|by intros (? & ? & [= <- <-] & _ & H)].
  - rewrite Matches_one_inv. destruct v as [|c v]; [split; [done|by intros (? & ? & ? & _)]|]. rewrite andb_true_iff, IH.
    split; [intros []; by exists c, v|by intros (? & ? & [= <- <-] & ? & H)].
Qed.

(** *** The dynamic program *)

(** The cells of a row after the items [pre]. *)
Fixpoint row_holds (cs : bool) (pre : list Item) (u : list char) (pattern : list LikeToken) (cells : list bool) : Prop :=
  match pattern, cells with
  | [], [] => True
  | t :: pattern, b :: cells =>
      (b = true <-> Matches (pre ++ [token_item cs t]) u) /\ row_holds cs (pre ++ [token_item cs t]) u pattern cells
  | _, _ => False
  end.

Lemma Matches_snoc_one p f u : Matches (p ++ [One f]) u <-> exists u' c, u = u' ++ [c] /\ f c = true /\ Matches p u'.
Proof.
  rewrite Matches_app. split.
  - intros (v1 & v2 & -> & H1 & (c & v' & -> & Hf & ->%Matches_nil_inv)%Matches_one_inv). eauto.
  - intros (u' & c & -> & Hf & H). exists u', [c]. by repeat constructor.
Qed.

Lemma Matches_snoc_many p u c :
  Matches (p ++ [Many anything]) (u ++ [c]) <-> Matches p (u ++ [c]) \/ Matches (p ++ [Many anything]) u.
Proof.
  rewrite !Matches_app. split.
  - intros (v1 & v2 & E & H1 & _). destruct v2 as [|x v2 _] using rev_ind; [rewrite app_nil_r in E; subst; by left|].
    rewrite app_assoc in E. apply app_inj_tail in E as [-> ->]. right. exists v1, v2. split_and!; [done..|].
    apply Matches_many. by apply Forall_true.
  - intros [H|(v1 & v2 & -> & H1 & H2)].
    + exists (u ++ [c]), []. rewrite app_nil_r. split_and!; [done..|]. by apply Matches_many.
    + exists v1, (v2 ++ [c]). rewrite app_assoc. split_and!; [done..|]. apply Matches_many. by apply Forall_true.
Qed.

Lemma like_first_cells_spec cs pattern : forall pre left,
  (left = true <-> Matches pre []) -> row_holds cs pre [] pattern (like_first_cells left pattern).
Proof.
  induction pattern as [|t pattern IH]; intros pre left Hl; cbn [like_first_cells row_holds]; [done|].
  assert (Hcell : (match t with LikeAny => left | _ => false end) = true <-> Matches (pre ++ [token_item cs t]) []).
  { destruct t; cbn [token_item].
    - rewrite Hl, Matches_app. split.
      + intros H. exists [], []. split_and!; [done..|]. by apply Matches_many.
      + by intros (v1 & v2 & [-> ->]%eq_sym%app_eq_nil & H & _).
    - rewrite Matches_snoc_one. split; [done|]. by intros (u & c & H & _); destruct u.
    - rewrite Matches_snoc_one. split; [done|]. by intros (u & c & H & _); destruct u. }
  split; [exact Hcell|by apply IH].
Qed.

Lemma like_cells_spec cs c u pattern : forall pre diag left ups,
  (diag = true <-> Matches pre u) -> (left = true <-> Matches pre (u ++ [c])) -> row_holds cs pre u pattern ups ->
  row_holds cs pre (u ++ [c]) pattern (like_cells cs c diag left ups pattern).
Proof.
  induction pattern as [|t pattern IH]; intros pre diag left [|up ups] Hd Hl Hu; cbn [like_cells row_holds] in *; try done.
  destruct Hu as [Hup Hu].
  assert (Hcell : (match t with LikeAny => left || up | LikeOne => diag | LikeLiteral l => diag && like_chars_equal cs c l end) = true
                  <-> Matches (pre ++ [token_item cs t]) (u ++ [c])).
  { destruct t; cbn [token_item] in *.
    - by rewrite Matches_snoc_many, orb_true_iff, Hl, Hup.
    - rewrite Matches_snoc_one, Hd. split; [by exists u, c|]. by intros (u' & c' & [-> ->]%app_inj_tail & _ & H).
    - rewrite Matches_snoc_one, andb_true_iff, Hd. split; [intros []; by exists u, c|]. by intros (u' & c' & [-> ->]%app_inj_tail & ? & H). }
  split; [exact Hcell|]. by apply IH.
Qed.

Lemma like_rows_spec cs pattern value : forall u first cells,
  (first = true <-> u = []) -> row_holds cs [] u pattern cells ->
  let (first', cells') := like_rows cs value pattern first cells in
  (first' = true <-> u ++ value = []) /\ row_holds cs [] (u ++ value) pattern cells'.
Proof.
  induction value as [|c value IH]; intros u first cells Hf Hc; cbn [like_rows]; [by rewrite app_nil_r|].
  specialize (IH (u ++ [c]) false (like_cells cs c first false cells pattern)).
  destruct (like_rows _ _ _ _ _) as [first' cells']. rewrite <- app_assoc in IH. apply IH.
  - split; [done|]. by destruct u.
  - apply like_cells_spec; [by rewrite Matches_nil_inv| |done]. rewrite Matches_nil_inv. split; [done|]. by destruct u.
Qed.

Lemma last_cons_default {A} (a b : A) l : List.last (a :: l) b = List.last l a.
Proof. revert a b. induction l as [|x l IH]; intros a b; [done|]. change (List.last (x :: l) b = List.last (x :: l) a). by rewrite !IH. Qed.

Lemma row_holds_last cs u pattern : forall pre cells b,
  (b = true <-> Matches pre u) -> row_holds cs pre u pattern cells ->
  List.last cells b = true <-> Matches (pre ++ items cs pattern) u.
Proof.
  induction pattern as [|t pattern IH]; intros pre [|cell cells] b Hb Hrow; cbn [row_holds] in Hrow; try done.
  - by rewrite app_nil_r.
  - destruct Hrow as [Hcell Hrow]. cbn [map]. rewrite cons_middle, app_assoc. rewrite <- (IH _ _ cell Hcell Hrow).
    by rewrite last_cons_default.
Qed.

Lemma executor_like_spec cs pattern value :
  let (first, cells) := like_rows cs value pattern true (like_first_cells true pattern) in
  List.last cells first = true <-> Matches (items cs pattern) value.
Proof.
  pose proof (like_rows_spec cs pattern value [] true (like_first_cells true pattern)) as H.
  destruct (like_rows _ _ _ _ _) as [first cells]. destruct H as [Hf Hc]; [done|apply like_first_cells_spec; by split; [constructor|]|].
  by apply (row_holds_last cs value pattern [] cells first); [rewrite Matches_nil_inv|].
Qed.

(** *** Untokenised patterns *)

(** The pattern ends in an escape character that escapes nothing. *)
Fixpoint dangling (escape : option char) (pattern : list char) : bool :=
  match pattern with
  | [] => false
  | ch :: pattern =>
      if bool_decide (Some ch = escape) then match pattern with [] => true | _ :: pattern => dangling escape pattern end
      else dangling escape pattern
  end.

Lemma any_suffix_ext f g v : (forall v, f v = g v) -> any_suffix f v = any_suffix g v.
Proof. intros Hfg. induction v as [|c v IH]; cbn [any_suffix]; by rewrite Hfg, ?IH. Qed.

Lemma any_suffix_false v : any_suffix (fun _ => false) v = false.
Proof. by induction v. Qed.

Lemma check_like_inner_tokens escape cs pattern : forall value,
  check_like_inner escape cs pattern value = negb (dangling escape pattern) && index_like_inner cs (like_tokens escape pattern) value.
Proof.
  remember (length pattern) as n eqn:Hn. revert pattern Hn. induction n as [n IH] using lt_wf_ind. intros [|ch pattern] -> value; [done|].
  cbn [check_like_inner dangling like_tokens]. case_bool_decide.
  { destruct pattern as [|literal pattern]; [done|]. cbn [index_like_inner]. destruct value as [|v value]; [by rewrite andb_false_r|].
    rewrite (IH (length pattern)) by (done || cbn [length]; lia). destruct (like_chars_equal cs v literal); [done|by rewrite andb_false_r]. }
  assert (IH' : forall v, check_like_inner escape cs pattern v = negb (dangling escape pattern) && index_like_inner cs (like_tokens escape pattern) v)
    by by apply (IH (length pattern)); [cbn [length]; lia|].
  destruct (ch =? _); [|destruct value as [|v value]; destruct (ch =? underscore)]; cbn [index_like_inner]; rewrite ?IH', ?andb_false_r; try done.
  - rewrite (any_suffix_ext _ _ _ IH'). destruct (dangling escape pattern); [apply any_suffix_false|done].
  - destruct (like_chars_equal cs v ch); [done|by rewrite andb_false_r].
Qed.

(** ** Classes *)

Definition in_range (c : char) (range : char * char) : bool := (range.1 <=? c) && (c <=? range.2).

(** The members of a class and what follows it. *)
Fixpoint class_members (literal_first saw : bool) (pattern : list char) : option (list (char * char) * list char) :=
  match pattern with
  | [] => None
  | member :: pattern =>
      if (member =? 93) && (negb literal_first || saw) then Some ([], pattern)
      else match pattern with
           | dash :: high :: pattern' =>
               if (dash =? 45) && negb (high =? 93)
               then match class_members literal_first true pattern' with
                    | Some (l, rest) => Some ((member, high) :: l, rest)
                    | None => None
                    end
               else match class_members literal_first true pattern with
                    | Some (l, rest) => Some ((member, member) :: l, rest)
                    | None => None
                    end
           | _ => match class_members literal_first true pattern with
                  | Some (l, rest) => Some ((member, member) :: l, rest)
                  | None => None
                  end
           end
  end.

(** The set that a class denotes, and what follows it. *)
Definition class_set (literal_first : bool) (pattern : list char) : option ((char -> bool) * list char) :=
  let (negated, pattern) := match pattern with
                            | first :: rest => if first =? 94 then (true, rest) else (false, pattern)
                            | [] => (false, pattern)
                            end in
  match class_members literal_first false pattern with
  | Some (members, rest) => Some (fun c => xorb (existsb (in_range c) members) negated, rest)
  | None => None
  end.

Lemma range_single m c : in_range c (m, m) = (m =? c).
Proof. unfold in_range. cbn. lia. Qed.

Lemma class_loop_members lf ch pattern : forall saw matched,
  class_loop lf saw ch matched pattern =
  match class_members lf saw pattern with
  | Some (members, rest) => Some (matched || existsb (in_range ch) members, rest)
  | None => None
  end.
Proof.
  remember (length pattern) as n eqn:Hn. revert pattern Hn. induction n as [n IH] using lt_wf_ind.
  intros [|member pattern] -> saw matched; [done|]. cbn [class_loop class_members length] in *.
  destruct ((member =? 93) && _); [by rewrite orb_false_r|].
  assert (Hone : class_loop lf true ch (matched || (member =? ch)) pattern =
    match match class_members lf true pattern with Some (l, rest) => Some ((member, member) :: l, rest) | None => None end with
    | Some (members, rest) => Some (matched || existsb (in_range ch) members, rest) | None => None end).
  { rewrite (IH (length pattern)) by (done || lia). destruct (class_members lf true pattern) as [[l rest]|]; [|done].
    cbn [existsb]. by rewrite range_single, orb_assoc. }
  destruct pattern as [|dash [|high pattern']]; try exact Hone. destruct ((dash =? 45) && _); [|exact Hone].
  rewrite (IH (length pattern')) by (done || cbn [length]; lia). destruct (class_members lf true pattern') as [[l rest]|]; [|done].
  cbn [existsb]. by rewrite orb_assoc.
Qed.

Lemma matches_char_class_set lf pattern ch :
  matches_char_class lf pattern ch = match class_set lf pattern with Some (f, rest) => Some (f ch, rest) | None => None end.
Proof.
  unfold matches_char_class, class_set.
  destruct (match pattern with first :: rest => _ | [] => _ end) as [negated pattern']. rewrite class_loop_members.
  by destruct (class_members lf false pattern') as [[members rest]|].
Qed.

Lemma class_members_shorter lf pattern : forall saw members rest,
  class_members lf saw pattern = Some (members, rest) -> (length rest < length pattern)%nat.
Proof.
  remember (length pattern) as n eqn:Hn. revert pattern Hn. induction n as [n IH] using lt_wf_ind.
  intros [|member pattern] -> saw members rest; [done|]. cbn [class_members length] in *.
  destruct ((member =? 93) && _); [intros [= <- <-]; lia|].
  assert (Hone : match class_members lf true pattern with Some (l, rest) => Some ((member, member) :: l, rest) | None => None end = Some (members, rest) ->
    (length rest < S (length pattern))%nat).
  { destruct (class_members lf true pattern) as [[l r]|] eqn:E; [|done]. intros [= <- <-].
    specialize (IH (length pattern)) as H. apply H in E; [lia|lia|done]. }
  destruct pattern as [|dash [|high pattern']]; try exact Hone. destruct ((dash =? 45) && _); [|exact Hone].
  destruct (class_members lf true pattern') as [[l r]|] eqn:E; [|done]. intros [= <- <-].
  apply (IH (length pattern')) in E; [cbn [length]; lia|cbn [length]; lia|done].
Qed.

Lemma class_set_shorter lf pattern f rest : class_set lf pattern = Some (f, rest) -> (length rest < length pattern)%nat.
Proof.
  unfold class_set. destruct (match pattern with first :: rest => _ | [] => _ end) as [negated pattern'] eqn:E.
  destruct (class_members lf false pattern') as [[members r]|] eqn:Em; [|done]. intros [= <- <-]. apply class_members_shorter in Em.
  destruct pattern as [|c p]; simplify_eq/=; [done|]. destruct (c =? 94); simplify_eq/=; lia.
Qed.

(** ** GLOB *)

Definition plain (c : char) : Prop := c <> 42 /\ c <> 63 /\ c <> 91.

(** The items of a pattern; a pattern with an unclosed class has none. *)
Inductive GlobItems (literal_first : bool) : list char -> list Item -> Prop :=
  | Glob_nil : GlobItems literal_first [] []
  | Glob_star p l : GlobItems literal_first p l -> GlobItems literal_first (42 :: p) (Many anything :: l)
  | Glob_any p l : GlobItems literal_first p l -> GlobItems literal_first (63 :: p) (One anything :: l)
  | Glob_class p f rest l :
      class_set literal_first p = Some (f, rest) -> GlobItems literal_first rest l -> GlobItems literal_first (91 :: p) (One f :: l)
  | Glob_literal c p l : plain c -> GlobItems literal_first p l -> GlobItems literal_first (c :: p) (One (fun v => v =? c) :: l).

Definition glob_meaning (literal_first : bool) (pattern value : list char) : Prop :=
  exists l, GlobItems literal_first pattern l /\ Matches l value.

Section Glob.
Context (lf : bool).
Abbreviation meaning := (glob_meaning lf).

Lemma glob_meaning_nil v : meaning [] v <-> v = [].
Proof.
  split; [intros (l & H & Hm); inversion H; subst; by apply Matches_nil_inv|]. intros ->. exists []. by repeat constructor.
Qed.

Lemma glob_meaning_star p v :
  meaning (42 :: p) v <-> meaning p v \/ exists c v', v = c :: v' /\ meaning (42 :: p) v'.
Proof.
  split.
  - intros (l & H & Hm). inversion H as [|? l' Hl| | |c p' l' [Hc _] _]; subst; [|done].
    apply Matches_many_inv in Hm as [Hm|(c & v' & -> & _ & Hm)]; [left; by exists l'|right; exists c, v'; split; [done|]].
    by exists (Many anything :: l').
  - intros [(l & Hl & Hm)|(c & v' & -> & l & Hl & Hm)].
    + exists (Many anything :: l). split; [by constructor|by apply Matches_stop].
    + exists l. split; [done|]. inversion Hl as [|? l' Hl'| | |c' p' l' [Hc _] _]; subst; [by apply Matches_more|done].
Qed.

(** A pattern whose first item is for one character. *)
Lemma glob_meaning_one c p f rest v :
  (forall l, GlobItems lf (c :: p) l -> exists l', l = One f :: l' /\ GlobItems lf rest l') ->
  (forall l, GlobItems lf rest l -> GlobItems lf (c :: p) (One f :: l)) ->
  meaning (c :: p) v <-> exists x v', v = x :: v' /\ f x = true /\ meaning rest v'.
Proof.
  intros Hinv Hintro. split.
  - intros (l & (l' & -> & Hl)%Hinv & (x & v' & -> & Hf & Hm)%Matches_one_inv). exists x, v'. split_and!; [done..|]. by exists l'.
  - intros (x & v' & -> & Hf & l & Hl & Hm). exists (One f :: l). split; [by apply Hintro|by constructor].
Qed.

Lemma glob_inner_meaning fuel : forall value pattern,
  (length value + length pattern < fuel)%nat -> glob_inner lf fuel value pattern = true <-> meaning pattern value.
Proof.
  induction fuel as [|fuel IH]; intros value [|ch rest] Hlen; [lia..| |]; cbn [glob_inner].
  { by rewrite bool_decide_eq_true, glob_meaning_nil. }
  cbn [length] in Hlen. destruct (Z.eqb_spec ch 42) as [->|Hstar].
  { rewrite glob_meaning_star, orb_true_iff, IH by lia. destruct value as [|v value]; cbn [length] in Hlen.
    - split; [intros [|]; [by left|done]|]. intros [|(c & v' & ? & _)]; [by left|done].
    - rewrite IH by (cbn [length]; lia). split; (intros [|H]; [by left|right]); [by exists v, value|]. by destruct H as (? & ? & [= <- <-] & H). }
  destruct (Z.eqb_spec ch 63) as [->|Hany].
  { rewrite (glob_meaning_one _ _ anything rest); [|intros l H; inversion H as [| |p l' Hl| |c p l' (_ & Hc & _) _]; subst; [by exists l'|done]|by constructor].
    destruct value as [|v value]; cbn [length] in Hlen; [split; [done|by intros (? & ? & ? & _)]|].
    rewrite IH by lia. split; [by exists v, value|by intros (? & ? & [= <- <-] & _ & H)]. }
  destruct (Z.eqb_spec ch 91) as [->|Hclass].
  { destruct value as [|v value]; cbn [length] in Hlen.
    { split; [done|]. intros (l & H & Hm). inversion H as [| | | |c p l' (_ & _ & Hc) _]; subst; [by inversion Hm|done]. }
    rewrite matches_char_class_set. destruct (class_set lf rest) as [[f next]|] eqn:Ec.
    2:{ split; [done|]. intros (l & H & Hm). inversion H as [| | | |c p l' (_ & _ & Hc) _]; subst; congruence. }
    apply class_set_shorter in Ec as Hs.
    rewrite (glob_meaning_one _ _ f next); [|intros l H; inversion H as [| | |p f' rest' l' E Hl|c p l' (_ & _ & Hc) _]; subst; [|done]|intros l; by econstructor].
    - rewrite andb_true_iff, IH by lia. split; [intros []; by exists v, value|by intros (? & ? & [= <- <-] & ? & H)].
    - rewrite Ec in E. injection E as <- <-. by exists l'. }
  rewrite (glob_meaning_one _ _ (fun v => v =? ch) rest);
    [|intros l H; inversion H as [| | | |c p l' Hc Hl]; subst; [done..|by exists l']|intros l Hl; by constructor].
  destruct value as [|v value]; cbn [length] in Hlen; [split; [done|by intros (? & ? & ? & _)]|].
  rewrite andb_true_iff, IH by lia. split; [intros []; by exists v, value|by intros (? & ? & [= <- <-] & ? & H)].
Qed.
End Glob.

Lemma glob_match_meaning lf value pattern : glob_match lf value pattern = true <-> glob_meaning lf pattern value.
Proof. apply glob_inner_meaning. lia. Qed.

(** ** REGEXP *)

(** The characters that an atom stands for, and what follows it. *)
Definition atom_set (pattern : list char) : option ((char -> bool) * list char) :=
  match pattern with
  | [] => None
  | atom :: rest =>
      if atom =? 46 then Some (anything, rest)
      else if atom =? 91 then class_set true rest
      else Some (fun v => atom =? v, rest)
  end.

(** The items of a pattern from some position on. Without a final [$] anything may follow. *)
Inductive RegexpItems : list char -> list Item -> Prop :=
  | Regexp_nil : RegexpItems [] [Many anything]
  | Regexp_end : RegexpItems [36] []
  | Regexp_star p f rest l :
      p <> [36] -> atom_set p = Some (f, 42 :: rest) -> RegexpItems rest l -> RegexpItems p (Many f :: l)
  | Regexp_one p f rest l :
      p <> [36] -> atom_set p = Some (f, rest) -> head rest <> Some 42 -> RegexpItems rest l -> RegexpItems p (One f :: l).

Section Regexp.
Context (err : string -> DbError).

Lemma regexp_atom_matches_set p v : p <> [] ->
  regexp_atom_matches err p v = match atom_set p with Some (f, rest) => Ok (f v, rest) | None => Err (err "unclosed '['") end.
Proof.
  destruct p as [|atom rest]; [done|]. intros _. unfold regexp_atom_matches, atom_set. destruct (atom =? _); [done|]. destruct (atom =? _); [|done].
  rewrite matches_char_class_set. by destruct (class_set true rest) as [[f r]|].
Qed.

Lemma atom_set_shorter p f rest : atom_set p = Some (f, rest) -> (length rest < length p)%nat.
Proof.
  destruct p as [|atom p]; [done|]. cbn. destruct (atom =? 46); [intros [= <- <-]; lia|].
  destruct (atom =? 91); [intros H%class_set_shorter; lia|]. intros [= <- <-]. lia.
Qed.

(** A matcher that decides what the items [l] match. *)
Definition decides (here : list char -> Result bool) (l : list Item) : Prop :=
  forall v, exists b, here v = Ok b /\ (b = true <-> Matches l v).

Lemma regexp_match_star_decides here p f rest l :
  p <> [] -> atom_set p = Some (f, rest) -> decides here l -> decides (regexp_match_star err here p) (Many f :: l).
Proof.
  intros Hp Hf Hd v. induction v as [|c v IH]; cbn [regexp_match_star].
  - destruct (Hd []) as (b & -> & Hb). cbn [bind]. exists b. split; [by destruct b|].
    rewrite Hb, Matches_many_inv. split; [by left|]. by intros [|(? & ? & ? & _)].
  - destruct (Hd (c :: v)) as (b & -> & Hb). cbn [bind]. destruct b.
    + exists true. split; [done|]. split; [|done]. intros _. apply Matches_stop. by apply Hb.
    + rewrite regexp_atom_matches_set, Hf by done. cbn [bind]. destruct (f c) eqn:Ec.
      * destruct IH as (b & -> & Hb'). exists b. split; [done|]. rewrite Hb', (Matches_many_inv f l (c :: v)). split.
        -- intros H. right. by exists c, v.
        -- intros [H|(? & ? & [= <- <-] & _ & H)]; [by apply Hb in H|done].
      * exists false. split; [done|]. rewrite Matches_many_inv. split; [done|].
        intros [H|(? & ? & [= <- <-] & H & _)]; [by apply Hb in H|congruence].
Qed.

(** [regexp_match_here] past its tests for the empty pattern and for a final [$]. *)
Lemma regexp_match_here_step fuel p v :
  p <> [] -> p <> [36] ->
  regexp_match_here err (S fuel) p v =
  match atom_set p with
  | None => Err (err "unclosed '['")
  | Some (f, next) =>
      if bool_decide (head next = Some 42) then regexp_match_star err (regexp_match_here err fuel (tail next)) p v
      else match v with
           | [] => Ok false
           | c :: v => if f c then regexp_match_here err fuel next v else Ok false
           end
  end.
Proof.
  intros Hp Hend. cbn [regexp_match_here].
  assert (Hm : forall (A : Type) (x y z : A), match p with [] => x | [36] => y | _ => z end = z).
  { intros A x y z. destruct p as [|c [|c' p]]; [done| |]; repeat (case_match; try done). }
  rewrite Hm, !regexp_atom_matches_set by done. destruct (atom_set p) as [[f next]|] eqn:Ep; [|done]. cbn [bind].
  assert (Hn : forall (A : Type) (x : list char -> A) (y : A), match next with 42 :: rest => x rest | _ => y end = if bool_decide (head next = Some 42) then x (tail next) else y).
  { intros A x y. destruct next as [|c next]; [done|]. cbn [head tail]. case_bool_decide as Hc; [by injection Hc as ->|]. repeat (case_match; try done). }
  rewrite Hn. case_bool_decide; [done|]. destruct v as [|c v]; [done|]. rewrite regexp_atom_matches_set, Ep by done. cbn [bind]. by destruct (f c).
Qed.

Lemma regexp_match_here_decides p l : RegexpItems p l -> forall fuel, (length p < fuel)%nat -> decides (regexp_match_here err fuel p) l.
Proof.
  induction 1 as [| |p f rest l Hend Ep Hl IH|p f rest l Hend Ep Hh Hl IH]; intros [|fuel] Hlen; try lia.
  - intros v. exists true. split; [done|]. split; [|done]. intros _. apply Matches_many. by apply Forall_true.
  - intros v. exists (bool_decide (v = [])). split; [done|]. by rewrite bool_decide_eq_true, Matches_nil_inv.
  - assert (Hp : p <> []) by by intros ->. apply atom_set_shorter in Ep as Hs. cbn [length] in Hs. intros v.
    rewrite regexp_match_here_step, Ep by done. cbn [head tail]. rewrite bool_decide_true by done.
    eapply regexp_match_star_decides; [done|exact Ep|]. apply IH. lia.
  - assert (Hp : p <> []) by by intros ->. apply atom_set_shorter in Ep as Hs. intros v.
    rewrite regexp_match_here_step, Ep by done. rewrite bool_decide_false by done. setoid_rewrite Matches_one_inv.
    destruct v as [|c v]; [exists false; split; [done|]; split; [done|by intros (? & ? & ? & _)]|].
    destruct (f c) eqn:Ec.
    + destruct (IH fuel ltac:(lia) v) as (b & -> & Hb). exists b. split; [done|]. rewrite Hb.
      split; [by exists c, v|by intros (? & ? & [= <- <-] & _ & H')].
    + exists false. split; [done|]. split; [done|]. intros (? & ? & [= <- <-] & H' & _). congruence.
Qed.

Lemma regexp_search_decides here l : decides here l -> decides (regexp_search here) (Many anything :: l).
Proof.
  intros Hd v. induction v as [|c v IH]; cbn [regexp_search]; setoid_rewrite Matches_many_inv.
  - destruct (Hd []) as (b & -> & Hb). cbn [bind]. exists b. split; [by destruct b|]. rewrite Hb. split; [by left|by intros [|(? & ? & ? & _)]].
  - destruct (Hd (c :: v)) as (b & -> & Hb). cbn [bind]. destruct b; [exists true; split; [done|]; split; [|done]; intros _; left; by apply Hb|].
    destruct IH as (b & -> & Hb'). exists b. split; [done|]. rewrite Hb'. split; [intros H; right; by exists c, v|].
    intros [H|(? & ? & [= <- <-] & _ & H)]; [by apply Hb in H|done].
Qed.

(** Every pattern has items or an unclosed class; in either case the matcher returns. *)
Lemma regexp_match_star_returns here p v :
  p <> [] -> (forall v, returns (here v)) -> returns (regexp_match_star err here p v).
Proof.
  intros Hp Hh. induction v as [|c v IH]; cbn [regexp_match_star]; (apply returns_bind; [done|]); intros [] _; try done.
  rewrite regexp_atom_matches_set by done. destruct (atom_set p) as [[f rest]|]; [|done]. cbn [bind]. by destruct (f c).
Qed.

Lemma regexp_match_here_returns fuel : forall p v, (length p < fuel)%nat -> returns (regexp_match_here err fuel p v).
Proof.
  induction fuel as [|fuel IH]; intros p v Hlen; [lia|].
  destruct (decide (p = [])) as [->|Hp]; [done|]. destruct (decide (p = [36])) as [->|Hend]; [done|].
  rewrite regexp_match_here_step by done. destruct (atom_set p) as [[f next]|] eqn:Ep; [|done]. apply atom_set_shorter in Ep.
  case_bool_decide.
  - apply regexp_match_star_returns; [done|]. intros v'. apply IH. destruct next; cbn [tail length] in *; lia.
  - destruct v as [|c v]; [done|]. destruct (f c); [|done]. apply IH. lia.
Qed.

Lemma regexp_search_returns here v : (forall v, returns (here v)) -> returns (regexp_search here v).
Proof. intros Hh. induction v as [|c v IH]; cbn [regexp_search]; (apply returns_bind; [done|]); by intros [] _. Qed.
End Regexp.

(** The items of a whole pattern: without a leading [^] the match may start anywhere. *)
Definition regexp_meaning (pattern : list char) (l : list Item) : Prop :=
  match pattern with
  | 94 :: rest => RegexpItems rest l
  | _ => exists l', l = Many anything :: l' /\ RegexpItems pattern l'
  end.

(** ** Theorems *)

(** C30: the implementations of LIKE. An escape text that is not one character is an error
    everywhere. Otherwise the dynamic program of the executor and the backtracking matcher
    of expression indexes return the same answer: whether the tokens of the pattern match
    the value up to its first null character. The matcher of check constraints answers for
    the whole value, and never matches a pattern that ends in a dangling escape character;
    the matcher of triggers is the same, without regard to case. *)
Theorem like_matchers_correct (value pattern : string) (escape : option string) (case_sensitive : bool) :
  (forall esc, like_escape_char Plan escape = Ok esc ->
     (exists b, executor_matches_like_pattern value pattern escape case_sensitive = Ok b /\
        index_matches_like_pattern value pattern escape case_sensitive = Ok b /\
        (b = true <-> Matches (items case_sensitive (like_tokens esc (chars pattern))) (before_nul (chars value)))) /\
     (exists b, check_matches_like_pattern value pattern escape case_sensitive = Ok b /\
        (b = true <-> dangling esc (chars pattern) = false /\
                      Matches (items case_sensitive (like_tokens esc (chars pattern))) (chars value))) /\
     (trigger_like_matches value pattern esc = true <->
        dangling esc (chars pattern) = false /\ Matches (items false (like_tokens esc (chars pattern))) (chars value))) /\
  (forall e, like_escape_char Plan escape = Err e ->
     executor_matches_like_pattern value pattern escape case_sensitive = Err (Plan "ESCAPE expression must be a single character") /\
     index_matches_like_pattern value pattern escape case_sensitive = Err (Storage "ESCAPE expression must be a single character") /\
     check_matches_like_pattern value pattern escape case_sensitive = Err (Storage "ESCAPE expression must be a single character")).
Proof.
  unfold executor_matches_like_pattern, index_matches_like_pattern, check_matches_like_pattern, trigger_like_matches.
  split.
  - intros esc He. assert (like_escape_char Storage escape = Ok esc) as -> by (destruct escape as [s|]; [|done]; cbn in *; by repeat case_match).
    rewrite He. cbn [bind]. split; [|split].
    + pose proof (executor_like_spec case_sensitive (like_tokens esc (chars pattern)) (before_nul (chars value))) as H.
      destruct (like_rows _ _ _ _ _) as [first cells]. eexists. split; [done|]. split; [|exact H].
      f_equal. apply eq_bool_prop_intro. by rewrite !Is_true_true, index_like_inner_spec.
    + eexists. split; [done|]. by rewrite check_like_inner_tokens, andb_true_iff, negb_true_iff, index_like_inner_spec.
    + by rewrite check_like_inner_tokens, andb_true_iff, negb_true_iff, index_like_inner_spec.
  - intros e He. destruct escape as [s|]; [|done]. unfold like_escape_char in *. by destruct (chars s) as [|c [|]].
Qed.

Lemma like_matchers_correct_witness :
  (forall esc, like_escape_char Plan (Some "!"%string) = Ok esc ->
     (exists b, executor_matches_like_pattern "A_b" "a!_%" (Some "!"%string) false = Ok b /\
        index_matches_like_pattern "A_b" "a!_%" (Some "!"%string) false = Ok b /\
        (b = true <-> Matches (items false (like_tokens esc (chars "a!_%"))) (before_nul (chars "A_b")))) /\
     (exists b, check_matches_like_pattern "A_b" "a!_%" (Some "!"%string) false = Ok b /\
        (b = true <-> dangling esc (chars "a!_%") = false /\ Matches (items false (like_tokens esc (chars "a!_%"))) (chars "A_b"))) /\
     (trigger_like_matches "A_b" "a!_%" esc = true <->
        dangling esc (chars "a!_%") = false /\ Matches (items false (like_tokens esc (chars "a!_%"))) (chars "A_b"))) /\
  like_escape_char Plan (Some "!"%string) = Ok (Some 33).
Proof. split; [apply (proj1 (like_matchers_correct "A_b" "a!_%" (Some "!"%string) false))|reflexivity]. Defined.

Example like_yes : executor_matches_like_pattern "A_b" "a!_%" (Some "!"%string) false = Ok true.
Proof. vm_compute. reflexivity. Qed.
Example like_no : executor_matches_like_pattern "Axb" "a!_%" (Some "!"%string) false = Ok false.
Proof. vm_compute. reflexivity. Qed.

(** Check constraints see what follows a null character; the executor does not. *)
Lemma check_like_differs :
  let value := of_chars [97; 0; 98] in
  executor_matches_like_pattern value "a" None false = Ok true /\ check_matches_like_pattern value "a" None false = Ok false.
Proof. vm_compute. by split. Qed.

(** GLOB. Each implementation decides whether the items of the pattern match: those of
    the executor and of expression indexes up to the first null character, that of check
    constraints on the whole value. A class that is never closed matches nothing; the
    implementations differ on a class whose first member is a closing bracket. *)
Theorem glob_matchers_correct (value pattern : string) :
  (executor_matches_glob_pattern value pattern = true <-> glob_meaning true (chars pattern) (before_nul (chars value))) /\
  (check_matches_glob_pattern value pattern = true <-> glob_meaning false (chars pattern) (chars value)).
Proof. split; apply glob_match_meaning. Qed.

Lemma check_glob_differs :
  executor_matches_glob_pattern "]" "[]]" = true /\ check_matches_glob_pattern "]" "[]]" = false.
Proof. vm_compute. by split. Qed.

Lemma anchored (p : list char) {A} (x : list char -> A) (y : A) :
  match p with 94 :: rest => x rest | _ => y end = if decide (head p = Some 94) then x (tail p) else y.
Proof. destruct p as [|c rest]; [done|]. cbn [head tail]. case_decide as Hp; [by injection Hp as ->|]. repeat (case_match; try done). Qed.

Lemma sqlite_regexp_matches_returns err pattern value : returns (sqlite_regexp_matches err pattern value).
Proof.
  unfold sqlite_regexp_matches. rewrite anchored. case_decide.
  - apply regexp_match_here_returns. lia.
  - apply regexp_search_returns. intros. apply regexp_match_here_returns. lia.
Qed.

(** C38: REGEXP. The matcher always returns. If the pattern has items, that is, no class is
    left open, it decides whether some part of the value up to its first null character
    matches them: from the start after [^], to the end before a final [$]. *)
Theorem regexp_matches_correct (err : string -> DbError) (pattern value : string) :
  returns (sqlite_regexp_matches err pattern value) /\
  forall l, regexp_meaning (chars pattern) l ->
    exists b, sqlite_regexp_matches err pattern value = Ok b /\ (b = true <-> Matches l (before_nul (chars value))).
Proof.
  split; [apply sqlite_regexp_matches_returns|]. intros l. unfold sqlite_regexp_matches, regexp_meaning. rewrite !anchored. case_decide as Hp.
  - intros Hl. apply regexp_match_here_decides; [done|lia].
  - intros (l' & -> & Hl). apply regexp_search_decides, regexp_match_here_decides; [done|lia].
Qed.

Lemma regexp_matches_correct_witness :
  returns (sqlite_regexp_matches Storage "b.*d$" "abcd") /\
  exists b, sqlite_regexp_matches Storage "b.*d$" "abcd" = Ok b /\
    (b = true <-> Matches [Many anything; One (fun v => 98 =? v); Many anything; One (fun v => 100 =? v)] (before_nul (chars "abcd"))).
Proof.
  split; [apply (proj1 (regexp_matches_correct Storage "b.*d$" "abcd"))|].
  apply (proj2 (regexp_matches_correct Storage "b.*d$" "abcd")). eexists. split; [reflexivity|].
  eapply Regexp_one; [done|reflexivity|done|]. eapply Regexp_star; [done|reflexivity|].
  eapply Regexp_one; [done|reflexivity|done|]. apply Regexp_end.
Defined.

Example regexp_yes : sqlite_regexp_matches Storage "b.*d$" "abcd" = Ok true.
Proof. vm_compute. reflexivity. Qed.
