(* ===== verification/Types.v ===== *)
(** * Shared logical types: [src/common/types.rs]

    [Value] with its hand-written [PartialEq] and [Ord], [ColumnType], and the
    civil calendar behind [CURRENT_TIMESTAMP]. A [Text] payload is the string's
    UTF-8 byte sequence; a [Real] payload is the 64-bit pattern of the [f64]. *)

From S2P Require Import Prelude.

(** ** Values *)

Inductive Value :=
  | Null
  | Boolean (b : bool)
  | Integer (i : Z)
  | Real (bits : Z)
  | Blob (b : bytes)
  | Text (s : string).

#[export] Instance Value_eq_dec : EqDecision Value.
Proof. solve_decision. Defined.

(** Values as keys of finite maps ([Hash] and [Eq] agree with [PartialEq]). *)
#[export] Instance Value_countable : Countable Value.
Proof.
  refine (inj_countable'
    (fun v => match v with
              | Null => inl (inl (inl tt))
              | Boolean b => inl (inl (inr b))
              | Integer i => inl (inr (inl i))
              | Real i => inl (inr (inr i))
              | Blob b => inr (inl b)
              | Text t => inr (inr t)
              end)
    (fun x : (unit + bool + (Z + Z)) + (list Z + string) =>
       match x with
       | inl (inl (inl tt)) => Null
       | inl (inl (inr b)) => Boolean b
       | inl (inr (inl i)) => Integer i
       | inl (inr (inr i)) => Real i
       | inr (inl b) => Blob b
       | inr (inr t) => Text t
       end) _).
  by intros [].
Defined.

(** A value Rust can hold: integers are [i64], reals are 64-bit patterns, blobs are
    bytes. *)
Definition value_wf (v : Value) : Prop :=
  match v with
  | Integer i => is_i64 i
  | Real bits => is_u64 bits
  | Blob b => is_bytes b
  | _ => True
  end.

#[export] Instance value_wf_dec v : Decision (value_wf v).
Proof. destruct v; simpl; apply _. Defined.

Abbreviation Row := (list Value) (only parsing).
(** [RowId(u64)] *)
Abbreviation RowId := Z (only parsing).

Definition type_name (v : Value) : string :=
  match v with
  | Null => "NULL"
  | Boolean _ => "BOOLEAN"
  | Integer _ => "INTEGER"
  | Real _ => "REAL"
  | Blob _ => "BLOB"
  | Text _ => "TEXT"
  end.

(** [impl PartialEq for Value]: reals are compared by their bits. *)
Definition value_eqb (self other : Value) : bool :=
  match self, other with
  | Null, Null => true
  | Boolean lhs, Boolean rhs => Bool.eqb lhs rhs
  | Integer lhs, Integer rhs => lhs =? rhs
  | Real lhs, Real rhs => lhs =? rhs
  | Blob lhs, Blob rhs => bool_decide (lhs = rhs)
  | Text lhs, Text rhs => String.eqb lhs rhs
  | _, _ => false
  end.

(** [f64::total_cmp]: the comparison of the bit patterns as [i64], after flipping
    the 63 low bits of the negative ones. *)
Definition total_key (bits : Z) : Z :=
  let lhs := as_i64 bits in
  if lhs <? 0 then Z.lxor lhs i64_max else lhs.
Definition total_cmp (lhs rhs : Z) : comparison := total_key lhs ?= total_key rhs.

(** The [Ord] of byte slices and of [bool]. *)
Definition slice_cmp : bytes -> bytes -> comparison := lex_cmp Z.compare.

Definition bool_cmp (lhs rhs : bool) : comparison :=
  match lhs, rhs with
  | false, true => Lt
  | true, false => Gt
  | _, _ => Eq
  end.

(** [str::cmp] compares the UTF-8 bytes. *)
Definition str_cmp (lhs rhs : string) : comparison :=
  slice_cmp (string_bytes lhs) (string_bytes rhs).

(** A [BTreeMap]'s entries, in the order of the names. *)
Definition sorted_by_name {A} (m : gmap string A) : list (string * A) :=
  sort_by (fun a b => str_cmp a.1 b.1) (map_to_list m).

Definition rank (v : Value) : Z :=
  match v with
  | Null => 0
  | Boolean _ => 1
  | Integer _ => 2
  | Real _ => 3
  | Blob _ => 4
  | Text _ => 5
  end.

(** [impl Ord for Value] *)
Definition value_cmp (self other : Value) : comparison :=
  match self, other with
  | Null, Null => Eq
  | Boolean lhs, Boolean rhs => bool_cmp lhs rhs
  | Integer lhs, Integer rhs => lhs ?= rhs
  | Real lhs, Real rhs => total_cmp lhs rhs
  | Blob lhs, Blob rhs => slice_cmp lhs rhs
  | Text lhs, Text rhs => str_cmp lhs rhs
  | _, _ => rank self ?= rank other
  end.

(** The derived [Ord] of [Vec<Value>], used for index keys. *)
Definition row_cmp : list Value -> list Value -> comparison := lex_cmp value_cmp.

(** ** Column types *)

Inductive ColumnType := CtAny | CtBoolean | CtInteger | CtNumeric | CtReal | CtBlob | CtText.

Definition column_type_name (t : ColumnType) : string :=
  match t with
  | CtAny => "ANY"
  | CtBoolean => "BOOLEAN"
  | CtInteger => "INTEGER"
  | CtNumeric => "NUMERIC"
  | CtReal => "REAL"
  | CtBlob => "BLOB"
  | CtText => "TEXT"
  end.

Definition matches_value (t : ColumnType) (v : Value) : bool :=
  match t, v with
  | CtAny, _ => true
  | CtBoolean, Boolean _ => true
  | CtInteger, Integer _ => true
  | CtNumeric, (Integer _ | Real _) => true
  | CtReal, Real _ => true
  | CtBlob, Blob _ => true
  | CtText, Text _ => true
  | _, _ => false
  end.

(** ** The civil calendar *)

Definition civil_from_days (days_since_unix_epoch : Z) : Z * Z * Z :=
  let z := days_since_unix_epoch + 719468 in
  let era := (if 0 <=? z then z else z - 146096) / 146097 in
  let doe := z - era * 146097 in
  let yoe := (doe - doe / 1460 + doe / 36524 - doe / 146096) / 365 in
  let year := yoe + era * 400 in
  let doy := doe - (365 * yoe + yoe / 4 - yoe / 100) in
  let mp := (5 * doy + 2) / 153 in
  let day := doy - (153 * mp + 2) / 5 + 1 in
  let month := mp + (if mp <? 10 then 3 else -9) in
  let year := if month <=? 2 then year + 1 else year in
  (year, month, day).

(** [{n:0w}] for a non-negative [n]. *)
Definition pad_zeros (w : nat) (n : Z) : string :=
  let s := pretty n in
  String.append (string_of_list_ascii (replicate (w - String.length s) "0"%char)) s.

(** [SystemTime::now().duration_since(UNIX_EPOCH)]: the seconds since the epoch, or
    the clock's error message. *)
Definition epoch_seconds (now : Z + string) : Result Z :=
  match now with
  | inr error => Err (Storage ("system clock is before unix epoch: " ++ error))
  | inl seconds =>
      if seconds <=? i64_max then Ok seconds
      else Err (Storage "system clock seconds do not fit in i64")
  end.

Definition date_string (year month day : Z) : string :=
  pad_zeros 4 year ++ "-" ++ pad_zeros 2 month ++ "-" ++ pad_zeros 2 day.
Definition time_string (hour minute second : Z) : string :=
  pad_zeros 2 hour ++ ":" ++ pad_zeros 2 minute ++ ":" ++ pad_zeros 2 second.

Definition current_timestamp_string (now : Z + string) : Result string :=
  let? seconds := epoch_seconds now in
  let days := seconds / 86400 in
  let seconds_of_day := seconds mod 86400 in
  let '(year, month, day) := civil_from_days days in
  let hour := seconds_of_day / 3600 in
  let minute := seconds_of_day mod 3600 / 60 in
  let second := seconds_of_day mod 60 in
  Ok (date_string year month day ++ " " ++ time_string hour minute second)%string.

Definition current_date_string (now : Z + string) : Result string :=
  let? seconds := epoch_seconds now in
  let days := seconds / 86400 in
  let '(year, month, day) := civil_from_days days in
  Ok (date_string year month day).

Definition current_time_string (now : Z + string) : Result string :=
  let? seconds := epoch_seconds now in
  let seconds_of_day := seconds mod 86400 in
  let hour := seconds_of_day / 3600 in
  let minute := seconds_of_day mod 3600 / 60 in
  let second := seconds_of_day mod 60 in
  Ok (time_string hour minute second).

Inductive ColumnDefault :=
  | Literal (v : Value)
  | CurrentTimestamp
  | CurrentDate
  | CurrentTime.

(** [ColumnDefault::evaluate], at the clock reading [now]. *)
Definition evaluate (now : Z + string) (d : ColumnDefault) : Result Value :=
  match d with
  | Literal v => Ok v
  | CurrentTimestamp => let? s := current_timestamp_string now in Ok (Text s)
  | CurrentDate => let? s := current_date_string now in Ok (Text s)
  | CurrentTime => let? s := current_time_string now in Ok (Text s)
  end.

(** ** Maps in the order of the names *)

Lemma sorted_by_name_elem {A} (m : gmap string A) name x : (name, x) ∈ sorted_by_name m <-> m !! name = Some x.
Proof. unfold sorted_by_name. by rewrite elem_of_sort_by, elem_of_map_to_list. Qed.

Lemma sorted_by_name_NoDup {A} (m : gmap string A) : NoDup (map fst (sorted_by_name m)).
Proof.
  unfold sorted_by_name. pose proof (sort_by_perm (fun a b : string * A => str_cmp a.1 b.1) (map_to_list m)) as Hp.
  apply (Permutation_map fst) in Hp. rewrite Hp. apply NoDup_fst_map_to_list.
Qed.

(** ** The order on values *)

Lemma total_key_inj a b : is_u64 a -> is_u64 b -> total_key a = total_key b -> a = b.
Proof.
  intros Ha Hb. assert (Hi : as_i64 a = as_i64 b -> a = b).
  { unfold as_i64, i64_max. destruct (Z.leb_spec a 9223372036854775807),
      (Z.leb_spec b 9223372036854775807); width. }
  intros Hk. apply Hi. revert Hk. unfold total_key. clear Hi.
  assert (Hneg : forall x, x < 0 -> Z.lxor x i64_max < 0).
  { intros x Hx. destruct (Z.lt_ge_cases (Z.lxor x i64_max) 0) as [|Hc]; [done|].
    apply Z.lxor_nonneg in Hc. unfold i64_max in Hc. lia. }
  destruct (Z.ltb_spec (as_i64 a) 0) as [Hna|], (Z.ltb_spec (as_i64 b) 0) as [Hnb|]; intros Hk.
  - apply (f_equal (fun x => Z.lxor x i64_max)) in Hk.
    by rewrite !Z.lxor_assoc, Z.lxor_nilpotent, !Z.lxor_0_r in Hk.
  - apply Hneg in Hna. lia.
  - apply Hneg in Hnb. lia.
  - done.
Qed.

Lemma string_bytes_inj s1 s2 : string_bytes s1 = string_bytes s2 -> s1 = s2.
Proof. intros H. by rewrite <- (bytes_string_bytes s1), <- (bytes_string_bytes s2), H. Qed.

Lemma slice_cmp_laws : CmpLaws (Forall (fun _ => True)) slice_cmp.
Proof. apply lex_cmp_laws, Z_cmp_laws. Qed.

Lemma Forall_True {A} (l : list A) : Forall (fun _ => True) l.
Proof. induction l; constructor; auto. Qed.

#[export] Instance value_cmp_laws : CmpLaws value_wf value_cmp.
Proof.
  pose proof slice_cmp_laws as S. split.
  - intros []; simpl; try done.
    + by destruct b.
    + apply Z.compare_refl.
    + apply Z.compare_refl.
    + apply (cmp_refl (CmpLaws := S)).
    + apply (cmp_refl (CmpLaws := S)).
  - intros [] []; simpl; intros Ha Hb; try done.
    + by destruct b, b0.
    + intros E. f_equal. by apply Z.compare_eq.
    + intros E. f_equal. apply total_key_inj; [done..|]. by apply Z.compare_eq.
    + intros E. f_equal. eapply (cmp_eq (CmpLaws := S)); eauto using Forall_True.
    + intros E. f_equal. apply string_bytes_inj.
      eapply (cmp_eq (CmpLaws := S)); eauto using Forall_True.
  - intros [] []; simpl; try done.
    + by destruct b, b0.
    + apply Z.compare_antisym.
    + apply Z.compare_antisym.
    + apply (cmp_antisym (CmpLaws := S)).
    + apply (cmp_antisym (CmpLaws := S)).
  - intros [] [] []; simpl; intros _ _ _; try done.
    + by destruct b, b0, b1.
    + rewrite !Z.compare_lt_iff. lia.
    + unfold total_cmp. rewrite !Z.compare_lt_iff. lia.
    + apply (cmp_trans (CmpLaws := S)); apply Forall_True.
    + apply (cmp_trans (CmpLaws := S)); apply Forall_True.
Qed.

#[export] Instance row_cmp_laws : CmpLaws (Forall value_wf) row_cmp.
Proof. apply lex_cmp_laws, value_cmp_laws. Qed.

Lemma value_eqb_eq a b : value_eqb a b = true <-> a = b.
Proof.
  destruct a, b; simpl; try (split; congruence).
  - rewrite eqb_true_iff. split; congruence.
  - rewrite Z.eqb_eq. split; congruence.
  - rewrite Z.eqb_eq. split; congruence.
  - rewrite bool_decide_eq_true. split; congruence.
  - rewrite String.eqb_eq. split; congruence.
Qed.

(** [Ord for Value] is a total order that agrees with [PartialEq]: the comparison
    is reflexive, antisymmetric and transitive, [Equal] exactly on equal values
    ([-0.0], [0.0] and the NaNs included, which are told apart by their bits), and
    values of different types are ordered by type. *)
Theorem value_cmp_total_order (a b c : Value) :
  value_wf a -> value_wf b -> value_wf c ->
  (value_cmp a b = Eq <-> value_eqb a b = true) /\
  value_cmp b a = CompOpp (value_cmp a b) /\
  (value_cmp a b = Lt -> value_cmp b c = Lt -> value_cmp a c = Lt) /\
  (rank a < rank b -> value_cmp a b = Lt).
Proof.
  intros Ha Hb Hc. split; [|split; [|split]].
  - rewrite value_eqb_eq. split; [by apply (cmp_eq (wf := value_wf))|].
    intros ->. apply cmp_refl.
  - apply cmp_antisym.
  - by apply (cmp_trans (wf := value_wf)).
  - destruct a, b; simpl; lia || done.
Qed.

Lemma value_cmp_total_order_witness :
  (value_cmp (Real 9223372036854775808) (Real 0) = Eq <->
     value_eqb (Real 9223372036854775808) (Real 0) = true) /\
  value_cmp (Real 0) (Real 9223372036854775808) =
    CompOpp (value_cmp (Real 9223372036854775808) (Real 0)) /\
  (value_cmp (Real 9223372036854775808) (Real 0) = Lt ->
   value_cmp (Real 0) (Text "a") = Lt ->
   value_cmp (Real 9223372036854775808) (Text "a") = Lt) /\
  (rank (Real 9223372036854775808) < rank (Real 0) ->
   value_cmp (Real 9223372036854775808) (Real 0) = Lt).
Proof.
  apply (value_cmp_total_order (Real 9223372036854775808) (Real 0) (Text "a"));
    vm_compute; intuition congruence.
Defined.
