(* ===== verification/Floats.v ===== *)
(** * 64-bit floating point numbers

    The [f64] operations of the source, on the bit patterns that [Types.Real] keeps. The
    arithmetic is the Standard Library's [SpecFloat] (round to nearest, ties to even); the
    functions whose precision Rust leaves open are the class [Libm]. *)

From Stdlib Require Import SpecFloat.
From S2P Require Import Prelude Text Types.

Abbreviation f64 := spec_float.

#[export] Instance f64_eq_dec : EqDecision f64.
Proof. solve_decision. Defined.

(** ** Bit patterns: [f64::from_bits] and [f64::to_bits] *)

Definition two52 : Z := 4503599627370496.
Definition two63 : Z := 9223372036854775808.

Definition f64_of_bits (bits : Z) : f64 :=
  let s := two63 <=? bits in
  let e := bits / two52 mod 2048 in
  let m := bits mod two52 in
  if e =? 2047 then (if m =? 0 then S754_infinity s else S754_nan)
  else if e =? 0 then match m with Zpos m => S754_finite s m (-1074) | _ => S754_zero s end
  else match two52 + m with Zpos m => S754_finite s m (e - 1075) | _ => S754_nan end.

Definition sign_bit (s : bool) : Z := if s then two63 else 0.
Definition f64_to_bits (f : f64) : Z :=
  match f with
  | S754_zero s => sign_bit s
  | S754_infinity s => sign_bit s + 2047 * two52
  | S754_nan => 2047 * two52 + two52 / 2
  | S754_finite s m e =>
      sign_bit s + if Z.pos m <? two52 then Z.pos m else (e + 1075) * two52 + (Z.pos m - two52)
  end.

(** ** Arithmetic *)

Definition f64_add : f64 -> f64 -> f64 := SFadd 53 1024.
Definition f64_sub : f64 -> f64 -> f64 := SFsub 53 1024.
Definition f64_mul : f64 -> f64 -> f64 := SFmul 53 1024.
Definition f64_div : f64 -> f64 -> f64 := SFdiv 53 1024.
Definition f64_sqrt : f64 -> f64 := SFsqrt 53 1024.
Definition f64_abs : f64 -> f64 := SFabs.
Definition f64_neg : f64 -> f64 := SFopp.
Definition f64_ltb : f64 -> f64 -> bool := SFltb.
Definition f64_leb : f64 -> f64 -> bool := SFleb.
Definition f64_eqb : f64 -> f64 -> bool := SFeqb.

(** [m * 2^e], rounded; [as f64] of an integer is the case [e = 0]. *)
Definition f64_make (m e : Z) : f64 := binary_normalize 53 1024 m e false.
Definition f64_of_int (z : Z) : f64 := f64_make z 0.

Definition f64_is_nan (f : f64) : bool := match f with S754_nan => true | _ => false end.
Definition f64_is_finite (f : f64) : bool := match f with S754_zero _ | S754_finite _ _ _ => true | _ => false end.
Definition f64_is_sign_negative (f : f64) : bool :=
  match f with S754_zero s | S754_infinity s | S754_finite s _ _ => s | S754_nan => false end.

(** The integer part of the magnitude, and whether it is exact. *)
Definition magnitude_floor (m : positive) (e : Z) : Z * bool :=
  if 0 <=? e then (Z.shiftl (Z.pos m) e, true)
  else (Z.shiftr (Z.pos m) (- e), Z.shiftl (Z.shiftr (Z.pos m) (- e)) (- e) =? Z.pos m).

(** The integer [z] with the sign of zero [s]. *)
Definition integral (s : bool) (z : Z) : f64 := binary_normalize 53 1024 (cond_Zopp s z) 0 s.

Definition f64_trunc (f : f64) : f64 :=
  match f with S754_finite s m e => integral s (magnitude_floor m e).1 | _ => f end.
Definition f64_floor (f : f64) : f64 :=
  match f with
  | S754_finite s m e => let (z, exact) := magnitude_floor m e in integral s (if s && negb exact then z + 1 else z)
  | _ => f
  end.
Definition f64_ceil (f : f64) : f64 :=
  match f with
  | S754_finite s m e => let (z, exact) := magnitude_floor m e in integral s (if negb s && negb exact then z + 1 else z)
  | _ => f
  end.
(** [f64::round]: half away from zero. *)
Definition f64_round (f : f64) : f64 :=
  match f with S754_finite s m e => integral s (((magnitude_floor m (e + 1)).1 + 1) / 2) | _ => f end.
(** [f64::fract]: [self - self.trunc()]. *)
Definition f64_fract (f : f64) : f64 := SFsub 53 1024 f (f64_trunc f).

(** [lhs % rhs]: exact, with the sign of [lhs]. *)
Definition f64_rem (lhs rhs : f64) : f64 :=
  match lhs, rhs with
  | S754_nan, _ | _, S754_nan | S754_infinity _, _ | _, S754_zero _ => S754_nan
  | S754_zero _, _ | _, S754_infinity _ => lhs
  | S754_finite s m e, S754_finite _ m' e' =>
      let low := Z.min e e' in
      binary_normalize 53 1024 (cond_Zopp s (Z.shiftl (Zpos m) (e - low) mod Z.shiftl (Zpos m') (e' - low))) low s
  end.
(** [as usize] of a number that is not negative. *)
Definition f64_to_u64 (f : f64) : Z :=
  match f with
  | S754_zero _ | S754_nan => 0
  | S754_infinity s => if s then 0 else u64_max
  | S754_finite s m e => if s then 0 else Z.min u64_max (magnitude_floor m e).1
  end.

(** [as i64]: towards zero, saturating, 0 for NaN. *)
Definition f64_to_i64 (f : f64) : Z :=
  match f with
  | S754_zero _ | S754_nan => 0
  | S754_infinity s => if s then i64_min else i64_max
  | S754_finite s m e => Z.max i64_min (Z.min i64_max (cond_Zopp s (magnitude_floor m e).1))
  end.

(** ** Decimal text *)

(** The number [m * 10^e] rounded to nearest; beyond the range of [f64] the powers of ten
    are not computed. *)
Definition f64_of_decimal (s : bool) (m : Z) (e : Z) : f64 :=
  match m with
  | Zpos p =>
      let digits := Zdigits2 m * 3 / 10 in
      if 400 <? digits + e then S754_infinity s
      else if digits + e <? -400 then S754_zero s
      else if 0 <=? e then binary_round 53 1024 s (p * Z.to_pos (10 ^ e)) 0
      else let '(q, e', loc) := SFdiv_core_binary 53 1024 m 0 (10 ^ (- e)) 0 in binary_round_aux 53 1024 s q e' loc
  | _ => S754_zero s
  end.

Fixpoint digits_prefix (l : list char) : list char * list char :=
  match l with
  | [] => ([], [])
  | c :: l' => if is_ascii_digit c then let (ds, rest) := digits_prefix l' in (c :: ds, rest) else ([], l)
  end.
Definition digits_value (ds : list char) : Z := fold_left (fun acc c => acc * 10 + (c - 48)) ds 0.

(** An optional sign. *)
Definition split_sign (l : list char) : bool * list char :=
  match l with
  | 43 :: l => (false, l)
  | 45 :: l => (true, l)
  | _ => (false, l)
  end.

(** The exponent of a number: absent, or [e] and a signed number with a digit. *)
Definition parse_exponent (l : list char) : option Z :=
  match l with
  | [] => Some 0
  | c :: l =>
      if (c =? 101) || (c =? 69) then
        let (s, l) := split_sign l in
        match digits_prefix l with
        | (d :: ds, []) => Some (cond_Zopp s (digits_value (d :: ds)))
        | _ => None
        end
      else None
  end.

Definition lowercase (l : list char) : list char := map ascii_lower l.

(** [str::parse::<f64>]: a signed decimal number with a digit before or after its point and
    an optional exponent, or [inf], [infinity] or [nan] in any case. *)
Definition parse_f64 (l : list char) : option f64 :=
  let (s, l) := split_sign l in
  let (int, rest) := digits_prefix l in
  let (frac, rest) := match rest with 46 :: rest => digits_prefix rest | _ => ([], rest) end in
  match int ++ frac with
  | [] =>
      if bool_decide (lowercase l ∈ [chars "inf"; chars "infinity"]) then Some (S754_infinity s)
      else if bool_decide (lowercase l = chars "nan") then Some S754_nan
      else None
  | digits =>
      e ← parse_exponent rest;
      Some (f64_of_decimal s (digits_value digits) (e - Zlen frac))
  end.

(** [Display for f64] prints the shortest decimal that reads back, the nearest among those
    of its length, without an exponent. [candidates n] are the two decimals of [n] digits
    around the magnitude [m * 2^e], as the digits and the power of ten, nearest first. *)
Definition scaled (m : positive) (e k : Z) : Z * Z :=
  let num := Z.pos m * (if 0 <=? e then 2 ^ e else 1) * (if 0 <=? k then 1 else 10 ^ (- k)) in
  let den := (if 0 <=? e then 1 else 2 ^ (- e)) * (if 0 <=? k then 10 ^ k else 1) in
  (num, den).
Definition candidates (m : positive) (e k : Z) : list Z :=
  let (num, den) := scaled m e k in
  let q := num / den in
  if 2 * (num mod den) <=? den then [q; q + 1] else [q + 1; q].

(** The power of ten of the leading digit. *)
Fixpoint decimal_exponent (fuel : nat) (m : positive) (e k : Z) : Z :=
  match fuel with
  | O => k
  | S fuel => let (num, den) := scaled m e k in
              if num <? den then decimal_exponent fuel m e (k - 1)
              else if 10 * den <=? num then decimal_exponent fuel m e (k + 1) else k
  end.

Fixpoint shortest (fuel : nat) (m : positive) (e k : Z) : Z * Z :=
  match fuel with
  | O => ((scaled m e k).1 / (scaled m e k).2, k)
  | S fuel =>
      match filter (fun d => f64_of_decimal false d k = S754_finite false m e) (candidates m e k) with
      | d :: _ => if d mod 10 =? 0 then (d / 10, k + 1) else (d, k)
      | [] => shortest fuel m e (k - 1)
      end
  end.

Definition zeros (n : Z) : string := bytes_string (repeat 48 (Z.to_nat n)).

(** [d * 10^k] written out: its digits with the point moved by [k]. *)
Definition place_point (d k : Z) : string :=
  let ds := pretty d in
  let n := Z.of_nat (String.length ds) in
  if 0 <=? k then (ds ++ zeros k)%string
  else if 0 <? n + k then
    (String.substring 0 (Z.to_nat (n + k)) ds ++ "." ++ String.substring (Z.to_nat (n + k)) (Z.to_nat (- k)) ds)%string
  else ("0." ++ zeros (- (n + k)) ++ ds)%string.

Definition f64_to_string (f : f64) : string :=
  match f with
  | S754_nan => "NaN"
  | S754_infinity s => if s then "-inf" else "inf"
  | S754_zero s => if s then "-0" else "0"
  | S754_finite s m e =>
      let (d, k) := shortest 18 m e (decimal_exponent 400 m e ((Z.log2 (Z.pos m) + e) * 3 / 10)) in
      ((if s then "-" else "") ++ place_point d k)%string
  end.

(** ** The functions Rust does not specify to the bit *)

(** [f64::powi] and the transcendental functions. *)
Class Libm := {
  libm_powi : f64 -> Z -> f64;
  libm_ln : f64 -> f64; libm_log10 : f64 -> f64; libm_log2 : f64 -> f64; libm_exp : f64 -> f64;
  libm_sin : f64 -> f64; libm_cos : f64 -> f64; libm_tan : f64 -> f64;
  libm_sinh : f64 -> f64; libm_cosh : f64 -> f64; libm_tanh : f64 -> f64;
  libm_asin : f64 -> f64; libm_acos : f64 -> f64; libm_atan : f64 -> f64;
  libm_asinh : f64 -> f64; libm_acosh : f64 -> f64; libm_atanh : f64 -> f64;
  libm_powf : f64 -> f64 -> f64; libm_atan2 : f64 -> f64 -> f64;
  libm_log : f64 -> f64 -> f64
}.
