(* ===== verification/Lexer.v ===== *)
(** * The SQL lexer: [src/sql/lexer.rs]

    [lex] cuts a text into tokens with their byte positions. The lexer's state, the input
    and an offset into it, is the list of characters from the offset on; a token's position
    is the length of the input less that of what is left. A call of a [lex_*] method
    returns the token's kind and the characters after it. *)

From S2P Require Import Prelude Text Floats.

(** A real is its bits, as in Types.v. *)
Inductive TokenKind :=
  | TkCreate | TkAlter | TkAdd | TkRename | TkReplace | TkDrop | TkTable | TkColumn | TkTo | TkUnique | TkIndex
  | TkOn | TkOff | TkConflict | TkDo | TkNothing | TkInsert | TkInto | TkValues | TkSelect | TkDelete | TkUpdate
  | TkSet | TkFrom | TkWhere | TkGroup | TkHaving | TkOrder | TkBy | TkLimit | TkOffset | TkWith | TkRecursive
  | TkUnion | TkIntersect | TkExcept | TkAll | TkAs | TkInner | TkCross | TkLeft | TkRight | TkFull | TkOuter
  | TkNatural | TkJoin | TkUsing | TkAsc | TkDesc | TkAnd | TkOr | TkLike | TkGlob | TkRegexp | TkMatch | TkEscape
  | TkBetween | TkBegin | TkStart | TkTransaction | TkIsolation | TkLevel | TkRead | TkCommitted | TkRepeatable
  | TkSerializable | TkCommit | TkRollback | TkSavepoint | TkRelease | TkCase | TkWhen | TkThen | TkElse | TkEnd
  | TkIf | TkNot | TkIn | TkIs | TkExists | TkExplain | TkQuery | TkPlan | TkPragma | TkAnalyze | TkReindex
  | TkVacuum | TkDistinct | TkDefault | TkReturning | TkCheck | TkCollate | TkConstraint | TkForeign
  | TkReferences | TkGenerated | TkAlways | TkStored | TkVirtual | TkIsNull | TkNotNull | TkNulls | TkFirst
  | TkLast | TkPrimary | TkKey | TkStrict | TkAutoincrement | TkIntegerType | TkTextType | TkBlobType
  | TkBooleanType | TkTrue | TkFalse | TkNull | TkIdentifier (s : string) | TkInteger (i : Z) | TkReal (bits : Z)
  | TkString (s : string) | TkBlobLiteral (b : bytes) | TkStar | TkComma | TkSemicolon | TkLParen | TkRParen
  | TkEq | TkNe | TkGt | TkGte | TkLt | TkLte | TkPlus | TkMinus | TkSlash | TkPercent | TkAmpersand | TkPipe
  | TkShiftLeft | TkShiftRight | TkTilde | TkPipePipe | TkArrow | TkArrowText | TkDot | TkEof.
Record Token := mkToken { kind : TokenKind; position : Z }.

(** ** Characters *)

Definition is_identifier_start (ch : char) : bool := is_ascii_alphabetic ch || (ch =? underscore).
Definition is_identifier_continue (ch : char) : bool := is_ascii_alphanumeric ch || (ch =? underscore).
Definition is_digit_or_underscore (ch : char) : bool := is_ascii_digit ch || (ch =? underscore).
Definition is_hex_digit (ch : char) : bool :=
  is_ascii_digit ch || ((c#"a" <=? ch) && (ch <=? c#"f")) || ((c#"A" <=? ch) && (ch <=? c#"F")).

(** [self.peek() == Some(c)], and [matches!(self.peek(), Some(c) if f(c))]. *)
Definition peek_is (c : char) (l : list char) : bool := match l with ch :: _ => ch =? c | [] => false end.
Definition peek_matches (f : char -> bool) (l : list char) : bool := match l with ch :: _ => f ch | [] => false end.

(** [text.replace('_', "")] *)
Definition without_underscores (l : list char) : list char := List.filter (fun ch => negb (ch =? underscore)) l.

(** ** Comments *)

Fixpoint skip_line_comment (l : list char) : list char :=
  match l with
  | [] => []
  | ch :: l => if ch =? 10 then l else skip_line_comment l
  end.

Fixpoint skip_block_comment (l : list char) : Result (list char) :=
  match l with
  | [] => Err (Sql "unterminated block comment")
  | ch :: l => if (ch =? c#"*") && peek_is c#"/" l then Ok (tail l) else skip_block_comment l
  end.

(** ** Quotes *)

(** The loop of [lex_string] and [lex_quoted_identifier]: up to [closer], which stands for
    itself where it is [doubled]. *)
Fixpoint lex_quoted (closer : char) (doubled : bool) (error : DbError) (l : list char) : Result (list char * list char) :=
  match l with
  | [] => Err error
  | ch :: l =>
      if ch =? closer then
        match l with
        | next :: l' =>
            if doubled && (next =? closer) then
              let? (value, rest) := lex_quoted closer doubled error l' in Ok (closer :: value, rest)
            else Ok ([], l)
        | [] => Ok ([], l)
        end
      else let? (value, rest) := lex_quoted closer doubled error l in Ok (ch :: value, rest)
  end.

Definition lex_string (l : list char) : Result (list char * list char) :=
  lex_quoted c#"'" true (Sql "unterminated string literal") l.

Definition lex_quoted_identifier (opener closer : char) (l : list char) : Result (TokenKind * list char) :=
  let? (value, rest) := lex_quoted closer (opener =? 34) (Sql "unterminated quoted identifier") l in
  Ok (TkIdentifier (of_chars value), rest).

(** The loop of [lex_blob_literal]: two bytes at a time; a slice that cuts a character in
    two panics. *)
Fixpoint blob_bytes (hex : bytes) : Result bytes :=
  match hex with
  | high :: low :: hex =>
      if peek_matches is_cont hex then Panic "byte index is not a char boundary"
      else
        let pair := from_utf8_lossy [high; low] in
        match from_str_radix_unsigned u8_max 16 (chars pair) with
        | inl _ => Err (Sql ("invalid blob literal hex byte '" ++ pair ++ "'")%string)
        | inr byte => let? bytes := blob_bytes hex in Ok (byte :: bytes)
        end
  | _ => Ok []
  end.

Definition lex_blob_literal (l : list char) : Result (TokenKind * list char) :=
  let? (value, rest) := lex_string l in
  let hex := flat_map encode_utf8 value in
  if negb (Zlen hex mod 2 =? 0) then Err (Sql "blob literal must contain an even number of hex digits")
  else let? bytes := blob_bytes hex in Ok (TkBlobLiteral bytes, rest).

(** ** Numbers *)

Definition lex_hex (l : list char) : Result (TokenKind * list char) :=
  let (text, rest) := span (fun ch => is_hex_digit ch || (ch =? underscore)) l in
  if bool_decide (text = []) then Err (Sql "invalid hexadecimal integer literal '0x'")
  else
    match from_str_radix_unsigned u64_max 16 (without_underscores text) with
    | inl error => Err (Sql ("invalid hexadecimal integer literal '0x" ++ of_chars text ++ "': " ++ int_error_message error)%string)
    | inr value => Ok (TkInteger (as_i64 value), rest)
    end.

(** The point and the digits after it, if they belong to the number; [int] is before. *)
Definition lex_fraction (int l : list char) : option (list char * list char) :=
  match l with
  | ch :: rest =>
      if (ch =? c#".") && (negb (bool_decide (int = [])) || peek_matches is_ascii_digit rest) then
        let (frac, rest) := span is_digit_or_underscore rest in Some (ch :: frac, rest)
      else None
  | [] => None
  end.

Definition lex_exponent (l : list char) : option (list char * list char) :=
  match l with
  | e :: rest =>
      if (e =? c#"e") || (e =? c#"E") then
        let (sign, rest) := match rest with
                            | s :: rest' => if (s =? c#"+") || (s =? c#"-") then ([s], rest') else ([], rest)
                            | [] => ([], rest)
                            end in
        if peek_matches is_ascii_digit rest then
          let (digits, rest) := span is_digit_or_underscore rest in Some (e :: sign ++ digits, rest)
        else None
      else None
  | [] => None
  end.

Definition parse_real (what : string) (text : list char) : Result TokenKind :=
  match parse_f64 (without_underscores text) with
  | Some value => Ok (TkReal (f64_to_bits value))
  | None => Err (Sql ("invalid " ++ what ++ " literal '" ++ of_chars text ++ "': invalid float literal")%string)
  end.

Definition lex_decimal (l : list char) : Result (TokenKind * list char) :=
  let (int, rest) := span is_digit_or_underscore l in
  let frac := lex_fraction int rest in
  let (frac_text, rest) := default ([], rest) frac in
  let exponent := lex_exponent rest in
  let (exponent_text, rest) := default ([], rest) exponent in
  let text := int ++ frac_text ++ exponent_text in
  match frac, exponent with
  | None, None =>
      match parse_i64 (without_underscores text) with
      | inr value => Ok (TkInteger value, rest)
      | inl _ => let? kind := parse_real "integer" text in Ok (kind, rest)
      end
  | _, _ => let? kind := parse_real "real" text in Ok (kind, rest)
  end.

Definition lex_number (l : list char) : Result (TokenKind * list char) :=
  match l with
  | zero :: x :: rest => if (zero =? c#"0") && ((x =? c#"x") || (x =? c#"X")) then lex_hex rest else lex_decimal l
  | _ => lex_decimal l
  end.

(** ** Words *)

(** The arms of the [match] of [lex_word]. *)
Definition keywords : list (string * TokenKind) := [
  ("CREATE", TkCreate); ("ALTER", TkAlter); ("ADD", TkAdd); ("RENAME", TkRename); ("REPLACE", TkReplace);
  ("DROP", TkDrop); ("TABLE", TkTable); ("COLUMN", TkColumn); ("TO", TkTo); ("UNIQUE", TkUnique);
  ("INDEX", TkIndex); ("ON", TkOn); ("OFF", TkOff); ("CONFLICT", TkConflict); ("DO", TkDo);
  ("NOTHING", TkNothing); ("INSERT", TkInsert); ("INTO", TkInto); ("VALUES", TkValues); ("SELECT", TkSelect);
  ("DELETE", TkDelete); ("UPDATE", TkUpdate); ("SET", TkSet); ("FROM", TkFrom); ("WHERE", TkWhere);
  ("GROUP", TkGroup); ("HAVING", TkHaving); ("ORDER", TkOrder); ("BY", TkBy); ("LIMIT", TkLimit);
  ("OFFSET", TkOffset); ("WITH", TkWith); ("RECURSIVE", TkRecursive); ("UNION", TkUnion);
  ("INTERSECT", TkIntersect); ("EXCEPT", TkExcept); ("ALL", TkAll); ("AS", TkAs); ("INNER", TkInner);
  ("CROSS", TkCross); ("LEFT", TkLeft); ("RIGHT", TkRight); ("FULL", TkFull); ("OUTER", TkOuter);
  ("NATURAL", TkNatural); ("JOIN", TkJoin); ("USING", TkUsing); ("ASC", TkAsc); ("DESC", TkDesc); ("AND", TkAnd);
  ("OR", TkOr); ("LIKE", TkLike); ("GLOB", TkGlob); ("REGEXP", TkRegexp); ("MATCH", TkMatch);
  ("ESCAPE", TkEscape); ("BETWEEN", TkBetween); ("BEGIN", TkBegin); ("START", TkStart);
  ("TRANSACTION", TkTransaction); ("ISOLATION", TkIsolation); ("LEVEL", TkLevel); ("READ", TkRead);
  ("COMMITTED", TkCommitted); ("REPEATABLE", TkRepeatable); ("SERIALIZABLE", TkSerializable);
  ("COMMIT", TkCommit); ("ROLLBACK", TkRollback); ("SAVEPOINT", TkSavepoint); ("RELEASE", TkRelease);
  ("CASE", TkCase); ("WHEN", TkWhen); ("THEN", TkThen); ("ELSE", TkElse); ("END", TkEnd); ("IF", TkIf);
  ("NOT", TkNot); ("IN", TkIn); ("IS", TkIs); ("EXISTS", TkExists); ("EXPLAIN", TkExplain); ("QUERY", TkQuery);
  ("PLAN", TkPlan); ("PRAGMA", TkPragma); ("ANALYZE", TkAnalyze); ("REINDEX", TkReindex); ("VACUUM", TkVacuum);
  ("DISTINCT", TkDistinct); ("DEFAULT", TkDefault); ("RETURNING", TkReturning); ("CHECK", TkCheck);
  ("COLLATE", TkCollate); ("CONSTRAINT", TkConstraint); ("FOREIGN", TkForeign); ("REFERENCES", TkReferences);
  ("GENERATED", TkGenerated); ("ALWAYS", TkAlways); ("STORED", TkStored); ("VIRTUAL", TkVirtual);
  ("ISNULL", TkIsNull); ("NOTNULL", TkNotNull); ("NULLS", TkNulls); ("FIRST", TkFirst); ("LAST", TkLast);
  ("PRIMARY", TkPrimary); ("KEY", TkKey); ("STRICT", TkStrict); ("AUTOINCREMENT", TkAutoincrement);
  ("INTEGER", TkIntegerType); ("TEXT", TkTextType); ("BLOB", TkBlobType); ("BOOLEAN", TkBooleanType);
  ("TRUE", TkTrue); ("FALSE", TkFalse); ("NULL", TkNull)
]%string.

Fixpoint assoc_string {A} (key : string) (l : list (string * A)) : option A :=
  match l with
  | [] => None
  | (k, a) :: l => if String.eqb k key then Some a else assoc_string key l
  end.

Definition word_kind (text : list char) : TokenKind :=
  match assoc_string (of_chars (map ascii_upper text)) keywords with
  | Some kind => kind
  | None => TkIdentifier (of_chars text)
  end.

Definition lex_word (l : list char) : TokenKind * list char :=
  let (text, rest) := span is_identifier_continue l in (word_kind text, rest).

(** ** Tokens *)

(** A token of one, two or three characters of punctuation; [None] if [ch] starts none. *)
Definition lex_punctuation (ch : char) (rest : list char) : option (TokenKind * list char) :=
  if ch =? c#"(" then Some (TkLParen, rest)
  else if ch =? c#")" then Some (TkRParen, rest)
  else if ch =? c#"," then Some (TkComma, rest)
  else if ch =? c#"." then Some (TkDot, rest)
  else if ch =? c#"*" then Some (TkStar, rest)
  else if ch =? c#"+" then Some (TkPlus, rest)
  else if ch =? c#"%" then Some (TkPercent, rest)
  else if ch =? c#"&" then Some (TkAmpersand, rest)
  else if ch =? c#"~" then Some (TkTilde, rest)
  else if ch =? c#";" then Some (TkSemicolon, rest)
  else if ch =? c#"=" then Some (TkEq, if peek_is c#"=" rest then tail rest else rest)
  else if ch =? c#"!" then if peek_is c#"=" rest then Some (TkNe, tail rest) else None
  else if ch =? c#">" then
    Some (if peek_is c#"=" rest then (TkGte, tail rest) else if peek_is c#">" rest then (TkShiftRight, tail rest) else (TkGt, rest))
  else if ch =? c#"<" then
    Some (if peek_is c#"=" rest then (TkLte, tail rest) else if peek_is c#">" rest then (TkNe, tail rest)
          else if peek_is c#"<" rest then (TkShiftLeft, tail rest) else (TkLt, rest))
  else if ch =? c#"-" then
    Some (if peek_is c#">" rest
          then if peek_is c#">" (tail rest) then (TkArrowText, tail (tail rest)) else (TkArrow, tail rest)
          else (TkMinus, rest))
  else if ch =? c#"/" then Some (TkSlash, rest)
  else if ch =? c#"|" then Some (if peek_is c#"|" rest then (TkPipePipe, tail rest) else (TkPipe, rest))
  else None.

(** The [match ch]: the token that starts with [ch]. *)
Definition lex_token (position : Z) (ch : char) (rest : list char) : Result (TokenKind * list char) :=
  if (ch =? c#".") && peek_matches is_ascii_digit rest then lex_number (ch :: rest)
  else
    match lex_punctuation ch rest with
    | Some found => Ok found
    | None =>
        if ch =? c#"'" then let? (value, rest) := lex_string rest in Ok (TkString (of_chars value), rest)
        else if ch =? 34 then lex_quoted_identifier 34 34 rest
        else if ch =? c#"`" then lex_quoted_identifier c#"`" c#"`" rest
        else if ch =? c#"[" then lex_quoted_identifier c#"[" c#"]" rest
        else if is_ascii_digit ch then lex_number (ch :: rest)
        else if ((ch =? c#"x") || (ch =? c#"X")) && peek_is c#"'" rest then lex_blob_literal (tail rest)
        else if is_identifier_start ch then Ok (lex_word (ch :: rest))
        else Err (Sql ("unexpected character '" ++ of_chars [ch] ++ "' at position " ++ pretty position)%string)
    end.

(** The loop of [Lexer::lex] on an input of [total] bytes; every round consumes a
    character. *)
Fixpoint lex_loop (fuel : nat) (total : Z) (l : list char) : Result (list Token) :=
  match fuel with
  | O => OutOfFuel
  | S fuel =>
      match l with
      | [] => Ok [mkToken TkEof total]
      | ch :: rest =>
          if is_whitespace ch then lex_loop fuel total rest
          else if (ch =? c#"-") && peek_is c#"-" rest then lex_loop fuel total (skip_line_comment (tail rest))
          else if (ch =? c#"/") && peek_is c#"*" rest then
            let? rest := skip_block_comment (tail rest) in lex_loop fuel total rest
          else
            let position := total - byte_len l in
            let? (kind, rest) := lex_token position ch rest in
            let? tokens := lex_loop fuel total rest in
            Ok (mkToken kind position :: tokens)
      end
  end.

Definition lex (input : string) : Result (list Token) :=
  let l := chars input in lex_loop (S (length l)) (byte_len l) l.
