(* ===== verification/LexerLaws.v ===== *)
(** * What the lexer accepts

    [lex] ends on every text, its tokens follow one another in the text, and every text
    written from tokens, blanks and comments by the lexical grammar below lexes to those
    tokens. *)

From S2P Require Import Prelude Text Floats Lexer.

(** ** Consumption *)

Lemma span_spec f l : let (taken, rest) := span f l in
  l = taken ++ rest /\ Forall (fun c => f c = true) taken /\ peek_matches f rest = false.
Proof.
  induction l as [|c l IH]; cbn [span]; [by split_and!|]. destruct (f c) eqn:E.
  - destruct (span f l) as [taken rest]. destruct IH as (-> & Ht & Hr). split_and!; [done|by constructor|done].
  - split_and!; [done|done|]. exact E.
Qed.

(** Taking characters that satisfy [f] from a text, up to one that does not. *)
Lemma span_app f taken rest : Forall (fun c => f c = true) taken -> peek_matches f rest = false -> span f (taken ++ rest) = (taken, rest).
Proof.
  intros Ht Hr. induction Ht as [|c taken Hc Ht IH]; cbn [app span].
  - destruct rest as [|c rest]; [done|]. cbn [span]. cbn in Hr. by rewrite Hr.
  - by rewrite Hc, IH.
Qed.

Lemma span_suffix f l : (span f l).2 `suffix_of` l.
Proof. pose proof (span_spec f l) as H. destruct (span f l) as [taken rest]. destruct H as (-> & _). by eexists. Qed.

Lemma skip_line_suffix l : skip_line_comment l `suffix_of` l.
Proof. induction l as [|c l IH]; [done|]. cbn. destruct (c =? 10); by apply suffix_cons_r. Qed.

Lemma tail_suffix {A} (l : list A) : tail l `suffix_of` l.
Proof. destruct l; [done|]. by apply suffix_cons_r. Qed.

Lemma skip_block_suffix l rest : skip_block_comment l = Ok rest -> rest `suffix_of` l.
Proof.
  induction l as [|c l IH]; [done|]. cbn [skip_block_comment]. destruct (_ && _).
  - intros [= <-]. apply suffix_cons_r, tail_suffix.
  - intros Hr. by apply suffix_cons_r, IH.
Qed.

Lemma bind_Ok {A B} (m : Result A) (k : A -> Result B) b : bind m k = Ok b <-> exists a, m = Ok a /\ k a = Ok b.
Proof. destruct m; cbn; naive_solver. Qed.

(** No function here runs out of fuel, and none panics on an ASCII text ([ascii]). *)
Definition calm {A} (ascii : bool) (r : Result A) : Prop :=
  match r with
  | Ok _ | Err _ => True
  | Panic _ => ascii = false
  | OutOfFuel => False
  end.

Lemma calm_bind {A B} ascii (m : Result A) (k : A -> Result B) :
  calm ascii m -> (forall a, m = Ok a -> calm ascii (k a)) -> calm ascii (bind m k).
Proof. destruct m; cbn; auto. Qed.

Lemma lex_quoted_spec closer doubled error ascii l :
  calm ascii (lex_quoted closer doubled error l) /\
  forall value rest, lex_quoted closer doubled error l = Ok (value, rest) ->
    rest `suffix_of` l /\ forall P : char -> Prop, Forall P l -> Forall P value.
Proof.
  remember (length l) as n eqn:Hn. revert l Hn. induction n as [n IH] using lt_wf_ind. intros [|c l] Hn; cbn [lex_quoted]; [done|].
  cbn in Hn. destruct (Z.eqb_spec c closer) as [->|].
  - destruct l as [|next l]; [split; [done|]; intros v r [= <- <-]; split; [by apply suffix_nil|done]|]. cbn in Hn.
    destruct (doubled && (next =? closer)).
    + destruct (IH (length l) ltac:(lia) l eq_refl) as [H1 H2]. split; [by apply calm_bind; [|intros []]|].
      intros v r ([v' r'] & Hq & [= <- <-])%bind_Ok. destruct (H2 _ _ Hq) as [Hr Hv]. split; [by do 2 apply suffix_cons_r|].
      intros P Hl. apply Forall_cons in Hl as [Hc Hl]. apply Forall_cons in Hl as [_ Hl]. constructor; auto.
    + split; [done|]. intros v r [= <- <-]. split; [by apply suffix_cons_r|done].
  - destruct (IH (length l) ltac:(lia) l eq_refl) as [H1 H2]. split; [by apply calm_bind; [|intros []]|].
    intros v r ([v' r'] & Hq & [= <- <-])%bind_Ok. destruct (H2 _ _ Hq) as [Hr Hv]. split; [by apply suffix_cons_r|].
    intros P Hl. apply Forall_cons in Hl as [Hc Hl]. constructor; auto.
Qed.

Lemma lex_quoted_suffix closer doubled error l value rest :
  lex_quoted closer doubled error l = Ok (value, rest) -> rest `suffix_of` l.
Proof. apply (lex_quoted_spec closer doubled error true l). Qed.

Lemma lex_fraction_suffix int l text rest : lex_fraction int l = Some (text, rest) -> rest `suffix_of` tail l.
Proof.
  unfold lex_fraction. destruct l as [|c l]; [done|]. destruct (_ && _); [|done]. pose proof (span_suffix is_digit_or_underscore l) as Hs.
  destruct (span is_digit_or_underscore l). by intros [= _ <-].
Qed.

Lemma lex_exponent_suffix l text rest : lex_exponent l = Some (text, rest) -> rest `suffix_of` l.
Proof.
  unfold lex_exponent. destruct l as [|e l]; [done|]. destruct (_ || _); [|done].
  assert (Hs : (match l with s :: rest' => if (s =? c#"+") || (s =? c#"-") then ([s], rest') else ([], l) | [] => ([], l) end).2 `suffix_of` l).
  { destruct l as [|s l]; [done|]. destruct (_ || _); [by apply suffix_cons_r|done]. }
  destruct (match l with [] => _ | _ => _ end) as [sign l']. cbn in Hs. destruct (peek_matches is_ascii_digit l'); [|done].
  pose proof (span_suffix is_digit_or_underscore l') as Hd. destruct (span is_digit_or_underscore l'). intros [= _ <-].
  apply suffix_cons_r. by etrans.
Qed.

Lemma parse_real_kind what text kind : parse_real what text = Ok kind -> exists bits, kind = TkReal bits.
Proof. unfold parse_real. destruct (parse_f64 _); [|done]. intros [= <-]. by eexists. Qed.

(** A number is at least as long as its first character. *)
Lemma lex_decimal_spec c l kind rest :
  is_ascii_digit c = true \/ (c = c#"." /\ peek_matches is_ascii_digit l = true) ->
  lex_decimal (c :: l) = Ok (kind, rest) -> rest `suffix_of` l /\ kind <> TkEof.
Proof.
  intros Hc. unfold lex_decimal.
  assert (Hspan : exists int l', span is_digit_or_underscore (c :: l) = (int, l') /\ l' `suffix_of` c :: l /\
            (l' `suffix_of` l \/ (int = [] /\ l' = c :: l /\ peek_matches is_ascii_digit l = true /\ c = c#"."))).
  { cbn [span]. destruct Hc as [Hd|[-> Hl]].
    - unfold is_digit_or_underscore at 1. rewrite Hd. cbn [orb]. pose proof (span_suffix is_digit_or_underscore l) as Hs.
      destruct (span is_digit_or_underscore l) as [int l']. cbn in Hs. exists (c :: int), l'. split_and!; [done|by apply suffix_cons_r|by left].
    - exists [], (c#"." :: l). split_and!; [done|done|]. right. by split_and!. }
  destruct Hspan as (int & l' & -> & Hl' & Hint). 
  assert (Hfrac : (default ([], l') (lex_fraction int l')).2 `suffix_of` l).
  { destruct (lex_fraction int l') as [[text r]|] eqn:Ef; cbn [default snd].
    - pose proof (lex_fraction_suffix _ _ _ _ Ef) as Hr. destruct Hint as [Hs|(-> & -> & _)]; [|exact Hr].
      etrans; [exact Hr|]. etrans; [apply tail_suffix|done].
    - destruct Hint as [Hs|(-> & -> & Hp & ->)]; [done|]. exfalso. unfold lex_fraction in Ef. rewrite Hp in Ef. cbn in Ef.
      by destruct (span is_digit_or_underscore l). }
  destruct (default ([], l') (lex_fraction int l')) as [frac r] eqn:Ef. cbn in Hfrac.
  assert (Hexp : (default ([], r) (lex_exponent r)).2 `suffix_of` l).
  { destruct (lex_exponent r) as [[text r']|] eqn:Ee; cbn [default snd]; [|done]. etrans; [by eapply lex_exponent_suffix|done]. }
  destruct (default ([], r) (lex_exponent r)) as [exponent r'] eqn:Ee. cbn in Hexp.
  assert (Hreal : forall what text, (let? kind := parse_real what text in Ok (kind, r')) = Ok (kind, rest) -> rest `suffix_of` l /\ kind <> TkEof).
  { intros what text (k & Hk & [= -> <-])%bind_Ok. apply parse_real_kind in Hk as [bits ->]. done. }
  destruct (lex_fraction int l'), (lex_exponent r); try apply Hreal.
  destruct (parse_i64 _); [apply Hreal|]. by intros [= <- <-].
Qed.

Lemma lex_hex_spec l kind rest : lex_hex l = Ok (kind, rest) -> rest `suffix_of` l /\ kind <> TkEof.
Proof.
  unfold lex_hex. pose proof (span_suffix (fun ch => is_hex_digit ch || (ch =? underscore)) l) as Hs. destruct (span _ l) as [text r].
  case_bool_decide; [done|]. destruct (from_str_radix_unsigned _ _ _); [done|]. by intros [= <- <-].
Qed.

Lemma lex_number_spec c l kind rest :
  is_ascii_digit c = true \/ (c = c#"." /\ peek_matches is_ascii_digit l = true) ->
  lex_number (c :: l) = Ok (kind, rest) -> rest `suffix_of` l /\ kind <> TkEof.
Proof.
  intros Hc. unfold lex_number. destruct l as [|x l]; [by apply lex_decimal_spec|]. destruct (_ && _); [|by apply lex_decimal_spec].
  intros [Hr Hk]%lex_hex_spec. split; [by apply suffix_cons_r|done].
Qed.

Lemma keyword_kinds : forallb (fun wk : string * TokenKind => match wk.2 with TkEof => false | _ => true end) keywords = true.
Proof. reflexivity. Qed.

Lemma assoc_string_elem {A} key (l : list (string * A)) a : assoc_string key l = Some a -> (key, a) ∈ l.
Proof.
  induction l as [|[k x] l IH]; [done|]. cbn. destruct (String.eqb_spec k key) as [->|]; [intros [= ->]; by left|right; by apply IH].
Qed.

Lemma word_kind_not_eof text : word_kind text <> TkEof.
Proof.
  unfold word_kind. destruct (assoc_string _ _) as [kind|] eqn:E; [|done]. apply assoc_string_elem in E. intros ->.
  pose proof keyword_kinds as Hk. rewrite forallb_forall in Hk. specialize (Hk _ (proj1 (list_elem_of_In _ _) E)). done.
Qed.

Lemma lex_word_spec c l : is_identifier_start c = true -> (lex_word (c :: l)).2 `suffix_of` l /\ (lex_word (c :: l)).1 <> TkEof.
Proof.
  intros Hc. unfold lex_word. cbn [span]. assert (is_identifier_continue c = true) as ->.
  { unfold is_identifier_start, is_identifier_continue, is_ascii_alphanumeric in *. destruct (is_ascii_alphabetic c); [done|].
    destruct (is_ascii_digit c); [done|]. exact Hc. }
  pose proof (span_suffix is_identifier_continue l) as Hs. destruct (span is_identifier_continue l) as [text rest]. split; [exact Hs|].
  apply word_kind_not_eof.
Qed.

Lemma lex_punctuation_spec c l kind rest : lex_punctuation c l = Some (kind, rest) -> rest `suffix_of` l /\ kind <> TkEof.
Proof.
  unfold lex_punctuation. intros Hp. repeat (case_match; simplify_eq; try done);
    (split; [|done]); try done; try apply tail_suffix. etrans; apply tail_suffix.
Qed.

Lemma lex_quoted_identifier_spec o c l kind rest : lex_quoted_identifier o c l = Ok (kind, rest) -> rest `suffix_of` l /\ kind <> TkEof.
Proof. unfold lex_quoted_identifier. intros ([v r] & Hq & [= <- <-])%bind_Ok. split; [by eapply lex_quoted_suffix|done]. Qed.

(** A token takes its first character and perhaps more, and is not the end. *)
Lemma lex_token_spec pos c l kind rest : lex_token pos c l = Ok (kind, rest) -> rest `suffix_of` l /\ kind <> TkEof.
Proof.
  unfold lex_token. destruct ((c =? c#".") && peek_matches is_ascii_digit l) eqn:Edot.
  { apply andb_prop in Edot as [->%Z.eqb_eq Hl]. apply lex_number_spec. by right. }
  destruct (lex_punctuation c l) as [[k r]|] eqn:Ep; [intros [= <- <-]; by eapply lex_punctuation_spec|].
  destruct (c =? c#"'").
  { intros ([v r] & Hq & [= <- <-])%bind_Ok. split; [by eapply lex_quoted_suffix|done]. }
  destruct (c =? 34); [apply lex_quoted_identifier_spec|]. destruct (c =? c#"`"); [apply lex_quoted_identifier_spec|].
  destruct (c =? c#"["); [apply lex_quoted_identifier_spec|].
  destruct (is_ascii_digit c) eqn:Ed; [apply lex_number_spec; by left|].
  destruct (((c =? c#"x") || (c =? c#"X")) && peek_is c#"'" l).
  { unfold lex_blob_literal. intros ([v r] & Hq & Hb)%bind_Ok. destruct (negb _); [done|].
    apply bind_Ok in Hb as (b & _ & [= <- <-]). apply lex_quoted_suffix in Hq. split; [|done]. etrans; [exact Hq|apply tail_suffix]. }
  destruct (is_identifier_start c) eqn:Ei; [|done]. intros [= Hw]. pose proof (lex_word_spec c l Ei) as H. by rewrite Hw in H.
Qed.

(** ** No panics *)

Lemma ascii_bytes l : Forall (fun c => is_ascii c = true) l -> flat_map encode_utf8 l = l.
Proof.
  induction 1 as [|c l Hc Hl IH]; [done|]. cbn [flat_map]. rewrite IH. unfold encode_utf8, is_ascii in *.
  destruct (Z.ltb_spec c 128); [done|lia].
Qed.

Lemma ascii_not_cont l : Forall (fun c => is_ascii c = true) l -> peek_matches is_cont l = false.
Proof. intros [|c l' Hc _]; [done|]. cbn. unfold is_ascii, is_cont in *. lia. Qed.

Lemma blob_bytes_calm hex ascii : (ascii = true -> Forall (fun c => is_ascii c = true) hex) -> calm ascii (blob_bytes hex).
Proof.
  remember (length hex) as n eqn:Hn. revert hex Hn. induction n as [n IH] using lt_wf_ind. intros [|a [|b hex]] Hn Ha; cbn [blob_bytes]; try done.
  cbn in Hn. assert (Hh : ascii = true -> Forall (fun c => is_ascii c = true) hex).
  { intros E. specialize (Ha E). by do 2 apply Forall_cons in Ha as [_ Ha]. }
  destruct (peek_matches is_cont hex) eqn:Ep.
  - cbn. destruct ascii; [|done]. rewrite ascii_not_cont in Ep by auto. done.
  - destruct (from_str_radix_unsigned _ _ _); [done|]. apply calm_bind; [|done]. apply (IH (length hex)); [lia|done|done].
Qed.

Lemma parse_real_calm ascii what text : calm ascii (parse_real what text).
Proof. unfold parse_real. by destruct (parse_f64 _). Qed.

Lemma lex_number_calm ascii l : calm ascii (lex_number l).
Proof.
  assert (Hd : forall l, calm ascii (lex_decimal l)).
  { intros l'. unfold lex_decimal. destruct (span _ l') as [int r]. destruct (default ([], r) _) as [frac r1].
    destruct (default ([], r1) _) as [exponent r2].
    assert (Hreal : forall what text, calm ascii (let? kind := parse_real what text in Ok (kind, r2))).
    { intros what text. apply calm_bind; [apply parse_real_calm|done]. }
    destruct (lex_fraction int r), (lex_exponent r1); try apply Hreal. destruct (parse_i64 _); [apply Hreal|done]. }
  unfold lex_number. destruct l as [|z [|x l]]; try apply Hd. destruct (_ && _); [|apply Hd].
  unfold lex_hex. destruct (span _ l) as [text r]. case_bool_decide; [done|]. by destruct (from_str_radix_unsigned _ _ _).
Qed.

Lemma lex_token_calm ascii pos c l : (ascii = true -> Forall (fun c => is_ascii c = true) l) -> calm ascii (lex_token pos c l).
Proof.
  intros Ha. unfold lex_token.
  assert (Hi : forall o cl l, calm ascii (lex_quoted_identifier o cl l)).
  { intros o cl l'. unfold lex_quoted_identifier. apply calm_bind; [apply lex_quoted_spec|by intros []]. }
  destruct (_ && _); [apply lex_number_calm|]. destruct (lex_punctuation c l) as [[]|]; [done|].
  destruct (c =? c#"'"); [apply calm_bind; [apply lex_quoted_spec|by intros []]|].
  destruct (c =? 34); [apply Hi|]. destruct (c =? c#"`"); [apply Hi|]. destruct (c =? c#"["); [apply Hi|].
  destruct (is_ascii_digit c); [apply lex_number_calm|]. destruct (((c =? c#"x") || (c =? c#"X")) && peek_is c#"'" l).
  - unfold lex_blob_literal. apply calm_bind; [apply lex_quoted_spec|]. intros [value rest] Hq. destruct (negb _); [done|].
    apply calm_bind; [|done]. apply blob_bytes_calm. intros E.
    destruct (proj2 (lex_quoted_spec _ _ _ true _) _ _ Hq) as [_ Hv]. specialize (Hv (fun c => is_ascii c = true)).
    assert (Ht : Forall (fun c => is_ascii c = true) (tail l)) by (specialize (Ha E); by destruct Ha).
    rewrite ascii_bytes; auto.
  - by destruct (is_identifier_start c).
Qed.

Lemma skip_block_calm ascii l : calm ascii (skip_block_comment l).
Proof. induction l as [|c l IH]; [done|]. cbn. by destruct (_ && _). Qed.

(** ** The tokens of a text *)

Lemma suffix_Forall {A} (P : A -> Prop) l l' : l' `suffix_of` l -> Forall P l -> Forall P l'.
Proof. intros [k ->]. rewrite Forall_app. tauto. Qed.

(** One round of [lex_loop]: the end, a blank or a comment, an error, or a token. *)
Lemma lex_loop_round total c l :
  (exists rest, rest `suffix_of` l /\ forall fuel, lex_loop (S fuel) total (c :: l) = lex_loop fuel total rest) \/
  (exists error, forall fuel, lex_loop (S fuel) total (c :: l) = Err error) \/
  forall fuel, lex_loop (S fuel) total (c :: l) =
    let? (kind, rest) := lex_token (total - byte_len (c :: l)) c l in
    let? tokens := lex_loop fuel total rest in Ok (mkToken kind (total - byte_len (c :: l)) :: tokens).
Proof.
  cbn [lex_loop]. destruct (is_whitespace c); [left; by exists l|]. destruct ((c =? c#"-") && peek_is c#"-" l).
  { left. exists (skip_line_comment (tail l)). split; [|done]. etrans; [apply skip_line_suffix|apply tail_suffix]. }
  destruct ((c =? c#"/") && peek_is c#"*" l); [|by right; right].
  pose proof (skip_block_calm true (tail l)) as Hc. destruct (skip_block_comment (tail l)) as [rest| e | |] eqn:Eb; try done.
  - left. exists rest. split; [|done]. etrans; [by apply skip_block_suffix|apply tail_suffix].
  - right. left. by exists e.
Qed.

(** Fuel beyond the length of the text changes nothing. *)
Lemma lex_loop_fuel fuel : forall fuel' total l, (length l < fuel)%nat -> (length l < fuel')%nat ->
  lex_loop fuel' total l = lex_loop fuel total l.
Proof.
  induction fuel as [|fuel IH]; intros [|fuel'] total l Hl Hl'; try lia. destruct l as [|c l]; [done|]. cbn [length] in *.
  destruct (lex_loop_round total c l) as [(rest & Hs%suffix_length & Hr)|[[e He]|Ht]].
  - rewrite !Hr. apply IH; lia.
  - by rewrite !He.
  - rewrite !Ht. destruct (lex_token _ c l) as [[kind rest]| | |] eqn:Et; cbn [bind]; try done.
    apply lex_token_spec in Et as [Hs%suffix_length _]. rewrite (IH fuel'); [done|lia..].
Qed.

(** The tokens of a text: each starts where [l], the text after the characters before it,
    starts, and the next one further on; the end comes last. *)
Inductive tokens_of (total : Z) : list char -> list Token -> Prop :=
  | tokens_end l : tokens_of total l [mkToken TkEof total]
  | tokens_token l l' rest kind tokens :
      l' `suffix_of` l -> rest `suffix_of` tail l' -> l' <> [] -> kind <> TkEof -> tokens_of total rest tokens ->
      tokens_of total l (mkToken kind (total - byte_len l') :: tokens).

Lemma lex_loop_tokens ascii fuel : forall total l, (length l < fuel)%nat ->
  (ascii = true -> Forall (fun c => is_ascii c = true) l) ->
  calm ascii (lex_loop fuel total l) /\ forall tokens, lex_loop fuel total l = Ok tokens -> tokens_of total l tokens.
Proof.
  induction fuel as [|fuel IH]; intros total l Hl Ha; [lia|]. destruct l as [|c l].
  { split; [done|]. intros tokens [= <-]. constructor. }
  cbn [length] in Hl. assert (Ha' : ascii = true -> Forall (fun c => is_ascii c = true) l).
  { intros E. specialize (Ha E). by apply Forall_cons in Ha as [_ Ha]. }
  assert (Hrest : forall rest, rest `suffix_of` l -> calm ascii (lex_loop fuel total rest) /\
    forall tokens, lex_loop fuel total rest = Ok tokens -> tokens_of total rest tokens).
  { intros rest Hs. pose proof (suffix_length _ _ Hs). apply IH; [lia|]. intros E. eapply suffix_Forall; [exact Hs|auto]. }
  destruct (lex_loop_round total c l) as [(rest & Hs & Hr)|[[e He]|Ht]].
  - rewrite Hr. destruct (Hrest rest Hs) as [H1 H2]. split; [done|]. intros tokens Htok. specialize (H2 _ Htok).
    destruct H2 as [|rest l' rest' kind tokens' H3 H4 H5 H6 H7]; [constructor|]. econstructor; [|done..].
    etrans; [exact H3|]. by apply suffix_cons_r.
  - by rewrite He.
  - rewrite Ht. set (pos := total - byte_len (c :: l)). split.
    + apply calm_bind; [by apply lex_token_calm|]. intros [kind rest] [Hs _]%lex_token_spec. apply calm_bind; [by apply Hrest|done].
    + intros tokens ([kind rest] & Hk & (toks & Htok & [= <-])%bind_Ok)%bind_Ok. apply lex_token_spec in Hk as [Hs Hk].
      apply (tokens_token _ _ (c :: l) rest); [done|done|done|done|]. by apply Hrest.
Qed.

Lemma suffix_byte_len l l' : l' `suffix_of` l -> byte_len l' <= byte_len l.
Proof. intros [k ->]. rewrite byte_len_app. pose proof (byte_len_nonneg k). lia. Qed.

Lemma tokens_of_positions total l tokens : tokens_of total l tokens ->
  (exists body, tokens = body ++ [mkToken TkEof total] /\ Forall (fun tok => kind tok <> TkEof) body) /\
  StronglySorted (fun a b => position a < position b) tokens /\
  Forall (fun tok => position tok = total \/ exists l', l' `suffix_of` l /\ l' <> [] /\ position tok = total - byte_len l') tokens.
Proof.
  induction 1 as [l|l l' rest k tokens H1 H2 H3 H4 H5 ((body & -> & Hb) & Hs & Hp)].
  - split_and!; [by exists []|by repeat constructor|by repeat constructor; left].
  - assert (Hr : rest `suffix_of` l) by (etrans; [exact H2|]; etrans; [apply tail_suffix|done]). split_and!.
    + exists (mkToken k (total - byte_len l') :: body). split; [done|]. by constructor.
    + constructor; [done|]. eapply Forall_impl; [exact Hp|]. intros tok [->|(l2 & Hl2 & _ & ->)]; cbn [position].
      all: destruct l' as [|c l']; [done|]; rewrite byte_len_cons; pose proof (len_utf8_pos c); pose proof (byte_len_nonneg l').
      * lia.
      * cbn in H2. pose proof (suffix_byte_len _ _ Hl2). pose proof (suffix_byte_len _ _ H2). lia.
    + constructor; [right; by exists l'|]. eapply Forall_impl; [exact Hp|]. intros tok [?|(l2 & Hl2 & ? & ?)]; [by left|right].
      exists l2. split; [by etrans|done].
Qed.

(** ** The lexical grammar *)

(** Blanks: white space and comments. *)
Inductive Blank : list char -> Prop :=
  | blank_nil : Blank []
  | blank_space c b : is_whitespace c = true -> Blank b -> Blank (c :: b)
  | blank_line body b : 10 ∉ body -> Blank b -> Blank (c#"-" :: c#"-" :: body ++ 10 :: b)
  | blank_block body b : find_sub [c#"*"; c#"/"] body = None -> Blank b ->
      Blank (c#"/" :: c#"*" :: body ++ c#"*" :: c#"/" :: b).

(** The inside of quotes: the closing character is doubled. *)
Definition double (closer : char) (value : list char) : list char :=
  flat_map (fun c => if c =? closer then [c; c] else [c]) value.

(** Digits and underscores, the first character a digit, and what they denote. *)
Definition numeral (f : char -> bool) (text : list char) : Prop :=
  peek_matches f text = true /\ Forall (fun c => f c = true \/ c = underscore) text.
Definition digits_denote (radix : Z) (text : list char) : Z :=
  fold_left (fun acc c => acc * radix + default 0 (to_digit radix c)) (without_underscores text) 0.

Definition symbols : list (string * TokenKind) := [
  ("(", TkLParen); (")", TkRParen); (",", TkComma); (".", TkDot); ("*", TkStar); ("+", TkPlus); ("%", TkPercent);
  ("&", TkAmpersand); ("~", TkTilde); (";", TkSemicolon); ("=", TkEq); ("==", TkEq); ("!=", TkNe); ("<>", TkNe);
  (">=", TkGte); (">>", TkShiftRight); (">", TkGt); ("<=", TkLte); ("<<", TkShiftLeft); ("<", TkLt); ("->>", TkArrowText);
  ("->", TkArrow); ("-", TkMinus); ("/", TkSlash); ("||", TkPipePipe); ("|", TkPipe)
]%string.

(** A text of a token of each kind. *)
Inductive spelled : TokenKind -> list char -> Prop :=
  | sp_symbol text kind : (text, kind) ∈ symbols -> spelled kind (chars text)
  | sp_keyword word kind text : (word, kind) ∈ keywords -> map ascii_upper text = chars word -> spelled kind text
  | sp_identifier c text :
      is_identifier_start c = true -> Forall (fun c => is_identifier_continue c = true) text ->
      (forall wk, wk ∈ keywords -> map ascii_upper (c :: text) <> chars wk.1) ->
      spelled (TkIdentifier (of_chars (c :: text))) (c :: text)
  | sp_quoted name : spelled (TkIdentifier (of_chars name)) (34 :: double 34 name ++ [34])
  | sp_backtick name : c#"`" ∉ name -> spelled (TkIdentifier (of_chars name)) (c#"`" :: name ++ [c#"`"])
  | sp_bracket name : c#"]" ∉ name -> spelled (TkIdentifier (of_chars name)) (c#"[" :: name ++ [c#"]"])
  | sp_string value : spelled (TkString (of_chars value)) (c#"'" :: double c#"'" value ++ [c#"'"])
  | sp_integer text : numeral is_ascii_digit text -> digits_denote 10 text <= i64_max -> spelled (TkInteger (digits_denote 10 text)) text
  | sp_hex x text : x = c#"x" \/ x = c#"X" -> peek_matches (fun _ => true) text = true ->
      Forall (fun c => is_hex_digit c = true) text -> digits_denote 16 text <= u64_max ->
      spelled (TkInteger (as_i64 (digits_denote 16 text))) (c#"0" :: x :: text)
  | sp_blob x text b : x = c#"x" \/ x = c#"X" -> Forall2 (fun byte pair => exists h l, pair = [h; l] /\
        is_hex_digit h = true /\ is_hex_digit l = true /\ byte = digits_denote 16 pair) b text ->
      spelled (TkBlobLiteral b) (x :: c#"'" :: concat text ++ [c#"'"]).

(** A text of tokens with blanks around; a blank that follows a token starts with white
    space. *)
Definition separated (l : list char) : Prop := l = [] \/ peek_matches is_whitespace l = true.
Inductive written : list TokenKind -> list char -> Prop :=
  | written_end b : Blank b -> written [] b
  | written_token b kind text kinds rest :
      Blank b -> spelled kind text -> separated rest -> written kinds rest -> written (kind :: kinds) (b ++ text ++ rest).

(** ** Each token from its text *)

(** The tests on single characters, as facts about their codes. *)
Ltac char_cases := unfold is_identifier_start, is_identifier_continue, is_hex_digit, is_digit_or_underscore, is_ascii_alphanumeric,
  is_ascii_alphabetic, is_ascii_uppercase, is_ascii_lowercase, is_ascii_digit, is_whitespace, underscore in *.

Lemma separated_stops (f : char -> bool) rest : separated rest -> (forall c, is_whitespace c = true -> f c = false) -> peek_matches f rest = false.
Proof. intros [->|Hr] Hf; [done|]. destruct rest as [|c rest]; [done|]. by apply Hf. Qed.

Lemma separated_not c rest : separated rest -> is_whitespace c = false -> peek_is c rest = false.
Proof.
  intros [->|Hr] Hc; [done|]. destruct rest as [|w rest]; [done|]. cbn in *. destruct (Z.eqb_spec w c) as [->|]; [congruence|done].
Qed.

(** A text that starts with [c] is neither blank nor a comment, and lexes to [kind]. *)
Definition token_here (kind : TokenKind) (c : char) (l rest : list char) : Prop :=
  is_whitespace c = false /\ (c =? c#"-") && peek_is c#"-" l = false /\ (c =? c#"/") && peek_is c#"*" l = false /\
  forall pos, lex_token pos c l = Ok (kind, rest).

Lemma symbol_here text kind rest : (text, kind) ∈ symbols -> separated rest ->
  exists c l, chars text ++ rest = c :: l /\ token_here kind c l rest.
Proof.
  intros Hin Hr. unfold symbols in Hin.
  assert (Hne : forall c, is_whitespace c = false -> peek_is c rest = false) by (intros; by apply separated_not).
  assert (Hd : peek_matches is_ascii_digit rest = false) by (apply separated_stops; [done|]; intros c; char_cases; lia).
  repeat (apply elem_of_cons in Hin as [[= -> ->]|Hin];
    [do 2 eexists; (split; [reflexivity|]); unfold token_here, lex_token, lex_punctuation; cbn; rewrite ?Hd, ?Hne by done; by split_and!|]).
  by apply not_elem_of_nil in Hin.
Qed.

Lemma word_token pos c l : is_identifier_start c = true -> peek_is c#"'" l = false -> lex_token pos c l = Ok (lex_word (c :: l)).
Proof.
  intros Hc Hl. unfold lex_token, lex_punctuation.
  assert (Hcode : 65 <= c <= 90 \/ 97 <= c <= 122 \/ c = 95) by (char_cases; lia).
  rewrite Hc, Hl, andb_false_r.
  repeat match goal with |- context [?a =? ?b] => destruct (Z.eqb_spec a b); [lia|] end. cbn [andb].
  destruct (is_ascii_digit c) eqn:Ed; [char_cases; lia|done].
Qed.

Lemma word_here kind c text rest :
  is_identifier_start c = true -> Forall (fun c => is_identifier_continue c = true) text -> separated rest ->
  word_kind (c :: text) = kind -> token_here kind c (text ++ rest) rest.
Proof.
  intros Hc Ht Hr Hk.
  assert (Hq : peek_is c#"'" (text ++ rest) = false).
  { destruct Ht as [|d text Hd Ht]; [by apply separated_not|]. cbn. char_cases. lia. }
  assert (Hcode : 65 <= c <= 90 \/ 97 <= c <= 122 \/ c = 95) by (char_cases; lia).
  split; [char_cases; lia|]. split; [destruct (Z.eqb_spec c c#"-"); [lia|done]|]. split; [destruct (Z.eqb_spec c c#"/"); [lia|done]|].
  intros pos. rewrite word_token by done. unfold lex_word. change (c :: text ++ rest) with ((c :: text) ++ rest).
  rewrite span_app; [by rewrite Hk|constructor; [char_cases; lia|done]|].
  apply separated_stops; [done|]. intros d. char_cases. lia.
Qed.

Lemma upper_letter c : is_ascii_uppercase (ascii_upper c) = true -> is_ascii_alphabetic c = true.
Proof. unfold ascii_upper. char_cases. destruct ((97 <=? c) && (c <=? 122)) eqn:E; lia. Qed.

Lemma keywords_upper : forallb (fun wk : string * TokenKind => forallb is_ascii_uppercase (chars wk.1) && negb (bool_decide (chars wk.1 = []))
  && String.eqb (of_chars (chars wk.1)) wk.1) keywords = true.
Proof. vm_compute. reflexivity. Qed.

Lemma keywords_NoDup : NoDup (map fst keywords).
Proof. apply (bool_decide_unpack _). vm_compute. exact I. Qed.

Lemma assoc_string_found {A} key (a : A) l : NoDup (map fst l) -> (key, a) ∈ l -> assoc_string key l = Some a.
Proof.
  induction l as [|[k x] l IH]; [by intros _ ?%not_elem_of_nil|]. intros [Hn Hnd]%NoDup_cons Hin. cbn.
  apply elem_of_cons in Hin as [[= -> ->]|Hin]; [by rewrite String.eqb_refl|].
  destruct (String.eqb_spec k key) as [->|]; [|by apply IH]. exfalso. apply Hn. exact (list_elem_of_fmap_2 fst l _ Hin).
Qed.

Lemma keyword_here word kind text rest :
  (word, kind) ∈ keywords -> map ascii_upper text = chars word -> separated rest ->
  exists c l, text ++ rest = c :: l /\ token_here kind c l rest.
Proof.
  intros Hin Hup Hr. pose proof keywords_upper as Hk. rewrite forallb_forall in Hk.
  specialize (Hk _ (proj1 (list_elem_of_In _ _) Hin)). cbn [fst] in Hk.
  apply andb_prop in Hk as [Hk Heq%String.eqb_eq]. apply andb_prop in Hk as [Hall Hne%negb_true_iff%bool_decide_eq_false].
  rewrite <- Hup in Hall, Hne. rewrite forallb_forall in Hall.
  assert (Hletters : Forall (fun c => is_ascii_alphabetic c = true) text).
  { apply Forall_forall. intros c Hc. apply upper_letter, Hall, in_map, list_elem_of_In, Hc. }
  destruct Hletters as [|c text Hc Ht]; [done|]. exists c, (text ++ rest). split; [done|]. apply word_here; [| |done|].
  - unfold is_identifier_start. by rewrite Hc.
  - eapply Forall_impl; [exact Ht|]. intros d Hd. unfold is_identifier_continue, is_ascii_alphanumeric. by rewrite Hd.
  - unfold word_kind. rewrite Hup, Heq. by rewrite (assoc_string_found _ _ _ keywords_NoDup Hin).
Qed.

Lemma identifier_here c text rest :
  is_identifier_start c = true -> Forall (fun c => is_identifier_continue c = true) text ->
  (forall wk, wk ∈ keywords -> map ascii_upper (c :: text) <> chars wk.1) -> Forall is_char (c :: text) -> separated rest ->
  token_here (TkIdentifier (of_chars (c :: text))) c (text ++ rest) rest.
Proof.
  intros Hc Ht Hno Hchars Hr. apply word_here; [done..|]. unfold word_kind.
  destruct (assoc_string _ _) as [kind|] eqn:E; [|done]. exfalso. apply assoc_string_elem in E. apply (Hno _ E). cbn [fst].
  rewrite chars_of_chars; [done|]. apply Forall_map. eapply Forall_impl; [exact Hchars|]. intros d Hd. unfold ascii_upper, is_char in *.
  char_cases. destruct ((97 <=? d) && (d <=? 122)) eqn:Ed; lia.
Qed.

(** *** Quotes *)

Lemma quoted_double closer error value rest :
  peek_is closer rest = false -> lex_quoted closer true error (double closer value ++ closer :: rest) = Ok (value, rest).
Proof.
  intros Hr. unfold double. induction value as [|c value IH]; cbn [flat_map app].
  - cbn [lex_quoted]. rewrite Z.eqb_refl. destruct rest as [|d rest]; [done|]. cbn in Hr. by rewrite Hr.
  - destruct (c =? closer) eqn:E; cbn [app lex_quoted]; rewrite E; cbn [andb]; rewrite IH; [|done].
    apply Z.eqb_eq in E. by subst c.
Qed.

Lemma double_plain closer value : closer ∉ value -> double closer value = value.
Proof.
  induction value as [|c value IH]; [done|]. intros [Hc Hv]%not_elem_of_cons. unfold double in *. cbn [flat_map].
  rewrite IH by done.
  destruct (Z.eqb_spec c closer); [congruence|done].
Qed.

Lemma quoted_plain closer error value rest :
  closer ∉ value -> lex_quoted closer false error (value ++ closer :: rest) = Ok (value, rest).
Proof.
  induction value as [|c value IH]; cbn [app lex_quoted].
  - intros _. rewrite Z.eqb_refl. by destruct rest.
  - intros [Hc Hv]%not_elem_of_cons. destruct (Z.eqb_spec c closer); [congruence|]. by rewrite IH.
Qed.

(** *** Numerals *)

Lemma parse_i64_digits c l : is_ascii_digit c = true -> parse_i64 (c :: l) = parse_digits 10 (step_up 10 i64_max) 0 (c :: l).
Proof. intros Hc. char_cases. unfold parse_i64. repeat (case_match; try lia; try done). Qed.

Lemma radix_digits max c l : is_hex_digit c = true -> from_str_radix_unsigned max 16 (c :: l) = parse_digits 16 (step_up 16 max) 0 (c :: l).
Proof. intros Hc. char_cases. unfold from_str_radix_unsigned. repeat (case_match; try lia; try done). Qed.

(** The value of a list of digits, from [acc] on. *)
Definition digits_from (radix acc : Z) (l : list char) : Z :=
  fold_left (fun acc c => acc * radix + default 0 (to_digit radix c)) l acc.
Definition has_digit (radix : Z) (c : char) : Prop := exists d, to_digit radix c = Some d /\ 0 <= d.

Lemma digits_from_cons radix acc c d l :
  to_digit radix c = Some d -> digits_from radix acc (c :: l) = digits_from radix (acc * radix + d) l.
Proof. unfold digits_from. cbn [fold_left]. by intros ->. Qed.

Lemma digits_from_grows radix l : 0 < radix -> Forall (has_digit radix) l -> forall acc, 0 <= acc -> acc <= digits_from radix acc l.
Proof.
  intros Hr. induction 1 as [|c l (d & Hd & Hd0) Hl IH]; intros acc Ha; [done|]. rewrite (digits_from_cons _ _ _ d) by done.
  etrans; [|apply IH; nia]. nia.
Qed.

Lemma parse_digits_run radix max l : 0 < radix -> Forall (has_digit radix) l -> forall acc, 0 <= acc -> digits_from radix acc l <= max ->
  parse_digits radix (step_up radix max) acc l = inr (digits_from radix acc l).
Proof.
  intros Hr. induction 1 as [|c l (d & Hd & Hd0) Hl IH]; intros acc Ha Hmax; cbn [parse_digits]; [done|]. rewrite Hd.
  rewrite (digits_from_cons _ _ _ d) in Hmax |- * by done. assert (Hacc : 0 <= acc * radix + d) by nia.
  pose proof (digits_from_grows radix l Hr Hl _ Hacc) as Hg. unfold step_up at 1.
  destruct (Z.leb_spec (acc * radix + d) max); [by apply IH|lia].
Qed.

Lemma digit_ten c : is_ascii_digit c = true -> has_digit 10 c.
Proof.
  intros Hc. exists (c - 48). unfold to_digit. rewrite Hc. char_cases. destruct (Z.ltb_spec (c - 48) 10); [split; [done|lia]|lia].
Qed.

Lemma hex_digit_value c : is_hex_digit c = true -> exists d, to_digit 16 c = Some d /\ 0 <= d <= 15.
Proof.
  intros Hc. unfold to_digit. char_cases.
  destruct ((48 <=? c) && (c <=? 57)) eqn:E1; [|destruct ((97 <=? c) && (c <=? 122)) eqn:E2; [|destruct ((65 <=? c) && (c <=? 90)) eqn:E3; [|lia]]].
  all: match goal with |- context [?a <? 16] => exists a; destruct (Z.ltb_spec a 16); [split; [done|lia]|lia] end.
Qed.

Lemma digit_sixteen c : is_hex_digit c = true -> has_digit 16 c.
Proof. intros (d & Hd & Hr)%hex_digit_value. exists d. split; [done|lia]. Qed.

Lemma without_underscores_digits (f : char -> bool) text : f underscore = false ->
  Forall (fun c => f c = true \/ c = underscore) text -> Forall (fun c => f c = true) (without_underscores text).
Proof.
  intros Hf. induction 1 as [|c text [Hc| ->] Ht IH]; [constructor| |]; cbn.
  - destruct (c =? underscore); cbn; [done|by constructor].
  - exact IH.
Qed.

Lemma without_underscores_none (f : char -> bool) text : f underscore = false -> Forall (fun c => f c = true) text -> without_underscores text = text.
Proof.
  intros Hf. induction 1 as [|c text Hc Ht IH]; [done|]. cbn. destruct (Z.eqb_spec c underscore) as [->|]; [congruence|]. cbn. by f_equal.
Qed.

Lemma separated_number rest : separated rest ->
  peek_matches is_digit_or_underscore rest = false /\ (forall int, lex_fraction int rest = None) /\ lex_exponent rest = None.
Proof.
  intros Hr. split; [apply separated_stops; [done|]; intros c; char_cases; lia|]. destruct Hr as [->|Hr]; [done|].
  destruct rest as [|w rest]; [done|]. cbn in Hr. unfold lex_fraction, lex_exponent.
  destruct (Z.eqb_spec w c#"."), (Z.eqb_spec w c#"e"), (Z.eqb_spec w c#"E"); subst; done.
Qed.

(** A digit starts a number. *)
Lemma digit_here kind c l rest : is_ascii_digit c = true -> lex_number (c :: l) = Ok (kind, rest) -> token_here kind c l rest.
Proof.
  intros Hc Hn. split; [char_cases; lia|].
  split; [destruct (Z.eqb_spec c c#"-"); [subst; done|done]|]. split; [destruct (Z.eqb_spec c c#"/"); [subst; done|done]|].
  intros pos. unfold lex_token, lex_punctuation. assert (Hcode : 48 <= c <= 57) by (char_cases; lia). rewrite Hc.
  repeat match goal with |- context [?a =? ?b] => destruct (Z.eqb_spec a b); [lia|] end. exact Hn.
Qed.

Lemma integer_here c text rest :
  numeral is_ascii_digit (c :: text) -> digits_denote 10 (c :: text) <= i64_max -> separated rest ->
  token_here (TkInteger (digits_denote 10 (c :: text))) c (text ++ rest) rest.
Proof.
  intros [Hc Hall] Hmax Hr. cbn in Hc. apply digit_here; [done|]. destruct (separated_number _ Hr) as (Hd & Hf & He).
  assert (Hspan : span is_digit_or_underscore (c :: text ++ rest) = (c :: text, rest)).
  { change (c :: text ++ rest) with ((c :: text) ++ rest). apply span_app; [|done]. eapply Forall_impl; [exact Hall|].
    intros d [Hd'| ->]; [unfold is_digit_or_underscore; by rewrite Hd'|done]. }
  assert (Hdec : lex_number (c :: text ++ rest) = lex_decimal (c :: text ++ rest)).
  { unfold lex_number. destruct (text ++ rest) as [|x l] eqn:El; [done|]. destruct (_ && _) eqn:Ex; [|done]. exfalso.
    apply andb_prop in Ex as [_ Ex]. apply Forall_cons in Hall as [_ Hall]. destruct Hall as [|d text Hd' _].
    - cbn in El. subst rest. destruct Hr as [?|Hr]; [done|]. cbn in Hr. char_cases. lia.
    - cbn in El. injection El as <- _. destruct Hd' as [Hd'| ->]; [char_cases; lia|done]. }
  rewrite Hdec. unfold lex_decimal. rewrite Hspan, Hf. cbn [default]. rewrite He. cbn [default]. rewrite !app_nil_r.
  assert (Hw : without_underscores (c :: text) = c :: without_underscores text).
  { cbn. destruct (Z.eqb_spec c underscore) as [->|]; [done|]. done. }
  pose proof (without_underscores_digits is_ascii_digit _ eq_refl Hall) as Hdig. rewrite Hw in Hdig |- *.
  rewrite parse_i64_digits by done.
  assert (Hval : digits_from 10 0 (c :: without_underscores text) = digits_denote 10 (c :: text)) by (unfold digits_denote; by rewrite Hw).
  rewrite parse_digits_run; [by rewrite Hval|lia| |lia|by rewrite Hval].
  eapply Forall_impl; [exact Hdig|]. apply digit_ten.
Qed.

Lemma hex_run max text : peek_matches (fun _ => true) text = true -> Forall (fun c => is_hex_digit c = true) text ->
  digits_denote 16 text <= max -> from_str_radix_unsigned max 16 text = inr (digits_denote 16 text).
Proof.
  intros Hne Hall Hmax. pose proof (without_underscores_none is_hex_digit text eq_refl Hall) as Hw. unfold digits_denote in *. rewrite Hw in *.
  destruct Hall as [|c text Hc Ht]; [done|]. rewrite radix_digits by done. apply (parse_digits_run 16 max (c :: text)); [lia| |lia|done].
  constructor; [by apply digit_sixteen|]. eapply Forall_impl; [exact Ht|]. apply digit_sixteen.
Qed.

Lemma hex_here x text rest :
  x = c#"x" \/ x = c#"X" -> peek_matches (fun _ => true) text = true -> Forall (fun c => is_hex_digit c = true) text ->
  digits_denote 16 text <= u64_max -> separated rest ->
  token_here (TkInteger (as_i64 (digits_denote 16 text))) c#"0" (x :: text ++ rest) rest.
Proof.
  intros Hx Hne Hall Hmax Hr. apply digit_here; [done|].
  assert (Hhex : lex_hex (text ++ rest) = Ok (TkInteger (as_i64 (digits_denote 16 text)), rest)).
  { unfold lex_hex. rewrite span_app; [| |apply separated_stops; [done|]; intros c; char_cases; lia].
    - rewrite bool_decide_false by (by intros ->). rewrite (without_underscores_none is_hex_digit) by done. by rewrite hex_run.
    - eapply Forall_impl; [exact Hall|]. intros c Hc. by rewrite Hc. }
  unfold lex_number. destruct Hx as [-> | ->]; exact Hhex.
Qed.

(** *** Blobs *)

Lemma ascii_decode l : Forall (fun c => is_ascii c = true /\ 0 <= c) l -> decode_utf8 l = l.
Proof.
  intros Hl. rewrite <- (ascii_bytes l) at 1 by (eapply Forall_impl; [exact Hl|]; by intros c [Hc _]).
  apply decode_flat_map. eapply Forall_impl; [exact Hl|]. unfold is_ascii, is_char. intros c. lia.
Qed.

Lemma hex_ascii c : is_hex_digit c = true -> is_ascii c = true /\ 0 <= c /\ is_char c /\ c <> c#"'".
Proof. unfold is_ascii, is_char. char_cases. lia. Qed.

Lemma blob_bytes_run b text : Forall2 (fun byte pair => exists h l, pair = [h; l] /\
    is_hex_digit h = true /\ is_hex_digit l = true /\ byte = digits_denote 16 pair) b text ->
  Forall (fun c => is_hex_digit c = true) (concat text) /\ Zlen (concat text) mod 2 = 0 /\ blob_bytes (concat text) = Ok b.
Proof.
  induction 1 as [|byte pair b text (h & l & -> & Hh & Hl & ->) Hrest (IH1 & IH2 & IH3)]; [done|]. cbn [concat app]. split_and!.
  - by repeat constructor.
  - unfold Zlen in *. cbn [length]. rewrite !Nat2Z.inj_succ. rewrite <- !Z.add_1_r, <- Z.add_assoc. rewrite Z.add_mod, IH2 by lia. done.
  - cbn [blob_bytes]. rewrite ascii_not_cont.
    2:{ eapply Forall_impl; [exact IH1|]. intros c Hc. by apply hex_ascii. }
    destruct (hex_ascii _ Hh) as (Ha & H0 & Hc & _), (hex_ascii _ Hl) as (Ha' & H0' & Hc' & _).
    assert (Hpair : chars (from_utf8_lossy [h; l]) = [h; l]).
    { unfold from_utf8_lossy. rewrite ascii_decode by (by repeat constructor). apply chars_of_chars. by apply Forall_cons; split; [|apply Forall_singleton]. }
    rewrite Hpair, hex_run; [by rewrite IH3|done|by repeat constructor|].
    unfold digits_denote. rewrite (without_underscores_none is_hex_digit) by (by repeat constructor). cbn.
    destruct (hex_digit_value h Hh) as (dh & -> & Hdh), (hex_digit_value l Hl) as (dl & -> & Hdl). unfold u8_max. cbn. unfold id. lia.
Qed.

Lemma blob_here x text b rest :
  x = c#"x" \/ x = c#"X" -> Forall2 (fun byte pair => exists h l, pair = [h; l] /\
    is_hex_digit h = true /\ is_hex_digit l = true /\ byte = digits_denote 16 pair) b text -> separated rest ->
  token_here (TkBlobLiteral b) x (c#"'" :: concat text ++ c#"'" :: rest) rest.
Proof.
  intros Hx Hb Hr. destruct (blob_bytes_run _ _ Hb) as (Hall & Hlen & Hrun).
  assert (Hlex : lex_blob_literal (concat text ++ c#"'" :: rest) = Ok (TkBlobLiteral b, rest)).
  { unfold lex_blob_literal, lex_string. rewrite <- (double_plain c#"'" (concat text)) at 1.
    - rewrite quoted_double by (by apply separated_not). cbn [bind]. rewrite ascii_bytes by (eapply Forall_impl; [exact Hall|]; intros c Hc; by apply hex_ascii).
      rewrite Hlen. cbn. by rewrite Hrun.
    - intros Hin. rewrite Forall_forall in Hall. by apply (hex_ascii _ (Hall _ Hin)). }
  destruct Hx as [-> | ->]; (split_and!; [done..|]); intros pos; unfold lex_token; exact Hlex.
Qed.

(** *** All of them *)

Lemma quoted_here (closer : char) kind rest (c : char) inner :
  is_whitespace c = false -> c <> c#"-" -> c <> c#"/" ->
  (forall pos, lex_token pos c (inner ++ closer :: rest) = Ok (kind, rest)) -> token_here kind c (inner ++ closer :: rest) rest.
Proof.
  intros Hw H1 H2 Ht. split; [done|]. split; [by destruct (Z.eqb_spec c c#"-")|]. split; [by destruct (Z.eqb_spec c c#"/")|done].
Qed.

Lemma spelled_here kind text rest : spelled kind text -> Forall is_char text -> separated rest ->
  exists c l, text ++ rest = c :: l /\ token_here kind c l rest.
Proof.
  intros Hs Hchars Hr. destruct Hs as [text kind Hin|word kind text Hin Hup|c text Hc Ht Hno|name|name Hn|name Hn|value|text Hn Hmax|x text Hx Hne Hall Hmax|x text b Hx Hb].
  - by apply symbol_here.
  - by eapply keyword_here.
  - exists c, (text ++ rest). split; [done|]. by apply identifier_here.
  - exists 34, (double 34 name ++ 34 :: rest). cbn [app]. rewrite <- app_assoc. split; [done|]. apply (quoted_here 34); [done..|].
    intros pos. unfold lex_token, lex_punctuation. cbn -[lex_quoted double]. unfold lex_quoted_identifier. cbn -[lex_quoted double].
    by rewrite quoted_double by (by apply separated_not).
  - exists c#"`", (name ++ c#"`" :: rest). cbn [app]. rewrite <- app_assoc. split; [done|]. apply (quoted_here c#"`"); [done..|].
    intros pos. unfold lex_token, lex_punctuation. cbn -[lex_quoted]. unfold lex_quoted_identifier. cbn -[lex_quoted].
    by rewrite quoted_plain.
  - exists c#"[", (name ++ c#"]" :: rest). cbn [app]. rewrite <- app_assoc. split; [done|]. apply (quoted_here c#"]"); [done..|].
    intros pos. unfold lex_token, lex_punctuation. cbn -[lex_quoted]. unfold lex_quoted_identifier. cbn -[lex_quoted].
    by rewrite quoted_plain.
  - exists c#"'", (double c#"'" value ++ c#"'" :: rest). cbn [app]. rewrite <- app_assoc. split; [done|].
    apply (quoted_here c#"'"); [done..|].
    intros pos. unfold lex_token, lex_punctuation. cbn -[lex_quoted double lex_string]. unfold lex_string.
    by rewrite quoted_double by (by apply separated_not).
  - destruct text as [|c text]; [by destruct Hn|]. exists c, (text ++ rest). split; [done|]. by apply integer_here.
  - exists c#"0", (x :: text ++ rest). split; [done|]. by apply hex_here.
  - exists x, (c#"'" :: concat text ++ c#"'" :: rest). cbn [app]. rewrite <- app_assoc. split; [done|]. by apply blob_here.
Qed.

Definition lex_all (total : Z) (l : list char) : Result (list Token) := lex_loop (S (length l)) total l.

Lemma skip_line_run body rest : 10 ∉ body -> skip_line_comment (body ++ 10 :: rest) = rest.
Proof.
  induction body as [|c body IH]; [done|]. intros [Hc Hb]%not_elem_of_cons. cbn [app skip_line_comment].
  destruct (Z.eqb_spec c 10); [congruence|by apply IH].
Qed.

Lemma skip_block_run body rest : find_sub [c#"*"; c#"/"] body = None -> skip_block_comment (body ++ c#"*" :: c#"/" :: rest) = Ok rest.
Proof.
  induction body as [|c body IH]; [done|]. cbn [find_sub]. destruct (strip_prefix [c#"*"; c#"/"] (c :: body)) eqn:Ep; [done|].
  intros Hf%fmap_None. cbn [app skip_block_comment]. rewrite IH by done. destruct (_ && _) eqn:E; [|done]. exfalso.
  apply andb_prop in E as [->%Z.eqb_eq E]. cbn in Ep. destruct body as [|d body]; [done|]. apply Z.eqb_eq in E. subst d. done.
Qed.

Lemma lex_loop_line n total l : lex_loop (S n) total (c#"-" :: c#"-" :: l) = lex_loop n total (skip_line_comment l).
Proof. reflexivity. Qed.
Lemma lex_loop_block n total l :
  lex_loop (S n) total (c#"/" :: c#"*" :: l) = let? rest := skip_block_comment l in lex_loop n total rest.
Proof. reflexivity. Qed.

Lemma lex_all_blank b rest total : Blank b -> lex_all total (b ++ rest) = lex_all total rest.
Proof.
  induction 1 as [|c b Hc Hb IH|body b Hn Hb IH|body b Hn Hb IH]; [done| | |]; rewrite <- IH; unfold lex_all; cbn [app].
  - cbn [length lex_loop]. by rewrite Hc.
  - rewrite lex_loop_line, <- app_assoc. cbn [app]. rewrite skip_line_run by done.
    apply lex_loop_fuel; [lia|]. cbn [length]. rewrite !length_app. cbn [length]. rewrite length_app. lia.
  - rewrite lex_loop_block, <- app_assoc. cbn [app]. rewrite skip_block_run by done. cbn [bind].
    apply lex_loop_fuel; [lia|]. cbn [length]. rewrite !length_app. cbn [length]. rewrite length_app. lia.
Qed.

Lemma lex_all_token kind c l rest total : token_here kind c l rest ->
  lex_all total (c :: l) = let? tokens := lex_all total rest in Ok (mkToken kind (total - byte_len (c :: l)) :: tokens).
Proof.
  intros (Hw & Hline & Hblock & Htok). pose proof (lex_token_spec _ _ _ _ _ (Htok 0)) as [Hs%suffix_length _].
  unfold lex_all. rewrite <- (lex_loop_fuel (S (length rest)) (length (c :: l)) total rest) by (cbn [length]; lia).
  cbn [length]. set (n := S (length l)). cbn [lex_loop]. by rewrite Hw, Hline, Hblock, Htok.
Qed.

Lemma lex_all_written total kinds l : written kinds l -> Forall is_char l ->
  exists tokens, lex_all total l = Ok tokens /\ map kind tokens = kinds ++ [TkEof].
Proof.
  induction 1 as [b Hb|b k text kinds rest Hb Hs Hr Hw IH]; intros Hchars.
  - exists [mkToken TkEof total]. rewrite <- (app_nil_r b). by rewrite lex_all_blank.
  - rewrite lex_all_blank by done. apply Forall_app in Hchars as [_ Hchars]. apply Forall_app in Hchars as [Htext Hrest].
    destruct (IH Hrest) as (tokens & Hl & Hk). destruct (spelled_here k text rest Hs Htext Hr) as (c & l & -> & Hhere).
    rewrite (lex_all_token k c l rest total Hhere), Hl. cbn [bind]. eexists. split; [reflexivity|]. cbn. by rewrite Hk.
Qed.

(** ** Theorems *)

(** C33: the lexer is total. On every text [lex] ends, with tokens or with an error; it
    panics only on a text with a character beyond ASCII. Its tokens stand in ascending
    order; each but the last starts at the byte position of a character of the text and
    none of these is the end token, which comes last, at the text's length. *)
Theorem lex_total (input : string) :
  match lex input with
  | Ok tokens =>
      (exists body, tokens = body ++ [mkToken TkEof (byte_len (chars input))] /\ Forall (fun tok => kind tok <> TkEof) body) /\
      StronglySorted (fun a b => position a < position b) tokens /\
      Forall (fun tok => exists before after, chars input = before ++ after /\ position tok = byte_len before) tokens
  | Err _ => True
  | Panic _ => ~ Forall (fun c => is_ascii c = true) (chars input)
  | OutOfFuel => False
  end.
Proof.
  unfold lex. set (l := chars input). destruct (decide (Forall (fun c => is_ascii c = true) l)) as [Ha|Ha].
  - destruct (lex_loop_tokens true (S (length l)) (byte_len l) l ltac:(lia) (fun _ => Ha)) as [Hc Ht].
    destruct (lex_loop _ _ l) as [tokens| | |]; try done.
    destruct (tokens_of_positions _ _ _ (Ht _ eq_refl)) as (H1 & H2 & H3). split_and!; [done|done|]. eapply Forall_impl; [exact H3|].
    intros tok [->|(l' & [k Hk] & _ & ->)]; [exists l, []; by rewrite app_nil_r|]. exists k, l'. split; [done|]. rewrite Hk, byte_len_app. lia.
  - destruct (lex_loop_tokens false (S (length l)) (byte_len l) l ltac:(lia) ltac:(done)) as [Hc Ht].
    destruct (lex_loop _ _ l) as [tokens| | |]; try done.
    destruct (tokens_of_positions _ _ _ (Ht _ eq_refl)) as (H1 & H2 & H3). split_and!; [done|done|]. eapply Forall_impl; [exact H3|].
    intros tok [->|(l' & [k Hk] & _ & ->)]; [exists l, []; by rewrite app_nil_r|]. exists k, l'. split; [done|]. rewrite Hk, byte_len_app. lia.
Qed.

(** C31: the lexer reads what the grammar writes. Take any tokens, a text of each (symbols,
    keywords in any case, bare and quoted identifiers, strings, decimal and hexadecimal
    integers, blobs), and blanks and comments around them, the blank after a token
    starting with white space. The text lexes to exactly those tokens and the end. *)
Theorem lex_written (kinds : list TokenKind) (l : list char) :
  written kinds l -> Forall is_char l -> exists tokens, lex (of_chars l) = Ok tokens /\ map kind tokens = kinds ++ [TkEof].
Proof.
  intros Hw Hl. unfold lex. rewrite chars_of_chars by done. apply (lex_all_written (byte_len l) kinds l Hw Hl).
Qed.

Lemma written_space kind text kinds rest : spelled kind text -> written kinds rest -> written (kind :: kinds) (text ++ c#" " :: rest).
Proof.
  intros Hs Hw. apply (written_token []); [constructor|done|by right|]. inversion Hw; subst.
  - constructor. by constructor.
  - apply (written_token (c#" " :: b)); [by constructor|done..].
Qed.

(** [select /* all */ "a" 12] *)
Definition sample_text : list char := chars "select" ++ c#" " :: (chars "/* all */" ++ chars "12").
Lemma sample_written : written [TkSelect; TkInteger 12] sample_text.
Proof.
  apply written_space.
  - apply (sp_keyword "SELECT"); [|reflexivity]. unfold keywords. repeat (apply elem_of_cons; (left; reflexivity) || right).
  - rewrite <- (app_nil_r (chars "12")). apply (written_token (chars "/* all */")).
    + apply (blank_block (chars " all ") []); [reflexivity|constructor].
    + apply (sp_integer (chars "12")); [|vm_compute; discriminate]. split; [reflexivity|]. repeat constructor; by left.
    + by left.
    + apply written_end. constructor.
Qed.

Lemma lex_written_witness :
  exists tokens, lex (of_chars sample_text) = Ok tokens /\ map kind tokens = [TkSelect; TkInteger 12] ++ [TkEof].
Proof.
  apply (lex_written [TkSelect; TkInteger 12] sample_text).
  - apply sample_written.
  - apply (bool_decide_unpack _). vm_compute. exact I.
Defined.

(** ** Where the lexer panics, and what it accepts *)

(** A blob literal of two bytes' length with a character of two bytes across the pairs. *)
Lemma blob_literal_panics : lex (of_chars (chars "x'a" ++ [233] ++ chars "b'")) = Panic "byte index is not a char boundary".
Proof. vm_compute. reflexivity. Qed.

(** [u8::from_str_radix] accepts a sign. *)
Lemma blob_literal_accepts_sign : lex "x'+a'" = Ok [mkToken (TkBlobLiteral [10]) 0; mkToken TkEof 5].
Proof. vm_compute. reflexivity. Qed.
