(* ===== verification/Schema.v ===== *)
(** * Schemas: the table definitions of [src/common/types.rs]

    The data of a schema, what renaming and dropping columns does to it, and the two checks
    of a row that depend on it alone: the types and null constraints of its values and the
    uniqueness of its primary key. The [SELECT] of a view is kept as a parameter type; it is not stored. *)

From S2P Require Import Prelude Text Types.

Inductive SortOrder := Asc | Desc.
Inductive CheckOp := CkOpEq | CkOpNe | CkOpGt | CkOpGte | CkOpLt | CkOpLte.
Inductive TrimSide := TrimBoth | TrimStart | TrimEnd.
Inductive RoundingFunc := RCeil | RCeiling | RFloor | RTrunc.
Inductive UnaryMathFunc :=
  | Sqrt | Ln | Log10 | Log2 | Exp | Sin | Cos | Tan | Sinh | Cosh | Tanh | Atan | Acos | Asin | Acosh | Asinh | Atanh | Degrees | Radians.
Inductive BinaryMathFunc := Power | Atan2 | Log.

(** [CheckExpr]; its constructors and fields as in the code, prefixed by [Ck]. *)
Inductive CheckExpr :=
  | CkCompare (column : string) (op : CheckOp) (value : Value)
  | CkIsNull (column : string) (negated : bool)
  | CkGlob (column : string) (pattern : string) (negated : bool)
  | CkRegexp (column : string) (pattern : string) (negated : bool)
  | CkLike (column : string) (pattern : string) (escape : option string) (negated : bool)
  | CkInList (column : string) (values : list Value) (negated : bool)
  | CkBetween (column : string) (low : Value) (high : Value) (negated : bool)
  | CkIsBool (column : string) (value : bool) (negated : bool)
  | CkTruthy (column : string)
  | CkIsDistinct (column : string) (value : Value) (negated : bool)
  | CkLengthCompare (column : string) (op : CheckOp) (value : Value)
  | CkOctetLengthCompare (column : string) (op : CheckOp) (value : Value)
  | CkUnicodeCompare (column : string) (op : CheckOp) (value : Value)
  | CkUnicodeIsNull (column : string) (negated : bool)
  | CkSignCompare (column : string) (op : CheckOp) (value : Value)
  | CkHexCompare (column : string) (op : CheckOp) (value : Value)
  | CkQuoteCompare (column : string) (op : CheckOp) (value : Value)
  | CkNullIfIsNull (column : string) (value : Value) (negated : bool)
  | CkReplaceCompare (column : string) (pattern : string) (replacement : string) (op : CheckOp) (value : Value)
  | CkReplaceColumnCompare (column : string) (pattern : string) (replacement : string) (op : CheckOp)
  | CkRoundCompare (column : string) (precision : option Z) (op : CheckOp) (value : Value)
  | CkRoundingCompare (column : string) (func : RoundingFunc) (op : CheckOp) (value : Value)
  | CkCastCompare (column : string) (target_type : ColumnType) (op : CheckOp) (value : Value)
  | CkMinMaxColumnCompare (column : string) (limit : Value) (min : bool) (op : CheckOp)
  | CkConcatCompare (column : string) (suffix : list Value) (op : CheckOp) (value : Value)
  | CkConcatWsCompare (column : string) (separator : option string) (suffix : list Value) (op : CheckOp) (value : Value)
  | CkJsonValidCompare (column : string) (flags : option Z) (compare : option (CheckOp * Value))
  | CkAbsCompare (column : string) (op : CheckOp) (value : Value)
  | CkUnaryMathCompare (column : string) (func : UnaryMathFunc) (op : CheckOp) (value : Value)
  | CkBinaryMathCompare (column : string) (func : BinaryMathFunc) (argument : Value) (column_is_second : bool) (op : CheckOp) (value : Value)
  | CkArithmeticCompare (column : string) (addend : Value) (op : CheckOp) (value : Value)
  | CkMultiplyCompare (column : string) (factor : Value) (op : CheckOp) (value : Value)
  | CkDivideCompare (column : string) (divisor : Value) (op : CheckOp) (value : Value)
  | CkModuloCompare (column : string) (divisor : Value) (op : CheckOp) (value : Value) (function_form : bool)
  | CkTypeOfCompare (column : string) (op : CheckOp) (value : Value)
  | CkNoCaseCompare (column : string) (collation : string) (op : CheckOp) (value : Value)
  | CkCaseFoldCompare (column : string) (upper : bool) (op : CheckOp) (value : Value)
  | CkTrimCompare (column : string) (side : TrimSide) (characters : option string) (op : CheckOp) (value : Value)
  | CkCoalesceCompare (column : string) (fallbacks : list Value) (op : CheckOp) (value : Value)
  | CkInstrCompare (column : string) (needle : Value) (op : CheckOp) (value : Value)
  | CkSubstrCompare (column : string) (start : Z) (length : option Z) (op : CheckOp) (value : Value)
  | CkAnd (left right : CheckExpr)
  | CkOr (left right : CheckExpr)
  | CkNot (inner : CheckExpr).

Record CheckConstraint := mkCheckConstraint {
  check_name : string;
  explicit_name : bool;
  check_expr : CheckExpr
}.

Record ForeignKey := mkForeignKey {
  fk_constraint_name : option string;
  fk_columns : list string;
  ref_table : string;
  ref_columns : option (list string);
  match_clause : option string;
  on_delete : option string;
  on_update : option string;
  deferrable : option bool;
  initially_deferred : option bool
}.

Record UniqueConstraint := mkUniqueConstraint {
  uq_constraint_name : option string;
  uq_conflict_clause : option string;
  uq_columns : list string;
  uq_decorated_columns : option (list string)
}.

Record PrimaryKeyConstraint := mkPrimaryKeyConstraint {
  pk_constraint_name : option string;
  pk_columns : list string;
  pk_decorated_columns : option (list string);
  pk_conflict_clause : option string
}.

Record ColumnDef := mkColumnDef {
  column_name : string;
  column_type : ColumnType;
  declared_type : option string;
  collation : option string;
  nullable : bool;
  not_null_constraint_name : option string;
  not_null_conflict_clause : option string;
  primary_key : bool;
  primary_key_constraint_name : option string;
  primary_key_conflict_clause : option string;
  primary_key_sort_order : option SortOrder;
  unique : bool;
  unique_constraint_name : option string;
  unique_conflict_clause : option string;
  autoincrement : bool;
  default_value : option ColumnDefault;
  generated_expr : option string;
  generated_stored : bool;
  generated_storage_explicit : bool;
  generated_always_explicit : bool;
  column_checks : list CheckConstraint;
  foreign_key : option ForeignKey
}.

Record IndexMeta := mkIndexMeta {
  index_name : string;
  index_columns : list string;
  decorated_columns : option (list string);
  index_unique : bool;
  predicate : option string
}.

Inductive TableConstraintOrder :=
  | OrderCheck (i : Z)
  | OrderForeignKey (i : Z)
  | OrderPrimaryKey
  | OrderUnique (i : Z).

Inductive SchemaObjectType := ObjTable | ObjView.

Record Schema {SelectStatement : Type} := mkSchema {
  schema_name : string;
  columns : list ColumnDef;
  object_type : SchemaObjectType;
  create_sql : option string;
  view_select : option SelectStatement;
  view_columns : option (list string);
  checks : list CheckConstraint;
  foreign_keys : list ForeignKey;
  primary_key_constraint : option PrimaryKeyConstraint;
  unique_constraints : list UniqueConstraint;
  table_constraint_order : list TableConstraintOrder;
  strict : bool;
  without_rowid : bool
}.
Arguments Schema : clear implicits.

(** ** Updating records *)

Definition rename (old_name new_name name : string) : string := if String.eqb name old_name then new_name else name.

Definition with_check_expr (x : CheckExpr) (c : CheckConstraint) : CheckConstraint :=
  mkCheckConstraint (check_name c) (explicit_name c) x.
Definition with_fk_columns (x : list string) (fk : ForeignKey) : ForeignKey :=
  mkForeignKey (fk_constraint_name fk) x (ref_table fk) (ref_columns fk) (match_clause fk) (on_delete fk) (on_update fk)
    (deferrable fk) (initially_deferred fk).
Definition with_ref_table (x : string) (fk : ForeignKey) : ForeignKey :=
  mkForeignKey (fk_constraint_name fk) (fk_columns fk) x (ref_columns fk) (match_clause fk) (on_delete fk) (on_update fk)
    (deferrable fk) (initially_deferred fk).
Definition with_ref_columns (x : option (list string)) (fk : ForeignKey) : ForeignKey :=
  mkForeignKey (fk_constraint_name fk) (fk_columns fk) (ref_table fk) x (match_clause fk) (on_delete fk) (on_update fk)
    (deferrable fk) (initially_deferred fk).
Definition with_uq_columns (x : list string) (u : UniqueConstraint) : UniqueConstraint :=
  mkUniqueConstraint (uq_constraint_name u) (uq_conflict_clause u) x (uq_decorated_columns u).

(** The fields of a column that the operations below change. *)
Definition with_column (name : string) (is_primary_key is_nullable : bool) (cs : list CheckConstraint)
    (fk : option ForeignKey) (c : ColumnDef) : ColumnDef :=
  mkColumnDef name (column_type c) (declared_type c) (collation c) is_nullable (not_null_constraint_name c)
    (not_null_conflict_clause c) is_primary_key (primary_key_constraint_name c) (primary_key_conflict_clause c)
    (primary_key_sort_order c) (unique c) (unique_constraint_name c) (unique_conflict_clause c) (autoincrement c)
    (default_value c) (generated_expr c) (generated_stored c) (generated_storage_explicit c)
    (generated_always_explicit c) cs fk.
Definition with_foreign_key (fk : option ForeignKey) (c : ColumnDef) : ColumnDef :=
  with_column (column_name c) (primary_key c) (nullable c) (column_checks c) fk c.

(** ** Indexes *)

(** [IndexMeta::enforces_unique_key]: a key with a null is never a duplicate. *)
Definition enforces_unique_key (self : IndexMeta) (key : list Value) : bool :=
  index_unique self && negb (existsb (fun value => match value with Null => true | _ => false end) key).

Definition is_plain_index_column_name (column : string) : bool :=
  negb (String.eqb column "") && forallb (fun byte => is_ascii_alphanumeric byte || (byte =? underscore)) (string_bytes column).

Definition is_usable (self : IndexMeta) : bool :=
  match predicate self with Some _ => false | None => forallb is_plain_index_column_name (index_columns self) end.

(** ** Names in check expressions *)

(** The column of a check that compares one; [And], [Or] and [Not] have none. *)
Definition check_column (expr : CheckExpr) : option string :=
  match expr with
  | CkCompare c _ _ | CkIsNull c _ | CkGlob c _ _ | CkRegexp c _ _ | CkLike c _ _ _ | CkInList c _ _
  | CkBetween c _ _ _ | CkIsBool c _ _ | CkTruthy c | CkIsDistinct c _ _ | CkLengthCompare c _ _
  | CkOctetLengthCompare c _ _ | CkUnicodeCompare c _ _ | CkUnicodeIsNull c _ | CkSignCompare c _ _
  | CkHexCompare c _ _ | CkQuoteCompare c _ _ | CkNullIfIsNull c _ _ | CkReplaceCompare c _ _ _ _
  | CkReplaceColumnCompare c _ _ _ | CkRoundCompare c _ _ _ | CkRoundingCompare c _ _ _ | CkCastCompare c _ _ _
  | CkMinMaxColumnCompare c _ _ _ | CkConcatCompare c _ _ _ | CkConcatWsCompare c _ _ _ _ | CkJsonValidCompare c _ _
  | CkAbsCompare c _ _ | CkUnaryMathCompare c _ _ _ | CkBinaryMathCompare c _ _ _ _ _ | CkArithmeticCompare c _ _ _
  | CkMultiplyCompare c _ _ _ | CkDivideCompare c _ _ _ | CkModuloCompare c _ _ _ _ | CkTypeOfCompare c _ _
  | CkNoCaseCompare c _ _ _ | CkCaseFoldCompare c _ _ _ | CkTrimCompare c _ _ _ _ | CkCoalesceCompare c _ _ _
  | CkInstrCompare c _ _ _ | CkSubstrCompare c _ _ _ _ => Some c
  | CkAnd _ _ | CkOr _ _ | CkNot _ => None
  end.

(** [rename_check_expr_column], [r] being the renaming of one name. *)
Fixpoint map_check_column (r : string -> string) (expr : CheckExpr) : CheckExpr :=
  match expr with
  | CkCompare c a b => CkCompare (r c) a b | CkIsNull c a => CkIsNull (r c) a | CkGlob c a b => CkGlob (r c) a b
  | CkRegexp c a b => CkRegexp (r c) a b | CkLike c a b d => CkLike (r c) a b d | CkInList c a b => CkInList (r c) a b
  | CkBetween c a b d => CkBetween (r c) a b d | CkIsBool c a b => CkIsBool (r c) a b | CkTruthy c => CkTruthy (r c)
  | CkIsDistinct c a b => CkIsDistinct (r c) a b | CkLengthCompare c a b => CkLengthCompare (r c) a b
  | CkOctetLengthCompare c a b => CkOctetLengthCompare (r c) a b
  | CkUnicodeCompare c a b => CkUnicodeCompare (r c) a b | CkUnicodeIsNull c a => CkUnicodeIsNull (r c) a
  | CkSignCompare c a b => CkSignCompare (r c) a b | CkHexCompare c a b => CkHexCompare (r c) a b
  | CkQuoteCompare c a b => CkQuoteCompare (r c) a b | CkNullIfIsNull c a b => CkNullIfIsNull (r c) a b
  | CkReplaceCompare c a b d e => CkReplaceCompare (r c) a b d e
  | CkReplaceColumnCompare c a b d => CkReplaceColumnCompare (r c) a b d
  | CkRoundCompare c a b d => CkRoundCompare (r c) a b d | CkRoundingCompare c a b d => CkRoundingCompare (r c) a b d
  | CkCastCompare c a b d => CkCastCompare (r c) a b d
  | CkMinMaxColumnCompare c a b d => CkMinMaxColumnCompare (r c) a b d
  | CkConcatCompare c a b d => CkConcatCompare (r c) a b d
  | CkConcatWsCompare c a b d e => CkConcatWsCompare (r c) a b d e
  | CkJsonValidCompare c a b => CkJsonValidCompare (r c) a b | CkAbsCompare c a b => CkAbsCompare (r c) a b
  | CkUnaryMathCompare c a b d => CkUnaryMathCompare (r c) a b d
  | CkBinaryMathCompare c a b d e f => CkBinaryMathCompare (r c) a b d e f
  | CkArithmeticCompare c a b d => CkArithmeticCompare (r c) a b d
  | CkMultiplyCompare c a b d => CkMultiplyCompare (r c) a b d
  | CkDivideCompare c a b d => CkDivideCompare (r c) a b d
  | CkModuloCompare c a b d e => CkModuloCompare (r c) a b d e | CkTypeOfCompare c a b => CkTypeOfCompare (r c) a b
  | CkNoCaseCompare c a b d => CkNoCaseCompare (r c) a b d
  | CkCaseFoldCompare c a b d => CkCaseFoldCompare (r c) a b d
  | CkTrimCompare c a b d e => CkTrimCompare (r c) a b d e
  | CkCoalesceCompare c a b d => CkCoalesceCompare (r c) a b d | CkInstrCompare c a b d => CkInstrCompare (r c) a b d
  | CkSubstrCompare c a b d e => CkSubstrCompare (r c) a b d e
  | CkAnd lhs rhs => CkAnd (map_check_column r lhs) (map_check_column r rhs)
  | CkOr lhs rhs => CkOr (map_check_column r lhs) (map_check_column r rhs)
  | CkNot inner => CkNot (map_check_column r inner)
  end.

Definition rename_check_expr_column (old_name new_name : string) (expr : CheckExpr) : CheckExpr :=
  map_check_column (rename old_name new_name) expr.

Fixpoint check_references_column (expr : CheckExpr) (column : string) : bool :=
  match expr with
  | CkAnd lhs rhs | CkOr lhs rhs => check_references_column lhs column || check_references_column rhs column
  | CkNot inner => check_references_column inner column
  | _ => match check_column expr with Some c => String.eqb c column | None => false end
  end.

(** ** Identifiers in generated column expressions *)

(** The bytes an identifier starts and continues with. *)
Definition word_start (b : Z) : bool := is_ascii_alphabetic b || (b =? underscore).
Definition word_byte (b : Z) : bool := is_ascii_alphanumeric b || (b =? underscore).

Definition eq_ignore_ascii_case (a b : bytes) : bool := bool_decide (map ascii_lower a = map ascii_lower b).

(** The two inner [while] loops: skip to the start of a word; its remaining bytes and
    what follows it. *)
Fixpoint skip_to_word (l : bytes) : bytes :=
  match l with
  | [] => []
  | b :: l' => if word_start b then l else skip_to_word l'
  end.
Fixpoint word_rest (l : bytes) : bytes * bytes :=
  match l with
  | [] => ([], [])
  | b :: l' => if word_byte b then let (w, rest) := word_rest l' in (b :: w, rest) else ([], l)
  end.

Fixpoint mentions_loop (fuel : nat) (identifier l : bytes) : bool :=
  match fuel with
  | O => false
  | S fuel =>
      match skip_to_word l with
      | [] => false
      | b :: l =>
          let (w, rest) := word_rest l in
          if eq_ignore_ascii_case (b :: w) identifier then true else mentions_loop fuel identifier rest
      end
  end.

(** Each round of the outer loop consumes a byte. *)
Definition sql_expr_mentions_identifier (expr identifier : string) : bool :=
  let l := string_bytes expr in
  mentions_loop (S (length l)) (map ascii_lower (string_bytes identifier)) l.

(** ** Schema operations *)

Section Schema.
Context {SelectStatement : Type}.
Abbreviation Schema := (Schema SelectStatement).
Implicit Types self : Schema.

Definition with_columns (x : list ColumnDef) self : Schema :=
  mkSchema _ (schema_name self) x (object_type self) (create_sql self) (view_select self) (view_columns self) (checks self)
    (foreign_keys self) (primary_key_constraint self) (unique_constraints self) (table_constraint_order self)
    (strict self) (without_rowid self).
Definition with_constraints (cs : list CheckConstraint) (fks : list ForeignKey) (uqs : list UniqueConstraint) self : Schema :=
  mkSchema _ (schema_name self) (columns self) (object_type self) (create_sql self) (view_select self) (view_columns self) cs
    fks (primary_key_constraint self) uqs (table_constraint_order self) (strict self) (without_rowid self).
Definition with_primary_key (x : option PrimaryKeyConstraint) (order : list TableConstraintOrder) self : Schema :=
  mkSchema _ (schema_name self) (columns self) (object_type self) (create_sql self) (view_select self) (view_columns self)
    (checks self) (foreign_keys self) x (unique_constraints self) order (strict self) (without_rowid self).
Definition with_schema_name (x : string) self : Schema :=
  mkSchema _ x (columns self) (object_type self) (create_sql self) (view_select self) (view_columns self)
    (checks self) (foreign_keys self) (primary_key_constraint self) (unique_constraints self)
    (table_constraint_order self) (strict self) (without_rowid self).

Definition has_column self (column : string) : bool :=
  existsb (fun entry => String.eqb (column_name entry) column) (columns self).

Definition all_foreign_keys self : list ForeignKey :=
  foreign_keys self ++ omap foreign_key (columns self).

Definition has_referenced_column (self : ForeignKey) (column : string) : bool :=
  match ref_columns self with Some cols => existsb (String.eqb column) cols | None => false end.

(** The loop of [mark_primary_key_columns]: [find] and the assignments to what it finds. *)
Fixpoint mark_column (name : string) (cols : list ColumnDef) : option (list ColumnDef) :=
  match cols with
  | [] => None
  | column :: cols =>
      if String.eqb (column_name column) name then
        let keeps_null := match column_type column, primary_key_sort_order column with
                          | CtInteger, Some Desc => true
                          | _, _ => false
                          end in
        Some (with_column (column_name column) true (if keeps_null then nullable column else false)
                (column_checks column) (foreign_key column) column :: cols)
      else match mark_column name cols with Some cols => Some (column :: cols) | None => None end
  end.

Fixpoint mark_columns (names : list string) (cols : list ColumnDef) : Result (list ColumnDef) :=
  match names with
  | [] => Ok cols
  | name :: names =>
      let? cols := ok_or (mark_column name cols)
                     (Storage ("unknown column in PRIMARY KEY constraint: " ++ name)%string) in
      mark_columns names cols
  end.

Definition mark_primary_key_columns (constraint : PrimaryKeyConstraint) self : Result Schema :=
  if bool_decide (pk_columns constraint = [])
  then Err (Storage "PRIMARY KEY constraint must reference at least one column")
  else
    let? cols := mark_columns (pk_columns constraint) (columns self) in
    let order := table_constraint_order self in
    Ok (with_primary_key (Some constraint)
          (if existsb (fun entry => match entry with OrderPrimaryKey => true | _ => false end) order
           then order else order ++ [OrderPrimaryKey])
          (with_columns cols self)).

Fixpoint validate_check_expr_metadata self (expr : CheckExpr) : Result unit :=
  match expr with
  | CkAnd lhs rhs | CkOr lhs rhs =>
      validate_check_expr_metadata self lhs ;;? validate_check_expr_metadata self rhs
  | CkNot inner => validate_check_expr_metadata self inner
  | _ =>
      match check_column expr with
      | Some column => if has_column self column then Ok tt
                       else Err (Storage ("unknown column in CHECK: " ++ column)%string)
      | None => Ok tt
      end
  end.

Definition validate_check_constraint_metadata self (check : CheckConstraint) : Result unit :=
  validate_check_expr_metadata self (check_expr check).

(** A loop over constraint columns that must exist. *)
Definition require_columns self (context : string) (cols : list string) : Result unit :=
  each_res (fun column => if has_column self column then Ok tt
                          else Err (Storage ("unknown column in " ++ context ++ ": " ++ column)%string)) cols.

Definition validate_foreign_key self (fk : ForeignKey) : Result unit :=
  if bool_decide (fk_columns fk = []) then Err (Storage "FOREIGN KEY constraint must reference at least one column")
  else
    (match ref_columns fk with
     | Some cols => if (length cols =? length (fk_columns fk))%nat then Ok tt
                    else Err (Storage ("FOREIGN KEY column count mismatch for parent table " ++ ref_table fk)%string)
     | None => Ok tt
     end) ;;?
    require_columns self "FOREIGN KEY" (fk_columns fk).

Definition validate_unique_constraint self (u : UniqueConstraint) : Result unit :=
  if bool_decide (uq_columns u = []) then Err (Storage "UNIQUE constraint must reference at least one column")
  else require_columns self "UNIQUE constraint" (uq_columns u).

Definition validate_constraints_metadata self : Result unit :=
  each_res (fun column => each_res (validate_check_constraint_metadata self) (column_checks column)) (columns self) ;;?
  each_res (validate_check_constraint_metadata self) (checks self) ;;?
  each_res (validate_foreign_key self) (all_foreign_keys self) ;;?
  each_res (validate_unique_constraint self) (unique_constraints self).

Definition rename_check (old_name new_name : string) (check : CheckConstraint) : CheckConstraint :=
  with_check_expr (rename_check_expr_column old_name new_name (check_expr check)) check.
Definition rename_fk_columns (old_name new_name : string) (fk : ForeignKey) : ForeignKey :=
  with_fk_columns (map (rename old_name new_name) (fk_columns fk)) fk.
Definition rename_ref_columns (old_name new_name : string) (fk : ForeignKey) : ForeignKey :=
  with_ref_columns (map (rename old_name new_name) <$> ref_columns fk) fk.

Definition rename_column_references (old_name new_name : string) self : Schema :=
  let cols := map (fun column =>
    with_column (rename old_name new_name (column_name column)) (primary_key column) (nullable column)
      (map (rename_check old_name new_name) (column_checks column))
      (rename_fk_columns old_name new_name <$> foreign_key column) column) (columns self) in
  with_constraints
    (map (rename_check old_name new_name) (checks self))
    (map (fun fk =>
       let fk := rename_fk_columns old_name new_name fk in
       if String.eqb (ref_table fk) (schema_name self) then rename_ref_columns old_name new_name fk else fk)
       (foreign_keys self))
    (map (fun u => with_uq_columns (map (rename old_name new_name) (uq_columns u)) u) (unique_constraints self))
    (with_columns cols self).

(** The loops over the column and table foreign keys. *)
Definition map_foreign_keys (f : ForeignKey -> ForeignKey) self : Schema :=
  with_constraints (checks self) (map f (foreign_keys self)) (unique_constraints self)
    (with_columns (map (fun column => with_foreign_key (f <$> foreign_key column) column) (columns self)) self).

Definition rename_foreign_key_ref_table (old_name new_name : string) self : Schema :=
  map_foreign_keys (fun fk => with_ref_table (rename old_name new_name (ref_table fk)) fk) self.

Definition rename_foreign_key_ref_column (table old_name new_name : string) self : Schema :=
  map_foreign_keys (fun fk => if String.eqb (ref_table fk) table then rename_ref_columns old_name new_name fk else fk) self.

(** [iter().position(|column| column.name == name)] *)
Definition column_position (name : string) (cols : list ColumnDef) : option nat :=
  fst <$> list_find (fun column => column_name column = name) cols.

Definition drop_refused (name why : string) : DbError :=
  Storage ("cannot drop column '" ++ name ++ "' because " ++ why ++ " on it")%string.

Definition drop_column (old_name : string) self : Result (Schema * nat) :=
  let? removed_index := ok_or (column_position old_name (columns self)) (Storage ("unknown column: " ++ old_name)%string) in
  let? removed := vec_index (columns self) removed_index in
  let self_reference fk := String.eqb (ref_table fk) (schema_name self) && has_referenced_column fk old_name in
  if (length (columns self) =? 1)%nat then
    Err (Storage ("cannot drop the only column on table " ++ schema_name self)%string)
  else if primary_key removed then Err (Storage ("cannot drop primary key column '" ++ old_name ++ "'")%string)
  else if existsb (fun column => negb (String.eqb (column_name column) old_name)
            && match generated_expr column with
               | Some expr => sql_expr_mentions_identifier expr old_name
               | None => false
               end) (columns self) then
    Err (drop_refused old_name "generated columns depend")
  else if existsb (fun check => check_references_column (check_expr check) old_name) (checks self)
          || existsb (fun column => existsb (fun check => check_references_column (check_expr check) old_name)
                                      (column_checks column)) (columns self) then
    Err (drop_refused old_name "a CHECK constraint depends")
  else if existsb (fun constraint => existsb (String.eqb old_name) (uq_columns constraint)) (unique_constraints self) then
    Err (drop_refused old_name "a UNIQUE constraint depends")
  else if existsb (fun fk => existsb (String.eqb old_name) (fk_columns fk)) (foreign_keys self)
          || existsb (fun column => match foreign_key column with
                                    | Some fk => existsb (String.eqb old_name) (fk_columns fk)
                                    | None => false
                                    end) (columns self) then
    Err (drop_refused old_name "a FOREIGN KEY depends")
  else if negb (String.eqb (schema_name self) "") && existsb self_reference (foreign_keys self)
          || existsb (fun column => match foreign_key column with Some fk => self_reference fk | None => false end)
               (columns self) then
    Err (drop_refused old_name "a FOREIGN KEY depends")
  else
    let updated_schema := with_columns (delete removed_index (columns self)) self in
    validate_constraints_metadata updated_schema ;;?
    Ok (updated_schema, removed_index).

(** The [for (column, value) in self.columns.iter().zip(row.iter())] loop, one round. *)
Definition validate_column_value self (column : ColumnDef) (value : Value) : Result unit :=
  match value with
  | Null =>
      let null_allowed_primary_key := negb (strict self) && primary_key column
        && match column_type column with CtInteger => true | _ => false end
        && match primary_key_sort_order column with Some Desc => true | _ => false end in
      if null_allowed_primary_key then Ok tt
      else if primary_key column then
        Err (Storage ("primary key column '" ++ column_name column ++ "' cannot be NULL")%string)
      else if negb (nullable column) then
        Err (Storage ("column '" ++ column_name column ++ "' cannot be NULL")%string)
      else Ok tt
  | _ =>
      if matches_value (column_type column) value then Ok tt
      else Err (Storage ("column '" ++ column_name column ++ "' expected " ++ column_type_name (column_type column)
                         ++ " but got " ++ type_name value)%string)
  end.

Definition validate_row_values self (row : Row) : Result unit :=
  if negb (length row =? length (columns self))%nat then
    Err (Storage ("insert into " ++ schema_name self ++ " expected " ++ pretty (length (columns self))
                  ++ " values but got " ++ pretty (length row))%string)
  else each_res (fun cv => validate_column_value self cv.1 cv.2) (zip (columns self) row).

Definition column_index self (column : string) : Result nat :=
  ok_or (column_position column (columns self)) (Storage ("unknown column: " ++ column)%string).

Definition value_for_column self (row : Row) (column : string) : Result Value :=
  let? index := column_index self column in
  ok_or (row !! index) (Storage ("row is missing column " ++ column)%string).

(** [to_string] of a value and [{:?}] of a key, which format reals and escape text, are
    [show] and [debug]: they occur in the error's text only. *)
Definition validate_primary_key_uniqueness (show : Value -> string) (debug : list Value -> string) self
    (row : Row) (existing_rows : list Row) : Result unit :=
  let primary_key_columns := filter (fun ic => primary_key ic.2) (imap pair (columns self)) in
  if bool_decide (primary_key_columns = []) then Ok tt
  else
    let? key := mapM_res (fun ic : nat * ColumnDef => vec_index row ic.1) primary_key_columns in
    if existsb (fun existing_row =>
         forallb (fun ic : nat * ColumnDef => bool_decide (existing_row !! ic.1 = row !! ic.1)) primary_key_columns) existing_rows then
      match primary_key_columns, key with
      | [(_, column)], [value] =>
          Err (Storage ("duplicate primary key value for column '" ++ column_name column ++ "': " ++ show value)%string)
      | _, _ =>
          Err (Storage ("duplicate primary key value for columns (" ++
            str_join ", " (map (fun ic => column_name ic.2) primary_key_columns) ++ "): " ++ debug key)%string)
      end
    else Ok tt.
End Schema.
