(* ===== verification/SchemaLaws.v ===== *)
(** * What the schema operations guarantee

    Identifiers are found in expressions exactly as words; renaming a column keeps the
    constraints valid and leaves no constraint behind; dropping a column succeeds exactly
    when nothing needs it; and the two row checks accept exactly the rows they should. *)

From S2P Require Import Prelude Text Types Schema.

(** ** Words of an expression *)

(** Whether the byte after [pre] continues an identifier that began in [pre]. *)
Definition inside_word (pre : bytes) : bool :=
  fold_left (fun inside b => word_start b || (inside && word_byte b)) pre false.

(** [w] is an identifier of [l], as a whole. *)
Definition word_at (l pre w post : bytes) : Prop :=
  l = pre ++ w ++ post /\ inside_word pre = false /\
  match w with b :: _ => word_start b = true | [] => False end /\
  Forall (fun b => word_byte b = true) w /\
  match post with b :: _ => word_byte b = false | [] => True end.

Lemma word_start_byte b : word_start b = true -> word_byte b = true.
Proof. unfold word_start, word_byte, is_ascii_alphanumeric. intros [->| ->]%orb_true_iff; simpl; [done|]. by rewrite orb_true_r. Qed.

Lemma inside_word_app l1 l2 : inside_word (l1 ++ l2) = fold_left (fun inside b => word_start b || (inside && word_byte b)) l2 (inside_word l1).
Proof. apply fold_left_app. Qed.

Lemma stays_outside l : Forall (fun b => word_start b = false) l ->
  fold_left (fun inside b => word_start b || (inside && word_byte b)) l false = false.
Proof. induction 1 as [|b l Hb Hl IH]; [done|]. cbn [fold_left]. by rewrite Hb. Qed.

Lemma stays_inside l : Forall (fun b => word_byte b = true) l ->
  fold_left (fun inside b => word_start b || (inside && word_byte b)) l true = true.
Proof. induction 1 as [|b l Hb Hl IH]; [done|]. cbn [fold_left]. by rewrite Hb, andb_true_l, orb_true_r. Qed.

Lemma skip_to_word_split l :
  exists p, l = p ++ skip_to_word l /\ Forall (fun b => word_start b = false) p /\
    match skip_to_word l with b :: _ => word_start b = true | [] => True end.
Proof.
  induction l as [|b l (p & Hl & Hp & Hs)]; cbn [skip_to_word]; [by exists []|].
  destruct (word_start b) eqn:E; [by exists []|]. exists (b :: p). rewrite Hl at 1. by split_and!; [|constructor|].
Qed.

Lemma word_rest_split l w rest :
  word_rest l = (w, rest) ->
  l = w ++ rest /\ Forall (fun b => word_byte b = true) w /\
  match rest with b :: _ => word_byte b = false | [] => True end.
Proof.
  revert w rest. induction l as [|b l IH]; cbn [word_rest]; intros w rest.
  - intros [= <- <-]. by split_and!.
  - destruct (word_byte b) eqn:E.
    + destruct (word_rest l) as [w' rest'] eqn:Er. intros [= <- <-]. destruct (IH _ _ eq_refl) as (-> & Hw & Hr).
      by split_and!; [|constructor|].
    + intros [= <- <-]. by split_and!.
Qed.

Definition ends_word (rest : bytes) : Prop := match rest with b :: _ => word_byte b = false | [] => True end.

Lemma word_unique w1 r1 w2 r2 :
  Forall (fun b => word_byte b = true) w1 -> Forall (fun b => word_byte b = true) w2 -> ends_word r1 -> ends_word r2 ->
  w1 ++ r1 = w2 ++ r2 -> w1 = w2 /\ r1 = r2.
Proof.
  intros H1. revert w2. induction H1 as [|b w1 Hb H1 IH]; intros [|b2 w2] H2 E1 E2; cbn; try done.
  - intros ->. apply Forall_cons in H2 as [H2 _]. cbn in E1. congruence.
  - intros <-. cbn in E2. congruence.
  - apply Forall_cons in H2 as [Hb2 H2]. intros [= -> Heq]. destruct (IH w2 H2 E1 E2 Heq) as [-> ->]. done.
Qed.

(** What follows a word is read as if from the start. *)
Lemma after_word c x :
  word_byte c = false ->
  fold_left (fun inside b => word_start b || (inside && word_byte b)) (c :: x) true = inside_word (c :: x).
Proof. intros Hc. unfold inside_word. cbn [fold_left]. by rewrite Hc, andb_false_r. Qed.

(** The words of [p ++ (b :: w) ++ rest]: the first one, and those of [rest]. *)
Lemma words_split p b w rest pre w' post :
  Forall (fun b => word_start b = false) p -> word_start b = true -> Forall (fun b => word_byte b = true) w ->
  ends_word rest ->
  word_at (p ++ (b :: w) ++ rest) pre w' post <->
  (pre = p /\ w' = b :: w /\ post = rest) \/
  exists pre', pre = p ++ (b :: w) ++ pre' /\ word_at rest pre' w' post.
Proof.
  intros Hp Hb Hw Hrest.
  assert (Hout : inside_word p = false) by by apply stays_outside.
  assert (Hin : forall w1, Forall (fun b => word_byte b = true) w1 -> inside_word (p ++ b :: w1) = true).
  { intros w1 H1. rewrite inside_word_app, Hout. cbn [fold_left]. rewrite Hb. cbn [orb]. by apply stays_inside. }
  assert (Hafter : forall c x, word_byte c = false -> inside_word (p ++ (b :: w) ++ c :: x) = inside_word (c :: x)).
  { intros c x Hc. rewrite (assoc_L (++)), inside_word_app. rewrite Hin by done. by apply after_word. }
  assert (Hword : Forall (fun b => word_byte b = true) (b :: w)) by (constructor; [by apply word_start_byte|done]).
  split.
  - intros (Heq & Hpre & Hhead & Hall & Hpost). destruct w' as [|b' w']; [done|].
    apply app_eq_inv in Heq as [([|c k] & Hk1 & Hk2)|([|c k] & -> & Hk2)]; [rewrite app_nil_r in Hk1; subst pre| |rewrite app_nil_r in *|].
    + left. destruct (word_unique (b' :: w') post (b :: w) rest) as [-> ->]; done.
    + subst p. injection Hk2 as -> _. apply Forall_app in Hp as [_ [Hc _]%Forall_cons]. congruence.
    + left. destruct (word_unique (b' :: w') post (b :: w) rest) as [-> ->]; done.
    + injection Hk2 as <- Hk2. apply app_eq_inv in Hk2 as [(x & -> & _)|(x & -> & Hx)].
      * apply Forall_app in Hw as [Hk _]. by rewrite Hin in Hpre.
      * right. exists x. split; [done|]. split_and!; try done. destruct x as [|c x]; [done|].
        subst rest. by rewrite <- (Hafter c x).
  - intros [(-> & -> & ->)|(pre' & -> & -> & Hpre & Hhead & Hall & Hpost)].
    + by split_and!.
    + split_and!; [by rewrite <- !(assoc_L (++))| |done..]. destruct pre' as [|c x]; [|by rewrite Hafter].
      destruct w' as [|b' w']; [done|]. apply word_start_byte in Hhead. cbn in Hrest. congruence.
Qed.

Lemma no_words l pre w post : Forall (fun b => word_start b = false) l -> ~ word_at l pre w post.
Proof.
  intros Hl (-> & _ & Hhead & _). destruct w as [|b w]; [done|].
  apply Forall_app in Hl as [_ [Hc _]%Forall_app]. apply Forall_cons in Hc as [Hc _]. congruence.
Qed.

Lemma mentions_loop_spec identifier fuel : forall l,
  (length l < fuel)%nat ->
  mentions_loop fuel identifier l = true <->
  exists pre w post, word_at l pre w post /\ eq_ignore_ascii_case w identifier = true.
Proof.
  induction fuel as [|fuel IH]; intros l Hf; [lia|]. cbn [mentions_loop].
  destruct (skip_to_word_split l) as (p & Hl & Hp & Hs). destruct (skip_to_word l) as [|b l'] eqn:Es.
  - rewrite app_nil_r in Hl. subst p. split; [done|]. intros (pre & w & post & Hw & _). by apply no_words in Hw.
  - destruct (word_rest l') as [w rest] eqn:Er. destruct (word_rest_split _ _ _ Er) as (-> & Hw & Hrest).
    assert (Hsplit : forall pre w' post, word_at l pre w' post <->
      (pre = p /\ w' = b :: w /\ post = rest) \/ exists pre', pre = p ++ (b :: w) ++ pre' /\ word_at rest pre' w' post).
    { intros. rewrite Hl at 1. by apply words_split. }
    assert (Hlen : (length rest < fuel)%nat) by (rewrite Hl in Hf; len).
    destruct (eq_ignore_ascii_case (b :: w) identifier) eqn:Em.
    + split; [intros _|done]. exists p, (b :: w), rest. split; [|done]. apply Hsplit. by left.
    + rewrite (IH rest Hlen). split.
      * intros (pre & w' & post & H1 & H2). exists (p ++ (b :: w) ++ pre), w', post. split; [|done]. apply Hsplit. right. by exists pre.
      * intros (pre & w' & post & H1 & H2). apply Hsplit in H1 as [(-> & -> & ->)|(pre' & -> & H1)]; [congruence|]. by exists pre', w', post.
Qed.

Lemma ascii_lower_idem b : ascii_lower (ascii_lower b) = ascii_lower b.
Proof. unfold ascii_lower, is_ascii_uppercase. destruct ((65 <=? b) && (b <=? 90)) eqn:E; [|by rewrite E]. by destruct ((65 <=? b + 32) && (b + 32 <=? 90)) eqn:E'; [lia|]. Qed.

Lemma mentions_spec expr identifier :
  sql_expr_mentions_identifier expr identifier = true <->
  exists pre w post, word_at (string_bytes expr) pre w post /\ map ascii_lower w = map ascii_lower (string_bytes identifier).
Proof.
  unfold sql_expr_mentions_identifier. rewrite mentions_loop_spec by lia. unfold eq_ignore_ascii_case.
  setoid_rewrite bool_decide_eq_true. rewrite map_map. by setoid_rewrite (map_ext _ _ ascii_lower_idem).
Qed.

(** ** Columns of checks *)

Lemma references_map r expr c' :
  check_references_column (map_check_column r expr) c' = true <->
  exists c, check_references_column expr c = true /\ r c = c'.
Proof.
  assert (Hbase : forall c, String.eqb (r c) c' = true <-> exists c0, String.eqb c c0 = true /\ r c0 = c').
  { intros c. rewrite String.eqb_eq. setoid_rewrite String.eqb_eq. split; [by exists c|]. by intros (? & -> & ?). }
  induction expr as [| | | | | | | | | | | | | | | | | | | | | | | | | | | | | | | | | | | | | | | | |lhs IH1 rhs IH2|lhs IH1 rhs IH2|inner IH];
    cbn [map_check_column check_references_column check_column]; try apply Hbase; try apply IH;
    rewrite orb_true_iff, IH1, IH2; setoid_rewrite orb_true_iff; naive_solver.
Qed.

Lemma rename_cases old_name new_name c : rename old_name new_name c = if decide (c = old_name) then new_name else c.
Proof. unfold rename. destruct (String.eqb_spec c old_name), (decide (c = old_name)); done. Qed.

Section Schemas.
Context {SelectStatement : Type}.
Abbreviation Schema := (Schema SelectStatement).
Implicit Types self : Schema.

Lemma has_column_In self c : has_column self c = true <-> c ∈ map column_name (columns self).
Proof.
  unfold has_column. rewrite existsb_elem, list_elem_of_fmap. setoid_rewrite String.eqb_eq. naive_solver.
Qed.

Lemma check_metadata self expr :
  validate_check_expr_metadata self expr = Ok tt <->
  forall c, check_references_column expr c = true -> has_column self c = true.
Proof.
  assert (Hbase : forall c, (if has_column self c then Ok tt else Err (Storage ("unknown column in CHECK: " ++ c)%string)) = Ok tt <->
    forall c0, String.eqb c c0 = true -> has_column self c0 = true).
  { intros c. setoid_rewrite String.eqb_eq. destruct (has_column self c) eqn:E.
    - split; [by intros _ c0 <-|done].
    - split; [done|]. intros H. rewrite (H c eq_refl) in E. done. }
  induction expr as [| | | | | | | | | | | | | | | | | | | | | | | | | | | | | | | | | | | | | | | | |lhs IH1 rhs IH2|lhs IH1 rhs IH2|inner IH];
    cbn [validate_check_expr_metadata check_references_column check_column]; try apply Hbase; try apply IH;
    setoid_rewrite orb_true_iff; rewrite <- (bind_unit_Ok _ _), IH1, IH2; naive_solver.
Qed.

(** ** Valid constraints *)

Definition all_checks self : list CheckConstraint := flat_map column_checks (columns self) ++ checks self.

Definition foreign_key_ok self (fk : ForeignKey) : Prop :=
  fk_columns fk <> [] /\ (forall cols, ref_columns fk = Some cols -> length cols = length (fk_columns fk)) /\
  forall c, c ∈ fk_columns fk -> has_column self c = true.

Definition metadata_ok self : Prop :=
  (forall check c, check ∈ all_checks self -> check_references_column (check_expr check) c = true -> has_column self c = true) /\
  (forall fk, fk ∈ all_foreign_keys self -> foreign_key_ok self fk) /\
  (forall u, u ∈ unique_constraints self -> uq_columns u <> [] /\ forall c, c ∈ uq_columns u -> has_column self c = true).

Lemma require_columns_Ok self context cols :
  require_columns self context cols = Ok tt <-> forall c, c ∈ cols -> has_column self c = true.
Proof. unfold require_columns. rewrite each_res_Ok, Forall_forall. split; intros H c Hc; specialize (H c Hc); by destruct (has_column self c). Qed.

Lemma validate_foreign_key_Ok self fk : validate_foreign_key self fk = Ok tt <-> foreign_key_ok self fk.
Proof.
  unfold validate_foreign_key, foreign_key_ok. case_bool_decide as He; [naive_solver|].
  rewrite <- (bind_unit_Ok _ _ tt), require_columns_Ok. destruct (ref_columns fk) as [cols|]; [|naive_solver].
  destruct (Nat.eqb_spec (length cols) (length (fk_columns fk))); naive_solver.
Qed.

Lemma validate_unique_Ok self u :
  validate_unique_constraint self u = Ok tt <-> uq_columns u <> [] /\ forall c, c ∈ uq_columns u -> has_column self c = true.
Proof. unfold validate_unique_constraint. case_bool_decide; [naive_solver|]. rewrite require_columns_Ok. naive_solver. Qed.

Lemma elem_of_all_checks self check :
  check ∈ all_checks self <-> (exists column, column ∈ columns self /\ check ∈ column_checks column) \/ check ∈ checks self.
Proof. unfold all_checks. rewrite elem_of_app, (list_elem_of_In (flat_map _ _)), in_flat_map. setoid_rewrite <- list_elem_of_In. naive_solver. Qed.

Lemma metadata_Ok self : validate_constraints_metadata self = Ok tt <-> metadata_ok self.
Proof.
  unfold validate_constraints_metadata, metadata_ok. rewrite <- !(bind_unit_Ok _ _ tt), !each_res_Ok, !Forall_forall.
  setoid_rewrite each_res_Ok. setoid_rewrite Forall_forall. unfold validate_check_constraint_metadata.
  setoid_rewrite check_metadata. setoid_rewrite validate_foreign_key_Ok. setoid_rewrite validate_unique_Ok.
  setoid_rewrite elem_of_all_checks. naive_solver.
Qed.

(** A constraint of the table names the column [c]. *)
Definition mentioned self (c : string) : Prop :=
  (exists check, check ∈ all_checks self /\ check_references_column (check_expr check) c = true) \/
  (exists u, u ∈ unique_constraints self /\ c ∈ uq_columns u) \/
  (exists fk, fk ∈ all_foreign_keys self /\
     (c ∈ fk_columns fk \/ ref_table fk = schema_name self /\ has_referenced_column fk c = true)).

(** ** Renaming a column *)

Section Renaming.
Context (old_name new_name : string).
Abbreviation ren := (rename old_name new_name).

Lemma rename_twice c : ren (ren c) = ren c.
Proof. rewrite !rename_cases. repeat case_decide; congruence. Qed.

Lemma rename_ref_columns_twice fk :
  rename_ref_columns old_name new_name (rename_ref_columns old_name new_name fk) = rename_ref_columns old_name new_name fk.
Proof.
  destruct fk as [? ? ? refs]. unfold rename_ref_columns, with_ref_columns. cbn. f_equal. destruct refs as [cols|]; [|done]. cbn. f_equal.
  rewrite map_map. apply map_ext, rename_twice.
Qed.

(** What a rename of the table's column does to its foreign keys. *)
Definition renamed_fk self (fk : ForeignKey) : ForeignKey :=
  let fk := rename_fk_columns old_name new_name fk in
  if String.eqb (ref_table fk) (schema_name self) then rename_ref_columns old_name new_name fk else fk.

(** The schema [rename_column] stores for the table. *)
Definition renamed_schema self : Schema :=
  rename_foreign_key_ref_column (schema_name self) old_name new_name (rename_column_references old_name new_name self).

Lemma omap_foreign_key_map (f : ColumnDef -> ColumnDef) (g : ForeignKey -> ForeignKey) cols :
  (forall c, foreign_key (f c) = g <$> foreign_key c) ->
  omap foreign_key (map f cols) = map g (omap foreign_key cols).
Proof. intros Hf. induction cols as [|c cols IH]; [done|]. cbn. rewrite Hf. destruct (foreign_key c); cbn; by rewrite IH. Qed.

Lemma renamed_foreign_keys self : all_foreign_keys (renamed_schema self) = map (renamed_fk self) (all_foreign_keys self).
Proof.
  unfold all_foreign_keys, renamed_schema, rename_foreign_key_ref_column, rename_column_references, map_foreign_keys. cbn.
  rewrite map_app, !map_map. f_equal.
  - apply map_ext. intros fk. unfold renamed_fk. cbn. destruct (String.eqb (ref_table fk) (schema_name self)) eqn:E; cbn; rewrite E; [|done].
    apply rename_ref_columns_twice.
  - apply omap_foreign_key_map. intros c. cbn. by destruct (foreign_key c).
Qed.

Lemma renamed_columns self : map column_name (columns (renamed_schema self)) = map ren (map column_name (columns self)).
Proof. cbn. rewrite !map_map. by apply map_ext. Qed.

Lemma renamed_checks self : all_checks (renamed_schema self) = map (rename_check old_name new_name) (all_checks self).
Proof.
  unfold all_checks. cbn. rewrite map_app. f_equal. rewrite !flat_map_concat_map, concat_map, !map_map. done.
Qed.

Lemma has_column_renamed self c : has_column self c = true -> has_column (renamed_schema self) (ren c) = true.
Proof. rewrite !has_column_In, renamed_columns. intros H. by apply (list_elem_of_fmap_2 ren). Qed.

Lemma renamed_fk_ok self fk : foreign_key_ok self fk -> foreign_key_ok (renamed_schema self) (renamed_fk self fk).
Proof.
  intros (Hne & Hlen & Hcols).
  assert (Hfk : fk_columns (renamed_fk self fk) = map ren (fk_columns fk)) by (unfold renamed_fk; by case_match).
  assert (Hrefs : ref_columns (renamed_fk self fk) = ref_columns fk \/ ref_columns (renamed_fk self fk) = map ren <$> ref_columns fk).
  { unfold renamed_fk. case_match; auto. }
  split_and!.
  - rewrite Hfk. by destruct (fk_columns fk).
  - rewrite Hfk, length_map. intros cols Hc. destruct Hrefs as [Hr|Hr]; rewrite Hr in Hc; [by apply Hlen|].
    apply fmap_Some in Hc as (cols0 & Hc & ->). rewrite length_map. by apply Hlen.
  - rewrite Hfk. intros c (c0 & -> & Hc0)%list_elem_of_fmap. by apply has_column_renamed, Hcols.
Qed.

Lemma metadata_ok_renamed self : metadata_ok self -> metadata_ok (renamed_schema self).
Proof.
  intros (Hc & Hf & Hu). split_and!.
  - intros check c Hin Href. rewrite renamed_checks in Hin. apply list_elem_of_fmap in Hin as (check0 & -> & Hin). cbn in Href.
    apply references_map in Href as (c0 & Href & <-). by eapply has_column_renamed, Hc.
  - rewrite renamed_foreign_keys. intros fk (fk0 & -> & Hin)%list_elem_of_fmap. by apply renamed_fk_ok, Hf.
  - intros u Hin. cbn in Hin. apply list_elem_of_fmap in Hin as (u0 & -> & Hin). destruct (Hu u0 Hin) as [Hne Hcols]. cbn. split.
    + by destruct (uq_columns u0).
    + intros c (c0 & -> & Hc0)%list_elem_of_fmap. by apply has_column_renamed, Hcols.
Qed.

Lemma old_not_renamed c : old_name <> new_name -> ren c <> old_name.
Proof. rewrite rename_cases. case_decide; congruence. Qed.

Lemma not_mentioned_renamed self : old_name <> new_name -> ~ mentioned (renamed_schema self) old_name.
Proof.
  intros Hne.
  assert (Hmap : forall cols, old_name ∉ map ren cols).
  { intros cols (c & Hc & _)%list_elem_of_fmap. symmetry in Hc. by apply old_not_renamed in Hc. }
  intros [(check & Hin & Href)|[(u & Hin & Hu)|(fk & Hin & Hfk)]].
  - rewrite renamed_checks in Hin. apply list_elem_of_fmap in Hin as (check0 & -> & Hin).
    apply references_map in Href as (c & _ & Hc). by apply old_not_renamed in Hc.
  - cbn in Hin. apply list_elem_of_fmap in Hin as (u0 & -> & _). by apply Hmap in Hu.
  - rewrite renamed_foreign_keys in Hin. apply list_elem_of_fmap in Hin as (fk0 & -> & Hin).
    destruct Hfk as [Hfk|[Ht Hr]].
    + assert (Hfk0 : fk_columns (renamed_fk self fk0) = map ren (fk_columns fk0)) by (unfold renamed_fk; by case_match).
      rewrite Hfk0 in Hfk. by apply Hmap in Hfk.
    + assert (Ht0 : ref_table (renamed_fk self fk0) = ref_table fk0) by (unfold renamed_fk; by case_match).
      rewrite Ht0 in Ht. unfold renamed_fk in Hr. cbn in Ht, Hr. rewrite Ht, String.eqb_refl in Hr.
      unfold has_referenced_column in Hr. cbn in Hr. destruct (ref_columns fk0) as [cols|]; [|done].
      apply existsb_eqb in Hr. by apply Hmap in Hr.
Qed.
End Renaming.

(** ** Dropping a column *)

(** A generated column other than [c] uses the identifier [c]. *)
Definition generated_from self (c : string) : Prop :=
  exists column expr pre w post, column ∈ columns self /\ column_name column <> c /\ generated_expr column = Some expr /\
    word_at (string_bytes expr) pre w post /\ map ascii_lower w = map ascii_lower (string_bytes c).

Lemma generated_from_spec self c :
  existsb (fun column => negb (String.eqb (column_name column) c)
            && match generated_expr column with
               | Some expr => sql_expr_mentions_identifier expr c
               | None => false
               end) (columns self) = true <-> generated_from self c.
Proof.
  rewrite existsb_elem. unfold generated_from. setoid_rewrite andb_true_iff. setoid_rewrite negb_true_iff. setoid_rewrite String.eqb_neq. split.
  - intros (column & Hin & Hne & He). destruct (generated_expr column) as [expr|] eqn:E; [|done].
    apply mentions_spec in He as (pre & w & post & H1 & H2). by exists column, expr, pre, w, post.
  - intros (column & expr & pre & w & post & Hin & Hne & He & H1 & H2). exists column. split; [done|]. split; [done|]. rewrite He.
    apply mentions_spec. by exists pre, w, post.
Qed.

Lemma column_fk_exists (f : ForeignKey -> bool) self :
  existsb (fun column => match foreign_key column with Some fk => f fk | None => false end) (columns self) = true <->
  exists fk, fk ∈ omap foreign_key (columns self) /\ f fk = true.
Proof.
  rewrite existsb_elem. setoid_rewrite list_elem_of_omap. split.
  - intros (column & Hin & Hf). destruct (foreign_key column) as [fk|] eqn:E; [|done]. naive_solver.
  - intros (fk & (column & Hin & E) & Hf). exists column. by rewrite E.
Qed.

(** The four tests on constraints, in the order of the code, find every mention. *)
Lemma mentioned_tests self c :
  schema_name self <> "" ->
  let refs check := check_references_column (check_expr check) c in
  let self_reference fk := String.eqb (ref_table fk) (schema_name self) && has_referenced_column fk c in
  (existsb refs (checks self) || existsb (fun column => existsb refs (column_checks column)) (columns self) = true \/
   existsb (fun u => existsb (String.eqb c) (uq_columns u)) (unique_constraints self) = true \/
   existsb (fun fk => existsb (String.eqb c) (fk_columns fk)) (foreign_keys self)
     || existsb (fun column => match foreign_key column with
                               | Some fk => existsb (String.eqb c) (fk_columns fk)
                               | None => false
                               end) (columns self) = true \/
   negb (String.eqb (schema_name self) "") && existsb self_reference (foreign_keys self)
     || existsb (fun column => match foreign_key column with Some fk => self_reference fk | None => false end) (columns self) = true)
  <-> mentioned self c.
Proof.
  intros Hname%String.eqb_neq refs self_reference. rewrite Hname. cbn [negb andb].
  rewrite !orb_true_iff, !column_fk_exists, !existsb_elem. setoid_rewrite existsb_elem. unfold self_reference, refs.
  setoid_rewrite String.eqb_eq. setoid_rewrite andb_true_iff. setoid_rewrite String.eqb_eq.
  unfold mentioned, all_foreign_keys. setoid_rewrite elem_of_all_checks. setoid_rewrite elem_of_app. naive_solver.
Qed.

Lemma column_position_Some name cols i :
  column_position name cols = Some i <->
  exists c, cols !! i = Some c /\ column_name c = name /\ forall j c', (j < i)%nat -> cols !! j = Some c' -> column_name c' <> name.
Proof.
  unfold column_position. split.
  - intros ([j c] & Hf & Hj)%fmap_Some. cbn in Hj. subst j. apply list_find_Some in Hf as (H1 & H2 & H3). exists c. naive_solver.
  - intros (c & H1 & H2 & H3). apply fmap_Some. exists (i, c). split; [|done]. apply list_find_Some. naive_solver.
Qed.

Lemma delete_keeps cols i c name :
  cols !! i = Some c -> column_name c <> name -> name ∈ map column_name cols -> name ∈ map column_name (delete i cols).
Proof.
  intros Hi Hne (c' & -> & Hin)%list_elem_of_fmap. apply list_elem_of_fmap_2. apply list_elem_of_lookup in Hin as [j Hj].
  apply list_elem_of_lookup. destruct (decide (j < i)%nat) as [Hlt|Hge].
  - exists j. by rewrite list_lookup_delete_lt.
  - destruct j as [|j].
    + assert (i = O) as -> by lia. congruence.
    + exists j. rewrite list_lookup_delete_ge; [done|]. assert (i <> S j) by (intros ->; congruence). lia.
Qed.

Section Dropped.
Context (self : Schema) (i : nat).
Let updated : Schema := with_columns (delete i (columns self)) self.

Lemma delete_column_elem column : column ∈ delete i (columns self) -> column ∈ columns self.
Proof. apply list_elem_of_delete_inv. Qed.

Lemma updated_checks check : check ∈ all_checks updated -> check ∈ all_checks self.
Proof. rewrite !elem_of_all_checks. cbn. intros [(column & ?%delete_column_elem & ?)|?]; eauto. Qed.

Lemma updated_foreign_keys fk : fk ∈ all_foreign_keys updated -> fk ∈ all_foreign_keys self.
Proof.
  unfold all_foreign_keys. cbn. rewrite !elem_of_app, !list_elem_of_omap.
  intros [?|(column & ?%delete_column_elem & ?)]; eauto.
Qed.

Lemma updated_mentioned c : mentioned updated c -> mentioned self c.
Proof.
  intros [(check & ?%updated_checks & ?)|[(u & ? & ?)|(fk & ?%updated_foreign_keys & ?)]]; [left|right; left|right; right]; eauto.
Qed.

Lemma updated_metadata c name :
  columns self !! i = Some c -> column_name c = name -> ~ mentioned self name -> metadata_ok self -> metadata_ok updated.
Proof.
  intros Hi Hname Hno (Hc & Hf & Hu).
  assert (Hkeep : forall c0, c0 <> name -> has_column self c0 = true -> has_column updated c0 = true).
  { intros c0 Hne. rewrite !has_column_In. cbn. apply (delete_keeps _ _ c); [done|congruence]. }
  split_and!.
  - intros check c0 Hin%updated_checks Href. apply Hkeep; [|by eapply Hc]. intros ->. apply Hno. left. eauto.
  - intros fk Hin%updated_foreign_keys. destruct (Hf fk Hin) as (H1 & H2 & H3). split_and!; [done..|]. intros c0 Hc0.
    apply Hkeep; [|by apply H3]. intros ->. apply Hno. right; right. eauto.
  - intros u Hin. destruct (Hu u Hin) as [H1 H2]. split; [done|]. intros c0 Hc0.
    apply Hkeep; [|by apply H2]. intros ->. apply Hno. right; left. eauto.
Qed.
End Dropped.

(** When a column can be dropped. *)
Definition droppable self (name : string) : Prop :=
  exists i c, column_position name (columns self) = Some i /\ columns self !! i = Some c /\ primary_key c = false /\
    length (columns self) <> 1%nat /\ ~ generated_from self name /\ ~ mentioned self name.

Lemma drop_column_inv self name s' i :
  schema_name self <> "" -> drop_column name self = Ok (s', i) ->
  droppable self name /\ column_position name (columns self) = Some i /\
  s' = with_columns (delete i (columns self)) self /\ validate_constraints_metadata s' = Ok tt.
Proof.
  intros Hname. unfold drop_column. destruct (column_position name (columns self)) as [j|] eqn:Ej; cbn [ok_or bind]; [|done].
  unfold vec_index. destruct (columns self !! j) as [c|] eqn:Ec; cbn [bind]; [|done].
  destruct (Nat.eqb_spec (length (columns self)) 1) as [|Hlen]; [done|]. destruct (primary_key c) eqn:Epk; [done|].
  pose proof (generated_from_spec self name) as Hgen. pose proof (mentioned_tests self name Hname) as Hm. cbv zeta in Hm.
  repeat match goal with |- context [if ?b then Err _ else _] => destruct b; [done|] end.
  intros H. apply bind_Ok_inv in H as ([] & Hv & [= <- <-]). split; [|done]. exists j, c. split_and!; try done.
  - by intros H%Hgen.
  - intros H%Hm. naive_solver.
Qed.

Lemma drop_column_run self name i c :
  schema_name self <> "" -> validate_constraints_metadata self = Ok tt ->
  column_position name (columns self) = Some i -> columns self !! i = Some c -> primary_key c = false ->
  length (columns self) <> 1%nat -> ~ generated_from self name -> ~ mentioned self name ->
  drop_column name self = Ok (with_columns (delete i (columns self)) self, i).
Proof.
  intros Hname Hv Hi Hc Hpk Hlen Hgen Hm. unfold drop_column. rewrite Hi. cbn [ok_or bind]. unfold vec_index. rewrite Hc. cbn [bind].
  apply Nat.eqb_neq in Hlen. rewrite Hlen, Hpk.
  rewrite <- generated_from_spec, not_true_iff_false in Hgen. rewrite Hgen.
  rewrite <- mentioned_tests in Hm by done. cbv zeta in Hm.
  repeat match goal with |- context [if ?b then Err _ else _] => replace b with false by (symmetry; apply not_true_iff_false; tauto) end.
  replace (validate_constraints_metadata (with_columns (delete i (columns self)) self)) with (Ok tt); [done|].
  symmetry. apply metadata_Ok. apply column_position_Some in Hi as (c' & Hc' & Hn & _). apply metadata_Ok in Hv.
  by eapply (updated_metadata self i c' name); [|..|rewrite <- mentioned_tests|].
Qed.

(** ** Row checks *)

(** The values a column takes. *)
Definition value_fits self (column : ColumnDef) (value : Value) : Prop :=
  match value with
  | Null => (strict self = false /\ primary_key column = true /\ column_type column = CtInteger /\
             primary_key_sort_order column = Some Desc) \/
            (primary_key column = false /\ nullable column = true)
  | _ => matches_value (column_type column) value = true
  end.

Lemma validate_column_value_Ok self column value :
  validate_column_value self column value = Ok tt <-> value_fits self column value.
Proof.
  destruct value; cbn [validate_column_value value_fits]; try (by destruct (matches_value _ _)).
  destruct (strict self), (primary_key column), (nullable column), (column_type column), (primary_key_sort_order column) as [[]|]; cbn;
    naive_solver.
Qed.

Lemma validate_column_value_returns self column value : returns (validate_column_value self column value).
Proof. destruct value; cbn [validate_column_value]; repeat case_match; done. Qed.

(** The columns of the primary key with their positions, and a row's values for them. *)
Definition primary_key_columns self : list (nat * ColumnDef) := filter (fun ic => primary_key ic.2) (imap pair (columns self)).
Definition key_of self (row : Row) : list (option Value) := map (fun ic => row !! ic.1) (primary_key_columns self).

Lemma primary_key_position self i c : (i, c) ∈ primary_key_columns self -> (i < length (columns self))%nat.
Proof.
  unfold primary_key_columns. intros [_ Hin]%list_elem_of_filter. apply elem_of_lookup_imap in Hin as (j & x & [= -> ->] & Hj).
  by eapply lookup_lt_Some.
Qed.

Lemma same_key self row1 row2 :
  forallb (fun ic : nat * ColumnDef => bool_decide (row1 !! ic.1 = row2 !! ic.1)) (primary_key_columns self) = true <->
  key_of self row1 = key_of self row2.
Proof.
  unfold key_of. induction (primary_key_columns self) as [|ic l IH]; [done|]. cbn [forallb map].
  rewrite andb_true_iff, bool_decide_eq_true, IH. split; [by intros [-> ->]|]. by intros [= -> ->].
Qed.

Lemma primary_key_values self row :
  (length (columns self) <= length row)%nat ->
  exists key : list Value, mapM_res (fun ic : nat * ColumnDef => vec_index row ic.1) (primary_key_columns self) = Ok key.
Proof.
  intros Hlen. eexists. apply (mapM_res_ok _ (fun ic => default Null (row !! ic.1))). intros [i c] Hin.
  apply primary_key_position in Hin. unfold vec_index. cbn. by destruct (lookup_lt_is_Some_2 row i ltac:(lia)) as [v ->].
Qed.

(** ** Theorems *)


(** C39: dropping a column of a named table with valid constraints. It succeeds exactly
    when the table has the column and others too, the column is not in the primary key, no
    generated column uses its name as an identifier, and no constraint mentions it. It then
    removes the first column of that name and nothing else, and the constraints that are
    left are valid and do not mention it. *)
Theorem drop_column_correct self (name : string) :
  schema_name self <> "" -> validate_constraints_metadata self = Ok tt ->
  (is_ok (drop_column name self) = true <-> droppable self name) /\
  forall self' i, drop_column name self = Ok (self', i) ->
    self' = with_columns (delete i (columns self)) self /\ column_position name (columns self) = Some i /\
    validate_constraints_metadata self' = Ok tt /\ ~ mentioned self' name.
Proof.
  intros Hname Hv. split.
  - split.
    + destruct (drop_column name self) as [[self' i]| | |] eqn:E; try done. by apply drop_column_inv in E as [H _].
    + intros (i & c & H1 & H2 & H3 & H4 & H5 & H6). by rewrite (drop_column_run self name i c).
  - intros self' i (Hd & Hi & -> & Hv')%drop_column_inv; [|done]. split_and!; try done.
    intros H%updated_mentioned. by destruct Hd as (? & ? & _ & _ & _ & _ & _ & Hno).
Qed.

(** The type check of rows. A row is accepted exactly when it has a value for each
    column and each fits its column: a null where the column is nullable and not in the
    primary key (or is a descending integer primary key of a table that is not strict),
    any other value where the column's type admits it. Otherwise the error is that of the
    first value that does not fit. *)
Theorem validate_row_values_correct self (row : Row) :
  (validate_row_values self row = Ok tt <-> Forall2 (value_fits self) (columns self) row) /\
  returns (validate_row_values self row) /\
  (length row = length (columns self) -> forall e, validate_row_values self row = Err e ->
     exists i column value, columns self !! i = Some column /\ row !! i = Some value /\
       validate_column_value self column value = Err e /\
       forall j c v, (j < i)%nat -> columns self !! j = Some c -> row !! j = Some v -> value_fits self c v).
Proof.
  unfold validate_row_values. destruct (Nat.eqb_spec (length row) (length (columns self))) as [Hl|Hl]; cbn [negb].
  2:{ split; [|split; [done|done]]. split; [done|]. intros H%Forall2_length. lia. }
  split_and!.
  - rewrite each_res_Ok, <- Forall_zip_with by done. apply Forall_proper; [|done]. intros [c v]. apply validate_column_value_Ok.
  - apply each_res_returns. intros [c v]. apply validate_column_value_returns.
  - intros _ e (l1 & [column value] & l2 & Hz & Hl1 & He)%each_res_first. exists (length l1), column, value.
    assert (Hat : zip (columns self) row !! length l1 = Some (column, value)) by (rewrite Hz; by apply list_lookup_middle).
    apply lookup_zip_with_Some in Hat as (c & v & [= <- <-] & Hc & Hv). split_and!; [done..|].
    intros j c v Hj Hcj Hvj. apply validate_column_value_Ok.
    assert (Hz2 : zip (columns self) row !! j = Some (c, v)) by (apply lookup_zip_with_Some; eauto).
    rewrite Hz, lookup_app_l in Hz2 by done. rewrite Forall_forall in Hl1. by apply list_elem_of_lookup_2, Hl1 in Hz2.
Qed.

(** Uniqueness of primary keys. For a row at least as long as the schema, the check
    returns; it passes exactly when the schema has no primary key column or no existing row
    agrees with the new one on all of them. *)
Theorem primary_key_uniqueness_correct (show : Value -> string) (debug : list Value -> string) self
    (row : Row) (existing_rows : list Row) :
  (length (columns self) <= length row)%nat ->
  returns (validate_primary_key_uniqueness show debug self row existing_rows) /\
  (validate_primary_key_uniqueness show debug self row existing_rows = Ok tt <->
   primary_key_columns self = [] \/ forall r, r ∈ existing_rows -> key_of self r <> key_of self row).
Proof.
  intros Hlen. unfold validate_primary_key_uniqueness. fold (primary_key_columns self).
  destruct (primary_key_values self row Hlen) as [key ->]. cbn [bind].
  case_bool_decide as Hpk; [by split; [|split; [left|]]|].
  match goal with |- context [if existsb ?f existing_rows then _ else _] => destruct (existsb f existing_rows) eqn:E end.
  - apply existsb_elem in E as (r & Hr & Hk). apply same_key in Hk.
    split; [by repeat case_match|]. split; [by repeat case_match|]. intros [?|Hno]; [done|]. by apply Hno in Hr.
  - split; [done|]. split; [|done]. intros _. right. intros r Hr Hk. apply same_key in Hk.
    assert (Hf : forall r, r ∈ existing_rows -> _) by (apply existsb_none; exact E). by rewrite (Hf r Hr) in Hk.
Qed.
End Schemas.

(** ** Witnesses *)

Definition sample_column (name : string) (t : ColumnType) (pk : bool) : ColumnDef :=
  mkColumnDef name t None None (negb pk) None None pk None None None false None None false None None false false false [] None.

(** A table with a key, a column under a check, and a third one. *)
Definition sample_schema : Schema unit :=
  mkSchema unit "t" [sample_column "id" CtInteger true; sample_column "n" CtInteger false; sample_column "m" CtText false]
    ObjTable None None None [mkCheckConstraint "positive" true (CkCompare "n" CkOpGt (Integer 0))] [] None [] [OrderCheck 0] false false.


Lemma drop_column_correct_witness :
  (is_ok (drop_column "m" sample_schema) = true <-> droppable sample_schema "m") /\
  forall self' i, drop_column "m" sample_schema = Ok (self', i) ->
    self' = with_columns (delete i (columns sample_schema)) sample_schema /\ column_position "m" (columns sample_schema) = Some i /\
    validate_constraints_metadata self' = Ok tt /\ ~ mentioned self' "m".
Proof. apply (drop_column_correct sample_schema "m"); [discriminate|reflexivity]. Defined.

Example drop_m : is_ok (drop_column "m" sample_schema) = true /\ is_ok (drop_column "n" sample_schema) = false.
Proof. by split. Qed.

Lemma validate_row_values_correct_witness :
  let row := [Integer 1; Text "x"; Null] in
  (validate_row_values sample_schema row = Ok tt <-> Forall2 (value_fits sample_schema) (columns sample_schema) row) /\
  returns (validate_row_values sample_schema row) /\
  (length row = length (columns sample_schema) -> forall e, validate_row_values sample_schema row = Err e ->
     exists i column value, columns sample_schema !! i = Some column /\ row !! i = Some value /\
       validate_column_value sample_schema column value = Err e /\
       forall j c v, (j < i)%nat -> columns sample_schema !! j = Some c -> row !! j = Some v -> value_fits sample_schema c v).
Proof. apply (validate_row_values_correct sample_schema [Integer 1; Text "x"; Null]). Defined.

Lemma primary_key_uniqueness_correct_witness :
  returns (validate_primary_key_uniqueness (fun _ => "") (fun _ => "") sample_schema [Integer 1; Null; Null] [[Integer 1; Null; Null]]) /\
  (validate_primary_key_uniqueness (fun _ => "") (fun _ => "") sample_schema [Integer 1; Null; Null] [[Integer 1; Null; Null]] = Ok tt <->
   primary_key_columns sample_schema = [] \/
   forall r, r ∈ [[Integer 1; Null; Null]] -> key_of sample_schema r <> key_of sample_schema [Integer 1; Null; Null]).
Proof.
  apply (primary_key_uniqueness_correct (fun _ => "") (fun _ => "") sample_schema [Integer 1; Null; Null] [[Integer 1; Null; Null]]).
  cbn. lia.
Defined.
