(* ===== verification/Ast.v ===== *)
(** * SQL syntax trees: [src/sql/ast.rs]

    The trees that [sql/parser.rs] builds. The structs of expressions and queries are
    inductive types of one constructor, since they refer to one another; constructors of
    the enums have the source's names behind a prefix for their type. An [f64] in a window
    frame is its bits, as in the code. *)

From S2P Require Import Prelude Types Schema.

Definition SINGLE_ROW_SOURCE_TABLE : string := "__rustsql_single_row__".

Inductive CompoundOperator := CompoundUnion | CompoundUnionAll | CompoundIntersect | CompoundExcept.
Inductive TableIndexHint := IndexedBy (index : string) | NotIndexed.
Inductive JoinKind := JoinInner | JoinLeft | JoinRight | JoinFull.
Inductive NullOrder := NullsFirst | NullsLast.
Inductive IsolationLevel := ReadCommitted | RepeatableRead | Serializable.
Inductive CompareOp := OpEq | OpNe | OpGt | OpGte | OpLt | OpLte.

#[export] Instance IsolationLevel_eq_dec : EqDecision IsolationLevel.
Proof. solve_decision. Defined.
#[export] Instance CompareOp_eq_dec : EqDecision CompareOp.
Proof. solve_decision. Defined.

Inductive AggregateFunc :=
  | AggCount | AggSum | AggDecimalSum | AggAvg | AggTotal | AggMedian | AggPercentile | AggPercentileCont
  | AggPercentileDisc | AggGroupConcat | AggJsonGroupArray | AggJsonbGroupArray | AggJsonGroupObject
  | AggJsonbGroupObject | AggMin | AggMax.

Inductive ScalarBinaryOp :=
  | OpAdd | OpSubtract | OpMultiply | OpDivide | OpModulo | OpBitAnd | OpBitOr | OpShiftLeft | OpShiftRight
  | OpConcat | OpJsonExtract | OpJsonExtractText.

Inductive WindowFunc :=
  | WinRowNumber | WinRank | WinDenseRank | WinLag | WinLead | WinNtile | WinPercentRank | WinCumeDist
  | WinFirstValue | WinLastValue | WinNthValue | WinCount | WinSum | WinAvg | WinTotal | WinMin | WinMax
  | WinGroupConcat | WinJsonGroupArray | WinJsonGroupObject.

(** [WindowRangeOffset]: the bits of the offset. *)
Abbreviation WindowRangeOffset := Z (only parsing).

Inductive WindowFrame :=
  | FrameDefault
  | RangePrecedingToCurrentRow (offset : WindowRangeOffset)
  | RangePrecedingToPreceding (start end_ : WindowRangeOffset)
  | RangePrecedingToFollowing (preceding following : WindowRangeOffset)
  | RangePrecedingToUnboundedFollowing (offset : WindowRangeOffset)
  | RangeUnboundedPrecedingToPreceding (offset : WindowRangeOffset)
  | RangeUnboundedPrecedingToFollowing (offset : WindowRangeOffset)
  | RangeCurrentRowToFollowing (offset : WindowRangeOffset)
  | RangeFollowingToFollowing (start end_ : WindowRangeOffset)
  | RangeFollowingToUnboundedFollowing (offset : WindowRangeOffset)
  | GroupsPrecedingToCurrentRow (n : Z)
  | GroupsPrecedingToPreceding (start end_ : Z)
  | GroupsPrecedingToFollowing (preceding following : Z)
  | GroupsPrecedingToUnboundedFollowing (n : Z)
  | GroupsCurrentRow
  | GroupsCurrentRowToFollowing (n : Z)
  | GroupsCurrentRowToUnboundedFollowing
  | GroupsFollowingToFollowing (start end_ : Z)
  | GroupsFollowingToUnboundedFollowing (n : Z)
  | GroupsUnboundedPrecedingToCurrentRow
  | GroupsUnboundedPrecedingAndFollowing
  | RowsPrecedingToCurrentRow (n : Z)
  | RowsPrecedingToPreceding (start end_ : Z)
  | RowsPrecedingToFollowing (preceding following : Z)
  | RowsPrecedingToUnboundedFollowing (n : Z)
  | RowsCurrentRow
  | RowsCurrentRowToFollowing (n : Z)
  | RowsCurrentRowToUnboundedFollowing
  | RowsFollowingToFollowing (start end_ : Z)
  | RowsFollowingToUnboundedFollowing (n : Z)
  | RowsUnboundedPrecedingToCurrentRow
  | RowsUnboundedPrecedingAndFollowing.

Inductive WindowExclude := ExcludeNoOthers | ExcludeCurrentRow | ExcludeGroup | ExcludeTies.

(** [frame == WindowFrame::Default], [exclude == WindowExclude::NoOthers]. *)
Definition frame_is_default (f : WindowFrame) : bool := match f with FrameDefault => true | _ => false end.
Definition excludes_no_others (e : WindowExclude) : bool := match e with ExcludeNoOthers => true | _ => false end.

Inductive ScalarFunc :=
  | FnLength | FnOctetLength | FnMinScalar | FnMaxScalar | FnDate | FnTime | FnDateTime | FnTimeDiff | FnStrftime
  | FnJulianDay | FnUnixEpoch | FnChanges | FnTotalChanges | FnPrintf | FnIIf | FnIf | FnConcat | FnConcatWs
  | FnLikely | FnUnlikely | FnSqliteVersion | FnSqliteSourceId | FnSqliteCompileOptionUsed
  | FnSqliteCompileOptionGet | FnSqliteLog | FnSign | FnRandomBlob | FnRandom | FnUnhex | FnUnistr | FnUnistrQuote
  | FnLikelihood | FnMod | FnCeil | FnCeiling | FnFloor | FnTrunc | FnPi | FnSqrt | FnPower | FnExp | FnSin | FnCos
  | FnTan | FnSinh | FnCosh | FnTanh | FnAcos | FnAsin | FnAtan | FnAtan2 | FnAcosh | FnAsinh | FnAtanh | FnLn
  | FnLog10 | FnLog2 | FnLog | FnDegrees | FnRadians | FnTypeOf | FnSubtype | FnHex | FnSubstr | FnInstr | FnReplace
  | FnLikeFunc | FnGlobFunc | FnRegexpFunc | FnMatchFunc | FnQuote | FnUnicode | FnChar | FnZeroBlob | FnTrim
  | FnLTrim | FnRTrim | FnLower | FnUpper | FnAbs | FnRound | FnCoalesce | FnIfNull | FnNullIf | FnUnknown | FnJson
  | FnJsonb | FnJsonValid | FnJsonErrorPosition | FnJsonPretty | FnJsonQuote | FnJsonExtract | FnJsonbExtract
  | FnJsonType | FnJsonArray | FnJsonbArray | FnJsonObject | FnJsonbObject | FnJsonArrayLength | FnJsonRemove
  | FnJsonbRemove | FnJsonSet | FnJsonbSet | FnJsonInsert | FnJsonbInsert | FnJsonReplace | FnJsonbReplace
  | FnJsonPatch | FnJsonbPatch | FnLastInsertRowId.

(** [ScalarExpr] with prefix [S], [Expr] with prefix [E]. *)
Inductive ScalarExpr :=
  | SLiteral (value : Value)
  | SColumn (name : string)
  | STuple (values : list ScalarExpr)
  | SUnaryPlus (expr : ScalarExpr)
  | SUnaryMinus (expr : ScalarExpr)
  | SBitNot (expr : ScalarExpr)
  | SNot (expr : ScalarExpr)
  | SCast (expr : ScalarExpr) (ty : ColumnType)
  | SCollate (expr : ScalarExpr) (collation : string)
  | SIs (left right : ScalarExpr) (negated : bool)
  | SIsBool (expr : ScalarExpr) (value negated : bool)
  | SInList (expr : ScalarExpr) (values : list ScalarExpr) (negated : bool)
  | SInSubquery (expr : ScalarExpr) (query : SelectStatement) (negated : bool)
  | SSubquery (query : SelectStatement)
  | SLike (expr pattern : ScalarExpr) (escape : option ScalarExpr) (negated : bool)
  | SGlob (expr pattern : ScalarExpr) (negated : bool)
  | SBetween (expr low high : ScalarExpr) (negated : bool)
  | SCompare (left : ScalarExpr) (op : CompareOp) (right : ScalarExpr)
  | SCompareSubquery (left : ScalarExpr) (op : CompareOp) (query : SelectStatement)
  | SCase (base : option ScalarExpr) (when_then_clauses : list (ScalarExpr * ScalarExpr)) (else_expr : option ScalarExpr)
  | SBinary (left : ScalarExpr) (op : ScalarBinaryOp) (right : ScalarExpr)
  | SFunction (func : ScalarFunc) (args : list ScalarExpr)
  | SWindowFunction (func : WindowFunc) (args partition_by : list ScalarExpr) (order_by : list OrderBy)
      (frame : WindowFrame) (exclude : WindowExclude) (window_name : option string) (filter : option Expr)
  | SAggregate (func : AggregateFunc) (arg : AggregateArg) (filter : option Expr)
with AggregateArg :=
  | ArgWildcard
  | ArgExpr (expr : ScalarExpr) (distinct : bool) (order_by : list OrderBy)
  | ArgGroupConcat (expr : ScalarExpr) (separator : option ScalarExpr) (distinct : bool) (order_by : list OrderBy)
  | ArgJsonGroupObject (key value : ScalarExpr) (order_by : list OrderBy)
  | ArgPercentile (expr fraction : ScalarExpr) (order_by : list OrderBy)
with OrderBy :=
  | mkOrderBy (expr : OrderByExpr) (collation : option string) (descending : bool) (nulls : option NullOrder)
with OrderByExpr :=
  | ByColumn (name : string)
  | ByPosition (n : Z)
  | ByExpr (expr : ScalarExpr)
with Expr :=
  | ECompare (column : string) (op : CompareOp) (value : Value)
  | ECompareColumns (left : string) (op : CompareOp) (right : string)
  | ECompareScalar (left : ScalarExpr) (op : CompareOp) (right : ScalarExpr)
  | EIsNull (column : string) (negated : bool)
  | EIsNullScalar (expr : ScalarExpr) (negated : bool)
  | EIs (left right : ScalarExpr) (negated : bool)
  | EIsBool (expr : ScalarExpr) (value negated explicit : bool)
  | EInSubquery (column : string) (query : SelectStatement) (negated : bool)
  | EInList (column : string) (values : list Value) (negated : bool)
  | EInSubqueryScalar (expr : ScalarExpr) (query : SelectStatement) (negated : bool)
  | EInListScalar (expr : ScalarExpr) (values : list ScalarExpr) (negated : bool)
  | ECompareSubquery (column : string) (op : CompareOp) (query : SelectStatement)
  | ECompareSubqueryScalar (left : ScalarExpr) (op : CompareOp) (query : SelectStatement)
  | EExistsSubquery (query : SelectStatement) (negated : bool)
  | ELike (column : string) (pattern : ScalarExpr) (escape : option ScalarExpr) (negated : bool)
  | ELikeScalar (expr pattern : ScalarExpr) (escape : option ScalarExpr) (negated : bool)
  | EGlob (column : string) (pattern : ScalarExpr) (negated : bool)
  | EGlobScalar (expr pattern : ScalarExpr) (negated : bool)
  | EBetween (column : string) (low high : Value) (negated : bool)
  | EBetweenScalar (expr low high : ScalarExpr) (negated : bool)
  | ENot (expr : Expr)
  | EAnd (left right : Expr)
  | EOr (left right : Expr)
with SelectItem :=
  | ItemWildcard
  | ItemColumn (name : string)
  | ItemAliasedColumn (name alias : string)
  | ItemExpr (expr : ScalarExpr) (alias : option string)
  | ItemAggregate (func : AggregateFunc) (arg : AggregateArg) (filter : option Expr) (alias : option string)
with FromItem :=
  | FromTable (name : string) (schema alias : option string)
  | FromTableIndexed (name : string) (schema alias : option string) (index : string)
  | FromTableNotIndexed (name : string) (schema alias : option string)
  | FromSubquery (query : SelectStatement) (alias : string) (columns : option (list string))
  | FromValues (rows : list (list ScalarExpr)) (alias : option string) (columns : option (list string))
  | FromPragmaTableFunction (name : string) (argument alias : option string)
with JoinClause :=
  | mkJoinClause (kind : JoinKind) (source : FromItem) (on : Expr) (using_columns : list string) (natural : bool)
with CteBody :=
  | CteSelect (select : SelectStatement)
  | CteValues (rows : list (list ScalarExpr))
with CommonTableExpr :=
  | mkCommonTableExpr (name : string) (columns : option (list string)) (query : CteBody)
with WithClause :=
  | mkWithClause (recursive : bool) (ctes : list CommonTableExpr)
with CompoundSelect :=
  | mkCompoundSelect (operator : CompoundOperator) (select : SelectStatement)
with SelectStatement :=
  | mkSelectStatement (with_ : option WithClause) (distinct : bool) (columns : list SelectItem) (from : FromItem)
      (joins : list JoinClause) (filter : option Expr) (group_by : list ScalarExpr) (having : option Expr)
      (compounds : list CompoundSelect) (order_by : list OrderBy) (limit offset : option Z).

(** [select.compounds = ...], and the clauses after the last part of a compound. *)
Definition with_compounds (x : list CompoundSelect) (s : SelectStatement) : SelectStatement :=
  match s with
  | mkSelectStatement w d cs f js fl g h _ o l off => mkSelectStatement w d cs f js fl g h x o l off
  end.
Definition with_order_and_limit (order_by : list OrderBy) (limit offset : option Z) (s : SelectStatement) : SelectStatement :=
  match s with
  | mkSelectStatement w d cs f js fl g h c _ _ _ => mkSelectStatement w d cs f js fl g h c order_by limit offset
  end.

(** ** Statements *)

Record Assignment := mkAssignment { assigned_column : string; assigned_value : ScalarExpr }.
Record UpsertClause := mkUpsertClause {
  upsert_target : option (list string);
  upsert_assignments : list Assignment;
  upsert_filter : option Expr
}.

Inductive AlterTableAction :=
  | AddColumn (column : ColumnDef)
  | RenameTable (new_name : string)
  | RenameColumn (old_name new_name : string)
  | DropColumn (old_name : string).

Inductive TableConstraint :=
  | TableCheck (check : CheckConstraint)
  | TableForeignKey (foreign_key : ForeignKey)
  | TablePrimaryKey (primary_key : PrimaryKeyConstraint)
  | TableUnique (unique : UniqueConstraint).

(** [Statement] with prefix [St]. *)
Inductive Statement :=
  | StWithDml (with_ : WithClause) (statement : Statement)
  | StCreateTable (name : string) (columns : list ColumnDef) (constraints : list TableConstraint)
      (strict without_rowid if_not_exists temporary : bool)
  | StCreateTableAs (name : string) (if_not_exists : bool) (select : SelectStatement) (temporary : bool)
  | StCreateTableAsValues (name : string) (if_not_exists : bool) (with_ : option WithClause) (rows : list
      (list ScalarExpr)) (temporary : bool)
  | StCreateView (name : string) (columns : option (list string)) (if_not_exists : bool) (select : SelectStatement)
      (temporary : bool)
  | StCreateIndex (name : string) (schema : option string) (table : string) (columns : list string)
      (decorated_columns : option (list string)) (unique : bool) (predicate : option string) (if_not_exists : bool)
  | StCreateTrigger (name : string) (schema : option string) (table sql : string) (if_not_exists : bool)
  | StDropTable (name : string) (schema : option string) (if_exists : bool)
  | StDropView (name : string) (schema : option string) (if_exists : bool)
  | StDropIndex (name : string) (schema : option string) (if_exists : bool)
  | StDropTrigger (name : string) (schema : option string) (if_exists : bool)
  | StAlterTable (table : string) (schema : option string) (action : AlterTableAction)
  | StInsert (table : string) (columns : option (list string)) (or_conflict : option string) (values : list Value)
  | StInsertReturning (table : string) (columns : option (list string)) (or_conflict : option string)
      (values : list Value) (returning : list SelectItem)
  | StInsertUpsert (table : string) (columns : option (list string)) (values : list Value) (upsert : UpsertClause)
  | StInsertUpsertReturning (table : string) (columns : option (list string)) (values : list Value)
      (upsert : UpsertClause) (returning : list SelectItem)
  | StInsertMany (table : string) (columns : option (list string)) (or_conflict : option string) (rows : list
      (list Value))
  | StInsertManyReturning (table : string) (columns : option (list string)) (or_conflict : option string)
      (rows : list (list Value)) (returning : list SelectItem)
  | StInsertManyUpsert (table : string) (columns : option (list string)) (rows : list (list Value))
      (upsert : UpsertClause)
  | StInsertManyUpsertReturning (table : string) (columns : option (list string)) (rows : list (list Value))
      (upsert : UpsertClause) (returning : list SelectItem)
  | StInsertDoNothing (table : string) (columns target : option (list string)) (values : list Value)
  | StInsertDoNothingReturning (table : string) (columns target : option (list string)) (values : list Value)
      (returning : list SelectItem)
  | StInsertManyDoNothing (table : string) (columns target : option (list string)) (rows : list (list Value))
  | StInsertManyDoNothingReturning (table : string) (columns target : option (list string)) (rows : list
      (list Value)) (returning : list SelectItem)
  | StInsertExpr (table : string) (columns : option (list string)) (or_conflict : option string)
      (values : list ScalarExpr)
  | StInsertExprReturning (table : string) (columns : option (list string)) (or_conflict : option string)
      (values : list ScalarExpr) (returning : list SelectItem)
  | StInsertExprUpsert (table : string) (columns : option (list string)) (values : list ScalarExpr)
      (upsert : UpsertClause)
  | StInsertExprUpsertReturning (table : string) (columns : option (list string)) (values : list ScalarExpr)
      (upsert : UpsertClause) (returning : list SelectItem)
  | StInsertManyExpr (table : string) (columns : option (list string)) (or_conflict : option string) (rows : list
      (list ScalarExpr))
  | StInsertManyExprReturning (table : string) (columns : option (list string)) (or_conflict : option string)
      (rows : list (list ScalarExpr)) (returning : list SelectItem)
  | StInsertManyExprUpsert (table : string) (columns : option (list string)) (rows : list (list ScalarExpr))
      (upsert : UpsertClause)
  | StInsertManyExprUpsertReturning (table : string) (columns : option (list string)) (rows : list
      (list ScalarExpr)) (upsert : UpsertClause) (returning : list SelectItem)
  | StInsertExprDoNothing (table : string) (columns target : option (list string)) (values : list ScalarExpr)
  | StInsertExprDoNothingReturning (table : string) (columns target : option (list string))
      (values : list ScalarExpr) (returning : list SelectItem)
  | StInsertManyExprDoNothing (table : string) (columns target : option (list string)) (rows : list (list ScalarExpr))
  | StInsertManyExprDoNothingReturning (table : string) (columns target : option (list string)) (rows : list
      (list ScalarExpr)) (returning : list SelectItem)
  | StInsertSelect (table : string) (columns : option (list string)) (or_conflict : option string)
      (select : SelectStatement)
  | StInsertSelectReturning (table : string) (columns : option (list string)) (or_conflict : option string)
      (select : SelectStatement) (returning : list SelectItem)
  | StInsertSelectUpsert (table : string) (columns : option (list string)) (select : SelectStatement)
      (upsert : UpsertClause)
  | StInsertSelectUpsertReturning (table : string) (columns : option (list string)) (select : SelectStatement)
      (upsert : UpsertClause) (returning : list SelectItem)
  | StInsertSelectDoNothing (table : string) (columns target : option (list string)) (select : SelectStatement)
  | StInsertSelectDoNothingReturning (table : string) (columns target : option (list string))
      (select : SelectStatement) (returning : list SelectItem)
  | StDelete (table : string) (schema table_alias : option string) (index_hint : option TableIndexHint)
      (filter : option Expr)
  | StDeleteLimited (table : string) (schema table_alias : option string) (index_hint : option TableIndexHint)
      (filter : option Expr) (order_by : list OrderBy) (limit offset : option Z)
  | StDeleteReturning (table : string) (schema table_alias : option string) (index_hint : option TableIndexHint)
      (filter : option Expr) (returning : list SelectItem)
  | StDeleteReturningLimited (table : string) (schema table_alias : option string)
      (index_hint : option TableIndexHint) (filter : option Expr) (returning : list SelectItem) (order_by : list OrderBy) (limit offset : option Z)
  | StUpdate (table : string) (schema table_alias : option string) (index_hint : option TableIndexHint)
      (or_conflict : option string) (assignments : list Assignment) (from : option FromItem) (filter : option Expr)
  | StUpdateLimited (table : string) (schema table_alias : option string) (index_hint : option TableIndexHint)
      (or_conflict : option string) (assignments : list Assignment) (from : option FromItem) (filter : option Expr) (order_by : list OrderBy) (limit offset : option Z)
  | StUpdateReturning (table : string) (schema table_alias : option string) (index_hint : option TableIndexHint)
      (or_conflict : option string) (assignments : list Assignment) (from : option FromItem) (filter : option Expr) (returning : list SelectItem)
  | StUpdateReturningLimited (table : string) (schema table_alias : option string)
      (index_hint : option TableIndexHint) (or_conflict : option string) (assignments : list Assignment) (from : option FromItem) (filter : option Expr) (returning : list SelectItem) (order_by : list OrderBy) (limit offset : option Z)
  | StValues (rows : list (list ScalarExpr)) | StValuesWith (with_ : WithClause) (rows : list (list ScalarExpr))
  | StSelect (select : SelectStatement) | StExplainQueryPlan (statement : Statement) | StAnalyze | StReindex
  | StVacuum | StPragmaTableInfo (table : string) (schema : option string)
  | StPragmaTableXInfo (table : string) (schema : option string) | StPragmaTableList (table schema : option string)
  | StPragmaIndexList (table : string) (schema : option string)
  | StPragmaIndexInfo (index : string) (schema : option string)
  | StPragmaIndexXInfo (index : string) (schema : option string)
  | StPragmaForeignKeyList (table : string) (schema : option string)
  | StPragmaForeignKeyCheck (table schema : option string) | StPragmaForeignKeys
  | StSetPragmaForeignKeys (enabled : bool) | StPragmaDeferForeignKeys | StSetPragmaDeferForeignKeys (enabled : bool)
  | StPragmaReadUncommitted | StSetPragmaReadUncommitted (enabled : bool) | StPragmaQueryOnly
  | StSetPragmaQueryOnly (enabled : bool) | StPragmaCountChanges | StSetPragmaCountChanges (enabled : bool)
  | StPragmaRecursiveTriggers | StSetPragmaRecursiveTriggers (enabled : bool) | StPragmaTrustedSchema
  | StSetPragmaTrustedSchema (enabled : bool) | StPragmaIgnoreCheckConstraints
  | StSetPragmaIgnoreCheckConstraints (enabled : bool) | StPragmaEncoding | StSetPragmaEncoding
  | StPragmaCollationList | StPragmaDataVersion | StPragmaQuickCheck | StPragmaIntegrityCheck | StPragmaFunctionList
  | StPragmaCompileOptions | StPragmaPragmaList | StPragmaModuleList | StPragmaStats
  | StPragmaJournalMode (schema : option string) | StSetPragmaJournalMode (mode : string) (schema : option string)
  | StPragmaSynchronous (schema : option string) | StSetPragmaSynchronous (value : Z) (schema : option string)
  | StPragmaCacheSize (schema : option string) | StSetPragmaCacheSize (value : Z) (schema : option string)
  | StPragmaCacheSpill | StSetPragmaCacheSpill (value : option Z) | StPragmaTempStore
  | StSetPragmaTempStore (value : Z) | StPragmaLockingMode (schema : option string)
  | StSetPragmaLockingMode (mode : string) (schema : option string) | StPragmaMmapSize
  | StSetPragmaMmapSize (value : Z) | StPragmaAutoVacuum | StSetPragmaAutoVacuum (value : option Z)
  | StPragmaSecureDelete (schema : option string)
  | StSetPragmaSecureDelete (value : option Z) (schema : option string) | StPragmaWalAutocheckpoint
  | StSetPragmaWalAutocheckpoint (value : option Z) | StPragmaWalCheckpoint | StPragmaBusyTimeout
  | StSetPragmaBusyTimeout (value : Z) | StPragmaAnalysisLimit | StSetPragmaAnalysisLimit (value : option Z)
  | StPragmaJournalSizeLimit | StSetPragmaJournalSizeLimit (value : Z) | StPragmaSoftHeapLimit
  | StSetPragmaSoftHeapLimit (value : Z) | StPragmaHardHeapLimit | StSetPragmaHardHeapLimit (value : Z)
  | StPragmaThreads | StSetPragmaThreads (value : option Z) | StPragmaAutomaticIndex
  | StSetPragmaAutomaticIndex (enabled : bool) | StPragmaCellSizeCheck | StSetPragmaCellSizeCheck (enabled : bool)
  | StPragmaFullColumnNames | StSetPragmaFullColumnNames (enabled : bool) | StPragmaShortColumnNames
  | StSetPragmaShortColumnNames (enabled : bool) | StPragmaFullFsync | StSetPragmaFullFsync (enabled : bool)
  | StPragmaCheckpointFullFsync | StSetPragmaCheckpointFullFsync (enabled : bool) | StPragmaEmptyResultCallbacks
  | StSetPragmaEmptyResultCallbacks (enabled : bool) | StPragmaCaseSensitiveLike
  | StSetPragmaCaseSensitiveLike (enabled : bool) | StPragmaReverseUnorderedSelects
  | StSetPragmaReverseUnorderedSelects (enabled : bool) | StPragmaOptimize | StPragmaShrinkMemory
  | StPragmaIncrementalVacuum | StPragmaDatabaseList | StPragmaPageSize (schema : option string)
  | StSetPragmaPageSize (value : Z) (schema : option string) | StPragmaPageCount (schema : option string)
  | StPragmaMaxPageCount | StSetPragmaMaxPageCount (value : option Z) | StPragmaFreelistCount (schema : option string)
  | StPragmaUserVersion (schema : option string) | StSetPragmaUserVersion (value : Z) (schema : option string)
  | StPragmaApplicationId (schema : option string) | StSetPragmaApplicationId (value : Z) (schema : option string)
  | StPragmaSchemaVersion (schema : option string) | StSetPragmaSchemaVersion (value : Z) (schema : option string)
  | StBegin (isolation_level : option IsolationLevel) | StCommit | StRollback | StSavepoint (name : string)
  | StRollbackTo (name : string) | StRelease (name : string).
