(* ===== verification/CheckValues.v ===== *)
(** * Values in check constraints

    The functions on values that [common/types.rs] evaluates check expressions with:
    conversions between text and numbers, rounding, arithmetic, text functions, and the
    conversions of STRICT tables. *)

From Stdlib Require Import SpecFloat.
From S2P Require Import Prelude Text Types Floats Schema.

(** [serde_json::from_str::<Value>(..).is_ok()] *)
Class JsonParser := { json_is_valid : list char -> bool }.

Definition real (f : f64) : Value := Real (f64_to_bits f).
Definition f64_zero : f64 := S754_zero false.
Definition f64_one : f64 := f64_of_int 1.
Definition bool_f64 (b : bool) : f64 := if b then f64_one else f64_zero.
Definition bool_int (b : bool) : Z := if b then 1 else 0.

(** ** Numbers in text *)

(** The loop over digits and at most one point: what it consumed, whether there was a digit
    and a point, and the rest. *)
Fixpoint mantissa_prefix (saw_dot : bool) (l : list char) : list char * bool * bool * list char :=
  match l with
  | [] => ([], false, saw_dot, [])
  | ch :: l' =>
      if is_ascii_digit ch then
        let '(taken, _, dot, rest) := mantissa_prefix saw_dot l' in (ch :: taken, true, dot, rest)
      else if (ch =? c#".") && negb saw_dot then
        let '(taken, digit, dot, rest) := mantissa_prefix true l' in (ch :: taken, digit, dot, rest)
      else ([], false, saw_dot, l)
  end.

(** An exponent with a digit, as text. *)
Definition exponent_prefix (l : list char) : option (list char) :=
  match l with
  | e :: l =>
      if (e =? c#"e") || (e =? c#"E") then
        let (sign, l) := match l with
                         | s :: l' => if (s =? c#"+") || (s =? c#"-") then ([s], l') else ([], l)
                         | [] => ([], l)
                         end in
        match digits_prefix l with
        | ([], _) => None
        | (ds, _) => Some (e :: sign ++ ds)
        end
      else None
  | [] => None
  end.

(** [sqlite_text_numeric_prefix] *)
Definition sqlite_text_numeric_prefix (value : string) : f64 :=
  let trimmed := trim_start_matches is_whitespace (chars value) in
  let (sign, l) := match trimmed with
                   | s :: l' => if (s =? c#"+") || (s =? c#"-") then ([s], l') else ([], trimmed)
                   | [] => ([], trimmed)
                   end in
  let '(taken, saw_digit, saw_dot, rest) := mantissa_prefix false l in
  if negb saw_digit then f64_zero
  else
    match exponent_prefix rest with
    | Some exponent => default f64_zero (parse_f64 (sign ++ taken ++ exponent))
    | None =>
        if saw_dot then default f64_zero (parse_f64 (sign ++ taken))
        else match parse_i64 (sign ++ taken) with inr z => f64_of_int z | inl _ => f64_zero end
    end.

Definition sqlite_text_integer_prefix (value : string) : Z :=
  let numeric := sqlite_text_numeric_prefix value in
  if f64_is_nan numeric then 0
  else if f64_leb (f64_of_int i64_max) numeric then i64_max
  else if f64_leb numeric (f64_of_int i64_min) then i64_min
  else f64_to_i64 numeric.

Definition sqlite_text_numeric_value (value : string) : Value :=
  let numeric := sqlite_text_numeric_prefix value in
  if f64_is_finite numeric && f64_eqb (f64_fract numeric) f64_zero then Integer (f64_to_i64 numeric) else real numeric.

(** ** Numbers to text *)

Definition f64_infinity : f64 := S754_infinity false.
Definition f64_neg_infinity : f64 := S754_infinity true.

(** The [Display] of a real with a decimal point. *)
Definition with_point (rendered : string) : string :=
  if existsb (fun c => (c =? c#".") || (c =? c#"e") || (c =? c#"E")) (string_bytes rendered) then rendered
  else (rendered ++ ".0")%string.

Definition sqlite_real_to_text (value : f64) : string :=
  if f64_eqb value f64_infinity then "Inf"
  else if f64_eqb value f64_neg_infinity then "-Inf"
  else with_point (f64_to_string value).

Definition sqlite_real_to_text_for_quote (value : f64) : string :=
  if f64_eqb value f64_infinity then "9.0e+999"
  else if f64_eqb value f64_neg_infinity then "-9.0e+999"
  else with_point (f64_to_string value).

Definition sqlite_text_like_value (value : Value) : string :=
  match value with
  | Null => ""
  | Boolean value => if value then "1" else "0"
  | Integer value => pretty value
  | Real bits =>
      let value := f64_of_bits bits in
      if f64_eqb value f64_infinity then "Inf"
      else if f64_eqb value f64_neg_infinity then "-Inf"
      else f64_to_string value
  | Blob value => from_utf8_lossy value
  | Text value => value
  end.

(** [sqlite_text_prefix_before_nul] *)
Definition sqlite_text_prefix_before_nul (value : string) : string := of_chars (before_nul (chars value)).

(** ** Numeric values *)

Definition sqlite_check_numeric_real (value : Value) : f64 :=
  match value with
  | Null => f64_zero
  | Boolean value => bool_f64 value
  | Integer value => f64_of_int value
  | Real bits => f64_of_bits bits
  | Text value => sqlite_text_numeric_prefix value
  | Blob value => sqlite_text_numeric_prefix (from_utf8_lossy value)
  end.

Definition sqlite_check_truthy (value : Value) : bool :=
  match value with
  | Null => false
  | Boolean value => value
  | Integer value => negb (value =? 0)
  | Real bits => negb (f64_eqb (f64_of_bits bits) f64_zero)
  | Text value => negb (f64_eqb (sqlite_text_numeric_prefix value) f64_zero)
  | Blob value => negb (f64_eqb (sqlite_text_numeric_prefix (from_utf8_lossy value)) f64_zero)
  end.

Definition sqlite_sign_real (value : f64) : Z :=
  if f64_ltb f64_zero value then 1 else if f64_ltb value f64_zero then -1 else 0.

Definition sqlite_check_sign (value : Value) : option Z :=
  match value with
  | Null => None
  | Boolean value => Some (bool_int value)
  | Integer value => Some (Z.sgn value)
  | Real bits => Some (sqlite_sign_real (f64_of_bits bits))
  | Text value =>
      let value := trim (chars value) in
      match parse_i64 value with
      | inr value => Some (Z.sgn value)
      | inl _ => sqlite_sign_real <$> parse_f64 value
      end
  | Blob _ => None
  end.

Definition sqlite_check_math_arg (value : Value) : option f64 :=
  match value with
  | Null | Blob _ => None
  | Boolean value => Some (bool_f64 value)
  | Integer value => Some (f64_of_int value)
  | Real bits => Some (f64_of_bits bits)
  | Text text =>
      let trimmed := trim (chars text) in
      if bool_decide (trimmed = []) then None else parse_f64 trimmed
  end.

(** ** Arithmetic: overflow gives a real; [i64::MIN / -1] panics *)

Definition is_i64_b (z : Z) : bool := bool_decide (is_i64 z).

Definition sqlite_check_abs (value : Value) : option Value :=
  match value with
  | Null => None
  | Integer value => Some (if is_i64_b (Z.abs value) then Integer (Z.abs value) else real (f64_abs (f64_of_int value)))
  | Real bits => Some (real (f64_abs (f64_of_bits bits)))
  | Boolean value => Some (Integer (bool_int value))
  | Text value => Some (real (f64_abs (sqlite_text_numeric_prefix value)))
  | Blob value => Some (real (f64_abs (sqlite_text_numeric_prefix (from_utf8_lossy value))))
  end.

Definition sqlite_check_add (lhs rhs : Value) : option Value :=
  match lhs, rhs with
  | Null, _ | _, Null => None
  | Integer lhs, Integer rhs =>
      Some (if is_i64_b (lhs + rhs) then Integer (lhs + rhs) else real (f64_add (f64_of_int lhs) (f64_of_int rhs)))
  | _, _ => Some (real (f64_add (sqlite_check_numeric_real lhs) (sqlite_check_numeric_real rhs)))
  end.

Definition sqlite_check_multiply (lhs rhs : Value) : option Value :=
  match lhs, rhs with
  | Null, _ | _, Null => None
  | Integer lhs, Integer rhs =>
      Some (if is_i64_b (lhs * rhs) then Integer (lhs * rhs) else real (f64_mul (f64_of_int lhs) (f64_of_int rhs)))
  | _, _ => Some (real (f64_mul (sqlite_check_numeric_real lhs) (sqlite_check_numeric_real rhs)))
  end.

(** [lhs / rhs] and [lhs % rhs] of [i64], which panic on overflow; [rhs] is not zero. *)
Definition i64_div (lhs rhs : Z) : Result Z :=
  if (lhs =? i64_min) && (rhs =? -1) then Panic "attempt to divide with overflow" else Ok (Z.quot lhs rhs).
Definition i64_rem (lhs rhs : Z) : Result Z :=
  if (lhs =? i64_min) && (rhs =? -1) then Panic "attempt to calculate the remainder with overflow" else Ok (Z.rem lhs rhs).

Definition real_quotient (lhs rhs : Value) : Result (option Value) :=
  Ok (Some (real (f64_div (sqlite_check_numeric_real lhs) (sqlite_check_numeric_real rhs)))).

Definition sqlite_check_divide (lhs rhs : Value) : Result (option Value) :=
  match lhs, rhs with
  | Null, _ | _, Null => Ok None
  | _, Integer 0 => Ok None
  | Integer l, Integer r => let? q := i64_div l r in Ok (Some (Integer q))
  | _, Real bits => if f64_eqb (f64_of_bits bits) f64_zero then Ok None else real_quotient lhs rhs
  | _, _ => real_quotient lhs rhs
  end.

Definition sqlite_check_modulo (lhs rhs : Value) : Result (option Value) :=
  match lhs, rhs with
  | Null, _ | _, Null => Ok None
  | _, _ =>
      let lhs := f64_to_i64 (sqlite_check_numeric_real lhs) in
      let rhs := f64_to_i64 (sqlite_check_numeric_real rhs) in
      if rhs =? 0 then Ok None else let? r := i64_rem lhs rhs in Ok (Some (Integer r))
  end.

(** ** Rounding *)

Section Math.
Context `{Libm}.

(** The fallback for numbers beyond 128 bits. *)
Definition round_by_factor (value : f64) (precision : Z) : f64 :=
  let factor := libm_powi (f64_of_int 10) precision in
  f64_div (f64_round (f64_mul value factor)) factor.

Definition u128_max : Z := 340282366920938463463374607431768211455.
Definition checked_u128 (z : Z) : option Z := if z <=? u128_max then Some z else None.

(** [sqlite_round_f64]. [checked_shl] checks the distance only: bits shifted out are lost. *)
Definition sqlite_round_f64 (value : f64) (precision : Z) : f64 :=
  let precision := Z.max 0 (Z.min 30 precision) in
  if negb (f64_is_finite value) then value
  else if 18 <? precision then round_by_factor value precision
  else
    let sign := if f64_is_sign_negative value then f64_of_int (-1) else f64_one in
    let value := f64_abs value in
    if f64_eqb value f64_zero then f64_mul sign f64_zero
    else
      let bits := f64_to_bits value in
      let exponent_bits := Z.land (Z.shiftr bits 52) 2047 in
      let fraction := Z.land bits (two52 - 1) in
      let (mantissa, binary_shift) :=
        if exponent_bits =? 0 then (fraction, -1074) else (Z.lor two52 fraction, exponent_bits - 1023 - 52) in
      let pow10 := 10 ^ precision in
      let fallback := f64_mul sign (round_by_factor value precision) in
      let finish (rounded : Z) := f64_div (f64_mul sign (f64_of_int rounded)) (f64_of_int pow10) in
      match checked_u128 (mantissa * pow10) with
      | None => fallback
      | Some numerator =>
          if 0 <=? binary_shift then
            if 128 <=? binary_shift then fallback
            else finish (Z.shiftl numerator binary_shift mod (u128_max + 1))
          else
            let denominator_shift := - binary_shift in
            if 127 <=? denominator_shift then f64_mul sign f64_zero
            else
              let denominator := Z.shiftl 1 denominator_shift in
              match checked_u128 (numerator * 2) with
              | None => fallback
              | Some doubled_numerator =>
                  match checked_u128 (doubled_numerator + denominator) with
                  | None => fallback
                  | Some rounding_numerator => finish (rounding_numerator / (Z.shiftl denominator 1 mod (u128_max + 1)))
                  end
              end
      end.

Definition sqlite_check_round (value : Value) (precision : option Z) : option f64 :=
  match value with
  | Null => None
  | _ => Some (sqlite_round_f64 (sqlite_check_numeric_real value) (default 0 precision))
  end.

Definition apply_rounding (func : RoundingFunc) (value : f64) : f64 :=
  match func with
  | RCeil | RCeiling => f64_ceil value
  | RFloor => f64_floor value
  | RTrunc => f64_trunc value
  end.

Definition sqlite_check_rounding (value : Value) (func : RoundingFunc) : option Value :=
  match value with
  | Null | Blob _ => None
  | Boolean value => Some (Integer (bool_int value))
  | Integer value => Some (Integer value)
  | Real bits => Some (real (apply_rounding func (f64_of_bits bits)))
  | Text text =>
      let trimmed := trim (chars text) in
      if bool_decide (trimmed = []) then None else real ∘ apply_rounding func <$> parse_f64 trimmed
  end.

(** ** Mathematical functions *)

Definition pi : f64 := f64_of_decimal false 314159265358979323846264338327950288 (-35).

Definition sqlite_check_unary_math (value : Value) (func : UnaryMathFunc) : option f64 :=
  numeric ← sqlite_check_math_arg value;
  let within_one := f64_leb (f64_of_int (-1)) numeric && f64_leb numeric f64_one in
  match func with
  | Sqrt => if f64_ltb numeric f64_zero then None else Some (f64_sqrt numeric)
  | Ln => if f64_leb numeric f64_zero then None else Some (libm_ln numeric)
  | Log10 => if f64_leb numeric f64_zero then None else Some (libm_log10 numeric)
  | Log2 => if f64_leb numeric f64_zero then None else Some (libm_log2 numeric)
  | Exp => Some (libm_exp numeric)
  | Sin => Some (libm_sin numeric)
  | Cos => Some (libm_cos numeric)
  | Tan => Some (libm_tan numeric)
  | Sinh => Some (libm_sinh numeric)
  | Cosh => Some (libm_cosh numeric)
  | Tanh => Some (libm_tanh numeric)
  | Atan => Some (libm_atan numeric)
  | Acos => if negb within_one then None else Some (libm_acos numeric)
  | Asin => if negb within_one then None else Some (libm_asin numeric)
  | Acosh => if f64_ltb numeric f64_one then None else Some (libm_acosh numeric)
  | Asinh => Some (libm_asinh numeric)
  | Atanh => if f64_leb numeric (f64_of_int (-1)) || f64_leb f64_one numeric then None else Some (libm_atanh numeric)
  | Degrees => Some (f64_mul numeric (f64_of_decimal false 572957795130823208767981548141051703 (-34)))
  | Radians => Some (f64_mul numeric (f64_div pi (f64_of_int 180)))
  end.

Definition sqlite_check_binary_math (column_value argument : Value) (func : BinaryMathFunc) (column_is_second : bool) : option f64 :=
  column_value ← sqlite_check_math_arg column_value;
  argument ← sqlite_check_math_arg argument;
  let (lhs, rhs) := if column_is_second : bool then (argument, column_value) else (column_value, argument) in
  result ← match func with
           | Power => Some (libm_powf lhs rhs)
           | Atan2 => Some (libm_atan2 lhs rhs)
           | Log => if f64_leb lhs f64_zero || f64_leb rhs f64_zero || f64_eqb lhs f64_one then None else Some (libm_log rhs lhs)
           end;
  if f64_is_finite result then Some result else None.
End Math.

(** ** Text functions *)

Definition char_count (l : list char) : Z := Zlen l.

Definition sqlite_check_length (value : Value) : option Z :=
  match value with
  | Null => None
  | Blob value => Some (Zlen value)
  | Text value => Some (char_count (before_nul (chars value)))
  | value => Some (char_count (chars (sqlite_text_like_value value)))
  end.

Definition sqlite_check_octet_length (value : Value) : option Z :=
  match value with
  | Null => None
  | Blob value => Some (Zlen value)
  | Text value => Some (Zlen (string_bytes value))
  | Integer value => Some (Zlen (string_bytes (pretty value)))
  | Real bits => Some (Zlen (string_bytes (sqlite_real_to_text (f64_of_bits bits))))
  | Boolean _ => Some 1
  end.

Definition sqlite_check_unicode (value : Value) : option Z :=
  match value with
  | Null => None
  | _ => head (before_nul (chars (sqlite_text_like_value value)))
  end.

Definition hex_digit (d : Z) : char := if d <? 10 then 48 + d else 55 + d.
Definition sqlite_hex_bytes (b : bytes) : string := bytes_string (flat_map (fun byte => [hex_digit (byte / 16); hex_digit (byte mod 16)]) b).

(** [Display for Value] *)
Definition value_display (v : Value) : string :=
  match v with
  | Null => "NULL"
  | Boolean b => if b then "true" else "false"
  | Integer i => pretty i
  | Real bits => f64_to_string (f64_of_bits bits)
  | Blob b => ("X'" ++ sqlite_hex_bytes b ++ "'")%string
  | Text s => s
  end.

Definition sqlite_check_hex (value : Value) : string :=
  match value with
  | Null => ""
  | Blob value => sqlite_hex_bytes value
  | Text value => sqlite_hex_bytes (string_bytes value)
  | Integer value => sqlite_hex_bytes (string_bytes (pretty value))
  | Real bits => sqlite_hex_bytes (string_bytes (sqlite_real_to_text (f64_of_bits bits)))
  | Boolean value => if value then "31" else "30"
  end.

Definition sqlite_check_quote (value : Value) : string :=
  match value with
  | Null => "NULL"
  | Boolean value => if value then "1" else "0"
  | Integer value => pretty value
  | Real bits => sqlite_real_to_text_for_quote (f64_of_bits bits)
  | Blob value => ("X'" ++ sqlite_hex_bytes value ++ "'")%string
  | Text value => ("'" ++ of_chars (replace [c#"'"] [c#"'"; c#"'"] (before_nul (chars value))) ++ "'")%string
  end.

Definition sqlite_check_replace (value : Value) (pattern replacement : string) : option string :=
  match value with
  | Null => None
  | _ =>
      let value := before_nul (chars (sqlite_text_like_value value)) in
      Some (of_chars (if bool_decide (pattern = ""%string) then value else replace (chars pattern) (chars replacement) value))
  end.

Definition sqlite_check_cast (value : Value) (target_type : ColumnType) : Value :=
  match target_type, value with
  | CtAny, _ => value
  | _, Null => Null
  | CtText, _ => Text (sqlite_text_like_value value)
  | CtBlob, Blob value => Blob value
  | CtBlob, _ => Blob (string_bytes (sqlite_text_like_value value))
  | CtInteger, Integer value => Integer value
  | CtInteger, Boolean value => Integer (bool_int value)
  | CtInteger, Real bits => Integer (f64_to_i64 (f64_of_bits bits))
  | CtInteger, Text value => Integer (sqlite_text_integer_prefix value)
  | CtInteger, Blob value => Integer (sqlite_text_integer_prefix (from_utf8_lossy value))
  | CtNumeric, Integer value => Integer value
  | CtNumeric, Boolean value => Integer (bool_int value)
  | CtNumeric, Real bits => Real bits
  | CtNumeric, Text value => sqlite_text_numeric_value value
  | CtNumeric, Blob value => sqlite_text_numeric_value (from_utf8_lossy value)
  | CtReal, Integer value => real (f64_of_int value)
  | CtReal, Boolean value => real (bool_f64 value)
  | CtReal, Real bits => Real bits
  | CtReal, Text value => real (sqlite_text_numeric_prefix value)
  | CtReal, Blob value => real (sqlite_text_numeric_prefix (from_utf8_lossy value))
  | CtBoolean, Boolean value => Boolean value
  | CtBoolean, Integer value => Boolean (negb (value =? 0))
  | CtBoolean, Real bits => Boolean (negb (f64_eqb (f64_of_bits bits) f64_zero))
  | CtBoolean, Text value => Boolean (negb (String.eqb value "") && negb (String.eqb value "0"))
  | CtBoolean, Blob value => Boolean (negb (bool_decide (value = [])) && negb (bool_decide (value = [48])))
  end.

Definition is_null (value : Value) : bool := match value with Null => true | _ => false end.

Definition sqlite_check_min_max (lhs rhs : Value) (min : bool) : option Value :=
  if is_null lhs || is_null rhs then None
  else
    let ordering := value_cmp lhs rhs in
    Some (if (min && bool_decide (ordering = Gt)) || (negb min && bool_decide (ordering = Lt)) then rhs else lhs).

Definition sqlite_check_concat (value : Value) (suffix : list Value) : string :=
  String.concat "" (map sqlite_text_like_value (filter (fun v => is_null v = false) (value :: suffix))).

Definition sqlite_check_concat_ws (value : Value) (separator : string) (suffix : list Value) : string :=
  str_join separator (map sqlite_text_like_value (filter (fun v => is_null v = false) (value :: suffix))).

Definition sqlite_typeof_name (value : Value) : string :=
  match value with
  | Null => "null"
  | Boolean _ | Integer _ => "integer"
  | Real _ => "real"
  | Blob _ => "blob"
  | Text _ => "text"
  end.

Definition sqlite_ascii_lower (value : string) : string := of_chars (map ascii_lower (chars value)).
Definition sqlite_ascii_upper (value : string) : string := of_chars (map ascii_upper (chars value)).

Definition sqlite_check_collated_value (value : Value) (collation : string) : Value :=
  match value with
  | Text text =>
      let upper := map ascii_upper (chars collation) in
      if bool_decide (upper = chars "NOCASE") then Text (sqlite_ascii_lower text)
      else if bool_decide (upper = chars "RTRIM") then Text (of_chars (trim_end_matches (Z.eqb 32) (chars text)))
      else value
  | _ => value
  end.

Definition sqlite_trim (value : string) (side : TrimSide) (characters : option string) : string :=
  let characters := chars (default " "%string characters) in
  let matches_trim_char ch := existsb (Z.eqb ch) characters in
  of_chars (match side with
            | TrimBoth => trim_matches matches_trim_char (chars value)
            | TrimStart => trim_start_matches matches_trim_char (chars value)
            | TrimEnd => trim_end_matches matches_trim_char (chars value)
            end).

(** A position counted from one; zero if there is none. *)
Definition position_or_zero (o : option nat) : Z := match o with Some i => Z.of_nat i + 1 | None => 0 end.

Definition sqlite_check_instr (value needle : Value) : option Z :=
  match value, needle with
  | Null, _ | _, Null => None
  | Blob haystack, Blob needle => Some (if bool_decide (needle = []) then 1 else position_or_zero (find_sub needle haystack))
  | _, _ =>
      let haystack := chars (sqlite_text_like_value value) in
      let needle := chars (sqlite_text_like_value needle) in
      Some (if bool_decide (needle = []) then 1 else position_or_zero (find_sub needle haystack))
  end.

Definition sqlite_substr_text (value : string) (start : Z) (length : option Z) : string :=
  if match length with Some length => length <=? 0 | None => false end then ""
  else
    let chars := chars value in
    let len := Zlen chars in
    let start_index := if 0 <? start then start - 1 else if start <? 0 then len + start else 0 in
    let start_index := Z.max 0 (Z.min len start_index) in
    let rest := drop (Z.to_nat start_index) chars in
    of_chars (match length with Some length => take (Z.to_nat (Z.min length (Zlen rest))) rest | None => rest end).

(** ** JSON validity *)

(** After [//]: what follows the line, and whether it ends with a newline. *)
Fixpoint after_line (l : list char) : bool * list char :=
  match l with
  | [] => (false, [])
  | ch :: l => if ch =? 10 then (true, l) else after_line l
  end.
(** After [/*]. *)
Fixpoint after_block (prev : char) (l : list char) : list char :=
  match l with
  | [] => []
  | ch :: l => if (prev =? c#"*") && (ch =? c#"/") then l else after_block ch l
  end.
(** The body of a string in single quotes, written with double quotes, and what follows. *)
Fixpoint json5_string (escaped : bool) (l : list char) : list char * list char :=
  match l with
  | [] => ([], [])
  | ch :: l =>
      if escaped then let (out, rest) := json5_string false l in (ch :: out, rest)
      else if ch =? c#"\" then let (out, rest) := json5_string true l in (ch :: out, rest)
      else if ch =? c#"'" then ([34], l)
      else let (out, rest) := json5_string false l in ((if ch =? 34 then [c#"\"; ch] else [ch]) ++ out, rest)
  end.

Definition is_json5_identifier_start (ch : char) : bool := (ch =? underscore) || (ch =? c#"$") || is_ascii_alphabetic ch.
Definition is_json5_identifier_continue (ch : char) : bool := is_json5_identifier_start ch || is_ascii_digit ch.

(** The main loop of [sqlite_json5_to_json]; every round consumes a character. *)
Fixpoint json5_loop (fuel : nat) (l : list char) : list char :=
  match fuel, l with
  | S fuel, ch :: rest =>
      let copy (_ : unit) :=
        if ch =? c#"'" then let (out, rest) := json5_string false rest in 34 :: out ++ json5_loop fuel rest
        else if is_json5_identifier_start ch then
          let (ident, rest) := span is_json5_identifier_continue rest in
          let quoted := match trim_start_matches is_whitespace rest with colon :: _ => colon =? c#":" | [] => false end in
          (if quoted then 34 :: (ch :: ident) ++ [34] else ch :: ident) ++ json5_loop fuel rest
        else ch :: json5_loop fuel rest in
      match rest with
      | second :: rest' =>
          if (ch =? c#"/") && (second =? c#"/") then
            let (newline, rest) := after_line rest' in (if newline : bool then [10] else []) ++ json5_loop fuel rest
          else if (ch =? c#"/") && (second =? c#"*") then json5_loop fuel (after_block 0 rest')
          else copy tt
      | [] => copy tt
      end
  | _, _ => []
  end.

(** [strip_json5_trailing_commas]: [in_string] and [escaped] are its two flags. *)
Fixpoint strip_json5_trailing_commas (in_string escaped : bool) (l : list char) : list char :=
  match l with
  | [] => []
  | ch :: l =>
      if in_string then
        ch :: (if escaped then strip_json5_trailing_commas true false l
               else if ch =? c#"\" then strip_json5_trailing_commas true true l
               else if ch =? 34 then strip_json5_trailing_commas false false l
               else strip_json5_trailing_commas true false l)
      else if ch =? 34 then ch :: strip_json5_trailing_commas true escaped l
      else if (ch =? c#",") && match trim_start_matches is_whitespace l with
                               | close :: _ => (close =? c#"}") || (close =? c#"]")
                               | [] => false
                               end
      then strip_json5_trailing_commas false escaped l
      else ch :: strip_json5_trailing_commas false escaped l
  end.

Definition sqlite_json5_to_json (json : list char) : option (list char) :=
  let normalized := strip_json5_trailing_commas false false (json5_loop (S (length json)) json) in
  if bool_decide (normalized = json) then None else Some normalized.

Definition sqlite_check_json_valid `{JsonParser} (value : Value) (flags : option Z) : option bool :=
  match value with
  | Null => None
  | _ =>
      let json := chars (sqlite_text_like_value value) in
      Some (if match flags with Some flags => negb (Z.land flags 2 =? 0) | None => false end
            then json_is_valid json || match sqlite_json5_to_json json with Some json => json_is_valid json | None => false end
            else json_is_valid json)
  end.

(** ** STRICT tables *)

(** The test of the source on a real: integral and between [i64::MIN as f64] and
    [i64::MAX as f64]. *)
Definition strict_integral (value : f64) : option Value :=
  if f64_is_finite value && f64_eqb (f64_fract value) f64_zero &&
     f64_leb (f64_of_int i64_min) value && f64_leb value (f64_of_int i64_max)
  then Some (Integer (f64_to_i64 value)) else None.

Definition strict_integer_value (value : Value) : option Value :=
  match value with
  | Integer _ => Some value
  | Boolean value => Some (Integer (bool_int value))
  | Real bits => strict_integral (f64_of_bits bits)
  | Text value =>
      let trimmed := trim (chars value) in
      match parse_i64 trimmed with
      | inr integer => Some (Integer integer)
      | inl _ => parse_f64 trimmed ≫= strict_integral
      end
  | _ => None
  end.

Definition strict_real_value (value : Value) : option Value :=
  match value with
  | Real _ => Some value
  | Integer value => Some (real (f64_of_int value))
  | Boolean value => Some (real (bool_f64 value))
  | Text value =>
      value ← parse_f64 (trim (chars value));
      if f64_is_finite value then Some (real value) else None
  | _ => None
  end.

Definition strict_text_value (value : Value) : option Value :=
  match value with
  | Text _ => Some value
  | Integer value => Some (Text (pretty value))
  | Real bits => Some (Text (f64_to_string (f64_of_bits bits)))
  | Boolean value => Some (Text (if value then "1" else "0"))
  | _ => None
  end.
