(* ===== verification/CheckEval.v ===== *)
(** * Check constraints and STRICT tables

    The evaluator of check expressions, the check constraints of a row, and the
    normalisation of the rows of STRICT tables ([common/types.rs]). *)

From S2P Require Import Prelude Text Patterns Types Floats Schema CheckValues.

(** ** Three-valued comparison *)

Definition check_op_holds (op : CheckOp) (ordering : comparison) : bool :=
  match op, ordering with
  | CkOpEq, Eq => true
  | CkOpNe, (Lt | Gt) => true
  | CkOpGt, Gt => true
  | CkOpGte, (Gt | Eq) => true
  | CkOpLt, Lt => true
  | CkOpLte, (Lt | Eq) => true
  | _, _ => false
  end.

(** [evaluate_check_compare]: nothing for a null, false for values of types that do not
    compare. *)
Definition evaluate_check_compare (lhs : Value) (op : CheckOp) (rhs : Value) : option bool :=
  if is_null lhs || is_null rhs then None
  else
    let ordering :=
      match lhs, rhs with
      | Boolean lhs, Boolean rhs => Some (bool_cmp lhs rhs)
      | Integer lhs, Integer rhs => Some (lhs ?= rhs)
      | Integer lhs, Real rhs => Some (total_cmp (f64_to_bits (f64_of_int lhs)) rhs)
      | Real lhs, Integer rhs => Some (total_cmp lhs (f64_to_bits (f64_of_int rhs)))
      | Real lhs, Real rhs => Some (total_cmp lhs rhs)
      | Blob lhs, Blob rhs => Some (slice_cmp lhs rhs)
      | Text lhs, Text rhs => Some (str_cmp lhs rhs)
      | _, _ => None
      end in
    match ordering with
    | Some ordering => Some (check_op_holds op ordering)
    | None => Some false
    end.

Definition check_values_are_not_distinct (lhs rhs : Value) : bool :=
  (is_null lhs && is_null rhs) || (negb (is_null lhs) && negb (is_null rhs) && bool_decide (value_cmp lhs rhs = Eq)).

Definition sqlite_check_nullif (lhs rhs : Value) : bool := is_null lhs || check_values_are_not_distinct lhs rhs.

Section Eval.
Context {SelectStatement : Type} `{Libm, JsonParser}.
Abbreviation Schema := (Schema SelectStatement).
Implicit Types self : Schema.

(** The answer of a comparison with a computed value that may be missing. *)
Definition compare_option (o : option Value) (op : CheckOp) (value : Value) : Result (option bool) :=
  Ok (left ← o; evaluate_check_compare left op value).

(** [value.partial_cmp(low)] and so on: [Ord for Value] *)
Definition between (value low high : Value) : bool :=
  bool_decide (value_cmp value low <> Lt) && bool_decide (value_cmp value high <> Gt).

(** The case of a column's value [left], for the expressions that read one column. *)
Definition evaluate_check_column (case_sensitive_like : bool) (expr : CheckExpr) (left : Value) : Result (option bool) :=
  match expr with
  | CkCompare _ op value => Ok (evaluate_check_compare left op value)
  | CkIsNull _ negated => Ok (Some (xorb (is_null left) negated))
  | CkGlob _ pattern negated =>
      if is_null left then Ok None
      else Ok (Some (xorb (check_matches_glob_pattern (sqlite_text_like_value left) pattern) negated))
  | CkRegexp _ pattern negated =>
      if is_null left then Ok None
      else let? found := sqlite_regexp_matches Storage pattern (sqlite_text_like_value left) in Ok (Some (xorb found negated))
  | CkLike _ pattern escape negated =>
      if is_null left then Ok None
      else let? found := check_matches_like_pattern (sqlite_text_like_value left) pattern escape case_sensitive_like in
           Ok (Some (xorb found negated))
  | CkInList _ values negated =>
      if is_null left then Ok None
      else if existsb (fun candidate => value_eqb candidate left) values then Ok (Some (negb negated))
      else if existsb is_null values then Ok None
      else Ok (Some negated)
  | CkBetween _ low high negated =>
      if is_null left || is_null low || is_null high then Ok None else Ok (Some (xorb (between left low high) negated))
  | CkIsBool _ expected negated =>
      Ok (Some (xorb (negb (is_null left) && Bool.eqb (sqlite_check_truthy left) expected) negated))
  | CkTruthy _ => if is_null left then Ok None else Ok (Some (sqlite_check_truthy left))
  | CkIsDistinct _ value negated => Ok (Some (xorb (check_values_are_not_distinct left value) negated))
  | CkLengthCompare _ op value => compare_option (Integer <$> sqlite_check_length left) op value
  | CkOctetLengthCompare _ op value => compare_option (Integer <$> sqlite_check_octet_length left) op value
  | CkUnicodeCompare _ op value => compare_option (Integer <$> sqlite_check_unicode left) op value
  | CkUnicodeIsNull _ negated => Ok (Some (xorb (bool_decide (sqlite_check_unicode left = None)) negated))
  | CkSignCompare _ op value => compare_option (Integer <$> sqlite_check_sign left) op value
  | CkHexCompare _ op value => compare_option (Some (Text (sqlite_check_hex left))) op value
  | CkQuoteCompare _ op value => compare_option (Some (Text (sqlite_check_quote left))) op value
  | CkNullIfIsNull _ value negated => Ok (Some (xorb (sqlite_check_nullif left value) negated))
  | CkReplaceCompare _ pattern replacement op value => compare_option (Text <$> sqlite_check_replace left pattern replacement) op value
  | CkReplaceColumnCompare _ pattern replacement op => compare_option (Text <$> sqlite_check_replace left pattern replacement) op left
  | CkRoundCompare _ precision op value => compare_option (real <$> sqlite_check_round left precision) op value
  | CkRoundingCompare _ func op value => compare_option (sqlite_check_rounding left func) op value
  | CkCastCompare _ target_type op value => compare_option (Some (sqlite_check_cast left target_type)) op value
  | CkMinMaxColumnCompare _ limit min op => compare_option (sqlite_check_min_max left limit min) op left
  | CkConcatCompare _ suffix op value => compare_option (Some (Text (sqlite_check_concat left suffix))) op value
  | CkConcatWsCompare _ None _ _ _ => Ok None
  | CkConcatWsCompare _ (Some separator) suffix op value =>
      compare_option (Some (Text (sqlite_check_concat_ws left separator suffix))) op value
  | CkJsonValidCompare _ flags compare =>
      match sqlite_check_json_valid left flags, compare with
      | None, _ => Ok None
      | Some valid, Some (op, value) => Ok (evaluate_check_compare (Integer (bool_int valid)) op value)
      | Some valid, None => Ok (Some valid)
      end
  | CkAbsCompare _ op value => compare_option (sqlite_check_abs left) op value
  | CkUnaryMathCompare _ func op value => compare_option (real <$> sqlite_check_unary_math left func) op value
  | CkBinaryMathCompare _ func argument column_is_second op value =>
      compare_option (real <$> sqlite_check_binary_math left argument func column_is_second) op value
  | CkArithmeticCompare _ addend op value => compare_option (sqlite_check_add left addend) op value
  | CkMultiplyCompare _ factor op value => compare_option (sqlite_check_multiply left factor) op value
  | CkDivideCompare _ divisor op value => let? q := sqlite_check_divide left divisor in compare_option q op value
  | CkModuloCompare _ divisor op value _ => let? r := sqlite_check_modulo left divisor in compare_option r op value
  | CkTypeOfCompare _ op value => compare_option (Some (Text (sqlite_typeof_name left))) op value
  | CkNoCaseCompare _ collation op value =>
      compare_option (Some (sqlite_check_collated_value left collation)) op (sqlite_check_collated_value value collation)
  | CkCaseFoldCompare _ upper op value =>
      if is_null left then Ok None
      else let text := sqlite_text_like_value left in
           compare_option (Some (Text (if upper then sqlite_ascii_upper text else sqlite_ascii_lower text))) op value
  | CkTrimCompare _ side characters op value =>
      if is_null left then Ok None
      else compare_option (Some (Text (sqlite_trim (sqlite_text_like_value left) side characters))) op value
  | CkCoalesceCompare _ fallbacks op value =>
      let fallback := default Null (head (filter (fun v => is_null v = false) fallbacks)) in
      compare_option (Some (if is_null left then fallback else left)) op value
  | CkInstrCompare _ needle op value => compare_option (Integer <$> sqlite_check_instr left needle) op value
  | CkSubstrCompare _ start length op value =>
      if is_null left then Ok None
      else compare_option (Some (Text (sqlite_substr_text (sqlite_text_like_value left) start length))) op value
  | CkAnd _ _ | CkOr _ _ | CkNot _ => Ok None
  end.

Definition and3 (lhs rhs : option bool) : option bool :=
  match lhs, rhs with
  | Some false, _ | _, Some false => Some false
  | Some true, Some true => Some true
  | _, _ => None
  end.
Definition or3 (lhs rhs : option bool) : option bool :=
  match lhs, rhs with
  | Some true, _ | _, Some true => Some true
  | Some false, Some false => Some false
  | _, _ => None
  end.

(** [evaluate_check_expr]: [concat_ws] without a separator does not read its column. *)
Fixpoint evaluate_check_expr self (expr : CheckExpr) (row : Row) (case_sensitive_like : bool) : Result (option bool) :=
  match expr with
  | CkAnd lhs rhs =>
      let? lhs := evaluate_check_expr self lhs row case_sensitive_like in
      let? rhs := evaluate_check_expr self rhs row case_sensitive_like in
      Ok (and3 lhs rhs)
  | CkOr lhs rhs =>
      let? lhs := evaluate_check_expr self lhs row case_sensitive_like in
      let? rhs := evaluate_check_expr self rhs row case_sensitive_like in
      Ok (or3 lhs rhs)
  | CkNot inner =>
      let? value := evaluate_check_expr self inner row case_sensitive_like in
      Ok (negb <$> value)
  | CkConcatWsCompare _ None _ _ _ => Ok None
  | _ =>
      match check_column expr with
      | Some column =>
          let? value := value_for_column self row column in
          evaluate_check_column case_sensitive_like expr value
      | None => Ok None
      end
  end.

(** ** Check constraints *)

Definition validate_check_constraint self (check : CheckConstraint) (row : Row) (case_sensitive_like : bool) : Result unit :=
  let? value := evaluate_check_expr self (check_expr check) row case_sensitive_like in
  if bool_decide (value = Some false) then Err (Storage ("check constraint '" ++ check_name check ++ "' failed")%string) else Ok tt.

Definition validate_check_constraints_with_like_mode self (row : Row) (case_sensitive_like : bool) : Result unit :=
  each_res (fun column => each_res (fun check => validate_check_constraint self check row case_sensitive_like) (column_checks column))
    (columns self) ;;?
  each_res (fun check => validate_check_constraint self check row case_sensitive_like) (checks self).

Definition validate_check_constraints self (row : Row) : Result unit :=
  validate_check_constraints_with_like_mode self row false.

Definition matches_check_expr_with_like_mode self (expr : CheckExpr) (row : Row) (case_sensitive_like : bool) : Result bool :=
  let? value := evaluate_check_expr self expr row case_sensitive_like in Ok (bool_decide (value = Some true)).
Definition matches_check_expr self (expr : CheckExpr) (row : Row) : Result bool :=
  matches_check_expr_with_like_mode self expr row false.

(** ** STRICT tables *)

Definition normalize_strict_value self (column : ColumnDef) (value : Value) : Result Value :=
  if is_null value || match column_type column with CtAny => true | _ => false end then Ok value
  else
    let normalized :=
      match column_type column with
      | CtAny => Some value
      | CtInteger => strict_integer_value value
      | CtReal => strict_real_value value
      | CtText => strict_text_value value
      | CtBlob => match value with Blob _ => Some value | _ => None end
      | CtNumeric | CtBoolean => if matches_value (column_type column) value then Some value else None
      end in
    ok_or normalized (Storage ("cannot store " ++ type_name value ++ " value in " ++ column_type_name (column_type column)
                               ++ " column " ++ schema_name self ++ "." ++ column_name column)%string).

Definition normalize_strict_row_values self (row : Row) : Result Row :=
  if negb (strict self) then Ok row
  else mapM_res (fun cv : ColumnDef * Value => normalize_strict_value self cv.1 cv.2) (zip (columns self) row).
End Eval.
