(* ===== verification/CheckLaws.v ===== *)
(** * What check constraints and STRICT tables guarantee

    Evaluation of check expressions returns and survives renaming and dropping columns;
    STRICT rows get the types of their columns; the arithmetic of check expressions is exact
    within its bounds. *)

From Stdlib Require Import SpecFloat Zquot.
From S2P Require Import Prelude Text Patterns PatternLaws Types Floats Schema SchemaLaws CheckValues CheckEval.

(** ** Integers as floating point numbers *)

Lemma digits2_pos_log2 p : Z.pos (digits2_pos p) = Z.log2 (Z.pos p) + 1.
Proof.
  induction p as [p IH|p IH|]; cbn [digits2_pos]; [..|done]; rewrite Pos2Z.inj_succ, IH.
  - rewrite Pos2Z.inj_xI. change (2 * Z.pos p + 1) with (Z.succ_double (Z.pos p)). rewrite Z.succ_double_spec, Z.log2_succ_double by lia. lia.
  - rewrite Pos2Z.inj_xO, Z.log2_double by lia. lia.
Qed.

Lemma iter_xO p k : Z.pos (Pos.iter xO p k) = Z.pos p * 2 ^ Z.pos k.
Proof.
  induction k as [|k IH] using Pos.peano_ind; [cbn; lia|].
  rewrite Pos.iter_succ, Pos2Z.inj_xO, IH, Pos2Z.inj_succ, Z.pow_succ_r by lia. lia.
Qed.

Lemma digits2_shift p k : Z.pos (digits2_pos (Pos.iter xO p k)) = Z.pos (digits2_pos p) + Z.pos k.
Proof. rewrite !digits2_pos_log2, iter_xO, <- Z.shiftl_mul_pow2, Z.log2_shiftl by lia. lia. Qed.

Lemma shr_fexp_exact m e : Z.pos (digits2_pos m) = 53 -> -1074 <= e ->
  shr_fexp 53 1024 (Z.pos m) e loc_Exact = (Build_shr_record (Z.pos m) false false, e).
Proof. intros Hd He. unfold shr_fexp, fexp, emin. cbn [Zdigits2]. rewrite Hd. replace (_ - e) with 0 by lia. done. Qed.

Lemma binary_round_aux_exact s m e : Z.pos (digits2_pos m) = 53 -> -1074 <= e <= 971 ->
  binary_round_aux 53 1024 s (Z.pos m) e loc_Exact = S754_finite s m e.
Proof.
  intros Hd [He1 He2]. unfold binary_round_aux. rewrite shr_fexp_exact by done. cbn [shr_m shr_r shr_s loc_of_shr_record round_nearest_even].
  rewrite shr_fexp_exact by done. cbn [shr_m]. by destruct (Z.leb_spec e (1024 - 53)); [|lia].
Qed.

(** An integer of at most 53 bits is converted exactly. *)
Lemma binary_round_small s p : Z.pos p < 2 ^ 53 ->
  exists m e, binary_round 53 1024 s p 0 = S754_finite s m e /\ (magnitude_floor m e).1 = Z.pos p.
Proof.
  intros Hp. assert (Hd : 1 <= Z.pos (digits2_pos p) <= 53).
  { rewrite digits2_pos_log2. pose proof (Z.log2_nonneg (Z.pos p)). apply Z.log2_lt_pow2 in Hp; lia. }
  unfold binary_round. rewrite Z.add_0_r. replace (fexp 53 1024 (Z.pos (digits2_pos p))) with (Z.pos (digits2_pos p) - 53) by (unfold fexp, emin; lia).
  unfold shl_align. rewrite Z.sub_0_r. destruct (Z.pos (digits2_pos p) - 53) as [|k|k] eqn:E; [|lia|].
  - rewrite binary_round_aux_exact by lia. exists p, 0. split; [done|]. unfold magnitude_floor. cbn [Z.leb Z.compare fst]. apply Z.shiftl_0_r.
  - rewrite binary_round_aux_exact by (rewrite ?digits2_shift; lia). eexists _, _. split; [done|]. unfold magnitude_floor.
    destruct (Z.leb_spec 0 (Z.neg k)); [lia|]. cbn [fst]. rewrite iter_xO, Z.shiftr_div_pow2 by lia.
    change (- Z.neg k) with (Z.pos k). by rewrite Z.div_mul by (apply Z.pow_nonzero; lia).
Qed.

Lemma f64_int_exact z : Z.abs z < 2 ^ 53 -> f64_to_i64 (f64_of_int z) = z.
Proof.
  intros Hz. unfold f64_of_int, f64_make, binary_normalize. destruct z as [|p|p]; [done|..];
    (destruct (binary_round_small false p) as (m & e & Hr & Hm); [lia|]); [|destruct (binary_round_small true p) as (m' & e' & Hr' & Hm'); [lia|]].
  - rewrite Hr. cbn [f64_to_i64 cond_Zopp]. rewrite Hm. unfold i64_min, i64_max. lia.
  - rewrite Hr'. cbn [f64_to_i64 cond_Zopp]. rewrite Hm'. unfold i64_min, i64_max. lia.
Qed.

(** The one quotient of 64-bit integers that is not one. *)
Lemma quot_overflow l r : is_i64 l -> is_i64 r -> ~ is_i64 (Z.quot l r) <-> l = i64_min /\ r = -1.
Proof.
  unfold is_i64, i64_min, i64_max. intros Hl Hr. split; [|intros [-> ->]; by vm_compute; intros []].
  intros Hq. destruct (decide (r = 0)) as [->|Hz]; [rewrite Zquot.Zquot_0_r in Hq; lia|].
  assert (Habs : Z.abs (Z.quot l r) * Z.abs r <= Z.abs l).
  { rewrite <- Z.quot_abs by done. pose proof (Z.mul_quot_le (Z.abs l) (Z.abs r)). lia. }
  destruct (decide (Z.abs r = 1)) as [H1|H1].
  - destruct (decide (r = 1)) as [->|]; [rewrite Z.quot_1_r in Hq; lia|]. assert (r = -1) as -> by lia.
    change (-1) with (- (1)) in Hq. rewrite Z.quot_opp_r, Z.quot_1_r in Hq by done. lia.
  - assert (2 * Z.abs (Z.quot l r) <= Z.abs l) by nia. lia.
Qed.

(** ** Evaluation depends on the columns it reads *)

Section Eval.
Context {SelectStatement : Type} `{Libm, JsonParser}.
Abbreviation Schema := (Schema SelectStatement).
Implicit Types self : Schema.

Lemma check_column_map r expr : check_column (map_check_column r expr) = r <$> check_column expr.
Proof. by destruct expr. Qed.

Lemma evaluate_column_map r cs expr v : evaluate_check_column cs (map_check_column r expr) v = evaluate_check_column cs expr v.
Proof. by destruct expr. Qed.

Lemma references_check_column expr c : check_column expr = Some c -> check_references_column expr c = true.
Proof. destruct expr; cbn; try done; intros [= <-]; by rewrite String.eqb_refl. Qed.

(** The value of each column of [expr] in [self] is that of its image under [r]. *)
Lemma evaluate_check_expr_map r self self' row row' cs expr :
  (forall c, check_references_column expr c = true -> value_for_column self' row' (r c) = value_for_column self row c) ->
  evaluate_check_expr self' (map_check_column r expr) row' cs = evaluate_check_expr self expr row cs.
Proof.
  induction expr; intros Hv;
    try (cbn [evaluate_check_expr map_check_column check_column]; rewrite Hv by (apply references_check_column; done); done).
  - cbn [evaluate_check_expr map_check_column check_references_column] in *. rewrite IHexpr1, IHexpr2; [done|..];
      intros c Hc; apply Hv; rewrite Hc; [by rewrite orb_true_r|done].
  - cbn [evaluate_check_expr map_check_column check_references_column] in *. rewrite IHexpr1, IHexpr2; [done|..];
      intros c Hc; apply Hv; rewrite Hc; [by rewrite orb_true_r|done].
  - cbn [evaluate_check_expr map_check_column check_references_column] in *. by rewrite IHexpr.
Qed.

Lemma map_check_column_id expr : map_check_column (fun c => c) expr = expr.
Proof. induction expr; cbn; congruence. Qed.

Lemma value_for_existing self row c i :
  column_position c (columns self) = Some i -> (i < length row)%nat -> exists v, value_for_column self row c = Ok v /\ row !! i = Some v.
Proof.
  intros Hi Hlen. unfold value_for_column, column_index. rewrite Hi. cbn [ok_or bind].
  destruct (lookup_lt_is_Some_2 row i Hlen) as [v ->]. by exists v.
Qed.

Lemma column_position_exists self c : has_column self c = true -> exists i, column_position c (columns self) = Some i /\ (i < length (columns self))%nat.
Proof.
  unfold has_column, column_position. intros (column & Hin & Hc)%existsb_elem. apply String.eqb_eq in Hc.
  destruct (list_find _ (columns self)) as [[i c']|] eqn:E.
  - exists i. split; [done|]. apply list_find_Some in E as (E & _). by apply lookup_lt_Some in E.
  - apply list_find_None in E. rewrite Forall_forall in E. by destruct (E column Hin).
Qed.

(** *** Renaming a column *)

Lemma value_for_renamed self row old_name new_name c :
  length row = length (columns self) -> has_column self new_name = false -> has_column self c = true ->
  value_for_column (renamed_schema old_name new_name self) row (rename old_name new_name c) = value_for_column self row c.
Proof.
  intros Hlen Hnew Hc. destruct (column_position_exists _ _ Hc) as (i & Hi & Hlt).
  assert (Hpos : column_position (rename old_name new_name c) (columns (renamed_schema old_name new_name self)) = Some i).
  { apply column_position_Some in Hi as (column & Hci & Hname & Hfirst). apply column_position_Some.
    assert (Hcols : map column_name (columns (renamed_schema old_name new_name self)) = map (rename old_name new_name) (map column_name (columns self)))
      by apply renamed_columns.
    assert (Hat : forall j c', columns (renamed_schema old_name new_name self) !! j = Some c' ->
      exists c0, columns self !! j = Some c0 /\ column_name c' = rename old_name new_name (column_name c0)).
    { intros j c' Hj. assert (Hn : map column_name (columns (renamed_schema old_name new_name self)) !! j = Some (column_name c')) by by rewrite list_lookup_fmap, Hj.
      rewrite Hcols, !list_lookup_fmap in Hn. destruct (columns self !! j) as [c0|]; [|done]. exists c0. split; [done|]. cbn in Hn. congruence. }
    assert (Hlen' : length (columns (renamed_schema old_name new_name self)) = length (columns self))
      by by rewrite <- (length_map column_name), Hcols, !length_map.
    destruct (lookup_lt_is_Some_2 (columns (renamed_schema old_name new_name self)) i) as [c' Hc']; [lia|].
    destruct (Hat i c' Hc') as (c0 & Hc0 & Hn). exists c'. split; [done|]. split; [congruence|].
    intros j cj Hj Hcj Heq. destruct (Hat j cj Hcj) as (c1 & Hc1 & Hn1). apply (Hfirst j c1 Hj Hc1).
    assert (column_name c1 <> new_name).
    { intros E. assert (has_column self new_name = true); [|congruence]. apply has_column_In. rewrite <- E. apply list_elem_of_fmap_2. by eapply list_elem_of_lookup_2. }
    assert (c <> new_name) by (intros ->; congruence).
    rewrite Hn1, !rename_cases in Heq. repeat case_decide; congruence. }
  destruct (value_for_existing self row c i Hi) as (v & Hv & Hri); [lia|]. rewrite Hv.
  unfold value_for_column, column_index. rewrite Hpos. cbn [ok_or bind]. by rewrite Hri.
Qed.

(** *** Dropping a column *)

Lemma list_find_delete (P : ColumnDef -> Prop) `{!forall c, Decision (P c)} cols i c0 j :
  cols !! i = Some c0 -> ~ P c0 -> fst <$> list_find P cols = Some j ->
  fst <$> list_find P (delete i cols) = Some (if decide (j < i)%nat then j else pred j).
Proof.
  revert i j. induction cols as [|c cols IH]; intros [|i] j Hi HP Hj; [done..| |].
  - injection Hi as <-. cbn [list_find delete list_delete] in *. destruct (decide (P c)); [done|].
    destruct (list_find P cols) as [[k ck]|]; [|done]. cbn in *. injection Hj as <-. by rewrite decide_False by lia.
  - cbn [list_find delete list_delete lookup] in *. destruct (decide (P c)).
    + injection Hj as <-. cbn. by rewrite decide_True by lia.
    + destruct (list_find P cols) as [[k ck]|] eqn:E; [|done]. cbn in Hj. injection Hj as <-.
      specialize (IH i k Hi HP eq_refl). destruct (list_find P (delete i cols)) as [[k' ck']|]; [|done]. cbn in *. injection IH as ->.
      apply list_find_Some in E as (Hk & HPk & _). assert (k <> i) by (intros ->; congruence). f_equal. repeat case_decide; lia.
Qed.

Lemma value_for_dropped self row name i c0 c :
  length row = length (columns self) -> columns self !! i = Some c0 -> column_name c0 = name -> c <> name -> has_column self c = true ->
  value_for_column (with_columns (delete i (columns self)) self) (delete i row) c = value_for_column self row c.
Proof.
  intros Hlen Hi Hname Hne Hc. destruct (column_position_exists _ _ Hc) as (j & Hj & Hlt).
  destruct (value_for_existing self row c j Hj) as (v & Hv & Hrj); [lia|]. rewrite Hv.
  assert (Hji : j <> i). { intros ->. apply column_position_Some in Hj as (c' & Hc' & Hn & _). congruence. }
  unfold value_for_column, column_index, column_position in *. cbn [columns with_columns].
  erewrite list_find_delete; [|done|by rewrite Hname|done]. cbn [ok_or bind]. case_decide.
  - by rewrite list_lookup_delete_lt, Hrj by lia.
  - rewrite list_lookup_delete_ge by lia. replace (S (pred j)) with j by lia. by rewrite Hrj.
Qed.

(** *** Evaluation returns *)

(** No division by an integer that is minus one. *)
Fixpoint no_minus_one (expr : CheckExpr) : Prop :=
  match expr with
  | CkDivideCompare _ divisor _ _ => divisor <> Integer (-1)
  | CkModuloCompare _ divisor _ _ _ => f64_to_i64 (sqlite_check_numeric_real divisor) <> -1
  | CkAnd lhs rhs | CkOr lhs rhs => no_minus_one lhs /\ no_minus_one rhs
  | CkNot inner => no_minus_one inner
  | _ => True
  end.

Lemma i64_div_Ok lhs rhs : rhs <> -1 -> i64_div lhs rhs = Ok (Z.quot lhs rhs).
Proof. intros Hne. unfold i64_div. by rewrite (proj2 (Z.eqb_neq rhs (-1)) Hne), andb_false_r. Qed.

Lemma divide_returns lhs rhs : rhs <> Integer (-1) -> returns (sqlite_check_divide lhs rhs).
Proof.
  intros Hne. unfold sqlite_check_divide, real_quotient. destruct rhs as [| |r| | |]; try by destruct lhs; repeat case_match.
  destruct lhs as [| |l| | |]; try by destruct r. destruct r as [|r|r]; [done|..]; rewrite i64_div_Ok; congruence || done.
Qed.

Lemma modulo_returns lhs rhs : f64_to_i64 (sqlite_check_numeric_real rhs) <> -1 -> returns (sqlite_check_modulo lhs rhs).
Proof.
  intros Hne. unfold sqlite_check_modulo, i64_rem.
  destruct (Z.eqb_spec (f64_to_i64 (sqlite_check_numeric_real rhs)) (-1)); [done|]. rewrite !andb_false_r.
  repeat case_match; done.
Qed.

Lemma check_like_returns value pattern escape cs : returns (check_matches_like_pattern value pattern escape cs).
Proof.
  unfold check_matches_like_pattern, like_escape_char. apply returns_bind; [|done]. by repeat case_match.
Qed.

Lemma evaluate_column_returns cs expr v : no_minus_one expr -> returns (evaluate_check_column cs expr v).
Proof.
  destruct expr; cbn [no_minus_one evaluate_check_column]; intros Hne; unfold compare_option; try done; repeat case_match; try done;
    (apply returns_bind; [|done]).
  - apply sqlite_regexp_matches_returns.
  - apply check_like_returns.
  - by apply divide_returns.
  - by apply modulo_returns.
Qed.

Lemma evaluate_returns self row cs expr :
  length row = length (columns self) -> (forall c, check_references_column expr c = true -> has_column self c = true) ->
  no_minus_one expr -> returns (evaluate_check_expr self expr row cs).
Proof.
  intros Hlen. induction expr as [ | | | | | | | | | | | | | | | | | | | | | | | | | | | | | | | | | | | | | | | | |e1 IH1 e2 IH2|e1 IH1 e2 IH2|e IH];
    intros Hc Hne; cbn [evaluate_check_expr check_column];
    try (destruct (column_position_exists self column) as (i & Hi & Hlt); [apply Hc, references_check_column; done|];
         destruct (value_for_existing self row column i Hi) as (v & Hv & _); [lia|]; rewrite Hv; cbn [bind];
         first [by apply evaluate_column_returns | case_match; [by apply evaluate_column_returns|done]]).
  - destruct Hne. cbn [check_references_column] in Hc. apply returns_bind; [|intros ? _; apply returns_bind; [|done]];
      [apply IH1|apply IH2]; try done; intros c Hr; apply Hc; rewrite Hr; [done|by rewrite orb_true_r].
  - destruct Hne. cbn [check_references_column] in Hc. apply returns_bind; [|intros ? _; apply returns_bind; [|done]];
      [apply IH1|apply IH2]; try done; intros c Hr; apply Hc; rewrite Hr; [done|by rewrite orb_true_r].
  - apply returns_bind; [by apply IH|done].
Qed.

(** *** All the checks of a schema *)

Lemma validate_all_checks self row cs :
  validate_check_constraints_with_like_mode self row cs = each_res (fun check => validate_check_constraint self check row cs) (all_checks self).
Proof. unfold validate_check_constraints_with_like_mode, all_checks. by rewrite each_res_app, each_res_flat_map. Qed.

Lemma checked_columns_exist self check c :
  validate_constraints_metadata self = Ok tt -> check ∈ all_checks self -> check_references_column (check_expr check) c = true ->
  has_column self c = true.
Proof. intros (Hc & _)%metadata_Ok. apply Hc. Qed.

Lemma check_renamed self check row cs old_name new_name :
  validate_constraints_metadata self = Ok tt -> length row = length (columns self) -> has_column self new_name = false -> check ∈ all_checks self ->
  validate_check_constraint (renamed_schema old_name new_name self) (rename_check old_name new_name check) row cs =
  validate_check_constraint self check row cs.
Proof.
  intros Hv Hlen Hnew Hin. unfold validate_check_constraint. cbn [check_expr check_name rename_check with_check_expr].
  unfold rename_check_expr_column. rewrite (evaluate_check_expr_map _ self _ row); [done|].
  intros c Hc. apply value_for_renamed; [done..|]. by eapply checked_columns_exist.
Qed.

Lemma check_dropped self check row cs name i c0 :
  validate_constraints_metadata self = Ok tt -> length row = length (columns self) -> columns self !! i = Some c0 -> column_name c0 = name ->
  ~ mentioned self name -> check ∈ all_checks self ->
  validate_check_constraint (with_columns (delete i (columns self)) self) check (delete i row) cs = validate_check_constraint self check row cs.
Proof.
  intros Hv Hlen Hi Hname Hno Hin. unfold validate_check_constraint.
  rewrite <- (map_check_column_id (check_expr check)) at 1. rewrite (evaluate_check_expr_map _ self _ row); [done|].
  intros c Hc. eapply value_for_dropped; [done..| |by eapply checked_columns_exist]. intros ->. apply Hno. left. eauto.
Qed.

(** ** STRICT tables *)

(** The value has the type of the column, or is null. *)
Definition typed (column : ColumnDef) (value : Value) : Prop := value = Null \/ matches_value (column_type column) value = true.

Lemma strict_integer_typed value v : strict_integer_value value = Some v -> exists z, v = Integer z.
Proof.
  assert (Hi : forall f v, strict_integral f = Some v -> exists z, v = Integer z).
  { unfold strict_integral. intros f w. case_match; [|done]. intros [= <-]. eauto. }
  destruct value; cbn [strict_integer_value]; intros Hv; simplify_eq; eauto.
  case_match; simplify_option_eq; eauto.
Qed.

Lemma strict_real_typed value v : strict_real_value value = Some v -> exists bits, v = Real bits.
Proof. destruct value; cbn [strict_real_value]; unfold real; intros Hv; simplify_eq; eauto. simplify_option_eq. case_match; simplify_eq. eauto. Qed.

Lemma strict_text_typed value v : strict_text_value value = Some v -> exists s, v = Text s.
Proof. destruct value; cbn [strict_text_value]; intros Hv; simplify_eq; eauto. Qed.

Lemma normalize_typed self column value value' :
  normalize_strict_value self column value = Ok value' -> typed column value' /\ is_null value' = is_null value.
Proof.
  unfold normalize_strict_value, typed. destruct (is_null value || _) eqn:E.
  - intros [= <-]. split; [|done]. apply orb_true_iff in E as [E|E]; [left; by destruct value|right; by destruct (column_type column), value].
  - apply orb_false_iff in E as [E1 E2]. intros Hn%ok_or_Ok_inv.
    assert (Hnull : is_null value' = false /\ matches_value (column_type column) value' = true); [|by destruct Hnull as [-> ?]; rewrite E1; split; [right|]].
    destruct (column_type column); try done.
    + destruct value; simplify_option_eq; done.
    + by destruct (strict_integer_typed _ _ Hn) as [z ->].
    + destruct value; simplify_option_eq; done.
    + by destruct (strict_real_typed _ _ Hn) as [bits ->].
    + destruct value; simplify_option_eq; done.
    + by destruct (strict_text_typed _ _ Hn) as [t ->].
Qed.

Lemma normalize_fixed self column value : typed column value -> normalize_strict_value self column value = Ok value.
Proof.
  intros [->|Hm]; [done|]. unfold normalize_strict_value. destruct (column_type column), value; cbn in *; done.
Qed.

Lemma normalize_row_fixed self row :
  Forall2 typed (columns self) row -> mapM_res (fun cv : ColumnDef * Value => normalize_strict_value self cv.1 cv.2) (zip (columns self) row) = Ok row.
Proof.
  induction 1 as [|column value cols row Ht Hf IH]; [done|]. cbn [zip_with mapM_res fst snd]. rewrite normalize_fixed by done. cbn [bind]. by rewrite IH.
Qed.

Lemma normalize_row_typed self cols row row' :
  length row = length cols -> mapM_res (fun cv : ColumnDef * Value => normalize_strict_value self cv.1 cv.2) (zip cols row) = Ok row' ->
  Forall2 typed cols row' /\ map is_null row' = map is_null row.
Proof.
  revert row row'. induction cols as [|column cols IH]; intros [|value row] row' Hlen; try done; cbn [zip_with mapM_res fst snd].
  - intros [= <-]. by split; [constructor|].
  - intros (v & Hv%normalize_typed & (vs & Hvs%IH & [= <-])%bind_Ok_inv)%bind_Ok_inv; [|by injection Hlen].
    destruct Hv as [? ?], Hvs as [? ?]. split; [by constructor|]. cbn [map]. congruence.
Qed.

Lemma mapM_res_returns {A B} (f : A -> Result B) l : (forall a, returns (f a)) -> returns (mapM_res f l).
Proof. intros Hf. induction l as [|a l IH]; [done|]. cbn. apply returns_bind; [done|]. intros b _. by apply returns_bind. Qed.
End Eval.

(** ** Theorems *)

Section Claims.
Context {SelectStatement : Type} `{Libm, JsonParser}.
Abbreviation Schema := (Schema SelectStatement).
Implicit Types self : Schema.

(** C34: a check constraint keeps its meaning. In a schema with valid metadata, renaming a
    column to a name that no column has leaves the outcome of checking any row of the table
    as it is, message included; a row that passes the checks passes those of the schema
    without a dropped column, less the value of that column. *)
Theorem check_constraints_stable self (row : Row) (case_sensitive_like : bool) :
  validate_constraints_metadata self = Ok tt -> length row = length (columns self) ->
  (forall old_name new_name, has_column self new_name = false ->
     validate_check_constraints_with_like_mode (renamed_schema old_name new_name self) row case_sensitive_like =
     validate_check_constraints_with_like_mode self row case_sensitive_like) /\
  (forall name self' i, schema_name self <> "" -> drop_column name self = Ok (self', i) ->
     validate_check_constraints_with_like_mode self row case_sensitive_like = Ok tt ->
     validate_check_constraints_with_like_mode self' (delete i row) case_sensitive_like = Ok tt).
Proof.
  intros Hv Hlen. rewrite validate_all_checks. split.
  - intros old_name new_name Hnew. rewrite validate_all_checks, renamed_checks, each_res_map.
    apply each_res_ext. intros check Hin. by apply check_renamed.
  - intros name self' i Hname (Hd & Hi & -> & _)%drop_column_inv; [|done].
    destruct Hd as (j & c0 & Hj & Hc0 & _ & _ & _ & Hno). assert (j = i) as -> by congruence.
    apply column_position_Some in Hj as (c & Hc & Hn & _). assert (c = c0) as -> by congruence.
    rewrite validate_all_checks, !each_res_Ok, !Forall_forall. intros Hall check Hin%updated_checks. by erewrite check_dropped; eauto.
Qed.

(** C35: checking a row returns. With valid metadata, a row of the table's width and no
    division or modulo by minus one, checking the constraints of a row gives an answer or an
    error: it neither misses a column nor panics. (With minus one,
    [check_division_panics].) *)
Theorem check_constraints_return self (row : Row) (case_sensitive_like : bool) :
  validate_constraints_metadata self = Ok tt -> length row = length (columns self) ->
  (forall check, check ∈ all_checks self -> no_minus_one (check_expr check)) ->
  returns (validate_check_constraints_with_like_mode self row case_sensitive_like) /\
  (validate_check_constraints_with_like_mode self row case_sensitive_like = Ok tt <->
   forall check, check ∈ all_checks self ->
     exists answer, evaluate_check_expr self (check_expr check) row case_sensitive_like = Ok answer /\ answer <> Some false).
Proof.
  intros Hv Hlen Hno. rewrite validate_all_checks.
  assert (Hret : forall check, check ∈ all_checks self -> returns (evaluate_check_expr self (check_expr check) row case_sensitive_like)).
  { intros check Hin. apply evaluate_returns; [done| |by apply Hno]. intros c. by apply checked_columns_exist. }
  split.
  - clear Hno Hv. induction (all_checks self) as [|check l IH]; [done|]. cbn [each_res].
    apply returns_bind; [|intros _ _; apply IH; intros c Hc; apply Hret; by right].
    unfold validate_check_constraint. apply returns_bind; [apply Hret; by left|]. intros a _. by case_bool_decide.
  - rewrite each_res_Ok, Forall_forall. unfold validate_check_constraint. split; intros Hall check Hin; specialize (Hall check Hin).
    + destruct (evaluate_check_expr _ _ _ _) as [answer| | |]; cbn [bind] in Hall; try done. exists answer. split; [done|]. by case_bool_decide.
    + destruct Hall as (answer & -> & Hne). cbn [bind]. by rewrite bool_decide_false.
Qed.

(** C36: STRICT tables. Normalising a row of the table's width returns; the row it returns
    has the types of the columns and its nulls where they were, and normalising it again
    changes nothing; a row that has the types already is returned as it is. *)
Theorem strict_rows_typed self (row : Row) :
  strict self = true -> length row = length (columns self) ->
  returns (normalize_strict_row_values self row) /\
  (forall row', normalize_strict_row_values self row = Ok row' ->
     Forall2 typed (columns self) row' /\ map is_null row' = map is_null row /\ normalize_strict_row_values self row' = Ok row') /\
  (Forall2 typed (columns self) row -> normalize_strict_row_values self row = Ok row).
Proof.
  intros Hs Hlen. unfold normalize_strict_row_values. rewrite Hs. cbn [negb]. split_and!.
  - apply mapM_res_returns. intros [c v]. cbn [fst snd]. unfold normalize_strict_value. case_match; [done|]. apply returns_ok_or.
  - intros row' (Ht & Hn)%normalize_row_typed; [|done]. split_and!; [done..|]. by apply normalize_row_fixed.
  - apply normalize_row_fixed.
Qed.

End Claims.

(** ** A concrete schema *)

#[local] Instance sample_libm : Libm := {|
  libm_powi := fun x _ => x;
  libm_ln := id; libm_log10 := id; libm_log2 := id; libm_exp := id;
  libm_sin := id; libm_cos := id; libm_tan := id; libm_sinh := id; libm_cosh := id; libm_tanh := id;
  libm_asin := id; libm_acos := id; libm_atan := id; libm_asinh := id; libm_acosh := id; libm_atanh := id;
  libm_powf := fun x _ => x; libm_atan2 := fun x _ => x; libm_log := fun x _ => x
|}.
#[local] Instance sample_json : JsonParser := {| json_is_valid := fun l => bool_decide (l = chars "1") |}.

Definition checked (check : CheckExpr) : Schema unit :=
  mkSchema unit "t" [sample_column "id" CtInteger true; sample_column "n" CtInteger false; sample_column "m" CtText false]
    ObjTable None None None [mkCheckConstraint "c" true check] [] None [] [] true false.
Definition sample_check : CheckExpr := CkAnd (CkLike "m" "a%" None false) (CkDivideCompare "id" (Integer 2) CkOpGt (Integer 0)).
Definition sample_checked_row : Row := [Integer 4; Null; Text "Abc"].

Lemma check_constraints_stable_witness :
  (forall old_name new_name, has_column (checked sample_check) new_name = false ->
     validate_check_constraints_with_like_mode (renamed_schema old_name new_name (checked sample_check)) sample_checked_row false =
     validate_check_constraints_with_like_mode (checked sample_check) sample_checked_row false) /\
  (forall name self' i, schema_name (checked sample_check) <> "" -> drop_column name (checked sample_check) = Ok (self', i) ->
     validate_check_constraints_with_like_mode (checked sample_check) sample_checked_row false = Ok tt ->
     validate_check_constraints_with_like_mode self' (delete i sample_checked_row) false = Ok tt).
Proof. apply (check_constraints_stable (checked sample_check) sample_checked_row false); reflexivity. Defined.

Lemma check_constraints_return_witness :
  returns (validate_check_constraints_with_like_mode (checked sample_check) sample_checked_row false) /\
  (validate_check_constraints_with_like_mode (checked sample_check) sample_checked_row false = Ok tt <->
   forall check, check ∈ all_checks (checked sample_check) ->
     exists answer, evaluate_check_expr (checked sample_check) (check_expr check) sample_checked_row false = Ok answer /\ answer <> Some false).
Proof.
  apply (check_constraints_return (checked sample_check) sample_checked_row false); [reflexivity..|].
  intros check Hin. apply list_elem_of_singleton in Hin as ->. cbn. split; [exact I|discriminate].
Defined.

Example sample_passes : validate_check_constraints_with_like_mode (checked sample_check) sample_checked_row false = Ok tt.
Proof. vm_compute. reflexivity. Qed.
Example sample_fails : is_err (validate_check_constraints_with_like_mode (checked sample_check) [Integer 4; Null; Text "xyz"] false) = true.
Proof. vm_compute. reflexivity. Qed.

Lemma strict_rows_typed_witness :
  returns (normalize_strict_row_values (checked sample_check) [Text " 7 "; Integer 3; Integer 5]) /\
  (forall row', normalize_strict_row_values (checked sample_check) [Text " 7 "; Integer 3; Integer 5] = Ok row' ->
     Forall2 typed (columns (checked sample_check)) row' /\ map is_null row' = map is_null [Text " 7 "; Integer 3; Integer 5] /\
     normalize_strict_row_values (checked sample_check) row' = Ok row') /\
  (Forall2 typed (columns (checked sample_check)) [Text " 7 "; Integer 3; Integer 5] ->
   normalize_strict_row_values (checked sample_check) [Text " 7 "; Integer 3; Integer 5] = Ok [Text " 7 "; Integer 3; Integer 5]).
Proof. apply (strict_rows_typed (checked sample_check) [Text " 7 "; Integer 3; Integer 5]); reflexivity. Defined.

Example sample_normalised :
  normalize_strict_row_values (checked sample_check) [Text " 7 "; Integer 3; Integer 5] = Ok [Integer 7; Integer 3; Text "5"].
Proof. vm_compute. reflexivity. Qed.


(** ** Where the code goes wrong *)

(** A check that divides the least integer by minus one panics. *)
Lemma check_division_panics :
  validate_check_constraints_with_like_mode (checked (CkDivideCompare "id" (Integer (-1)) CkOpGt (Integer 0))) [Integer i64_min; Null; Null] false =
  Panic "attempt to divide with overflow".
Proof. vm_compute. reflexivity. Qed.

(** The remainder of integers beyond 53 bits is that of their rounded values. *)
Lemma check_modulo_rounds : sqlite_check_modulo (Integer 9007199254740993) (Integer 2) = Ok (Some (Integer 0)).
Proof. vm_compute. reflexivity. Qed.

(** The text of an integer beyond 64 bits counts as zero, where a real of that size is
    clamped to the largest integer. *)
Lemma integer_text_overflows_to_zero :
  sqlite_text_integer_prefix "9223372036854775808" = 0 /\ sqlite_text_integer_prefix "9223372036854775808.0" = i64_max.
Proof. vm_compute. by split. Qed.

(** A STRICT integer column takes the real 2^63 and stores another number. *)
Lemma strict_real_clamped : strict_integer_value (real (f64_of_int two63)) = Some (Integer i64_max).
Proof. vm_compute. reflexivity. Qed.

(** Rounding 2^130 gives zero: [checked_shl] does not detect that bits are shifted out. *)
Lemma round_loses_bits : sqlite_round_f64 (f64_of_int (2 ^ 130)) 0 = S754_zero false.
Proof. vm_compute. reflexivity. Qed.
