(* ===== verification/Parser.v ===== *)
(** * The parser's tokens: the primitives of [src/sql/parser.rs]

    A parser is a list of tokens and an index. The list ends with [TkEof], which [advance]
    does not pass. The methods that look at the next token, consume it or report that
    another one was expected, and those that read a name, a literal or the words of a type. *)

From S2P Require Import Prelude Text Floats Types Ast Lexer Schema CheckValues.

Record Parser := mkParser { tokens : list Token; index : nat }.
Definition set_index (i : nat) (p : Parser) : Parser := mkParser (tokens p) i.

(** ** Kinds of tokens *)

(** [std::mem::discriminant] *)
Definition discriminant (k : TokenKind) : Z :=
  match k with
  | TkCreate => 0 | TkAlter => 1 | TkAdd => 2 | TkRename => 3 | TkReplace => 4 | TkDrop => 5 | TkTable => 6
  | TkColumn => 7 | TkTo => 8 | TkUnique => 9 | TkIndex => 10 | TkOn => 11 | TkOff => 12 | TkConflict => 13
  | TkDo => 14 | TkNothing => 15 | TkInsert => 16 | TkInto => 17 | TkValues => 18 | TkSelect => 19 | TkDelete => 20
  | TkUpdate => 21 | TkSet => 22 | TkFrom => 23 | TkWhere => 24 | TkGroup => 25 | TkHaving => 26 | TkOrder => 27
  | TkBy => 28 | TkLimit => 29 | TkOffset => 30 | TkWith => 31 | TkRecursive => 32 | TkUnion => 33
  | TkIntersect => 34 | TkExcept => 35 | TkAll => 36 | TkAs => 37 | TkInner => 38 | TkCross => 39 | TkLeft => 40
  | TkRight => 41 | TkFull => 42 | TkOuter => 43 | TkNatural => 44 | TkJoin => 45 | TkUsing => 46 | TkAsc => 47
  | TkDesc => 48 | TkAnd => 49 | TkOr => 50 | TkLike => 51 | TkGlob => 52 | TkRegexp => 53 | TkMatch => 54
  | TkEscape => 55 | TkBetween => 56 | TkBegin => 57 | TkStart => 58 | TkTransaction => 59 | TkIsolation => 60
  | TkLevel => 61 | TkRead => 62 | TkCommitted => 63 | TkRepeatable => 64 | TkSerializable => 65 | TkCommit => 66
  | TkRollback => 67 | TkSavepoint => 68 | TkRelease => 69 | TkCase => 70 | TkWhen => 71 | TkThen => 72
  | TkElse => 73 | TkEnd => 74 | TkIf => 75 | TkNot => 76 | TkIn => 77 | TkIs => 78 | TkExists => 79
  | TkExplain => 80 | TkQuery => 81 | TkPlan => 82 | TkPragma => 83 | TkAnalyze => 84 | TkReindex => 85
  | TkVacuum => 86 | TkDistinct => 87 | TkDefault => 88 | TkReturning => 89 | TkCheck => 90 | TkCollate => 91
  | TkConstraint => 92 | TkForeign => 93 | TkReferences => 94 | TkGenerated => 95 | TkAlways => 96 | TkStored => 97
  | TkVirtual => 98 | TkIsNull => 99 | TkNotNull => 100 | TkNulls => 101 | TkFirst => 102 | TkLast => 103
  | TkPrimary => 104 | TkKey => 105 | TkStrict => 106 | TkAutoincrement => 107 | TkIntegerType => 108
  | TkTextType => 109 | TkBlobType => 110 | TkBooleanType => 111 | TkTrue => 112 | TkFalse => 113 | TkNull => 114
  | TkIdentifier _ => 115 | TkInteger _ => 116 | TkReal _ => 117 | TkString _ => 118 | TkBlobLiteral _ => 119
  | TkStar => 120 | TkComma => 121 | TkSemicolon => 122 | TkLParen => 123 | TkRParen => 124 | TkEq => 125
  | TkNe => 126 | TkGt => 127 | TkGte => 128 | TkLt => 129 | TkLte => 130 | TkPlus => 131 | TkMinus => 132
  | TkSlash => 133 | TkPercent => 134 | TkAmpersand => 135 | TkPipe => 136 | TkShiftLeft => 137 | TkShiftRight => 138
  | TkTilde => 139 | TkPipePipe => 140 | TkArrow => 141 | TkArrowText => 142 | TkDot => 143 | TkEof => 144
  end.
Definition same_variant (left right : TokenKind) : bool := discriminant left =? discriminant right.

Definition is_identifier_token (token : TokenKind) : bool :=
  match token with
  | TkIdentifier _ | TkNulls | TkFirst | TkLast | TkLevel | TkOffset | TkRead | TkCommitted | TkRepeatable
  | TkSerializable | TkSavepoint | TkRelease => true
  | _ => false
  end.

Definition is_select_alias_token (token : TokenKind) : bool :=
  match token with
  | TkString _ | TkTrue | TkFalse | TkBegin | TkRollback => true
  | _ => is_identifier_token token
  end.

Definition is_scalar_expr_start (token : TokenKind) : bool :=
  is_identifier_token token ||
  match token with
  | TkLParen | TkCase | TkNot | TkPlus | TkMinus | TkReplace | TkLike | TkGlob | TkInteger _ | TkReal _
  | TkBlobLiteral _ | TkString _ | TkTrue | TkFalse | TkNull => true
  | _ => false
  end.

Definition is_filter_expr_terminator (token : TokenKind) : bool :=
  match token with
  | TkAnd | TkOr | TkGroup | TkHaving | TkOn | TkOrder | TkLimit | TkOffset | TkUnion | TkRParen | TkSemicolon | TkEof => true
  | _ => false
  end.

Definition is_scalar_suffix_after_group (token : TokenKind) : bool :=
  match token with
  | TkEq | TkNe | TkGt | TkGte | TkLt | TkLte | TkIs | TkIsNull | TkNotNull | TkLike | TkGlob | TkBetween | TkIn | TkNot => true
  | _ => false
  end.

(** ** Text of tokens *)

(** The text of a keyword or of punctuation, the same in [display_token] and
    [token_sql_fragment]; the other kinds have arms of their own. *)
Definition token_text (token : TokenKind) : string :=
  match token with
  | TkCreate => "CREATE" | TkAlter => "ALTER" | TkAdd => "ADD" | TkRename => "RENAME" | TkReplace => "REPLACE"
  | TkDrop => "DROP" | TkTable => "TABLE" | TkColumn => "COLUMN" | TkTo => "TO" | TkUnique => "UNIQUE"
  | TkIndex => "INDEX" | TkOn => "ON" | TkOff => "OFF" | TkConflict => "CONFLICT" | TkDo => "DO"
  | TkNothing => "NOTHING" | TkInsert => "INSERT" | TkInto => "INTO" | TkValues => "VALUES" | TkSelect => "SELECT"
  | TkDelete => "DELETE" | TkUpdate => "UPDATE" | TkSet => "SET" | TkFrom => "FROM" | TkWhere => "WHERE"
  | TkGroup => "GROUP" | TkHaving => "HAVING" | TkOrder => "ORDER" | TkBy => "BY" | TkLimit => "LIMIT"
  | TkOffset => "OFFSET" | TkWith => "WITH" | TkRecursive => "RECURSIVE" | TkUnion => "UNION"
  | TkIntersect => "INTERSECT" | TkExcept => "EXCEPT" | TkAll => "ALL" | TkAs => "AS" | TkInner => "INNER"
  | TkCross => "CROSS" | TkLeft => "LEFT" | TkRight => "RIGHT" | TkFull => "FULL" | TkOuter => "OUTER"
  | TkNatural => "NATURAL" | TkJoin => "JOIN" | TkUsing => "USING" | TkAsc => "ASC" | TkDesc => "DESC"
  | TkAnd => "AND" | TkOr => "OR" | TkLike => "LIKE" | TkGlob => "GLOB" | TkRegexp => "REGEXP" | TkMatch => "MATCH"
  | TkEscape => "ESCAPE" | TkBetween => "BETWEEN" | TkBegin => "BEGIN" | TkStart => "START"
  | TkTransaction => "TRANSACTION" | TkIsolation => "ISOLATION" | TkLevel => "LEVEL" | TkRead => "READ"
  | TkCommitted => "COMMITTED" | TkRepeatable => "REPEATABLE" | TkSerializable => "SERIALIZABLE"
  | TkCommit => "COMMIT" | TkRollback => "ROLLBACK" | TkSavepoint => "SAVEPOINT" | TkRelease => "RELEASE"
  | TkCase => "CASE" | TkWhen => "WHEN" | TkThen => "THEN" | TkElse => "ELSE" | TkEnd => "END" | TkIf => "IF"
  | TkNot => "NOT" | TkIn => "IN" | TkIs => "IS" | TkExists => "EXISTS" | TkExplain => "EXPLAIN" | TkQuery => "QUERY"
  | TkPlan => "PLAN" | TkPragma => "PRAGMA" | TkAnalyze => "ANALYZE" | TkReindex => "REINDEX" | TkVacuum => "VACUUM"
  | TkDistinct => "DISTINCT" | TkDefault => "DEFAULT" | TkReturning => "RETURNING" | TkCheck => "CHECK"
  | TkCollate => "COLLATE" | TkConstraint => "CONSTRAINT" | TkForeign => "FOREIGN" | TkReferences => "REFERENCES"
  | TkGenerated => "GENERATED" | TkAlways => "ALWAYS" | TkStored => "STORED" | TkVirtual => "VIRTUAL"
  | TkIsNull => "ISNULL" | TkNotNull => "NOTNULL" | TkNulls => "NULLS" | TkFirst => "FIRST" | TkLast => "LAST"
  | TkPrimary => "PRIMARY" | TkKey => "KEY" | TkStrict => "STRICT" | TkAutoincrement => "AUTOINCREMENT"
  | TkIntegerType => "INTEGER" | TkTextType => "TEXT" | TkBlobType => "BLOB" | TkBooleanType => "BOOLEAN"
  | TkTrue => "TRUE" | TkFalse => "FALSE" | TkNull => "NULL" | TkStar => "*" | TkComma => "," | TkSemicolon => ";"
  | TkLParen => "(" | TkRParen => ")" | TkEq => "=" | TkNe => "!=" | TkGt => ">" | TkGte => ">=" | TkLt => "<"
  | TkLte => "<=" | TkPlus => "+" | TkMinus => "-" | TkSlash => "/" | TkPercent => "%" | TkAmpersand => "&"
  | TkPipe => "|" | TkShiftLeft => "<<" | TkShiftRight => ">>" | TkTilde => "~" | TkPipePipe => "||"
  | TkArrow => "->" | TkArrowText => "->>" | TkDot => "."
  | _ => ""
  end.

(** [format!("{byte:02X}")] of each byte. *)
Definition hex_digit_upper (n : Z) : Z := if n <? 10 then 48 + n else 55 + n.
Definition hex_upper (b : bytes) : string := bytes_string (flat_map (fun byte => [hex_digit_upper (byte / 16); hex_digit_upper (byte mod 16)]) b).

Definition display_token (token : TokenKind) : string :=
  match token with
  | TkIdentifier name => "identifier '" ++ name ++ "'"
  | TkInteger value => "integer literal " ++ pretty value
  | TkReal bits => "real literal " ++ f64_to_string (f64_of_bits bits)
  | TkBlobLiteral value => "blob literal X'" ++ hex_upper value ++ "'"
  | TkString value => "string literal '" ++ value ++ "'"
  | TkEof => "end of input"
  | _ => token_text token
  end.

Definition token_sql_fragment (token : Token) : string :=
  match kind token with
  | TkIdentifier name => name
  | TkInteger value => pretty value
  | TkReal bits => f64_to_string (f64_of_bits bits)
  | TkString value => "'" ++ of_chars (replace [c#"'"] [c#"'"; c#"'"] (chars value)) ++ "'"
  | TkBlobLiteral value => "X'" ++ hex_upper value ++ "'"
  | TkEof => ""
  | k => token_text k
  end.

(** ** Looking at and consuming tokens *)

Definition current (p : Parser) : Result Token := vec_index (tokens p) (index p).
Definition peek_kind : ST Parser TokenKind := st_get (fun p => let? token := current p in Ok (kind token)).
(** [self.tokens.get(i).map(|token| &token.kind)] *)
Definition kind_at (p : Parser) (i : nat) : option TokenKind := kind <$> tokens p !! i.

Definition advance : ST Parser unit :=
  st_mod (fun p => if (S (index p) <? length (tokens p))%nat then set_index (S (index p)) p else p).

Definition error_expected {A} (message : string) : ST Parser A :=
  st_get (fun p => let? token := current p in
                   Err (Sql ("expected " ++ message ++ " at position " ++ pretty (position token))%string)).
(** [Err(self.error_expected(&format!("{what}, found {}", display_token(self.peek_kind()))))] *)
Definition error_found {A} (what : string) : ST Parser A :=
  let! token := peek_kind in error_expected (what ++ ", found " ++ display_token token)%string.

Definition matches (expected : TokenKind) : ST Parser bool :=
  let! token := peek_kind in
  if same_variant token expected then advance ;;! st_ret true else st_ret false.

Definition expect_keyword (expected : TokenKind) : ST Parser unit :=
  let! token := peek_kind in
  if same_variant token expected then advance else error_found (display_token expected).
Definition expect_symbol (expected : TokenKind) : ST Parser unit := expect_keyword expected.

Definition expect_eof : ST Parser unit :=
  let! token := peek_kind in
  match token with TkEof => st_ret tt | _ => error_found "end of input" end.

(** [matches!(self.peek_kind(), expected)] for a kind without payload. *)
Definition peek_is (expected : TokenKind) : ST Parser bool :=
  let! token := peek_kind in st_ret (same_variant token expected).
(** [self.index = self.index.saturating_sub(1)] *)
Definition step_back : ST Parser unit := st_mod (fun p => set_index (pred (index p)) p).
Definition get_index : ST Parser nat := st_read index.
(** [self.index - 1] *)
Definition previous_index : ST Parser nat :=
  st_get (fun p => match index p with O => Panic "attempt to subtract with overflow" | S i => Ok i end).
Definition reset_to (i : nat) : ST Parser unit := st_mod (set_index i).

(** A loop of the parser; each round but the last consumes a token. *)
Definition p_loop {A B} (body : A -> ST Parser (A + B)) (a : A) : ST Parser B :=
  fun p => st_loop (S (length (tokens p))) body a p.
(** [loop { items.push(item()?); if !self.matches(&TokenKind::Comma) { break; } }] *)
Definition comma_separated {A} (item : ST Parser A) : ST Parser (list A) :=
  p_loop (fun items =>
    let! a := item in
    if! matches TkComma then st_ret (inl (items ++ [a])) else st_ret (inr (items ++ [a]))) [].
(** [let mut expr = operand()?; loop { let op = ...; expr = build(expr, op, operand()?); }]:
    [operator] consumes one of the level's operators, if there is one. *)
Definition left_associative {A O} (operand : ST Parser A) (operator : ST Parser (option O)) (build : A -> O -> A -> A) : ST Parser A :=
  let! first := operand in
  p_loop (fun expr =>
    let! op := operator in
    match op with
    | Some op => let! next := operand in st_ret (inl (build expr op next))
    | None => st_ret (inr expr)
    end) first.
(** The chain of [if self.matches(..) { Some(..) } else if ..]. *)
Fixpoint match_operator {O} (ops : list (TokenKind * O)) : ST Parser (option O) :=
  match ops with
  | [] => st_ret None
  | (token, op) :: ops => if! matches token then st_ret (Some op) else match_operator ops
  end.

(** ** Names *)

(** The names of the keywords that [parse_simple_identifier] accepts. *)
Definition identifier_text (token : TokenKind) : option string :=
  match token with
  | TkIdentifier name => Some name
  | TkNulls => Some "nulls"%string
  | TkFirst => Some "first"%string
  | TkLast => Some "last"%string
  | TkLevel => Some "level"%string
  | TkOffset => Some "offset"%string
  | TkRead => Some "read"%string
  | TkCommitted => Some "committed"%string
  | TkRepeatable => Some "repeatable"%string
  | TkSerializable => Some "serializable"%string
  | TkReplace => Some "replace"%string
  | TkSavepoint => Some "savepoint"%string
  | TkRelease => Some "release"%string
  | _ => None
  end.
Definition parse_simple_identifier : ST Parser string :=
  let! token := peek_kind in
  match identifier_text token with
  | Some name => advance ;;! st_ret name
  | None => error_found "identifier"
  end.

Definition parse_identifier : ST Parser string :=
  let! first := parse_simple_identifier in
  p_loop (fun identifier =>
    if! matches TkDot then let! segment := parse_simple_identifier in st_ret (inl (identifier ++ "." ++ segment)%string)
    else st_ret (inr identifier)) first.

Definition parse_schema_qualified_name_with_schema : ST Parser (string * option string) :=
  let! name := parse_simple_identifier in
  let! dot := matches TkDot in
  if negb dot then st_ret (name, None)
  else if negb (str_eq_ignore_case name "main") && negb (str_eq_ignore_case name "temp") then
    st_err (Sql ("unknown database " ++ name)%string)
  else let! identifier := parse_simple_identifier in st_ret (identifier, Some name).
Definition parse_schema_qualified_name : ST Parser string :=
  let! found := parse_schema_qualified_name_with_schema in st_ret found.1.

(** [TokenKind::Identifier(name) if name.eq_ignore_ascii_case(word)] *)
Definition is_word (word : string) (token : TokenKind) : bool :=
  match token with TkIdentifier name => str_eq_ignore_case name word | _ => false end.
Definition parse_optional_identifier_keyword : ST Parser (option string) :=
  let! token := peek_kind in
  match token with
  | TkIdentifier word => advance ;;! st_ret (Some word)
  | TkMatch => advance ;;! st_ret (Some "MATCH"%string)
  | _ => st_ret None
  end.
Definition parse_optional_identifier_keyword_if (expected : string) : ST Parser bool :=
  let! word := parse_optional_identifier_keyword in
  match word with
  | None => st_ret false
  | Some word => if str_eq_ignore_case word expected then st_ret true else step_back ;;! st_ret false
  end.
Definition expect_identifier_keyword (expected : string) : ST Parser unit :=
  if! parse_optional_identifier_keyword_if expected then st_ret tt else error_found expected.

Definition parse_parenthesized_identifier_list : ST Parser (list string) :=
  expect_symbol TkLParen ;;!
  let! columns := comma_separated parse_simple_identifier in
  expect_symbol TkRParen ;;!
  st_ret columns.

Definition parse_optional_collation_name : ST Parser (option string) :=
  if! matches TkCollate then let! name := parse_simple_identifier in st_ret (Some name) else st_ret None.

Definition parse_pragma_name_argument : ST Parser string :=
  let! token := peek_kind in
  match token with TkString value => advance ;;! st_ret value | _ => parse_simple_identifier end.

(** ** Literals *)

(** [9_223_372_036_854_776_000.0]: the literal that is one too large for an [i64]. *)
Definition two63_real : f64 := f64_of_int 9223372036854775808.

(** [checked_neg]: [None] at the least integer. *)
Definition checked_neg (value : Z) : option Z := if value =? i64_min then None else Some (- value).

Definition parse_literal : ST Parser Value :=
  if! matches TkPlus then
    let! token := peek_kind in
    match token with
    | TkInteger value => advance ;;! st_ret (Integer value)
    | TkReal bits => advance ;;! st_ret (Real bits)
    | _ => error_expected "numeric literal after +"
    end
  else if! matches TkMinus then
    let! token := peek_kind in
    match token with
    | TkInteger value =>
        advance ;;!
        match checked_neg value with Some value => st_ret (Integer value) | None => st_err (Sql "integer overflow") end
    | TkReal bits =>
        advance ;;!
        st_ret (if f64_eqb (f64_of_bits bits) two63_real then Integer i64_min else real (f64_neg (f64_of_bits bits)))
    | _ => error_expected "numeric literal after -"
    end
  else
    let! token := peek_kind in
    match token with
    | TkInteger value => advance ;;! st_ret (Integer value)
    | TkReal bits => advance ;;! st_ret (Real bits)
    | TkBlobLiteral value => advance ;;! st_ret (Blob value)
    | TkString value => advance ;;! st_ret (Text value)
    | TkTrue => advance ;;! st_ret (Boolean true)
    | TkFalse => advance ;;! st_ret (Boolean false)
    | TkNull => advance ;;! st_ret Null
    | _ => error_found "literal"
    end.

(** ** Type names *)

Definition parse_optional_declared_type_word : ST Parser (option string) :=
  let! token := peek_kind in
  match token with
  | TkIntegerType | TkTextType | TkBlobType | TkBooleanType => advance ;;! st_ret (Some (token_text token))
  | TkIdentifier name => advance ;;! st_ret (Some (to_ascii_uppercase name))
  | _ => st_ret None
  end.

Definition expect_integer_literal_type_modifier : ST Parser unit :=
  let! token := peek_kind in
  match token with TkInteger _ => advance | _ => error_found "integer type modifier" end.
Definition parse_optional_type_modifiers : ST Parser unit :=
  let! opened := matches TkLParen in
  if negb opened then st_ret tt
  else
    expect_integer_literal_type_modifier ;;!
    p_loop (fun _ => if! matches TkComma then expect_integer_literal_type_modifier ;;! st_ret (inl tt) else st_ret (inr tt)) tt ;;!
    expect_symbol TkRParen.

Definition str_starts_with (s prefix : string) : bool := String.prefix prefix s.
Definition one_of (s : string) (l : list string) : bool := existsb (String.eqb s) l.
Definition normalized_type (declared_type : string) : string := to_ascii_uppercase (of_chars (trim (chars declared_type))).

Definition sqlite_declared_type_is_numeric (declared_type : string) : bool :=
  let normalized := normalized_type declared_type in
  one_of normalized ["NUMERIC"; "DECIMAL"]%string || str_starts_with normalized "NUMERIC(" || str_starts_with normalized "DECIMAL(".

Definition sqlite_declared_type_affinity (declared_type : string) : option ColumnType :=
  let normalized := normalized_type declared_type in
  if String.eqb normalized "ANY" then Some CtAny
  else if str_contains normalized "INT" then Some CtInteger
  else if one_of normalized ["CHAR"; "CLOB"; "TEXT"; "VARCHAR"; "NCHAR"; "NVARCHAR"]%string || str_contains normalized "CHAR"
          || str_contains normalized "CLOB" || str_contains normalized "TEXT" then Some CtText
  else if str_contains normalized "BLOB" || String.eqb normalized "" then Some CtBlob
  else if String.eqb normalized "BOOLEAN" then Some CtBoolean
  else if one_of normalized ["REAL"; "DOUBLE"; "DOUBLE PRECISION"; "FLOAT"]%string then Some CtReal
  else if one_of normalized ["NONE"; "NUM"; "NUMERIC"; "DECIMAL"]%string || str_starts_with normalized "NUMERIC("
          || str_starts_with normalized "DECIMAL(" then Some CtNumeric
  else Some CtNumeric.

(** [vec![first]; while let Some(word) = ...] *)
Definition parse_declared_type_words : ST Parser (option (list string)) :=
  let! first := parse_optional_declared_type_word in
  match first with
  | None => st_ret None
  | Some first =>
      p_loop (fun words =>
        let! word := parse_optional_declared_type_word in
        match word with Some word => st_ret (inl (words ++ [word])) | None => st_ret (inr (Some words)) end) [first]
  end.
(** [self.parse_optional_type_modifiers().is_err()] *)
Definition type_modifiers_fail : ST Parser bool :=
  st_catch (parse_optional_type_modifiers ;;! st_ret false) (fun _ => st_ret true).

Definition join_declared_type_fragments (fragments : list string) : string :=
  fold_left (fun sql fragment =>
    let needs_space_before :=
      negb (String.eqb sql "") && negb (one_of fragment ["("; ")"; ","; ";"; "."]%string)
      && match last (chars sql) with Some c => negb (existsb (Z.eqb c) [c#"("; c#","; c#"."; c#" "]) | None => true end in
    (sql ++ (if needs_space_before then " " else "") ++ fragment)%string) fragments ""%string.

Definition tokens_between (start end_ : nat) (p : Parser) : list Token := take (end_ - start) (drop start (tokens p)).

Definition parse_optional_column_type : ST Parser (option (ColumnType * string)) :=
  let! start := get_index in
  let! declared_type := parse_declared_type_words in
  match declared_type with
  | None => st_ret None
  | Some declared_type =>
      if! type_modifiers_fail then reset_to start ;;! st_ret None
      else
        let! declared_type_sql := st_read (fun p => join_declared_type_fragments (map token_sql_fragment (tokens_between start (index p) p))) in
        match sqlite_declared_type_affinity (str_join " " declared_type) with
        | Some column_type => st_ret (Some (column_type, declared_type_sql))
        | None => reset_to start ;;! st_ret None
        end
  end.

Definition parse_optional_cast_type : ST Parser (option ColumnType) :=
  let! start := get_index in
  let! declared_type := parse_declared_type_words in
  match declared_type with
  | None => st_ret None
  | Some declared_type =>
      if! type_modifiers_fail then reset_to start ;;! st_ret None
      else
        let declared_type := str_join " " declared_type in
        if str_eq_ignore_case (of_chars (trim (chars declared_type))) "BOOLEAN" then st_ret (Some CtNumeric)
        else if sqlite_declared_type_is_numeric declared_type then st_ret (Some CtNumeric)
        else
          match sqlite_declared_type_affinity declared_type with
          | Some column_type => st_ret (Some column_type)
          | None => reset_to start ;;! st_ret None
          end
  end.
