(* ===== verification/ParserParts.v ===== *)
(** * The expressions of [src/sql/parser.rs]: what surrounds the grammar

    The names of functions, the constants that limits and literals are folded to, the
    arguments of aggregates, and the frames of windows, whose offsets are parsed by an
    argument. *)

From S2P Require Import Prelude Text Floats Types Ast Lexer Schema CheckValues Parser.

(** ** Names of functions *)

(** The [match function_name_upper] of [parse_scalar_function]: window functions... *)
Definition window_functions : list (string * WindowFunc) := [
  ("ROW_NUMBER", WinRowNumber); ("RANK", WinRank); ("DENSE_RANK", WinDenseRank); ("LAG", WinLag); ("LEAD", WinLead);
  ("NTILE", WinNtile); ("PERCENT_RANK", WinPercentRank); ("CUME_DIST", WinCumeDist); ("FIRST_VALUE", WinFirstValue);
  ("LAST_VALUE", WinLastValue); ("NTH_VALUE", WinNthValue)
]%string.
(** ... and scalar functions. *)
Definition scalar_functions : list (string * ScalarFunc) := [
  ("LENGTH", FnLength); ("OCTET_LENGTH", FnOctetLength); ("MIN", FnMinScalar); ("MAX", FnMaxScalar);
  ("DATE", FnDate); ("TIME", FnTime); ("DATETIME", FnDateTime); ("TIMEDIFF", FnTimeDiff); ("STRFTIME", FnStrftime);
  ("JULIANDAY", FnJulianDay); ("UNIXEPOCH", FnUnixEpoch); ("CHANGES", FnChanges); ("TOTAL_CHANGES", FnTotalChanges);
  ("PRINTF", FnPrintf); ("FORMAT", FnPrintf); ("IIF", FnIIf); ("IF", FnIf); ("CONCAT", FnConcat);
  ("CONCAT_WS", FnConcatWs); ("LIKELY", FnLikely); ("UNLIKELY", FnUnlikely); ("SQLITE_VERSION", FnSqliteVersion);
  ("SQLITE_SOURCE_ID", FnSqliteSourceId); ("SQLITE_COMPILEOPTION_USED", FnSqliteCompileOptionUsed);
  ("SQLITE_COMPILEOPTION_GET", FnSqliteCompileOptionGet); ("SQLITE_LOG", FnSqliteLog); ("SIGN", FnSign);
  ("RANDOMBLOB", FnRandomBlob); ("RANDOM", FnRandom); ("UNHEX", FnUnhex); ("UNISTR", FnUnistr);
  ("UNISTR_QUOTE", FnUnistrQuote); ("LIKELIHOOD", FnLikelihood); ("MOD", FnMod); ("CEIL", FnCeil);
  ("CEILING", FnCeiling); ("FLOOR", FnFloor); ("TRUNC", FnTrunc); ("PI", FnPi); ("SQRT", FnSqrt); ("POWER", FnPower);
  ("POW", FnPower); ("EXP", FnExp); ("SIN", FnSin); ("COS", FnCos); ("TAN", FnTan); ("SINH", FnSinh);
  ("COSH", FnCosh); ("TANH", FnTanh); ("ACOS", FnAcos); ("ASIN", FnAsin); ("ATAN", FnAtan); ("ATAN2", FnAtan2);
  ("ACOSH", FnAcosh); ("ASINH", FnAsinh); ("ATANH", FnAtanh); ("LN", FnLn); ("LOG10", FnLog10); ("LOG2", FnLog2);
  ("LOG", FnLog); ("DEGREES", FnDegrees); ("RADIANS", FnRadians); ("TYPEOF", FnTypeOf); ("SUBTYPE", FnSubtype);
  ("HEX", FnHex); ("SUBSTR", FnSubstr); ("SUBSTRING", FnSubstr); ("INSTR", FnInstr); ("REPLACE", FnReplace);
  ("LIKE", FnLikeFunc); ("GLOB", FnGlobFunc); ("REGEXP", FnRegexpFunc); ("MATCH", FnMatchFunc); ("QUOTE", FnQuote);
  ("UNICODE", FnUnicode); ("CHAR", FnChar); ("ZEROBLOB", FnZeroBlob); ("TRIM", FnTrim); ("LTRIM", FnLTrim);
  ("RTRIM", FnRTrim); ("LOWER", FnLower); ("UPPER", FnUpper); ("ABS", FnAbs); ("ROUND", FnRound);
  ("COALESCE", FnCoalesce); ("IFNULL", FnIfNull); ("NULLIF", FnNullIf); ("UNKNOWN", FnUnknown); ("JSON", FnJson);
  ("JSONB", FnJsonb); ("JSON_VALID", FnJsonValid); ("JSON_ERROR_POSITION", FnJsonErrorPosition);
  ("JSON_PRETTY", FnJsonPretty); ("JSON_QUOTE", FnJsonQuote); ("JSON_EXTRACT", FnJsonExtract);
  ("JSONB_EXTRACT", FnJsonbExtract); ("JSON_TYPE", FnJsonType); ("JSON_ARRAY", FnJsonArray);
  ("JSONB_ARRAY", FnJsonbArray); ("JSON_OBJECT", FnJsonObject); ("JSONB_OBJECT", FnJsonbObject);
  ("JSON_ARRAY_LENGTH", FnJsonArrayLength); ("JSON_REMOVE", FnJsonRemove); ("JSONB_REMOVE", FnJsonbRemove);
  ("JSON_SET", FnJsonSet); ("JSONB_SET", FnJsonbSet); ("JSON_INSERT", FnJsonInsert); ("JSONB_INSERT", FnJsonbInsert);
  ("JSON_REPLACE", FnJsonReplace); ("JSONB_REPLACE", FnJsonbReplace); ("JSON_PATCH", FnJsonPatch);
  ("JSONB_PATCH", FnJsonbPatch); ("LAST_INSERT_ROWID", FnLastInsertRowId)
]%string.
(** The [match] of [parse_aggregate_call_after_lparen]. *)
Definition aggregate_functions : list (string * AggregateFunc) := [
  ("COUNT", AggCount); ("SUM", AggSum); ("DECIMAL_SUM", AggDecimalSum); ("AVG", AggAvg); ("TOTAL", AggTotal);
  ("MEDIAN", AggMedian); ("PERCENTILE", AggPercentile); ("PERCENTILE_CONT", AggPercentileCont);
  ("PERCENTILE_DISC", AggPercentileDisc); ("GROUP_CONCAT", AggGroupConcat); ("STRING_AGG", AggGroupConcat);
  ("JSON_GROUP_ARRAY", AggJsonGroupArray); ("JSONB_GROUP_ARRAY", AggJsonbGroupArray);
  ("JSON_GROUP_OBJECT", AggJsonGroupObject); ("JSONB_GROUP_OBJECT", AggJsonbGroupObject); ("MIN", AggMin);
  ("MAX", AggMax)
]%string.

Definition aggregate_function_name (func : AggregateFunc) : string :=
  match func with
  | AggCount => "COUNT" | AggSum => "SUM" | AggDecimalSum => "DECIMAL_SUM" | AggAvg => "AVG" | AggTotal => "TOTAL"
  | AggMedian => "MEDIAN" | AggPercentile => "PERCENTILE" | AggPercentileCont => "PERCENTILE_CONT"
  | AggPercentileDisc => "PERCENTILE_DISC" | AggGroupConcat => "GROUP_CONCAT"
  | AggJsonGroupArray => "JSON_GROUP_ARRAY" | AggJsonbGroupArray => "JSONB_GROUP_ARRAY"
  | AggJsonGroupObject => "JSON_GROUP_OBJECT" | AggJsonbGroupObject => "JSONB_GROUP_OBJECT" | AggMin => "MIN"
  | AggMax => "MAX"
  end.

Definition is_aggregate_function_name (name : string) : bool :=
  one_of (to_ascii_uppercase name)
    (["COUNT"; "SUM"; "DECIMAL_SUM"; "AVG"; "TOTAL"; "MEDIAN"; "PERCENTILE"; "PERCENTILE_CONT"; "PERCENTILE_DISC"; "GROUP_CONCAT"; "STRING_AGG"; "JSON_GROUP_ARRAY"; "JSONB_GROUP_ARRAY"; "JSON_GROUP_OBJECT"; "JSONB_GROUP_OBJECT"; "MIN"; "MAX"])%string.

Definition pragma_names_without_argument : list string := [
  "pragma_table_list"; "pragma_foreign_key_check"; "pragma_database_list"; "pragma_pragma_list";
  "pragma_function_list"; "pragma_compile_options"; "pragma_collation_list"; "pragma_module_list"; "pragma_optimize";
  "pragma_quick_check"; "pragma_encoding"; "pragma_integrity_check"; "pragma_page_size"; "pragma_page_count";
  "pragma_max_page_count"; "pragma_freelist_count"; "pragma_user_version"; "pragma_application_id";
  "pragma_schema_version"; "pragma_data_version"; "pragma_journal_mode"; "pragma_synchronous"; "pragma_cache_size";
  "pragma_cache_spill"; "pragma_temp_store"; "pragma_locking_mode"; "pragma_auto_vacuum"; "pragma_busy_timeout";
  "pragma_analysis_limit"; "pragma_journal_size_limit"; "pragma_foreign_keys"; "pragma_defer_foreign_keys";
  "pragma_read_uncommitted"; "pragma_query_only"; "pragma_count_changes"; "pragma_recursive_triggers";
  "pragma_trusted_schema"; "pragma_ignore_check_constraints"; "pragma_automatic_index"; "pragma_cell_size_check";
  "pragma_secure_delete"; "pragma_threads"; "pragma_soft_heap_limit"; "pragma_hard_heap_limit";
  "pragma_full_column_names"; "pragma_short_column_names"; "pragma_fullfsync"; "pragma_checkpoint_fullfsync";
  "pragma_empty_result_callbacks"; "pragma_reverse_unordered_selects"
]%string.
Definition is_pragma_table_function_name (name : string) : bool :=
  one_of (to_ascii_lowercase name)
    (["pragma_table_info"; "pragma_table_xinfo"; "pragma_index_list"; "pragma_index_info"; "pragma_index_xinfo"; "pragma_foreign_key_list"]%string
     ++ pragma_names_without_argument).
Definition pragma_table_function_allows_no_argument (name : string) : bool :=
  one_of (to_ascii_lowercase name) pragma_names_without_argument.

(** ** Constants *)

(** [constant_limit_value]: the value of a [LIMIT], an [OFFSET] or a frame offset. *)
Fixpoint constant_limit_value (expr : ScalarExpr) : option f64 :=
  match expr with
  | SLiteral (Integer value) => Some (f64_of_int value)
  | SLiteral (Real bits) => Some (f64_of_bits bits)
  | SUnaryPlus expr => constant_limit_value expr
  | SUnaryMinus expr => f64_neg <$> constant_limit_value expr
  | SCast expr ty =>
      match constant_limit_value expr with
      | None => None
      | Some value =>
          match ty with
          | CtInteger => Some (f64_trunc value)
          | CtNumeric | CtReal => Some value
          | CtAny | CtBoolean | CtBlob | CtText => None
          end
      end
  | SFunction FnAbs [arg] => f64_abs <$> constant_limit_value arg
  | SBinary lhs op rhs =>
      match constant_limit_value lhs, constant_limit_value rhs with
      | Some l, Some r =>
          match op with
          | OpAdd => Some (f64_add l r)
          | OpSubtract => Some (f64_sub l r)
          | OpMultiply => Some (f64_mul l r)
          | OpDivide => Some (f64_div l r)
          | OpModulo => Some (f64_rem l r)
          | _ => None
          end
      | _, _ => None
      end
  | _ => None
  end.

Definition sqlite_limit_value (value : Z) : option Z := if 0 <=? value then Some value else None.
Definition sqlite_offset_value (value : Z) : Z := Z.max value 0.

Definition sqlite_literal_to_text_like (value : Value) : string :=
  match value with
  | Null => ""
  | Boolean value => if value then "1" else "0"
  | Integer value => pretty value
  | Real bits => f64_to_string (f64_of_bits bits)
  | Blob value => from_utf8_lossy value
  | Text value => value
  end.

(** [scalar_expr_literal_value]: the literal that an expression stands for where the tree
    has room for a value only. *)
Fixpoint scalar_expr_literal_value (expr : ScalarExpr) : option Value :=
  match expr with
  | SLiteral value => Some value
  | SUnaryMinus (SLiteral (Integer value)) => Integer <$> checked_neg value
  | SUnaryMinus (SLiteral (Real bits)) =>
      Some (if f64_eqb (f64_of_bits bits) two63_real then Integer i64_min else real (f64_neg (f64_of_bits bits)))
  | SBinary lhs OpConcat rhs =>
      match scalar_expr_literal_value lhs, scalar_expr_literal_value rhs with
      | Some l, Some r => Some (Text (sqlite_literal_to_text_like l ++ sqlite_literal_to_text_like r)%string)
      | _, _ => None
      end
  | _ => None
  end.
(** [values.iter().map(f).collect::<Option<Vec<_>>>()] *)
Fixpoint collect_option {A B} (f : A -> option B) (l : list A) : option (list B) :=
  match l with
  | [] => Some []
  | a :: l => match f a with None => None | Some b => cons b <$> collect_option f l end
  end.
Definition scalar_expr_list_literal_values (values : list ScalarExpr) : option (list Value) := collect_option scalar_expr_literal_value values.

Definition parse_values_rows_as_in_candidates (rows : list (list ScalarExpr)) : list ScalarExpr :=
  map (fun row => match row with [value] => value | _ => STuple row end) rows.

Definition sqlite_current_time_literal_expr (name : string) : option ScalarExpr :=
  match assoc_string (to_ascii_uppercase name) [("CURRENT_DATE", FnDate); ("CURRENT_TIME", FnTime); ("CURRENT_TIMESTAMP", FnDateTime)]%string with
  | Some func => Some (SFunction func [SLiteral (Text "now")])
  | None => None
  end.

Definition sqlite_binary_pattern_function (func : ScalarFunc) (pattern value : ScalarExpr) (negated : bool) : ScalarExpr :=
  let expr := SFunction func [pattern; value] in if negated then SNot expr else expr.

(** [(0.0..=1.0).contains(value)] *)
Definition is_probability (value : f64) : bool := f64_leb (f64_of_int 0) value && f64_leb value (f64_of_int 1).
Definition validate_likelihood_probability_arg (args : list ScalarExpr) : Result unit :=
  match args with
  | [_; second] =>
      let valid := match second with SLiteral (Real bits) => is_probability (f64_of_bits bits) | _ => false end in
      if valid then Ok tt else Err (Sql "second argument to likelihood() must be a constant between 0.0 and 1.0")
  | _ => Ok tt
  end.

(** ** Aggregates inside aggregates *)

(** [iter.find_map(f)] and [Option::or_else]. *)
Definition find_map {A B} (f : A -> option B) : list A -> option B :=
  fix go l := match l with [] => None | a :: l => match f a with Some b => Some b | None => go l end end.
Definition or_else {A} (a b : option A) : option A := match a with Some _ => a | None => b end.
Definition and_then {A B} (a : option A) (f : A -> option B) : option B := match a with Some a => f a | None => None end.

Fixpoint scalar_expr_nested_aggregate_name (expr : ScalarExpr) : option string :=
  let in_list := find_map scalar_expr_nested_aggregate_name in
  match expr with
  | SAggregate func _ _ => Some (aggregate_function_name func)
  | STuple values => in_list values
  | SUnaryPlus expr | SUnaryMinus expr | SBitNot expr | SNot expr | SCast expr _ | SCollate expr _ | SIsBool expr _ _ =>
      scalar_expr_nested_aggregate_name expr
  | SGlob expr pattern _ => or_else (scalar_expr_nested_aggregate_name expr) (scalar_expr_nested_aggregate_name pattern)
  | SLike expr pattern escape _ =>
      or_else (scalar_expr_nested_aggregate_name expr)
        (or_else (scalar_expr_nested_aggregate_name pattern) (and_then escape scalar_expr_nested_aggregate_name))
  | SIs lhs rhs _ | SCompare lhs _ rhs | SBinary lhs _ rhs =>
      or_else (scalar_expr_nested_aggregate_name lhs) (scalar_expr_nested_aggregate_name rhs)
  | SInList expr values _ => or_else (scalar_expr_nested_aggregate_name expr) (in_list values)
  | SInSubquery expr _ _ | SCompareSubquery expr _ _ => scalar_expr_nested_aggregate_name expr
  | SSubquery _ => None
  | SBetween expr low high _ =>
      or_else (or_else (scalar_expr_nested_aggregate_name expr) (scalar_expr_nested_aggregate_name low)) (scalar_expr_nested_aggregate_name high)
  | SCase base when_then_clauses else_expr =>
      or_else
        (or_else (and_then base scalar_expr_nested_aggregate_name)
           (find_map (fun clause : ScalarExpr * ScalarExpr =>
              let (when_expr, then_expr) := clause in
              or_else (scalar_expr_nested_aggregate_name when_expr) (scalar_expr_nested_aggregate_name then_expr)) when_then_clauses))
        (and_then else_expr scalar_expr_nested_aggregate_name)
  | SFunction _ args => in_list args
  | SWindowFunction _ args partition_by order_by _ _ _ _ =>
      or_else (or_else (in_list args) (in_list partition_by))
        (find_map (fun item => match item with
                               | mkOrderBy (ByExpr expr) _ _ _ => scalar_expr_nested_aggregate_name expr
                               | _ => None
                               end) order_by)
  | SLiteral _ | SColumn _ => None
  end.

Definition order_by_nested_aggregate_name (order_by : list OrderBy) : option string :=
  find_map (fun item => match item with
                        | mkOrderBy (ByExpr expr) _ _ _ => scalar_expr_nested_aggregate_name expr
                        | _ => None
                        end) order_by.

Definition aggregate_arg_nested_function_name (arg : AggregateArg) : option string :=
  match arg with
  | ArgWildcard => None
  | ArgExpr expr _ order_by => or_else (scalar_expr_nested_aggregate_name expr) (order_by_nested_aggregate_name order_by)
  | ArgGroupConcat expr separator _ order_by =>
      or_else (or_else (scalar_expr_nested_aggregate_name expr) (and_then separator scalar_expr_nested_aggregate_name))
        (order_by_nested_aggregate_name order_by)
  | ArgJsonGroupObject key value order_by =>
      or_else (or_else (scalar_expr_nested_aggregate_name key) (scalar_expr_nested_aggregate_name value)) (order_by_nested_aggregate_name order_by)
  | ArgPercentile expr fraction order_by =>
      or_else (or_else (scalar_expr_nested_aggregate_name expr) (scalar_expr_nested_aggregate_name fraction)) (order_by_nested_aggregate_name order_by)
  end.

(** ** Windows *)

Definition expect_words (words : list string) : ST Parser unit := st_each expect_identifier_keyword words.

Definition parse_optional_window_exclude : ST Parser WindowExclude :=
  let! excluded := parse_optional_identifier_keyword_if "EXCLUDE" in
  if negb excluded then st_ret ExcludeNoOthers
  else if! parse_optional_identifier_keyword_if "CURRENT" then expect_identifier_keyword "ROW" ;;! st_ret ExcludeCurrentRow
  else
    if! (if! matches TkGroup then st_ret true else parse_optional_identifier_keyword_if "GROUP") then st_ret ExcludeGroup
    else if! parse_optional_identifier_keyword_if "TIES" then st_ret ExcludeTies
    else expect_words ["NO"; "OTHERS"]%string ;;! st_ret ExcludeNoOthers.

Section Frames.
(** [self.parse_scalar_expr()] *)
Context (parse_scalar_expr : ST Parser ScalarExpr).

Definition parse_window_frame_offset (expected : string) : ST Parser Z :=
  let! _ := matches TkPlus in
  let! token := peek_kind in
  let other :=
    let! expr := parse_scalar_expr in
    match constant_limit_value expr with
    | None => st_err (Sql ("window frame offset must be a constant " ++ expected)%string)
    | Some value =>
        if f64_ltb value (f64_of_int 0) || negb (f64_eqb (f64_fract value) (f64_of_int 0)) then
          st_err (Sql ("window frame offset must be a non-negative integer, got " ++ f64_to_string value)%string)
        else if f64_ltb (f64_of_int u64_max) value then st_err (Sql "window frame offset is too large")
        else st_ret (f64_to_u64 value)
    end in
  match token with
  | TkInteger value => if 0 <=? value then advance ;;! st_ret value else other
  | _ => other
  end.

Definition parse_window_range_offset (expected : string) : ST Parser WindowRangeOffset :=
  let! _ := matches TkPlus in
  let! token := peek_kind in
  let other :=
    let! expr := parse_scalar_expr in
    match constant_limit_value expr with
    | None => st_err (Sql ("window RANGE offset must be a constant " ++ expected)%string)
    | Some value =>
        if f64_ltb value (f64_of_int 0) then
          st_err (Sql ("window RANGE offset must be non-negative, got " ++ f64_to_string value)%string)
        else st_ret (f64_to_bits value)
    end in
  match token with
  | TkInteger value => if 0 <=? value then advance ;;! st_ret (f64_to_bits (f64_of_int value)) else other
  | TkReal bits => if f64_leb (f64_of_int 0) (f64_of_bits bits) then advance ;;! st_ret bits else other
  | _ => other
  end.

(** [PRECEDING] or else [FOLLOWING]; true for the first. *)
Definition preceding_or_following : ST Parser bool :=
  if! parse_optional_identifier_keyword_if "PRECEDING" then st_ret true
  else expect_identifier_keyword "FOLLOWING" ;;! st_ret false.

(** A bound of a [RANGE] frame: an offset, if it has one, and its direction (the [i8]). *)
Definition parse_range_start : ST Parser (option WindowRangeOffset * Z) :=
  if! parse_optional_identifier_keyword_if "UNBOUNDED" then expect_identifier_keyword "PRECEDING" ;;! st_ret (None, -1)
  else if! parse_optional_identifier_keyword_if "CURRENT" then expect_identifier_keyword "ROW" ;;! st_ret (None, 0)
  else
    let! value := parse_window_range_offset "UNBOUNDED, CURRENT, or non-negative number" in
    let! preceding := preceding_or_following in
    st_ret (Some value, if (preceding : bool) then -1 else 1).

Definition range_error {A} : ST Parser A := st_err (Sql "numeric RANGE frame form is not supported yet").

(** The arms of [parse_optional_window_frame] after [RANGE BETWEEN]. *)
Definition parse_range_between : ST Parser WindowFrame :=
  let! start := parse_range_start in
  expect_keyword TkAnd ;;!
  if! parse_optional_identifier_keyword_if "CURRENT" then
    expect_identifier_keyword "ROW" ;;!
    match start with
    | (None, -1) => st_ret FrameDefault
    | (None, 0) => st_ret GroupsCurrentRow
    | (Some value, -1) => st_ret (RangePrecedingToCurrentRow value)
    | _ => range_error
    end
  else if! parse_optional_identifier_keyword_if "UNBOUNDED" then
    expect_identifier_keyword "FOLLOWING" ;;!
    match start with
    | (None, -1) => st_ret GroupsUnboundedPrecedingAndFollowing
    | (None, 0) => st_ret GroupsCurrentRowToUnboundedFollowing
    | (Some value, -1) => st_ret (RangePrecedingToUnboundedFollowing value)
    | (Some value, 1) => st_ret (RangeFollowingToUnboundedFollowing value)
    | _ => st_err (Sql "numeric RANGE start cannot end at UNBOUNDED FOLLOWING yet")
    end
  else
    let! end_value := parse_window_range_offset "UNBOUNDED, CURRENT, or non-negative number" in
    let! end_is_preceding := preceding_or_following in
    if end_is_preceding : bool then
      match start with
      | (None, -1) => st_ret (RangeUnboundedPrecedingToPreceding end_value)
      | (Some start, -1) => st_ret (RangePrecedingToPreceding start end_value)
      | _ => range_error
      end
    else
      match start with
      | (None, -1) => st_ret (RangeUnboundedPrecedingToFollowing end_value)
      | (None, 0) => st_ret (RangeCurrentRowToFollowing end_value)
      | (Some preceding, -1) => st_ret (RangePrecedingToFollowing preceding end_value)
      | (Some start, 1) => st_ret (RangeFollowingToFollowing start end_value)
      | _ => range_error
      end.

Definition parse_range_frame : ST Parser WindowFrame :=
  if! matches TkBetween then parse_range_between
  else if! parse_optional_identifier_keyword_if "CURRENT" then expect_identifier_keyword "ROW" ;;! st_ret GroupsCurrentRow
  else if! parse_optional_identifier_keyword_if "UNBOUNDED" then expect_identifier_keyword "PRECEDING" ;;! st_ret FrameDefault
  else
    let! preceding := parse_window_range_offset "CURRENT, UNBOUNDED, or non-negative number" in
    expect_identifier_keyword "PRECEDING" ;;!
    st_ret (RangePrecedingToCurrentRow preceding).

(** The frames of [GROUPS] and of [ROWS] are parsed by the same statements, which differ in
    the variants of [WindowFrame] they build. *)
Record FrameForms := mkFrameForms {
  current_row : WindowFrame;
  current_row_to_following : Z -> WindowFrame;
  current_row_to_unbounded_following : WindowFrame;
  unbounded_preceding_to_current_row : WindowFrame;
  unbounded_preceding_and_following : WindowFrame;
  preceding_to_current_row : Z -> WindowFrame;
  preceding_to_preceding : Z -> Z -> WindowFrame;
  preceding_to_following : Z -> Z -> WindowFrame;
  preceding_to_unbounded_following : Z -> WindowFrame;
  following_to_following : Z -> Z -> WindowFrame;
  following_to_unbounded_following : Z -> WindowFrame
}.
Definition groups_forms : FrameForms :=
  mkFrameForms GroupsCurrentRow GroupsCurrentRowToFollowing GroupsCurrentRowToUnboundedFollowing
    GroupsUnboundedPrecedingToCurrentRow GroupsUnboundedPrecedingAndFollowing GroupsPrecedingToCurrentRow
    GroupsPrecedingToPreceding GroupsPrecedingToFollowing GroupsPrecedingToUnboundedFollowing GroupsFollowingToFollowing
    GroupsFollowingToUnboundedFollowing.
Definition rows_forms : FrameForms :=
  mkFrameForms RowsCurrentRow RowsCurrentRowToFollowing RowsCurrentRowToUnboundedFollowing
    RowsUnboundedPrecedingToCurrentRow RowsUnboundedPrecedingAndFollowing RowsPrecedingToCurrentRow
    RowsPrecedingToPreceding RowsPrecedingToFollowing RowsPrecedingToUnboundedFollowing RowsFollowingToFollowing
    RowsFollowingToUnboundedFollowing.

(** After [BETWEEN start AND] for a start with an offset. *)
Definition parse_frame_end (forms : FrameForms) (start_value : Z) (start_is_following : bool) : ST Parser WindowFrame :=
  if! parse_optional_identifier_keyword_if "UNBOUNDED" then
    expect_identifier_keyword "FOLLOWING" ;;!
    st_ret (if start_is_following then following_to_unbounded_following forms start_value
            else preceding_to_unbounded_following forms start_value)
  else
    let! end_value := parse_window_frame_offset "non-negative integer" in
    let! end_is_preceding := preceding_or_following in
    if start_is_following then
      if end_is_preceding : bool then st_err (Sql "FOLLOWING frame start cannot end at PRECEDING")
      else st_ret (following_to_following forms start_value end_value)
    else if end_is_preceding : bool then st_ret (preceding_to_preceding forms start_value end_value)
    else st_ret (preceding_to_following forms start_value end_value).

Definition parse_frame_between (forms : FrameForms) : ST Parser WindowFrame :=
  if! parse_optional_identifier_keyword_if "CURRENT" then
    expect_identifier_keyword "ROW" ;;!
    expect_keyword TkAnd ;;!
    if! parse_optional_identifier_keyword_if "UNBOUNDED" then
      expect_identifier_keyword "FOLLOWING" ;;! st_ret (current_row_to_unbounded_following forms)
    else if! parse_optional_identifier_keyword_if "CURRENT" then expect_identifier_keyword "ROW" ;;! st_ret (current_row forms)
    else
      let! following := parse_window_frame_offset "non-negative integer" in
      expect_identifier_keyword "FOLLOWING" ;;!
      st_ret (current_row_to_following forms following)
  else
    let! start :=
      if! parse_optional_identifier_keyword_if "UNBOUNDED" then st_ret None
      else let! offset := parse_window_frame_offset "UNBOUNDED or non-negative integer" in st_ret (Some offset) in
    let! start_is_following :=
      match start with
      | Some _ => let! preceding := preceding_or_following in st_ret (negb preceding)
      | None => expect_identifier_keyword "PRECEDING" ;;! st_ret false
      end in
    expect_keyword TkAnd ;;!
    if! parse_optional_identifier_keyword_if "CURRENT" then
      expect_identifier_keyword "ROW" ;;!
      if start_is_following : bool then st_err (Sql "FOLLOWING frame start cannot end at CURRENT ROW")
      else st_ret match start with
                  | Some value => preceding_to_current_row forms value
                  | None => unbounded_preceding_to_current_row forms
                  end
    else
      match start with
      | Some start_value => parse_frame_end forms start_value start_is_following
      | None => expect_words ["UNBOUNDED"; "FOLLOWING"]%string ;;! st_ret (unbounded_preceding_and_following forms)
      end.

Definition parse_frame_of (forms : FrameForms) : ST Parser WindowFrame :=
  if! matches TkBetween then parse_frame_between forms
  else if! parse_optional_identifier_keyword_if "CURRENT" then expect_identifier_keyword "ROW" ;;! st_ret (current_row forms)
  else if! parse_optional_identifier_keyword_if "UNBOUNDED" then
    expect_identifier_keyword "PRECEDING" ;;! st_ret (unbounded_preceding_to_current_row forms)
  else
    let! preceding := parse_window_frame_offset "CURRENT, UNBOUNDED, or non-negative integer" in
    expect_identifier_keyword "PRECEDING" ;;!
    st_ret (preceding_to_current_row forms preceding).

Definition parse_optional_window_frame : ST Parser WindowFrame :=
  if! parse_optional_identifier_keyword_if "RANGE" then parse_range_frame
  else if! parse_optional_identifier_keyword_if "GROUPS" then parse_frame_of groups_forms
  else if! parse_optional_identifier_keyword_if "ROWS" then parse_frame_of rows_forms
  else st_ret FrameDefault.
End Frames.

(** ** Named windows *)

Record NamedWindowSpec := mkNamedWindowSpec {
  window_name : string;
  base_name : option string;
  partition_by : list ScalarExpr;
  window_order_by : list OrderBy;
  window_frame : WindowFrame;
  window_exclude : WindowExclude
}.

(** [resolve_named_window_spec] follows the chain of base names; nothing in the code stops
    at a window that is its own base, so the number of calls is bounded by [fuel]. *)
Fixpoint resolve_named_window_spec (fuel : nat) (windows : list NamedWindowSpec) (name : string)
    : Result (list ScalarExpr * list OrderBy * WindowFrame * WindowExclude) :=
  match fuel with
  | O => OutOfFuel
  | S fuel =>
      match List.find (fun candidate => str_eq_ignore_case (window_name candidate) name) windows with
      | None => Err (Sql ("unknown window name " ++ name)%string)
      | Some window =>
          match base_name window with
          | None => Ok (partition_by window, window_order_by window, window_frame window, window_exclude window)
          | Some base =>
              let? (base_partition_by, base_order_by, base_frame, base_exclude) := resolve_named_window_spec fuel windows base in
              if negb (bool_decide (length (partition_by window) = O)) then Err (Sql "named window reference cannot override PARTITION BY")
              else if negb (bool_decide (length base_order_by = O)) && negb (bool_decide (length (window_order_by window) = O)) then
                Err (Sql ("cannot override ORDER BY clause of window: " ++ base)%string)
              else if negb (frame_is_default base_frame) && negb (frame_is_default (window_frame window)) then
                Err (Sql ("cannot override frame specification of window: " ++ base)%string)
              else if negb (excludes_no_others base_exclude) && negb (excludes_no_others (window_exclude window)) then
                Err (Sql ("cannot override frame specification of window: " ++ base)%string)
              else
                Ok (base_partition_by,
                    match window_order_by window with [] => base_order_by | _ => window_order_by window end,
                    if frame_is_default (window_frame window) then base_frame else window_frame window,
                    if excludes_no_others (window_exclude window) then base_exclude else window_exclude window)
          end
      end
  end.

(** A chain without repetitions has at most one call per window. *)
Definition window_fuel (windows : list NamedWindowSpec) : nat := S (length windows).

Definition resolve_named_window_scalar_expr (expr : ScalarExpr) (windows : list NamedWindowSpec) : Result ScalarExpr :=
  match expr with
  | SWindowFunction func args partition order_by frame exclude (Some name) filter =>
      let? (base_partition_by, base_order_by, base_frame, base_exclude) := resolve_named_window_spec (window_fuel windows) windows name in
      if negb (bool_decide (length partition = O)) then Err (Sql "named window reference cannot override PARTITION BY")
      else if negb (bool_decide (length base_order_by = O)) && negb (bool_decide (length order_by = O)) then
        Err (Sql ("cannot override ORDER BY clause of window: " ++ name)%string)
      else if negb (frame_is_default base_frame) && negb (frame_is_default frame) then
        Err (Sql ("cannot override frame specification of window: " ++ name)%string)
      else if negb (excludes_no_others base_exclude) && negb (excludes_no_others exclude) then
        Err (Sql ("cannot override frame specification of window: " ++ name)%string)
      else
        Ok (SWindowFunction func args base_partition_by (match order_by with [] => base_order_by | _ => order_by end)
              (if frame_is_default frame then base_frame else frame)
              (if excludes_no_others exclude then base_exclude else exclude) None filter)
  | expr => Ok expr
  end.

Definition resolve_named_window_select_item (item : SelectItem) (windows : list NamedWindowSpec) : Result SelectItem :=
  match item with
  | ItemExpr expr alias => let? expr := resolve_named_window_scalar_expr expr windows in Ok (ItemExpr expr alias)
  | item => Ok item
  end.
Definition resolve_named_window_select_items (items : list SelectItem) (windows : list NamedWindowSpec) : Result (list SelectItem) :=
  mapM_res (fun item => resolve_named_window_select_item item windows) items.

(** ** Sources of rows *)

Definition from_item_qualifier (from : FromItem) : option string :=
  match from with
  | FromTable name _ alias | FromTableIndexed name _ alias _ | FromTableNotIndexed name _ alias | FromPragmaTableFunction name _ alias =>
      Some (default name alias)
  | FromSubquery _ alias _ => if String.eqb alias "" then None else Some alias
  | FromValues _ alias _ => alias
  end.

Definition qualify_join_using_column (qualifier : option string) (column : string) : string :=
  match qualifier with None => column | Some qualifier => (qualifier ++ "." ++ column)%string end.

(** [terms.remove(0)] panics on an empty list. *)
Definition rebuild_and_expr (terms : list Expr) : Result Expr :=
  match terms with
  | [] => Panic "removal index (is 0) should be < len (is 0)"
  | expr :: terms => Ok (fold_left EAnd terms expr)
  end.
