(* ===== verification/ParserQueries.v ===== *)
(** * Expressions and queries: the grammar of [src/sql/parser.rs]

    Scalar expressions, conditions and [SELECT] statements call one another. A [Grammar]
    is the methods that are called again after a token was consumed; each method is a
    definition over the [Grammar] it calls, and [grammar] ties the knot, one level of calls
    for each unit of fuel. *)

From S2P Require Import Prelude Text Floats Types Ast Lexer Schema CheckValues Parser ParserParts.

Record Grammar := mkGrammar {
  scalar_expr : ST Parser ScalarExpr;
  unary_scalar_expr : ST Parser ScalarExpr;
  or_expr : ST Parser Expr;
  not_expr : ST Parser Expr;
  select_statement : ST Parser SelectStatement
}.

Definition multiplicative_ops : list (TokenKind * ScalarBinaryOp) := [(TkStar, OpMultiply); (TkSlash, OpDivide); (TkPercent, OpModulo)].
Definition additive_ops : list (TokenKind * ScalarBinaryOp) := [(TkPlus, OpAdd); (TkMinus, OpSubtract)].
Definition bitwise_ops : list (TokenKind * ScalarBinaryOp) :=
  [(TkAmpersand, OpBitAnd); (TkPipe, OpBitOr); (TkShiftLeft, OpShiftLeft); (TkShiftRight, OpShiftRight)].
Definition concat_ops : list (TokenKind * ScalarBinaryOp) :=
  [(TkPipePipe, OpConcat); (TkArrow, OpJsonExtract); (TkArrowText, OpJsonExtractText)].
Definition compare_ops : list (TokenKind * CompareOp) :=
  [(TkEq, OpEq); (TkNe, OpNe); (TkGt, OpGt); (TkGte, OpGte); (TkLt, OpLt); (TkLte, OpLte)].

Definition is_subquery_start : ST Parser bool :=
  let! token := peek_kind in
  let! next := st_read (fun p => kind_at p (S (index p))) in
  st_ret (same_variant token TkLParen && match next with Some TkSelect => true | _ => false end).

(** The loop of [function_call_has_multiple_arguments]: a comma before the parenthesis that
    closes the call. *)
Fixpoint has_comma_at_depth_one (depth : nat) (l : list Token) : Result bool :=
  match l with
  | [] => Err (Sql "unterminated function call")
  | token :: l =>
      match kind token with
      | TkLParen => has_comma_at_depth_one (S depth) l
      | TkRParen => if bool_decide (pred depth = O) then Ok false else has_comma_at_depth_one (pred depth) l
      | TkComma => if bool_decide (depth = 1%nat) then Ok true else has_comma_at_depth_one depth l
      | _ => has_comma_at_depth_one depth l
      end
  end.
Definition function_call_has_multiple_arguments (lparen_index : nat) : ST Parser bool :=
  st_get (fun p => has_comma_at_depth_one 0 (drop lparen_index (tokens p))).

(** The arguments a window function takes. *)
Definition check_window_arguments (func : WindowFunc) (args : list ScalarExpr) : Result unit :=
  match func, length args with
  | (WinRowNumber | WinRank | WinDenseRank | WinPercentRank | WinCumeDist), n =>
      if bool_decide (n = O) then Ok tt else Err (Sql "ranking window function expects no arguments")
  | (WinLag | WinLead), n => if bool_decide (1 <= n <= 3)%nat then Ok tt else Err (Sql "LAG/LEAD expects 1 to 3 arguments")
  | WinNtile, n => if bool_decide (n = 1%nat) then Ok tt else Err (Sql "NTILE expects exactly 1 argument")
  | (WinFirstValue | WinLastValue), n =>
      if bool_decide (n = 1%nat) then Ok tt else Err (Sql "FIRST_VALUE/LAST_VALUE expects exactly 1 argument")
  | WinNthValue, n => if bool_decide (n = 2%nat) then Ok tt else Err (Sql "NTH_VALUE expects exactly 2 arguments")
  | _, _ => Ok tt
  end.

(** The window function of an aggregate, and its arguments. *)
Definition aggregate_window_call (func : AggregateFunc) (arg : AggregateArg) : Result (WindowFunc * list ScalarExpr) :=
  let plain f (distinct : bool) (order_by : list OrderBy) args : Result (WindowFunc * list ScalarExpr) :=
    if distinct || negb (bool_decide (length order_by = O)) then
      Err (Sql "DISTINCT or ORDER BY aggregate window arguments are not supported yet")
    else Ok (f, args) in
  match func with
  | AggCount | AggSum | AggAvg | AggTotal | AggMin | AggMax | AggGroupConcat | AggJsonGroupArray | AggJsonGroupObject =>
      match func, arg with
      | AggCount, ArgWildcard => Ok (WinCount, [])
      | AggCount, ArgExpr expr distinct order_by => plain WinCount distinct order_by [expr]
      | AggSum, ArgExpr expr distinct order_by => plain WinSum distinct order_by [expr]
      | AggAvg, ArgExpr expr distinct order_by => plain WinAvg distinct order_by [expr]
      | AggTotal, ArgExpr expr distinct order_by => plain WinTotal distinct order_by [expr]
      | AggMin, ArgExpr expr distinct order_by => plain WinMin distinct order_by [expr]
      | AggMax, ArgExpr expr distinct order_by => plain WinMax distinct order_by [expr]
      | AggGroupConcat, ArgGroupConcat expr separator distinct order_by =>
          plain WinGroupConcat distinct order_by (expr :: match separator with Some s => [s] | None => [] end)
      | AggJsonGroupArray, ArgExpr expr distinct order_by => plain WinJsonGroupArray distinct order_by [expr]
      | AggJsonGroupObject, ArgJsonGroupObject key value order_by =>
          if negb (bool_decide (length order_by = O)) then Err (Sql "ORDER BY aggregate window arguments are not supported yet")
          else Ok (WinJsonGroupObject, [key; value])
      | _, _ => Err (Sql "unsupported aggregate window function arguments")
      end
  | _ =>
      Err (Sql "only COUNT, SUM, AVG, TOTAL, MIN, MAX, GROUP_CONCAT, and JSON aggregate window functions are supported")
  end.

(** The first part of [parse_comparison_expr]: the condition that a scalar expression with
    a suffix stands for. *)
Definition in_list_expr (expr : ScalarExpr) (values : list ScalarExpr) (negated : bool) : Expr :=
  match expr with
  | SColumn column =>
      match scalar_expr_list_literal_values values with
      | Some values => EInList column values negated
      | None => EInListScalar (SColumn column) values negated
      end
  | expr => EInListScalar expr values negated
  end.
Definition is_null_expr (expr : ScalarExpr) (negated : bool) : Expr :=
  match expr with SColumn column => EIsNull column negated | expr => EIsNullScalar expr negated end.
Definition in_subquery_expr (expr : ScalarExpr) (query : SelectStatement) (negated : bool) : Expr :=
  match expr with SColumn column => EInSubquery column query negated | expr => EInSubqueryScalar expr query negated end.
Definition like_expr (expr pattern : ScalarExpr) (escape : option ScalarExpr) (negated : bool) : Expr :=
  match expr with SColumn column => ELike column pattern escape negated | expr => ELikeScalar expr pattern escape negated end.
Definition glob_expr (expr pattern : ScalarExpr) (negated : bool) : Expr :=
  match expr with SColumn column => EGlob column pattern negated | expr => EGlobScalar expr pattern negated end.
Definition between_expr (expr low high : ScalarExpr) (negated : bool) : Expr :=
  match expr, scalar_expr_literal_value low, scalar_expr_literal_value high with
  | SColumn column, Some low, Some high => EBetween column low high negated
  | expr, _, _ => EBetweenScalar expr low high negated
  end.
Definition compare_expr (lhs : ScalarExpr) (op : CompareOp) (rhs : ScalarExpr) : Expr :=
  match lhs, scalar_expr_literal_value rhs with
  | SColumn column, Some value => ECompare column op value
  | _, _ => ECompareScalar lhs op rhs
  end.
Definition condition_of_scalar (expr : ScalarExpr) : option Expr :=
  match expr with
  | SIsBool expr value negated => Some (EIsBool expr value negated true)
  | SIs lhs (SLiteral Null) negated => Some (is_null_expr lhs negated)
  | SIs lhs rhs negated => Some (EIs lhs rhs negated)
  | SInList expr values negated => Some (in_list_expr expr values negated)
  | SInSubquery expr query negated => Some (in_subquery_expr expr query negated)
  | SCompareSubquery (SColumn column) op query =>
      Some (if str_contains column "." then ECompareSubqueryScalar (SColumn column) op query else ECompareSubquery column op query)
  | SCompareSubquery lhs op query => Some (ECompareSubqueryScalar lhs op query)
  | SLike expr pattern escape negated => Some (like_expr expr pattern escape negated)
  | SGlob expr pattern negated => Some (glob_expr expr pattern negated)
  | SBetween expr low high negated => Some (between_expr expr low high negated)
  | SCompare lhs op rhs => Some (compare_expr lhs op rhs)
  | _ => None
  end.
Definition truthy (expr : ScalarExpr) : Expr := EIsBool expr true false false.

Section Methods.
Context (self : Grammar).

(** ** Pieces of expressions *)

Definition parse_subquery : ST Parser SelectStatement :=
  expect_symbol TkLParen ;;!
  let! query := select_statement self in
  expect_symbol TkRParen ;;!
  st_ret query.
Definition parse_subquery_after_exists : ST Parser SelectStatement := parse_subquery.

Definition parse_parenthesized_scalar_exprs : ST Parser (list ScalarExpr) :=
  expect_symbol TkLParen ;;!
  if! matches TkRParen then error_expected "literal or scalar expression"
  else
    let! values := comma_separated (scalar_expr self) in
    expect_symbol TkRParen ;;!
    st_ret values.

Definition parse_values_rows : ST Parser (list (list ScalarExpr)) :=
  expect_keyword TkValues ;;!
  comma_separated parse_parenthesized_scalar_exprs.

(** [loop { args.push(self.parse_scalar_expr()?); ... expect(RParen) }] unless [)] follows. *)
Definition parse_arguments : ST Parser (list ScalarExpr) :=
  if! matches TkRParen then st_ret []
  else
    let! args := comma_separated (scalar_expr self) in
    expect_symbol TkRParen ;;!
    st_ret args.

Definition parse_scalar_in_value_list : ST Parser (list ScalarExpr) :=
  expect_symbol TkLParen ;;!
  if! peek_is TkValues then
    let! rows := parse_values_rows in
    expect_symbol TkRParen ;;!
    st_ret (parse_values_rows_as_in_candidates rows)
  else parse_arguments.

Definition parse_cast_scalar_expr : ST Parser ScalarExpr :=
  expect_symbol TkLParen ;;!
  let! expr := scalar_expr self in
  expect_keyword TkAs ;;!
  let! ty := parse_optional_cast_type in
  match ty with
  | None => error_expected "type name in CAST expression"
  | Some ty => expect_symbol TkRParen ;;! st_ret (SCast expr ty)
  end.

Definition parse_case_scalar_expr : ST Parser ScalarExpr :=
  let! base := if! peek_is TkWhen then st_ret None else let! expr := scalar_expr self in st_ret (Some expr) in
  let! clauses :=
    p_loop (fun clauses =>
      if! matches TkWhen then
        let! when_expr := scalar_expr self in
        expect_keyword TkThen ;;!
        let! then_expr := scalar_expr self in
        st_ret (inl (clauses ++ [(when_expr, then_expr)]))
      else st_ret (inr clauses)) [] in
  if bool_decide (length clauses = O) then error_expected "WHEN in CASE expression"
  else
    let! else_expr := if! matches TkElse then let! expr := scalar_expr self in st_ret (Some expr) else st_ret None in
    expect_keyword TkEnd ;;!
    st_ret (SCase base clauses else_expr).

(** ** Ordering *)

Definition is_order_by_term_boundary_at (i : nat) : ST Parser bool :=
  st_read (fun p => match kind_at p i with
                    | Some (TkAsc | TkDesc | TkCollate | TkNulls | TkComma | TkSemicolon | TkEof | TkRParen) => true
                    | _ => false
                    end).

Definition parse_signed_order_by_integer_position_if_bare : ST Parser (option Z) :=
  let! token := peek_kind in
  let! start := get_index in
  let! bare := is_order_by_term_boundary_at (S start) in
  match token, bare with
  | TkInteger value, true => advance ;;! st_ret (Some (Z.max 0 value))
  | _, _ =>
      let! negative := if! matches TkMinus then st_ret (Some true) else if! matches TkPlus then st_ret (Some false) else st_ret None in
      match negative with
      | None => st_ret None
      | Some negative =>
          let! token := peek_kind in
          let! i := get_index in
          let! bare := is_order_by_term_boundary_at (S i) in
          match token, bare with
          | TkInteger _, true => advance ;;! st_ret (Some (if negative : bool then 0 else 1))
          | _, _ => reset_to start ;;! st_ret None
          end
      end
  end.

Definition parse_order_by_position_if_bare : ST Parser (option Z) :=
  let! position := parse_signed_order_by_integer_position_if_bare in
  match position with
  | Some position => st_ret (Some position)
  | None =>
      let! start := get_index in
      if! matches TkLParen then
        let! position := parse_signed_order_by_integer_position_if_bare in
        let! found :=
          match position with
          | None => st_ret false
          | Some _ => if! matches TkRParen then (let! i := get_index in is_order_by_term_boundary_at i) else st_ret false
          end in
        if found : bool then st_ret position else reset_to start ;;! st_ret None
      else st_ret None
  end.

Definition parse_descending : ST Parser bool :=
  if! matches TkDesc then st_ret true else (let! _ := matches TkAsc in st_ret false).
(** [found] says whether the error names the token that was found: one of the two copies
    of these lines leaves it out. *)
Definition parse_null_order (found : bool) : ST Parser (option NullOrder) :=
  if! matches TkNulls then
    if! matches TkFirst then st_ret (Some NullsFirst)
    else if! matches TkLast then st_ret (Some NullsLast)
    else if found then error_found "FIRST or LAST after NULLS" else error_expected "FIRST or LAST after NULLS"
  else st_ret None.

Definition column_or_expr (expr : ScalarExpr) : OrderByExpr :=
  match expr with SColumn name => ByColumn name | expr => ByExpr expr end.

Definition parse_order_by_item (allow_result_positions : bool) : ST Parser OrderBy :=
  let! position := if allow_result_positions then parse_order_by_position_if_bare else st_ret None in
  let finish expr :=
    let! collation := parse_optional_collation_name in
    let! descending := parse_descending in
    let! nulls := parse_null_order true in
    st_ret (mkOrderBy expr collation descending nulls) in
  match position with
  | Some position => finish (ByPosition position)
  | None =>
      let! expr := scalar_expr self in
      match expr with
      | SCollate expr collation =>
          let! descending := parse_descending in
          let! nulls := parse_null_order false in
          st_ret (mkOrderBy (column_or_expr expr) (Some collation) descending nulls)
      | expr => finish (column_or_expr expr)
      end
  end.
Definition parse_order_by_items (allow_result_positions : bool) : ST Parser (list OrderBy) :=
  comma_separated (parse_order_by_item allow_result_positions).
(** [if self.matches(&TokenKind::Order) { expect(By); parse_order_by_items } else { Vec::new() }] *)
Definition parse_optional_order_by (allow_result_positions : bool) : ST Parser (list OrderBy) :=
  if! matches TkOrder then expect_keyword TkBy ;;! parse_order_by_items allow_result_positions else st_ret [].

(** ** Windows and aggregates *)

Definition window_keywords : list string := ["PARTITION"; "ORDER"; "ROWS"; "RANGE"; "GROUPS"]%string.

Definition parse_window_definition_body : ST Parser (option string * list ScalarExpr * list OrderBy * WindowFrame * WindowExclude) :=
  let! token := peek_kind in
  let! base_name :=
    match token with
    | TkIdentifier name =>
        if existsb (str_eq_ignore_case name) window_keywords then st_ret None
        else let! name := parse_simple_identifier in st_ret (Some name)
    | _ => st_ret None
    end in
  let! partition :=
    if! parse_optional_identifier_keyword_if "PARTITION" then expect_keyword TkBy ;;! comma_separated (scalar_expr self) else st_ret [] in
  let! order_by := parse_optional_order_by false in
  let! frame := parse_optional_window_frame (scalar_expr self) in
  let! exclude := parse_optional_window_exclude in
  st_ret (base_name, partition, order_by, frame, exclude).

Definition parse_window_function_over_clause (func : WindowFunc) (args : list ScalarExpr) (filter : option Expr) : ST Parser ScalarExpr :=
  if! peek_is TkLParen then
    expect_symbol TkLParen ;;!
    let! (base, partition, order_by, frame, exclude) := parse_window_definition_body in
    expect_symbol TkRParen ;;!
    st_ret (SWindowFunction func args partition order_by frame exclude base filter)
  else
    let! name := parse_simple_identifier in
    st_ret (SWindowFunction func args [] [] FrameDefault ExcludeNoOthers (Some name) filter).

Definition parse_ranking_window_function (func : WindowFunc) : ST Parser ScalarExpr :=
  let! args := parse_arguments in
  st_get (fun _ => check_window_arguments func args) ;;!
  if! parse_optional_identifier_keyword_if "OVER" then parse_window_function_over_clause func args None
  else st_err (Sql "window ranking function requires an OVER clause").

(** [DISTINCT], or else [ALL], which is skipped. *)
Definition parse_distinct : ST Parser bool :=
  if! matches TkDistinct then st_ret true else (let! _ := matches TkAll in st_ret false).

Definition parse_aggregate_arg (func : AggregateFunc) : ST Parser AggregateArg :=
  let! token := peek_kind in
  match func, token with
  | AggCount, TkRParen => st_ret ArgWildcard
  | _, _ =>
      if! matches TkStar then st_ret ArgWildcard
      else
        match func with
        | AggGroupConcat =>
            let! distinct := parse_distinct in
            let! expr := scalar_expr self in
            let! separator :=
              if! matches TkComma then
                if distinct : bool then st_err (Sql "DISTINCT aggregates must have exactly one argument")
                else let! separator := scalar_expr self in st_ret (Some separator)
              else st_ret None in
            let! order_by := parse_optional_order_by false in
            st_ret (ArgGroupConcat expr separator distinct order_by)
        | AggPercentile | AggPercentileCont | AggPercentileDisc =>
            let! expr := scalar_expr self in
            expect_symbol TkComma ;;!
            let! fraction := scalar_expr self in
            let! order_by := parse_optional_order_by false in
            st_ret (ArgPercentile expr fraction order_by)
        | AggJsonGroupObject | AggJsonbGroupObject =>
            let! key := scalar_expr self in
            expect_symbol TkComma ;;!
            let! value := scalar_expr self in
            let! order_by := parse_optional_order_by false in
            st_ret (ArgJsonGroupObject key value order_by)
        | _ =>
            let! distinct := parse_distinct in
            let! expr := scalar_expr self in
            let! order_by := parse_optional_order_by false in
            st_ret (ArgExpr expr distinct order_by)
        end
  end.

Definition parse_aggregate_call_after_lparen (function_name_upper : string) : ST Parser (AggregateFunc * AggregateArg * option Expr) :=
  match assoc_string function_name_upper aggregate_functions with
  | None => st_err (Sql ("unsupported select function: " ++ function_name_upper)%string)
  | Some func =>
      let! arg := parse_aggregate_arg func in
      match aggregate_arg_nested_function_name arg with
      | Some name => st_err (Sql ("misuse of aggregate function " ++ name)%string)
      | None =>
          expect_symbol TkRParen ;;!
          let! token := peek_kind in
          let! filter :=
            if is_word "FILTER" token then
              advance ;;!
              expect_symbol TkLParen ;;!
              expect_keyword TkWhere ;;!
              let! filter := or_expr self in
              expect_symbol TkRParen ;;!
              st_ret (Some filter)
            else st_ret None in
          st_ret (func, arg, filter)
      end
  end.

Definition parse_aggregate_window_function (func : AggregateFunc) (arg : AggregateArg) (filter : option Expr) : ST Parser ScalarExpr :=
  let! (window_func, args) := st_get (fun _ => aggregate_window_call func arg) in
  parse_window_function_over_clause window_func args filter.

Definition is_min_max (name_upper : string) : bool := one_of name_upper ["MIN"; "MAX"]%string.

Definition parse_scalar_function (function_name : string) (lparen_index : nat) : ST Parser ScalarExpr :=
  let function_name_upper := to_ascii_uppercase function_name in
  match assoc_string function_name_upper window_functions with
  | Some window_func => parse_ranking_window_function window_func
  | None =>
      let! looks_like_scalar_min_max :=
        if is_min_max function_name_upper then function_call_has_multiple_arguments lparen_index else st_ret false in
      if is_aggregate_function_name function_name_upper && negb looks_like_scalar_min_max then
        let! (func, arg, filter) := parse_aggregate_call_after_lparen function_name_upper in
        if! parse_optional_identifier_keyword_if "OVER" then parse_aggregate_window_function func arg filter
        else st_ret (SAggregate func arg filter)
      else
        match assoc_string function_name_upper scalar_functions with
        | None => st_err (Sql ("unsupported scalar function: " ++ function_name)%string)
        | Some func =>
            let! args :=
              if! matches TkRParen then st_ret []
              else
                (match func with FnMinScalar | FnMaxScalar => let! _ := matches TkDistinct in st_ret tt | _ => st_ret tt end) ;;!
                let! args := comma_separated (scalar_expr self) in
                expect_symbol TkRParen ;;!
                st_ret args in
            match func with
            | FnLikelihood => st_get (fun _ => validate_likelihood_probability_arg args)
            | _ => st_ret tt
            end ;;!
            st_ret (SFunction func args)
        end
  end.

(** ** Scalar expressions, from the tightest level to the loosest *)

(** [self.parse_identifier()?], and the call that an opening parenthesis makes of it. *)
Definition parse_function_after (name : string) (otherwise : ST Parser ScalarExpr) : ST Parser ScalarExpr :=
  if! matches TkLParen then let! lparen_index := previous_index in parse_scalar_function name lparen_index
  else otherwise.

Definition parse_primary_scalar_expr : ST Parser ScalarExpr :=
  if! is_subquery_start then let! query := parse_subquery in st_ret (SSubquery query)
  else if! matches TkLParen then
    let! expr := scalar_expr self in
    if! matches TkComma then
      let! values := comma_separated (scalar_expr self) in
      expect_symbol TkRParen ;;!
      st_ret (STuple (expr :: values))
    else expect_symbol TkRParen ;;! st_ret expr
  else if! matches TkCase then parse_case_scalar_expr
  else
    let! token := peek_kind in
    match match token with TkIdentifier name => sqlite_current_time_literal_expr name | _ => None end with
    | Some expr => advance ;;! st_ret expr
    | None =>
        if is_word "CAST" token then advance ;;! parse_cast_scalar_expr
        else
          match token with
          | TkIf => advance ;;! parse_function_after "IF" (error_expected "scalar expression, found IF")
          | TkLike => advance ;;! parse_function_after "LIKE" (error_expected "scalar expression, found LIKE")
          | TkGlob => advance ;;! parse_function_after "GLOB" (error_expected "scalar expression, found GLOB")
          | TkInteger _ | TkReal _ | TkBlobLiteral _ | TkString _ | TkTrue | TkFalse | TkNull =>
              let! value := parse_literal in st_ret (SLiteral value)
          | _ =>
              if is_identifier_token token || same_variant token TkReplace then
                let! name := parse_identifier in
                parse_function_after name (st_ret (SColumn name))
              else error_found "scalar expression"
          end
    end.

(** [if !is_scalar_expr_start(self.peek_kind()) { return Err(..) } self.parse_unary_scalar_expr()?] *)
Definition unary_operand (message : string) : ST Parser ScalarExpr :=
  let! token := peek_kind in
  if is_scalar_expr_start token then unary_scalar_expr self else error_expected message.

(** [-] before the literal 2^63, which is no [i64], makes the least integer. *)
Definition negate (expr : ScalarExpr) : Result ScalarExpr :=
  match expr with
  | SLiteral (Integer value) => if value =? i64_min then Err (Sql "integer overflow") else Ok (SUnaryMinus expr)
  | SLiteral (Real bits) => if f64_eqb (f64_of_bits bits) two63_real then Ok (SLiteral (Integer i64_min)) else Ok (SUnaryMinus expr)
  | expr => Ok (SUnaryMinus expr)
  end.

Definition parse_unary_scalar_expr : ST Parser ScalarExpr :=
  if! matches TkPlus then let! expr := unary_operand "numeric literal after +" in st_ret (SUnaryPlus expr)
  else if! matches TkMinus then let! expr := unary_operand "numeric literal after -" in st_get (fun _ => negate expr)
  else if! matches TkTilde then let! expr := unary_operand "scalar expression after ~" in st_ret (SBitNot expr)
  else if! matches TkNot then let! expr := unary_operand "scalar expression after NOT" in st_ret (SNot expr)
  else parse_primary_scalar_expr.

Definition parse_multiplicative_expr : ST Parser ScalarExpr :=
  left_associative parse_unary_scalar_expr (match_operator multiplicative_ops) SBinary.
Definition parse_additive_expr : ST Parser ScalarExpr :=
  left_associative parse_multiplicative_expr (match_operator additive_ops) SBinary.
Definition parse_bitwise_expr : ST Parser ScalarExpr :=
  left_associative parse_additive_expr (match_operator bitwise_ops) SBinary.
Definition parse_concat_expr : ST Parser ScalarExpr :=
  left_associative parse_bitwise_expr (match_operator concat_ops) SBinary.

Definition parse_collate_expr : ST Parser ScalarExpr :=
  let! first := parse_concat_expr in
  p_loop (fun expr =>
    if! matches TkCollate then let! collation := parse_simple_identifier in st_ret (inl (SCollate expr collation))
    else st_ret (inr expr)) first.

Definition parse_scalar_is_suffix (expr : ScalarExpr) : ST Parser ScalarExpr :=
  let is_null negated := SIs expr (SLiteral Null) negated in
  if! matches TkIsNull then st_ret (is_null false)
  else if! matches TkNotNull then st_ret (is_null true)
  else
    if! (if! matches TkNot then if! matches TkNull then st_ret true else (step_back ;;! st_ret false) else st_ret false)
    then st_ret (is_null true)
    else
      let! is_ := matches TkIs in
      if negb is_ then st_ret expr
      else
        let! negated := matches TkNot in
        if! matches TkDistinct then
          expect_keyword TkFrom ;;!
          let! other := parse_collate_expr in
          st_ret (SIs expr other (negb negated))
        else if! matches TkTrue then st_ret (SIsBool expr true negated)
        else if! matches TkFalse then st_ret (SIsBool expr false negated)
        else if! matches TkNull then st_ret (is_null negated)
        else let! other := parse_collate_expr in st_ret (SIs expr other negated).

Definition parse_in_candidates (expr : ScalarExpr) (negated : bool) : ST Parser ScalarExpr :=
  if! is_subquery_start then let! query := parse_subquery in st_ret (SInSubquery expr query negated)
  else let! values := parse_scalar_in_value_list in st_ret (SInList expr values negated).
Definition parse_scalar_in_suffix (expr : ScalarExpr) : ST Parser ScalarExpr :=
  if! (if! matches TkNot then if! matches TkIn then st_ret true else (step_back ;;! st_ret false) else st_ret false)
  then parse_in_candidates expr true
  else if! matches TkIn then parse_in_candidates expr false
  else st_ret expr.

Definition parse_optional_escape_clause : ST Parser (option ScalarExpr) :=
  if! matches TkEscape then let! expr := scalar_expr self in st_ret (Some expr) else st_ret None.

(** The operators that [NOT] may precede; [None] if there is none of them. *)
Definition parse_pattern_operator (expr : ScalarExpr) (negated : bool) : ST Parser (option ScalarExpr) :=
  if! matches TkLike then
    let! pattern := scalar_expr self in
    let! escape := parse_optional_escape_clause in
    st_ret (Some (SLike expr pattern escape negated))
  else if! matches TkGlob then let! pattern := scalar_expr self in st_ret (Some (SGlob expr pattern negated))
  else if! matches TkRegexp then
    let! pattern := scalar_expr self in st_ret (Some (sqlite_binary_pattern_function FnRegexpFunc pattern expr negated))
  else if! matches TkMatch then
    let! pattern := scalar_expr self in st_ret (Some (sqlite_binary_pattern_function FnMatchFunc pattern expr negated))
  else if! matches TkBetween then
    let! low := parse_concat_expr in
    expect_keyword TkAnd ;;!
    let! high := parse_concat_expr in
    st_ret (Some (SBetween expr low high negated))
  else st_ret None.
Definition parse_scalar_pattern_suffix (expr : ScalarExpr) : ST Parser ScalarExpr :=
  let! negated :=
    if! matches TkNot then
      let! found := parse_pattern_operator expr true in
      match found with Some found => st_ret (Some found) | None => step_back ;;! st_ret None end
    else st_ret None in
  match negated with
  | Some found => st_ret found
  | None => let! found := parse_pattern_operator expr false in st_ret (default expr found)
  end.

Definition parse_scalar_compare_suffix (expr : ScalarExpr) : ST Parser ScalarExpr :=
  let! op := match_operator compare_ops in
  match op with
  | None => st_ret expr
  | Some op =>
      if! is_subquery_start then let! query := parse_subquery in st_ret (SCompareSubquery expr op query)
      else let! other := parse_collate_expr in st_ret (SCompare expr op other)
  end.

Definition parse_scalar_expr : ST Parser ScalarExpr :=
  let! expr := parse_collate_expr in
  let! expr := parse_scalar_is_suffix expr in
  let! expr := parse_scalar_in_suffix expr in
  let! expr := parse_scalar_pattern_suffix expr in
  parse_scalar_compare_suffix expr.

(** ** Conditions *)

Definition parse_in_rhs (left_expr : ScalarExpr) (negated : bool) : ST Parser Expr :=
  expect_symbol TkLParen ;;!
  if! peek_is TkSelect then
    let! query := select_statement self in
    expect_symbol TkRParen ;;!
    st_ret (in_subquery_expr left_expr query negated)
  else
    let! values :=
      if! peek_is TkValues then
        let! rows := parse_values_rows in
        expect_symbol TkRParen ;;!
        st_ret (parse_values_rows_as_in_candidates rows)
      else parse_arguments in
    st_ret (in_list_expr left_expr values negated).

(** The operators of [parse_comparison_expr] that [NOT] may precede. *)
Definition parse_condition_operator (left_expr : ScalarExpr) (negated : bool) : ST Parser (option Expr) :=
  if! matches TkLike then
    let! pattern := parse_scalar_expr in
    let! escape := parse_optional_escape_clause in
    st_ret (Some (like_expr left_expr pattern escape negated))
  else if! matches TkGlob then let! pattern := parse_scalar_expr in st_ret (Some (glob_expr left_expr pattern negated))
  else if! matches TkRegexp then
    let! pattern := parse_scalar_expr in
    st_ret (Some (truthy (sqlite_binary_pattern_function FnRegexpFunc pattern left_expr negated)))
  else if! matches TkMatch then
    let! pattern := parse_scalar_expr in
    st_ret (Some (truthy (sqlite_binary_pattern_function FnMatchFunc pattern left_expr negated)))
  else if! matches TkBetween then
    let! low := parse_scalar_expr in
    expect_keyword TkAnd ;;!
    let! high := parse_scalar_expr in
    st_ret (Some (between_expr left_expr low high negated))
  else st_ret None.

(** After [IS]. *)
Definition parse_is_condition (left_expr : ScalarExpr) : ST Parser Expr :=
  let! negated := matches TkNot in
  if! matches TkNull then st_ret (is_null_expr left_expr negated)
  else if! matches TkTrue then st_ret (EIsBool left_expr true negated true)
  else if! matches TkFalse then st_ret (EIsBool left_expr false negated true)
  else error_found "NULL, TRUE, FALSE, IS NOT NULL, IS NOT TRUE, or IS NOT FALSE".

Definition parse_comparison_operator (left_expr : ScalarExpr) : ST Parser Expr :=
  let! op := match_operator compare_ops in
  match op with
  | None =>
      let! token := peek_kind in
      if is_filter_expr_terminator token then st_ret (truthy left_expr)
      else error_found "comparison operator (=, !=, <>, >, >=, <, <=) or IS NULL"
  | Some op =>
      if! is_subquery_start then let! query := parse_subquery in st_ret (ECompareSubqueryScalar left_expr op query)
      else let! right_expr := parse_scalar_expr in st_ret (compare_expr left_expr op right_expr)
  end.

(** The rest of [parse_comparison_expr], for an expression that stands for no condition. *)
Definition parse_condition_suffix (left_expr : ScalarExpr) : ST Parser Expr :=
  if! matches TkIsNull then st_ret (is_null_expr left_expr false)
  else if! matches TkNotNull then st_ret (is_null_expr left_expr true)
  else
    if! (if! matches TkNot then if! matches TkNull then st_ret true else (step_back ;;! st_ret false) else st_ret false)
    then st_ret (is_null_expr left_expr true)
    else if! matches TkIs then parse_is_condition left_expr
    else if! matches TkNot then
      let! found := parse_condition_operator left_expr true in
      match found with
      | Some found => st_ret found
      | None => expect_keyword TkIn ;;! parse_in_rhs left_expr true
      end
    else if! matches TkIn then parse_in_rhs left_expr false
    else
      let! found := parse_condition_operator left_expr false in
      match found with Some found => st_ret found | None => parse_comparison_operator left_expr end.

Definition parse_comparison_expr : ST Parser Expr :=
  let! token := peek_kind in
  if negb (is_scalar_expr_start token) then error_found "identifier or scalar expression"
  else
    let! left_expr := parse_scalar_expr in
    match condition_of_scalar left_expr with
    | Some condition => st_ret condition
    | None => parse_condition_suffix left_expr
    end.

(** A parenthesis opens a condition, or else, if that fails or a scalar operator follows the
    group, a scalar expression. *)
Definition parse_grouped_expr (group_start : nat) : ST Parser (option Expr) :=
  st_catch
    (let! expr := or_expr self in
     expect_symbol TkRParen ;;!
     let! token := peek_kind in
     if is_scalar_suffix_after_group token then reset_to group_start ;;! st_ret None else st_ret (Some expr))
    (fun _ => reset_to group_start ;;! st_ret None).

Definition parse_primary_expr : ST Parser Expr :=
  if! matches TkExists then let! query := parse_subquery_after_exists in st_ret (EExistsSubquery query false)
  else
    let! grouped := if! matches TkLParen then let! group_start := previous_index in parse_grouped_expr group_start else st_ret None in
    match grouped with Some expr => st_ret expr | None => parse_comparison_expr end.

Definition parse_not_expr : ST Parser Expr :=
  if! matches TkNot then
    if! matches TkExists then let! query := parse_subquery_after_exists in st_ret (EExistsSubquery query true)
    else
      let! scalar_start := get_index in
      st_catch (let! expr := not_expr self in st_ret (ENot expr))
        (fun _ => reset_to scalar_start ;;! let! expr := parse_scalar_expr in st_ret (ENot (truthy expr)))
  else parse_primary_expr.

Definition parse_and_expr : ST Parser Expr :=
  left_associative parse_not_expr (match_operator [(TkAnd, tt)]) (fun lhs _ rhs => EAnd lhs rhs).
Definition parse_or_expr : ST Parser Expr :=
  left_associative parse_and_expr (match_operator [(TkOr, tt)]) (fun lhs _ rhs => EOr lhs rhs).
Definition parse_where_expr : ST Parser Expr := parse_or_expr.

(** ** Queries *)

Definition parse_select_alias : ST Parser string :=
  let! token := peek_kind in
  match token with
  | TkString value => advance ;;! st_ret value
  | TkTrue => advance ;;! st_ret "true"%string
  | TkFalse => advance ;;! st_ret "false"%string
  | TkBegin => advance ;;! st_ret "begin"%string
  | TkRollback => advance ;;! st_ret "rollback"%string
  | _ => parse_simple_identifier
  end.
Definition parse_optional_select_alias : ST Parser (option string) :=
  if! matches TkAs then let! alias := parse_select_alias in st_ret (Some alias)
  else
    let! token := peek_kind in
    if is_select_alias_token token then let! alias := parse_select_alias in st_ret (Some alias) else st_ret None.

Definition parse_aggregate_item (function_name : string) : ST Parser SelectItem :=
  expect_symbol TkLParen ;;!
  let! (func, arg, filter) := parse_aggregate_call_after_lparen (to_ascii_uppercase function_name) in
  if! parse_optional_identifier_keyword_if "OVER" then
    let! expr := parse_aggregate_window_function func arg filter in st_ret (ItemExpr expr None)
  else st_ret (ItemAggregate func arg filter None).

Definition scalar_item (expr : ScalarExpr) : SelectItem :=
  match expr with SColumn name => ItemColumn name | expr => ItemExpr expr None end.
Definition with_alias (alias : string) (item : SelectItem) : SelectItem :=
  match item with
  | ItemColumn name | ItemAliasedColumn name _ => ItemAliasedColumn name alias
  | ItemExpr expr _ => ItemExpr expr (Some alias)
  | ItemAggregate func arg filter _ => ItemAggregate func arg filter (Some alias)
  | ItemWildcard => ItemWildcard
  end.

(** An identifier before a parenthesis that names an aggregate. *)
Definition aggregate_call_name : ST Parser (option string) :=
  let! token := peek_kind in
  let! next := st_read (fun p => kind_at p (S (index p))) in
  st_ret match token, next with
         | TkIdentifier name, Some TkLParen => if is_aggregate_function_name (to_ascii_uppercase name) then Some name else None
         | _, _ => None
         end.

Definition parse_select_item : ST Parser SelectItem :=
  if! matches TkStar then st_ret ItemWildcard
  else
    let! aggregate := aggregate_call_name in
    let! item :=
      match aggregate with
      | Some name =>
          let! i := get_index in
          let! looks_like_scalar_min_max :=
            if is_min_max (to_ascii_uppercase name) then function_call_has_multiple_arguments (S i) else st_ret false in
          if looks_like_scalar_min_max : bool then let! expr := parse_scalar_expr in st_ret (scalar_item expr)
          else advance ;;! parse_aggregate_item name
      | None => let! expr := parse_scalar_expr in st_ret (scalar_item expr)
      end in
    let! alias := parse_optional_select_alias in
    st_ret match alias with Some alias => with_alias alias item | None => item end.
Definition parse_select_list : ST Parser (list SelectItem) := comma_separated parse_select_item.

Definition is_table_index_hint_start : ST Parser bool :=
  let! token := peek_kind in
  st_ret (match token with TkNot => true | _ => is_word "INDEXED" token end).
Definition parse_optional_table_alias : ST Parser (option string) :=
  if! matches TkAs then let! alias := parse_simple_identifier in st_ret (Some alias)
  else if! is_table_index_hint_start then st_ret None
  else
    let! token := peek_kind in
    if is_word "WINDOW" token then st_ret None
    else if is_identifier_token token then let! alias := parse_simple_identifier in st_ret (Some alias)
    else st_ret None.

Definition parse_optional_table_index_hint : ST Parser (option TableIndexHint) :=
  if! matches TkNot then
    if! parse_optional_identifier_keyword_if "INDEXED" then st_ret (Some NotIndexed) else (step_back ;;! st_ret None)
  else if! parse_optional_identifier_keyword_if "INDEXED" then
    expect_keyword TkBy ;;!
    let! index := parse_simple_identifier in
    st_ret (Some (IndexedBy index))
  else st_ret None.

Definition parse_from_item : ST Parser FromItem :=
  if! matches TkLParen then
    if! peek_is TkValues then
      let! rows := parse_values_rows in
      expect_symbol TkRParen ;;!
      let! alias := parse_optional_table_alias in
      st_ret (FromValues rows alias None)
    else
      let! query := select_statement self in
      expect_symbol TkRParen ;;!
      let! alias := parse_optional_table_alias in
      st_ret (FromSubquery query (default ""%string alias) None)
  else
    let! (name, schema) := parse_schema_qualified_name_with_schema in
    let! opened := peek_is TkLParen in
    if is_pragma_table_function_name name && (opened || pragma_table_function_allows_no_argument name) then
      let! argument :=
        if! matches TkLParen then
          let! argument :=
            if! peek_is TkRParen then st_ret None else let! argument := parse_pragma_name_argument in st_ret (Some argument) in
          expect_symbol TkRParen ;;!
          st_ret argument
        else st_ret None in
      let! alias := parse_optional_table_alias in
      st_ret (FromPragmaTableFunction name argument alias)
    else
      let! alias := parse_optional_table_alias in
      let! hint := parse_optional_table_index_hint in
      st_ret match hint with
             | Some (IndexedBy index) => FromTableIndexed name schema alias index
             | Some NotIndexed => FromTableNotIndexed name schema alias
             | None => FromTable name schema alias
             end.

Definition parse_join_using_expr (left_qualifier : option string) (right_source : FromItem) : ST Parser (Expr * list string) :=
  expect_symbol TkLParen ;;!
  let right_qualifier := from_item_qualifier right_source in
  let! columns := comma_separated parse_simple_identifier in
  expect_symbol TkRParen ;;!
  let terms := map (fun column => ECompareColumns (qualify_join_using_column left_qualifier column) OpEq
                                    (qualify_join_using_column right_qualifier column)) columns in
  let! on := st_get (fun _ => rebuild_and_expr terms) in
  st_ret (on, columns).

Definition always : Expr := ECompareScalar (SLiteral (Boolean true)) OpEq (SLiteral (Boolean true)).

(** The words that introduce a join: its kind, and whether it is a [CROSS JOIN]. *)
Definition parse_join_kind : ST Parser (option (JoinKind * bool)) :=
  let outer kind := (let! _ := matches TkOuter in expect_keyword TkJoin ;;! st_ret (Some (kind, false))) in
  if! matches TkInner then expect_keyword TkJoin ;;! st_ret (Some (JoinInner, false))
  else if! matches TkCross then expect_keyword TkJoin ;;! st_ret (Some (JoinInner, true))
  else if! matches TkLeft then outer JoinLeft
  else if! matches TkRight then outer JoinRight
  else if! matches TkFull then outer JoinFull
  else if! matches TkJoin then st_ret (Some (JoinInner, false))
  else st_ret None.

Definition parse_join_constraint (left_qualifier : option string) (source : FromItem) (natural cross : bool) : ST Parser (Expr * list string) :=
  if natural then st_ret (always, [])
  else if! matches TkOn then let! on := parse_where_expr in st_ret (on, [])
  else if! matches TkUsing then parse_join_using_expr left_qualifier source
  else if cross then st_ret (always, [])
  else error_found "ON or USING".

Definition parse_join_clauses (from : FromItem) : ST Parser (list JoinClause) :=
  let left_qualifier := from_item_qualifier from in
  p_loop (fun joins =>
    let! natural := matches TkNatural in
    let! join := parse_join_kind in
    match join with
    | None => st_ret (inr joins)
    | Some (kind, cross) =>
        let! source := parse_from_item in
        let! (on, using_columns) := parse_join_constraint left_qualifier source natural cross in
        st_ret (inl (joins ++ [mkJoinClause kind source on using_columns natural]))
    end) [].

Definition parse_group_by_items : ST Parser (list ScalarExpr) := comma_separated parse_scalar_expr.

Definition parse_optional_named_windows : ST Parser (list NamedWindowSpec) :=
  if! parse_optional_identifier_keyword_if "WINDOW" then
    comma_separated
      (let! name := parse_simple_identifier in
       expect_keyword TkAs ;;!
       expect_symbol TkLParen ;;!
       let! (base, partition, order_by, frame, exclude) := parse_window_definition_body in
       expect_symbol TkRParen ;;!
       st_ret (mkNamedWindowSpec name base partition order_by frame exclude))
  else st_ret [].

(** [if self.matches(token) { Some(self.parse_where_expr()?) } else { None }] *)
Definition parse_optional_condition (token : TokenKind) : ST Parser (option Expr) :=
  if! matches token then let! condition := parse_where_expr in st_ret (Some condition) else st_ret None.

Definition is_column_item (item : SelectItem) : bool :=
  match item with ItemColumn _ | ItemAliasedColumn _ _ => true | _ => false end.

Definition parse_select_core (with_ : option WithClause) : ST Parser SelectStatement :=
  expect_keyword TkSelect ;;!
  let! distinct := parse_distinct in
  let! columns := parse_select_list in
  let! from :=
    if! matches TkFrom then parse_from_item
    else if existsb is_column_item columns then error_found "FROM"
    else st_ret (FromTable SINGLE_ROW_SOURCE_TABLE None None) in
  let! joins := parse_join_clauses from in
  let! filter := parse_optional_condition TkWhere in
  let! group_by := if! matches TkGroup then expect_keyword TkBy ;;! parse_group_by_items else st_ret [] in
  let! having := parse_optional_condition TkHaving in
  let! named_windows := parse_optional_named_windows in
  let! columns := st_get (fun _ => resolve_named_window_select_items columns named_windows) in
  st_ret (mkSelectStatement with_ distinct columns from joins filter group_by having [] [] None None).

Definition parse_limit_value : ST Parser Z :=
  let! expr := parse_scalar_expr in
  match constant_limit_value expr with
  | None => st_err (Sql "LIMIT/OFFSET expression must be a constant integer")
  | Some value =>
      if negb (f64_is_finite value) || negb (f64_eqb (f64_fract value) (f64_of_int 0)) || f64_ltb value (f64_of_int i64_min)
         || f64_ltb (f64_of_int i64_max) value then st_err (Sql "LIMIT/OFFSET literal is out of range")
      else st_ret (f64_to_i64 value)
  end.

(** [LIMIT]: the limit and the offset. *)
Definition parse_limit_clause : ST Parser (option Z * option Z) :=
  let! first := parse_limit_value in
  if! matches TkComma then
    let! second := parse_limit_value in
    st_ret (sqlite_limit_value second, Some (sqlite_offset_value first))
  else if! matches TkOffset then
    let! second := parse_limit_value in
    st_ret (sqlite_limit_value first, Some (sqlite_offset_value second))
  else st_ret (sqlite_limit_value first, None).
(** [if self.matches(&TokenKind::Limit) { ... }] *)
Definition parse_optional_limit_offset : ST Parser (option Z * option Z) :=
  if! matches TkLimit then parse_limit_clause else st_ret (None, None).

Definition parse_compound_operator : ST Parser (option CompoundOperator) :=
  if! matches TkUnion then if! matches TkAll then st_ret (Some CompoundUnionAll) else st_ret (Some CompoundUnion)
  else match_operator [(TkIntersect, CompoundIntersect); (TkExcept, CompoundExcept)].

Definition parse_compound_select_statement (with_ : option WithClause) : ST Parser SelectStatement :=
  let! select := parse_select_core with_ in
  let! compounds :=
    p_loop (fun compounds =>
      let! operator := parse_compound_operator in
      match operator with
      | Some operator => let! part := parse_select_core None in st_ret (inl (compounds ++ [mkCompoundSelect operator part]))
      | None => st_ret (inr compounds)
      end) [] in
  let! order_by := parse_optional_order_by true in
  let! (limit, offset) := parse_optional_limit_offset in
  st_ret (with_order_and_limit order_by limit offset (with_compounds compounds select)).

Definition parse_select_statement : ST Parser SelectStatement := parse_compound_select_statement None.

(** ** [WITH] *)

Definition parse_optional_cte_materialization_hint : ST Parser unit :=
  if! parse_optional_identifier_keyword_if "MATERIALIZED" then st_ret tt
  else if! matches TkNot then
    if! parse_optional_identifier_keyword_if "MATERIALIZED" then st_ret tt else step_back
  else st_ret tt.

Definition parse_common_table_expr : ST Parser CommonTableExpr :=
  let! name := parse_simple_identifier in
  let! columns := if! peek_is TkLParen then let! columns := parse_parenthesized_identifier_list in st_ret (Some columns) else st_ret None in
  expect_keyword TkAs ;;!
  parse_optional_cte_materialization_hint ;;!
  expect_symbol TkLParen ;;!
  let! query :=
    if! peek_is TkValues then let! rows := parse_values_rows in st_ret (CteValues rows)
    else let! select := parse_select_statement in st_ret (CteSelect select) in
  expect_symbol TkRParen ;;!
  st_ret (mkCommonTableExpr name columns query).

Definition parse_with_clause : ST Parser WithClause :=
  expect_keyword TkWith ;;!
  let! recursive := matches TkRecursive in
  let! ctes := comma_separated parse_common_table_expr in
  st_ret (mkWithClause recursive ctes).
Definition parse_with_select_statement : ST Parser SelectStatement :=
  let! with_ := parse_with_clause in
  parse_compound_select_statement (Some with_).

Definition parse_values_as_select_statement : ST Parser SelectStatement :=
  let! rows := parse_values_rows in
  st_ret (mkSelectStatement None false [ItemWildcard] (FromValues rows None None) [] None [] None [] [] None None).
End Methods.

(** ** Tying the knot *)

Definition no_grammar : Grammar := mkGrammar st_fuel st_fuel st_fuel st_fuel st_fuel.
Definition step (self : Grammar) : Grammar :=
  mkGrammar (parse_scalar_expr self) (parse_unary_scalar_expr self) (parse_or_expr self) (parse_not_expr self)
    (parse_select_statement self).
Fixpoint grammar (fuel : nat) : Grammar :=
  match fuel with O => no_grammar | S fuel => step (grammar fuel) end.

(** The methods that are called again have consumed a token. *)
Definition parser_fuel (tokens : list Token) : nat := S (length tokens).
Definition run_parser {A} (parse : Grammar -> ST Parser A) (tokens : list Token) : Result A :=
  (parse (grammar (parser_fuel tokens)) (mkParser tokens 0)).1.

Definition parse_scalar_sql_expression (input : string) : Result ScalarExpr :=
  let? tokens := lex input in
  run_parser (fun self =>
    let! token := peek_kind in
    match token with
    | TkEof => st_err (Sql "empty SQL input")
    | _ =>
        let! expr := parse_scalar_expr self in
        expect_eof ;;!
        st_ret expr
    end) tokens.
