(* ===== verification/ParserChecks.v ===== *)
(** * Check constraints of [src/sql/parser.rs]: from conditions to [CheckExpr]

    A check constraint is stored as a [CheckExpr] of [src/common/types.rs], which has a
    variant for each form of condition it supports. [check_expr_from_expr] finds the
    variant of a condition, or reports that there is none. *)

From S2P Require Import Prelude Text Floats Types Ast Lexer Schema CheckValues Parser ParserParts ParserQueries.

Definition unsupported {A} : Result A := Err (Sql "unsupported CHECK expression").

(** [let ScalarExpr::Column(column) = expr else { return Err(..) }] *)
Definition column_of (expr : ScalarExpr) : Result string := match expr with SColumn column => Ok column | _ => unsupported end.
(** [scalar_expr_literal_value(expr).ok_or_else(..)] *)
Definition literal_of (expr : ScalarExpr) : Result Value :=
  match scalar_expr_literal_value expr with Some value => Ok value | None => unsupported end.
Definition literal_text (expr : ScalarExpr) : Result string := let? value := literal_of expr in Ok (sqlite_literal_to_text_like value).
Definition literal_integer (expr : ScalarExpr) : Result Z :=
  match scalar_expr_literal_value expr with Some (Integer value) => Ok value | _ => unsupported end.
(** The literal of an optional argument. *)
Definition optional_arg {A} (f : ScalarExpr -> Result A) (args : list ScalarExpr) : Result (option A) :=
  match args with [] => Ok None | arg :: _ => let? a := f arg in Ok (Some a) end.

Definition check_op_from_compare_op (op : CompareOp) : CheckOp :=
  match op with
  | OpEq => CkOpEq | OpNe => CkOpNe | OpGt => CkOpGt | OpGte => CkOpGte | OpLt => CkOpLt | OpLte => CkOpLte
  end.
Definition check_op_from_reversed_compare_op (op : CompareOp) : CheckOp :=
  match op with
  | OpEq => CkOpEq | OpNe => CkOpNe | OpGt => CkOpLt | OpGte => CkOpLte | OpLt => CkOpGt | OpLte => CkOpGte
  end.

Definition negate_check_literal (value : Value) : Result Value :=
  match value with
  | Integer value => match checked_neg value with Some value => Ok (Integer value) | None => unsupported end
  | Real bits => Ok (real (f64_neg (f64_of_bits bits)))
  | _ => unsupported
  end.

Definition check_unary_expr (expr : ScalarExpr) (negated : bool) (op : CheckOp) (value : Value) : Result CheckExpr :=
  let? column := column_of expr in
  Ok (if negated then CkMultiplyCompare column (Integer (-1)) op value else CkCompare column op value).

Definition check_scalar_is_null_expr (expr : ScalarExpr) (negated : bool) : Result CheckExpr :=
  match expr with
  | SFunction FnUnicode [arg] => let? column := column_of arg in Ok (CkUnicodeIsNull column negated)
  | SFunction FnNullIf [arg; other] =>
      let? column := column_of arg in
      let? value := literal_of other in
      Ok (CkNullIfIsNull column value negated)
  | _ => unsupported
  end.

(** [args.remove(0)] of the first two arguments panics if they are missing. *)
Definition check_pattern_function_expr (func : ScalarFunc) (args : list ScalarExpr) (negated : bool) : Result CheckExpr :=
  match args with
  | [] => Panic "removal index (is 0) should be < len (is 0)"
  | pattern :: args =>
      let? pattern := literal_text pattern in
      match args with
      | [] => Panic "removal index (is 0) should be < len (is 0)"
      | subject :: args =>
          let? column := column_of subject in
          match func with
          | FnLikeFunc => let? escape := optional_arg literal_text args in Ok (CkLike column pattern escape negated)
          | FnGlobFunc => Ok (CkGlob column pattern negated)
          | FnRegexpFunc => Ok (CkRegexp column pattern negated)
          | _ => Panic "internal error: entered unreachable code: matched pattern function"
          end
      end
  end.

Definition json_flags (args : list ScalarExpr) : Result (option Z) :=
  optional_arg (fun arg => let? value := literal_integer arg in
                           if (1 <=? value) && (value <=? 15) then Ok value else unsupported) args.

Definition check_likelihood_truthy_expr (func : ScalarFunc) (args : list ScalarExpr) : Result CheckExpr :=
  match func, args with
  | FnJsonValid, [arg] | FnJsonValid, [arg; _] =>
      let? column := column_of arg in
      let? flags := json_flags (tail args) in
      Ok (CkJsonValidCompare column flags None)
  | FnLikeFunc, [_; _] | FnLikeFunc, [_; _; _] | FnGlobFunc, [_; _] | FnRegexpFunc, [_; _] => check_pattern_function_expr func args false
  | (FnLikely | FnUnlikely), [arg] => let? column := column_of arg in Ok (CkTruthy column)
  | FnLikelihood, [arg; probability] =>
      let? column := column_of arg in
      match scalar_expr_literal_value probability with
      | Some (Real _ | Integer _) => Ok (CkTruthy column)
      | _ => unsupported
      end
  | _, _ => unsupported
  end.

Definition is_arithmetic (op : ScalarBinaryOp) : bool :=
  match op with OpAdd | OpSubtract | OpMultiply | OpDivide | OpModulo => true | _ => false end.

Definition check_arithmetic_expr (lhs : ScalarExpr) (binary_op : ScalarBinaryOp) (rhs : ScalarExpr) (op : CheckOp) (value : Value) : Result CheckExpr :=
  let? column := column_of lhs in
  let? addend := literal_of rhs in
  match binary_op with
  | OpMultiply => Ok (CkMultiplyCompare column addend op value)
  | OpDivide => Ok (CkDivideCompare column addend op value)
  | OpModulo => Ok (CkModuloCompare column addend op value false)
  | OpSubtract => let? addend := negate_check_literal addend in Ok (CkArithmeticCompare column addend op value)
  | _ => Ok (CkArithmeticCompare column addend op value)
  end.

Definition check_literal_args (args : list ScalarExpr) : Result (list Value) := mapM_res literal_of args.

Definition check_concat_ws_expr (args : list ScalarExpr) (op : CheckOp) (value : Value) : Result CheckExpr :=
  match args with
  | separator :: subject :: args =>
      let? separator := literal_of separator in
      let separator := match separator with Null => None | separator => Some (sqlite_literal_to_text_like separator) end in
      let? column := column_of subject in
      let? suffix := check_literal_args args in
      Ok (CkConcatWsCompare column separator suffix op value)
  | _ => unsupported
  end.

(** The functions of one argument whose value is compared. *)
Definition unary_math_func (func : ScalarFunc) : option UnaryMathFunc :=
  match func with
  | FnSqrt => Some Sqrt | FnLn => Some Ln | FnLog10 => Some Log10 | FnLog => Some Log10 | FnLog2 => Some Log2
  | FnExp => Some Exp | FnSin => Some Sin | FnCos => Some Cos | FnTan => Some Tan | FnSinh => Some Sinh
  | FnCosh => Some Cosh | FnTanh => Some Tanh | FnAtan => Some Atan | FnAcos => Some Acos | FnAsin => Some Asin
  | FnAcosh => Some Acosh | FnAsinh => Some Asinh | FnAtanh => Some Atanh | FnDegrees => Some Degrees
  | FnRadians => Some Radians
  | _ => None
  end.
Definition rounding_func (func : ScalarFunc) : option RoundingFunc :=
  match func with FnCeil => Some RCeil | FnCeiling => Some RCeiling | FnFloor => Some RFloor | FnTrunc => Some RTrunc | _ => None end.
Definition binary_math_func (func : ScalarFunc) : option BinaryMathFunc :=
  match func with FnPower => Some Power | FnAtan2 => Some Atan2 | FnLog => Some Log | _ => None end.
Definition trim_side (func : ScalarFunc) : option TrimSide :=
  match func with FnTrim => Some TrimBoth | FnLTrim => Some TrimStart | FnRTrim => Some TrimEnd | _ => None end.

(** The [match func] of [check_function_expr] where only the column is left. *)
Definition check_function_of_column (func : ScalarFunc) (column : string) (op : CheckOp) (value : Value) : Result CheckExpr :=
  match func with
  | FnLength => Ok (CkLengthCompare column op value)
  | FnOctetLength => Ok (CkOctetLengthCompare column op value)
  | FnUnicode => Ok (CkUnicodeCompare column op value)
  | FnSign => Ok (CkSignCompare column op value)
  | FnHex => Ok (CkHexCompare column op value)
  | FnQuote => Ok (CkQuoteCompare column op value)
  | FnRound => Ok (CkRoundCompare column None op value)
  | FnJsonValid => Ok (CkJsonValidCompare column None (Some (op, value)))
  | FnAbs => Ok (CkAbsCompare column op value)
  | FnTypeOf => Ok (CkTypeOfCompare column op value)
  | FnLower => Ok (CkCaseFoldCompare column false op value)
  | FnUpper => Ok (CkCaseFoldCompare column true op value)
  | _ =>
      match rounding_func func, unary_math_func func, trim_side func with
      | Some func, _, _ => Ok (CkRoundingCompare column func op value)
      | _, Some func, _ => Ok (CkUnaryMathCompare column func op value)
      | _, _, Some side => Ok (CkTrimCompare column side None op value)
      | _, _, _ => unsupported
      end
  end.

(** The arms with one argument besides the column. *)
Definition check_function_with (func : ScalarFunc) (column : string) (arg : ScalarExpr) (op : CheckOp) (value : Value) : Result CheckExpr :=
  match func with
  | FnRound =>
      let? precision := literal_integer arg in
      if (-2147483648 <=? precision) && (precision <=? 2147483647) then Ok (CkRoundCompare column (Some precision) op value) else unsupported
  | FnConcat => let? suffix := check_literal_args [arg] in Ok (CkConcatCompare column suffix op value)
  | FnJsonValid => let? flags := json_flags [arg] in Ok (CkJsonValidCompare column flags (Some (op, value)))
  | FnCoalesce | FnIfNull => let? fallback := literal_of arg in Ok (CkCoalesceCompare column [fallback] op value)
  | FnInstr => let? needle := literal_of arg in Ok (CkInstrCompare column needle op value)
  | FnSubstr => let? start := literal_integer arg in Ok (CkSubstrCompare column start None op value)
  | FnMod => let? divisor := literal_of arg in Ok (CkModuloCompare column divisor op value true)
  | _ =>
      match binary_math_func func, trim_side func with
      | Some func, _ => let? argument := literal_of arg in Ok (CkBinaryMathCompare column func argument false op value)
      | _, Some side => let? characters := literal_text arg in Ok (CkTrimCompare column side (Some characters) op value)
      | _, _ => unsupported
      end
  end.

(** The arms with two or more. *)
Definition check_function_with_more (func : ScalarFunc) (column : string) (args : list ScalarExpr) (op : CheckOp) (value : Value) : Result CheckExpr :=
  match func, args with
  | FnReplace, [pattern; replacement] =>
      let? pattern := literal_text pattern in
      let? replacement := literal_text replacement in
      Ok (CkReplaceCompare column pattern replacement op value)
  | FnConcat, _ => let? suffix := check_literal_args args in Ok (CkConcatCompare column suffix op value)
  | FnCoalesce, _ => let? fallbacks := check_literal_args args in Ok (CkCoalesceCompare column fallbacks op value)
  | FnSubstr, [start; length] =>
      let? start := literal_integer start in
      let? length := literal_integer length in
      Ok (CkSubstrCompare column start (Some length) op value)
  | _, _ => unsupported
  end.

Definition check_function_expr (func : ScalarFunc) (args : list ScalarExpr) (op : CheckOp) (value : Value) : Result CheckExpr :=
  let general :=
    match args with
    | [] => Panic "removal index (is 0) should be < len (is 0)"
    | subject :: args =>
        let? column := column_of subject in
        match args with
        | [] => check_function_of_column func column op value
        | [arg] => check_function_with func column arg op value
        | args => check_function_with_more func column args op value
        end
    end in
  match func, args with
  | FnConcatWs, _ => check_concat_ws_expr args op value
  | FnLog, [argument; SColumn column] =>
      match scalar_expr_literal_value argument with
      | Some argument => Ok (CkBinaryMathCompare column Log argument true op value)
      | None => general
      end
  | _, _ => general
  end.

(** [column != right_column] *)
Definition same_column (subject : ScalarExpr) (right_column : string) : Result string :=
  let? column := column_of subject in
  if String.eqb column right_column then Ok column else unsupported.

Definition check_replace_column_expr (args : list ScalarExpr) (op : CheckOp) (right_column : string) : Result CheckExpr :=
  match args with
  | [subject; pattern; replacement] =>
      let? column := same_column subject right_column in
      let? pattern := literal_text pattern in
      let? replacement := literal_text replacement in
      Ok (CkReplaceColumnCompare column pattern replacement op)
  | _ => unsupported
  end.

Definition check_min_max_column_expr (args : list ScalarExpr) (min : bool) (op : CheckOp) (right_column : string) : Result CheckExpr :=
  match args with
  | [subject; limit] =>
      let? column := same_column subject right_column in
      let? limit := literal_of limit in
      Ok (CkMinMaxColumnCompare column limit min op)
  | _ => unsupported
  end.

(** [matches!(collation.to_ascii_uppercase().as_str(), "NOCASE" | "RTRIM")] *)
Definition checked_collation (collation : string) : bool := one_of (to_ascii_uppercase collation) ["NOCASE"; "RTRIM"]%string.

(** A comparison of an expression with a literal: the arms of [Expr::CompareScalar] whose
    second component is [Some(value)], and those of the reversed comparison. *)
Definition check_compare_literal (lhs : ScalarExpr) (op : CheckOp) (value : Value) : Result CheckExpr :=
  match lhs with
  | SBinary l binary_op r => if is_arithmetic binary_op then check_arithmetic_expr l binary_op r op value else unsupported
  | SFunction func (arg :: args) => check_function_expr func (arg :: args) op value
  | SCollate expr collation =>
      if checked_collation collation then let? column := column_of expr in Ok (CkNoCaseCompare column collation op value) else unsupported
  | SUnaryMinus expr => check_unary_expr expr true op value
  | SUnaryPlus expr => check_unary_expr expr false op value
  | _ => unsupported
  end.

Definition check_compare_scalar (lhs : ScalarExpr) (op : CompareOp) (rhs : ScalarExpr) : Result CheckExpr :=
  match scalar_expr_literal_value rhs with
  | Some value =>
      match lhs with
      | SCast expr ty => let? column := column_of expr in Ok (CkCastCompare column ty (check_op_from_compare_op op) value)
      | _ => check_compare_literal lhs (check_op_from_compare_op op) value
      end
  | None =>
      match lhs with
      | SFunction FnReplace args => let? column := column_of rhs in check_replace_column_expr args (check_op_from_compare_op op) column
      | SFunction FnMinScalar args => let? column := column_of rhs in check_min_max_column_expr args true (check_op_from_compare_op op) column
      | SFunction FnMaxScalar args => let? column := column_of rhs in check_min_max_column_expr args false (check_op_from_compare_op op) column
      | SLiteral value =>
          let reversed_op := check_op_from_reversed_compare_op op in
          match rhs with
          | SColumn column => Ok (CkCompare column reversed_op value)
          | _ => check_compare_literal rhs reversed_op value
          end
      | _ => unsupported
      end
  end.

Definition check_is_bool (expr : ScalarExpr) (value negated explicit : bool) : Result CheckExpr :=
  match expr with
  | SColumn column =>
      Ok (if explicit then CkIsBool column value negated
          else if value && negb negated then CkTruthy column else CkNot (CkTruthy column))
  | SFunction func args =>
      if negb explicit && value then
        let? truthy := check_likelihood_truthy_expr func args in
        Ok (if negated then CkNot truthy else truthy)
      else unsupported
  | SNot (SFunction func args) =>
      if negb explicit && value && negb negated then
        match func with
        | FnLikeFunc | FnGlobFunc | FnRegexpFunc => check_pattern_function_expr func args true
        | _ => unsupported
        end
      else unsupported
  | _ => unsupported
  end.

(** The text of a pattern that has to be a literal. *)
Definition pattern_text (what : string) (pattern : ScalarExpr) : Result string :=
  match scalar_expr_literal_value pattern with
  | Some value => Ok (sqlite_literal_to_text_like value)
  | None => Err (Sql ("non-literal " ++ what ++ " expressions are not supported in CHECK constraints")%string)
  end.

Fixpoint check_expr_from_expr (expr : Expr) : Result CheckExpr :=
  match expr with
  | ECompare column op value => Ok (CkCompare column (check_op_from_compare_op op) value)
  | ECompareScalar lhs op rhs => check_compare_scalar lhs op rhs
  | EIsNull column negated => Ok (CkIsNull column negated)
  | EIsNullScalar expr negated => check_scalar_is_null_expr expr negated
  | EGlob column pattern negated => let? pattern := pattern_text "GLOB pattern" pattern in Ok (CkGlob column pattern negated)
  | ELike column pattern escape negated =>
      let? pattern := pattern_text "LIKE pattern" pattern in
      let? escape := match escape with
                     | Some escape => let? escape := pattern_text "ESCAPE" escape in Ok (Some escape)
                     | None => Ok None
                     end in
      Ok (CkLike column pattern escape negated)
  | EInList column values negated => Ok (CkInList column values negated)
  | EBetween column low high negated => Ok (CkBetween column low high negated)
  | EIsBool expr value negated explicit => check_is_bool expr value negated explicit
  | EIs (SColumn column) (SLiteral value) negated => Ok (CkIsDistinct column value negated)
  | EAnd lhs rhs =>
      let? lhs := check_expr_from_expr lhs in
      let? rhs := check_expr_from_expr rhs in
      Ok (CkAnd lhs rhs)
  | EOr lhs rhs =>
      let? lhs := check_expr_from_expr lhs in
      let? rhs := check_expr_from_expr rhs in
      Ok (CkOr lhs rhs)
  | ENot expr => let? expr := check_expr_from_expr expr in Ok (CkNot expr)
  | _ => unsupported
  end.

Definition parse_check_constraint_expression (input : string) : Result CheckExpr :=
  let? tokens := lex input in
  let? expr :=
    run_parser (fun self =>
      let! token := peek_kind in
      match token with
      | TkEof => st_err (Sql "empty SQL input")
      | _ =>
          let! expr := parse_where_expr self in
          expect_eof ;;!
          st_ret expr
      end) tokens in
  check_expr_from_expr expr.
