(* ===== verification/ParserStatements.v ===== *)
(** * Statements: the rest of [src/sql/parser.rs]

    Definitions of tables, indexes, views and triggers, changes of rows, transactions and
    pragmas, and [parse_sql], which parses a text as a list of statements. *)

From S2P Require Import Prelude Text Floats Types Schema Ast Lexer CheckValues Parser ParserParts ParserQueries ParserChecks.

(** ** Building columns and foreign keys: [src/common/types.rs] *)

(** [ColumnDef::new] *)
Definition new_column (name : string) (ty : ColumnType) : ColumnDef :=
  mkColumnDef name ty (match ty with CtAny => None | _ => Some (column_type_name ty) end) None true None None false None None
    None false None None false None None false false false [] None.

(** The methods that set fields; a clause that is absent leaves its field. *)
Definition with_declared_type (x : string) (c : ColumnDef) : ColumnDef :=
  mkColumnDef (column_name c) (column_type c) (Some x) (collation c) (nullable c) (not_null_constraint_name c)
    (not_null_conflict_clause c) (primary_key c) (primary_key_constraint_name c) (primary_key_conflict_clause c)
    (primary_key_sort_order c) (unique c) (unique_constraint_name c) (unique_conflict_clause c) (autoincrement c)
    (default_value c) (generated_expr c) (generated_stored c) (generated_storage_explicit c)
    (generated_always_explicit c) (column_checks c) (foreign_key c).
Definition with_not_null (name conflict : option string) (c : ColumnDef) : ColumnDef :=
  mkColumnDef (column_name c) (column_type c) (declared_type c) (collation c) false
    (or_else name (not_null_constraint_name c)) (or_else conflict (not_null_conflict_clause c)) (primary_key c)
    (primary_key_constraint_name c) (primary_key_conflict_clause c) (primary_key_sort_order c) (unique c)
    (unique_constraint_name c) (unique_conflict_clause c) (autoincrement c) (default_value c) (generated_expr c)
    (generated_stored c) (generated_storage_explicit c) (generated_always_explicit c) (column_checks c)
    (foreign_key c).
Definition with_primary_key (name : option string) (order : option SortOrder) (conflict : option string) (auto : bool) (c : ColumnDef) : ColumnDef :=
  mkColumnDef (column_name c) (column_type c) (declared_type c) (collation c) false (not_null_constraint_name c)
    (not_null_conflict_clause c) true (or_else name (primary_key_constraint_name c))
    (or_else conflict (primary_key_conflict_clause c)) (or_else order (primary_key_sort_order c)) (unique c)
    (unique_constraint_name c) (unique_conflict_clause c) (auto || autoincrement c) (default_value c)
    (generated_expr c) (generated_stored c) (generated_storage_explicit c) (generated_always_explicit c)
    (column_checks c) (foreign_key c).
Definition with_collation (x : string) (c : ColumnDef) : ColumnDef :=
  mkColumnDef (column_name c) (column_type c) (declared_type c) (Some x) (nullable c) (not_null_constraint_name c)
    (not_null_conflict_clause c) (primary_key c) (primary_key_constraint_name c) (primary_key_conflict_clause c)
    (primary_key_sort_order c) (unique c) (unique_constraint_name c) (unique_conflict_clause c) (autoincrement c)
    (default_value c) (generated_expr c) (generated_stored c) (generated_storage_explicit c)
    (generated_always_explicit c) (column_checks c) (foreign_key c).
Definition with_unique (name conflict : option string) (c : ColumnDef) : ColumnDef :=
  mkColumnDef (column_name c) (column_type c) (declared_type c) (collation c) (nullable c)
    (not_null_constraint_name c) (not_null_conflict_clause c) (primary_key c) (primary_key_constraint_name c)
    (primary_key_conflict_clause c) (primary_key_sort_order c) true (or_else name (unique_constraint_name c))
    (or_else conflict (unique_conflict_clause c)) (autoincrement c) (default_value c) (generated_expr c)
    (generated_stored c) (generated_storage_explicit c) (generated_always_explicit c) (column_checks c)
    (foreign_key c).
Definition with_default_value (x : ColumnDefault) (c : ColumnDef) : ColumnDef :=
  mkColumnDef (column_name c) (column_type c) (declared_type c) (collation c) (nullable c)
    (not_null_constraint_name c) (not_null_conflict_clause c) (primary_key c) (primary_key_constraint_name c)
    (primary_key_conflict_clause c) (primary_key_sort_order c) (unique c) (unique_constraint_name c)
    (unique_conflict_clause c) (autoincrement c) (Some x) (generated_expr c) (generated_stored c)
    (generated_storage_explicit c) (generated_always_explicit c) (column_checks c) (foreign_key c).
Definition with_generated (expr : string) (stored storage_explicit always_explicit : bool) (c : ColumnDef) : ColumnDef :=
  mkColumnDef (column_name c) (column_type c) (declared_type c) (collation c) (nullable c)
    (not_null_constraint_name c) (not_null_conflict_clause c) (primary_key c) (primary_key_constraint_name c)
    (primary_key_conflict_clause c) (primary_key_sort_order c) (unique c) (unique_constraint_name c)
    (unique_conflict_clause c) (autoincrement c) (default_value c) (Some expr) stored storage_explicit
    always_explicit (column_checks c) (foreign_key c).
Definition with_check (x : CheckConstraint) (c : ColumnDef) : ColumnDef :=
  mkColumnDef (column_name c) (column_type c) (declared_type c) (collation c) (nullable c)
    (not_null_constraint_name c) (not_null_conflict_clause c) (primary_key c) (primary_key_constraint_name c)
    (primary_key_conflict_clause c) (primary_key_sort_order c) (unique c) (unique_constraint_name c)
    (unique_conflict_clause c) (autoincrement c) (default_value c) (generated_expr c) (generated_stored c)
    (generated_storage_explicit c) (generated_always_explicit c) (column_checks c ++ [x]) (foreign_key c).
Definition pragma_declared_type (c : ColumnDef) : string := default ""%string (declared_type c).

Definition new_foreign_key (columns : list string) (ref_table : string) (ref_columns : option (list string)) : ForeignKey :=
  mkForeignKey None columns ref_table ref_columns None None None None None.
Definition named_foreign_key (name : option string) (fk : ForeignKey) : ForeignKey :=
  mkForeignKey (or_else name (fk_constraint_name fk)) (fk_columns fk) (ref_table fk) (ref_columns fk) (match_clause fk)
    (on_delete fk) (on_update fk) (deferrable fk) (initially_deferred fk).
Definition with_match (x : string) (fk : ForeignKey) : ForeignKey :=
  mkForeignKey (fk_constraint_name fk) (fk_columns fk) (ref_table fk) (ref_columns fk) (Some x) (on_delete fk) (on_update fk)
    (deferrable fk) (initially_deferred fk).
Definition with_on_delete (x : string) (fk : ForeignKey) : ForeignKey :=
  mkForeignKey (fk_constraint_name fk) (fk_columns fk) (ref_table fk) (ref_columns fk) (match_clause fk) (Some x) (on_update fk)
    (deferrable fk) (initially_deferred fk).
Definition with_on_update (x : string) (fk : ForeignKey) : ForeignKey :=
  mkForeignKey (fk_constraint_name fk) (fk_columns fk) (ref_table fk) (ref_columns fk) (match_clause fk) (on_delete fk) (Some x)
    (deferrable fk) (initially_deferred fk).
Definition with_deferral (d i : option bool) (fk : ForeignKey) : ForeignKey :=
  mkForeignKey (fk_constraint_name fk) (fk_columns fk) (ref_table fk) (ref_columns fk) (match_clause fk) (on_delete fk) (on_update fk)
    (or_else d (deferrable fk)) (or_else i (initially_deferred fk)).

(** ** Text of tokens *)

Definition join_sql_fragments (fragments : list string) : string :=
  fold_left (fun sql fragment =>
    let needs_space_before :=
      negb (String.eqb sql "") && negb (one_of fragment [")"; ","; ";"; "."]%string) && negb (str_starts_with fragment "(")
      && match last (chars sql) with Some c => negb (existsb (Z.eqb c) [c#"("; c#"."; c#" "]) | None => true end in
    (sql ++ (if needs_space_before then " " else "") ++ fragment)%string) fragments ""%string.

(** [Err(format!("{message} at position {}", self.tokens[self.index.saturating_sub(1)].position))] *)
Definition error_at_previous {A} (message : string) : ST Parser A :=
  st_get (fun p => let? token := vec_index (tokens p) (pred (index p)) in
                   Err (Sql (message ++ " at position " ++ pretty (position token))%string)).
(** [while !stop(self.peek_kind()) { self.advance(); }] *)
Definition skip_until (stop : TokenKind -> bool) : ST Parser unit :=
  p_loop (fun _ => let! token := peek_kind in if stop token then st_ret (inr tt) else advance ;;! st_ret (inl tt)) tt.

Definition parse_index_predicate_sql : ST Parser string :=
  let! start := get_index in
  skip_until (fun token => match token with TkSemicolon | TkEof => true | _ => false end) ;;!
  let! predicate_tokens := st_read (fun p => tokens_between start (index p) p) in
  match predicate_tokens with
  | [] => st_err (Sql "partial index WHERE clause cannot be empty")
  | _ => st_ret (str_join " " (map token_sql_fragment predicate_tokens))
  end.

(** [depth] parentheses are open; [self.index += 1] goes over every token but the last. *)
Definition parse_parenthesized_sql_expression : ST Parser string :=
  let! start := get_index in
  p_loop (fun depth : nat =>
    if bool_decide (depth = O) then st_ret (inr tt)
    else
      let! i := get_index in
      let! token := st_read (fun p => kind_at p i) in
      match token with
      | None | Some TkEof => st_err (Sql "unterminated parenthesized SQL expression")
      | Some token =>
          reset_to (S i) ;;!
          st_ret (inl match token with TkLParen => S depth | TkRParen => pred depth | _ => depth end)
      end) 1%nat ;;!
  let! end_ := previous_index in
  st_read (fun p => str_join " " (map token_sql_fragment (tokens_between start end_ p))).

(** ** Columns *)

Definition parse_column_default_value : ST Parser ColumnDefault :=
  let current_default :=
    let! token := peek_kind in
    if is_word "CURRENT_TIMESTAMP" token then advance ;;! st_ret CurrentTimestamp
    else if is_word "CURRENT_DATE" token then advance ;;! st_ret CurrentDate
    else if is_word "CURRENT_TIME" token then advance ;;! st_ret CurrentTime
    else let! value := parse_literal in st_ret (Literal value) in
  if! matches TkLParen then
    let! value := current_default in
    expect_symbol TkRParen ;;!
    st_ret value
  else current_default.

Definition parse_conflict_clause_word : ST Parser string :=
  let! token := peek_kind in
  match token with
  | TkIdentifier word => advance ;;! st_ret word
  | TkConflict | TkReplace | TkRollback | TkNull | TkDefault | TkFull => advance ;;! st_ret (token_text token)
  | _ => error_found "conflict clause keyword"
  end.

Definition is_conflict_resolution (resolution : string) : bool :=
  one_of (to_ascii_uppercase resolution) ["ROLLBACK"; "ABORT"; "FAIL"; "IGNORE"; "REPLACE"]%string.
Definition parse_insert_or_conflict_resolution : ST Parser string :=
  let! resolution := parse_conflict_clause_word in
  if is_conflict_resolution resolution then st_ret resolution
  else error_at_previous ("unsupported conflict resolution '" ++ resolution ++ "'")%string.
Definition parse_optional_on_conflict_clause : ST Parser (option string) :=
  let! on := matches TkOn in
  if negb on then st_ret None
  else
    let! conflict := parse_conflict_clause_word in
    if negb (str_eq_ignore_case conflict "CONFLICT") then error_at_previous "expected CONFLICT after ON"
    else let! resolution := parse_insert_or_conflict_resolution in st_ret (Some resolution).

Definition parse_foreign_key_action : ST Parser string :=
  let! action := parse_optional_identifier_keyword in
  let rest :=
    if! matches TkSet then
      let! target := parse_conflict_clause_word in
      if one_of (to_ascii_uppercase target) ["NULL"; "DEFAULT"]%string then st_ret ("SET " ++ to_ascii_uppercase target)%string
      else error_at_previous ("unsupported foreign key SET action '" ++ target ++ "'")%string
    else error_found "foreign key action" in
  match action with
  | None => rest
  | Some action =>
      if one_of (to_ascii_uppercase action) ["CASCADE"; "RESTRICT"]%string then st_ret (to_ascii_uppercase action)
      else if str_eq_ignore_case action "NO" then
        let! target := parse_conflict_clause_word in
        if str_eq_ignore_case target "ACTION" then st_ret "NO ACTION"%string
        else error_at_previous ("unsupported foreign key NO action '" ++ target ++ "'")%string
      else rest
  end.

Definition parse_deferrable_initial_mode : ST Parser bool :=
  if! parse_optional_identifier_keyword_if "DEFERRED" then st_ret true
  else if! parse_optional_identifier_keyword_if "IMMEDIATE" then st_ret false
  else error_found "DEFERRED or IMMEDIATE".
Definition parse_optional_initially_clause : ST Parser (option bool) :=
  if! parse_optional_identifier_keyword_if "INITIALLY" then let! mode := parse_deferrable_initial_mode in st_ret (Some mode) else st_ret None.
Definition parse_optional_deferrable_clause : ST Parser (option (option bool * option bool)) :=
  let! saw_not := matches TkNot in
  if! parse_optional_identifier_keyword_if "DEFERRABLE" then
    let! mode := parse_optional_initially_clause in st_ret (Some (Some (negb saw_not), mode))
  else if saw_not : bool then error_found "DEFERRABLE after NOT"
  else if! parse_optional_identifier_keyword_if "INITIALLY" then
    let! mode := parse_deferrable_initial_mode in st_ret (Some (None, Some mode))
  else st_ret None.

Definition parse_optional_foreign_key_actions (foreign_key : ForeignKey) : ST Parser ForeignKey :=
  p_loop (fun fk =>
    if! parse_optional_identifier_keyword_if "MATCH" then
      let! word := parse_conflict_clause_word in st_ret (inl (with_match word fk))
    else if! matches TkOn then
      if! matches TkDelete then let! action := parse_foreign_key_action in st_ret (inl (with_on_delete action fk))
      else if! matches TkUpdate then let! action := parse_foreign_key_action in st_ret (inl (with_on_update action fk))
      else error_at_previous "expected DELETE or UPDATE after ON"
    else
      let! deferral := parse_optional_deferrable_clause in
      match deferral with
      | Some (d, i) => st_ret (inl (with_deferral d i fk))
      | None => st_ret (inr fk)
      end) foreign_key.

Definition parse_foreign_key_constraint (constraint_name : option string) : ST Parser ForeignKey :=
  let! columns := parse_parenthesized_identifier_list in
  expect_keyword TkReferences ;;!
  let! ref_table := parse_simple_identifier in
  let! ref_columns :=
    if! peek_is TkLParen then let! columns := parse_parenthesized_identifier_list in st_ret (Some columns) else st_ret None in
  parse_optional_foreign_key_actions (named_foreign_key constraint_name (new_foreign_key columns ref_table ref_columns)).

Definition parse_generated_column (column : ColumnDef) (generated_always_explicit : bool) : ST Parser ColumnDef :=
  (if generated_always_explicit then expect_keyword TkAs else st_ret tt) ;;!
  expect_symbol TkLParen ;;!
  let! expr := parse_parenthesized_sql_expression in
  if! matches TkStored then st_ret (with_generated expr true true generated_always_explicit column)
  else if! matches TkVirtual then st_ret (with_generated expr false true generated_always_explicit column)
  else st_ret (with_generated expr false false generated_always_explicit column).

Section Methods.
Context (self : Grammar).

Definition parse_check_constraint (name : string) (explicit_name : bool) : ST Parser CheckConstraint :=
  expect_symbol TkLParen ;;!
  let! expr := parse_where_expr self in
  expect_symbol TkRParen ;;!
  let! expr := st_get (fun _ => check_expr_from_expr expr) in
  st_ret (mkCheckConstraint name explicit_name expr).

(** One round of the loop of [parse_column_def]: the column, and the name that a
    [CONSTRAINT] before it gave to the next clause. *)
Definition parse_column_clause (table_name : option string) (state : ColumnDef * option string)
    : ST Parser ((ColumnDef * option string) + ColumnDef) :=
  let (column, pending) := state in
  if! matches TkConstraint then let! name := parse_simple_identifier in st_ret (inl (column, Some name))
  else if! matches TkPrimary then
    expect_keyword TkKey ;;!
    let! order := if! matches TkDesc then st_ret (Some Desc) else if! matches TkAsc then st_ret (Some Asc) else st_ret None in
    let! conflict := parse_optional_on_conflict_clause in
    let! auto := matches TkAutoincrement in
    st_ret (inl (with_primary_key pending order conflict auto column, None))
  else if! matches TkNot then
    expect_keyword TkNull ;;!
    let! conflict := parse_optional_on_conflict_clause in
    st_ret (inl (with_not_null pending conflict column, None))
  else if! matches TkCollate then let! collation := parse_simple_identifier in st_ret (inl (with_collation collation column, None))
  else if! matches TkUnique then
    let! conflict := parse_optional_on_conflict_clause in
    st_ret (inl (with_unique pending conflict column, None))
  else if! matches TkDefault then let! value := parse_column_default_value in st_ret (inl (with_default_value value column, None))
  else if! matches TkGenerated then
    expect_keyword TkAlways ;;!
    let! column := parse_generated_column column true in
    st_ret (inl (column, None))
  else if! matches TkAs then let! column := parse_generated_column column false in st_ret (inl (column, None))
  else if! matches TkCheck then
    let check_name := default (default "column" table_name ++ "_" ++ column_name column ++ "_check")%string pending in
    let! check := parse_check_constraint check_name (bool_decide (is_Some pending)) in
    st_ret (inl (with_check check column, None))
  else if! matches TkReferences then
    let! ref_table := parse_simple_identifier in
    let! ref_columns :=
      if! matches TkLParen then
        let! ref_column := parse_simple_identifier in
        expect_symbol TkRParen ;;!
        st_ret (Some [ref_column])
      else st_ret None in
    let! fk := parse_optional_foreign_key_actions (named_foreign_key pending (new_foreign_key [column_name column] ref_table ref_columns)) in
    st_ret (inl (with_foreign_key (Some fk) column, None))
  else st_ret (inr column).

Definition parse_column_def (table_name : option string) : ST Parser ColumnDef :=
  let! name := parse_simple_identifier in
  let! ty := parse_optional_column_type in
  let column := match ty with
                | Some (column_type, declared_type) => with_declared_type declared_type (new_column name column_type)
                | None => new_column name CtAny
                end in
  p_loop (parse_column_clause table_name) (column, None).

Definition parse_constraint_indexed_column : ST Parser (string * string) :=
  let! column := parse_simple_identifier in
  let! collation := parse_optional_collation_name in
  let decorated := (column ++ match collation with Some collation => " COLLATE " ++ collation | None => "" end)%string in
  if! matches TkAsc then st_ret (column, (decorated ++ " ASC")%string)
  else if! matches TkDesc then st_ret (column, (decorated ++ " DESC")%string)
  else st_ret (column, decorated).
Definition parse_parenthesized_constraint_indexed_columns : ST Parser (list string * list string) :=
  expect_symbol TkLParen ;;!
  let! values := comma_separated parse_constraint_indexed_column in
  expect_symbol TkRParen ;;!
  st_ret (map fst values, map snd values).

Definition parse_table_constraint (table_name : string) : ST Parser TableConstraint :=
  let! name := if! matches TkConstraint then let! name := parse_simple_identifier in st_ret (Some name) else st_ret None in
  if! matches TkCheck then
    let! check := parse_check_constraint (default (table_name ++ "_check")%string name) (bool_decide (is_Some name)) in
    st_ret (TableCheck check)
  else if! matches TkForeign then
    expect_keyword TkKey ;;!
    let! fk := parse_foreign_key_constraint name in
    st_ret (TableForeignKey fk)
  else if! matches TkPrimary then
    expect_keyword TkKey ;;!
    let! (columns, decorated_columns) := parse_parenthesized_constraint_indexed_columns in
    let! conflict_clause := parse_optional_on_conflict_clause in
    st_ret (TablePrimaryKey (mkPrimaryKeyConstraint name columns (Some decorated_columns) conflict_clause))
  else if! matches TkUnique then
    let! (columns, decorated_columns) := parse_parenthesized_constraint_indexed_columns in
    let! conflict_clause := parse_optional_on_conflict_clause in
    st_ret (TableUnique (mkUniqueConstraint name conflict_clause columns (Some decorated_columns)))
  else error_found "CHECK, FOREIGN KEY, PRIMARY KEY, or UNIQUE constraint".

(** ** Changing rows *)

Definition parse_optional_insert_target_alias : ST Parser (option string) :=
  if! matches TkAs then let! alias := parse_simple_identifier in st_ret (Some alias)
  else
    let! token := peek_kind in
    match token with
    | TkDefault | TkSelect | TkValues | TkWith | TkLParen => st_ret None
    | _ => if is_identifier_token token then let! alias := parse_simple_identifier in st_ret (Some alias) else st_ret None
    end.

(** [(columns) = value]: an assignment to each column. *)
Definition assign_row (columns : list string) (value : ScalarExpr) : Result (list Assignment) :=
  let mismatch (n : nat) : Result (list Assignment) :=
    Err (Sql (pretty (Zlen columns) ++ " columns assigned " ++ pretty (Z.of_nat n) ++ " values")%string) in
  match value with
  | STuple values =>
      if bool_decide (length columns = length values) then Ok (zip_with mkAssignment columns values) else mismatch (length values)
  | SSubquery (mkSelectStatement with_ distinct items from joins filter group_by having compounds order_by limit offset) =>
      if bool_decide (length columns = length items) then
        Ok (zip_with (fun column item =>
              mkAssignment column (SSubquery (mkSelectStatement with_ distinct [item] from joins filter group_by having compounds order_by limit offset)))
              columns items)
      else mismatch (length items)
  | _ => Err (Sql "row value assignment requires row value expression")
  end.
Definition parse_assignment : ST Parser (list Assignment) :=
  if! peek_is TkLParen then
    let! columns := parse_parenthesized_identifier_list in
    expect_symbol TkEq ;;!
    let! value := parse_scalar_expr self in
    st_get (fun _ => assign_row columns value)
  else
    let! column := parse_simple_identifier in
    expect_symbol TkEq ;;!
    let! value := parse_scalar_expr self in
    st_ret [mkAssignment column value].
Definition parse_assignments : ST Parser (list Assignment) :=
  let! assignments := comma_separated parse_assignment in
  st_ret (concat assignments).

Inductive InsertConflictSuffix :=
  | Legacy (or_conflict : option string)
  | DoNothing (target : option (list string))
  | DoUpdate (upsert : UpsertClause).

Definition parse_insert_conflict_suffix (existing_or_conflict : option string) : ST Parser InsertConflictSuffix :=
  let! on := matches TkOn in
  if negb on then st_ret (Legacy existing_or_conflict)
  else
    expect_keyword TkConflict ;;!
    let! target :=
      if! matches TkLParen then step_back ;;! let! columns := parse_parenthesized_identifier_list in st_ret (Some columns)
      else st_ret None in
    expect_keyword TkDo ;;!
    if! matches TkUpdate then
      expect_keyword TkSet ;;!
      let! assignments := parse_assignments in
      let! filter := parse_optional_condition self TkWhere in
      match existing_or_conflict with
      | Some _ => st_err (Sql "cannot combine INSERT OR <conflict-algorithm> with ON CONFLICT DO UPDATE")
      | None => st_ret (DoUpdate (mkUpsertClause target assignments filter))
      end
    else
      expect_keyword TkNothing ;;!
      match existing_or_conflict with
      | Some _ => st_err (Sql "cannot combine INSERT OR <conflict-algorithm> with ON CONFLICT DO NOTHING")
      | None => st_ret (DoNothing target)
      end.

Definition parse_optional_returning_clause : ST Parser (option (list SelectItem)) :=
  if! matches TkReturning then let! items := parse_select_list self in st_ret (Some items) else st_ret None.

Definition scalar_expr_row_literal_values (values : list ScalarExpr) : option (list Value) := collect_option scalar_expr_literal_value values.
Definition scalar_expr_rows_literal_values (rows : list (list ScalarExpr)) : option (list (list Value)) :=
  collect_option scalar_expr_row_literal_values rows.

(** The statement that [parse_insert] returns for the rows of [VALUES]: one row or many,
    of literals or of expressions. *)
Definition insert_values (table : string) (columns : option (list string)) (rows : list (list ScalarExpr))
    (suffix : InsertConflictSuffix) (returning : option (list SelectItem)) : Statement :=
  match rows with
  | [values] =>
      match suffix, scalar_expr_row_literal_values values, returning with
      | Legacy o, Some values, Some r => StInsertReturning table columns o values r
      | Legacy o, Some values, None => StInsert table columns o values
      | Legacy o, None, Some r => StInsertExprReturning table columns o values r
      | Legacy o, None, None => StInsertExpr table columns o values
      | DoNothing t, Some values, Some r => StInsertDoNothingReturning table columns t values r
      | DoNothing t, Some values, None => StInsertDoNothing table columns t values
      | DoNothing t, None, Some r => StInsertExprDoNothingReturning table columns t values r
      | DoNothing t, None, None => StInsertExprDoNothing table columns t values
      | DoUpdate u, Some values, Some r => StInsertUpsertReturning table columns values u r
      | DoUpdate u, Some values, None => StInsertUpsert table columns values u
      | DoUpdate u, None, Some r => StInsertExprUpsertReturning table columns values u r
      | DoUpdate u, None, None => StInsertExprUpsert table columns values u
      end
  | rows =>
      match suffix, scalar_expr_rows_literal_values rows, returning with
      | Legacy o, Some rows, Some r => StInsertManyReturning table columns o rows r
      | Legacy o, Some rows, None => StInsertMany table columns o rows
      | Legacy o, None, Some r => StInsertManyExprReturning table columns o rows r
      | Legacy o, None, None => StInsertManyExpr table columns o rows
      | DoNothing t, Some rows, Some r => StInsertManyDoNothingReturning table columns t rows r
      | DoNothing t, Some rows, None => StInsertManyDoNothing table columns t rows
      | DoNothing t, None, Some r => StInsertManyExprDoNothingReturning table columns t rows r
      | DoNothing t, None, None => StInsertManyExprDoNothing table columns t rows
      | DoUpdate u, Some rows, Some r => StInsertManyUpsertReturning table columns rows u r
      | DoUpdate u, Some rows, None => StInsertManyUpsert table columns rows u
      | DoUpdate u, None, Some r => StInsertManyExprUpsertReturning table columns rows u r
      | DoUpdate u, None, None => StInsertManyExprUpsert table columns rows u
      end
  end.

Definition insert_select (table : string) (columns : option (list string)) (select : SelectStatement)
    (suffix : InsertConflictSuffix) (returning : option (list SelectItem)) : Statement :=
  match suffix, returning with
  | Legacy o, Some r => StInsertSelectReturning table columns o select r
  | Legacy o, None => StInsertSelect table columns o select
  | DoNothing t, Some r => StInsertSelectDoNothingReturning table columns t select r
  | DoNothing t, None => StInsertSelectDoNothing table columns t select
  | DoUpdate u, Some r => StInsertSelectUpsertReturning table columns select u r
  | DoUpdate u, None => StInsertSelectUpsert table columns select u
  end.

(** [DEFAULT VALUES]: a [RETURNING] after [DO NOTHING] is left out of the statement. *)
Definition insert_defaults (table : string) (columns : option (list string)) (suffix : InsertConflictSuffix)
    (returning : option (list SelectItem)) : Result Statement :=
  match suffix with
  | Legacy o => Ok match returning with Some r => StInsertReturning table columns o [] r | None => StInsert table columns o [] end
  | DoNothing t => Ok (StInsertDoNothing table columns t [])
  | DoUpdate _ => Err (Sql "ON CONFLICT DO UPDATE with DEFAULT VALUES is not supported yet")
  end.

(** What is inserted. *)
Inductive InsertSource :=
  | Defaults
  | Query (select : SelectStatement)
  | Rows (rows : list (list ScalarExpr)).
Definition parse_insert_source : ST Parser InsertSource :=
  if! matches TkDefault then expect_keyword TkValues ;;! st_ret Defaults
  else if! peek_is TkWith then let! select := parse_with_select_statement self in st_ret (Query select)
  else if! peek_is TkSelect then let! select := parse_select_statement self in st_ret (Query select)
  else let! rows := parse_values_rows self in st_ret (Rows rows).

Definition parse_optional_column_list : ST Parser (option (list string)) :=
  if! peek_is TkLParen then let! columns := parse_parenthesized_identifier_list in st_ret (Some columns) else st_ret None.

Definition parse_insert : ST Parser Statement :=
  expect_keyword TkInsert ;;!
  let! or_conflict := if! matches TkOr then let! o := parse_insert_or_conflict_resolution in st_ret (Some o) else st_ret None in
  expect_keyword TkInto ;;!
  let! table := parse_schema_qualified_name in
  let! _ := parse_optional_insert_target_alias in
  let! columns := parse_optional_column_list in
  let! source := parse_insert_source in
  let! suffix := parse_insert_conflict_suffix or_conflict in
  let! returning := parse_optional_returning_clause in
  match source with
  | Defaults => st_get (fun _ => insert_defaults table columns suffix returning)
  | Query select => st_ret (insert_select table columns select suffix returning)
  | Rows rows => st_ret (insert_values table columns rows suffix returning)
  end.

(** [select.with = Some(with)] *)
Definition set_with (with_ : WithClause) (s : SelectStatement) : SelectStatement :=
  match s with
  | mkSelectStatement _ d cs f js fl g h c o l off => mkSelectStatement (Some with_) d cs f js fl g h c o l off
  end.
Definition insert_with (with_ : WithClause) (statement : Statement) : Statement :=
  match statement with
  | StInsertSelect t cs o s => StInsertSelect t cs o (set_with with_ s)
  | StInsertSelectReturning t cs o s r => StInsertSelectReturning t cs o (set_with with_ s) r
  | StInsertSelectDoNothing t cs tg s => StInsertSelectDoNothing t cs tg (set_with with_ s)
  | StInsertSelectDoNothingReturning t cs tg s r => StInsertSelectDoNothingReturning t cs tg (set_with with_ s) r
  | StInsertSelectUpsert t cs s u => StInsertSelectUpsert t cs (set_with with_ s) u
  | StInsertSelectUpsertReturning t cs s u r => StInsertSelectUpsertReturning t cs (set_with with_ s) u r
  | statement => StWithDml with_ statement
  end.
Definition parse_insert_with_clause (with_ : WithClause) : ST Parser Statement :=
  let! statement := parse_insert in st_ret (insert_with with_ statement).

Definition parse_values_statement : ST Parser Statement := let! rows := parse_values_rows self in st_ret (StValues rows).

Definition parse_replace : ST Parser Statement :=
  expect_keyword TkReplace ;;!
  expect_keyword TkInto ;;!
  let! table := parse_schema_qualified_name in
  let! columns := parse_optional_column_list in
  let! source := parse_insert_source in
  let suffix := Legacy (Some "REPLACE"%string) in
  match source with
  | Defaults => st_get (fun _ => insert_defaults table columns suffix None)
  | Query select => st_ret (insert_select table columns select suffix None)
  | Rows rows => st_ret (insert_values table columns rows suffix None)
  end.

(** The clauses that end a [DELETE] and an [UPDATE]. *)
Record DmlTail := mkDmlTail {
  tail_order_by : list OrderBy;
  tail_limit : option Z;
  tail_offset : option Z;
  tail_returning : option (list SelectItem)
}.
Definition is_limited (order_by : list OrderBy) (limit offset : option Z) : bool :=
  negb (bool_decide (length order_by = O)) || bool_decide (is_Some limit) || bool_decide (is_Some offset).
(** Where [RETURNING] comes, the order and the limits have to come after it. *)
Definition parse_dml_tail (what : string) : ST Parser DmlTail :=
  let! order_by := parse_optional_order_by self false in
  let! (limit, offset) := parse_optional_limit_offset self in
  let! returning := parse_optional_returning_clause in
  match returning with
  | None => st_ret (mkDmlTail order_by limit offset None)
  | Some returning =>
      let! returning_order_by := parse_optional_order_by self false in
      let! (returning_limit, returning_offset) := parse_optional_limit_offset self in
      if is_limited order_by limit offset then st_err (Sql (what ++ " ORDER BY or LIMIT must appear after RETURNING")%string)
      else st_ret (mkDmlTail returning_order_by returning_limit returning_offset (Some returning))
  end.

Definition parse_delete : ST Parser Statement :=
  expect_keyword TkDelete ;;!
  expect_keyword TkFrom ;;!
  let! (table, schema) := parse_schema_qualified_name_with_schema in
  let! table_alias := parse_optional_table_alias in
  let! index_hint := parse_optional_table_index_hint in
  let! filter := parse_optional_condition self TkWhere in
  let! (mkDmlTail order_by limit offset returning) := parse_dml_tail "DELETE" in
  let limited := is_limited order_by limit offset in
  st_ret match returning with
         | Some r =>
             if limited then StDeleteReturningLimited table schema table_alias index_hint filter r order_by limit offset
             else StDeleteReturning table schema table_alias index_hint filter r
         | None =>
             if limited then StDeleteLimited table schema table_alias index_hint filter order_by limit offset
             else StDelete table schema table_alias index_hint filter
         end.

Definition parse_update : ST Parser Statement :=
  expect_keyword TkUpdate ;;!
  let! or_conflict := if! matches TkOr then let! o := parse_insert_or_conflict_resolution in st_ret (Some o) else st_ret None in
  let! (table, schema) := parse_schema_qualified_name_with_schema in
  let! table_alias := parse_optional_table_alias in
  let! index_hint := parse_optional_table_index_hint in
  expect_keyword TkSet ;;!
  let! assignments := parse_assignments in
  let! from := if! matches TkFrom then let! from := parse_from_item self in st_ret (Some from) else st_ret None in
  let! filter := parse_optional_condition self TkWhere in
  let! (mkDmlTail order_by limit offset returning) := parse_dml_tail "UPDATE" in
  let limited := is_limited order_by limit offset in
  st_ret match returning with
         | Some r =>
             if limited
             then StUpdateReturningLimited table schema table_alias index_hint or_conflict assignments from filter r order_by limit offset
             else StUpdateReturning table schema table_alias index_hint or_conflict assignments from filter r
         | None =>
             if limited
             then StUpdateLimited table schema table_alias index_hint or_conflict assignments from filter order_by limit offset
             else StUpdate table schema table_alias index_hint or_conflict assignments from filter
         end.

Definition parse_with_statement : ST Parser Statement :=
  let! with_ := parse_with_clause self in
  let! token := peek_kind in
  match token with
  | TkSelect => let! select := parse_compound_select_statement self (Some with_) in st_ret (StSelect select)
  | TkInsert => parse_insert_with_clause with_
  | TkUpdate => let! statement := parse_update in st_ret (StWithDml with_ statement)
  | TkDelete => let! statement := parse_delete in st_ret (StWithDml with_ statement)
  | TkValues => let! rows := parse_values_rows self in st_ret (StValuesWith with_ rows)
  | _ => error_found "SELECT, INSERT, UPDATE, DELETE, or VALUES after WITH"
  end.

(** ** Creating and dropping *)

Definition parse_if_not_exists : ST Parser bool :=
  if! matches TkIf then expect_keyword TkNot ;;! expect_keyword TkExists ;;! st_ret true else st_ret false.
Definition parse_if_exists : ST Parser bool :=
  if! matches TkIf then expect_keyword TkExists ;;! st_ret true else st_ret false.

Definition parse_table_options : ST Parser (bool * bool) :=
  p_loop (fun options : bool * bool =>
    let (strict, without_rowid) := options in
    let! option :=
      if! (if strict then st_ret false else matches TkStrict) then st_ret (Some (true, without_rowid))
      else if! (if without_rowid then st_ret false else parse_optional_identifier_keyword_if "WITHOUT") then
        if! parse_optional_identifier_keyword_if "ROWID" then st_ret (Some (strict, true)) else error_found "ROWID after WITHOUT"
      else st_ret None in
    match option with
    | Some options => let! _ := matches TkComma in st_ret (inl options)
    | None => st_ret (inr options)
    end) (false, false).

Definition quote_mark : string := bytes_string [34].
Definition validate_strict_table_declared_types (table : string) (columns : list ColumnDef) : Result unit :=
  each_res (fun column =>
    if one_of (normalized_type (pragma_declared_type column)) ["INT"; "INTEGER"; "REAL"; "TEXT"; "BLOB"; "ANY"]%string then Ok tt
    else Err (Sql ("unknown datatype for " ++ table ++ "." ++ column_name column ++ ": " ++ quote_mark ++ pragma_declared_type column ++ quote_mark)%string)) columns.

Definition is_temp (schema : option string) : bool := match schema with Some schema => str_eq_ignore_case schema "temp" | None => false end.

Definition parse_create_table_as (name : string) (if_not_exists temporary : bool) : ST Parser Statement :=
  if! peek_is TkWith then
    let! statement := parse_with_statement in
    match statement with
    | StSelect select => st_ret (StCreateTableAs name if_not_exists select temporary)
    | StValuesWith with_ rows => st_ret (StCreateTableAsValues name if_not_exists (Some with_) rows temporary)
    | _ => st_err (Sql "CREATE TABLE AS WITH only supports SELECT or VALUES")
    end
  else if! peek_is TkValues then
    let! rows := parse_values_rows self in
    st_ret (StCreateTableAsValues name if_not_exists None rows temporary)
  else let! select := parse_select_statement self in st_ret (StCreateTableAs name if_not_exists select temporary).

(** The columns and constraints between the parentheses. *)
Definition parse_table_elements (name : string) : ST Parser (list ColumnDef * list TableConstraint) :=
  p_loop (fun elements : list ColumnDef * list TableConstraint =>
    let (columns, constraints) := elements in
    let! token := peek_kind in
    let! elements :=
      match token with
      | TkCheck | TkForeign | TkConstraint | TkPrimary | TkUnique =>
          let! constraint := parse_table_constraint name in st_ret (columns, constraints ++ [constraint])
      | _ => let! column := parse_column_def (Some name) in st_ret (columns ++ [column], constraints)
      end in
    if! matches TkComma then st_ret (inl elements) else st_ret (inr elements)) ([], []).

Definition parse_create_table (temporary : bool) : ST Parser Statement :=
  expect_keyword TkTable ;;!
  let! if_not_exists := parse_if_not_exists in
  let! (name, schema) := parse_schema_qualified_name_with_schema in
  let temporary := temporary || is_temp schema in
  if! matches TkAs then parse_create_table_as name if_not_exists temporary
  else
    expect_symbol TkLParen ;;!
    let! (columns, constraints) := parse_table_elements name in
    expect_symbol TkRParen ;;!
    let! (strict, without_rowid) := parse_table_options in
    st_get (fun _ => if strict : bool then validate_strict_table_declared_types name columns else Ok tt) ;;!
    st_ret (StCreateTable name columns constraints strict without_rowid if_not_exists temporary).

Definition parse_create_view (temporary : bool) : ST Parser Statement :=
  expect_identifier_keyword "VIEW" ;;!
  let! if_not_exists := parse_if_not_exists in
  let! (name, schema) := parse_schema_qualified_name_with_schema in
  let temporary := temporary || is_temp schema in
  let! columns := if! peek_is TkLParen then let! columns := parse_parenthesized_identifier_list in st_ret (Some columns) else st_ret None in
  expect_keyword TkAs ;;!
  let! select :=
    if! peek_is TkValues then parse_values_as_select_statement self
    else if! peek_is TkWith then parse_with_select_statement self
    else parse_select_statement self in
  st_ret (StCreateView name columns if_not_exists select temporary).

Definition parse_indexed_column : ST Parser (string * string) :=
  let! start := get_index in
  let! expr := parse_scalar_expr self in
  let! parsed := st_read (fun p => join_sql_fragments (map token_sql_fragment (tokens_between start (index p) p))) in
  let column := match expr with SColumn name | SCollate (SColumn name) _ => name | _ => parsed end in
  let! collation := parse_optional_collation_name in
  let decorated := (parsed ++ match collation with Some collation => " COLLATE " ++ collation | None => "" end)%string in
  if! matches TkAsc then st_ret (column, (decorated ++ " ASC")%string)
  else if! matches TkDesc then st_ret (column, (decorated ++ " DESC")%string)
  else st_ret (column, decorated).
Definition parse_parenthesized_index_column_list : ST Parser (list string * list string) :=
  expect_symbol TkLParen ;;!
  if! peek_is TkRParen then error_expected "identifier"
  else
    let! columns := comma_separated parse_indexed_column in
    expect_symbol TkRParen ;;!
    st_ret (map fst columns, map snd columns).

Definition parse_create_index (unique : bool) : ST Parser Statement :=
  expect_keyword TkIndex ;;!
  let! if_not_exists := parse_if_not_exists in
  let! (name, schema) := parse_schema_qualified_name_with_schema in
  expect_keyword TkOn ;;!
  let! table := parse_identifier in
  let! (columns, decorated_columns) := parse_parenthesized_index_column_list in
  let! predicate := if! matches TkWhere then let! predicate := parse_index_predicate_sql in st_ret (Some predicate) else st_ret None in
  st_ret (StCreateIndex name schema table columns (Some decorated_columns) unique predicate if_not_exists).

(** To the [END] of the trigger, over those of [CASE] expressions. *)
Definition skip_trigger_body : ST Parser unit :=
  p_loop (fun case_depth : nat =>
    let! token := peek_kind in
    match token, case_depth with
    | TkCase, _ => advance ;;! st_ret (inl (S case_depth))
    | TkEnd, S case_depth => advance ;;! st_ret (inl case_depth)
    | TkEnd, O => advance ;;! st_ret (inr tt)
    | TkEof, _ => st_ret (inr tt)
    | _, _ => advance ;;! st_ret (inl case_depth)
    end) O.

Definition parse_create_trigger : ST Parser Statement :=
  let! i := get_index in
  let start := pred i in
  expect_identifier_keyword "TRIGGER" ;;!
  let! if_not_exists := parse_if_not_exists in
  let! (name, schema) := parse_schema_qualified_name_with_schema in
  skip_until (fun token => match token with TkOn | TkEof => true | _ => false end) ;;!
  expect_keyword TkOn ;;!
  let! (table, _) := parse_schema_qualified_name_with_schema in
  skip_until (fun token => match token with TkBegin | TkEof => true | _ => false end) ;;!
  expect_keyword TkBegin ;;!
  skip_trigger_body ;;!
  let! fragments := st_read (fun p => map token_sql_fragment (tokens_between start (index p) p)) in
  let sql := of_chars (replace (chars "VALUES(") (chars "VALUES (") (chars (join_sql_fragments fragments))) in
  st_ret (StCreateTrigger name schema table sql if_not_exists).

Definition parse_create : ST Parser Statement :=
  expect_keyword TkCreate ;;!
  if! (if! parse_optional_identifier_keyword_if "TEMP" then st_ret true else parse_optional_identifier_keyword_if "TEMPORARY") then
    let! token := peek_kind in
    match token with
    | TkTable => parse_create_table true
    | _ => if is_word "VIEW" token then parse_create_view true else error_found "TABLE or VIEW"
    end
  else
    let! token := peek_kind in
    match token with
    | TkTable => parse_create_table false
    | TkIndex => parse_create_index false
    | TkUnique => advance ;;! parse_create_index true
    | _ =>
        if is_word "VIEW" token then parse_create_view false
        else if is_word "TRIGGER" token then parse_create_trigger
        else error_found "TABLE, VIEW, INDEX, UNIQUE INDEX, or TRIGGER"
    end.

Definition parse_drop : ST Parser Statement :=
  expect_keyword TkDrop ;;!
  let! token := peek_kind in
  let object (make : string -> option string -> bool -> Statement) :=
    advance ;;!
    let! if_exists := parse_if_exists in
    let! (name, schema) := parse_schema_qualified_name_with_schema in
    st_ret (make name schema if_exists) in
  match token with
  | TkTable => object StDropTable
  | TkIndex => object StDropIndex
  | _ =>
      if is_word "VIEW" token then object StDropView
      else if is_word "TRIGGER" token then object StDropTrigger
      else error_found "TABLE, VIEW, INDEX, or TRIGGER"
  end.

Definition parse_alter : ST Parser Statement :=
  expect_keyword TkAlter ;;!
  expect_keyword TkTable ;;!
  let! (table, schema) := parse_schema_qualified_name_with_schema in
  if! matches TkAdd then
    let! _ := matches TkColumn in
    let! column := parse_column_def (Some table) in
    st_ret (StAlterTable table schema (AddColumn column))
  else if! matches TkDrop then
    expect_keyword TkColumn ;;!
    let! old_name := parse_simple_identifier in
    st_ret (StAlterTable table schema (DropColumn old_name))
  else
    expect_keyword TkRename ;;!
    if! matches TkColumn then
      let! old_name := parse_simple_identifier in
      expect_keyword TkTo ;;!
      let! new_name := parse_simple_identifier in
      st_ret (StAlterTable table schema (RenameColumn old_name new_name))
    else if! matches TkTo then
      let! new_name := parse_simple_identifier in
      st_ret (StAlterTable table schema (RenameTable new_name))
    else error_found "COLUMN or TO after RENAME".

(** ** Transactions *)

Definition parse_optional_sqlite_begin_mode : ST Parser unit :=
  if! parse_optional_identifier_keyword_if "DEFERRED" then st_ret tt
  else if! parse_optional_identifier_keyword_if "IMMEDIATE" then st_ret tt
  else let! _ := parse_optional_identifier_keyword_if "EXCLUSIVE" in st_ret tt.

Definition parse_optional_isolation_level : ST Parser (option IsolationLevel) :=
  let! isolation := matches TkIsolation in
  if negb isolation then st_ret None
  else
    expect_keyword TkLevel ;;!
    if! matches TkRead then
      if! matches TkCommitted then st_ret (Some ReadCommitted)
      else expect_keyword TkRepeatable ;;! expect_keyword TkRead ;;! st_ret (Some RepeatableRead)
    else expect_keyword TkSerializable ;;! st_ret (Some Serializable).

Definition parse_begin_or_start_transaction : ST Parser Statement :=
  if! matches TkBegin then
    parse_optional_sqlite_begin_mode ;;!
    let! _ := matches TkTransaction in
    let! level := parse_optional_isolation_level in
    st_ret (StBegin level)
  else
    expect_keyword TkStart ;;!
    expect_keyword TkTransaction ;;!
    let! level := parse_optional_isolation_level in
    st_ret (StBegin level).

Definition parse_savepoint_statement : ST Parser Statement :=
  expect_keyword TkSavepoint ;;!
  let! name := parse_simple_identifier in
  st_ret (StSavepoint name).

Definition parse_rollback_statement : ST Parser Statement :=
  expect_keyword TkRollback ;;!
  let! _ := matches TkTransaction in
  if! matches TkTo then
    let! _ := matches TkSavepoint in
    let! name := parse_simple_identifier in
    st_ret (StRollbackTo name)
  else st_ret StRollback.

Definition parse_release_statement : ST Parser Statement :=
  expect_keyword TkRelease ;;!
  let! _ := matches TkSavepoint in
  let! name := parse_simple_identifier in
  st_ret (StRelease name).

(** ** Pragmas *)

(** [= value], [(value)] or nothing: the shape of all the [parse_optional_pragma_*]. *)
Definition pragma_assignment {A} (value : ST Parser A) : ST Parser (option A) :=
  if! matches TkEq then let! a := value in st_ret (Some a)
  else if! matches TkLParen then
    let! a := value in
    expect_symbol TkRParen ;;!
    st_ret (Some a)
  else st_ret None.
Definition set_or_get {A} (value : ST Parser A) (set : A -> Statement) (get : Statement) : ST Parser Statement :=
  let! a := pragma_assignment value in
  st_ret match a with Some a => set a | None => get end.

Definition parse_pragma_name_argument_in_parens_or_equals : ST Parser string :=
  if! matches TkEq then parse_pragma_name_argument
  else
    expect_symbol TkLParen ;;!
    let! value := parse_pragma_name_argument in
    expect_symbol TkRParen ;;!
    st_ret value.

Definition parse_optional_pragma_scalar_argument : ST Parser unit :=
  let! _ := pragma_assignment (parse_scalar_expr self) in st_ret tt.

Definition parse_pragma_encoding : ST Parser unit :=
  let! encoding := parse_pragma_name_argument in
  if str_eq_ignore_case (of_chars (List.filter (fun c => negb (c =? c#"-")) (chars encoding))) "utf8" then st_ret tt
  else st_err (Sql ("unsupported encoding: " ++ encoding)%string).

Definition sqlite_pragma_boolean_string (value : string) : bool :=
  if existsb (str_eq_ignore_case value) ["on"; "yes"; "true"]%string then true
  else if existsb (str_eq_ignore_case value) ["off"; "no"; "false"]%string then false
  else match parse_i64 (chars value) with inr number => negb (number =? 0) | inl _ => false end.

Definition sqlite_pragma_string_integer_prefix (value : string) : Z :=
  let trimmed := trim_start_matches is_whitespace (chars value) in
  let (sign, rest) := match trimmed with
                      | c :: rest => if (c =? c#"+") || (c =? c#"-") then ([c], rest) else ([], trimmed)
                      | [] => ([], [])
                      end in
  let (digits, _) := span is_ascii_digit rest in
  if bool_decide (digits = []) then 0
  else match parse_i64 (sign ++ digits) with
       | inr number => number
       | inl _ => if bool_decide (sign = [c#"-"]) then i64_min else i64_max
       end.

(** The value of the first word that is [name], whatever its case. *)
Fixpoint word_value {A} (words : list (string * A)) (name : string) : option A :=
  match words with
  | [] => None
  | (word, a) :: words => if str_eq_ignore_case name word then Some a else word_value words name
  end.

Definition auto_vacuum_words : list (string * Z) := [("NONE", 0); ("FULL", 1); ("INCREMENTAL", 2)]%string.
Definition in_range (lo hi value : Z) : option Z := if (lo <=? value) && (value <=? hi) then Some value else None.

Definition parse_pragma_auto_vacuum : ST Parser (option Z) :=
  let! token := peek_kind in
  match token with
  | TkInteger value =>
      match in_range 0 2 value with
      | Some value => advance ;;! st_ret (Some value)
      | None => let! _ := parse_pragma_name_argument in st_ret None
      end
  | TkDefault | TkOff | TkFalse => advance ;;! st_ret (Some 0)
  | TkOn | TkTrue | TkFull => advance ;;! st_ret (Some 1)
  | TkIdentifier word =>
      match word_value auto_vacuum_words word with
      | Some value => advance ;;! st_ret (Some value)
      | None => let! _ := parse_pragma_name_argument in st_ret None
      end
  | TkString word =>
      advance ;;!
      st_ret match word_value auto_vacuum_words word with
             | Some value => Some value
             | None => in_range 0 2 (sqlite_pragma_string_integer_prefix word)
             end
  | _ => error_found "NONE, FULL, INCREMENTAL, 0, 1, or 2 for auto_vacuum"
  end.

Definition parse_signed_pragma_integer (pragma_name : string) : ST Parser Z :=
  let! token := peek_kind in
  match token with
  | TkInteger value => advance ;;! st_ret value
  | TkString value => advance ;;! st_ret (sqlite_pragma_string_integer_prefix value)
  | TkMinus =>
      advance ;;!
      let! token := peek_kind in
      match token with
      | TkInteger value =>
          match checked_neg value with
          | Some value => advance ;;! st_ret value
          | None => st_err (Sql ("PRAGMA " ++ pragma_name ++ " value is too small")%string)
          end
      | _ => error_found ("integer " ++ pragma_name ++ " value")%string
      end
  | _ => error_found ("integer " ++ pragma_name ++ " value")%string
  end.

Definition too_large {A} (pragma_name : string) : ST Parser A := st_err (Sql ("PRAGMA " ++ pragma_name ++ " value is too large")%string).
(** The bits of an [i32], as a [u32]. *)
Definition parse_signed_pragma_i32_bits (pragma_name : string) : ST Parser Z :=
  let! value := parse_signed_pragma_integer pragma_name in
  match in_range (-2147483648) 2147483647 value with
  | Some value => st_ret (value mod 4294967296)
  | None => too_large pragma_name
  end.
Definition parse_unsigned_pragma_integer (pragma_name : string) : ST Parser Z :=
  let! token := peek_kind in
  let checked value :=
    match in_range 0 u32_max value with Some value => advance ;;! st_ret value | None => too_large pragma_name end in
  let other := error_found ("non-negative integer " ++ pragma_name ++ " value")%string in
  match token with
  | TkInteger value => if 0 <=? value then checked value else other
  | TkString value => checked (Z.max 0 (sqlite_pragma_string_integer_prefix value))
  | _ => other
  end.
Definition parse_lenient_unsigned_pragma_integer (pragma_name : string) : ST Parser (option Z) :=
  let! token := peek_kind in
  let other := error_found ("integer " ++ pragma_name ++ " value")%string in
  match token with
  | TkInteger value =>
      if 0 <=? value then
        match in_range 0 u32_max value with Some value => advance ;;! st_ret (Some value) | None => too_large pragma_name end
      else other
  | TkString value =>
      let value := sqlite_pragma_string_integer_prefix value in
      advance ;;!
      if 0 <=? value then match in_range 0 u32_max value with Some value => st_ret (Some value) | None => too_large pragma_name end
      else st_ret None
  | TkMinus =>
      advance ;;!
      let! token := peek_kind in
      match token with
      | TkInteger _ => advance
      | _ => if is_identifier_token token then let! _ := parse_simple_identifier in st_ret tt else st_ret tt
      end ;;!
      st_ret None
  | TkDefault => advance ;;! st_ret None
  | TkIdentifier _ => let! _ := parse_pragma_name_argument in st_ret None
  | _ => other
  end.

Definition or_default_zero (pragma_name : string) : ST Parser Z :=
  if! matches TkDefault then st_ret 0 else parse_signed_pragma_integer pragma_name.
Definition parse_pragma_busy_timeout : ST Parser Z := or_default_zero "busy_timeout".
Definition parse_pragma_cache_size : ST Parser Z := or_default_zero "cache_size".

Definition spill (value : Z) : Z := if 0 <? value then Z.max value 2000 else 0.
Definition parse_pragma_cache_spill : ST Parser (option Z) :=
  let! token := peek_kind in
  match token with
  | TkOn | TkTrue | TkDefault => advance ;;! st_ret (Some 2000)
  | TkOff | TkFalse => advance ;;! st_ret (Some 0)
  | TkInteger value => advance ;;! st_ret (Some (spill value))
  | TkString word =>
      advance ;;!
      st_ret match word_value [("ON"%string, 2000); ("OFF"%string, 0)] word with
             | Some value => Some value
             | None => Some (spill (sqlite_pragma_string_integer_prefix word))
             end
  | _ => let! _ := parse_pragma_name_argument in st_ret None
  end.

(** The settings with names for the numbers from 0 to 3: [temp_store] and [synchronous]. *)
Definition parse_level_word (setting : string) (words : list (string * Z)) (expected : string) : ST Parser Z :=
  let! token := peek_kind in
  let unsupported_value (value : string) : ST Parser Z := st_err (Sql ("unsupported " ++ setting ++ ": " ++ value)%string) in
  match token with
  | TkInteger value =>
      advance ;;!
      match in_range 0 3 value with Some value => st_ret value | None => unsupported_value (pretty value) end
  | TkIdentifier word =>
      match word_value words word with
      | Some value => advance ;;! st_ret value
      | None => let! value := parse_pragma_name_argument in unsupported_value value
      end
  | TkString word =>
      advance ;;!
      match word_value words word with
      | Some value => st_ret value
      | None =>
          let value := sqlite_pragma_string_integer_prefix word in
          match in_range 0 3 value with Some value => st_ret value | None => unsupported_value (pretty value) end
      end
  | _ => error_found expected
  end.
Definition parse_pragma_temp_store : ST Parser Z :=
  if! matches TkDefault then st_ret 0
  else parse_level_word "temp_store" [("DEFAULT"%string, 0); ("FILE"%string, 1); ("MEMORY"%string, 2)]
         "DEFAULT, FILE, MEMORY, 0, 1, or 2 for temp_store".
Definition parse_pragma_synchronous : ST Parser Z :=
  if! matches TkFull then st_ret 2
  else if! matches TkOff then st_ret 0
  else parse_level_word "synchronous" [("FULL"%string, 2); ("EXTRA"%string, 3); ("NORMAL"%string, 1); ("OFF"%string, 0)]
         "OFF, NORMAL, FULL, EXTRA, 0, 1, 2, or 3 for synchronous".

Definition parse_pragma_journal_mode : ST Parser string :=
  let! token := peek_kind in
  let refuse (value : string) : ST Parser string := st_err (Sql ("changing journal_mode is not supported: " ++ value)%string) in
  let modes := ["memory"; "truncate"; "persist"; "off"]%string in
  let named names word := List.find (str_eq_ignore_case word) names in
  match token with
  | TkDelete => advance ;;! st_ret "delete"%string
  | TkOff => advance ;;! st_ret "off"%string
  | TkIdentifier word =>
      match named modes word with
      | Some mode => advance ;;! st_ret mode
      | None => let! value := parse_pragma_name_argument in refuse value
      end
  | TkString word =>
      advance ;;!
      match named ("delete"%string :: modes) word with Some mode => st_ret mode | None => refuse word end
  | _ => advance ;;! refuse (display_token token)
  end.

Definition parse_pragma_secure_delete : ST Parser (option Z) :=
  let! token := peek_kind in
  let other := (let! _ := parse_pragma_name_argument in st_ret None) in
  match token with
  | TkOn | TkTrue => advance ;;! st_ret (Some 1)
  | TkOff | TkFalse => advance ;;! st_ret (Some 0)
  | TkIdentifier word => if str_eq_ignore_case word "FAST" then advance ;;! st_ret (Some 2) else other
  | TkInteger value => match in_range 0 2 value with Some value => advance ;;! st_ret (Some value) | None => other end
  | TkString word =>
      advance ;;!
      st_ret match word_value [("ON"%string, 1); ("OFF"%string, 0); ("FAST"%string, 2)] word with
             | Some value => Some value
             | None => in_range 0 2 (sqlite_pragma_string_integer_prefix word)
             end
  | _ => other
  end.

Definition parse_pragma_wal_autocheckpoint : ST Parser (option Z) :=
  let! token := peek_kind in
  match token with
  | TkInteger value => advance ;;! st_ret (Some (Z.max value 0))
  | TkMinus => advance ;;! expect_keyword (TkInteger 1) ;;! st_ret (Some 0)
  | _ => let! _ := parse_pragma_name_argument in st_ret None
  end.
Definition parse_pragma_max_page_count : ST Parser (option Z) :=
  let! token := peek_kind in
  match token with
  | TkInteger value => advance ;;! st_ret (if 0 <? value then Some value else None)
  | TkMinus => advance ;;! expect_keyword (TkInteger 1) ;;! st_ret None
  | _ => let! _ := parse_pragma_name_argument in st_ret None
  end.

Definition parse_pragma_boolean (pragma_name : string) : ST Parser bool :=
  let! token := peek_kind in
  let other := error_found ("ON, OFF, 1, or 0 for " ++ pragma_name)%string in
  match token with
  | TkOn | TkTrue => advance ;;! st_ret true
  | TkOff | TkFalse | TkDefault => advance ;;! st_ret false
  | TkIdentifier word =>
      match word_value [("YES"%string, true); ("NO"%string, false)] word with
      | Some value => advance ;;! st_ret value
      | None => other
      end
  | TkInteger value => advance ;;! st_ret (0 <? value)
  | TkMinus => advance ;;! expect_keyword (TkInteger 1) ;;! st_ret false
  | TkString value => advance ;;! st_ret (sqlite_pragma_boolean_string value)
  | _ => other
  end.

Definition parse_pragma_optimize : ST Parser Statement :=
  let! _ :=
    pragma_assignment
      (let! token := peek_kind in
       if is_scalar_expr_start token then parse_scalar_expr self else error_found "PRAGMA optimize argument") in
  st_ret StPragmaOptimize.

(** The pragmas that [parse_pragma] knows before it asks for the name of a table. *)
Definition pragmas (schema : option string) : list (string * ST Parser Statement) :=
  [
   ("database_list"%string, st_ret StPragmaDatabaseList);
   ("page_size"%string, set_or_get (parse_unsigned_pragma_integer "page_size") (fun value =>
      StSetPragmaPageSize value schema) (StPragmaPageSize schema));
   ("page_count"%string, st_ret (StPragmaPageCount schema));
   ("max_page_count"%string, set_or_get parse_pragma_max_page_count StSetPragmaMaxPageCount StPragmaMaxPageCount);
   ("freelist_count"%string, st_ret (StPragmaFreelistCount schema));
   ("user_version"%string, set_or_get (parse_signed_pragma_i32_bits "user_version") (fun value =>
      StSetPragmaUserVersion value schema) (StPragmaUserVersion schema));
   ("application_id"%string, set_or_get (parse_signed_pragma_i32_bits "application_id") (fun value =>
      StSetPragmaApplicationId value schema) (StPragmaApplicationId schema));
   ("schema_version"%string, set_or_get (parse_signed_pragma_i32_bits "schema_version") (fun value =>
      StSetPragmaSchemaVersion value schema) (StPragmaSchemaVersion schema));
   ("foreign_keys"%string, set_or_get (parse_pragma_boolean "foreign_keys") StSetPragmaForeignKeys StPragmaForeignKeys);
   ("defer_foreign_keys"%string, set_or_get (parse_pragma_boolean "defer_foreign_keys")
      StSetPragmaDeferForeignKeys StPragmaDeferForeignKeys);
   ("read_uncommitted"%string, set_or_get (parse_pragma_boolean "read_uncommitted") StSetPragmaReadUncommitted
      StPragmaReadUncommitted);
   ("query_only"%string, set_or_get (parse_pragma_boolean "query_only") StSetPragmaQueryOnly StPragmaQueryOnly);
   ("count_changes"%string, set_or_get (parse_pragma_boolean "count_changes") StSetPragmaCountChanges StPragmaCountChanges);
   ("recursive_triggers"%string, set_or_get (parse_pragma_boolean "recursive_triggers")
      StSetPragmaRecursiveTriggers StPragmaRecursiveTriggers);
   ("trusted_schema"%string, set_or_get (parse_pragma_boolean "trusted_schema") StSetPragmaTrustedSchema
      StPragmaTrustedSchema);
   ("ignore_check_constraints"%string, set_or_get (parse_pragma_boolean "ignore_check_constraints")
      StSetPragmaIgnoreCheckConstraints StPragmaIgnoreCheckConstraints);
   ("encoding"%string, set_or_get parse_pragma_encoding (fun _ => StSetPragmaEncoding) StPragmaEncoding);
   ("collation_list"%string, st_ret StPragmaCollationList);
   ("data_version"%string, st_ret StPragmaDataVersion);
   ("quick_check"%string, parse_optional_pragma_scalar_argument ;;! st_ret StPragmaQuickCheck);
   ("integrity_check"%string, parse_optional_pragma_scalar_argument ;;! st_ret StPragmaIntegrityCheck);
   ("function_list"%string, st_ret StPragmaFunctionList);
   ("compile_options"%string, st_ret StPragmaCompileOptions);
   ("pragma_list"%string, st_ret StPragmaPragmaList);
   ("module_list"%string, st_ret StPragmaModuleList);
   ("stats"%string, st_ret StPragmaStats);
   ("journal_mode"%string, set_or_get parse_pragma_journal_mode (fun mode => StSetPragmaJournalMode mode schema)
      (StPragmaJournalMode schema));
   ("synchronous"%string, set_or_get parse_pragma_synchronous (fun value => StSetPragmaSynchronous value schema)
      (StPragmaSynchronous schema));
   ("cache_size"%string, set_or_get parse_pragma_cache_size (fun value => StSetPragmaCacheSize value schema)
      (StPragmaCacheSize schema));
   ("cache_spill"%string, set_or_get parse_pragma_cache_spill StSetPragmaCacheSpill StPragmaCacheSpill);
   ("temp_store"%string, set_or_get parse_pragma_temp_store StSetPragmaTempStore StPragmaTempStore);
   ("locking_mode"%string, set_or_get parse_pragma_name_argument (fun mode =>
      StSetPragmaLockingMode mode schema) (StPragmaLockingMode schema));
   ("secure_delete"%string, set_or_get parse_pragma_secure_delete (fun value =>
      StSetPragmaSecureDelete value schema) (StPragmaSecureDelete schema));
   ("wal_autocheckpoint"%string, set_or_get parse_pragma_wal_autocheckpoint StSetPragmaWalAutocheckpoint
      StPragmaWalAutocheckpoint);
   ("wal_checkpoint"%string, parse_optional_pragma_scalar_argument ;;! st_ret StPragmaWalCheckpoint);
   ("mmap_size"%string, set_or_get (parse_signed_pragma_integer "mmap_size") StSetPragmaMmapSize StPragmaMmapSize);
   ("auto_vacuum"%string, set_or_get parse_pragma_auto_vacuum StSetPragmaAutoVacuum StPragmaAutoVacuum);
   ("busy_timeout"%string, set_or_get parse_pragma_busy_timeout StSetPragmaBusyTimeout StPragmaBusyTimeout);
   ("analysis_limit"%string, set_or_get (parse_lenient_unsigned_pragma_integer "analysis_limit")
      StSetPragmaAnalysisLimit StPragmaAnalysisLimit);
   ("journal_size_limit"%string, set_or_get (parse_signed_pragma_integer "journal_size_limit")
      StSetPragmaJournalSizeLimit StPragmaJournalSizeLimit);
   ("soft_heap_limit"%string, set_or_get (parse_signed_pragma_integer "soft_heap_limit") StSetPragmaSoftHeapLimit
      StPragmaSoftHeapLimit);
   ("hard_heap_limit"%string, set_or_get (parse_signed_pragma_integer "hard_heap_limit") StSetPragmaHardHeapLimit
      StPragmaHardHeapLimit);
   ("threads"%string, set_or_get (parse_lenient_unsigned_pragma_integer "threads") StSetPragmaThreads StPragmaThreads);
   ("automatic_index"%string, set_or_get (parse_pragma_boolean "automatic_index") StSetPragmaAutomaticIndex
      StPragmaAutomaticIndex);
   ("cell_size_check"%string, set_or_get (parse_pragma_boolean "cell_size_check") StSetPragmaCellSizeCheck
      StPragmaCellSizeCheck);
   ("full_column_names"%string, set_or_get (parse_pragma_boolean "full_column_names") StSetPragmaFullColumnNames
      StPragmaFullColumnNames);
   ("short_column_names"%string, set_or_get (parse_pragma_boolean "short_column_names")
      StSetPragmaShortColumnNames StPragmaShortColumnNames);
   ("fullfsync"%string, set_or_get (parse_pragma_boolean "fullfsync") StSetPragmaFullFsync StPragmaFullFsync);
   ("checkpoint_fullfsync"%string, set_or_get (parse_pragma_boolean "checkpoint_fullfsync")
      StSetPragmaCheckpointFullFsync StPragmaCheckpointFullFsync);
   ("empty_result_callbacks"%string, set_or_get (parse_pragma_boolean "empty_result_callbacks")
      StSetPragmaEmptyResultCallbacks StPragmaEmptyResultCallbacks);
   ("case_sensitive_like"%string, set_or_get (parse_pragma_boolean "case_sensitive_like")
      StSetPragmaCaseSensitiveLike StPragmaCaseSensitiveLike);
   ("reverse_unordered_selects"%string, set_or_get (parse_pragma_boolean "reverse_unordered_selects")
      StSetPragmaReverseUnorderedSelects StPragmaReverseUnorderedSelects);
   ("optimize"%string, parse_pragma_optimize);
   ("shrink_memory"%string, parse_optional_pragma_scalar_argument ;;! st_ret StPragmaShrinkMemory);
   ("incremental_vacuum"%string, parse_optional_pragma_scalar_argument ;;! st_ret StPragmaIncrementalVacuum);
   ("table_list"%string, let! table := pragma_assignment parse_pragma_name_argument in st_ret
      (StPragmaTableList table schema));
   ("foreign_key_check"%string, let! table := pragma_assignment parse_pragma_name_argument in st_ret
      (StPragmaForeignKeyCheck table schema))
  ].

(** And those of a table or an index. *)
Definition table_pragmas (table : string) (schema : option string) : list (string * Statement) :=
  [("table_info"%string, StPragmaTableInfo table schema); ("table_xinfo"%string, StPragmaTableXInfo table schema);
   ("index_list"%string, StPragmaIndexList table schema); ("index_info"%string, StPragmaIndexInfo table schema);
   ("index_xinfo"%string, StPragmaIndexXInfo table schema); ("foreign_key_list"%string, StPragmaForeignKeyList table schema)].

Definition parse_pragma : ST Parser Statement :=
  expect_keyword TkPragma ;;!
  let! first := parse_simple_identifier in
  let! (name, schema) :=
    if! matches TkDot then
      if negb (str_eq_ignore_case first "main") && negb (str_eq_ignore_case first "temp") then
        st_err (Sql ("unknown database " ++ first)%string)
      else let! name := parse_simple_identifier in st_ret (name, Some first)
    else st_ret (first, None) in
  match word_value (pragmas schema) name with
  | Some parse => parse
  | None =>
      let! table := parse_pragma_name_argument_in_parens_or_equals in
      match word_value (table_pragmas table schema) name with
      | Some statement => st_ret statement
      | None => st_err (Sql ("unsupported PRAGMA: " ++ name)%string)
      end
  end.

(** ** Statements *)

Definition parse_explain : ST Parser Statement :=
  expect_keyword TkExplain ;;!
  expect_keyword TkQuery ;;!
  expect_keyword TkPlan ;;!
  if! peek_is TkSelect then let! select := parse_select_statement self in st_ret (StExplainQueryPlan (StSelect select))
  else error_found "SELECT after EXPLAIN QUERY PLAN".

Definition parse_optional_maintenance_target : ST Parser unit :=
  let! token := peek_kind in
  if is_identifier_token token then
    let! _ := parse_simple_identifier in
    if! matches TkDot then let! _ := parse_simple_identifier in st_ret tt else st_ret tt
  else st_ret tt.

Definition parse_statement : ST Parser Statement :=
  let! token := peek_kind in
  match token with
  | TkCreate => parse_create
  | TkAlter => parse_alter
  | TkReplace => parse_replace
  | TkDrop => parse_drop
  | TkInsert => parse_insert
  | TkWith => parse_with_statement
  | TkSelect => let! select := parse_select_statement self in st_ret (StSelect select)
  | TkValues => parse_values_statement
  | TkExplain => parse_explain
  | TkPragma => parse_pragma
  | TkAnalyze => advance ;;! parse_optional_maintenance_target ;;! st_ret StAnalyze
  | TkReindex => advance ;;! parse_optional_maintenance_target ;;! st_ret StReindex
  | TkVacuum => advance ;;! parse_optional_maintenance_target ;;! st_ret StVacuum
  | TkDelete => parse_delete
  | TkUpdate => parse_update
  | TkBegin | TkStart => parse_begin_or_start_transaction
  | TkCommit | TkEnd => advance ;;! let! _ := matches TkTransaction in st_ret StCommit
  | TkRollback => parse_rollback_statement
  | TkSavepoint => parse_savepoint_statement
  | TkRelease => parse_release_statement
  | TkEof => st_err (Sql "empty SQL input")
  | _ => error_found "statement"
  end.

(** [while parser.matches(&TokenKind::Semicolon) {}] *)
Definition skip_semicolons : ST Parser unit :=
  p_loop (fun _ => if! matches TkSemicolon then st_ret (inl tt) else st_ret (inr tt)) tt.

Definition parse_statements : ST Parser (list Statement) :=
  let! token := peek_kind in
  match token with
  | TkEof => st_err (Sql "empty SQL input")
  | _ =>
      let! statements :=
        p_loop (fun statements =>
          let! statement := parse_statement in
          let statements := statements ++ [statement] in
          if! matches TkSemicolon then
            skip_semicolons ;;!
            if! peek_is TkEof then st_ret (inr statements) else st_ret (inl statements)
          else st_ret (inr statements)) [] in
      expect_eof ;;!
      st_ret statements
  end.
End Methods.

Definition parse_sql (input : string) : Result (list Statement) :=
  let? tokens := lex input in
  run_parser parse_statements tokens.
