(* ===== verification/Record.v ===== *)
(** * SQLite records: [src/storage/sqlite3/record.rs]

    The record codec, the index-record decoder of [src/storage/sqlite3/btree.rs]
    that reads the same format, and the round trip between them. *)

From S2P Require Import Prelude Text Varint Types.

(** ** Integers *)

Definition integer_len (serial : Z) : Z :=
  match serial with
  | 1 => 1
  | 2 => 2
  | 3 => 3
  | 4 => 4
  | 5 => 6
  | 6 => 8
  | _ => 0
  end.

(** [slice] has at most eight bytes at the call sites; the [8 - slice.len()] offset
    panics otherwise. *)
Definition decode_integer (slice : bytes) : Result Z :=
  let sign_byte :=
    match slice with
    | byte :: _ => if negb (Z.land byte 128 =? 0) then 255 else 0
    | [] => 0
    end in
  if Zlen slice <=? 8 then
    let? buf := copy_at (replicate 8 sign_byte) (8 - Zlen slice) slice in
    Ok (as_i64 (from_be buf))
  else Panic "attempt to subtract with overflow".

Definition integer_serial_type (value : Z) : Z :=
  if value =? 0 then 8
  else if value =? 1 then 9
  else if (-128 <=? value) && (value <=? 127) then 1
  else if (-32768 <=? value) && (value <=? 32767) then 2
  else if (-8388608 <=? value) && (value <=? 8388607) then 3
  else if (-2147483648 <=? value) && (value <=? 2147483647) then 4
  else if (-140737488355328 <=? value) && (value <=? 140737488355327) then 5
  else 6.

Definition append_integer_payload (payload : bytes) (value serial_type : Z) : Result bytes :=
  match serial_type with
  | 8 | 9 => Ok payload
  | 1 | 2 | 3 | 4 | 5 | 6 =>
      let buf := to_be 8 value in
      let len := integer_len serial_type in
      let? tail := slice_range buf (8 - len) 8 in
      Ok (payload ++ tail)
  | _ => Panic "invalid sqlite integer serial type"
  end.

(** ** [encode_record] *)

(** [2 * len + base], with the code's checks. *)
Definition length_serial (len base : Z) (what : string) : Result Z :=
  ok_or (match checked_mul len 2 with Some value => checked_add value base | None => None end)
    (Storage ("sqlite " ++ what ++ " serial type overflow")).

(** One iteration of the [for value in values] loop. *)
Definition encode_value (value : Value) (header payload : bytes) : Result (bytes * bytes) :=
  let? (serial_type, payload) :=
    match value with
    | Null => Ok (0, payload)
    | Boolean false => Ok (8, payload)
    | Boolean true => Ok (9, payload)
    | Integer number =>
        let serial_type := integer_serial_type number in
        let? payload := append_integer_payload payload number serial_type in
        Ok (serial_type, payload)
    | Real number => Ok (7, payload ++ to_be 8 number)
    | Blob blob =>
        let? serial_type := length_serial (Zlen blob) 12 "blob" in
        Ok (serial_type, payload ++ blob)
    | Text text =>
        let? serial_type := length_serial (Zlen (string_bytes text)) 13 "text" in
        Ok (serial_type, payload ++ string_bytes text)
    end in
  Ok (header ++ encode_varint serial_type, payload).

Fixpoint encode_values (values : list Value) (header payload : bytes) : Result (bytes * bytes) :=
  match values with
  | [] => Ok (header, payload)
  | value :: values' =>
      let? (header, payload) := encode_value value header payload in
      encode_values values' header payload
  end.

(** The [loop] that finds the size of a header containing its own size. *)
Fixpoint header_size_loop (fuel : nat) (header_len header_size : Z) : Result Z :=
  match fuel with
  | O => OutOfFuel
  | S fuel' =>
      let size_varint_len := Zlen (encode_varint header_size) in
      let? total_size :=
        ok_or (checked_add header_len size_varint_len)
          (Storage "sqlite record header is too large") in
      if total_size =? header_size then Ok header_size
      else header_size_loop fuel' header_len total_size
  end.

Definition header_size_fuel : nat := 10.

Definition encode_record (values : list Value) : Result bytes :=
  let? (header, payload) := encode_values values [] [] in
  let? header_size := header_size_loop header_size_fuel (Zlen header) (Zlen header + 1) in
  Ok (encode_varint header_size ++ header ++ payload).

(** ** [decode_record] *)

(** The [while cursor < header_end] loop; every varint consumes at least a byte, so
    [fuel] is the header's length. *)
Fixpoint read_serials (fuel : nat) (buf : bytes) (cursor header_end : Z) : Result (list Z) :=
  if cursor <? header_end then
    match fuel with
    | O => OutOfFuel
    | S fuel' =>
        let? slice := slice_range buf cursor header_end in
        let? (serial, consumed) := decode_varint slice in
        let? serials := read_serials fuel' buf (cursor + consumed) header_end in
        Ok (serial :: serials)
    end
  else Ok [].

(** The serial types of a record and the offset of its payload. *)
Definition decode_record_header (buf : bytes) : Result (list Z * Z) :=
  let? (header_size, first_len) := decode_varint buf in
  let header_end := header_size in
  if (Zlen buf <? header_end) || (header_end <? first_len) then
    Err (Storage "invalid sqlite record header size")
  else
    let? serials := read_serials (Z.to_nat header_end) buf first_len header_end in
    Ok (serials, header_end).

(** [checked_add] then [bytes.get(payload_cursor..end)]: the field and its end. *)
Definition take_field (buf : bytes) (payload_cursor len : Z) (what : string) :
    Result (bytes * Z) :=
  let message := Storage ("invalid " ++ what ++ " record length") in
  let? end_ := ok_or (checked_add payload_cursor len) message in
  let? slice := ok_or (get_range buf payload_cursor end_) message in
  Ok (slice, end_).

(** The fields whose decoding does not depend on the reader: [None] for the serial
    types 0, 8 and 9, which [decode_record] and the index reader treat themselves. *)
Definition decode_field (buf : bytes) (payload_cursor serial : Z) (unsupported : string) :
    Result (Value * Z) :=
  if (1 <=? serial) && (serial <=? 6) then
    let len := integer_len serial in
    let? (slice, end_) := take_field buf payload_cursor len "sqlite integer" in
    let? number := decode_integer slice in
    Ok (Integer number, end_)
  else if serial =? 7 then
    let? (slice, end_) := take_field buf payload_cursor 8 "sqlite real" in
    Ok (Real (from_be slice), end_)
  else if (12 <=? serial) && (serial mod 2 =? 0) then
    let len := (serial - 12) / 2 in
    let? (slice, end_) := take_field buf payload_cursor len "sqlite blob" in
    Ok (Blob slice, end_)
  else if (13 <=? serial) && (serial mod 2 =? 1) then
    let len := (serial - 13) / 2 in
    let? (slice, end_) := take_field buf payload_cursor len "sqlite text" in
    if utf8_valid slice then Ok (Text (bytes_string slice), end_)
    else Err (Storage "invalid utf-8 in sqlite text record")
  else Err (Storage (unsupported ++ pretty serial)).

Definition decode_value (buf : bytes) (payload_cursor serial : Z) : Result (Value * Z) :=
  match serial with
  | 0 => Ok (Null, payload_cursor)
  | 8 => Ok (Boolean false, payload_cursor)
  | 9 => Ok (Boolean true, payload_cursor)
  | _ => decode_field buf payload_cursor serial "unsupported sqlite serial type "
  end.

(** The readers of indexes and tables yield integers for 8 and 9. *)
Definition plain_serial_value (unsupported : string) (buf : bytes) (payload_cursor serial : Z) : Result (Value * Z) :=
  match serial with
  | 0 => Ok (Null, payload_cursor)
  | 8 => Ok (Integer 0, payload_cursor)
  | 9 => Ok (Integer 1, payload_cursor)
  | _ => decode_field buf payload_cursor serial unsupported
  end.

Definition decode_index_serial_value : bytes -> Z -> Z -> Result (Value * Z) := plain_serial_value "unsupported sqlite index serial type ".
Definition decode_table_serial_value : bytes -> Z -> Z -> Result (Value * Z) := plain_serial_value "unsupported sqlite table serial type ".

(** The loop over the serial types, threading the payload cursor. *)
Fixpoint decode_values (step : Z -> Z -> Result (Value * Z)) (serials : list Z)
    (payload_cursor : Z) : Result (list Value * Z) :=
  match serials with
  | [] => Ok ([], payload_cursor)
  | serial :: serials' =>
      let? (v, payload_cursor) := step payload_cursor serial in
      let? (vs, payload_cursor) := decode_values step serials' payload_cursor in
      Ok (v :: vs, payload_cursor)
  end.

Definition decode_record (buf : bytes) : Result (list Value) :=
  let? (serials, header_end) := decode_record_header buf in
  let? (values, payload_cursor) := decode_values (decode_value buf) serials header_end in
  if negb (payload_cursor =? Zlen buf) then
    Err (Storage "invalid sqlite record: trailing bytes after payload")
  else Ok values.

Definition decode_index_record (buf : bytes) : Result (list Value) :=
  let? (serials, payload_cursor) := decode_record_header buf in
  let? (values, payload_cursor) :=
    decode_values (decode_index_serial_value buf) serials payload_cursor in
  if negb (payload_cursor =? Zlen buf) then
    Err (Storage "invalid sqlite index record: trailing bytes after payload")
  else Ok values.

(** The reader of table rows, of [src/storage/sqlite3/schema.rs]. *)
Definition decode_table_record (buf : bytes) : Result (list Value) :=
  let? (serials, payload_cursor) := decode_record_header buf in
  let? (values, payload_cursor) :=
    decode_values (decode_table_serial_value buf) serials payload_cursor in
  if negb (payload_cursor =? Zlen buf) then
    Err (Storage "invalid sqlite record: trailing bytes after payload")
  else Ok values.

Example encode_record_ex :
  encode_record [Null; Integer 300; Text "hi"; Integer 1]
  = Ok [5; 0; 2; 17; 9; 1; 44; 104; 105].
Proof. reflexivity. Qed.

Example decode_record_ex :
  decode_record [5; 0; 2; 17; 9; 1; 44; 104; 105]
  = Ok [Null; Integer 300; Text "hi"; Boolean true].
Proof. reflexivity. Qed.

(** ** Sign extension *)

Lemma from_le_app l1 l2 : from_le (l1 ++ l2) = from_le l1 + 256 ^ Zlen l1 * from_le l2.
Proof.
  unfold Zlen. induction l1 as [|b l1 IH]; simpl length.
  - simpl. destruct (from_le l2); done.
  - simpl from_le. rewrite IH, Nat2Z.inj_succ, Z.pow_succ_r by lia. lia.
Qed.

Lemma from_le_replicate_255 k : from_le (replicate k 255) = 256 ^ Z.of_nat k - 1.
Proof.
  induction k as [|k IH]; [done|]. simpl replicate. simpl from_le.
  rewrite IH, Nat2Z.inj_succ, Z.pow_succ_r by lia. lia.
Qed.

Lemma from_le_replicate_0 k : from_le (replicate k 0) = 0.
Proof. induction k as [|k IH]; [done|]. simpl. by rewrite IH. Qed.

Lemma rev_replicate (k : nat) (b : Z) : rev (replicate k b) = replicate k b.
Proof.
  induction k as [|k IH]; [done|]. rewrite replicate_S_end at 1.
  by rewrite rev_app_distr, IH.
Qed.

Lemma to_le_snoc m v : to_le (S m) v = to_le m v ++ [(v / 256 ^ Z.of_nat m) mod 256].
Proof.
  revert v. induction m as [|m IH]; intros v.
  - simpl. by rewrite Z.div_1_r.
  - change (to_le (S (S m)) v) with ((v mod 256) :: to_le (S m) (v / 256)).
    rewrite IH. simpl. do 3 f_equal.
    rewrite Z.div_div by lia. f_equal. by rewrite Nat2Z.inj_succ, Z.pow_succ_r by lia.
Qed.

Lemma take_to_le n m v : take n (to_le (n + m) v) = to_le n v.
Proof. revert v. induction n as [|n IH]; intros v; simpl; [done|]. by rewrite IH. Qed.

Lemma drop_to_be n v : (n <= 8)%nat -> drop (8 - n) (to_be 8 v) = to_be n v.
Proof.
  intros Hn. unfold to_be. rewrite skipn_rev, length_to_le.
  replace (8 - (8 - n))%nat with n by lia. replace 8%nat with (n + (8 - n))%nat at 1 by lia.
  by rewrite take_to_le.
Qed.

Lemma sign_byte_spec m v :
  - 128 * 256 ^ Z.of_nat m <= v < 128 * 256 ^ Z.of_nat m ->
  negb (Z.land (v / 256 ^ Z.of_nat m mod 256) 128 =? 0) = (v <? 0).
Proof.
  intros Hv. set (w := 256 ^ Z.of_nat m) in *. assert (0 < w) by (unfold w; lia).
  assert (-128 <= v / w < 128).
  { split; [apply Z.div_le_lower_bound; lia|apply Z.div_lt_upper_bound; lia]. }
  rewrite land_128 by (pose proof (Z.mod_pos_bound (v / w) 256); width).
  destruct (Z.ltb_spec v 0).
  - assert (v / w < 0) by (apply Z.div_lt_upper_bound; lia).
    replace (v / w mod 256 <? 128) with false by zlia. done.
  - assert (0 <= v / w) by (apply Z.div_pos; lia).
    replace (v / w mod 256 <? 128) with true by zlia. done.
Qed.

(** Decoding an [n]-byte big-endian field restores the signed value. *)
Lemma decode_integer_to_be n v :
  (1 <= n <= 8)%nat -> - 128 * 256 ^ (Z.of_nat n - 1) <= v < 128 * 256 ^ (Z.of_nat n - 1) ->
  decode_integer (to_be n v) = Ok v.
Proof.
  intros Hn Hv. destruct n as [|m]; [lia|]. replace (Z.of_nat (S m) - 1) with (Z.of_nat m) in Hv by lia.
  assert (Hbe : to_be (S m) v = (v / 256 ^ Z.of_nat m) mod 256 :: to_be m v).
  { unfold to_be. by rewrite to_le_snoc, rev_app_distr. }
  unfold decode_integer. rewrite Hbe, (sign_byte_spec m v), <- Hbe by done.
  assert (Hlen : Zlen (to_be (S m) v) = Z.of_nat (S m)) by (unfold Zlen; by rewrite length_to_be).
  rewrite Hlen. destruct (Z.leb_spec (Z.of_nat (S m)) 8); [|lia].
  set (s := if v <? 0 then 255 else 0).
  assert (Hcopy : copy_at (replicate 8 s) (8 - Z.of_nat (S m)) (to_be (S m) v)
    = Ok (replicate (8 - S m) s ++ to_be (S m) v)).
  { unfold copy_at. rewrite bool_decide_true by (rewrite Hlen; unfold Zlen; rewrite length_replicate; lia).
    rewrite take_replicate, length_to_be. f_equal. f_equal; [f_equal; lia|].
    rewrite drop_replicate. replace (8 - _)%nat with 0%nat by lia. apply app_nil_r. }
  rewrite Hcopy. cbn [bind]. f_equal.
  unfold from_be, to_be. rewrite rev_app_distr, rev_involutive, from_le_app, from_le_to_le.
  unfold Zlen. rewrite length_to_le.
  rewrite rev_replicate. change (8 - S m)%nat with (7 - m)%nat in *.
  assert (Hp : 256 ^ Z.of_nat (S m) * 256 ^ Z.of_nat (7 - m) = 2 ^ 64).
  { rewrite <- Z.pow_add_r by lia. by replace (Z.of_nat (S m) + Z.of_nat (7 - m)) with 8 by lia. }
  assert (Hw : 256 ^ Z.of_nat (S m) = 256 * 256 ^ Z.of_nat m)
    by (rewrite Nat2Z.inj_succ, Z.pow_succ_r; lia).
  assert (Hle : 256 ^ Z.of_nat (S m) <= 2 ^ 64) by (change (2^64) with (256^8); apply Z.pow_le_mono_r; lia).
  unfold s, as_i64, i64_max. destruct (Z.ltb_spec v 0).
  - rewrite from_le_replicate_255, Z.mul_sub_distr_l, Hp.
    assert (v mod 256 ^ Z.of_nat (S m) = v + 256 ^ Z.of_nat (S m)) as ->.
    { symmetry. apply Z.mod_unique with (-1); lia. }
    destruct (Z.leb_spec (v + 256 ^ Z.of_nat (S m) + (2 ^ 64 - 256 ^ Z.of_nat (S m) * 1)) 9223372036854775807); lia.
  - rewrite from_le_replicate_0, Z.mod_small by lia.
    destruct (Z.leb_spec (v + 256 ^ Z.of_nat (S m) * 0) 9223372036854775807); lia.
Qed.

(** ** The header size *)

Lemma encode_varint_Zlen v :
  is_u64 v ->
  Zlen (encode_varint v) = if v <? 72057594037927936 then Z.log2 v / 7 + 1 else 9.
Proof.
  intros Hv. rewrite encode_varint_spec by done. unfold encode_spec, Zlen.
  destruct (Z.ltb_spec v 72057594037927936); rewrite length_app, length_digits_hi; [|done].
  unfold digit_count. pose proof (Z.log2_nonneg v). simpl length.
  rewrite Nat2Z.inj_add, Z2Nat.id by (apply Z.div_pos; lia). lia.
Qed.

Lemma encode_varint_Zlen_mono a b :
  is_u64 a -> is_u64 b -> a <= b -> Zlen (encode_varint a) <= Zlen (encode_varint b).
Proof.
  intros Ha Hb Hab. rewrite !encode_varint_Zlen by done.
  pose proof (Z.log2_le_mono a b Hab).
  destruct (Z.ltb_spec a 72057594037927936), (Z.ltb_spec b 72057594037927936); try lia.
  - assert (Z.log2 a / 7 <= Z.log2 b / 7) by (apply Z.div_le_mono; lia). lia.
  - assert (Z.log2 a < 56); [|zlia]. destruct (decide (a <= 0)).
    + rewrite Z.log2_nonpos by done. lia.
    + apply Z.log2_lt_pow2; lia.
Qed.

(** The loop reaches its fixed point: after [k] rounds the candidate is at most
    [header_len + k], and it can only grow up to [header_len + 9]. *)
Lemma header_size_loop_ok fuel h k :
  0 <= h <= 2 ^ 62 -> 1 <= k <= 9 -> k <= Zlen (encode_varint (h + k)) ->
  (10 - Z.to_nat k <= fuel)%nat ->
  exists n, header_size_loop fuel h (h + k) = Ok (h + n) /\ 1 <= n <= 9 /\
    Zlen (encode_varint (h + n)) = n.
Proof.
  revert k. induction fuel as [|fuel IH]; intros k Hh Hk Hlen Hfuel; [lia|].
  simpl. destruct (encode_varint_shape (h + k)) as [_ Hb]; [width|].
  unfold checked_add. destruct (Z.leb_spec (h + Zlen (encode_varint (h + k))) u64_max); [|width].
  simpl. destruct (Z.eqb_spec (h + Zlen (encode_varint (h + k))) (h + k)).
  - exists k. split; [done|]. split; [done|]. lia.
  - apply IH; [done|lia| |lia]. apply encode_varint_Zlen_mono; width.
Qed.

(** ** The specification of the encoder *)

(** The serial type and the payload bytes of a value. *)
Definition serial_of (v : Value) : Z :=
  match v with
  | Null => 0
  | Boolean b => if b then 9 else 8
  | Integer i => integer_serial_type i
  | Real _ => 7
  | Blob b => 2 * Zlen b + 12
  | Text t => 2 * Zlen (string_bytes t) + 13
  end.

Definition body_of (v : Value) : bytes :=
  match v with
  | Integer i => to_be (Z.to_nat (integer_len (integer_serial_type i))) i
  | Real r => to_be 8 r
  | Blob b => b
  | Text t => string_bytes t
  | _ => []
  end.

Definition header_of (vs : list Value) : bytes := flat_map (fun v => encode_varint (serial_of v)) vs.
Definition payload_of (vs : list Value) : bytes := flat_map body_of vs.

(** Values a [Vec<Value>] can hold: well formed, texts valid UTF-8, lengths below the
    allocation limit [isize::MAX]. *)
Definition encodable (v : Value) : Prop :=
  value_wf v /\
  match v with
  | Text t => utf8_valid (string_bytes t) = true /\ Zlen (string_bytes t) < 2 ^ 62
  | Blob b => Zlen b < 2 ^ 62
  | _ => True
  end.

Definition record_fits (vs : list Value) : Prop :=
  Forall encodable vs /\ Zlen (header_of vs) + Zlen (payload_of vs) <= 2 ^ 62.

Lemma integer_serial_cases i :
  is_i64 i ->
  (i = 0 /\ integer_serial_type i = 8) \/ (i = 1 /\ integer_serial_type i = 9) \/
  exists n, (1 <= n <= 8)%nat /\ 1 <= integer_serial_type i <= 6 /\
    integer_len (integer_serial_type i) = Z.of_nat n /\
    - 128 * 256 ^ (Z.of_nat n - 1) <= i < 128 * 256 ^ (Z.of_nat n - 1).
Proof.
  intros Hi. unfold integer_serial_type.
  destruct (Z.eqb_spec i 0); [tauto|]. destruct (Z.eqb_spec i 1); [tauto|]. right. right.
  destruct ((-128 <=? i) && (i <=? 127)) eqn:E1;
    [exists 1%nat; simpl; lia|].
  destruct ((-32768 <=? i) && (i <=? 32767)) eqn:E2; [exists 2%nat; simpl; lia|].
  destruct ((-8388608 <=? i) && (i <=? 8388607)) eqn:E3; [exists 3%nat; simpl; lia|].
  destruct ((-2147483648 <=? i) && (i <=? 2147483647)) eqn:E4; [exists 4%nat; simpl; lia|].
  destruct ((-140737488355328 <=? i) && (i <=? 140737488355327)) eqn:E5; [exists 6%nat; simpl; lia|].
  exists 8%nat; simpl; width.
Qed.

(** ** Encoding follows the specification *)

Lemma length_serial_ok len base what :
  0 <= len < 2 ^ 62 -> 0 <= base <= 13 -> length_serial len base what = Ok (2 * len + base).
Proof.
  intros Hl Hb. unfold length_serial, checked_mul, checked_add.
  destruct (Z.leb_spec (len * 2) u64_max); [|width].
  destruct (Z.leb_spec (len * 2 + base) u64_max); [|width]. simpl. f_equal. lia.
Qed.

Lemma append_integer_payload_ok payload i :
  is_i64 i ->
  append_integer_payload payload i (integer_serial_type i) = Ok (payload ++ body_of (Integer i)).
Proof.
  intros Hi. destruct (integer_serial_cases i Hi) as [(-> & E)|[(-> & E)|(n & Hn & Hs & Hl & _)]].
  - simpl. by rewrite app_nil_r.
  - simpl. by rewrite app_nil_r.
  - unfold append_integer_payload. simpl body_of. rewrite Hl, Nat2Z.id.
    assert (Hslice : slice_range (to_be 8 i) (8 - Z.of_nat n) 8 = Ok (to_be n i)).
    { apply slice_range_Ok, get_range_Some. unfold Zlen. rewrite length_to_be.
      split_and!; [lia..|]. replace (Z.to_nat (8 - Z.of_nat n)) with (8 - n)%nat by lia.
      rewrite drop_to_be by lia. rewrite take_ge; [done|]. rewrite length_to_be. lia. }
    rewrite Hslice. simpl.
    assert (Hc : integer_serial_type i = 1 \/ integer_serial_type i = 2 \/
      integer_serial_type i = 3 \/ integer_serial_type i = 4 \/ integer_serial_type i = 5 \/
      integer_serial_type i = 6) by lia.
    destruct Hc as [E|[E|[E|[E|[E|E]]]]]; by rewrite E.
Qed.

Lemma encode_value_ok v header payload :
  encodable v ->
  encode_value v header payload =
    Ok (header ++ encode_varint (serial_of v), payload ++ body_of v).
Proof.
  intros [Hwf Hv]. unfold encode_value. destruct v as [|[]|i|r|b|t]; simpl serial_of;
    cbn [body_of]; rewrite ?app_nil_r; try done.
  - by rewrite append_integer_payload_ok.
  - pose proof (Zlen_nonneg b). by rewrite length_serial_ok by lia.
  - destruct Hv as [_ Hv]. pose proof (Zlen_nonneg (string_bytes t)).
    by rewrite length_serial_ok by lia.
Qed.

Lemma encode_values_ok vs header payload :
  Forall encodable vs ->
  encode_values vs header payload = Ok (header ++ header_of vs, payload ++ payload_of vs).
Proof.
  intros H. revert header payload. induction H as [|v vs Hv Hvs IH]; intros header payload; simpl.
  - by rewrite !app_nil_r.
  - rewrite encode_value_ok by done. simpl. rewrite IH. by rewrite <- !app_assoc.
Qed.

(** The encoder always succeeds, and its output is a header size that counts itself,
    the serial types and the payload. *)
Lemma encode_record_shape vs :
  record_fits vs ->
  exists n, encode_record vs =
      Ok (encode_varint (Zlen (header_of vs) + n) ++ header_of vs ++ payload_of vs) /\
    1 <= n <= 9 /\ Zlen (encode_varint (Zlen (header_of vs) + n)) = n.
Proof.
  intros [Hvs Hfit]. unfold encode_record. rewrite encode_values_ok by done. cbn [bind].
  change ([] ++ header_of vs) with (header_of vs).
  change ([] ++ payload_of vs) with (payload_of vs).
  pose proof (Zlen_nonneg (header_of vs)). pose proof (Zlen_nonneg (payload_of vs)).
  destruct (header_size_loop_ok header_size_fuel (Zlen (header_of vs)) 1) as (n & Hn & Hr & Hl).
  - lia.
  - lia.
  - destruct (encode_varint_shape (Zlen (header_of vs) + 1)); [width|lia].
  - unfold header_size_fuel. lia.
  - exists n. by rewrite Hn.
Qed.

(** ** Decoding *)

Lemma serial_of_u64 v : encodable v -> is_u64 (serial_of v).
Proof.
  intros [Hwf Hv]. destruct v as [|[]|i|r|b|t]; simpl in *.
  - width.
  - width.
  - width.
  - destruct (integer_serial_cases i Hwf) as [(->&->)|[(->&->)|(n&_&Hs&_)]]; width.
  - width.
  - pose proof (Zlen_nonneg b). width.
  - pose proof (Zlen_nonneg (string_bytes t)). width.
Qed.

Lemma read_serials_ok fuel pre vs post :
  Forall encodable vs -> (length (header_of vs) <= fuel)%nat ->
  read_serials fuel (pre ++ header_of vs ++ post) (Zlen pre) (Zlen pre + Zlen (header_of vs))
  = Ok (map serial_of vs).
Proof.
  intros Hvs. revert fuel pre. induction Hvs as [|v vs Hv Hvs IH]; intros fuel pre Hfuel.
  - change (Zlen (header_of [])) with 0. rewrite Z.add_0_r.
    by destruct fuel; simpl; rewrite Z.ltb_irrefl.
  - pose proof (encode_varint_shape _ (serial_of_u64 v Hv)) as [_ Hl].
    change (header_of (v :: vs)) with (encode_varint (serial_of v) ++ header_of vs) in *.
    set (e := encode_varint (serial_of v)) in *.
    rewrite Zlen_app. pose proof (Zlen_nonneg (header_of vs)).
    rewrite length_app in Hfuel. destruct fuel as [|fuel]; [unfold Zlen in Hl; lia|].
    simpl. destruct (Z.ltb_spec (Zlen pre) (Zlen pre + (Zlen e + Zlen (header_of vs)))); [|lia].
    assert (Hs : slice_range (pre ++ (e ++ header_of vs) ++ post) (Zlen pre)
      (Zlen pre + (Zlen e + Zlen (header_of vs))) = Ok (e ++ header_of vs)).
    { apply slice_range_Ok, get_range_app_mid; [done|]. by rewrite Zlen_app. }
    rewrite Hs. simpl. unfold e at 1. rewrite decode_encode_varint by by apply serial_of_u64.
    fold e. cbn [bind]. specialize (IH fuel (pre ++ e)).
    rewrite Zlen_app in IH. rewrite <- !app_assoc in *.
    replace (Zlen pre + (Zlen e + Zlen (header_of vs))) with (Zlen pre + Zlen e + Zlen (header_of vs)) by lia.
    rewrite IH by (unfold Zlen in Hl; lia). done.
Qed.

Lemma decode_record_header_ok vs n :
  record_fits vs -> 1 <= n <= 9 -> Zlen (encode_varint (Zlen (header_of vs) + n)) = n ->
  decode_record_header
    (encode_varint (Zlen (header_of vs) + n) ++ header_of vs ++ payload_of vs)
  = Ok (map serial_of vs, Zlen (header_of vs) + n).
Proof.
  intros [Hvs Hfit] Hn Hl. pose proof (Zlen_nonneg (header_of vs)).
  pose proof (Zlen_nonneg (payload_of vs)).
  unfold decode_record_header. rewrite decode_encode_varint by width. cbn [bind].
  rewrite !Zlen_app, Hl.
  destruct (Z.ltb_spec (n + (Zlen (header_of vs) + Zlen (payload_of vs))) (Zlen (header_of vs) + n)); [lia|].
  destruct (Z.ltb_spec (Zlen (header_of vs) + n) n); [lia|]. simpl.
  set (e := encode_varint _) in *.
  replace (Zlen (header_of vs) + n) with (Zlen e + Zlen (header_of vs)) by lia.
  rewrite <- Hl. rewrite read_serials_ok; [done|done|]. unfold Zlen. lia.
Qed.

(** What the two readers make of a stored value: serial types 8 and 9 carry no type. *)
Definition record_image (v : Value) : Value :=
  match v with
  | Integer 0 => Boolean false
  | Integer 1 => Boolean true
  | _ => v
  end.

Definition index_image (v : Value) : Value :=
  match v with
  | Boolean b => Integer (if b then 1 else 0)
  | _ => v
  end.

Lemma take_field_ok pre body post what :
  Zlen pre + Zlen body <= u64_max ->
  take_field (pre ++ body ++ post) (Zlen pre) (Zlen body) what = Ok (body, Zlen pre + Zlen body).
Proof.
  intros Hl. unfold take_field, checked_add.
  destruct (Z.leb_spec (Zlen pre + Zlen body) u64_max); [|lia]. cbn [bind ok_or].
  by rewrite get_range_app_mid.
Qed.

Lemma Zlen_body_of v :
  encodable v ->
  Zlen (body_of v) =
    let s := serial_of v in
    if (1 <=? s) && (s <=? 6) then integer_len s
    else if s =? 7 then 8 else if 12 <=? s then (s - 12) / 2 else 0.
Proof.
  intros [Hwf Hv]. destruct v as [|[]|i|r|b|t]; try done.
  - simpl serial_of. unfold body_of, Zlen. rewrite length_to_be.
    destruct (integer_serial_cases i Hwf) as [(->&->)|[(->&->)|(n&_&Hs&Hn&_)]]; [done..|].
    rewrite Hn, Nat2Z.id. cbv zeta.
    by replace ((1 <=? integer_serial_type i) && (integer_serial_type i <=? 6)) with true by lia.
  - simpl serial_of. simpl body_of. pose proof (Zlen_nonneg b). cbv zeta.
    replace ((1 <=? 2 * Zlen b + 12) && (2 * Zlen b + 12 <=? 6)) with false by lia.
    replace (2 * Zlen b + 12 =? 7) with false by lia.
    replace (12 <=? 2 * Zlen b + 12) with true by lia. zlia.
  - simpl serial_of. simpl body_of. set (l := string_bytes t) in *.
    pose proof (Zlen_nonneg l). cbv zeta.
    replace ((1 <=? 2 * Zlen l + 13) && (2 * Zlen l + 13 <=? 6)) with false by lia.
    replace (2 * Zlen l + 13 =? 7) with false by lia.
    replace (12 <=? 2 * Zlen l + 13) with true by lia. zlia.
Qed.

(** A stored field decodes to its value, the three bare serial types apart. *)
Lemma decode_field_ok v pre post u :
  encodable v -> Zlen pre + Zlen (body_of v) <= u64_max ->
  serial_of v <> 0 -> serial_of v <> 8 -> serial_of v <> 9 ->
  decode_field (pre ++ body_of v ++ post) (Zlen pre) (serial_of v) u
  = Ok (v, Zlen pre + Zlen (body_of v)).
Proof.
  intros Henc Hl H0 H8 H9. pose proof (Zlen_body_of v Henc) as Hb. destruct Henc as [Hwf Hv].
  pose proof (take_field_ok pre (body_of v) post) as Htf.
  unfold decode_field. destruct v as [|[]|i|r|b|t]; try done.
  - destruct (integer_serial_cases i Hwf) as [(->&E)|[(->&E)|(n&Hn&Hs&Hlen&Hr)]]; [done..|].
    cbn [serial_of] in *.
    replace ((1 <=? integer_serial_type i) && (integer_serial_type i <=? 6)) with true in * by lia.
    cbv zeta in Hb. rewrite <- Hb, Htf by done. cbn [bind body_of].
    rewrite Hlen, Nat2Z.id. by rewrite decode_integer_to_be.
  - cbn [serial_of] in *. simpl in Hb. simpl andb. cbn iota.
    change 8 with (Zlen (body_of (Real r))) at 1. rewrite Htf by done. cbn [bind body_of].
    by rewrite from_be_to_be_small by (unfold value_wf in Hwf; width).
  - cbn [serial_of body_of] in *. pose proof (Zlen_nonneg b).
    replace ((1 <=? 2 * Zlen b + 12) && (2 * Zlen b + 12 <=? 6)) with false by lia.
    replace (2 * Zlen b + 12 =? 7) with false by lia.
    replace ((12 <=? 2 * Zlen b + 12) && ((2 * Zlen b + 12) mod 2 =? 0)) with true by zlia.
    replace ((2 * Zlen b + 12 - 12) / 2) with (Zlen b) by zlia. by rewrite Htf.
  - cbn [serial_of body_of] in *. destruct Hv as [Hutf _].
    set (l := string_bytes t) in *. pose proof (Zlen_nonneg l).
    replace ((1 <=? 2 * Zlen l + 13) && (2 * Zlen l + 13 <=? 6)) with false by lia.
    replace (2 * Zlen l + 13 =? 7) with false by lia.
    replace ((12 <=? 2 * Zlen l + 13) && ((2 * Zlen l + 13) mod 2 =? 0)) with false by zlia.
    replace ((13 <=? 2 * Zlen l + 13) && ((2 * Zlen l + 13) mod 2 =? 1)) with true by zlia.
    replace ((2 * Zlen l + 13 - 13) / 2) with (Zlen l) by zlia. rewrite Htf by done.
    cbn [bind]. rewrite Hutf. unfold l. by rewrite bytes_string_bytes.
Qed.

(** A reader that treats the bare serial types by [bare] and the rest by
    [decode_field] recovers the values through [image]. *)
Lemma decode_values_ok (step : bytes -> Z -> Z -> Result (Value * Z)) (image : Value -> Value) :
  (forall v pre post, encodable v -> Zlen pre + Zlen (body_of v) <= u64_max ->
     step (pre ++ body_of v ++ post) (Zlen pre) (serial_of v)
     = Ok (image v, Zlen pre + Zlen (body_of v))) ->
  forall vs pre, Forall encodable vs -> Zlen pre + Zlen (payload_of vs) <= u64_max ->
  decode_values (step (pre ++ payload_of vs)) (map serial_of vs) (Zlen pre)
  = Ok (map image vs, Zlen pre + Zlen (payload_of vs)).
Proof.
  intros Hstep vs. induction vs as [|v vs IH]; intros pre Hvs Hl.
  - cbn [map decode_values]. change (Zlen (payload_of [])) with 0. by rewrite Z.add_0_r.
  - apply Forall_cons in Hvs as [Hv Hvs].
    change (payload_of (v :: vs)) with (body_of v ++ payload_of vs) in *.
    rewrite Zlen_app in *. pose proof (Zlen_nonneg (payload_of vs)).
    cbn [map decode_values]. rewrite Hstep by (done || lia). cbn [bind].
    specialize (IH (pre ++ body_of v) Hvs). rewrite Zlen_app, <- app_assoc in IH.
    rewrite IH by lia. cbn [bind]. do 2 f_equal. lia.
Qed.

(** The two readers differ only on the bare serial types. *)
Lemma bare_dispatch {A} (s : Z) (a b c d : A) :
  s <> 0 -> s <> 8 -> s <> 9 ->
  match s with 0 => a | 8 => b | 9 => c | _ => d end = d.
Proof.
  intros H0 H8 H9. destruct s as [|p|p]; [done| |done].
  do 4 (destruct p as [p|p|]; try done).
Qed.

Lemma serial_of_bare v :
  encodable v ->
  (v = Null \/ v = Boolean false \/ v = Boolean true \/ v = Integer 0 \/ v = Integer 1) \/
  (serial_of v <> 0 /\ serial_of v <> 8 /\ serial_of v <> 9 /\
   record_image v = v /\ index_image v = v).
Proof.
  intros [Hwf Hv]. destruct v as [|[]|i|r|b|t]; simpl; try tauto.
  - destruct (integer_serial_cases i Hwf) as [(->&_)|[(->&_)|(n&_&Hr&_)]]; [tauto..|].
    destruct (decide (i = 0)) as [->|]; [tauto|]. destruct (decide (i = 1)) as [->|]; [tauto|].
    right. split_and!; [lia..| |done]. by destruct i as [|[]|].
  - right. split_and!; done.
  - right. pose proof (Zlen_nonneg b). split_and!; done || lia.
  - right. pose proof (Zlen_nonneg (string_bytes t)). split_and!; done || lia.
Qed.

Lemma decode_value_ok v pre post :
  encodable v -> Zlen pre + Zlen (body_of v) <= u64_max ->
  decode_value (pre ++ body_of v ++ post) (Zlen pre) (serial_of v)
  = Ok (record_image v, Zlen pre + Zlen (body_of v)).
Proof.
  intros Hv Hl. destruct (serial_of_bare v Hv) as [Hb|(H0&H8&H9&->&_)].
  - destruct Hb as [-> | [-> | [-> | [-> | ->]]]]; by (simpl; rewrite Z.add_0_r).
  - unfold decode_value. rewrite bare_dispatch by done. by apply decode_field_ok.
Qed.

Lemma plain_serial_value_ok u v pre post :
  encodable v -> Zlen pre + Zlen (body_of v) <= u64_max ->
  plain_serial_value u (pre ++ body_of v ++ post) (Zlen pre) (serial_of v)
  = Ok (index_image v, Zlen pre + Zlen (body_of v)).
Proof.
  intros Hv Hl. destruct (serial_of_bare v Hv) as [Hb|(H0&H8&H9&_&->)].
  - destruct Hb as [-> | [-> | [-> | [-> | ->]]]]; by (simpl; rewrite Z.add_0_r).
  - unfold plain_serial_value. rewrite bare_dispatch by done. by apply decode_field_ok.
Qed.

(** Both readers on an encoded record. *)
Lemma decode_payload_ok step image vs n :
  (forall v pre post, encodable v -> Zlen pre + Zlen (body_of v) <= u64_max ->
     step (pre ++ body_of v ++ post) (Zlen pre) (serial_of v)
     = Ok (image v, Zlen pre + Zlen (body_of v))) ->
  record_fits vs -> 1 <= n <= 9 -> Zlen (encode_varint (Zlen (header_of vs) + n)) = n ->
  let buf := encode_varint (Zlen (header_of vs) + n) ++ header_of vs ++ payload_of vs in
  decode_values (step buf) (map serial_of vs) (Zlen (header_of vs) + n)
  = Ok (map image vs, Zlen buf).
Proof.
  intros Hstep [Hvs Hfit] Hn Hl. set (e := encode_varint (Zlen (header_of vs) + n)) in *.
  cbv zeta. pose proof (Zlen_nonneg (header_of vs)). rewrite app_assoc.
  replace (Zlen (header_of vs) + n) with (Zlen (e ++ header_of vs)) by (rewrite Zlen_app; lia).
  rewrite (decode_values_ok step image); [|done|done|rewrite Zlen_app; width].
  by rewrite (Zlen_app (e ++ header_of vs)).
Qed.

(** ** Safety on arbitrary input *)

Lemma read_serials_returns fuel buf cursor header_end :
  is_bytes buf -> 0 <= cursor <= header_end -> header_end <= Zlen buf ->
  header_end - cursor <= Z.of_nat fuel ->
  returns (read_serials fuel buf cursor header_end).
Proof.
  intros Hb. revert cursor. induction fuel as [|fuel IH]; intros cursor Hc He Hf; simpl;
    destruct (Z.ltb_spec cursor header_end); try done; [lia|].
  destruct (slice_range buf cursor header_end) as [slice| | |] eqn:Hs.
  2-4: unfold slice_range, get_range in Hs; rewrite bool_decide_true in Hs by lia; done.
  apply slice_range_Ok in Hs. cbn [bind].
  apply returns_bind; [apply decode_varint_returns|]. intros [serial consumed] Hd.
  apply decode_varint_Ok in Hd as (_ & Hn & Hle & _); [|by eapply get_range_is_bytes].
  apply get_range_Zlen in Hs. apply returns_bind; [apply IH; lia|]. done.
Qed.

Lemma decode_record_header_returns buf : is_bytes buf -> returns (decode_record_header buf).
Proof.
  intros Hb. unfold decode_record_header.
  apply returns_bind; [apply decode_varint_returns|]. intros [hs fl] Hd.
  apply decode_varint_Ok in Hd as (_ & Hn & Hle & _); [|done].
  destruct (Z.ltb_spec (Zlen buf) hs), (Z.ltb_spec hs fl); cbn; try done.
  apply returns_bind; [apply read_serials_returns; lia || done|]. done.
Qed.

Lemma integer_len_bound serial : 0 <= integer_len serial <= 8.
Proof. unfold integer_len. destruct serial as [|p|p]; try lia. do 3 (destruct p; try lia). Qed.

Lemma decode_integer_returns slice : Zlen slice <= 8 -> returns (decode_integer slice).
Proof.
  intros Hl. pose proof (Zlen_nonneg slice). unfold decode_integer.
  destruct (Z.leb_spec (Zlen slice) 8); [|lia]. unfold copy_at.
  rewrite bool_decide_true; [done|]. unfold Zlen in *. rewrite length_replicate. lia.
Qed.

Lemma take_field_inv buf cursor len what slice e :
  take_field buf cursor len what = Ok (slice, e) -> Zlen slice = len.
Proof. unfold take_field. intros H. inv_res. apply get_range_Zlen in E0. unfold checked_add in *. case_match; simplify_eq. lia. Qed.

Lemma take_field_returns buf cursor len what : returns (take_field buf cursor len what).
Proof.
  unfold take_field. apply returns_bind; [apply returns_ok_or|]. intros e _.
  apply returns_bind; [apply returns_ok_or|]. done.
Qed.

Lemma decode_field_returns buf cursor serial u : returns (decode_field buf cursor serial u).
Proof.
  unfold decode_field. repeat case_match; try done.
  all: apply returns_bind; [apply take_field_returns|]; intros [slice e] Ht; try done.
  - apply take_field_inv in Ht. pose proof (integer_len_bound serial).
    apply returns_bind; [|done]. apply decode_integer_returns. lia.
  - by case_match.
Qed.

Lemma decode_values_returns step serials cursor :
  (forall c s, returns (step c s)) -> returns (decode_values step serials cursor).
Proof.
  intros Hs. revert cursor. induction serials as [|s l IH]; intros c; simpl; [done|].
  apply returns_bind; [apply Hs|]. intros [v c'] _.
  apply returns_bind; [apply IH|]. by intros [].
Qed.

Lemma decode_value_returns buf c s : returns (decode_value buf c s).
Proof. unfold decode_value. repeat case_match; try done; apply decode_field_returns. Qed.

Lemma plain_serial_value_returns u buf c s : returns (plain_serial_value u buf c s).
Proof. unfold plain_serial_value. repeat case_match; try done; apply decode_field_returns. Qed.

(** ** Properties *)

(** Record round trip. A row of values encodes to a byte string that
    [decode_record] reads back whole, with nothing left over; the only change is
    that the integers 0 and 1, stored as the bare serial types 8 and 9, come back
    as booleans. *)
Theorem record_roundtrip (vs : list Value) :
  record_fits vs ->
  exists buf, encode_record vs = Ok buf /\ decode_record buf = Ok (map record_image vs).
Proof.
  intros Hfits. destruct (encode_record_shape vs Hfits) as (n & Henc & Hn & Hl).
  eexists. split; [exact Henc|]. unfold decode_record.
  rewrite decode_record_header_ok by done. cbn [bind].
  rewrite (decode_payload_ok decode_value record_image) by (auto using decode_value_ok).
  cbn [bind]. by rewrite Z.eqb_refl.
Qed.

Lemma record_roundtrip_witness :
  exists buf, encode_record [Integer (-70000); Text "caf"; Integer 1; Null; Blob [0; 255]] = Ok buf /\
    decode_record buf = Ok [Integer (-70000); Text "caf"; Boolean true; Null; Blob [0; 255]].
Proof.
  apply (record_roundtrip [Integer (-70000); Text "caf"; Integer 1; Null; Blob [0; 255]]).
  split; [|by vm_compute].
  repeat constructor; unfold i64_min, i64_max, u8_max; simpl; lia.
Defined.

Lemma decode_plain_ok u vs n :
  record_fits vs -> 1 <= n <= 9 -> Zlen (encode_varint (Zlen (header_of vs) + n)) = n ->
  let buf := encode_varint (Zlen (header_of vs) + n) ++ header_of vs ++ payload_of vs in
  decode_values (plain_serial_value u buf) (map serial_of vs) (Zlen (header_of vs) + n) = Ok (map index_image vs, Zlen buf).
Proof. intros. apply (decode_payload_ok (plain_serial_value u) index_image); auto using plain_serial_value_ok. Qed.

(** What the readers of [btree.rs] make of a record. *)
Lemma decode_encoded_record vs buf : record_fits vs -> encode_record vs = Ok buf ->
  decode_index_record buf = Ok (map index_image vs) /\ decode_table_record buf = Ok (map index_image vs).
Proof.
  intros Hfits Henc. destruct (encode_record_shape vs Hfits) as (n & Henc' & Hn & Hl). rewrite Henc in Henc'. injection Henc' as ->.
  unfold decode_index_record, decode_table_record, decode_index_serial_value, decode_table_serial_value.
  rewrite decode_record_header_ok by done. cbn [bind]. rewrite !decode_plain_ok by done. cbn [bind]. by rewrite Z.eqb_refl.
Qed.

(** The index reader of [btree.rs] reads the same records: every value comes back
    as written except booleans, which come back as the integers 0 and 1. In
    particular integers are never confused with booleans on this path. *)
Theorem index_record_roundtrip (vs : list Value) :
  record_fits vs ->
  exists buf, encode_record vs = Ok buf /\
    decode_index_record buf = Ok (map index_image vs) /\
    (Forall (fun v => forall b, v <> Boolean b) vs -> decode_index_record buf = Ok vs).
Proof.
  intros Hfits. destruct (encode_record_shape vs Hfits) as (n & Henc & _).
  eexists. split; [exact Henc|]. destruct (decode_encoded_record vs _ Hfits Henc) as [Hd _].
  split; [exact Hd|]. intros Hnb. rewrite Hd. f_equal.
  clear -Hnb. induction Hnb as [|v vs Hv Hvs IH]; [done|]. cbn [map]. rewrite IH. f_equal.
  destruct v; try done. by destruct (Hv b).
Qed.

Lemma index_record_roundtrip_witness :
  exists buf, encode_record [Text "k"; Integer 0; Boolean true] = Ok buf /\
    decode_index_record buf = Ok [Text "k"; Integer 0; Integer 1] /\
    (Forall (fun v => forall b, v <> Boolean b) [Text "k"; Integer 0; Boolean true] ->
     decode_index_record buf = Ok [Text "k"; Integer 0; Boolean true]).
Proof.
  apply (index_record_roundtrip [Text "k"; Integer 0; Boolean true]).
  split; [|by vm_compute].
  repeat constructor; unfold i64_min, i64_max; simpl; lia.
Defined.

(** Safety on corrupt input. On any byte string the record readers return a
    value or an error: no index, slice or subtraction in them panics, and the loop
    over the header terminates within the header's length. *)
Theorem decode_record_never_panics (buf : bytes) :
  is_bytes buf -> returns (decode_record buf) /\ returns (decode_index_record buf) /\ returns (decode_table_record buf).
Proof.
  intros Hb. unfold decode_record, decode_index_record, decode_table_record.
  split_and!; (apply returns_bind; [by apply decode_record_header_returns|]; intros [serials e] _;
    apply returns_bind; [apply decode_values_returns|intros [vs c] _; by case_match]).
  - apply decode_value_returns.
  - apply plain_serial_value_returns.
  - apply plain_serial_value_returns.
Qed.

Lemma decode_record_never_panics_witness :
  returns (decode_record [200; 1; 255; 255; 3]) /\
  returns (decode_index_record [200; 1; 255; 255; 3]) /\
  returns (decode_table_record [200; 1; 255; 255; 3]).
Proof. apply (decode_record_never_panics [200; 1; 255; 255; 3]). by_compute. Defined.
