(* ===== verification/SqliteFile.v ===== *)
(** * SQLite database files: [src/storage/sqlite3/file_header.rs], [page.rs], [pager.rs]

    The header of a database file, the headers of its B-tree pages, and the pager, which
    reads pages and overflow chains. A file is its bytes; the reader opens it anew for
    every page, so a [Pager] holds the bytes it would find. *)

From S2P Require Import Prelude Text.

(** [checked_sub] that panics, as [-] does, and the remainder, which panics at zero. *)
Definition usize_sub (a b : Z) : Result Z := if b <=? a then Ok (a - b) else Panic "attempt to subtract with overflow".
Definition usize_rem (a b : Z) : Result Z := if b =? 0 then Panic "attempt to calculate the remainder with a divisor of zero" else Ok (a mod b).

(** [Vec::with_capacity] panics when the bytes asked for exceed [isize::MAX]; whether less
    can be had is up to the machine. *)
Definition with_capacity (n : Z) : Result unit := if n <=? i64_max then Ok tt else Panic "capacity overflow".

(** ** [file_header.rs] *)

Record DatabaseHeader := mkDatabaseHeader {
  page_size : Z;
  reserved_bytes : Z;
  page_count_hint : Z;
  freelist_count : Z;
  header_schema_version : Z;
  schema_format : Z;
  text_encoding : Z;
  header_user_version : Z;
  header_application_id : Z
}.

Definition is_power_of_two (z : Z) : bool := (0 <? z) && (Z.land z (z - 1) =? 0).

Definition decode_page_size (raw_page_size : Z) : Result Z :=
  let page_size := if raw_page_size =? 1 then 65536 else raw_page_size in
  if is_power_of_two page_size && (512 <=? page_size) && (page_size <=? 65536) then Ok page_size
  else Err (Storage "invalid sqlite page size").

(** [b"SQLite format 3\0"] *)
Definition sqlite_magic : bytes := [83; 81; 76; 105; 116; 101; 32; 102; 111; 114; 109; 97; 116; 32; 51; 0].

(** The integer of [n] bytes at [a]. *)
Definition be_at (buf : bytes) (a n : nat) : Z := from_be (get_bytes buf a n).

(** [DatabaseHeader::decode] *)
Definition decode_header (buf : bytes) : Result DatabaseHeader :=
  if negb (Zlen buf =? 100) then Err (Storage "sqlite header must be exactly 100 bytes")
  else if negb (bool_decide (get_bytes buf 0 16 = sqlite_magic)) then Err (Storage "invalid sqlite database header")
  else
    let? page_size := decode_page_size (be_at buf 16 2) in
    Ok (mkDatabaseHeader page_size (be_at buf 20 1) (be_at buf 28 4) (be_at buf 36 4) (be_at buf 40 4) (be_at buf 44 4)
          (be_at buf 56 4) (be_at buf 60 4) (be_at buf 68 4)).

(** [DatabaseHeader::usable_size] *)
Definition header_usable_size (self : DatabaseHeader) : Result Z :=
  if page_size self <=? reserved_bytes self then Err (Storage "sqlite reserved byte count must be smaller than page size")
  else ok_or (checked_sub (page_size self) (reserved_bytes self)) (Storage "sqlite usable page size underflow").

(** ** [page.rs] *)

Inductive PageType := InteriorIndex | InteriorTable | LeafIndex | LeafTable.

#[export] Instance PageType_eq_dec : EqDecision PageType.
Proof. solve_decision. Defined.

Definition page_type_debug (t : PageType) : string :=
  match t with InteriorIndex => "InteriorIndex" | InteriorTable => "InteriorTable" | LeafIndex => "LeafIndex" | LeafTable => "LeafTable" end.

Record BtreePageHeader := mkBtreePageHeader {
  page_type : PageType;
  first_freeblock : Z;
  cell_count : Z;
  cell_content_area_start : Z;
  fragmented_free_bytes : Z;
  rightmost_pointer : option Z
}.

(** [{:#x}] of a byte. *)
Definition hex_digit (d : Z) : ascii := code_ascii (if d <? 10 then 48 + d else 87 + d).
Definition hex_byte (b : Z) : string :=
  let low := String (hex_digit (b mod 16)) "" in
  let digits := if b <? 16 then low else String (hex_digit (b / 16)) low in
  ("0x" ++ digits)%string.

Definition page_type_of (b : Z) : Result PageType :=
  match b with
  | 2 => Ok InteriorIndex
  | 5 => Ok InteriorTable
  | 10 => Ok LeafIndex
  | 13 => Ok LeafTable
  | other => Err (Storage ("unknown sqlite btree page type " ++ hex_byte other)%string)
  end.

Definition is_interior (t : PageType) : bool := match t with InteriorIndex | InteriorTable => true | _ => false end.

(** [BtreePageHeader::decode] *)
Definition decode_page_header (page : bytes) (first_page : bool) : Result BtreePageHeader :=
  let offset := if first_page then 100%nat else O in
  if (length page <? offset + 8)%nat then Err (Storage "sqlite btree page is too short")
  else
    let? page_type := page_type_of (be_at page offset 1) in
    let raw_cell_content_area_start := be_at page (offset + 5) 2 in
    let? rightmost_pointer :=
      (if is_interior page_type then
         if (length page <? offset + 12)%nat then Err (Storage "sqlite interior btree page is too short")
         else Ok (Some (be_at page (offset + 8) 4))
       else Ok None) in
    Ok (mkBtreePageHeader page_type (be_at page (offset + 1) 2) (be_at page (offset + 3) 2)
          (if raw_cell_content_area_start =? 0 then 65536 else raw_cell_content_area_start)
          (be_at page (offset + 7) 1) rightmost_pointer).

(** ** [pager.rs] *)

Record Pager := mkPager {
  file : bytes;
  header : DatabaseHeader
}.

(** [Pager::open] *)
Definition open_pager (file : bytes) : Result Pager :=
  if Zlen file <? 100 then Err (Storage "sqlite database file is too short")
  else
    let? header := decode_header (get_bytes file 0 100) in
    if Zlen file <? page_size header then Err (Storage "sqlite file is shorter than declared sqlite page size")
    else if negb (Zlen file mod page_size header =? 0) then
      Err (Storage "sqlite file length is not aligned to declared sqlite page size")
    else Ok (mkPager file header).

Definition usable_size (self : Pager) : Result Z := header_usable_size (header self).

Definition page_count (self : Pager) : Result Z :=
  let page_count := Zlen (file self) / page_size (header self) in
  if page_count <=? u32_max then Ok page_count else Err (Storage "sqlite page count does not fit in u32").

Definition read_page (self : Pager) (page_no : Z) : Result bytes :=
  if page_no =? 0 then Err (Storage "sqlite page numbers start at 1")
  else
    let page_size := page_size (header self) in
    let? offset := ok_or (checked_mul (page_no - 1) page_size) (Storage "sqlite page offset overflow") in
    let? page_end := ok_or (checked_add offset page_size) (Storage "sqlite page range overflow") in
    if Zlen (file self) <? page_end then Err (Storage ("sqlite page " ++ pretty page_no ++ " is out of bounds")%string)
    else slice_range (file self) offset page_end.

(** The [while remaining > 0] loop, which takes at least a byte in every round. *)
Fixpoint overflow_loop (fuel : nat) (self : Pager) (chunk_size remaining next_page : Z) (payload : bytes) : Result bytes :=
  if remaining <=? 0 then Ok payload
  else
    match fuel with
    | O => OutOfFuel
    | S fuel =>
        let? page := read_page self next_page in
        if Zlen page <? 4 then Err (Storage ("sqlite overflow page " ++ pretty next_page ++ " is truncated")%string)
        else
          let next_overflow := be_at page 0 4 in
          let bytes_to_take := Z.min remaining chunk_size in
          let? data_end := ok_or (checked_add 4 bytes_to_take) (Storage "sqlite overflow payload range overflow") in
          let? data := ok_or (get_range page 4 data_end)
                         (Storage ("sqlite overflow page " ++ pretty next_page ++ " does not contain enough payload bytes")%string) in
          let remaining := remaining - bytes_to_take in
          if remaining =? 0 then Ok (payload ++ data)
          else if next_overflow =? 0 then Err (Storage "sqlite overflow chain terminated before the payload was fully read")
          else overflow_loop fuel self chunk_size remaining next_overflow (payload ++ data)
    end.

Definition read_overflow_chain (self : Pager) (first_overflow_page remaining_bytes : Z) : Result bytes :=
  if first_overflow_page =? 0 then Err (Storage "sqlite overflow chains must start at a non-zero page number")
  else
    let? usable := usable_size self in
    let? chunk_size := ok_or (checked_sub usable 4) (Storage "sqlite usable page size is too small for overflow") in
    if chunk_size =? 0 then Err (Storage "sqlite usable page size is too small for overflow payload data")
    else
      with_capacity remaining_bytes ;;?
      overflow_loop (Z.to_nat remaining_bytes) self chunk_size remaining_bytes first_overflow_page [].

(** ** What the pager gives *)

Lemma be_at_bound buf a n : is_bytes buf -> 0 <= be_at buf a n < 256 ^ Z.of_nat n.
Proof.
  intros Hb. unfold be_at. destruct (from_be_bound (get_bytes buf a n)) as [H1 H2]; [unfold get_bytes; by apply Forall_take, Forall_drop|].
  split; [done|]. eapply Z.lt_le_trans; [exact H2|]. apply Z.pow_le_mono_r; [lia|]. unfold Zlen, get_bytes. rewrite length_take. lia.
Qed.

Lemma decode_page_size_Ok raw p : decode_page_size raw = Ok p -> 512 <= p <= 65536.
Proof. unfold decode_page_size. case_match eqn:E; [|done]. intros [= <-]. apply andb_true_iff in E as [[_ ?]%andb_true_iff ?]. lia. Qed.

(** What [open_pager] checked. *)
Record pager_ok (self : Pager) : Prop := {
  pager_bytes : is_bytes (file self);
  pager_page_size : 512 <= page_size (header self) <= 65536;
  pager_reserved : is_u8 (reserved_bytes (header self))
}.

Lemma open_pager_ok buf self : is_bytes buf -> open_pager buf = Ok self -> pager_ok self /\ file self = buf.
Proof.
  intros Hb. unfold open_pager. case_match; [done|]. intros Hd. inv_res. repeat case_match; try done. simplify_eq. split; [|done].
  unfold decode_header in E. repeat case_match; try done. inv_res. split; cbn; [done|by eapply decode_page_size_Ok|].
  destruct (be_at_bound (get_bytes buf 0 100) 20 1); [unfold get_bytes; by apply Forall_take, Forall_drop|]. width.
Qed.

Lemma usable_size_bound self usable : pager_ok self -> usable_size self = Ok usable -> 257 <= usable <= 65536.
Proof.
  intros [_ Hp Hr]. unfold usable_size, header_usable_size, checked_sub. repeat case_match; try done. cbn. intros [= <-]. width.
Qed.

Lemma usable_size_returns self : returns (usable_size self).
Proof. unfold usable_size, header_usable_size. case_match; [done|]. apply returns_ok_or. Qed.

Lemma read_page_cases self p : pager_ok self -> 0 <= p ->
  returns (read_page self p) /\ forall page, read_page self p = Ok page -> Zlen page = page_size (header self) /\ is_bytes page.
Proof.
  intros [Hb Hs _] Hp. unfold read_page. destruct (Z.eqb_spec p 0); [done|]. set (sz := page_size (header self)) in *.
  unfold checked_mul. case_match; [|done]. cbn [ok_or bind]. unfold checked_add. case_match; [|done]. cbn [ok_or bind].
  case_match eqn:E; [done|]. apply Z.ltb_ge in E. unfold slice_range.
  destruct (get_range _ _ _) as [s|] eqn:Er.
  - split; [done|]. intros page [= ->]. split; [apply get_range_Zlen in Er; lia|by eapply get_range_is_bytes].
  - apply get_range_None in Er. exfalso. apply Er. nia.
Qed.
