(* ===== verification/SqliteBTree.v ===== *)
(** * SQLite B-trees: [src/storage/sqlite3/btree.rs]

    The reader of tables and indexes. The recursion over pages follows the file, which may
    be cyclic: its depth is bounded by fuel here and by the stack there. *)

From S2P Require Import Prelude Text Varint Types Schema Record SqliteFile.

Record TableLeafCell := mkTableLeafCell { cell_row_id : RowId; cell_row : Row }.
Record IndexEntry := mkIndexEntry { entry_key : list Value; entry_row_id : RowId }.

(** ** Payloads *)

Definition btree_max_local (usable_size : Z) (is_index : bool) : Result Z :=
  if is_index then
    let? value := ok_or (checked_sub usable_size 12) (Storage "sqlite index max-local computation overflow") in
    let? value := ok_or (checked_mul value 64) (Storage "sqlite index max-local computation overflow") in
    ok_or (checked_sub (value / 255) 23) (Storage "sqlite index max-local computation overflow")
  else ok_or (checked_sub usable_size 35) (Storage "sqlite table max-local computation overflow").

Definition btree_min_local (usable_size : Z) (is_index : bool) : Result Z :=
  let overflow := Storage ("sqlite " ++ (if is_index then "index" else "table") ++ " min-local computation overflow")%string in
  let? value := ok_or (checked_sub usable_size 12) overflow in
  let? value := ok_or (checked_mul value 32) overflow in
  ok_or (checked_sub (value / 255) 23) overflow.

(** The bytes of a payload that its cell holds. *)
Definition local_size (usable_size max_local min_local payload_size : Z) (too_small : DbError) : Result Z :=
  if payload_size <=? max_local then Ok payload_size
  else
    let? overflow_usable := ok_or (checked_sub usable_size 4) too_small in
    let? excess := usize_sub payload_size min_local in
    let? rest := usize_rem excess overflow_usable in
    let? local := u64_add min_local rest in
    Ok (if max_local <? local then min_local else local).

Definition read_btree_payload (pager : Pager) (page : bytes) (cell_offset cell_header_len payload_size : Z) (is_index : bool)
    (kind : string) : Result bytes :=
  let fail what := Storage ("sqlite " ++ kind ++ what)%string in
  let? usable_size := usable_size pager in
  let? max_local := btree_max_local usable_size is_index in
  let? min_local := btree_min_local usable_size is_index in
  let? local_payload := local_size usable_size max_local min_local payload_size (Storage "sqlite usable page size is too small for overflow") in
  let? payload_offset := ok_or (checked_add cell_offset cell_header_len) (fail " payload offset overflow") in
  let? local_payload_end := ok_or (checked_add payload_offset local_payload) (fail " payload range overflow") in
  let? local_bytes := ok_or (get_range page payload_offset local_payload_end) (fail " payload bytes are truncated before overflow handling") in
  if payload_size <=? local_payload then Ok local_bytes
  else
    let? overflow_ptr_end := ok_or (checked_add local_payload_end 4) (fail " overflow pointer range overflow") in
    let? overflow_ptr := ok_or (get_range page local_payload_end overflow_ptr_end) (fail " overflow pointer is truncated") in
    let first_overflow_page := from_be overflow_ptr in
    if first_overflow_page =? 0 then Err (fail " overflow payload is missing its first overflow page pointer")
    else
      let? remaining := usize_sub payload_size local_payload in
      let? overflow_bytes := read_overflow_chain pager first_overflow_page remaining in
      with_capacity payload_size ;;?
      Ok (local_bytes ++ overflow_bytes).

(** ** Cells *)

Definition pointer_array_offset (header : BtreePageHeader) (first_page : bool) : Z :=
  (if first_page then 100 else 0) + (if is_interior (page_type header) then 12 else 8).

(** The loop of [cell_offsets], from the cell [cell_index] on. *)
Fixpoint offsets_from (count : nat) (page : bytes) (pointer_array_start cell_index : Z) (truncated : DbError) : Result (list Z) :=
  match count with
  | O => Ok []
  | S count =>
      let pointer_offset := pointer_array_start + cell_index * 2 in
      let? pointer := ok_or (get_range page pointer_offset (pointer_offset + 2)) truncated in
      let? offsets := offsets_from count page pointer_array_start (cell_index + 1) truncated in
      Ok (from_be pointer :: offsets)
  end.

Definition cell_offsets (page : bytes) (first_page : bool) (header : BtreePageHeader) : Result (list Z) :=
  offsets_from (Z.to_nat (cell_count header)) page (pointer_array_offset header first_page) 0
    (Storage "sqlite btree page has truncated cell pointer array").

Definition slice_from (page : bytes) (offset : Z) : Result bytes :=
  ok_or (get_from page offset) (Storage "sqlite cell offset is out of bounds").

Definition decode_interior_child_pointer (page : bytes) (cell_offset : Z) : Result Z :=
  let? child_bytes := ok_or (get_range page cell_offset (cell_offset + 4)) (Storage "sqlite interior table cell is truncated") in
  Ok (from_be child_bytes).

Definition minimum_index_record_value_count (index : IndexMeta) : Result Z :=
  ok_or (checked_add (Zlen (index_columns index)) 1) (Storage "sqlite index column count overflow").

Section Reader.
Context {SelectStatement : Type}.
(** [DefaultHasher] on the key of an entry; Rust leaves its algorithm open. *)
Context (default_hash : list Value -> Z).
Abbreviation Schema := (Schema SelectStatement).

(** The columns that are the row id under another name. *)
Definition is_row_id_alias (column : ColumnDef) : bool :=
  primary_key column &&
  match column_type column, primary_key_sort_order column with
  | CtInteger, Some Desc => false
  | CtInteger, _ => true
  | _, _ => false
  end.

Definition patch_value (row_id : RowId) (cv : ColumnDef * Value) : Result Value :=
  match is_row_id_alias cv.1, cv.2 with
  | true, Null => if row_id <=? i64_max then Ok (Integer row_id) else Err (Storage "sqlite rowid does not fit in i64")
  | _, value => Ok value
  end.

Definition patch_integer_primary_key_alias (schema : Schema) (row_id : RowId) (row : Row) : Result Row :=
  if negb (length row =? length (columns schema))%nat then
    Err (Storage ("sqlite table row for " ++ schema_name schema ++ " expected " ++ pretty (length (columns schema)) ++ " columns but decoded "
                  ++ pretty (length row))%string)
  else mapM_res (patch_value row_id) (zip (columns schema) row).

Definition decode_leaf_table_cell (pager : Pager) (page : bytes) (schema : Schema) (cell_offset : Z) : Result TableLeafCell :=
  let? cell := slice_from page cell_offset in
  let? (payload_size, payload_len) := decode_varint cell in
  let? rest := slice_range cell payload_len (Zlen cell) in
  let? (row_id, row_id_len) := decode_varint rest in
  let? cell_header_len := ok_or (checked_add payload_len row_id_len) (Storage "sqlite table cell header length overflow") in
  let? payload := read_btree_payload pager page cell_offset cell_header_len payload_size false "table" in
  let? row := decode_table_record payload in
  let? row := patch_integer_primary_key_alias schema row_id row in
  Ok (mkTableLeafCell row_id row).

(** The readers of a leaf's cells decode the header again and check its type. *)
Definition decode_cells {A} (expected : PageType) (wrong : string) (decode_cell : Z -> Result A) (page : bytes) (first_page : bool)
    : Result (list A) :=
  let? header := decode_page_header page first_page in
  if negb (bool_decide (page_type header = expected)) then Err (Storage wrong)
  else
    let? offsets := cell_offsets page first_page header in
    mapM_res decode_cell offsets.

Definition decode_leaf_table_cells (pager : Pager) (page : bytes) (first_page : bool) (schema : Schema) : Result (list TableLeafCell) :=
  decode_cells LeafTable "sqlite leaf-table cell reader requires a leaf table page" (decode_leaf_table_cell pager page schema) page first_page.

Definition synthetic_row_id_from_key (key : list Value) : RowId :=
  if default_hash key =? 0 then 1 else default_hash key.

Definition too_few_values (kind : string) (index : IndexMeta) (minimum : Z) (values : list Value) : DbError :=
  Storage ("sqlite " ++ kind ++ index_name index ++ " expected at least " ++ pretty minimum ++ " record values but decoded "
           ++ pretty (length values))%string.

Definition decode_index_entry_values (index : IndexMeta) (values : list Value) : Result IndexEntry :=
  let? minimum_value_count := minimum_index_record_value_count index in
  if Zlen values <? minimum_value_count then Err (too_few_values "index " index minimum_value_count values)
  else
    let count := length (index_columns index) in
    let synthetic := Ok (mkIndexEntry (take count values) (synthetic_row_id_from_key (drop count values))) in
    if (length values =? count + 1)%nat then
      match last values with
      | None => Err (Storage "sqlite index record is missing trailing rowid")
      | Some (Integer row_id) =>
          if 0 <=? row_id then Ok (mkIndexEntry (take count values) row_id)
          else Err (Storage "sqlite index rowid must be a non-negative INTEGER")
      | Some _ => synthetic
      end
    else synthetic.

Definition decode_leaf_index_cell (pager : Pager) (page : bytes) (index : IndexMeta) (cell_offset : Z) : Result IndexEntry :=
  let? cell := slice_from page cell_offset in
  let? (payload_size, payload_len) := decode_varint cell in
  let? payload := read_btree_payload pager page cell_offset payload_len payload_size true "index" in
  let? values := decode_index_record payload in
  decode_index_entry_values index values.

Definition decode_leaf_index_cells (pager : Pager) (page : bytes) (first_page : bool) (index : IndexMeta) : Result (list IndexEntry) :=
  decode_cells LeafIndex "sqlite leaf-index cell reader requires a leaf index page" (decode_leaf_index_cell pager page index) page first_page.

(** The order of the columns in the record of a WITHOUT ROWID table. *)
Definition record_order (schema : Schema) (pk : PrimaryKeyConstraint) : list string :=
  pk_columns pk ++ filter (fun name => name ∉ pk_columns pk) (map column_name (columns schema)).

Definition reorder_without_rowid_record (schema : Schema) (values : list Value) : Result Row :=
  if negb (length values =? length (columns schema))%nat then
    Err (Storage ("sqlite WITHOUT ROWID row for " ++ schema_name schema ++ " expected " ++ pretty (length (columns schema))
                  ++ " columns but decoded " ++ pretty (length values))%string)
  else
    let? pk := ok_or (primary_key_constraint schema)
                 (Storage ("WITHOUT ROWID table " ++ schema_name schema ++ " is missing PRIMARY KEY metadata")%string) in
    let order := record_order schema pk in
    if negb (length order =? length (columns schema))%nat then
      Err (Storage ("WITHOUT ROWID table " ++ schema_name schema ++ " column layout could not be reconstructed")%string)
    else
      fold_res (fun row (vn : Value * string) => let? position := column_index schema vn.2 in Ok (<[position := vn.1]> row))
        (zip values order) (replicate (length (columns schema)) Null).

Definition decode_leaf_without_rowid_table_cell (pager : Pager) (page : bytes) (schema : Schema) (cell_offset : Z) : Result Row :=
  let? cell := slice_from page cell_offset in
  let? (payload_size, payload_len) := decode_varint cell in
  let? payload := read_btree_payload pager page cell_offset payload_len payload_size true "WITHOUT ROWID table" in
  let? values := decode_index_record payload in
  reorder_without_rowid_record schema values.

Definition decode_leaf_without_rowid_table_rows (pager : Pager) (page : bytes) (first_page : bool) (schema : Schema) : Result (list Row) :=
  decode_cells LeafIndex "sqlite WITHOUT ROWID table reader requires a leaf index page"
    (decode_leaf_without_rowid_table_cell pager page schema) page first_page.

Definition validate_interior_index_cell (pager : Pager) (page : bytes) (index : IndexMeta) (cell_offset : Z) : Result unit :=
  let? cell := slice_from page cell_offset in
  let? payload := ok_or (get_from cell 4) (Storage "sqlite interior index cell is truncated") in
  let? (payload_size, payload_len) := decode_varint payload in
  let? payload := read_btree_payload pager page cell_offset (4 + payload_len) payload_size true "interior index" in
  let? values := decode_index_record payload in
  let? minimum_value_count := minimum_index_record_value_count index in
  if Zlen values <? minimum_value_count then Err (too_few_values "interior index " index minimum_value_count values) else Ok tt.

(** The children of an interior page: those of its cells, then the rightmost one. *)
Definition decode_children (expected : PageType) (what : string) (decode_cell : Z -> Result Z) (page : bytes) (first_page : bool)
    (header : BtreePageHeader) : Result (list Z) :=
  if negb (bool_decide (page_type header = expected)) then
    Err (Storage ("sqlite interior-" ++ what ++ " child reader requires an interior " ++ what ++ " page")%string)
  else
    let? offsets := cell_offsets page first_page header in
    let? children := mapM_res decode_cell offsets in
    let? rightmost := ok_or (rightmost_pointer header) (Storage ("sqlite interior " ++ what ++ " page is missing rightmost pointer")%string) in
    Ok (children ++ [rightmost]).

Definition decode_interior_table_children (page : bytes) (first_page : bool) (header : BtreePageHeader) : Result (list Z) :=
  decode_children InteriorTable "table" (decode_interior_child_pointer page) page first_page header.

Definition decode_interior_index_child_pointers (page : bytes) (first_page : bool) (header : BtreePageHeader) : Result (list Z) :=
  decode_children InteriorIndex "index" (decode_interior_child_pointer page) page first_page header.

Definition decode_interior_index_children (pager : Pager) (page : bytes) (first_page : bool) (header : BtreePageHeader) (index : IndexMeta)
    : Result (list Z) :=
  decode_children InteriorIndex "index"
    (fun cell_offset => validate_interior_index_cell pager page index cell_offset ;;? decode_interior_child_pointer page cell_offset)
    page first_page header.

(** ** Scanning and searching *)

Definition unsupported_page (reader : string) (other : PageType) : DbError :=
  Storage ("sqlite " ++ reader ++ " reader does not support page type " ++ page_type_debug other)%string.

(** [rows.push((RowId(rows.len() + 1), row))] *)
Definition push_numbered (rows : list (RowId * Row)) (row : Row) : Result (list (RowId * Row)) :=
  let? next := ok_or (checked_add (Zlen rows) 1) (Storage "WITHOUT ROWID row counter overflow") in
  Ok (rows ++ [(next, row)]).

Fixpoint scan_table_page (fuel : nat) (pager : Pager) (schema : Schema) (rows : list (RowId * Row)) (page_no : Z)
    : Result (list (RowId * Row)) :=
  match fuel with
  | O => OutOfFuel
  | S fuel =>
      let? page := read_page pager page_no in
      let? header := decode_page_header page (page_no =? 1) in
      match page_type header with
      | LeafTable =>
          let? cells := decode_leaf_table_cells pager page (page_no =? 1) schema in
          Ok (rows ++ map (fun cell => (cell_row_id cell, cell_row cell)) cells)
      | InteriorTable =>
          let? children := decode_interior_table_children page (page_no =? 1) header in
          fold_res (scan_table_page fuel pager schema) children rows
      | LeafIndex =>
          if without_rowid schema then
            let? new_rows := decode_leaf_without_rowid_table_rows pager page (page_no =? 1) schema in
            fold_res push_numbered new_rows rows
          else Err (unsupported_page "table" LeafIndex)
      | InteriorIndex =>
          if without_rowid schema then
            let? children := decode_interior_index_child_pointers page (page_no =? 1) header in
            fold_res (scan_table_page fuel pager schema) children rows
          else Err (unsupported_page "table" InteriorIndex)
      end
  end.

Fixpoint scan_index_page (fuel : nat) (pager : Pager) (index : IndexMeta) (entries : list IndexEntry) (page_no : Z) : Result (list IndexEntry) :=
  match fuel with
  | O => OutOfFuel
  | S fuel =>
      let? page := read_page pager page_no in
      let? header := decode_page_header page (page_no =? 1) in
      match page_type header with
      | LeafIndex =>
          let? cells := decode_leaf_index_cells pager page (page_no =? 1) index in
          Ok (entries ++ cells)
      | InteriorIndex =>
          let? children := decode_interior_index_children pager page (page_no =? 1) header index in
          fold_res (scan_index_page fuel pager index) children entries
      | other => Err (unsupported_page "index" other)
      end
  end.

(** [entry.key.starts_with(key_prefix)] *)
Fixpoint starts_with (key key_prefix : list Value) : bool :=
  match key_prefix, key with
  | [], _ => true
  | p :: ps, v :: vs => value_eqb v p && starts_with vs ps
  | _ :: _, [] => false
  end.

Fixpoint scan_matching_index_page (fuel : nat) (pager : Pager) (index : IndexMeta) (key_prefix : list Value) (row_ids : gset Z) (page_no : Z)
    : Result (gset Z) :=
  match fuel with
  | O => OutOfFuel
  | S fuel =>
      let? page := read_page pager page_no in
      let? header := decode_page_header page (page_no =? 1) in
      match page_type header with
      | LeafIndex =>
          let? cells := decode_leaf_index_cells pager page (page_no =? 1) index in
          Ok (fold_left (fun row_ids entry => if starts_with (entry_key entry) key_prefix then {[entry_row_id entry]} ∪ row_ids else row_ids)
                cells row_ids)
      | InteriorIndex =>
          let? children := decode_interior_index_children pager page (page_no =? 1) header index in
          fold_res (scan_matching_index_page fuel pager index key_prefix) children row_ids
      | other => Err (unsupported_page "index" other)
      end
  end.

(** The loop over the cells of an interior page: the child whose rows reach [row_id]. *)
Fixpoint child_for (page : bytes) (row_id : RowId) (offsets : list Z) : Result (option Z) :=
  match offsets with
  | [] => Ok None
  | cell_offset :: offsets =>
      let? left_child := decode_interior_child_pointer page cell_offset in
      let? key_offset := ok_or (checked_add cell_offset 4) (Storage "sqlite interior cell offset overflow") in
      let? rest := slice_from page key_offset in
      let? (pivot_rowid, _) := decode_varint rest in
      if row_id <=? pivot_rowid then Ok (Some left_child) else child_for page row_id offsets
  end.

Fixpoint get_table_row_from_page (fuel : nat) (pager : Pager) (page_no : Z) (schema : Schema) (row_id : RowId) : Result (option Row) :=
  match fuel with
  | O => OutOfFuel
  | S fuel =>
      let? page := read_page pager page_no in
      let? header := decode_page_header page (page_no =? 1) in
      match page_type header with
      | LeafTable =>
          let? cells := decode_leaf_table_cells pager page (page_no =? 1) schema in
          Ok (cell_row <$> head (filter (fun cell => cell_row_id cell = row_id) cells))
      | InteriorTable =>
          let? offsets := cell_offsets page (page_no =? 1) header in
          let? child := child_for page row_id offsets in
          match child with
          | Some left_child => get_table_row_from_page fuel pager left_child schema row_id
          | None =>
              let? rightmost := ok_or (rightmost_pointer header) (Storage "sqlite interior table page is missing rightmost pointer") in
              get_table_row_from_page fuel pager rightmost schema row_id
          end
      | other => Err (unsupported_page "table" other)
      end
  end.

Definition scan_table_rows (fuel : nat) (pager : Pager) (root_page : Z) (schema : Schema) : Result (list (RowId * Row)) :=
  scan_table_page fuel pager schema [] root_page.

Definition get_table_row (fuel : nat) (pager : Pager) (root_page : Z) (schema : Schema) (row_id : RowId) : Result (option Row) :=
  get_table_row_from_page fuel pager root_page schema row_id.

Definition scan_index_entries (fuel : nat) (pager : Pager) (root_page : Z) (index : IndexMeta) : Result (list IndexEntry) :=
  scan_index_page fuel pager index [] root_page.

Definition lookup_index_entries (fuel : nat) (pager : Pager) (root_page : Z) (index : IndexMeta) (key_prefix : list Value) : Result (list RowId) :=
  let? row_ids := scan_matching_index_page fuel pager index key_prefix ∅ root_page in
  Ok (sorted_elements row_ids).
End Reader.
