(* ===== verification/SqliteSchema.v ===== *)
(** * The schema table of a SQLite file: [src/storage/sqlite3/schema.rs]

    Reading the rows of [sqlite_schema], whose tree begins on page 1. *)

From S2P Require Import Prelude Text Varint Types Schema Record SqliteFile SqliteBTree.

Record SchemaRow := mkSchemaRow {
  entry_type : string;
  row_name : string;
  table_name : string;
  root_page : Z;
  row_sql : option string
}.

Inductive RecordValue := RvNull | RvInteger (i : Z) | RvText (s : string).

(** ** Records *)

Definition decode_serial_value (buf : bytes) (payload_cursor serial : Z) : Result (RecordValue * Z) :=
  let unsupported := Err (Storage ("unsupported sqlite schema serial type " ++ pretty serial)%string) in
  if serial =? 0 then Ok (RvNull, payload_cursor)
  else if (1 <=? serial) && (serial <=? 6) then
    let? (slice, end_) := take_field buf payload_cursor (integer_len serial) "sqlite integer" in
    let? number := decode_integer slice in
    Ok (RvInteger number, end_)
  else if serial =? 8 then Ok (RvInteger 0, payload_cursor)
  else if serial =? 9 then Ok (RvInteger 1, payload_cursor)
  else if (12 <=? serial) && (serial mod 2 =? 0) then
    let? _ := take_field buf payload_cursor ((serial - 12) / 2) "sqlite blob" in
    unsupported
  else if (13 <=? serial) && (serial mod 2 =? 1) then
    let? (slice, end_) := take_field buf payload_cursor ((serial - 13) / 2) "sqlite text" in
    if utf8_valid slice then Ok (RvText (bytes_string slice), end_)
    else Err (Storage "invalid utf-8 in sqlite text record")
  else unsupported.

Fixpoint record_values (buf : bytes) (serials : list Z) (payload_cursor : Z) : Result (list RecordValue) :=
  match serials with
  | [] => Ok []
  | serial :: serials =>
      let? (value, payload_cursor) := decode_serial_value buf payload_cursor serial in
      let? values := record_values buf serials payload_cursor in
      Ok (value :: values)
  end.

Definition decode_record_values (buf : bytes) : Result (list RecordValue) :=
  let? (serials, payload_cursor) := decode_record_header buf in
  record_values buf serials payload_cursor.

Definition require_text (value : RecordValue) (column : string) : Result string :=
  match value with
  | RvText text => Ok text
  | _ => Err (Storage ("sqlite schema column " ++ column ++ " is not TEXT")%string)
  end.

Definition optional_text (value : RecordValue) (column : string) : Result (option string) :=
  match value with
  | RvNull => Ok None
  | RvText text => Ok (Some text)
  | _ => Err (Storage ("sqlite schema column " ++ column ++ " is not TEXT or NULL")%string)
  end.

Definition require_u32 (value : RecordValue) (column : string) : Result Z :=
  match value with
  | RvInteger value =>
      if (0 <=? value) && (value <=? u32_max) then Ok value
      else Err (Storage ("sqlite schema column " ++ column ++ " is not a supported positive INTEGER")%string)
  | _ => Err (Storage ("sqlite schema column " ++ column ++ " is not INTEGER")%string)
  end.

(** ** Pages *)

Definition schema_cell_offsets (page : bytes) (first_page : bool) (header : BtreePageHeader) : Result (list Z) :=
  offsets_from (Z.to_nat (cell_count header)) page (pointer_array_offset header first_page) 0
    (Storage "sqlite schema page has truncated cell pointer array").

Definition schema_child_pointer (page : bytes) (cell_offset : Z) : Result Z :=
  let? child_bytes := ok_or (get_range page cell_offset (cell_offset + 4)) (Storage "sqlite schema interior table cell is truncated") in
  Ok (from_be child_bytes).

Definition schema_children (page : bytes) (first_page : bool) (header : BtreePageHeader) : Result (list Z) :=
  if negb (bool_decide (page_type header = InteriorTable)) then
    Err (Storage "sqlite schema interior child reader requires an interior table page")
  else
    let? offsets := schema_cell_offsets page first_page header in
    let? children := mapM_res (schema_child_pointer page) offsets in
    let? rightmost := ok_or (rightmost_pointer header) (Storage "sqlite schema interior table page is missing rightmost pointer") in
    Ok (children ++ [rightmost]).

Definition read_leaf_table_payload (pager : Pager) (page : bytes) (cell_offset cell_header_len payload_size : Z) : Result bytes :=
  let? usable_size := usable_size pager in
  let? max_local := ok_or (checked_sub usable_size 35) (Storage "sqlite schema max-local computation overflow") in
  let overflow := Storage "sqlite schema min-local computation overflow" in
  let? value := ok_or (checked_sub usable_size 12) overflow in
  let? value := ok_or (checked_mul value 32) overflow in
  let? min_local := ok_or (checked_sub (value / 255) 23) overflow in
  let? local_payload := local_size usable_size max_local min_local payload_size (Storage "sqlite schema overflow chunk underflow") in
  let? payload_offset := ok_or (checked_add cell_offset cell_header_len) (Storage "sqlite schema payload offset overflow") in
  let? local_end := ok_or (checked_add payload_offset local_payload) (Storage "sqlite schema payload range overflow") in
  let? local_bytes := ok_or (get_range page payload_offset local_end)
                        (Storage "sqlite schema payload bytes are truncated before overflow handling") in
  if payload_size <=? local_payload then Ok local_bytes
  else
    let? overflow_ptr_end := ok_or (checked_add local_end 4) (Storage "sqlite schema overflow pointer range overflow") in
    let? overflow_ptr := ok_or (get_range page local_end overflow_ptr_end) (Storage "sqlite schema overflow pointer is truncated") in
    let first_overflow_page := from_be overflow_ptr in
    if first_overflow_page =? 0 then Err (Storage "sqlite schema overflow payload is missing its first overflow page pointer")
    else
      let? remaining := usize_sub payload_size local_payload in
      let? overflow_bytes := read_overflow_chain pager first_overflow_page remaining in
      with_capacity payload_size ;;?
      Ok (local_bytes ++ overflow_bytes).

(** [decode_schema_cell_with_pager], which is always given a pager. *)
Definition decode_schema_cell (pager : Pager) (page : bytes) (cell_offset : Z) : Result SchemaRow :=
  let? cell := ok_or (get_from page cell_offset) (Storage "sqlite schema cell offset is out of bounds") in
  let? (payload_size, payload_size_len) := decode_varint cell in
  let? rest := slice_range cell payload_size_len (Zlen cell) in
  let? (_, rowid_len) := decode_varint rest in
  let? cell_header_len := ok_or (checked_add payload_size_len rowid_len) (Storage "sqlite schema cell header length overflow") in
  let? payload := read_leaf_table_payload pager page cell_offset cell_header_len payload_size in
  let? values := decode_record_values payload in
  match values with
  | [entry_type; name; table_name; root_page; sql] =>
      let? entry_type := require_text entry_type "type" in
      let? name := require_text name "name" in
      let? table_name := require_text table_name "tbl_name" in
      let? root_page := require_u32 root_page "rootpage" in
      let? sql := optional_text sql "sql" in
      Ok (mkSchemaRow entry_type name table_name root_page sql)
  | _ => Err (Storage "sqlite schema row does not contain the expected five columns")
  end.

Fixpoint scan_schema_page (fuel : nat) (pager : Pager) (first_page : bool) (rows : list SchemaRow) (page_no : Z) : Result (list SchemaRow) :=
  match fuel with
  | O => OutOfFuel
  | S fuel =>
      let? page := read_page pager page_no in
      let? header := decode_page_header page first_page in
      match page_type header with
      | LeafTable =>
          let? offsets := schema_cell_offsets page first_page header in
          let? new_rows := mapM_res (decode_schema_cell pager page) offsets in
          Ok (rows ++ new_rows)
      | InteriorTable =>
          let? children := schema_children page first_page header in
          fold_res (scan_schema_page fuel pager false) children rows
      | other => Err (Storage ("sqlite schema loader does not support page type " ++ page_type_debug other)%string)
      end
  end.

Definition read_schema_rows (fuel : nat) (pager : Pager) : Result (list SchemaRow) := scan_schema_page fuel pager true [] 1.
