(* ===== verification/SqliteRender.v ===== *)
(** * The SQL the writer renders: [src/storage/sqlite3/writer.rs], from [render_create_table]

    The statements of the schema table: definitions of tables and indexes as text, which the
    reader parses again. *)

From S2P Require Import Prelude Text Types Floats Schema CheckValues.

(** [", "]-separated. *)
Definition comma_list (l : list string) : string := str_join ", " l.

(** [push_str] of a clause with a text, if there is one. *)
Definition clause (prefix : string) (o : option string) : string := match o with Some x => (prefix ++ x)%string | None => "" end.
(** The same with a blank behind. *)
Definition clause_first (prefix : string) (o : option string) : string := match o with Some x => (prefix ++ x ++ " ")%string | None => "" end.

(** ** Literals *)

Definition render_check_op (op : CheckOp) : string :=
  match op with CkOpEq => "=" | CkOpNe => "!=" | CkOpGt => ">" | CkOpGte => ">=" | CkOpLt => "<" | CkOpLte => "<=" end.

Definition render_literal (value : Value) : string :=
  match value with
  | Null => "NULL"
  | Boolean true => "true"
  | Boolean false => "false"
  | Integer value => pretty value
  | Real bits => f64_to_string (f64_of_bits bits)
  | Blob value => ("X'" ++ sqlite_hex_bytes value ++ "'")%string
  | Text value => ("'" ++ of_chars (replace [c#"'"] [c#"'"; c#"'"] (chars value)) ++ "'")%string
  end.

(** [render_literal(&Value::from(text))] *)
Definition render_text (text : string) : string := render_literal (Text text).

Definition render_column_default (default_value : ColumnDefault) : string :=
  match default_value with
  | Literal value => render_literal value
  | CurrentTimestamp => "CURRENT_TIMESTAMP"
  | CurrentDate => "CURRENT_DATE"
  | CurrentTime => "CURRENT_TIME"
  end.

(** ** Check expressions *)

Definition rounding_sql_name (f : RoundingFunc) : string :=
  match f with RCeil => "ceil" | RCeiling => "ceiling" | RFloor => "floor" | RTrunc => "trunc" end.
Definition unary_math_sql_name (f : UnaryMathFunc) : string :=
  match f with
  | Sqrt => "sqrt" | Ln => "ln" | Log10 => "log10" | Log2 => "log2" | Exp => "exp" | Sin => "sin" | Cos => "cos" | Tan => "tan" | Sinh => "sinh"
  | Cosh => "cosh" | Tanh => "tanh" | Atan => "atan" | Acos => "acos" | Asin => "asin" | Acosh => "acosh" | Asinh => "asinh" | Atanh => "atanh"
  | Degrees => "degrees" | Radians => "radians"
  end.
Definition binary_math_sql_name (f : BinaryMathFunc) : string := match f with Power => "power" | Atan2 => "atan2" | Log => "log" end.

Definition not_word (negated : bool) : string := if negated then "NOT " else "".

(** Further arguments of a call. *)
Definition more_args (l : list string) : string := String.concat "" (map (fun x => (", " ++ x)%string) l).

(** [expr op literal] *)
Definition compared (expr : string) (op : CheckOp) (value : Value) : string := (expr ++ " " ++ render_check_op op ++ " " ++ render_literal value)%string.
Definition call (func args : string) : string := (func ++ "(" ++ args ++ ")")%string.

#[local] Open Scope string_scope.
Fixpoint render_check_expr (expr : CheckExpr) : string :=
  match expr with
  | CkCompare column op value => compared column op value
  | CkIsNull column negated => column ++ (if negated then " IS NOT NULL" else " IS NULL")
  | CkGlob column pattern negated => column ++ " " ++ not_word negated ++ "GLOB " ++ render_text pattern
  | CkRegexp column pattern negated => column ++ " " ++ not_word negated ++ "REGEXP " ++ render_text pattern
  | CkLike column pattern escape negated =>
      column ++ " " ++ not_word negated ++ "LIKE " ++ render_text pattern ++ clause " ESCAPE " (render_text <$> escape)
  | CkInList column values negated => column ++ " " ++ not_word negated ++ "IN (" ++ comma_list (map render_literal values) ++ ")"
  | CkBetween column low high negated => column ++ " " ++ not_word negated ++ "BETWEEN " ++ render_literal low ++ " AND " ++ render_literal high
  | CkIsBool column value negated => column ++ " IS " ++ not_word negated ++ (if value then "TRUE" else "FALSE")
  | CkTruthy column => column
  | CkIsDistinct column value negated => column ++ " IS " ++ (if negated then "" else "NOT ") ++ "DISTINCT FROM " ++ render_literal value
  | CkLengthCompare column op value => compared (call "length" column) op value
  | CkOctetLengthCompare column op value => compared (call "octet_length" column) op value
  | CkUnicodeCompare column op value => compared (call "unicode" column) op value
  | CkUnicodeIsNull column negated => call "unicode" column ++ " IS " ++ not_word negated ++ "NULL"
  | CkSignCompare column op value => compared (call "sign" column) op value
  | CkHexCompare column op value => compared (call "hex" column) op value
  | CkQuoteCompare column op value => compared (call "quote" column) op value
  | CkNullIfIsNull column value negated => call "nullif" (column ++ ", " ++ render_literal value) ++ " IS " ++ not_word negated ++ "NULL"
  | CkReplaceCompare column pattern replacement op value =>
      compared (call "replace" (column ++ ", " ++ render_text pattern ++ ", " ++ render_text replacement)) op value
  | CkReplaceColumnCompare column pattern replacement op =>
      call "replace" (column ++ ", " ++ render_text pattern ++ ", " ++ render_text replacement) ++ " " ++ render_check_op op ++ " " ++ column
  | CkRoundCompare column precision op value => compared (call "round" (column ++ clause ", " (pretty <$> precision))) op value
  | CkRoundingCompare column func op value => compared (call (rounding_sql_name func) column) op value
  | CkCastCompare column target_type op value => compared (call "CAST" (column ++ " AS " ++ column_type_name target_type)) op value
  | CkMinMaxColumnCompare column limit min op =>
      call (if min then "min" else "max") (column ++ ", " ++ render_literal limit) ++ " " ++ render_check_op op ++ " " ++ column
  | CkConcatCompare column suffix op value => compared (call "concat" (column ++ more_args (map render_literal suffix))) op value
  | CkConcatWsCompare column separator suffix op value =>
      compared (call "concat_ws" (match separator with Some separator => render_text separator | None => render_literal Null end
        ++ ", " ++ column ++ more_args (map render_literal suffix))) op value
  | CkJsonValidCompare column flags compare =>
      let expr := call "json_valid" (column ++ clause ", " (pretty <$> flags)) in
      match compare with Some (op, value) => compared expr op value | None => expr end
  | CkAbsCompare column op value => compared (call "abs" column) op value
  | CkUnaryMathCompare column func op value => compared (call (unary_math_sql_name func) column) op value
  | CkBinaryMathCompare column func argument column_is_second op value =>
      compared (call (binary_math_sql_name func)
        (if column_is_second then render_literal argument ++ ", " ++ column else column ++ ", " ++ render_literal argument)) op value
  | CkArithmeticCompare column addend op value => compared ("(" ++ column ++ " + " ++ render_literal addend ++ ")") op value
  | CkMultiplyCompare column factor op value => compared ("(" ++ column ++ " * " ++ render_literal factor ++ ")") op value
  | CkDivideCompare column divisor op value => compared ("(" ++ column ++ " / " ++ render_literal divisor ++ ")") op value
  | CkModuloCompare column divisor op value function_form =>
      compared (if function_form then call "mod" (column ++ ", " ++ render_literal divisor)
                else "(" ++ column ++ " % " ++ render_literal divisor ++ ")") op value
  | CkTypeOfCompare column op value => compared (call "typeof" column) op value
  | CkNoCaseCompare column collation op value => compared (column ++ " COLLATE " ++ collation) op value
  | CkCaseFoldCompare column upper op value => compared (call (if upper then "upper" else "lower") column) op value
  | CkTrimCompare column side characters op value =>
      compared (call (match side with TrimBoth => "trim" | TrimStart => "ltrim" | TrimEnd => "rtrim" end)
        (column ++ clause ", " (render_text <$> characters))) op value
  | CkCoalesceCompare column fallbacks op value => compared (call "coalesce" (column ++ more_args (map render_literal fallbacks))) op value
  | CkInstrCompare column needle op value => compared (call "instr" (column ++ ", " ++ render_literal needle)) op value
  | CkSubstrCompare column start length op value =>
      compared (call "substr" (column ++ ", " ++ pretty start ++ clause ", " (pretty <$> length))) op value
  | CkAnd lhs rhs => "(" ++ render_check_expr lhs ++ ") AND (" ++ render_check_expr rhs ++ ")"
  | CkOr lhs rhs => "(" ++ render_check_expr lhs ++ ") OR (" ++ render_check_expr rhs ++ ")"
  | CkNot inner => "NOT (" ++ render_check_expr inner ++ ")"
  end.

Definition render_check_constraint (check : CheckConstraint) : string :=
  if explicit_name check then "CONSTRAINT " ++ check_name check ++ " CHECK (" ++ render_check_expr (check_expr check) ++ ")"
  else "CHECK (" ++ render_check_expr (check_expr check) ++ ")".

(** ** Keys *)

Definition append_foreign_key_clauses (foreign_key : ForeignKey) : string :=
  clause " MATCH " (match_clause foreign_key) ++ clause " ON DELETE " (on_delete foreign_key) ++ clause " ON UPDATE " (on_update foreign_key)
  ++ match deferrable foreign_key with Some true => " DEFERRABLE" | Some false => " NOT DEFERRABLE" | None => "" end
  ++ match initially_deferred foreign_key with Some true => " INITIALLY DEFERRED" | Some false => " INITIALLY IMMEDIATE" | None => "" end.

Definition rendered_references (foreign_key : ForeignKey) : string :=
  "REFERENCES " ++ ref_table foreign_key
  ++ match ref_columns foreign_key with Some ref_columns => "(" ++ comma_list ref_columns ++ ")" | None => "" end
  ++ append_foreign_key_clauses foreign_key.

Definition render_foreign_key (foreign_key : ForeignKey) : string :=
  clause_first "CONSTRAINT " (fk_constraint_name foreign_key) ++ "FOREIGN KEY (" ++ comma_list (fk_columns foreign_key) ++ ") " ++ rendered_references foreign_key.

Definition render_inline_foreign_key (foreign_key : ForeignKey) : string :=
  clause_first "CONSTRAINT " (fk_constraint_name foreign_key) ++ rendered_references foreign_key.

Definition pk_rendered_columns (pk : PrimaryKeyConstraint) : list string := default (pk_columns pk) (pk_decorated_columns pk).
Definition uq_rendered_columns (u : UniqueConstraint) : list string := default (uq_columns u) (uq_decorated_columns u).
Definition index_rendered_columns (index : IndexMeta) : list string := default (index_columns index) (decorated_columns index).

Definition render_primary_key_constraint (primary_key : PrimaryKeyConstraint) : string :=
  clause_first "CONSTRAINT " (pk_constraint_name primary_key) ++ "PRIMARY KEY(" ++ comma_list (pk_rendered_columns primary_key) ++ ")"
  ++ clause " ON CONFLICT " (pk_conflict_clause primary_key).

Definition render_unique_constraint (unique : UniqueConstraint) : string :=
  clause_first "CONSTRAINT " (uq_constraint_name unique) ++ "UNIQUE(" ++ comma_list (uq_rendered_columns unique) ++ ")"
  ++ clause " ON CONFLICT " (uq_conflict_clause unique).

(** ** Columns and tables *)

Section Tables.
Context {SelectStatement : Type}.
Abbreviation Schema := (Schema SelectStatement).

(** A constraint of a column: its name, the words, its conflict clause. *)
Definition column_constraint (name : option string) (words : string) (conflict : option string) : string :=
  clause " CONSTRAINT " name ++ words ++ clause " ON CONFLICT " conflict.

Definition render_column_def (schema : Schema) (column : ColumnDef) : string :=
  let declared := default "" (declared_type column) in
  let rendered_by_table_constraint :=
    match primary_key_constraint schema with Some constraint => bool_decide (column_name column ∈ pk_columns constraint) | None => false end in
  column_name column ++ (if String.eqb declared "" then "" else " " ++ declared)
  ++ clause " COLLATE " (collation column)
  ++ (if primary_key column && negb rendered_by_table_constraint then
        column_constraint (primary_key_constraint_name column) " PRIMARY KEY" (primary_key_conflict_clause column)
        ++ match primary_key_sort_order column with Some Asc => " ASC" | Some Desc => " DESC" | None => "" end
        ++ (if autoincrement column then " AUTOINCREMENT" else "")
      else "")
  ++ (if unique column then column_constraint (unique_constraint_name column) " UNIQUE" (unique_conflict_clause column) else "")
  ++ (if negb (nullable column) && negb (primary_key column) then
        column_constraint (not_null_constraint_name column) " NOT NULL" (not_null_conflict_clause column)
      else "")
  ++ clause " DEFAULT " (render_column_default <$> default_value column)
  ++ match generated_expr column with
     | Some expr =>
         (if generated_always_explicit column then " GENERATED ALWAYS AS (" else " AS (") ++ expr ++ ")"
         ++ (if generated_stored column then " STORED" else if generated_storage_explicit column then " VIRTUAL" else "")
     | None => ""
     end
  ++ String.concat "" (map (fun check => " " ++ render_check_constraint check) (column_checks column))
  ++ clause " " (render_inline_foreign_key <$> foreign_key column).

Definition render_table_constraints (schema : Schema) : list string :=
  match table_constraint_order schema with
  | [] =>
      map render_primary_key_constraint (option_list (primary_key_constraint schema)) ++ map render_check_constraint (checks schema)
      ++ map render_unique_constraint (unique_constraints schema) ++ map render_foreign_key (foreign_keys schema)
  | order =>
      omap (fun entry =>
        match entry with
        | OrderCheck index => render_check_constraint <$> checks schema !! Z.to_nat index
        | OrderForeignKey index => render_foreign_key <$> foreign_keys schema !! Z.to_nat index
        | OrderPrimaryKey => render_primary_key_constraint <$> primary_key_constraint schema
        | OrderUnique index => render_unique_constraint <$> unique_constraints schema !! Z.to_nat index
        end) order
  end%list.

Definition render_create_table (schema : Schema) : string :=
  "CREATE TABLE " ++ schema_name schema ++ " ("
  ++ comma_list (map (render_column_def schema) (columns schema) ++ render_table_constraints schema)%list ++ ")"
  ++ (if strict schema then " STRICT" else "") ++ (if without_rowid schema then " WITHOUT ROWID" else "").
End Tables.

Definition render_create_index (table : string) (index : IndexMeta) : string :=
  "CREATE" ++ (if index_unique index then " UNIQUE" else "") ++ " INDEX " ++ index_name index ++ " ON " ++ table ++ " ("
  ++ comma_list (index_rendered_columns index) ++ ")" ++ clause " WHERE " (predicate index).
