(* ===== verification/SqliteRenderLaws.v ===== *)
(** * Rendered literals, lexed again

    The literals of column defaults and check constraints go into the schema table as text.
    The lexer reads the text of every literal but a real as that literal. *)

From S2P Require Import Prelude Text Types Floats Lexer LexerLaws Schema CheckValues SqliteRender.

(** ** Decimal integers *)

Lemma decimal_digits (x : N) : forall s, (0 < x)%N -> exists ds, string_bytes (pretty_N_go x s) = ds ++ string_bytes s /\ ds <> [] /\
  Forall (fun c => is_ascii_digit c = true) ds /\ fold_left (fun acc c => acc * 10 + default 0 (to_digit 10 c)) ds 0 = Z.of_N x.
Proof.
  induction (N.lt_wf_0 x) as [x _ IH]. intros s Hx. rewrite pretty_N_go_step by done. set (d := (x `mod` 10)%N).
  assert (Hd : (d < 10)%N) by (apply N.mod_lt; lia).
  assert (Hcode : ascii_code (pretty_N_char d) = 48 + Z.of_N d) by (destruct d as [|p]; [done|]; do 4 (destruct p as [p|p|]; try lia; try done)).
  assert (Hdig : is_ascii_digit (48 + Z.of_N d) = true) by (unfold is_ascii_digit; lia).
  assert (Hval : default 0 (to_digit 10 (48 + Z.of_N d)) = Z.of_N d).
  { unfold to_digit. rewrite Hdig. rewrite (proj2 (Z.ltb_lt _ _)) by lia. cbn. unfold id. lia. }
  destruct (decide (x `div` 10 = 0)%N) as [Hz|Hnz].
  - rewrite Hz, pretty_N_go_0. cbn [string_bytes]. rewrite Hcode. exists [48 + Z.of_N d]. split_and!; [done|done|by repeat constructor|].
    cbn [fold_left]. rewrite Hval. pose proof (N.div_mod x 10 ltac:(done)). unfold d in *. lia.
  - assert (Hpos : (0 < x `div` 10)%N) by (by apply N.neq_0_lt_0). destruct (IH (x `div` 10)%N ltac:(apply N.div_lt; lia) (String (pretty_N_char d) s) Hpos) as (ds & Hb & Hne & Hall & Hsum).
    exists (ds ++ [48 + Z.of_N d]). rewrite Hb. cbn [string_bytes]. rewrite Hcode, <- app_assoc. split_and!; [done|by destruct ds|by apply Forall_app; split; [|by repeat constructor]|].
    rewrite fold_left_app, Hsum. cbn [fold_left]. rewrite Hval. pose proof (N.div_mod x 10 ltac:(done)). unfold d in *. lia.
Qed.

Lemma digits_ascii l : Forall (fun c => is_ascii_digit c = true) l -> Forall (fun c => is_ascii c = true /\ 0 <= c) l.
Proof. intros Hl. eapply Forall_impl; [exact Hl|]. unfold is_ascii, is_ascii_digit. intros c. lia. Qed.

Lemma pretty_number i : 0 <= i -> exists ds, string_bytes (pretty i) = ds /\ numeral is_ascii_digit ds /\ Forall (fun c => is_ascii_digit c = true) ds /\ digits_denote 10 ds = i.
Proof.
  intros Hi. assert (H : exists ds, string_bytes (pretty i) = ds /\ ds <> [] /\ Forall (fun c => is_ascii_digit c = true) ds /\ fold_left (fun acc c => acc * 10 + default 0 (to_digit 10 c)) ds 0 = i).
  { destruct i as [|p|p]; [|destruct (decimal_digits (N.pos p) "" ltac:(lia)) as (ds & Hb & H1 & H2 & H3); exists ds; rewrite app_nil_r in Hb; by split_and!|lia].
    exists [48]. split_and!; [done|done|by repeat constructor|done]. }
  destruct H as (ds & Hb & Hne & Hall & Hsum). exists ds. split_and!; [done| |done|].
  - destruct Hall as [|c ds Hc Hall]; [done|]. split; [done|]. constructor; [by left|]. eapply Forall_impl; [exact Hall|]. auto.
  - unfold digits_denote. replace (without_underscores ds) with ds; [done|]. clear -Hall. induction Hall as [|c ds Hc _ IH]; [done|]. cbn.
    destruct (Z.eqb_spec c underscore) as [->|]; [done|]. cbn. by f_equal.
Qed.

(** ** Texts and blobs *)

Lemma replace_double c l : forall fuel, (length l < fuel)%nat -> replace_loop fuel [c] [c; c] l = double c l.
Proof.
  induction l as [|d l IH]; intros [|fuel] Hf; [lia|done|lia|]. cbn [replace_loop strip_prefix]. unfold double in *. cbn [flat_map length] in *.
  rewrite Z.eqb_sym. destruct (Z.eqb_spec d c) as [->|]; cbn [app]; by rewrite IH by lia.
Qed.

Lemma string_bytes_append s t : string_bytes (s ++ t)%string = string_bytes s ++ string_bytes t.
Proof. induction s as [|a s IH]; [done|]. change (string_bytes (String a s ++ t)%string) with (ascii_code a :: string_bytes (s ++ t)%string). by rewrite IH. Qed.

(** The characters of a text between quotes. *)
Lemma quoted_chars pre l : Forall is_char (chars pre) -> Forall is_char l -> string_bytes pre = flat_map encode_utf8 (chars pre) ->
  chars (pre ++ "'" ++ of_chars l ++ "'")%string = chars pre ++ c#"'" :: l ++ [c#"'"].
Proof.
  intros Hpre Hl Hb. unfold chars at 1. rewrite !string_bytes_append, Hb. unfold of_chars at 1. rewrite string_bytes_string by by apply flat_map_encode_bytes.
  change (string_bytes "'") with (flat_map encode_utf8 [c#"'"]). rewrite <- !flat_map_app. rewrite decode_flat_map; [done|].
  assert (Hq : Forall is_char [c#"'"]) by (apply Forall_singleton; unfold is_char; lia). by rewrite !Forall_app.
Qed.

Lemma double_chars c l : Forall is_char l -> Forall is_char (double c l).
Proof. induction 1 as [|d l Hd _ IH]; [constructor|]. unfold double in *. cbn [flat_map]. apply Forall_app. split; [|done]. destruct (d =? c); by rewrite ?Forall_cons, Forall_nil. Qed.

Definition hex_pair (byte : Z) : list char := [hex_digit (byte / 16); hex_digit (byte mod 16)].

Lemma hex_pair_denotes byte : 0 <= byte <= u8_max -> is_hex_digit (hex_digit (byte / 16)) = true /\ is_hex_digit (hex_digit (byte mod 16)) = true /\ byte = digits_denote 16 (hex_pair byte).
Proof.
  intros Hb. unfold u8_max in Hb. assert (H1 : 0 <= byte / 16 < 16) by (split; [apply Z.div_pos; lia|apply Z.div_lt_upper_bound; lia]). assert (H2 : 0 <= byte mod 16 < 16) by (apply Z.mod_pos_bound; lia).
  assert (Hd : forall d, 0 <= d < 16 -> is_hex_digit (hex_digit d) = true /\ (hex_digit d =? underscore) = false /\ to_digit 16 (hex_digit d) = Some d).
  { intros d Hd. assert (d ∈ seqZ 0 16) as Hin by (apply elem_of_seqZ; lia). revert Hin. clear. revert d. apply Forall_forall. by repeat constructor. }
  destruct (Hd _ H1) as (A1 & A2 & A3), (Hd _ H2) as (B1 & B2 & B3). split_and!; [done|done|].
  unfold digits_denote, hex_pair, without_underscores. cbn [List.filter]. rewrite A2, B2. cbn [negb fold_left]. rewrite A3, B3. cbn. unfold id. pose proof (Z.div_mod byte 16). lia.
Qed.

(** ** Literals *)

(** The tokens a literal is read as. *)
Definition literal_tokens (value : Value) : option (list TokenKind) :=
  match value with
  | Null => Some [TkNull]
  | Boolean true => Some [TkTrue]
  | Boolean false => Some [TkFalse]
  | Integer i => Some (if 0 <=? i then [TkInteger i] else [TkMinus; TkInteger (- i)])
  | Blob b => Some [TkBlobLiteral b]
  | Text text => Some [TkString text]
  | Real _ => None
  end.

(** Values that come back: an integer above the least one, a text of characters. *)
Definition readable (value : Value) : Prop :=
  match value with
  | Integer i => - i64_max <= i <= i64_max
  | Blob b => is_bytes b
  | Text text => exists l, Forall is_char l /\ text = of_chars l
  | _ => True
  end.

Lemma lex_spelled kind text s : chars s = text -> spelled kind text -> Forall is_char text -> exists tokens, lex s = Ok tokens /\ map Lexer.kind tokens = [kind; TkEof].
Proof.
  intros Hs Hsp Hc. assert (Hw : written [kind] text).
  { rewrite <- (app_nil_r text). apply (written_token []); [constructor|done|by left|]. apply written_end. constructor. }
  unfold lex. rewrite Hs. apply (lex_all_written _ _ _ Hw Hc).
Qed.

Lemma minus_number i : 0 < i <= i64_max -> exists tokens, lex (pretty (- i)) = Ok tokens /\ map Lexer.kind tokens = [TkMinus; TkInteger i; TkEof].
Proof.
  intros Hi. destruct (pretty_number i ltac:(lia)) as (ds & Hb & Hn & Hall & Hd). assert (Hchars : chars (pretty (- i)) = c#"-" :: ds).
  { destruct i as [|p|p]; [lia| |lia]. unfold chars. change (pretty (- Z.pos p)) with (String "-" (pretty (Z.pos p))). cbn [string_bytes]. rewrite Hb.
    apply (ascii_decode (c#"-" :: ds)). constructor; [done|by apply digits_ascii]. }
  unfold lex. rewrite Hchars. change (lex_loop (S (length (c#"-" :: ds)))) with (fun t => lex_loop (S (length (c#"-" :: ds))) t). cbv beta.
  set (total := byte_len (c#"-" :: ds)). change (lex_loop (S (length (c#"-" :: ds))) total (c#"-" :: ds)) with (lex_all total (c#"-" :: ds)).
  assert (Hw : written [TkInteger i] ds).
  { rewrite <- (app_nil_r ds), <- Hd. apply (written_token []); [constructor|by apply sp_integer; [|lia]|by left|]. apply written_end. constructor. }
  destruct (lex_all_written total _ _ Hw) as (tokens & Hl & Hk).
  { eapply Forall_impl; [exact Hall|]. unfold is_ascii_digit, is_char. intros c. lia. }
  rewrite (lex_all_token TkMinus c#"-" ds ds), Hl; [cbn [bind]; eexists; split; [reflexivity|]; cbn; by rewrite Hk|].
  destruct Hall as [|c ds Hc Hall]; [by destruct Hn|]. assert (Hcode : 48 <= c <= 57) by (unfold is_ascii_digit in Hc; lia).
  split_and!; [done| |done|].
  - cbn. by destruct (Z.eqb_spec c 45); [lia|].
  - intros pos. unfold lex_token. cbn -[peek_is]. cbn. destruct (Z.eqb_spec c 62); [lia|done].
Qed.

(** C32: literals come back. The text [render_literal] makes of [NULL], a boolean, an integer
    above the least one, a blob or a text lexes to that literal, a negative integer to the
    sign and the number. *)
Theorem rendered_literal_lexes (value : Value) (kinds : list TokenKind) : literal_tokens value = Some kinds -> readable value ->
  exists tokens, lex (render_literal value) = Ok tokens /\ map kind tokens = kinds ++ [TkEof].
Proof.
  intros Hk Hr. destruct value as [|[]|i|r|b|t]; try done; injection Hk as <-; cbn [app].
  - eexists. split; vm_compute; reflexivity.
  - eexists. split; vm_compute; reflexivity.
  - eexists. split; vm_compute; reflexivity.
  - cbn [readable render_literal] in *. destruct (Z.leb_spec 0 i); [|destruct (minus_number (- i) ltac:(lia)) as (tokens & Hl & Hk); rewrite Z.opp_involutive in Hl; by exists tokens].
    destruct (pretty_number i ltac:(done)) as (ds & Hb & Hn & Hall & Hd). apply (lex_spelled _ ds).
    + unfold chars. rewrite Hb. by apply ascii_decode, digits_ascii.
    + rewrite <- Hd. apply sp_integer; [done|lia].
    + eapply Forall_impl; [exact Hall|]. unfold is_ascii_digit, is_char. intros c. lia.
  - set (text := map hex_pair b). assert (Hpairs : Forall2 (fun byte pair => exists h l, pair = [h; l] /\ is_hex_digit h = true /\ is_hex_digit l = true /\ byte = digits_denote 16 pair) b text).
    { unfold text. clear -Hr. induction Hr as [|byte b Hb _ IH]; [constructor|]. constructor; [|done]. destruct (hex_pair_denotes byte Hb) as (H1 & H2 & H3). by eexists _, _. }
    destruct (blob_bytes_run _ _ Hpairs) as (Hhex & _ & _). assert (Hascii : Forall (fun c => is_ascii c = true /\ 0 <= c) (concat text)).
    { eapply Forall_impl; [exact Hhex|]. intros c Hc. destruct (hex_ascii c Hc) as (? & ? & _). done. }
    assert (Hchars : Forall is_char (concat text)) by (eapply Forall_impl; [exact Hhex|]; intros c Hc; by apply hex_ascii).
    assert (Hbytes : string_bytes (sqlite_hex_bytes b) = concat text).
    { unfold sqlite_hex_bytes. rewrite string_bytes_string; [unfold text; by rewrite flat_map_concat_map|]. rewrite flat_map_concat_map. change (map _ b) with text.
      eapply Forall_impl; [exact Hascii|]. unfold is_ascii, is_u8, u8_max. intros c. lia. }
    apply (lex_spelled _ (c#"X" :: c#"'" :: concat text ++ [c#"'"])).
    + cbn [render_literal]. unfold chars. rewrite !string_bytes_append, Hbytes. apply (ascii_decode (c#"X" :: c#"'" :: concat text ++ [c#"'"])).
      by rewrite !Forall_cons, Forall_app, Forall_singleton.
    + apply sp_blob; [by right|done].
    + rewrite !Forall_cons, Forall_app, Forall_singleton. unfold is_char at 1 2 4. split_and!; (done || lia).
  - destruct Hr as (l & Hl & ->). cbn [render_literal]. rewrite chars_of_chars by done. unfold replace. rewrite replace_double by lia.
    apply (lex_spelled _ (c#"'" :: double c#"'" l ++ [c#"'"])).
    + apply (quoted_chars "" (double c#"'" l)); [constructor|by apply double_chars|done].
    + apply sp_string.
    + rewrite Forall_cons, Forall_app, Forall_singleton. split_and!; [unfold is_char; lia|by apply double_chars|unfold is_char; lia].
Qed.

Lemma rendered_literal_lexes_witness : exists tokens, lex (render_literal (Blob [202; 254])) = Ok tokens /\ map kind tokens = [TkBlobLiteral [202; 254]] ++ [TkEof].
Proof.
  apply (rendered_literal_lexes (Blob [202; 254]) [TkBlobLiteral [202; 254]]).
  - reflexivity.
  - apply (bool_decide_unpack _). vm_compute. exact I.
Defined.

(** The least integer comes back as a real. *)
Lemma least_integer_literal : lex (render_literal (Integer i64_min)) = Ok [mkToken TkMinus 0; mkToken (TkReal 4890909195324358656) 1; mkToken TkEof 20].
Proof. vm_compute. reflexivity. Qed.

(** A real that is an integer has no point and comes back as an integer. *)
Lemma real_literal_lexes : lex (render_literal (Real 4607182418800017408)) = Ok [mkToken (TkInteger 1) 0; mkToken TkEof 1].
Proof. vm_compute. reflexivity. Qed.
