(* ===== verification/SqliteWriter.v ===== *)
(** * Writing B-trees: [src/storage/sqlite3/writer.rs]

    The writer builds the pages of a table or an index bottom up: leaves, then interior
    levels until one page is left, the root. Pages are kept in a map until the file is put
    together. The four builders of [writer.rs] place their cells and write their page
    headers by the same code, which is one definition here, and so are the three builders
    of index-like trees. *)

From S2P Require Import Prelude Text Varint Types Floats Schema CheckValues CheckEval Record SqliteFile SqliteBTree.

Definition PAGE_SIZE : Z := 4096.

Record TableLeafCellData := mkTableLeafCellData { leaf_row_id : Z; leaf_payload : bytes }.
Record IndexLeafCellData := mkIndexLeafCellData { leaf_key : list Value; index_payload : bytes }.
Record TableChildPage := mkTableChildPage { table_page_no : Z; max_row_id : Z }.
Record IndexChildPage := mkIndexChildPage { index_page_no : Z; max_key : list Value }.

(** [WritableTable] *)
Record WritableTable {SelectStatement : Type} := mkWritableTable {
  table_schema : Schema SelectStatement;
  table_rows : list (RowId * Row)
}.
Arguments WritableTable : clear implicits.

(** ** Pages *)

(** [next_page_no] and [pages], which the functions pass around. *)
Record Pages := mkPages {
  next_page_no : Z;
  pages : gmap Z bytes
}.

Definition insert_page (page_no : Z) (page : bytes) : ST Pages unit :=
  let! known := st_read (fun w => pages w !! page_no) in
  st_mod (fun w => mkPages (next_page_no w) (<[page_no := page]> (pages w))) ;;!
  match known with
  | Some _ => st_err (Storage ("sqlite page " ++ pretty page_no ++ " was assigned more than once")%string)
  | None => st_ret tt
  end.

Definition allocate_page : ST Pages Z :=
  let! page_no := st_read next_page_no in
  if page_no + 1 <=? u32_max then st_mod (fun w => mkPages (page_no + 1) (pages w)) ;;! st_ret page_no
  else st_err (Storage "sqlite page number overflow").

(** ** Sizes *)

Definition leaf_min_local : Result Z :=
  let overflow := Storage "sqlite leaf min-local computation overflow" in
  let? value := ok_or (checked_sub PAGE_SIZE 12) overflow in
  let? value := ok_or (checked_mul value 32) overflow in
  ok_or (checked_sub (value / 255) 23) overflow.

Definition leaf_max_local (is_index : bool) : Result Z :=
  if is_index then
    let overflow := Storage "sqlite index max-local computation overflow" in
    let? value := ok_or (checked_sub PAGE_SIZE 12) overflow in
    let? value := ok_or (checked_mul value 64) overflow in
    ok_or (checked_sub (value / 255) 23) overflow
  else ok_or (checked_sub PAGE_SIZE 35) (Storage "sqlite table max-local computation overflow").

Definition leaf_local_payload_len (payload_len : Z) (is_index : bool) : Result Z :=
  let? max_local := leaf_max_local is_index in
  if payload_len <=? max_local then Ok payload_len
  else
    let? min_local := leaf_min_local in
    let? overflow_chunk := ok_or (checked_sub PAGE_SIZE 4) (Storage "sqlite overflow chunk size underflow") in
    let? excess := usize_sub payload_len min_local in
    let? rest := usize_rem excess overflow_chunk in
    let? local := u64_add min_local rest in
    Ok (if max_local <? local then min_local else local).

Definition index_local_payload_len (payload_len : Z) : Result Z := leaf_local_payload_len payload_len true.

(** The length of a cell: [head] bytes, the local part of the payload, and the number of
    its first overflow page if there is one. *)
Definition cell_length (head local_payload payload_len : Z) (overflow : DbError) : Result Z :=
  let? len := ok_or (checked_add head local_payload) overflow in
  if local_payload <? payload_len then ok_or (checked_add len 4) overflow else Ok len.

Definition leaf_table_cell_len (cell : TableLeafCellData) : Result Z :=
  let payload_len := Zlen (leaf_payload cell) in
  let? local_payload := leaf_local_payload_len payload_len false in
  cell_length (Zlen (encode_varint payload_len) + Zlen (encode_varint (leaf_row_id cell))) local_payload payload_len
    (Storage "sqlite table leaf cell length overflow").

Definition leaf_index_cell_len (cell : IndexLeafCellData) : Result Z :=
  let payload_len := Zlen (index_payload cell) in
  let? local_payload := index_local_payload_len payload_len in
  cell_length (Zlen (encode_varint payload_len)) local_payload payload_len (Storage "sqlite index leaf cell length overflow").

Definition interior_index_cell_len (child : IndexChildPage) : Result Z :=
  let? payload := encode_record (max_key child) in
  let? local_payload := index_local_payload_len (Zlen payload) in
  cell_length (Zlen (encode_varint (Zlen payload)) + 4) local_payload (Zlen payload) (Storage "sqlite interior index cell length overflow").

Definition interior_table_cell_len (child : TableChildPage) : Result Z := Ok (4 + Zlen (encode_varint (max_row_id child))).

(** ** Distributing cells over pages *)

Section Paginate.
Context {T : Type} (cell_len : T -> Result Z).

Definition required_size (overflow : string) (cell : T) : Result Z :=
  let? len := cell_len cell in ok_or (checked_add 2 len) (Storage overflow).

Fixpoint leaf_groups (header_size : Z) (cells : list T) (pages : list (list T)) (current : list T) (current_size : Z) : Result (list (list T)) :=
  match cells with
  | [] => Ok (pages ++ [current])
  | cell :: cells =>
      let? required := required_size "sqlite leaf page size overflow" cell in
      let full := negb (length current =? 0)%nat && (PAGE_SIZE <? current_size + required) in
      let pages := if full then pages ++ [current] else pages in
      let current := if full then [] else current in
      let current_size := if full then header_size else current_size in
      if PAGE_SIZE <? current_size + required then
        Err (Storage "sqlite writer does not support a single btree cell larger than a page")
      else leaf_groups header_size cells pages (current ++ [cell]) (current_size + required)
  end.

Definition paginate_leaf_cells (cells : list T) (header_size : Z) : Result (list (list T)) :=
  match cells with
  | [] => Ok [[]]
  | _ => leaf_groups header_size cells [] [] header_size
  end.

Fixpoint interior_groups (children : list T) (groups : list (list T)) (current : list T) (current_size : Z) : Result (list (list T)) :=
  match children with
  | [] => Ok (groups ++ [current])
  | child :: children =>
      let? previous_rightmost := ok_or (last current) (Storage "sqlite interior pagination lost its rightmost child") in
      let? required := required_size "sqlite interior page size overflow" previous_rightmost in
      if (2 <=? length current)%nat && (PAGE_SIZE <? current_size + required) then
        interior_groups children (groups ++ [current]) [child] 12
      else if PAGE_SIZE <? current_size + required then
        Err (Storage "sqlite writer does not support an interior btree cell larger than a page")
      else interior_groups children groups (current ++ [child]) (current_size + required)
  end.

Definition interior_page_size (children : list T) : Result Z :=
  match children with
  | [] => Err (Storage "sqlite interior page must have children")
  | _ =>
      let overflow := Storage "sqlite interior page size overflow" in
      fold_res (fun size child =>
          let? size := ok_or (checked_add size 2) overflow in
          match cell_len child with
          | Ok len => ok_or (checked_add size len) overflow
          | Err _ => Err overflow
          | Panic why => Panic why
          | OutOfFuel => OutOfFuel
          end)
        (take (length children - 1) children) 12
  end.

(** A last page with a single child takes one from the page before it. *)
Definition rebalance (groups : list (list T)) : Result (list (list T)) :=
  match rev groups with
  | [lone_child] :: previous_group :: others =>
      if (length previous_group <? 3)%nat then
        Err (Storage "sqlite writer could not balance interior btree children across pages")
      else
        let? moved_child := ok_or (last previous_group) (Storage "sqlite interior page rebalance underflow") in
        let rebalanced_group := [moved_child; lone_child] in
        let? rebalanced_size := interior_page_size rebalanced_group in
        if PAGE_SIZE <? rebalanced_size then
          Err (Storage "sqlite writer could not fit rebalanced interior btree children on a page")
        else Ok (rev others ++ [take (length previous_group - 1) previous_group; rebalanced_group])
  | _ => Ok groups
  end.

Definition paginate_interior_children (children : list T) : Result (list (list T)) :=
  match children with
  | [] => Err (Storage "sqlite interior page must have at least one child")
  | [child] => Ok [[child]]
  | first :: rest =>
      let? groups := interior_groups rest [] [first] 12 in
      rebalance groups
  end.
End Paginate.

Definition paginate_table_children : list TableChildPage -> Result (list (list TableChildPage)) := paginate_interior_children interior_table_cell_len.
Definition paginate_index_children : list IndexChildPage -> Result (list (list IndexChildPage)) := paginate_interior_children interior_index_cell_len.

(** ** Overflow chains *)

(** The pages of a chain, in its order: page [index] points to the next one and holds the
    bytes from [index * chunk_size] on. *)
Definition overflow_page (buf : bytes) (chunk_size : Z) (page_nos : list Z) (index : nat) : Result bytes :=
  let? start := ok_or (checked_mul (Z.of_nat index) chunk_size) (Storage "sqlite overflow payload offset overflow") in
  let end_ := Z.min (start + chunk_size) (Zlen buf) in
  let next := default 0 (page_nos !! S index) in
  let? page := copy_at (replicate (Z.to_nat PAGE_SIZE) 0) 0 (to_be 4 next) in
  let? chunk := slice_range buf start end_ in
  copy_at page 4 chunk.

Fixpoint allocate_pages (n : nat) : ST Pages (list Z) :=
  match n with
  | O => st_ret []
  | S n => let! page_no := allocate_page in let! page_nos := allocate_pages n in st_ret (page_no :: page_nos)
  end.

Definition write_overflow_chain (buf : bytes) : ST Pages Z :=
  match buf with
  | [] => st_err (Storage "sqlite overflow writer requires at least one overflow payload byte")
  | _ =>
      let! chunk_size := st_get (fun _ => ok_or (checked_sub PAGE_SIZE 4) (Storage "sqlite overflow chunk size underflow")) in
      let! total := st_get (fun _ => ok_or (checked_add (Zlen buf) (chunk_size - 1)) (Storage "sqlite overflow page count overflow")) in
      let! page_nos := allocate_pages (Z.to_nat (total / chunk_size)) in
      st_each (fun ip : nat * Z =>
        let! page := st_get (fun _ => overflow_page buf chunk_size page_nos ip.1) in
        insert_page ip.2 page) (imap pair page_nos) ;;!
      st_get (fun _ => index_at page_nos 0)
  end.

(** ** Cells *)

(** The local part of a payload, followed by the number of its first overflow page. *)
Definition render_payload (payload : bytes) (local_payload : Z) : ST Pages bytes :=
  let! local := st_get (fun _ => slice_range payload 0 local_payload) in
  if local_payload <? Zlen payload then
    let! rest := st_get (fun _ => slice_range payload local_payload (Zlen payload)) in
    let! first_overflow := write_overflow_chain rest in
    st_ret (local ++ to_be 4 first_overflow)
  else st_ret local.

Definition render_table_leaf_cell (cell : TableLeafCellData) : ST Pages bytes :=
  let payload := leaf_payload cell in
  let! local_payload := st_get (fun _ => leaf_local_payload_len (Zlen payload) false) in
  let! rendered := render_payload payload local_payload in
  st_ret (encode_varint (Zlen payload) ++ encode_varint (leaf_row_id cell) ++ rendered).

Definition render_index_leaf_cell (cell : IndexLeafCellData) : ST Pages bytes :=
  let payload := index_payload cell in
  let! local_payload := st_get (fun _ => index_local_payload_len (Zlen payload)) in
  let! rendered := render_payload payload local_payload in
  st_ret (encode_varint (Zlen payload) ++ rendered).

Definition render_interior_index_cell (child : IndexChildPage) : ST Pages bytes :=
  let! payload := st_get (fun _ => encode_record (max_key child)) in
  let! local_payload := st_get (fun _ => index_local_payload_len (Zlen payload)) in
  let! rendered := render_payload payload local_payload in
  st_ret (to_be 4 (index_page_no child) ++ encode_varint (Zlen payload) ++ rendered).

(** The cells of [build_interior_table_page] and [build_leaf_table_page]. *)
Definition render_interior_table_cell (child : TableChildPage) : ST Pages bytes :=
  st_ret (to_be 4 (table_page_no child) ++ encode_varint (max_row_id child)).

Definition render_schema_cell (cell : Z * bytes) : ST Pages bytes :=
  st_ret (encode_varint (Zlen cell.2) ++ encode_varint cell.1 ++ cell.2).

(** ** B-tree pages *)

Definition to_u16 (value : Z) (error : string) : Result Z := if value <=? u16_max then Ok value else Err (Storage error).

(** The loop that puts the cells at the end of the page, each before the one placed last. *)
Fixpoint place_cells {T} (render : T -> ST Pages bytes) (too_big : string) (required_start : Z) (cells : list T)
    (page : bytes) (content_start : Z) (pointers : list Z) : ST Pages (bytes * Z * list Z) :=
  match cells with
  | [] => st_ret (page, content_start, pointers)
  | cell :: cells =>
      let! rendered := render cell in
      if content_start <? required_start + Zlen rendered then st_err (Storage too_big)
      else
        let content_start := content_start - Zlen rendered in
        let! page := st_get (fun _ => copy_at page content_start rendered) in
        let! pointer := st_get (fun _ => to_u16 content_start "sqlite cell offset does not fit in u16") in
        place_cells render too_big required_start cells page content_start (pointers ++ [pointer])
  end.

(** The header of the page and the array of pointers to its cells. *)
Definition finish_page (kind : Z) (header_offset : Z) (rightmost : option Z) (cell_count content_start : Z) (pointers : list Z)
    (page : bytes) : Result bytes :=
  let? page := copy_at page header_offset [kind] in
  let? page := copy_at page (header_offset + 1) (to_be 2 0) in
  let? count := to_u16 cell_count "sqlite cell count does not fit in u16" in
  let? page := copy_at page (header_offset + 3) (to_be 2 count) in
  let? start := to_u16 content_start "sqlite content start does not fit in u16" in
  let? page := copy_at page (header_offset + 5) (to_be 2 start) in
  let? page := copy_at page (header_offset + 7) [0] in
  let? page := match rightmost with Some page_no => copy_at page (header_offset + 8) (to_be 4 page_no) | None => Ok page end in
  let pointer_array_start := header_offset + match rightmost with Some _ => 12 | None => 8 end in
  fold_res (fun page (ip : nat * Z) => copy_at page (pointer_array_start + Z.of_nat ip.1 * 2) (to_be 2 ip.2)) (imap pair pointers) page.

Definition build_page {T} (render : T -> ST Pages bytes) (too_big : string) (kind header_offset : Z) (rightmost : option Z) (cells : list T)
    : ST Pages bytes :=
  let pointer_array_start := header_offset + match rightmost with Some _ => 12 | None => 8 end in
  let! pointer_array_bytes := st_get (fun _ => ok_or (checked_mul (Zlen cells) 2) (Storage "sqlite cell pointer array overflow")) in
  let! required_start := st_get (fun _ => ok_or (checked_add pointer_array_start pointer_array_bytes) (Storage "sqlite page pointer area overflow")) in
  let! (page, content_start, pointers) :=
    place_cells render too_big required_start cells (replicate (Z.to_nat PAGE_SIZE) 0) PAGE_SIZE [] in
  st_get (fun _ => finish_page kind header_offset rightmost (Zlen cells) content_start pointers page).

Definition build_leaf_table_page (cells : list (Z * bytes)) (first_page : bool) : ST Pages bytes :=
  build_page render_schema_cell "sqlite writer does not support records that overflow a single leaf page" 13 (if first_page then 100 else 0) None cells.

Definition build_leaf_table_page_cells (cells : list TableLeafCellData) (first_page : bool) : ST Pages bytes :=
  build_page render_table_leaf_cell "sqlite writer does not support records that overflow a single leaf page" 13 (if first_page then 100 else 0) None cells.

Definition build_leaf_index_page_cells (cells : list IndexLeafCellData) : ST Pages bytes :=
  build_page render_index_leaf_cell "sqlite writer does not support index records that overflow a single leaf page" 10 0 None cells.

(** An interior page has a cell for every child but the last, its rightmost one. *)
Definition build_interior_page {T} (render : T -> ST Pages bytes) (page_no : T -> Z) (what : string) (kind : Z) (children : list T) : ST Pages bytes :=
  if (length children <? 2)%nat then st_err (Storage ("sqlite interior " ++ what ++ " page requires at least two children")%string)
  else
    let! rightmost := st_get (fun _ => vec_index children (length children - 1)) in
    build_page render ("sqlite writer does not support interior " ++ what ++ " pages that overflow a single page")%string kind 0
      (Some (page_no rightmost)) (take (length children - 1) children).

Definition build_interior_table_page (children : list TableChildPage) : ST Pages bytes :=
  build_interior_page render_interior_table_cell table_page_no "table" 5 children.

Definition build_interior_index_page (children : list IndexChildPage) : ST Pages bytes :=
  build_interior_page render_interior_index_cell index_page_no "index" 2 children.

(** ** Trees *)

(** The loop over the groups of a level, for the leaves and for the interior levels. *)
Fixpoint build_level {T C} (choose_page_no : ST Pages Z) (build : list T -> ST Pages bytes) (child_of : Z -> list T -> Result C)
    (groups : list (list T)) : ST Pages (list C) :=
  match groups with
  | [] => st_ret []
  | group :: groups =>
      let! page_no := choose_page_no in
      let! child := st_get (fun _ => child_of page_no group) in
      let! page := build group in
      insert_page page_no page ;;!
      let! children := build_level choose_page_no build child_of groups in
      st_ret (child :: children)
  end.

(** [while children.len() > 1 { .. }]: every page of a level has at least two children, so
    that levels get shorter. *)
Fixpoint build_interior_levels {C} (fuel : nat) (root_page : Z) (paginate : list C -> Result (list (list C)))
    (build : list C -> ST Pages bytes) (child_of : Z -> list C -> Result C) (children : list C) : ST Pages unit :=
  if (length children <=? 1)%nat then st_ret tt
  else
    match fuel with
    | O => st_fuel
    | S fuel =>
        let! groups := st_get (fun _ => paginate children) in
        let choose_page_no := if (length groups =? 1)%nat then st_ret root_page else allocate_page in
        let! parents := build_level choose_page_no build child_of groups in
        build_interior_levels fuel root_page paginate build child_of parents
    end.

(** The tree over the cells of a table or an index. *)
Definition build_btree {T C} (cell_len : T -> Result Z) (build_leaf : list T -> ST Pages bytes) (leaf_child : Z -> list T -> Result C)
    (paginate : list C -> Result (list (list C))) (build_interior : list C -> ST Pages bytes) (interior_child : Z -> list C -> Result C)
    (root_page : Z) (cells : list T) : ST Pages unit :=
  let! groups := st_get (fun _ => paginate_leaf_cells cell_len cells 8) in
  match groups with
  | [group] =>
      let! root := build_leaf group in
      insert_page root_page root
  | _ =>
      let! children := build_level allocate_page build_leaf leaf_child groups in
      build_interior_levels (length children) root_page paginate build_interior interior_child children
  end.

Definition table_leaf_child (page_no : Z) (group : list TableLeafCellData) : Result TableChildPage :=
  Ok (mkTableChildPage page_no (match last group with Some cell => leaf_row_id cell | None => 0 end)).
Definition table_interior_child (page_no : Z) (group : list TableChildPage) : Result TableChildPage :=
  let? child := ok_or (last group) (Storage "sqlite interior table page has no children") in
  Ok (mkTableChildPage page_no (max_row_id child)).

Definition index_leaf_child (what : string) (page_no : Z) (group : list IndexLeafCellData) : Result IndexChildPage :=
  let? cell := ok_or (last group) (Storage ("sqlite " ++ what ++ " leaf page has no cells")%string) in
  Ok (mkIndexChildPage page_no (leaf_key cell)).
Definition index_interior_child (what : string) (page_no : Z) (group : list IndexChildPage) : Result IndexChildPage :=
  let? child := ok_or (last group) (Storage ("sqlite " ++ what ++ " page has no children")%string) in
  Ok (mkIndexChildPage page_no (max_key child)).

Definition table_btree (root_page : Z) (cells : list TableLeafCellData) : ST Pages unit :=
  build_btree leaf_table_cell_len (fun cells => build_leaf_table_page_cells cells false) table_leaf_child
    paginate_table_children build_interior_table_page table_interior_child
    root_page (sort_by (fun a b => leaf_row_id a ?= leaf_row_id b) cells).

(** [leaf] and [interior] name the pages in errors. *)
Definition index_btree (leaf interior : string) (root_page : Z) (cells : list IndexLeafCellData) : ST Pages unit :=
  build_btree leaf_index_cell_len build_leaf_index_page_cells (index_leaf_child leaf)
    paginate_index_children build_interior_index_page (index_interior_child interior)
    root_page (sort_by (fun a b => lex_cmp value_cmp (leaf_key a) (leaf_key b)) cells).

(** ** Rows and index entries *)

Section Rows.
Context {SelectStatement : Type} `{Libm, JsonParser}.
Abbreviation Schema := (Schema SelectStatement).
Abbreviation WritableTable := (WritableTable SelectStatement).
(** [evaluate_index_term] of [index_expr.rs]: the value of a column or an expression of an
    index on a row; and the SQL parser, for the predicates of partial indexes. *)
Context (evaluate_index_term : Schema -> Row -> string -> Result Value) (parse_check_constraint_expression : string -> Result CheckExpr).

(** [values[index] = Value::Null] *)
Definition blank_alias (values : Row) (ic : nat * ColumnDef) : Result Row :=
  if is_row_id_alias ic.2 then
    if (ic.1 <? length values)%nat then Ok (<[ic.1 := Null]> values) else Panic "index out of bounds"
  else Ok values.

Definition encode_table_row_payload (schema : Schema) (row : Row) : Result bytes :=
  let? values := fold_res blank_alias (imap pair (columns schema)) row in
  encode_record values.

Definition missing_primary_key (schema : Schema) : DbError :=
  Storage ("WITHOUT ROWID table " ++ schema_name schema ++ " is missing PRIMARY KEY metadata")%string.

Definition row_column (schema : Schema) (row : Row) (column : string) : Result Value :=
  let? position := column_index schema column in
  ok_or (row !! position) (Storage ("row for table " ++ schema_name schema ++ " is missing column " ++ column)%string).

Definition encode_without_rowid_table_payload (schema : Schema) (row : Row) : Result bytes :=
  let? pk := ok_or (primary_key_constraint schema) (missing_primary_key schema) in
  let? values := mapM_res (row_column schema row) (record_order schema pk) in
  encode_record values.

Definition encode_without_rowid_index_record_values (schema : Schema) (index : IndexMeta) (row : Row) : Result (list Value) :=
  let? pk := ok_or (primary_key_constraint schema) (missing_primary_key schema) in
  let? key := mapM_res (evaluate_index_term schema row) (index_columns index) in
  let? rest := mapM_res (row_column schema row) (filter (fun column => column ∉ index_columns index) (pk_columns pk)) in
  Ok (key ++ rest).

Definition row_matches_partial_index (schema : Schema) (index : IndexMeta) (row : Row) : Result bool :=
  match predicate index with
  | None => Ok true
  | Some predicate_sql =>
      let? predicate := parse_check_constraint_expression predicate_sql in
      validate_check_expr_metadata schema predicate ;;?
      matches_check_expr schema predicate row
  end.

(** The rows an index has entries for, each with its entry. *)
Fixpoint index_cells (schema : Schema) (index : IndexMeta) (cell_of : RowId -> Row -> Result IndexLeafCellData) (rows : list (RowId * Row))
    : Result (list IndexLeafCellData) :=
  match rows with
  | [] => Ok []
  | (row_id, row) :: rows =>
      let? matches := row_matches_partial_index schema index row in
      if matches : bool then
        let? cell := cell_of row_id row in
        let? cells := index_cells schema index cell_of rows in
        Ok (cell :: cells)
      else index_cells schema index cell_of rows
  end.

Definition without_rowid_table_cell (schema : Schema) (pk : PrimaryKeyConstraint) (ir : RowId * Row) : Result IndexLeafCellData :=
  let? key := mapM_res (row_column schema ir.2) (pk_columns pk) in
  let? payload := encode_without_rowid_table_payload schema ir.2 in
  Ok (mkIndexLeafCellData key payload).

Definition build_without_rowid_table_btree (table : WritableTable) (root_page : Z) : ST Pages unit :=
  let schema := table_schema table in
  let! pk := st_get (fun _ => ok_or (primary_key_constraint schema) (missing_primary_key schema)) in
  let! cells := st_get (fun _ => mapM_res (without_rowid_table_cell schema pk) (table_rows table)) in
  index_btree "WITHOUT ROWID" "WITHOUT ROWID interior" root_page cells.

Definition table_cell (schema : Schema) (ir : RowId * Row) : Result TableLeafCellData :=
  let? payload := encode_table_row_payload schema ir.2 in
  Ok (mkTableLeafCellData ir.1 payload).

Definition build_table_btree (table : WritableTable) (root_page : Z) : ST Pages unit :=
  if without_rowid (table_schema table) then build_without_rowid_table_btree table root_page
  else
    let! cells := st_get (fun _ => mapM_res (table_cell (table_schema table)) (table_rows table)) in
    table_btree root_page cells.

Definition without_rowid_index_cell (schema : Schema) (index : IndexMeta) (_ : RowId) (row : Row) : Result IndexLeafCellData :=
  let? values := encode_without_rowid_index_record_values schema index row in
  let? payload := encode_record values in
  Ok (mkIndexLeafCellData values payload).

Definition build_without_rowid_index_btree (table : WritableTable) (index : IndexMeta) (root_page : Z) : ST Pages unit :=
  let schema := table_schema table in
  let! cells := st_get (fun _ => index_cells schema index (without_rowid_index_cell schema index) (table_rows table)) in
  index_btree "WITHOUT ROWID index" "WITHOUT ROWID index interior" root_page cells.

Definition index_cell (schema : Schema) (index : IndexMeta) (row_id : RowId) (row : Row) : Result IndexLeafCellData :=
  let? key := mapM_res (evaluate_index_term schema row) (index_columns index) in
  let? values := (if row_id <=? i64_max then Ok (key ++ [Integer row_id]) else Err (Storage "sqlite rowid does not fit in i64")) in
  let? payload := encode_record values in
  Ok (mkIndexLeafCellData values payload).

Definition build_index_btree (table : WritableTable) (index : IndexMeta) (root_page : Z) : ST Pages unit :=
  let schema := table_schema table in
  if without_rowid schema then build_without_rowid_index_btree table index root_page
  else
    let! cells := st_get (fun _ => index_cells schema index (index_cell schema index) (table_rows table)) in
    index_btree "index" "interior index" root_page cells.
End Rows.
