(* ===== verification/SqliteDatabase.v ===== *)
(** * Writing a database file: [write_database] of [src/storage/sqlite3/writer.rs]

    The file is put together from the trees of its tables and indexes, whose root pages are
    set aside first, and the schema table on page 1. What [fs::write] is given is the
    result. *)

From S2P Require Import Prelude Text Varint Types Floats Schema CheckValues CheckEval Record SqliteFile SqliteBTree SqliteRender SqliteWriter.

Definition SQLITE_VERSION_NUMBER : Z := 3046000.

Record WritableSchemaObject := mkWritableSchemaObject {
  object_entry_type : string;
  object_name : string;
  object_table_name : string;
  object_root_page : Z;
  object_sql : option string
}.

Record WritableDatabase {SelectStatement : Type} := mkWritableDatabase {
  tables : gmap string (WritableTable SelectStatement);
  indexes : gmap string (gmap string IndexMeta);
  extra_schema_objects : list WritableSchemaObject;
  sqlite_sequence : gmap string Z;
  sqlite_sequence_exists : bool;
  contains_without_rowid_tables : bool;
  user_version : Z;
  application_id : Z;
  schema_version : Z
}.
Arguments WritableDatabase : clear implicits.

(** [Schema::new] and [ColumnDef::new] *)
Definition new_schema {SelectStatement : Type} (name : string) (columns : list ColumnDef) : Schema SelectStatement :=
  mkSchema _ name columns ObjTable None None None [] [] None [] [] false false.
Definition new_column (name : string) (type : ColumnType) : ColumnDef :=
  mkColumnDef name type (match type with CtAny => None | _ => Some (column_type_name type) end) None true None None false None None None
    false None None false None None false false false [] None.

(** A [BTreeMap] collected from pairs: of equal keys the last one stays. *)
Definition collect_map {K A} `{Countable K} (l : list (K * A)) : gmap K A := fold_left (fun m ka => <[ka.1 := ka.2]> m) l ∅.

Definition to_u32 (value : Z) : Result Z := if value <=? u32_max then Ok value else Err (Storage "sqlite page number overflow").

Section Database.
Context {SelectStatement : Type} `{Libm, JsonParser}.
Abbreviation Schema := (Schema SelectStatement).
Abbreviation WritableTable := (WritableTable SelectStatement).
Abbreviation WritableDatabase := (WritableDatabase SelectStatement).
Context (evaluate_index_term : Schema -> Row -> string -> Result Value) (parse_check_constraint_expression : string -> Result CheckExpr).

Definition schema_is_view (schema : Schema) : bool := match object_type schema with ObjView => true | ObjTable => false end.

Definition is_synthesized_without_rowid_primary_key_index (schema : Schema) (index : IndexMeta) (table_name : string) : bool :=
  without_rowid schema && String.eqb (index_name index) ("sqlite_autoindex_" ++ table_name ++ "_1") &&
  match primary_key_constraint schema with Some primary_key => bool_decide (pk_columns primary_key = index_columns index) | None => false end.

(** The indexes that have pages: their table, their name and their definition. *)
Definition table_physical_indexes (database : WritableDatabase) (ti : string * gmap string IndexMeta) : Result (list (string * string * IndexMeta)) :=
  let? table := ok_or (tables database !! ti.1) (Storage ("missing table " ++ ti.1 ++ " for indexed metadata")) in
  if schema_is_view (table_schema table) then Ok []
  else Ok (map (fun ni => (ti.1, ni.1, ni.2))
             (filter (fun ni : string * IndexMeta => is_synthesized_without_rowid_primary_key_index (table_schema table) ni.2 ti.1 = false)
                (sorted_by_name ti.2))).

Definition collect_physical_indexes (database : WritableDatabase) : Result (list (string * string * IndexMeta)) :=
  let? found := mapM_res (table_physical_indexes database) (sorted_by_name (indexes database)) in
  Ok (concat found).

(** ** The schema table *)

Definition missing_table_root (table : string) : DbError := Storage ("missing root page for table " ++ table).
Definition missing_index_root (index table : string) : DbError := Storage ("missing root page for index " ++ index ++ " on table " ++ table).

Definition table_schema_cell (table_root_pages : gmap string Z) (it : nat * (string * WritableTable)) : Result (Z * bytes) :=
  let '(i, (table_name, table)) := it in
  let? root_page := if schema_is_view (table_schema table) then Ok 0 else ok_or (table_root_pages !! table_name) (missing_table_root table_name) in
  let object_type := if schema_is_view (table_schema table) then "view" else "table" in
  let create_sql := default (render_create_table (table_schema table)) (create_sql (table_schema table)) in
  let? payload := encode_record [Text object_type; Text table_name; Text table_name; Integer root_page; Text create_sql] in
  Ok (Z.of_nat i + 1, payload).

Definition index_schema_cell (base : Z) (index_root_pages : gmap (string * string) Z) (it : nat * (string * string * IndexMeta)) : Result (Z * bytes) :=
  let '(offset, (table_name, index_name, index)) := it in
  let? root_page := ok_or (index_root_pages !! (table_name, index_name)) (missing_index_root index_name table_name) in
  let sql_value := if String.prefix "sqlite_autoindex_" index_name then Null else Text (render_create_index table_name index) in
  let? payload := encode_record [Text "index"; Text index_name; Text table_name; Integer root_page; sql_value] in
  Ok (base + Z.of_nat offset + 1, payload).

(** [row_id = cells.len() + 1] *)
Definition push_schema_cell (cells : list (Z * bytes)) (values : list Value) : Result (list (Z * bytes)) :=
  let? payload := encode_record values in
  Ok (cells ++ [(Zlen cells + 1, payload)]).

Definition object_values (object : WritableSchemaObject) : list Value :=
  [Text (object_entry_type object); Text (object_name object); Text (object_table_name object); Integer (object_root_page object);
   match object_sql object with Some sql => Text sql | None => Null end].

Definition schema_cells (database : WritableDatabase) (table_root_pages : gmap string Z) (index_root_pages : gmap (string * string) Z)
    : Result (list (Z * bytes)) :=
  let? table_cells := mapM_res (table_schema_cell table_root_pages) (imap pair (sorted_by_name (tables database))) in
  let? physical := collect_physical_indexes database in
  let? index_cells := mapM_res (index_schema_cell (Z.of_nat (size (tables database))) index_root_pages) (imap pair physical) in
  let? cells := fold_res (fun cells object => push_schema_cell cells (object_values object)) (extra_schema_objects database) (table_cells ++ index_cells) in
  if sqlite_sequence_exists database then
    let? root_page := ok_or (table_root_pages !! "sqlite_sequence"%string) (Storage "missing root page for sqlite_sequence") in
    push_schema_cell cells [Text "table"; Text "sqlite_sequence"; Text "sqlite_sequence"; Integer root_page; Text "CREATE TABLE sqlite_sequence(name,seq)"]
  else Ok cells.

Definition build_sqlite_schema_page (database : WritableDatabase) (table_root_pages : gmap string Z) (index_root_pages : gmap (string * string) Z)
    : ST Pages bytes :=
  let! cells := st_get (fun _ => schema_cells database table_root_pages index_root_pages) in
  build_leaf_table_page cells true.

Definition sequence_row (it : nat * (string * Z)) : Result (RowId * Row) :=
  let '(i, (name, seq)) := it in
  if seq <=? i64_max then Ok (Z.of_nat i + 1, [Text name; Integer seq]) else Err (Storage "sqlite_sequence seq does not fit in i64").

Definition sequence_schema : Schema := new_schema "sqlite_sequence" [new_column "name" CtText; new_column "seq" CtInteger].

Definition build_sqlite_sequence_table (database : WritableDatabase) : Result WritableTable :=
  let? rows := mapM_res sequence_row (imap pair (sorted_by_name (sqlite_sequence database))) in
  Ok (mkWritableTable _ sequence_schema rows).

(** ** The file *)

(** The writes of [write_database_header], as offsets and bytes. *)
Definition header_fields (page_count change_counter schema_version user_version application_id : Z) : list (Z * bytes) :=
  [(0, sqlite_magic); (16, to_be 2 PAGE_SIZE); (18, [1]); (19, [1]); (20, [0]); (21, [64]); (22, [32]); (23, [32]);
   (24, to_be 4 change_counter); (28, to_be 4 page_count); (32, to_be 4 0); (36, to_be 4 0); (40, to_be 4 schema_version); (44, to_be 4 4);
   (48, to_be 4 0); (52, to_be 4 0); (56, to_be 4 1); (60, to_be 4 user_version); (64, to_be 4 0); (68, to_be 4 application_id);
   (72, replicate 20 0); (92, to_be 4 change_counter); (96, to_be 4 SQLITE_VERSION_NUMBER)].

Definition write_database_header (page : bytes) (page_count change_counter schema_version user_version application_id : Z) : Result bytes :=
  fold_res (fun page ob => copy_at page ob.1 ob.2) (header_fields page_count change_counter schema_version user_version application_id) page.

Definition file_page (database : WritableDatabase) (page_count : Z) (pages : gmap Z bytes) (page_no : Z) : Result bytes :=
  let? page := ok_or (pages !! page_no) (Storage ("missing sqlite page " ++ pretty page_no ++ " during file assembly")) in
  if page_no =? 1 then write_database_header page page_count 1 (schema_version database) (user_version database) (application_id database)
  else Ok page.

Definition table_names (database : WritableDatabase) : list string :=
  map fst (filter (fun nt : string * WritableTable => schema_is_view (table_schema nt.2) = false) (sorted_by_name (tables database)))
  ++ (if sqlite_sequence_exists database then ["sqlite_sequence"] else []).

Definition assign_roots {K} `{Countable K} (first : Z) (keys : list K) : Result (gmap K Z) :=
  let? assigned := mapM_res (fun ik : nat * K => let? page_no := to_u32 (Z.of_nat ik.1 + first) in Ok (ik.2, page_no)) (imap pair keys) in
  Ok (collect_map assigned).

Definition build_tables (database : WritableDatabase) (table_root_pages : gmap string Z) : ST Pages unit :=
  st_each (fun nt : string * WritableTable =>
      if schema_is_view (table_schema nt.2) then st_ret tt
      else
        let! root_page := st_get (fun _ => ok_or (table_root_pages !! nt.1) (missing_table_root nt.1)) in
        build_table_btree nt.2 root_page)
    (sorted_by_name (tables database)).

Definition build_sequence (database : WritableDatabase) (table_root_pages : gmap string Z) : ST Pages unit :=
  if sqlite_sequence_exists database then
    let! root_page := st_get (fun _ => ok_or (table_root_pages !! "sqlite_sequence"%string) (Storage "missing root page for sqlite_sequence")) in
    let! table := st_get (fun _ => build_sqlite_sequence_table database) in
    build_table_btree table root_page
  else st_ret tt.

Definition build_indexes (database : WritableDatabase) (index_root_pages : gmap (string * string) Z) (physical : list (string * string * IndexMeta))
    : ST Pages unit :=
  st_each (fun tni : string * string * IndexMeta =>
      let '(table_name, index_name, index) := tni in
      let! root_page := st_get (fun _ => ok_or (index_root_pages !! (table_name, index_name)) (missing_index_root index_name table_name)) in
      let! table := st_get (fun _ => ok_or (tables database !! table_name) (Storage ("missing table " ++ table_name ++ " for index " ++ index_name))) in
      build_index_btree evaluate_index_term parse_check_constraint_expression table index root_page)
    physical.

(** The trees and the schema page. *)
Definition build_pages (database : WritableDatabase) (table_root_pages : gmap string Z) (index_root_pages : gmap (string * string) Z)
    (physical : list (string * string * IndexMeta)) : ST Pages unit :=
  build_tables database table_root_pages ;;!
  build_sequence database table_root_pages ;;!
  build_indexes database index_root_pages physical ;;!
  let! page := build_sqlite_schema_page database table_root_pages index_root_pages in
  insert_page 1 page.

(** [write_database]: the bytes of the file. *)
Definition write_database (database : WritableDatabase) : Result bytes :=
  let names := table_names database in
  let? table_root_pages := assign_roots 2 names in
  let? physical := collect_physical_indexes database in
  let? index_root_pages := assign_roots (Zlen names + 2) (map fst physical) in
  let physical_table_count := Zlen (filter (fun nt : string * WritableTable => schema_is_view (table_schema nt.2) = false) (map_to_list (tables database))) in
  let overflow := Storage "sqlite reserved root page count overflow" in
  let? reserved := ok_or (checked_add physical_table_count (if sqlite_sequence_exists database then 1 else 0)) overflow in
  let? reserved := ok_or (checked_add reserved (Z.of_nat (size index_root_pages))) overflow in
  let? next_page_no := to_u32 (reserved + 2) in
  match build_pages database table_root_pages index_root_pages physical (mkPages next_page_no ∅) with
  | (Ok _, w) =>
      let? page_count := ok_or (checked_sub (SqliteWriter.next_page_no w) 1) (Storage "sqlite page count underflow") in
      let? file := mapM_res (file_page database page_count (pages w)) (seqZ 1 page_count) in
      Ok (concat file)
  | (Err e, _) => Err e
  | (Panic why, _) => Panic why
  | (OutOfFuel, _) => OutOfFuel
  end.
End Database.
