(* ===== verification/SqliteChains.v ===== *)
(** * Pages as they are written and read

    What the page builders of [SqliteWriter] leave on a page, and what the readers of
    [SqliteBTree] find there: a header, and the cells at the offsets of the pointers. *)

From S2P Require Import Prelude Text Varint Types Record SqliteFile SqliteBTree SqliteWriter.



(** ** Calls of the writer *)

(** The one thing that can go wrong with good arguments: there are no page numbers left. *)
Definition number_overflow : DbError := Storage "sqlite page number overflow".

Definition builds {A} (m : ST Pages A) (w : Pages) (Q : A -> Pages -> Prop) : Prop :=
  match m w with
  | (Ok a, w') => Q a w'
  | (Err e, _) => e = number_overflow
  | _ => False
  end.

(** A call that adds pages: one for every number it took from the counter. *)
Record grows (w w' : Pages) : Prop := {
  g_next : next_page_no w <= next_page_no w';
  g_old : pages w ⊆ pages w';
  g_new : forall k, is_Some (pages w' !! k) -> is_Some (pages w !! k) \/ next_page_no w <= k < next_page_no w';
  g_full : forall k, next_page_no w <= k < next_page_no w' -> is_Some (pages w' !! k)
}.

(** The counter is above the pages there are, all numbers fit in four bytes, and all pages
    have their size. *)
Record pages_ok (w : Pages) : Prop := {
  po_next : 2 <= next_page_no w <= u32_max;
  po_below : forall k, is_Some (pages w !! k) -> k < next_page_no w;
  po_size : forall k page, pages w !! k = Some page -> Zlen page = PAGE_SIZE
}.

Lemma grows_refl w : grows w w.
Proof. split; [lia|done|tauto|lia]. Qed.

Lemma grows_trans w1 w2 w3 : grows w1 w2 -> grows w2 w3 -> grows w1 w3.
Proof.
  intros [A1 A2 A3 A4] [B1 B2 B3 B4]. split; [lia|by transitivity (pages w2)| |].
  - intros k Hk. destruct (B3 k Hk) as [Hk2|]; [|right; lia]. destruct (A3 k Hk2); [tauto|right; lia].
  - intros k Hk. destruct (decide (k < next_page_no w2)); [|apply B4; lia]. destruct (A4 k ltac:(lia)) as [page Hp]. exists page. by eapply lookup_weaken.
Qed.

Lemma builds_ret {A} (a : A) w (Q : A -> Pages -> Prop) : Q a w -> builds (st_ret a) w Q.
Proof. done. Qed.

Lemma builds_bind {A B} (m : ST Pages A) (k : A -> ST Pages B) w (Q : A -> Pages -> Prop) (R : B -> Pages -> Prop) :
  builds m w Q -> (forall a w', Q a w' -> builds (k a) w' R) -> builds (st_bind m k) w R.
Proof.
  unfold builds, st_bind. destruct (m w) as [[a| | |] w']; [|done..]. intros HQ Hk. by apply Hk.
Qed.

Lemma builds_get {A B} (r : Result A) a (k : A -> ST Pages B) w R : r = Ok a -> builds (k a) w R -> builds (st_bind (st_get (fun _ => r)) k) w R.
Proof. intros ->. done. Qed.

Lemma builds_weaken {A} (m : ST Pages A) w (Q R : A -> Pages -> Prop) : builds m w Q -> (forall a w', Q a w' -> R a w') -> builds m w R.
Proof. unfold builds. destruct (m w) as [[a| | |] w']; auto. Qed.

Lemma builds_run {A} (m : ST Pages A) w (Q : A -> Pages -> Prop) a w' : builds m w Q -> m w = (Ok a, w') -> Q a w'.
Proof. unfold builds. intros H Hm. by rewrite Hm in H. Qed.

Lemma allocate_page_builds w : pages_ok w ->
  builds allocate_page w (fun p w' => p = next_page_no w /\ next_page_no w' = p + 1 /\ pages w' = pages w /\ pages_ok w').
Proof.
  intros [Hn Hb Hs]. unfold builds, allocate_page, st_bind, st_read, st_mod, st_ret, st_err. destruct (Z.leb_spec (next_page_no w + 1) u32_max); [|done].
  cbn. split_and!; try done; split; cbn; try done; try lia; try tauto. intros k Hk. specialize (Hb k Hk). lia.
Qed.

Lemma insert_page_builds p page w : pages_ok w -> pages w !! p = None -> p < next_page_no w -> Zlen page = PAGE_SIZE ->
  builds (insert_page p page) w (fun _ w' => next_page_no w' = next_page_no w /\ pages w' = <[p := page]> (pages w) /\ pages_ok w').
Proof.
  intros [Hn Hb Hs] Hp Hlt Hsize. unfold builds, insert_page, st_bind, st_read, st_mod, st_ret. rewrite Hp. split_and!; [done..|].
  split; [done|cbn; intros k Hk|cbn; intros k page' Hk]; (destruct (decide (k = p)) as [->|Hne]; [|rewrite lookup_insert_ne in Hk by done]).
  - done.
  - by apply Hb.
  - rewrite lookup_insert_eq in Hk. by injection Hk as <-.
  - by eapply Hs.
Qed.

(** ** Writing in the middle of a page *)

Lemma copy_at_mid {A} (l1 l2 l3 src : list A) a :
  Zlen l1 = a -> length l2 = length src -> copy_at (l1 ++ l2 ++ l3) a src = Ok (l1 ++ src ++ l3).
Proof.
  intros <- Hl. unfold copy_at. rewrite bool_decide_true by (rewrite !Zlen_app; unfold Zlen; lia). do 2 f_equal.
  - rewrite take_app_le, take_ge; unfold Zlen; [done|lia..].
  - f_equal. rewrite app_assoc, drop_app_le, drop_ge; rewrite ?length_app; unfold Zlen; done || lia.
Qed.

Lemma copy_at_front {A} (l2 l3 src : list A) : length l2 = length src -> copy_at (l2 ++ l3) 0 src = Ok (src ++ l3).
Proof. by apply (copy_at_mid []). Qed.

Lemma get_range_at (l1 l2 l3 : bytes) a b : Zlen l1 = a -> Zlen l1 + Zlen l2 = b -> get_range (l1 ++ l2 ++ l3) a b = Some l2.
Proof. intros <- <-. by apply get_range_app_mid. Qed.

Lemma get_bytes_at (l1 l2 l3 : bytes) a n : length l1 = a -> length l2 = n -> get_bytes (l1 ++ l2 ++ l3) a n = l2.
Proof. intros <- <-. unfold get_bytes. rewrite drop_app_length. apply take_app_length. Qed.

Lemma be_at_at (l1 l2 l3 : bytes) a n : length l1 = a -> length l2 = n -> be_at (l1 ++ l2 ++ l3) a n = from_be l2.
Proof. intros. unfold be_at. by rewrite get_bytes_at. Qed.

Lemma Zlen_replicate {A} n (x : A) : Zlen (replicate n x) = Z.of_nat n.
Proof. unfold Zlen. by rewrite length_replicate. Qed.
Lemma Zlen_to_be n v : Zlen (to_be n v) = Z.of_nat n.
Proof. unfold Zlen. by rewrite length_to_be. Qed.
Lemma Zlen_nil {A} : Zlen (@nil A) = 0.
Proof. done. Qed.
Lemma Zlen_map {A B} (f : A -> B) l : Zlen (map f l) = Zlen l.
Proof. unfold Zlen. by rewrite length_map. Qed.
Lemma replicate_0_bytes n : is_bytes (replicate n 0).
Proof. apply Forall_replicate. by_compute. Qed.

Create Rewrite HintDb zlen.
#[export] Hint Rewrite @Zlen_app @Zlen_cons @Zlen_replicate Zlen_to_be @Zlen_nil @Zlen_map : zlen.
Ltac zlen := autorewrite with zlen in *; unfold PAGE_SIZE in *; try lia.

(** ** Cells at the end of a page *)

Definition total (rs : list bytes) : Z := Zlen (concat rs).

Lemma total_cons r rs : total (r :: rs) = Zlen r + total rs.
Proof. unfold total. cbn. apply Zlen_app. Qed.
Lemma total_nonneg rs : 0 <= total rs.
Proof. apply Zlen_nonneg. Qed.

Lemma Zlen_concat_rev rs : Zlen (concat (rev rs)) = total rs.
Proof.
  induction rs as [|r rs IH]; [done|]. cbn [rev]. rewrite concat_app, Zlen_app, IH, total_cons. cbn [concat]. rewrite app_nil_r. lia.
Qed.

(** The offsets of the cells of a page that is filled down from [k]. *)
Fixpoint starts (k : Z) (rs : list bytes) : list Z :=
  match rs with [] => [] | r :: rs => (k - Zlen r) :: starts (k - Zlen r) rs end.

Lemma length_starts k rs : length (starts k rs) = length rs.
Proof. revert k. induction rs; intros; cbn; congruence. Qed.

Lemma Zlen_starts k rs : Zlen (starts k rs) = Zlen rs.
Proof. unfold Zlen. by rewrite length_starts. Qed.

Lemma starts_range k rs : Forall (fun o => k - total rs <= o <= k) (starts k rs).
Proof.
  revert k. induction rs as [|r rs IH]; intros k; cbn [starts]; [constructor|]. rewrite total_cons.
  pose proof (total_nonneg rs). pose proof (Zlen_nonneg r). constructor; [lia|]. eapply Forall_impl; [apply IH|]. cbn. lia.
Qed.

Lemma to_u16_Ok v e : v <= u16_max -> to_u16 v e = Ok v.
Proof. intros Hv. unfold to_u16. by rewrite (proj2 (Z.leb_le _ _)). Qed.

(** ** The header of a page *)

Definition page_head (kind count start : Z) (rightmost : option Z) : bytes :=
  [kind] ++ to_be 2 0 ++ to_be 2 count ++ to_be 2 start ++ [0] ++ match rightmost with Some p => to_be 4 p | None => [] end.

Definition head_size (rightmost : option Z) : Z := match rightmost with Some _ => 12 | None => 8 end.

Lemma Zlen_page_head kind count start rightmost : Zlen (page_head kind count start rightmost) = head_size rightmost.
Proof. unfold page_head, head_size. destruct rightmost; zlen. Qed.

Definition pointer_bytes (pointers : list Z) : bytes := flat_map (to_be 2) pointers.

Lemma Zlen_pointer_bytes pointers : Zlen (pointer_bytes pointers) = 2 * Zlen pointers.
Proof. induction pointers as [|p ps IH]; [done|]. cbn [pointer_bytes flat_map]. fold (pointer_bytes ps). zlen. Qed.

Lemma write_pointers base : forall pointers pre i rest,
  Zlen pre = base + 2 * Z.of_nat i ->
  fold_res (fun page (ip : nat * Z) => copy_at page (base + Z.of_nat ip.1 * 2) (to_be 2 ip.2)) (imap (fun j => pair (i + j)%nat) pointers)
    (pre ++ replicate (Z.to_nat (2 * Zlen pointers)) 0 ++ rest) = Ok (pre ++ pointer_bytes pointers ++ rest).
Proof.
  induction pointers as [|p pointers IH]; intros pre i rest Hpre; [done|]. cbn [imap fold_res pointer_bytes flat_map].
  replace (Z.to_nat (2 * Zlen (p :: pointers))) with (2 + Z.to_nat (2 * Zlen pointers))%nat by (zlen; pose proof (Zlen_nonneg pointers); lia).
  rewrite replicate_add, <- app_assoc, copy_at_mid; [|cbn; lia|by rewrite length_to_be]. cbn [bind].
  specialize (IH (pre ++ to_be 2 p) (S i) rest). rewrite <- !app_assoc in IH. unfold compose.
  rewrite (imap_ext _ (fun j => pair (S i + j)%nat)); [|intros; f_equal; lia]. cbn [snd].
  rewrite IH; [by rewrite <- app_assoc|zlen].
Qed.

Lemma write_all_pointers base pointers pre rest : Zlen pre = base ->
  fold_res (fun page (ip : nat * Z) => copy_at page (base + Z.of_nat ip.1 * 2) (to_be 2 ip.2)) (imap pair pointers)
    (pre ++ replicate (Z.to_nat (2 * Zlen pointers)) 0 ++ rest) = Ok (pre ++ pointer_bytes pointers ++ rest).
Proof. intros Hpre. apply (write_pointers base pointers pre 0 rest). lia. Qed.

Lemma finish_page_run kind h rightmost count start pointers pre rest :
  Zlen pre = h -> 0 <= count <= u16_max -> 0 <= start <= u16_max ->
  finish_page kind h rightmost count start pointers
    (pre ++ replicate (Z.to_nat (head_size rightmost)) 0 ++ replicate (Z.to_nat (2 * Zlen pointers)) 0 ++ rest) =
  Ok (pre ++ page_head kind count start rightmost ++ pointer_bytes pointers ++ rest).
Proof.
  intros Hh Hc Hs. unfold finish_page, page_head.
  set (tl := replicate (Z.to_nat (2 * Zlen pointers)) 0 ++ rest).
  assert (Hz : replicate (Z.to_nat (head_size rightmost)) 0 ++ tl = [0] ++ [0;0] ++ [0;0] ++ [0;0] ++ [0] ++
    match rightmost with Some _ => [0;0;0;0] | None => [] end ++ tl) by (by destruct rightmost). rewrite Hz.
  rewrite copy_at_mid by done. cbn [bind]. rewrite (app_assoc pre), copy_at_mid by (zlen || by rewrite length_to_be). cbn [bind].
  rewrite to_u16_Ok by lia. cbn [bind]. rewrite (app_assoc (pre ++ [kind])), copy_at_mid by (zlen || by rewrite length_to_be). cbn [bind].
  rewrite to_u16_Ok by lia. cbn [bind]. rewrite (app_assoc ((pre ++ [kind]) ++ _)), copy_at_mid by (zlen || by rewrite length_to_be). cbn [bind].
  rewrite (app_assoc (((pre ++ [kind]) ++ _) ++ _)), copy_at_mid by (zlen || done). cbn [bind].
  destruct rightmost as [p|].
  - rewrite (app_assoc _ [0]), copy_at_mid by (zlen || by rewrite length_to_be). cbn [bind]. rewrite app_assoc.
    unfold tl. rewrite write_all_pointers by zlen. by rewrite <- !app_assoc.
  - cbn [bind]. rewrite app_nil_l, app_nil_r. unfold tl. rewrite (app_assoc _ [0]), write_all_pointers by zlen. by rewrite <- !app_assoc.
Qed.

(** ** A page with cells *)

Definition kind_of (t : PageType) : Z := match t with InteriorIndex => 2 | InteriorTable => 5 | LeafIndex => 10 | LeafTable => 13 end.
Lemma page_type_of_kind t : page_type_of (kind_of t) = Ok t.
Proof. by destruct t. Qed.

(** What the readers find on a page: its header, and its cells where the pointers say. *)
Definition page_cells (page : bytes) (first_page : bool) (type : PageType) (rightmost : option Z) (rs : list bytes) : Prop :=
  exists header offsets, decode_page_header page first_page = Ok header /\
    page_type header = type /\ rightmost_pointer header = rightmost /\
    (forall e, offsets_from (Z.to_nat (cell_count header)) page (pointer_array_offset header first_page) 0 e = Ok offsets) /\
    Forall2 (fun offset r => 0 <= offset <= u16_max /\ exists pre post, page = pre ++ r ++ post /\ Zlen pre = offset) offsets rs.

Lemma read_pointers base e rest : forall pointers pre i,
  Zlen pre = base + 2 * i -> Forall (fun p => 0 <= p <= u16_max) pointers ->
  offsets_from (length pointers) (pre ++ pointer_bytes pointers ++ rest) base i e = Ok pointers.
Proof.
  induction pointers as [|p pointers IH]; intros pre i Hpre Hp; [done|]. apply Forall_cons in Hp as [Hp Hps].
  cbn [length offsets_from pointer_bytes flat_map]. fold (pointer_bytes pointers). rewrite <- app_assoc.
  rewrite (get_range_at pre (to_be 2 p)) by zlen. cbn [ok_or bind]. rewrite from_be_to_be_small by (unfold u16_max in *; lia).
  specialize (IH (pre ++ to_be 2 p) (i + 1)). rewrite <- app_assoc in IH. rewrite IH; [done|zlen|done].
Qed.

Lemma cells_at : forall rs k front tail, Zlen front + total rs = k ->
  Forall2 (fun offset r => exists pre post, front ++ concat (rev rs) ++ tail = pre ++ r ++ post /\ Zlen pre = offset) (starts k rs) rs.
Proof.
  induction rs as [|r rs IH]; intros k front tail Hk; cbn [starts]; [constructor|]. rewrite total_cons in Hk.
  assert (Hc : front ++ concat (rev (r :: rs)) ++ tail = front ++ concat (rev rs) ++ r ++ tail).
  { cbn [rev]. rewrite concat_app. cbn [concat]. by rewrite app_nil_r, <- app_assoc. }
  rewrite Hc. constructor; [|apply IH; lia]. exists (front ++ concat (rev rs)), tail. split; [by rewrite <- app_assoc|].
  rewrite Zlen_app, Zlen_concat_rev. lia.
Qed.

Lemma be_at_in pre h1 mid h2 post : be_at (pre ++ (h1 ++ mid ++ h2) ++ post) (length pre + length h1) (length mid) = from_be mid.
Proof. replace (pre ++ (h1 ++ mid ++ h2) ++ post) with ((pre ++ h1) ++ mid ++ h2 ++ post) by (by rewrite <- !app_assoc). apply be_at_at; len. Qed.

Lemma head_bytes page pre post kind count start rightmost (first_page : bool) :
  page = pre ++ page_head kind count start rightmost ++ post -> length pre = (if first_page then 100%nat else O) ->
  let offset := if first_page then 100%nat else O in
  be_at page offset 1 = kind /\ be_at page (offset + 1) 2 = from_be (to_be 2 0) /\ be_at page (offset + 3) 2 = from_be (to_be 2 count) /\
  be_at page (offset + 5) 2 = from_be (to_be 2 start) /\ be_at page (offset + 7) 1 = 0 /\
  forall p, rightmost = Some p -> be_at page (offset + 8) 4 = from_be (to_be 4 p).
Proof.
  intros -> Hl offset. subst offset. rewrite <- Hl. set (right := match rightmost with Some p => to_be 4 p | None => [] end).
  split_and!.
  - rewrite <- (Nat.add_0_r (length pre)). etransitivity; [exact (be_at_in pre [] [kind] (to_be 2 0 ++ to_be 2 count ++ to_be 2 start ++ [0] ++ right) post)|]. cbn. lia.
  - exact (be_at_in pre [kind] (to_be 2 0) (to_be 2 count ++ to_be 2 start ++ [0] ++ right) post).
  - exact (be_at_in pre ([kind] ++ to_be 2 0) (to_be 2 count) (to_be 2 start ++ [0] ++ right) post).
  - exact (be_at_in pre ([kind] ++ to_be 2 0 ++ to_be 2 count) (to_be 2 start) ([0] ++ right) post).
  - exact (be_at_in pre ([kind] ++ to_be 2 0 ++ to_be 2 count ++ to_be 2 start) [0] right post).
  - intros p Hp. unfold page_head. rewrite Hp. rewrite <- (app_nil_r (to_be 4 p)).
    exact (be_at_in pre ([kind] ++ to_be 2 0 ++ to_be 2 count ++ to_be 2 start ++ [0]) (to_be 4 p) [] post).
Qed.

Definition front_size (first_page : bool) : Z := if first_page then 100 else 0.

Lemma written_page type first_page rightmost rs pre gap page :
  Zlen pre = front_size first_page -> (is_interior type = true <-> is_Some rightmost) -> (forall p, rightmost = Some p -> is_u32 p) ->
  page = pre ++ page_head (kind_of type) (Zlen rs) (PAGE_SIZE - total rs) rightmost ++ pointer_bytes (starts PAGE_SIZE rs) ++ gap ++ concat (rev rs) ->
  Zlen page = PAGE_SIZE -> page_cells page first_page type rightmost rs.
Proof.
  intros Hpre Hint Hright Hpage Hlen.
  assert (Hsize : front_size first_page + head_size rightmost + 2 * Zlen rs + Zlen gap + total rs = PAGE_SIZE).
  { rewrite <- Hlen, Hpage, !Zlen_app, Hpre, Zlen_page_head, Zlen_pointer_bytes, Zlen_starts, Zlen_concat_rev. lia. }
  pose proof (total_nonneg rs) as Ht. pose proof (Zlen_nonneg rs) as Hn. pose proof (Zlen_nonneg gap) as Hg.
  assert (Hh : 8 <= head_size rightmost <= 12) by (by destruct rightmost). assert (Hf : 0 <= front_size first_page) by (by destruct first_page).
  unfold PAGE_SIZE in *.
  destruct (head_bytes page pre (pointer_bytes (starts 4096 rs) ++ gap ++ concat (rev rs)) (kind_of type) (Zlen rs) (4096 - total rs) rightmost first_page) as (B1 & B2 & B3 & B4 & B5 & B6).
  { done. }
  { unfold front_size, Zlen in Hpre. destruct first_page; lia. }
  rewrite from_be_to_be_small in B2, B3, B4 by lia.
  assert (Hoff : Z.of_nat (if first_page then 100%nat else 0%nat) = front_size first_page) by (by destruct first_page).
  assert (Hpl : Z.of_nat (length page) = 4096) by exact Hlen.
  eexists (mkBtreePageHeader type 0 (Zlen rs) _ 0 rightmost), (starts 4096 rs). split_and!; [|done|done| |].
  - unfold decode_page_header. rewrite (proj2 (Nat.ltb_ge _ _)) by lia. rewrite B1, page_type_of_kind. cbn [bind]. rewrite B2, B3, B4, B5.
    destruct (is_interior type) eqn:E.
    + destruct (proj1 Hint eq_refl) as [p Hp]. rewrite (proj2 (Nat.ltb_ge _ _)) by (rewrite Hp in Hsize; cbn in Hsize; lia).
      rewrite (B6 p Hp), from_be_to_be_small by (specialize (Hright p Hp); width). cbn [bind]. by rewrite Hp.
    + destruct rightmost as [p|]; [|done]. by assert (false = true) by (apply Hint; eauto).
  - intros e. unfold pointer_array_offset. cbn [cell_count page_type].
    replace (Z.to_nat (Zlen rs)) with (length (starts 4096 rs)) by (rewrite length_starts; unfold Zlen; lia). rewrite Hpage, app_assoc.
    apply read_pointers.
    + rewrite Zlen_app, Zlen_page_head, Hpre. unfold front_size, head_size.
      destruct (is_interior type) eqn:E, rightmost; try lia; [by destruct (proj1 Hint eq_refl)|by assert (false = true) by (apply Hint; eauto)].
    + eapply Forall_impl; [apply starts_range|]. unfold u16_max. cbn. lia.
  - assert (H1 := cells_at rs 4096 (pre ++ page_head (kind_of type) (Zlen rs) (4096 - total rs) rightmost ++ pointer_bytes (starts 4096 rs) ++ gap) []).
    rewrite app_nil_r, <- !app_assoc, <- Hpage in H1. apply Forall2_same_length_lookup. split; [apply length_starts|]. intros i o r Ho Hr.
    pose proof (Forall_lookup_1 _ _ _ _ (starts_range 4096 rs) Ho) as H2. cbn in H2. split; [unfold u16_max; lia|].
    refine (Forall2_lookup_lr _ _ _ _ _ _ (H1 _) Ho Hr).
    rewrite !Zlen_app, Hpre, Zlen_page_head, Zlen_pointer_bytes, Zlen_starts. lia.
Qed.


(** ** Building a page *)

(** Cells of type [T]: a good one needs at most [bound] bytes, and rendering it may add
    pages, leaves bytes that hold the cell over these pages, and takes the room that was
    computed for it. *)
Class CellFormat {T : Type} (good : T -> Prop) (bound : Z) (cell_len : T -> Result Z) (render : T -> ST Pages bytes)
    (holds : gmap Z bytes -> T -> bytes -> Prop) : Prop := {
  cell_len_ok t : good t -> exists n, cell_len t = Ok n /\ 0 <= n <= bound;
  cell_renders t w : good t -> pages_ok w ->
    builds (render t) w (fun r w' => grows w w' /\ pages_ok w' /\ holds (pages w') t r /\ cell_len t = Ok (Zlen r));
  cell_mono ps ps' t r : ps ⊆ ps' -> holds ps t r -> holds ps' t r
}.

(** The room of a cell, its pointer included. *)
Definition room {T} (cell_len : T -> Result Z) (t : T) : Z := match cell_len t with Ok n => 2 + n | _ => 0 end.
Definition room_of {T} (cell_len : T -> Result Z) (l : list T) : Z := fold_right (fun t n => room cell_len t + n) 0 l.

Lemma room_of_cons {T} (cell_len : T -> Result Z) t l : room_of cell_len (t :: l) = room cell_len t + room_of cell_len l.
Proof. done. Qed.
Lemma room_of_app {T} (cell_len : T -> Result Z) l k : room_of cell_len (l ++ k) = room_of cell_len l + room_of cell_len k.
Proof. induction l as [|t l IH]; cbn [app]; [done|]. rewrite !room_of_cons. lia. Qed.

Section Build.
Context {T : Type} {good : T -> Prop} {bound : Z} {cell_len : T -> Result Z} {render : T -> ST Pages bytes} {holds : gmap Z bytes -> T -> bytes -> Prop}.
Context `{!CellFormat good bound cell_len render holds}.

Lemma room_bound t : good t -> 2 <= room cell_len t <= 2 + bound.
Proof. intros Ht. destruct (cell_len_ok t Ht) as (n & Hn & Hb). unfold room. rewrite Hn. lia. Qed.

Lemma room_of_bound l : Forall good l -> 2 * Zlen l <= room_of cell_len l <= (2 + bound) * Zlen l.
Proof.
  induction 1 as [|t l Ht _ IH]; [change (room_of cell_len []) with 0; change (Zlen []) with 0; lia|]. rewrite room_of_cons, Zlen_cons. pose proof (room_bound t Ht). lia.
Qed.

Lemma place_cells_builds msg required : 0 <= required -> forall cells w k tail pointers,
  Forall good cells -> pages_ok w -> required + room_of cell_len cells - 2 * Zlen cells <= Z.of_nat k -> Z.of_nat k <= PAGE_SIZE ->
  builds (place_cells render msg required cells (replicate k 0 ++ tail) (Z.of_nat k) pointers) w (fun ppp w' => exists rs,
    grows w w' /\ pages_ok w' /\ Forall2 (holds (pages w')) cells rs /\ total rs = room_of cell_len cells - 2 * Zlen cells /\
    ppp = (replicate (Z.to_nat (Z.of_nat k - total rs)) 0 ++ concat (rev rs) ++ tail, Z.of_nat k - total rs, pointers ++ starts (Z.of_nat k) rs)).
Proof.
  intros Hreq. induction cells as [|c cells IH]; intros w k tail pointers Hgood Hw Hfit Hk; cbn [place_cells].
  - apply builds_ret. exists []. split_and!; [apply grows_refl|done|done|done|]. change (total []) with 0. cbn [rev concat starts app]. by rewrite !Z.sub_0_r, Nat2Z.id, app_nil_r.
  - apply Forall_cons in Hgood as [Hc Hgood]. eapply builds_bind; [by apply cell_renders|]. cbv beta. intros r w1 (Hg1 & Hw1 & Hr & Hlen).
    pose proof (room_of_bound cells Hgood) as Hrest. pose proof (Zlen_nonneg r) as Hr0. rewrite room_of_cons, Zlen_cons in *. unfold room in *. rewrite Hlen in *.
    rewrite (proj2 (Z.ltb_ge _ _)) by lia. set (k' := Z.to_nat (Z.of_nat k - Zlen r)). cbv zeta. assert (Hk' : Z.of_nat k' = Z.of_nat k - Zlen r) by lia.
    assert (Hsplit : replicate k 0 ++ tail = replicate k' 0 ++ replicate (length r) 0 ++ tail).
    { rewrite app_assoc, <- replicate_add. do 2 f_equal. unfold Zlen in *. lia. }
    rewrite Hsplit, <- Hk'. eapply builds_get; [apply copy_at_mid; [by rewrite Zlen_replicate|by rewrite length_replicate]|].
    eapply builds_get; [apply to_u16_Ok; unfold PAGE_SIZE, u16_max in *; lia|].
    eapply builds_weaken; [apply (IH w1 k' (r ++ tail)); [done|done|lia|lia]|]. cbv beta. intros ppp w' (rs & Hg & Hw' & Hrs & Ht & ->).
    exists (r :: rs). rewrite total_cons. split_and!; [by eapply grows_trans|done| |lia|].
    + constructor; [|done]. eapply cell_mono; [apply Hg|done].
    + cbn [rev starts]. rewrite concat_app, <- !app_assoc, Hk'. cbn [concat app]. rewrite app_nil_r.
      by replace (Z.of_nat k - Zlen r - total rs) with (Z.of_nat k - (Zlen r + total rs)) by lia.
Qed.

Lemma build_page_builds msg type first_page rightmost cells w :
  Forall good cells -> pages_ok w -> front_size first_page + head_size rightmost + room_of cell_len cells <= PAGE_SIZE ->
  (is_interior type = true <-> is_Some rightmost) -> (forall p, rightmost = Some p -> is_u32 p) ->
  builds (build_page render msg (kind_of type) (front_size first_page) rightmost cells) w (fun page w' => exists body rs,
    grows w w' /\ pages_ok w' /\ page = replicate (Z.to_nat (front_size first_page)) 0 ++ body /\ Zlen body = PAGE_SIZE - front_size first_page /\
    Forall2 (holds (pages w')) cells rs /\ forall pre, Zlen pre = front_size first_page -> page_cells (pre ++ body) first_page type rightmost rs).
Proof.
  intros Hgood Hw Hfit Hint Hright. pose proof (room_of_bound cells Hgood) as Hroom. pose proof (Zlen_nonneg cells) as Hn.
  assert (Hh : 8 <= head_size rightmost <= 12) by (by destruct rightmost). assert (Hf : 0 <= front_size first_page <= 100) by (by destruct first_page).
  unfold build_page. fold (head_size rightmost).
  eapply (builds_get _ (Zlen cells * 2)); [unfold checked_mul; by rewrite (proj2 (Z.leb_le _ _)) by (unfold PAGE_SIZE, u64_max in *; lia)|].
  eapply (builds_get _ (front_size first_page + head_size rightmost + Zlen cells * 2)); [unfold checked_add; by rewrite (proj2 (Z.leb_le _ _)) by (unfold PAGE_SIZE, u64_max in *; lia)|].
  eapply builds_bind.
  { pose proof (place_cells_builds msg (front_size first_page + head_size rightmost + Zlen cells * 2) ltac:(lia) cells w (Z.to_nat PAGE_SIZE) [] [] Hgood Hw) as Hp.
    rewrite Z2Nat.id, app_nil_r in Hp by (unfold PAGE_SIZE; lia). apply Hp; lia. }
  cbv beta. intros ppp w' (rs & Hg & Hw' & Hrs & Ht & ->). pose proof (Forall2_length _ _ _ Hrs) as Hl. assert (Hcells : Zlen cells = Zlen rs) by (unfold Zlen; lia).
  pose proof (total_nonneg rs) as Ht0. cbn [app].
  set (gap := replicate (Z.to_nat (PAGE_SIZE - total rs - front_size first_page - head_size rightmost - 2 * Zlen rs)) 0).
  assert (Hsplit : replicate (Z.to_nat (PAGE_SIZE - total rs)) 0 ++ concat (rev rs) ++ [] =
    replicate (Z.to_nat (front_size first_page)) 0 ++ replicate (Z.to_nat (head_size rightmost)) 0 ++
      replicate (Z.to_nat (2 * Zlen (starts PAGE_SIZE rs))) 0 ++ gap ++ concat (rev rs)).
  { rewrite app_nil_r, !app_assoc. f_equal. unfold gap. rewrite <- !replicate_add. f_equal. rewrite Zlen_starts. lia. }
  unfold builds, st_get. rewrite Hsplit, Hcells, finish_page_run; [|by rewrite Zlen_replicate; lia|unfold u16_max, PAGE_SIZE in *; lia..].
  assert (Hsize : Zlen (page_head (kind_of type) (Zlen rs) (PAGE_SIZE - total rs) rightmost ++ pointer_bytes (starts PAGE_SIZE rs) ++ gap ++ concat (rev rs)) =
    PAGE_SIZE - front_size first_page).
  { rewrite !Zlen_app, Zlen_page_head, Zlen_pointer_bytes, Zlen_starts, Zlen_concat_rev. unfold gap. rewrite Zlen_replicate. lia. }
  eexists _, rs. split_and!; [done|done|reflexivity|done|done|].
  intros pre Hpre. eapply written_page; [exact Hpre|done|done|reflexivity|]. rewrite Zlen_app, Hsize. lia.
Qed.
End Build.

(** * Payloads and overflow chains, written and read

    A payload too long for its page continues on a chain of pages. What the writer stores
    of a payload, in the cell and on new pages, is what the readers put together again. *)


(** ** The sizes, computed *)

Definition max_local (is_index : bool) : Z := if is_index then 1002 else 4061.
Definition local_part (is_index : bool) (n : Z) : Z :=
  if n <=? max_local is_index then n
  else let local := 489 + (n - 489) mod 4092 in if max_local is_index <? local then 489 else local.

Lemma local_part_bounds is_index n : 0 <= n -> 0 <= local_part is_index n <= Z.min n (max_local is_index) /\ (local_part is_index n = n \/ 489 <= local_part is_index n < n).
Proof.
  intros Hn. unfold local_part. assert (Hm : 1002 <= max_local is_index <= 4061) by (by destruct is_index).
  destruct (Z.leb_spec n (max_local is_index)); [lia|]. assert (0 <= (n - 489) mod 4092 < 4092) by (apply Z.mod_pos_bound; lia).
  assert ((n - 489) mod 4092 <= n - 489) by (apply Z.mod_le; lia). cbv zeta. destruct (Z.ltb_spec (max_local is_index) (489 + (n - 489) mod 4092)); lia.
Qed.

Lemma local_size_run max min n e : 0 <= min <= max -> n <= u64_max -> local_size PAGE_SIZE max min n e =
  Ok (if n <=? max then n else let local := min + (n - min) mod 4092 in if max <? local then min else local).
Proof.
  intros Hmin Hn. unfold local_size. destruct (Z.leb_spec n max); [done|]. change (checked_sub PAGE_SIZE 4) with (Some 4092). cbn [ok_or bind].
  unfold usize_sub. rewrite (proj2 (Z.leb_le _ _)) by lia. cbn [bind]. unfold usize_rem. cbn [Z.eqb bind]. unfold u64_add.
  assert ((n - min) mod 4092 <= n - min) by (apply Z.mod_le; lia). by rewrite (proj2 (Z.leb_le _ _)) by (unfold u64_max in *; lia).
Qed.

Lemma writer_local n is_index : 0 <= n <= u64_max -> leaf_local_payload_len n is_index = Ok (local_part is_index n).
Proof.
  intros Hn. unfold leaf_local_payload_len, local_part.
  assert (Hm : leaf_max_local is_index = Ok (max_local is_index)) by (by destruct is_index). rewrite Hm. cbn [bind].
  assert (H1 : 489 <= max_local is_index <= 4061) by (by destruct is_index).
  destruct (Z.leb_spec n (max_local is_index)); [done|]. change leaf_min_local with (Ok 489). change (checked_sub PAGE_SIZE 4) with (Some 4092). cbn [ok_or bind].
  unfold usize_sub. rewrite (proj2 (Z.leb_le _ _)) by lia. cbn [bind]. unfold usize_rem. cbn [Z.eqb bind]. unfold u64_add.
  assert ((n - 489) mod 4092 <= n - 489) by (apply Z.mod_le; lia). by rewrite (proj2 (Z.leb_le _ _)) by (unfold u64_max in *; lia).
Qed.

(** ** Chains of pages *)

Inductive chain (ps : gmap Z bytes) : Z -> bytes -> Prop :=
  | chain_last p buf pad : p <> 0 -> is_u32 p -> 0 < Zlen buf <= 4092 -> ps !! p = Some (to_be 4 0 ++ buf ++ pad) -> chain ps p buf
  | chain_more p q buf rest pad : p <> 0 -> is_u32 p -> Zlen buf = 4092 -> ps !! p = Some (to_be 4 q ++ buf ++ pad) -> chain ps q rest ->
      chain ps p (buf ++ rest).

Lemma chain_mono ps ps' p buf : ps ⊆ ps' -> chain ps p buf -> chain ps' p buf.
Proof.
  intros Hs. induction 1 as [p buf pad H1 H2 H3 H4|p q buf rest pad H1 H2 H3 H4 _ IH].
  - eapply chain_last; [done..|]. by eapply lookup_weaken.
  - eapply chain_more; [done..| |done]. by eapply lookup_weaken.
Qed.

Lemma chain_first ps p buf : chain ps p buf -> p <> 0 /\ is_u32 p /\ 0 < Zlen buf.
Proof.
  induction 1 as [p buf pad H1 H2 H3 H4|p q buf rest pad H1 H2 H3 H4 Hc IH]; split_and!; try done; [lia|]. rewrite Zlen_app. pose proof (Zlen_nonneg rest). lia.
Qed.

(** A pager over a file that has the pages. *)
Record serves (pager : Pager) (ps : gmap Z bytes) : Prop := {
  sv_size : page_size (header pager) = PAGE_SIZE;
  sv_reserved : reserved_bytes (header pager) = 0;
  sv_read : forall p page, ps !! p = Some page -> read_page pager p = Ok page
}.

Lemma serves_mono pager ps ps' : ps ⊆ ps' -> serves pager ps' -> serves pager ps.
Proof. intros Hs [H1 H2 H3]. split; [done..|]. intros p page Hp. apply H3. by eapply lookup_weaken. Qed.

Lemma sv_usable pager ps : serves pager ps -> usable_size pager = Ok PAGE_SIZE.
Proof. intros [H1 H2 _]. unfold usable_size, header_usable_size. by rewrite H1, H2. Qed.

Lemma sv_length pager ps p page : serves pager ps -> ps !! p = Some page -> Zlen page = PAGE_SIZE.
Proof.
  intros [H1 _ H3] Hp. specialize (H3 _ _ Hp). unfold read_page in H3. rewrite H1 in H3. repeat case_match; try done. inv_res. repeat case_match; try done.
  apply slice_range_Ok, get_range_Zlen in H3. unfold checked_add in *. case_match; [|done]. simplify_eq. lia.
Qed.

Lemma overflow_loop_run pager ps p buf : serves pager ps -> chain ps p buf -> forall fuel acc, (length buf <= fuel)%nat ->
  overflow_loop fuel pager 4092 (Zlen buf) p acc = Ok (acc ++ buf).
Proof.
  intros Hs. induction 1 as [p buf pad Hp _ Hl Hpage|p q buf rest pad Hp _ Hl Hpage Hc IH]; intros fuel acc Hfuel.
  - destruct fuel as [|fuel]; [unfold Zlen in Hl; lia|]. cbn [overflow_loop]. rewrite (proj2 (Z.leb_gt _ _)) by lia.
    rewrite (sv_read _ _ Hs _ _ Hpage). cbn [bind]. rewrite (proj2 (Z.ltb_ge _ _)) by (zlen; pose proof (Zlen_nonneg pad); lia).
    rewrite Z.min_l by lia. unfold checked_add. rewrite (proj2 (Z.leb_le _ _)) by (unfold u64_max; lia). cbn [ok_or bind].
    rewrite (get_range_at (to_be 4 0) buf pad) by zlen. cbn [ok_or bind]. by rewrite Z.sub_diag.
  - destruct (chain_first _ _ _ Hc) as (Hq & Hqu & Hrest). rewrite Zlen_app. rewrite length_app in Hfuel.
    destruct fuel as [|fuel]; [unfold Zlen in *; lia|]. cbn [overflow_loop]. rewrite (proj2 (Z.leb_gt _ _)) by lia.
    rewrite (sv_read _ _ Hs _ _ Hpage). cbn [bind]. rewrite (proj2 (Z.ltb_ge _ _)) by (zlen; pose proof (Zlen_nonneg pad); lia).
    rewrite Z.min_r by lia. unfold checked_add. rewrite (proj2 (Z.leb_le _ _)) by (unfold u64_max; lia). cbn [ok_or bind].
    rewrite (get_range_at (to_be 4 q) buf pad) by zlen. cbn [ok_or bind]. rewrite (proj2 (Z.eqb_neq _ _)) by lia.
    change (be_at (to_be 4 q ++ buf ++ pad) 0 4) with (from_be (to_be 4 q)). rewrite from_be_to_be_small by width.
    rewrite (proj2 (Z.eqb_neq _ _)) by done. replace (Zlen buf + Zlen rest - 4092) with (Zlen rest) by lia.
    rewrite IH by (unfold Zlen in *; lia). by rewrite <- app_assoc.
Qed.

Lemma read_chain pager ps p buf : serves pager ps -> chain ps p buf -> Zlen buf <= i64_max -> read_overflow_chain pager p (Zlen buf) = Ok buf.
Proof.
  intros Hs Hc Hl. destruct (chain_first _ _ _ Hc) as (Hp & _). unfold read_overflow_chain. rewrite (proj2 (Z.eqb_neq _ _)) by done.
  rewrite (sv_usable _ _ Hs). cbn [bind]. change (checked_sub PAGE_SIZE 4) with (Some 4092). cbn [ok_or bind Z.eqb].
  unfold with_capacity. rewrite (proj2 (Z.leb_le _ _)) by done. cbn [bind].
  rewrite (overflow_loop_run pager ps p buf Hs Hc); [done|]. unfold Zlen. lia.
Qed.

(** ** Writing a chain *)

Definition chunk (buf : bytes) (i : nat) : bytes := take (Z.to_nat 4092) (drop (Z.to_nat (4092 * Z.of_nat i)) buf).
Definition chain_page (buf : bytes) (page_nos : list Z) (i : nat) : bytes :=
  to_be 4 (default 0 (page_nos !! S i)) ++ chunk buf i ++ replicate (Z.to_nat (4092 - Zlen (chunk buf i))) 0.
Arguments chunk : simpl never.
Arguments chain_page : simpl never.

Lemma Zlen_chunk buf i : 4092 * Z.of_nat i <= Zlen buf -> Zlen (chunk buf i) = Z.min 4092 (Zlen buf - 4092 * Z.of_nat i).
Proof. intros Hi. unfold chunk, Zlen in *. rewrite length_take, length_drop. lia. Qed.

Lemma Zlen_chain_page buf page_nos i : 4092 * Z.of_nat i <= Zlen buf -> Zlen (chain_page buf page_nos i) = PAGE_SIZE.
Proof. intros Hi. unfold chain_page. rewrite !Zlen_app, Zlen_to_be, Zlen_replicate, Zlen_chunk by done. unfold PAGE_SIZE. lia. Qed.

Lemma overflow_page_run buf page_nos i : Zlen buf <= i64_max -> 4092 * Z.of_nat i < Zlen buf ->
  overflow_page buf 4092 page_nos i = Ok (chain_page buf page_nos i).
Proof.
  intros Hb Hi. unfold overflow_page, checked_mul. rewrite (proj2 (Z.leb_le _ _)) by (unfold Zlen, i64_max, u64_max in *; lia). cbn [ok_or bind].
  assert (Hc := Zlen_chunk buf i ltac:(lia)).
  replace (Z.to_nat PAGE_SIZE) with (4 + length (chunk buf i) + Z.to_nat (4092 - Zlen (chunk buf i)))%nat by (unfold PAGE_SIZE, Zlen in *; lia).
  rewrite !replicate_add, <- app_assoc. rewrite copy_at_front by (by rewrite length_to_be, length_replicate). cbn [bind].
  unfold slice_range. replace (get_range buf (Z.of_nat i * 4092) (Z.min (Z.of_nat i * 4092 + 4092) (Zlen buf))) with (Some (chunk buf i)).
  - cbn [bind]. rewrite copy_at_mid by (zlen || by rewrite length_replicate). done.
  - symmetry. apply get_range_Some. split_and!; [lia..|]. unfold chunk. rewrite (Z.mul_comm 4092).
    destruct (decide (4092 <= Zlen buf - Z.of_nat i * 4092)) as [H|H]; [f_equal; lia|]. rewrite !take_ge by (rewrite length_drop; unfold Zlen in *; lia). done.
Qed.

Lemma allocate_pages_builds n : forall w, pages_ok w ->
  builds (allocate_pages n) w (fun nos w' => nos = seqZ (next_page_no w) (Z.of_nat n) /\ next_page_no w' = next_page_no w + Z.of_nat n /\
    pages w' = pages w /\ pages_ok w').
Proof.
  induction n as [|n IH]; intros w Hw; cbn [allocate_pages].
  - apply builds_ret. split_and!; [done|lia|done|done].
  - eapply builds_bind; [by apply allocate_page_builds|]. cbn. intros p w1 (-> & Hn & Hp & Hw1).
    eapply builds_bind; [by apply IH|]. cbn. intros nos w2 (-> & Hn2 & Hp2 & Hw2).
    split_and!; [|lia|congruence|done]. rewrite (seqZ_cons _ (Z.of_nat (S n))) by lia. f_equal. rewrite Hn. f_equal; lia.
Qed.

Lemma write_chain_pages buf all : Zlen buf <= i64_max -> forall nos j w,
  pages_ok w -> NoDup nos -> 4092 * (Z.of_nat j + Zlen nos) < Zlen buf + 4092 \/ nos = [] ->
  (forall q, q ∈ nos -> pages w !! q = None /\ q < next_page_no w) ->
  builds (st_each (fun ip : nat * Z => let! page := st_get (fun _ => overflow_page buf 4092 all ip.1) in insert_page ip.2 page)
            (imap (fun i => pair (j + i)%nat) nos)) w
    (fun _ w' => next_page_no w' = next_page_no w /\ pages_ok w' /\
       (forall i q, nos !! i = Some q -> pages w' !! q = Some (chain_page buf all (j + i))) /\
       (forall k, k ∉ nos -> pages w' !! k = pages w !! k)).
Proof.
  intros Hb. induction nos as [|q nos IH]; intros j w Hw Hnd Hlen Hfresh; cbn [imap st_each].
  - apply builds_ret. by split_and!.
  - destruct Hlen as [Hlen|]; [|done]. rewrite Zlen_cons in Hlen. pose proof (Zlen_nonneg nos). apply NoDup_cons in Hnd as [Hq Hnd].
    destruct (Hfresh q) as [Hnone Hlt]; [by left|].
    eapply builds_bind.
    { cbn [fst snd]. rewrite Nat.add_0_r. eapply builds_get; [apply overflow_page_run; [done|lia]|]. apply insert_page_builds; [done..|]. apply Zlen_chain_page. lia. }
    cbn. intros _ w1 (Hn1 & Hp1 & Hw1). unfold compose. rewrite (imap_ext _ (fun i => pair (S j + i)%nat)) by (intros; f_equal; lia).
    eapply builds_weaken.
    { apply (IH (S j) w1 Hw1 Hnd); [destruct nos; [by right|left; lia]|].
      intros k Hk. rewrite Hp1, Hn1, lookup_insert_ne by (by intros ->). apply Hfresh. by right. }
    cbn. intros _ w' (Hn & Hok & Hin & Hout). split_and!; [lia|done| |].
    + intros [|i] k Hk; cbn in Hk.
      * injection Hk as <-. rewrite Hout, Hp1, lookup_insert_eq by done. by rewrite Nat.add_0_r.
      * rewrite (Hin i k Hk). do 2 f_equal. lia.
    + intros k [Hk Hks]%not_elem_of_cons. by rewrite Hout, Hp1, lookup_insert_ne by done.
Qed.

Lemma chunk_drop buf i : drop (Z.to_nat (4092 * Z.of_nat i)) buf = chunk buf i ++ drop (Z.to_nat (4092 * Z.of_nat (S i))) buf.
Proof.
  unfold chunk. set (l := drop (Z.to_nat (4092 * Z.of_nat i)) buf).
  replace (Z.to_nat (4092 * Z.of_nat (S i))) with (Z.to_nat (4092 * Z.of_nat i) + Z.to_nat 4092)%nat by lia.
  rewrite <- drop_drop. fold l. by rewrite take_drop.
Qed.

Lemma written_chain ps buf first n : Zlen buf <= 4092 * Z.of_nat n -> 4092 * (Z.of_nat n - 1) < Zlen buf -> 0 < first -> first + Z.of_nat n <= u32_max ->
  (forall i, (i < n)%nat -> ps !! (first + Z.of_nat i) = Some (chain_page buf (seqZ first (Z.of_nat n)) i)) ->
  forall m i, (i + m = n)%nat -> (0 < m)%nat -> chain ps (first + Z.of_nat i) (drop (Z.to_nat (4092 * Z.of_nat i)) buf).
Proof.
  intros Hle Hgt Hfirst Hmax Hps. induction m as [|m IH]; intros i Him Hm; [lia|].
  specialize (Hps i ltac:(lia)). unfold chain_page in Hps.
  assert (Hc := Zlen_chunk buf i ltac:(lia)). destruct m as [|m].
  - assert (Hd : drop (Z.to_nat (4092 * Z.of_nat i)) buf = chunk buf i) by (rewrite chunk_drop, (drop_ge buf), app_nil_r; [done|unfold Zlen in *; lia]). rewrite Hd.
    rewrite lookup_seqZ_ge in Hps by lia.
    eapply chain_last; [lia|width|lia|exact Hps].
  - rewrite lookup_seqZ_lt in Hps by lia. rewrite chunk_drop. eapply chain_more; [lia|width|lia|exact Hps|apply (IH (S i)); lia].
Qed.

Lemma index_at_seqZ first n : 0 < n -> index_at (seqZ first n) 0 = Ok first.
Proof. intros Hn. by rewrite seqZ_cons by done. Qed.

Lemma write_overflow_chain_builds buf w : pages_ok w -> 0 < Zlen buf <= i64_max ->
  builds (write_overflow_chain buf) w (fun p w' => grows w w' /\ pages_ok w' /\ chain (pages w') p buf /\ is_u32 p).
Proof.
  intros Hw Hb. unfold write_overflow_chain. destruct buf as [|b0 buf0] eqn:Ebuf; [zlen|]. rewrite <- Ebuf in *. clear b0 buf0 Ebuf.
  eapply (builds_get _ 4092); [done|]. eapply (builds_get _ (Zlen buf + 4091)).
  { unfold checked_add. by rewrite (proj2 (Z.leb_le _ _)) by (unfold i64_max, u64_max in *; lia). }
  set (n := Z.to_nat ((Zlen buf + 4091) / 4092)).
  assert (Hdiv : 4092 * ((Zlen buf + 4091) / 4092) <= Zlen buf + 4091 < 4092 * ((Zlen buf + 4091) / 4092) + 4092) by (split; zlia).
  assert (Hn : 1 <= (Zlen buf + 4091) / 4092) by zlia.
  destruct Hw as [Hnext Hbelow Hsizes] eqn:EHw. clear EHw.
  eapply builds_bind; [by apply allocate_pages_builds|]. intros nos w1 (-> & Hn1 & Hp1 & Hw1). set (first := next_page_no w) in *.
  eapply builds_bind.
  { apply (write_chain_pages buf (seqZ first (Z.of_nat n)) ltac:(lia) (seqZ first (Z.of_nat n)) 0 w1 Hw1).
    - apply NoDup_seqZ.
    - left. unfold Zlen at 1. rewrite length_seqZ. lia.
    - intros q Hq%elem_of_seqZ. rewrite Hp1. split; [|lia]. apply eq_None_not_Some. intros Hs. apply Hbelow in Hs. unfold first in *. lia. }
  cbv beta. intros _ w' (Hn' & Hw' & Hin & Hout).
  assert (Hpage : forall i, (i < n)%nat -> pages w' !! (first + Z.of_nat i) = Some (chain_page buf (seqZ first (Z.of_nat n)) i)).
  { intros i Hi. apply (Hin i). apply lookup_seqZ. split; [done|lia]. }
  unfold builds, st_get. rewrite (index_at_seqZ first (Z.of_nat n)) by lia. split_and!.
  - split.
    + unfold first in *. lia.
    + apply map_subseteq_spec. intros k page Hk. rewrite Hout, Hp1; [done|]. intros Hin'%elem_of_seqZ. assert (k < first) by (apply Hbelow; eauto). lia.
    + intros k Hk. destruct (decide (k ∈ seqZ first (Z.of_nat n))) as [Hq%elem_of_seqZ|Hq]; [right; lia|left]. by rewrite Hout, Hp1 in Hk.
    + intros k Hk. exists (chain_page buf (seqZ first (Z.of_nat n)) (Z.to_nat (k - first))). replace k with (first + Z.of_nat (Z.to_nat (k - first))) at 1 by (unfold first in *; lia).
      apply Hpage. unfold first in *. lia.
  - done.
  - pose proof (written_chain (pages w') buf first n ltac:(lia) ltac:(lia) ltac:(unfold first; lia) ltac:(destruct Hw1; lia) Hpage n 0 ltac:(lia) ltac:(lia)) as Hchain.
    rewrite Z.add_0_r in Hchain. exact Hchain.
  - destruct Hw1. unfold first in *. width.
Qed.

(** ** Payloads *)

(** [r] is what a cell holds of a payload. *)
Definition stored (ps : gmap Z bytes) (is_index : bool) (payload r : bytes) : Prop :=
  let local := local_part is_index (Zlen payload) in
  (local = Zlen payload /\ r = payload) \/
  (local < Zlen payload /\ exists p, r = take (Z.to_nat local) payload ++ to_be 4 p /\ chain ps p (drop (Z.to_nat local) payload)).

Definition stored_size (is_index : bool) (n : Z) : Z := local_part is_index n + if local_part is_index n <? n then 4 else 0.

Lemma stored_mono ps ps' is_index payload r : ps ⊆ ps' -> stored ps is_index payload r -> stored ps' is_index payload r.
Proof. intros Hs [H|(H & p & H1 & H2)]; [by left|right]. split; [done|]. exists p. split; [done|]. by eapply chain_mono. Qed.

Lemma stored_length ps is_index payload r : stored ps is_index payload r -> Zlen r = stored_size is_index (Zlen payload).
Proof.
  unfold stored, stored_size. pose proof (local_part_bounds is_index (Zlen payload) (Zlen_nonneg _)) as [Hb _].
  intros [[Hl ->]|(Hl & p & -> & _)].
  - rewrite (proj2 (Z.ltb_ge _ _)); lia.
  - rewrite (proj2 (Z.ltb_lt _ _)) by done. rewrite Zlen_app, Zlen_to_be. unfold Zlen in *. rewrite length_take. lia.
Qed.

Lemma render_payload_builds is_index payload w : pages_ok w -> Zlen payload <= i64_max ->
  builds (render_payload payload (local_part is_index (Zlen payload))) w (fun r w' => grows w w' /\ pages_ok w' /\ stored (pages w') is_index payload r).
Proof.
  intros Hw Hl. pose proof (local_part_bounds is_index (Zlen payload) (Zlen_nonneg _)) as [Hb _]. set (local := local_part is_index (Zlen payload)) in *.
  unfold render_payload. eapply builds_get.
  { unfold slice_range. rewrite (proj2 (get_range_Some payload 0 local (take (Z.to_nat local) payload))); [done|]. split_and!; [lia..|]. by rewrite Z.sub_0_r. }
  unfold stored. fold local. destruct (Z.ltb_spec local (Zlen payload)) as [Hlt|Hge].
  - eapply builds_get.
    { unfold slice_range. rewrite (proj2 (get_range_Some payload local (Zlen payload) (drop (Z.to_nat local) payload))); [done|].
      split_and!; [lia..|]. rewrite take_ge; [done|]. rewrite length_drop. unfold Zlen in *. lia. }
    eapply builds_bind.
    { apply write_overflow_chain_builds; [done|]. unfold Zlen in *. rewrite length_drop. lia. }
    cbv beta. intros p w' (Hg & Hw' & Hc & _). apply builds_ret. split_and!; [done..|]. right. split; [done|]. by exists p.
  - apply builds_ret. split_and!; [apply grows_refl|done|]. left. assert (local = Zlen payload) by lia. split; [done|].
    apply take_ge. unfold Zlen in *. lia.
Qed.

Lemma max_local_run is_index : btree_max_local PAGE_SIZE is_index = Ok (max_local is_index).
Proof. by destruct is_index. Qed.
Lemma min_local_run is_index : btree_min_local PAGE_SIZE is_index = Ok 489.
Proof. by destruct is_index. Qed.

Lemma local_size_local_part is_index n e : 0 <= n <= u64_max -> local_size PAGE_SIZE (max_local is_index) 489 n e = Ok (local_part is_index n).
Proof. intros Hn. rewrite local_size_run; [done|destruct is_index; cbn; lia|lia]. Qed.

Lemma read_stored_payload pager ps page is_index payload r pre head post kind :
  serves pager ps -> stored ps is_index payload r -> page = pre ++ head ++ r ++ post -> Zlen page <= PAGE_SIZE -> Zlen payload <= i64_max ->
  read_btree_payload pager page (Zlen pre) (Zlen head) (Zlen payload) is_index kind = Ok payload.
Proof.
  intros Hs Hst -> Hpage Hl. pose proof (local_part_bounds is_index (Zlen payload) (Zlen_nonneg _)) as [Hb _].
  pose proof (Zlen_nonneg pre). pose proof (Zlen_nonneg head). pose proof (Zlen_nonneg post). rewrite !Zlen_app in Hpage.
  assert (Hm : max_local is_index <= 4061) by (by destruct is_index).
  unfold read_btree_payload. rewrite (sv_usable _ _ Hs). cbn [bind]. rewrite max_local_run, min_local_run. cbn [bind].
  rewrite local_size_local_part by (unfold Zlen, i64_max, u64_max in *; lia). cbn [bind]. set (local := local_part is_index (Zlen payload)) in *.
  unfold checked_add. rewrite (proj2 (Z.leb_le _ _)) by (unfold u64_max, PAGE_SIZE in *; pose proof (Zlen_nonneg r); lia). cbn [ok_or bind].
  rewrite (proj2 (Z.leb_le _ _)) by (unfold u64_max, PAGE_SIZE in *; pose proof (Zlen_nonneg r); lia). cbn [ok_or bind].
  unfold stored in Hst. fold local in Hst. destruct Hst as [[Hlocal ->]|(Hlt & p & -> & Hc)].
  - rewrite app_assoc, (get_range_at (pre ++ head) payload post) by (rewrite Zlen_app; lia). cbn [ok_or bind]. by rewrite (proj2 (Z.leb_le _ _)) by lia.
  - assert (Ht : Zlen (take (Z.to_nat local) payload) = local) by (unfold Zlen in *; rewrite length_take; lia).
    assert (Hd : Zlen (drop (Z.to_nat local) payload) = Zlen payload - local) by (unfold Zlen in *; rewrite length_drop; lia).
    rewrite <- !app_assoc, (app_assoc pre head), (get_range_at (pre ++ head) (take (Z.to_nat local) payload)) by (rewrite Zlen_app; lia). cbn [ok_or bind].
    rewrite (proj2 (Z.leb_gt _ _)) by lia. rewrite Zlen_app, Zlen_to_be, Ht in Hpage.
    rewrite (proj2 (Z.leb_le _ _)) by (unfold u64_max, PAGE_SIZE in *; lia). cbn [ok_or bind].
    rewrite (app_assoc (pre ++ head)), (get_range_at _ (to_be 4 p)) by (rewrite !Zlen_app, ?Zlen_to_be; lia). cbn [ok_or bind].
    destruct (chain_first _ _ _ Hc) as (Hp & Hpu & _). rewrite from_be_to_be_small by width. rewrite (proj2 (Z.eqb_neq _ _)) by done.
    unfold usize_sub. rewrite (proj2 (Z.leb_le _ _)) by lia. cbn [bind]. rewrite <- Hd, (read_chain _ _ _ _ Hs Hc) by lia. cbn [bind].
    unfold with_capacity. rewrite (proj2 (Z.leb_le _ _)) by done. cbn [bind]. by rewrite take_drop.
Qed.
