(* ===== verification/SqliteTrees.v ===== *)
(** * The trees the writer builds

    Cells are distributed over leaves and their numbers over interior pages, level by
    level. For any formats of leaf and interior cells, [build_btree] leaves a tree over its
    cells, unless the page numbers run out. *)

From S2P Require Import Prelude Text Varint Types Record SqliteFile SqliteBTree SqliteWriter SqliteChains.

(** ** Distributing leaf cells *)

Section Leaves.
Context {T : Type} {good : T -> Prop} {bound : Z} {cell_len : T -> Result Z} {render : T -> ST Pages bytes} {holds : gmap Z bytes -> T -> bytes -> Prop}.
Context `{!CellFormat good bound cell_len render holds}.

Lemma required_size_run msg t : good t -> bound <= PAGE_SIZE -> required_size cell_len msg t = Ok (room cell_len t).
Proof.
  intros Ht Hb. destruct (cell_len_ok t Ht) as (n & Hn & Hr). unfold required_size, room. rewrite Hn. cbn [bind]. unfold checked_add.
  by rewrite (proj2 (Z.leb_le _ _)) by (unfold PAGE_SIZE, u64_max in *; lia).
Qed.

Definition leaf_fits (header_size : Z) (group : list T) : Prop := group <> [] /\ header_size + room_of cell_len group <= PAGE_SIZE.

Lemma leaf_groups_spec header_size : 0 <= header_size -> header_size + 2 + bound <= PAGE_SIZE -> forall cells pages current,
  Forall good cells -> Forall good current -> Forall (leaf_fits header_size) pages ->
  header_size + room_of cell_len current <= PAGE_SIZE -> (cells = [] -> current <> []) ->
  exists groups, leaf_groups cell_len header_size cells pages current (header_size + room_of cell_len current) = Ok groups /\
    concat groups = concat pages ++ current ++ cells /\ Forall (leaf_fits header_size) groups.
Proof.
  intros H0 Hb. induction cells as [|t cells IH]; intros pages current Hcells Hcur Hpages Hfit Hne; cbn [leaf_groups].
  - exists (pages ++ [current]). split_and!; [done|by rewrite concat_app, app_nil_r; cbn; rewrite app_nil_r|]. apply Forall_app. split; [done|]. repeat constructor; [by apply Hne|done].
  - apply Forall_cons in Hcells as [Ht Hcells]. rewrite required_size_run by (done || lia). cbn [bind]. pose proof (room_bound t Ht).
    set (full := negb (length current =? 0)%nat && (PAGE_SIZE <? header_size + room_of cell_len current + room cell_len t)).
    destruct full eqn:Ef; cbv zeta.
    + apply andb_true_iff in Ef as [Hc%negb_true_iff%Nat.eqb_neq _]. rewrite (proj2 (Z.ltb_ge _ _)) by lia. cbn [app].
      destruct (IH (pages ++ [current]) [t]) as (groups & Hrun & Hcon & Hall).
      * done.
      * by constructor.
      * apply Forall_app. split; [done|]. repeat constructor; [by intros ->|done].
      * change (room_of cell_len [t]) with (room cell_len t + 0). lia.
      * done.
      * change (room_of cell_len [t]) with (room cell_len t + 0) in Hrun. rewrite Z.add_0_r in Hrun. exists groups. split_and!; [done| |done].
        rewrite Hcon, concat_app, <- !app_assoc. cbn. by rewrite app_nil_r.
    + assert (Hle : header_size + room_of cell_len current + room cell_len t <= PAGE_SIZE).
      { apply andb_false_iff in Ef as [Hc%negb_false_iff%Nat.eqb_eq|Hc%Z.ltb_ge]; [|done]. destruct current; [|done]. change (room_of cell_len []) with 0. lia. }
      rewrite (proj2 (Z.ltb_ge _ _)) by done. destruct (IH pages (current ++ [t])) as (groups & Hrun & Hcon & Hall).
      * done.
      * apply Forall_app. split; [done|by constructor].
      * done.
      * rewrite room_of_app. change (room_of cell_len [t]) with (room cell_len t + 0). lia.
      * by destruct current.
      * rewrite room_of_app in Hrun. change (room_of cell_len [t]) with (room cell_len t + 0) in Hrun. rewrite Z.add_0_r, Z.add_assoc in Hrun.
        exists groups. split_and!; [done| |done]. by rewrite Hcon, <- app_assoc.
Qed.

Lemma paginate_leaf_cells_spec cells header_size : 0 <= header_size -> header_size + 2 + bound <= PAGE_SIZE -> Forall good cells ->
  exists groups, paginate_leaf_cells cell_len cells header_size = Ok groups /\ concat groups = cells /\
    (groups = [[]] \/ Forall (leaf_fits header_size) groups) /\ groups <> [].
Proof.
  intros H0 Hb Hg. unfold paginate_leaf_cells. destruct cells as [|t cells]; [exists [[]]; split_and!; [done..|by left|done]|].
  destruct (leaf_groups_spec header_size H0 Hb (t :: cells) [] [] Hg) as (groups & Hrun & Hcon & Hall); [constructor|constructor|change (room_of cell_len []) with 0; pose proof (room_bound t (Forall_inv Hg)); lia|done|].
  change (room_of cell_len []) with 0 in Hrun. rewrite Z.add_0_r in Hrun. exists groups. split_and!; [done|done|by right|by intros ->].
Qed.
End Leaves.

(** ** Distributing children *)

Section Children.
Context {T : Type} {good : T -> Prop} {bound : Z} {cell_len : T -> Result Z} {render : T -> ST Pages bytes} {holds : gmap Z bytes -> T -> bytes -> Prop}.
Context `{!CellFormat good bound cell_len render holds}.

(** A page has room for the cells of all its children but the last. *)
Definition children_fit (group : list T) : Prop := (2 <= length group)%nat /\ 12 + room_of cell_len (take (length group - 1) group) <= PAGE_SIZE.
(** A page that was full has at least three children: there is room for three cells. *)
Definition full_group (group : list T) : Prop := children_fit group /\ (3 <= length group)%nat.

Lemma take_last_app (l : list T) x : take (length (l ++ [x]) - 1) (l ++ [x]) = l.
Proof. rewrite length_app. cbn [length]. replace (length l + 1 - 1)%nat with (length l) by lia. apply take_app_length. Qed.

Lemma interior_groups_spec : 12 + 3 * (2 + bound) <= PAGE_SIZE -> forall children groups current lastc,
  Forall good children -> Forall good (current ++ [lastc]) -> Forall full_group groups ->
  12 + room_of cell_len current <= PAGE_SIZE ->
  exists gs g, interior_groups cell_len children groups (current ++ [lastc]) (12 + room_of cell_len current) = Ok (gs ++ [g]) /\
    concat (gs ++ [g]) = concat groups ++ (current ++ [lastc]) ++ children /\ Forall full_group gs /\ g <> [] /\ Forall good g /\
    12 + room_of cell_len (take (length g - 1) g) <= PAGE_SIZE.
Proof.
  intros Hb. induction children as [|t children IH]; intros groups current lastc Hch Hcur Hgs Hfit; cbn [interior_groups].
  - exists groups, (current ++ [lastc]). rewrite take_last_app. split_and!; [done|by rewrite concat_app, app_nil_r; cbn; rewrite app_nil_r|done|by destruct current|done|done].
  - apply Forall_cons in Hch as [Ht Hch]. rewrite last_snoc. cbn [ok_or bind].
    pose proof Hcur as Hcur2. apply Forall_app in Hcur2 as [Hcur2 Hlast%Forall_inv]. pose proof (room_of_bound current Hcur2) as Hroom.
    pose proof (room_bound lastc Hlast) as Hrl. rewrite required_size_run by (done || lia). cbn [bind].
    destruct (_ && _) eqn:Ef.
    + apply andb_true_iff in Ef as [H2%Nat.leb_le Hover%Z.ltb_lt].
      assert (H3 : (3 <= length (current ++ [lastc]))%nat).
      { rewrite length_app in *. cbn [length] in *. assert (Hz : (2 + bound) * Zlen current + (2 + bound) > 3 * (2 + bound)) by lia.
        assert (2 < Zlen current + 1) by nia. unfold Zlen in *. lia. }
      destruct (IH (groups ++ [current ++ [lastc]]) [] t) as (gs & g & Hrun & Hcon & Hrest).
      * done.
      * by constructor.
      * apply Forall_app. split; [done|]. repeat constructor; [lia| |done]. by rewrite take_last_app.
      * change (room_of cell_len []) with 0. lia.
      * change (room_of cell_len []) with 0 in Hrun. rewrite Z.add_0_r in Hrun. exists gs, g. split; [exact Hrun|]. split; [|done].
        rewrite Hcon, concat_app, <- !app_assoc. cbn. by rewrite app_nil_r, <- !app_assoc.
    + assert (Hle : 12 + room_of cell_len current + room cell_len lastc <= PAGE_SIZE).
      { apply andb_false_iff in Ef as [H1%Nat.leb_gt|H1%Z.ltb_ge]; [|done]. rewrite length_app in H1. cbn [length] in H1.
        destruct current; [|cbn in H1; lia]. change (room_of cell_len []) with 0. lia. }
      rewrite (proj2 (Z.ltb_ge _ _)) by done. destruct (IH groups (current ++ [lastc]) t) as (gs & g & Hrun & Hcon & Hrest).
      * done.
      * apply Forall_app. split; [done|by constructor].
      * done.
      * rewrite room_of_app, room_of_cons. change (room_of cell_len []) with 0. lia.
      * rewrite room_of_app, room_of_cons in Hrun. change (room_of cell_len []) with 0 in Hrun. rewrite Z.add_0_r, Z.add_assoc in Hrun.
        exists gs, g. split; [exact Hrun|]. split; [|done]. by rewrite Hcon, <- !app_assoc.
Qed.

Lemma rebalance_spec gs g : 12 + 3 * (2 + bound) <= PAGE_SIZE -> Forall full_group gs -> Forall (Forall good) gs -> g <> [] -> Forall good g ->
  12 + room_of cell_len (take (length g - 1) g) <= PAGE_SIZE -> (gs = [] -> (2 <= length g)%nat) ->
  exists groups, rebalance cell_len (gs ++ [g]) = Ok groups /\ concat groups = concat (gs ++ [g]) /\ Forall children_fit groups /\ groups <> [].
Proof.
  intros Hb Hgs Hgood Hne Hg Hfit Hsingle. unfold rebalance. rewrite rev_app_distr. cbn [rev app].
  destruct (decide (2 <= length g)%nat) as [H2|H2].
  - assert (Hout : forall x : Result (list (list T)), match g :: rev gs with [_] :: _ :: _ => x | _ => Ok (gs ++ [g]) end = Ok (gs ++ [g])) by (intros; destruct g as [|? [|]]; [done|cbn in H2; lia|done]).
    exists (gs ++ [g]). split_and!; [|done| |by destruct gs].
    + destruct g as [|? [|? ?]]; [done|cbn in H2; lia|done].
    + apply Forall_app. split; [|by repeat constructor]. eapply Forall_impl; [exact Hgs|]. by intros l [? _].
  - destruct g as [|lone [|? ?]]; [done| |cbn in H2; lia]. destruct gs as [|g0 gs0 _] using rev_ind; [by specialize (Hsingle eq_refl)|].
    rewrite rev_app_distr. cbn [rev app]. apply Forall_app in Hgs as [Hgs0 [[[_ Hroom] H3] _]%Forall_cons]. apply Forall_app in Hgood as [_ Hg0%Forall_inv].
    rewrite (proj2 (Nat.ltb_ge _ _)) by done. destruct g0 as [|moved g0 _] using rev_ind; [cbn in H3; lia|]. rewrite last_snoc. cbn [ok_or bind].
    rewrite take_last_app in *. rewrite length_app in H3. cbn [length] in H3. apply Forall_app in Hg0 as [Hg0 Hmoved%Forall_inv].
    pose proof (room_bound moved Hmoved) as Hrm. destruct (cell_len_ok moved Hmoved) as (n & Hn & Hnb).
    unfold interior_page_size. cbn [length Nat.sub take fold_res bind]. unfold checked_add. rewrite (proj2 (Z.leb_le _ _)) by (unfold u64_max; lia). cbn [ok_or bind]. rewrite Hn.
    rewrite (proj2 (Z.leb_le _ _)) by (unfold u64_max, PAGE_SIZE in *; lia). cbn [ok_or bind]. rewrite (proj2 (Z.ltb_ge _ _)) by lia. rewrite rev_involutive.
    eexists. split_and!; [reflexivity| | |by destruct gs0].
    + rewrite !concat_app. cbn. by rewrite !app_nil_r, <- !app_assoc.
    + apply Forall_app. split; [eapply Forall_impl; [exact Hgs0|]; by intros l [? _]|]. repeat apply Forall_cons_2; [| |constructor].
      * split; [lia|]. assert (Hsub : exists k, g0 = take (length g0 - 1) g0 ++ k) by (exists (drop (length g0 - 1) g0); by rewrite take_drop).
        destruct Hsub as [k Hk]. assert (Hkg : Forall good k) by (rewrite Hk in Hg0; by apply Forall_app in Hg0 as [_ ?]).
        pose proof (room_of_bound k Hkg). pose proof (Zlen_nonneg k). rewrite Hk, room_of_app in Hroom. lia.
      * split; [cbn; lia|]. cbn [length Nat.sub take]. rewrite room_of_cons. change (room_of cell_len []) with 0. lia.
Qed.

Lemma paginate_interior_spec children : 12 + 3 * (2 + bound) <= PAGE_SIZE -> Forall good children -> (2 <= length children)%nat ->
  exists groups, paginate_interior_children cell_len children = Ok groups /\ concat groups = children /\ Forall children_fit groups /\ groups <> [].
Proof.
  intros Hb Hg H2. unfold paginate_interior_children. destruct children as [|first [|second rest]]; [cbn in H2; lia..|].
  apply Forall_cons in Hg as [H1 Hrest].
  destruct (interior_groups_spec Hb (second :: rest) [] [] first Hrest) as (gs & g & Hrun & Hcon & Hgs & Hne & Hgg & Hfit); [by constructor|constructor|change (room_of cell_len []) with 0; pose proof (room_bound first H1); lia|].
  change (room_of cell_len []) with 0 in Hrun. rewrite Z.add_0_r in Hrun. cbn [app] in Hrun. rewrite Hrun. cbn [bind].
  destruct (rebalance_spec gs g Hb Hgs) as (groups & -> & Hcon2 & Hall & Hne2); [|done|done|done| |exists groups; rewrite Hcon2; by split_and!].
  - assert (Hall : Forall good (concat (gs ++ [g]))) by (rewrite Hcon; by constructor). rewrite concat_app in Hall. apply Forall_app in Hall as [Hall _]. by apply Forall_concat.
  - intros ->. cbn in Hcon. rewrite app_nil_r in Hcon. rewrite Hcon. cbn. lia.
Qed.
End Children.

(** ** Trees *)

Lemma Forall2_concat_inv {A B} (P : A -> B -> Prop) groups : forall l,
  Forall2 P (concat groups) l -> exists ls, l = concat ls /\ Forall2 (Forall2 P) groups ls.
Proof.
  induction groups as [|g groups IH]; intros l Hl; cbn in Hl.
  - apply Forall2_nil_inv_l in Hl as ->. by exists [].
  - apply Forall2_app_inv_l in Hl as (l1 & l2 & H1 & H2 & ->). destruct (IH l2 H2) as (ls & -> & Hls). exists (l1 :: ls). by split; [|constructor].
Qed.

(** What the children of a tree say of their subtrees. *)
Class TreeFormat {T C : Type} (goodT : T -> Prop) (goodC : C -> Prop) (page_no : C -> Z) (leaf_child : Z -> list T -> Result C)
    (interior_child : Z -> list C -> Result C) (covers : C -> list T -> Prop) : Prop := {
  tf_leaf p g : g <> [] -> exists c, leaf_child p g = Ok c /\ page_no c = p /\ covers c g;
  tf_interior p cs css : cs <> [] -> Forall2 covers cs css -> exists c, interior_child p cs = Ok c /\ page_no c = p /\ covers c (concat css);
  tf_good c ts : covers c ts -> Forall goodT ts -> is_u32 (page_no c) -> goodC c
}.

(** The same with more asked of the cells. *)
Lemma tree_format_narrow {T C} (good good' : T -> Prop) (goodC : C -> Prop) page_no leaf_child interior_child covers :
  TreeFormat good goodC page_no leaf_child interior_child covers -> (forall t, good' t -> good t) ->
  TreeFormat good' goodC page_no leaf_child interior_child covers.
Proof.
  intros [H1 H2 H3] Hi. split; [done..|]. intros c ts Hc Hts. apply (H3 c ts Hc). eapply Forall_impl; [exact Hts|done].
Qed.

(** The tree has grown by [root] too, a page set aside before. *)
Record grows_root (root : Z) (w w' : Pages) : Prop := {
  gr_next : next_page_no w <= next_page_no w';
  gr_old : pages w ⊆ pages w';
  gr_new : forall k, is_Some (pages w' !! k) -> is_Some (pages w !! k) \/ k = root \/ next_page_no w <= k < next_page_no w';
  gr_full : forall k, k = root \/ next_page_no w <= k < next_page_no w' -> is_Some (pages w' !! k)
}.

Lemma grows_root_trans root w1 w2 w3 : grows w1 w2 -> grows_root root w2 w3 -> grows_root root w1 w3.
Proof.
  intros [A1 A2 A3 A4] [B1 B2 B3 B4]. split; [lia|by transitivity (pages w2)| |].
  - intros k Hk. destruct (B3 k Hk) as [Hk2|[->|]]; [|tauto|right; right; lia]. destruct (A3 k Hk2); [tauto|right; right; lia].
  - intros k Hk. destruct (decide (next_page_no w1 <= k < next_page_no w2)) as [Hlt|]; [|apply B4; lia].
    destruct (A4 k Hlt) as [page Hp]. exists page. by eapply lookup_weaken.
Qed.

(** A page number set aside: below the counter, and not used yet. *)
Definition set_aside (root : Z) (w : Pages) : Prop := 1 < root < next_page_no w /\ pages w !! root = None.

Lemma set_aside_grows root w w' : set_aside root w -> grows w w' -> set_aside root w'.
Proof.
  intros [Hr Hn] [G1 G2 G3 _]. split; [lia|]. apply eq_None_not_Some. intros Hs. destruct (G3 root Hs) as [[? ?]|]; [congruence|lia].
Qed.

Section Tree.
Context {T C : Type} {goodT : T -> Prop} {goodC : C -> Prop} {boundT boundC : Z}.
Context {lenT : T -> Result Z} {renderT : T -> ST Pages bytes} {holdsT : gmap Z bytes -> T -> bytes -> Prop}.
Context {lenC : C -> Result Z} {renderC : C -> ST Pages bytes} {holdsC : gmap Z bytes -> C -> bytes -> Prop}.
Context {page_no : C -> Z} {leaf_child : Z -> list T -> Result C} {interior_child : Z -> list C -> Result C} {covers : C -> list T -> Prop}.
Context `{!CellFormat goodT boundT lenT renderT holdsT, !CellFormat goodC boundC lenC renderC holdsC}.
Context `{!TreeFormat goodT goodC page_no leaf_child interior_child covers}.
Context (leaf_type interior_type : PageType) (leaf_msg what : string).

Definition leaf_content (ps : gmap Z bytes) (page : bytes) (cells : list T) : Prop :=
  exists rs, page_cells page false leaf_type None rs /\ Forall2 (holdsT ps) cells rs.

Definition interior_content (ps : gmap Z bytes) (page : bytes) (children : list C) : Prop :=
  exists rs init lastc, children = init ++ [lastc] /\ page_cells page false interior_type (Some (page_no lastc)) rs /\ Forall2 (holdsC ps) init rs.

(** The pages of a tree of height [d] over [cells] at page [p]. *)
Fixpoint tree (ps : gmap Z bytes) (d : nat) (p : Z) (cells : list T) : Prop :=
  1 < p <= u32_max /\ exists page, ps !! p = Some page /\
    match d with
    | O => leaf_content ps page cells
    | S d => exists children css, interior_content ps page children /\
        Forall2 (fun c cs => tree ps d (page_no c) cs /\ covers c cs) children css /\ cells = concat css
    end.

Lemma leaf_content_mono ps ps' page cells : ps ⊆ ps' -> leaf_content ps page cells -> leaf_content ps' page cells.
Proof. intros Hs (rs & H1 & H2). exists rs. split; [done|]. eapply Forall2_impl; [exact H2|]. intros. by eapply cell_mono. Qed.

Lemma interior_content_mono ps ps' page children : ps ⊆ ps' -> interior_content ps page children -> interior_content ps' page children.
Proof.
  intros Hs (rs & init & lastc & H1 & H2 & H3). exists rs, init, lastc. split_and!; [done..|]. eapply Forall2_impl; [exact H3|]. intros. by eapply cell_mono.
Qed.

Lemma tree_mono ps ps' d : ps ⊆ ps' -> forall p cells, tree ps d p cells -> tree ps' d p cells.
Proof.
  intros Hs. induction d as [|d IH]; intros p cells (Hp & page & Hpage & H); (split; [done|]); exists page; (split; [by eapply lookup_weaken|]).
  - by eapply leaf_content_mono.
  - destruct H as (children & css & Hc & Hf & Hcells). exists children, css. split_and!; [by eapply interior_content_mono| |done].
    eapply Forall2_impl; [exact Hf|]. cbn. naive_solver.
Qed.

Abbreviation build_leaf := (build_page renderT leaf_msg (kind_of leaf_type) 0 None).
Abbreviation build_interior := (build_interior_page renderC page_no what (kind_of interior_type)).

Lemma build_leaf_builds cells w : is_interior leaf_type = false -> Forall goodT cells -> pages_ok w -> 8 + room_of lenT cells <= PAGE_SIZE ->
  builds (build_leaf cells) w (fun page w' => grows w w' /\ pages_ok w' /\ Zlen page = PAGE_SIZE /\ leaf_content (pages w') page cells).
Proof.
  intros Ht Hg Hw Hfit. eapply builds_weaken.
  { apply (build_page_builds leaf_msg leaf_type false None cells w Hg Hw); [done| |done]. rewrite Ht. split; [done|by intros [? ?]]. }
  cbv beta. intros page w' (body & rs & H1 & H2 & -> & Hlen & H3 & H4). split_and!; [done..|exact Hlen|]. exists rs. split; [|done]. by apply (H4 []).
Qed.

Lemma build_interior_builds children w : is_interior interior_type = true -> Forall goodC children -> Forall (fun c => is_u32 (page_no c)) children -> pages_ok w ->
  children_fit (cell_len := lenC) children ->
  builds (build_interior children) w (fun page w' => grows w w' /\ pages_ok w' /\ Zlen page = PAGE_SIZE /\ interior_content (pages w') page children).
Proof.
  intros Ht Hg Hu Hw [H2 Hfit]. unfold build_interior_page. rewrite (proj2 (Nat.ltb_ge _ _)) by done.
  destruct children as [|lastc init _] using rev_ind; [cbn in H2; lia|]. rewrite take_last_app in *.
  apply Forall_app in Hg as [Hg _]. apply Forall_app in Hu as [_ Hu%Forall_inv].
  eapply (builds_get _ lastc).
  { unfold vec_index. rewrite length_app. cbn [length]. rewrite lookup_app_r by lia. by replace (length init + 1 - 1 - length init)%nat with O by lia. }
  eapply builds_weaken.
  { apply (build_page_builds ("sqlite writer does not support interior " ++ what ++ " pages that overflow a single page")%string interior_type false (Some (page_no lastc)) init w Hg Hw).
    - done.
    - rewrite Ht. split; eauto.
    - by intros p [= <-]. }
  cbv beta. intros page w' (body & rs & H3 & H4 & -> & Hlen & H5 & H6). split_and!; [done..|exact Hlen|]. exists rs, init, lastc. split_and!; [done| |done]. by apply (H6 []).
Qed.

(** A level: pages at new numbers, each with the contents of its group. *)
Lemma build_level_builds {X Y} (build : list X -> ST Pages bytes) (child_of : Z -> list X -> Result Y) (content : gmap Z bytes -> bytes -> list X -> Prop)
    (ok : list X -> Prop) (made : Z -> list X -> Y -> Prop) :
  (forall ps ps' page g, ps ⊆ ps' -> content ps page g -> content ps' page g) ->
  (forall g w, ok g -> pages_ok w -> builds (build g) w (fun page w' => grows w w' /\ pages_ok w' /\ Zlen page = PAGE_SIZE /\ content (pages w') page g)) ->
  (forall p g, ok g -> exists y, child_of p g = Ok y /\ made p g y) ->
  forall groups w, Forall ok groups -> pages_ok w ->
  builds (build_level allocate_page build child_of groups) w (fun ys w' => grows w w' /\ pages_ok w' /\
    Forall2 (fun y g => exists p page, 1 < p <= u32_max /\ pages w' !! p = Some page /\ content (pages w') page g /\ made p g y) ys groups).
Proof.
  intros Hmono Hbuild Hchild. induction groups as [|g groups IH]; intros w Hok Hw; cbn [build_level].
  - apply builds_ret. split_and!; [apply grows_refl|done|constructor].
  - apply Forall_cons in Hok as [Hg Hok]. eapply builds_bind; [by apply allocate_page_builds|]. cbv beta. intros p w1 (Hp & Hn1 & Hp1 & Hw1).
    destruct (Hchild p g Hg) as (y & Hy & Hmade). eapply builds_get; [exact Hy|].
    eapply builds_bind; [by apply Hbuild|]. cbv beta. intros page w2 (Hgr2 & Hw2 & Hsize & Hcontent).
    assert (Hfree : pages w2 !! p = None).
    { apply eq_None_not_Some. intros Hs. destruct (g_new _ _ Hgr2 p Hs) as [H1|]; [|lia]. rewrite Hp1 in H1. apply (po_below _ Hw) in H1. lia. }
    eapply builds_bind; [apply insert_page_builds; [done..| |done]; pose proof (g_next _ _ Hgr2); lia|]. cbv beta. intros _ w3 (Hn3 & Hp3 & Hw3).
    assert (Hgr3 : grows w w3).
    { pose proof (g_next _ _ Hgr2). split.
      - lia.
      - rewrite Hp3. transitivity (pages w2); [rewrite <- Hp1; apply (g_old _ _ Hgr2)|by apply insert_subseteq].
      - intros k Hk. destruct (decide (k = p)) as [->|Hne]; [right; lia|]. rewrite Hp3, lookup_insert_ne in Hk by done.
        destruct (g_new _ _ Hgr2 k Hk) as [H1|]; [left; by rewrite Hp1 in H1|right; lia].
      - intros k Hk. rewrite Hp3. destruct (decide (k = p)) as [->|Hne]; [by rewrite lookup_insert_eq|]. rewrite lookup_insert_ne by done. apply (g_full _ _ Hgr2). lia. }
    eapply builds_bind; [by apply IH|]. cbv beta. intros ys w' (Hgr' & Hw' & Hys). apply builds_ret. split_and!; [by eapply grows_trans|done|].
    assert (Hsub : pages w2 ⊆ pages w') by (transitivity (pages w3); [rewrite Hp3; by apply insert_subseteq|apply Hgr']).
    constructor; [|done]. exists p, page. split_and!; [destruct Hw; lia|destruct Hw1; lia| |by eapply Hmono|done].
    eapply lookup_weaken; [|apply Hgr']. rewrite Hp3. apply lookup_insert_eq.
Qed.

Lemma insert_root root page w : set_aside root w -> pages_ok w -> Zlen page = PAGE_SIZE ->
  builds (insert_page root page) w (fun _ w' => grows_root root w w' /\ pages_ok w' /\ pages w' !! root = Some page).
Proof.
  intros [Hr Hn] Hw Hsize. eapply builds_weaken; [apply insert_page_builds; [done..|lia|done]|]. cbv beta. intros _ w' (Hn' & Hp' & Hw'). split_and!; [|done|rewrite Hp'; apply lookup_insert_eq].
  split; [lia|rewrite Hp'; by apply insert_subseteq| |].
  - intros k Hk. destruct (decide (k = root)) as [->|Hne]; [tauto|]. rewrite Hp', lookup_insert_ne in Hk by done. tauto.
  - intros k [->|Hk]; [rewrite Hp'; by rewrite lookup_insert_eq|lia].
Qed.

Definition subtrees (ps : gmap Z bytes) (d : nat) (children : list C) (css : list (list T)) : Prop :=
  Forall2 (fun c cs => is_u32 (page_no c) /\ tree ps d (page_no c) cs /\ covers c cs) children css.

Lemma subtrees_mono ps ps' d children css : ps ⊆ ps' -> subtrees ps d children css -> subtrees ps' d children css.
Proof. intros Hs H. eapply Forall2_impl; [exact H|]. intros c cs (H1 & H2 & H3). split_and!; [done|by eapply tree_mono|done]. Qed.

Lemma subtrees_good ps d children css : subtrees ps d children css -> Forall goodT (concat css) ->
  Forall goodC children /\ Forall (fun c => is_u32 (page_no c)) children.
Proof.
  induction 1 as [|c cs children css (Hu & _ & Hc) _ IH]; [done|]. cbn. intros [Hcs Hcss]%Forall_app. destruct (IH Hcss). split; constructor; try done. by eapply tf_good.
Qed.

Context (Hleaf : is_interior leaf_type = false) (Hinterior : is_interior interior_type = true).
Context (HboundT : 10 + boundT <= PAGE_SIZE) (HboundC : 12 + 3 * (2 + boundC) <= PAGE_SIZE).

Lemma interior_child_made p children css : children <> [] -> Forall2 covers children css ->
  exists c, interior_child p children = Ok c /\ page_no c = p /\ covers c (concat css).
Proof. intros. by apply tf_interior. Qed.

Lemma subtrees_groups ps d groups css : subtrees ps d (concat groups) css ->
  exists csss, css = concat csss /\ Forall2 (subtrees ps d) groups csss.
Proof. apply Forall2_concat_inv. Qed.

Lemma subtrees_covers ps d children css : subtrees ps d children css -> Forall2 covers children css.
Proof. intros H. eapply Forall2_impl; [exact H|]. by intros c cs (_ & _ & ?). Qed.

Lemma interior_tree ps d p page children css : 1 < p <= u32_max -> ps !! p = Some page -> interior_content ps page children -> subtrees ps d children css ->
  tree ps (S d) p (concat css).
Proof.
  intros Hp Hpage Hc Hs. split; [lia|]. exists page. split; [done|]. exists children, css. split_and!; [done| |done].
  eapply Forall2_impl; [exact Hs|]. by intros c cs (_ & ? & ?).
Qed.

(** The groups of a level, and the children it leaves for the next one. *)
Definition group_ok (g : list C) : Prop :=
  children_fit (cell_len := lenC) g /\ Forall goodC g /\ Forall (fun c => is_u32 (page_no c)) g /\ exists css, Forall2 covers g css.
Definition parent_made (p : Z) (g : list C) (c : C) : Prop := page_no c = p /\ forall css, Forall2 covers g css -> covers c (concat css).

Lemma parent_exists p g : group_ok g -> exists c, interior_child p g = Ok c /\ parent_made p g c.
Proof.
  intros ((H2 & _) & _ & _ & css & Hcss). assert (Hne : g <> []) by (by intros ->; cbn in H2; lia).
  destruct (interior_child_made p g css Hne Hcss) as (c & Hc & Hp & _). exists c. split; [done|]. split; [done|]. intros css' Hcss'.
  destruct (interior_child_made p g css' Hne Hcss') as (c' & Hc' & _ & Hcov). congruence.
Qed.

Lemma group_builds g w : group_ok g -> pages_ok w ->
  builds (build_interior g) w (fun page w' => grows w w' /\ pages_ok w' /\ Zlen page = PAGE_SIZE /\ interior_content (pages w') page g).
Proof. intros (H1 & H2 & H3 & _) Hw. by apply build_interior_builds. Qed.

Lemma parents_subtrees ps ps' d : forall groups csss parents, ps ⊆ ps' ->
  Forall2 (subtrees ps d) groups csss ->
  Forall2 (fun c g => exists p page, 1 < p <= u32_max /\ ps' !! p = Some page /\ interior_content ps' page g /\ parent_made p g c) parents groups ->
  subtrees ps' (S d) parents (map (@concat T) csss).
Proof.
  intros groups csss parents Hs Hg. revert parents. induction Hg as [|g css groups csss Hgc _ IH]; intros parents Hp.
  - apply Forall2_nil_inv_r in Hp as ->. constructor.
  - apply Forall2_cons_inv_r in Hp as (c & parents' & (p & page & Hp1 & Hpage & Hcontent & Hno & Hcov) & Hrest & ->). cbn [map]. constructor; [|by apply IH].
    pose proof (subtrees_mono ps ps' d g css Hs Hgc) as Hgc'. rewrite Hno. split_and!; [width| |apply Hcov; by eapply subtrees_covers].
    eapply interior_tree; [lia|done..].
Qed.

Lemma concat_map_concat {A} (lll : list (list (list A))) : concat (map (@concat A) lll) = concat (concat lll).
Proof. induction lll as [|ll lll IH]; [done|]. cbn. by rewrite concat_app, IH. Qed.

Lemma groups_shrink (groups : list (list C)) : Forall (fun g => (2 <= length g)%nat) groups -> (2 * length groups <= length (concat groups))%nat.
Proof. induction 1 as [|g groups Hg _ IH]; [done|]. cbn [concat length]. rewrite length_app. lia. Qed.

Lemma build_interior_levels_builds root : forall fuel d children css w,
  pages_ok w -> set_aside root w -> subtrees (pages w) d children css -> Forall goodT (concat css) ->
  (2 <= length children)%nat -> (length children <= fuel)%nat ->
  builds (build_interior_levels fuel root (paginate_interior_children lenC) build_interior interior_child children) w (fun _ w' =>
    exists d', grows_root root w w' /\ pages_ok w' /\ tree (pages w') d' root (concat css)).
Proof.
  induction fuel as [|fuel IH]; intros d children css w Hw Haside Hsub Hgood H2 Hfuel; cbn [build_interior_levels]; rewrite (proj2 (Nat.leb_gt _ _)) by lia; [lia|].
  destruct (subtrees_good (pages w) d children css Hsub Hgood) as [Hgc Hgu].
  destruct (paginate_interior_spec children HboundC Hgc H2) as (groups & Hgroups & Hcon & Hfit & Hne). eapply builds_get; [exact Hgroups|]. rewrite <- Hcon in Hsub.
  destruct (subtrees_groups (pages w) d groups css Hsub) as (csss & -> & Hcsss).
  assert (Hok : Forall group_ok groups).
  { rewrite <- Hcon in Hgc, Hgu. apply Forall_concat in Hgc, Hgu. apply Forall_lookup. intros i g Hi.
    destruct (Forall2_lookup_l _ _ _ _ _ Hcsss Hi) as (cs & _ & Hcs). split_and!; [by apply (Forall_lookup_1 _ _ _ _ Hfit Hi)|by apply (Forall_lookup_1 _ _ _ _ Hgc Hi)|by apply (Forall_lookup_1 _ _ _ _ Hgu Hi)|].
    exists cs. by eapply subtrees_covers. }
  assert (Hshrink : (2 * length groups <= length children)%nat).
  { rewrite <- Hcon. apply groups_shrink. eapply Forall_impl; [exact Hfit|]. by intros g [? _]. }
  destruct (Nat.eqb_spec (length groups) 1) as [H1|H1].
  - destruct groups as [|g [|? ?]]; [done| |cbn in H1; lia]. apply Forall_inv in Hok. cbn [build_level].
    unfold st_bind at 1 2, st_ret at 1. destruct (parent_exists root g Hok) as (c & Hc & Hmade).
    eapply builds_bind; [eapply builds_get; [exact Hc|]|].
    { eapply builds_bind; [by apply group_builds|]. cbv beta. intros page w1 (Hg1 & Hw1 & Hsize & Hcontent).
      eapply builds_bind; [apply insert_root; [by eapply set_aside_grows|done..]|]. cbv beta. intros _ w2 (Hg2 & Hw2 & Hroot).
      apply (builds_ret [c] w2 (fun cs w' => cs = [c] /\ grows_root root w w' /\ pages_ok w' /\ tree (pages w') (S d) root (concat (concat csss)))).
      split_and!; [done|by eapply grows_root_trans|done|].
      apply Forall2_cons_inv_l in Hcsss as (css1 & csss' & Hsub1 & Hnil & ->). apply Forall2_nil_inv_l in Hnil as ->. cbn [concat]. rewrite app_nil_r.
      eapply interior_tree; [destruct Haside, Hw; lia|exact Hroot|eapply interior_content_mono; [apply (gr_old _ _ _ Hg2)|exact Hcontent]|].
      eapply subtrees_mono; [|exact Hsub1]. etransitivity; [apply (g_old _ _ Hg1)|apply (gr_old _ _ _ Hg2)]. }
    cbv beta. intros cs w' (-> & Hg & Hw' & Htree). destruct fuel; cbn [build_interior_levels length Nat.leb]; apply builds_ret; by exists (S d).
  - assert (Hmany : (2 <= length groups)%nat) by (destruct groups as [|? [|? ?]]; [done|done|cbn; lia]).
    eapply builds_bind.
    { apply (build_level_builds build_interior interior_child interior_content group_ok parent_made); [intros; by eapply interior_content_mono|apply group_builds|apply parent_exists|done|done]. }
    cbv beta. intros parents w1 (Hg1 & Hw1 & Hparents). pose proof (Forall2_length _ _ _ Hparents) as Hlen.
    pose proof (parents_subtrees (pages w) (pages w1) d groups csss parents (g_old _ _ Hg1) Hcsss Hparents) as Hsub1.
    eapply builds_weaken; [apply (IH (S d) parents (map (@concat T) csss) w1 Hw1)|].
    + by eapply set_aside_grows.
    + done.
    + by rewrite concat_map_concat.
    + lia.
    + lia.
    + cbv beta. rewrite concat_map_concat. intros _ w' (d' & Hg & Hw' & Ht). exists d'. split_and!; [by eapply grows_root_trans|done..].
Qed.

Definition leaf_group_ok (g : list T) : Prop := leaf_fits (cell_len := lenT) 8 g /\ Forall goodT g.
Definition leaf_made (p : Z) (g : list T) (c : C) : Prop := page_no c = p /\ covers c g.

Lemma leaf_builds g w : leaf_group_ok g -> pages_ok w -> builds (build_leaf g) w (fun page w' => grows w w' /\ pages_ok w' /\ Zlen page = PAGE_SIZE /\ leaf_content (pages w') page g).
Proof. intros [[_ Hfit] Hg] Hw. by apply build_leaf_builds. Qed.

Lemma leaves_subtrees ps groups children :
  Forall2 (fun c g => exists p page, 1 < p <= u32_max /\ ps !! p = Some page /\ leaf_content ps page g /\ leaf_made p g c) children groups ->
  subtrees ps 0 children groups.
Proof.
  intros H. eapply Forall2_impl; [exact H|]. intros c g (p & page & Hp & Hpage & Hcontent & -> & Hcov). split_and!; [width| |done]. split; [lia|]. by exists page.
Qed.

(** The tree over the cells stands at the root page, and nothing but new pages and the root
    has been added. *)
Lemma build_btree_builds root cells w : pages_ok w -> set_aside root w -> Forall goodT cells ->
  builds (build_btree lenT build_leaf leaf_child (paginate_interior_children lenC) build_interior interior_child root cells) w (fun _ w' =>
    exists d, grows_root root w w' /\ pages_ok w' /\ tree (pages w') d root cells).
Proof.
  intros Hw Haside Hgood. unfold build_btree.
  destruct (paginate_leaf_cells_spec (holds := holdsT) (bound := boundT) cells 8 ltac:(lia) ltac:(lia) Hgood) as (groups & Hgroups & Hcon & Hfit & Hne). eapply builds_get; [exact Hgroups|].
  assert (Hroot : forall g, cells = g -> 8 + room_of lenT g <= PAGE_SIZE ->
    builds (let! root_page := build_leaf g in insert_page root root_page) w (fun _ w' => exists d, grows_root root w w' /\ pages_ok w' /\ tree (pages w') d root cells)).
  { intros g <- Hroom. eapply builds_bind; [by apply build_leaf_builds|]. cbv beta. intros page w1 (Hg1 & Hw1 & Hsize & Hcontent).
    eapply builds_weaken; [apply insert_root; [by eapply set_aside_grows|done..]|]. cbv beta. intros _ w' (Hg & Hw' & Hpage). exists O.
    split_and!; [by eapply grows_root_trans|done|]. split; [destruct Haside, Hw; lia|]. exists page. split; [done|].
    eapply leaf_content_mono; [apply (gr_old _ _ _ Hg)|done]. }
  destruct groups as [|g [|g2 groups]]; [done| |].
  - apply Hroot; [by rewrite <- Hcon; cbn; rewrite app_nil_r|]. destruct Hfit as [[= ->]|Hfit]; [change (room_of lenT []) with 0; unfold PAGE_SIZE; lia|by destruct (Forall_inv Hfit)].
  - destruct Hfit as [Hfit|Hfit]; [done|]. set (all := g :: g2 :: groups) in *.
    assert (Hok : Forall leaf_group_ok all).
    { rewrite <- Hcon in Hgood. apply Forall_concat in Hgood. apply Forall_lookup. intros i x Hx. split; [by apply (Forall_lookup_1 _ _ _ _ Hfit Hx)|by apply (Forall_lookup_1 _ _ _ _ Hgood Hx)]. }
    eapply builds_bind.
    { apply (build_level_builds build_leaf leaf_child leaf_content leaf_group_ok leaf_made); [intros; by eapply leaf_content_mono|apply leaf_builds| |done|done].
      intros p x [[Hx _] _]. by apply tf_leaf. }
    cbv beta. intros children w1 (Hg1 & Hw1 & Hch). pose proof (Forall2_length _ _ _ Hch) as Hlen. apply leaves_subtrees in Hch.
    eapply builds_weaken; [apply (build_interior_levels_builds root (length children) 0 children all w1 Hw1)|].
    + by eapply set_aside_grows.
    + done.
    + by rewrite Hcon.
    + rewrite Hlen. cbn. lia.
    + done.
    + cbv beta. rewrite Hcon. intros _ w' (d & Hg & Hw' & Ht). exists d. split_and!; [by eapply grows_root_trans|done..].
Qed.
End Tree.
