(* ===== verification/SqliteReading.v ===== *)
(** * The formats of the writer's cells

    The five kinds of cells the writer places on pages, as instances of [CellFormat], and
    the two kinds of trees it builds, as instances of [TreeFormat]: a child page of a table
    is known by the last row id under it, one of an index by the last key. *)

From S2P Require Import Prelude Text Varint Types Schema Record SqliteFile SqliteBTree SqliteWriter SqliteChains SqliteTrees.



Lemma Zlen_encode_varint v : is_u64 v -> 1 <= Zlen (encode_varint v) <= 9.
Proof. intros Hv. by apply encode_varint_shape. Qed.

Lemma stored_size_bound is_index n : 0 <= n -> 0 <= stored_size is_index n <= max_local is_index + 4.
Proof. intros Hn. unfold stored_size. pose proof (local_part_bounds is_index n Hn) as [H _]. case_match; lia. Qed.

Lemma cell_length_run head is_index n e : 0 <= head <= 18 -> 0 <= n -> cell_length head (local_part is_index n) n e = Ok (head + stored_size is_index n).
Proof.
  intros Hh Hn. pose proof (local_part_bounds is_index n Hn) as [H _]. assert (max_local is_index <= 4061) by (by destruct is_index).
  unfold cell_length, checked_add, stored_size. rewrite (proj2 (Z.leb_le _ _)) by (unfold u64_max; lia). cbn [ok_or bind].
  destruct (Z.ltb_spec (local_part is_index n) n); [|do 2 f_equal; lia]. rewrite (proj2 (Z.leb_le _ _)) by (unfold u64_max; lia). cbn [ok_or]. f_equal. lia.
Qed.

(** ** Cells with a payload *)

(** A rendered cell: its head, and what is stored of its payload. *)
Definition payload_cell (is_index : bool) (ps : gmap Z bytes) (head payload r : bytes) : Prop :=
  exists s, r = head ++ s /\ stored ps is_index payload s.

Lemma payload_cell_mono is_index ps ps' head payload r : ps ⊆ ps' -> payload_cell is_index ps head payload r -> payload_cell is_index ps' head payload r.
Proof. intros Hs (s & -> & H). exists s. split; [done|]. by eapply stored_mono. Qed.

Lemma render_cell_builds is_index (head payload : bytes) (finish : bytes -> bytes) w : pages_ok w -> Zlen payload <= i64_max ->
  (forall s, finish s = head ++ s) ->
  builds (let! rendered := render_payload payload (local_part is_index (Zlen payload)) in st_ret (finish rendered)) w (fun r w' =>
    grows w w' /\ pages_ok w' /\ payload_cell is_index (pages w') head payload r /\
    Ok (Zlen head + stored_size is_index (Zlen payload)) =@{Result Z} Ok (Zlen r)).
Proof.
  intros Hw Hp Hf. eapply builds_bind; [by apply render_payload_builds|]. cbv beta. intros s w' (Hg & Hw' & Hs). apply builds_ret. rewrite Hf.
  split_and!; [done..|by exists s|]. by rewrite Zlen_app, (stored_length _ _ _ _ Hs).
Qed.

Lemma Zlen_u64 {A} (l : list A) : Zlen l <= i64_max -> is_u64 (Zlen l).
Proof. pose proof (Zlen_nonneg l). width. Qed.

Definition table_leaf_good (cell : TableLeafCellData) : Prop := is_u64 (leaf_row_id cell) /\ Zlen (leaf_payload cell) <= i64_max.
Definition table_leaf_head (cell : TableLeafCellData) : bytes := encode_varint (Zlen (leaf_payload cell)) ++ encode_varint (leaf_row_id cell).
Definition table_leaf_holds (ps : gmap Z bytes) (cell : TableLeafCellData) : bytes -> Prop := payload_cell false ps (table_leaf_head cell) (leaf_payload cell).

#[export] Instance table_leaf_format : CellFormat table_leaf_good 4083 leaf_table_cell_len render_table_leaf_cell table_leaf_holds.
Proof.
  assert (Hlen : forall t, table_leaf_good t -> leaf_table_cell_len t = Ok (Zlen (table_leaf_head t) + stored_size false (Zlen (leaf_payload t))) /\ 0 <= Zlen (table_leaf_head t) <= 18).
  { intros t [Hid Hp]. pose proof (Zlen_u64 _ Hp) as Hu. pose proof (Zlen_encode_varint _ Hid). pose proof (Zlen_encode_varint _ Hu).
    unfold leaf_table_cell_len, table_leaf_head. rewrite writer_local by width. cbn [bind]. rewrite Zlen_app, cell_length_run by width. split; [done|lia]. }
  split.
  - intros t Ht. destruct (Hlen t Ht) as [-> Hh]. eexists. split; [done|]. pose proof (stored_size_bound false (Zlen (leaf_payload t)) (Zlen_nonneg _)) as Hs. cbn in Hs. lia.
  - intros t w Ht Hw. destruct (Hlen t Ht) as [-> Hh]. destruct Ht as [Hid Hp]. pose proof (Zlen_u64 _ Hp) as Hu.
    unfold render_table_leaf_cell. eapply builds_get; [apply writer_local; width|]. cbv beta.
    apply render_cell_builds; [done..|]. intros s. apply app_assoc.
  - intros ps ps' t r. apply payload_cell_mono.
Qed.

Definition index_leaf_head (cell : IndexLeafCellData) : bytes := encode_varint (Zlen (index_payload cell)).
Definition index_leaf_holds (ps : gmap Z bytes) (cell : IndexLeafCellData) : bytes -> Prop := payload_cell true ps (index_leaf_head cell) (index_payload cell).

(** The key of a cell, of at least [n] values, goes on an interior page when the cell is
    the last of a leaf. *)
Definition index_leaf_good (n : Z) (cell : IndexLeafCellData) : Prop :=
  record_fits (leaf_key cell) /\ n <= Zlen (leaf_key cell) /\ Zlen (index_payload cell) <= i64_max.

#[export] Instance index_leaf_format n : CellFormat (index_leaf_good n) 1015 leaf_index_cell_len render_index_leaf_cell index_leaf_holds.
Proof.
  assert (Hlen : forall t, index_leaf_good n t -> leaf_index_cell_len t = Ok (Zlen (index_leaf_head t) + stored_size true (Zlen (index_payload t))) /\ 0 <= Zlen (index_leaf_head t) <= 9).
  { intros t (_ & _ & Hp). pose proof (Zlen_u64 _ Hp) as Hu. pose proof (Zlen_encode_varint _ Hu).
    unfold leaf_index_cell_len, index_leaf_head, index_local_payload_len. rewrite writer_local by width. cbn [bind]. rewrite cell_length_run by width. split; [done|lia]. }
  split.
  - intros t Ht. destruct (Hlen t Ht) as [-> Hh]. eexists. split; [done|]. pose proof (stored_size_bound true (Zlen (index_payload t)) (Zlen_nonneg _)) as Hs. cbn in Hs. lia.
  - intros t w Ht Hw. destruct (Hlen t Ht) as [-> Hh]. destruct Ht as (_ & _ & Hp). pose proof (Zlen_u64 _ Hp) as Hu.
    unfold render_index_leaf_cell. eapply builds_get; [apply writer_local; width|]. cbv beta. by apply render_cell_builds.
  - intros ps ps' t r. apply payload_cell_mono.
Qed.

(** ** Cells of interior pages *)

Definition table_child_good (child : TableChildPage) : Prop := is_u64 (max_row_id child) /\ is_u32 (table_page_no child).
Definition table_child_bytes (child : TableChildPage) : bytes := to_be 4 (table_page_no child) ++ encode_varint (max_row_id child).
Definition table_child_holds (_ : gmap Z bytes) (child : TableChildPage) (r : bytes) : Prop := r = table_child_bytes child.

#[export] Instance table_child_format : CellFormat table_child_good 13 interior_table_cell_len render_interior_table_cell table_child_holds.
Proof.
  split.
  - intros t [Hid _]. eexists. split; [done|]. pose proof (Zlen_encode_varint _ Hid). lia.
  - intros t w _ Hw. apply builds_ret. split_and!; [apply grows_refl|done..|]. unfold interior_table_cell_len. by zlen.
  - done.
Qed.

Definition index_child_good (n : Z) (child : IndexChildPage) : Prop := record_fits (max_key child) /\ n <= Zlen (max_key child) /\ is_u32 (index_page_no child).
Definition index_child_head (child : IndexChildPage) (payload : bytes) : bytes := to_be 4 (index_page_no child) ++ encode_varint (Zlen payload).
Definition index_child_holds (ps : gmap Z bytes) (child : IndexChildPage) (r : bytes) : Prop :=
  exists payload, encode_record (max_key child) = Ok payload /\ payload_cell true ps (index_child_head child payload) payload r.

Lemma encode_record_fits vs : record_fits vs -> exists payload, encode_record vs = Ok payload /\ Zlen payload <= i64_max.
Proof.
  intros Hfit. destruct (encode_record_shape vs Hfit) as (n & -> & Hn & Hl). eexists. split; [done|]. destruct Hfit as [_ Hfit].
  rewrite !Zlen_app, Hl. unfold i64_max. change (2 ^ 62) with 4611686018427387904 in Hfit. lia.
Qed.

#[export] Instance index_child_format n : CellFormat (index_child_good n) 1019 interior_index_cell_len render_interior_index_cell index_child_holds.
Proof.
  assert (Hlen : forall t payload, encode_record (max_key t) = Ok payload -> Zlen payload <= i64_max ->
    interior_index_cell_len t = Ok (Zlen (index_child_head t payload) + stored_size true (Zlen payload)) /\ 0 <= Zlen (index_child_head t payload) <= 13).
  { intros t payload Henc Hp. pose proof (Zlen_u64 _ Hp) as Hu. pose proof (Zlen_encode_varint _ Hu).
    unfold interior_index_cell_len, index_child_head, index_local_payload_len. rewrite Henc. cbn [bind]. rewrite writer_local by width. cbn [bind].
    rewrite Zlen_app, Zlen_to_be, cell_length_run by width. split; [|lia]. do 2 f_equal; lia. }
  split.
  - intros t [Hfit _]. destruct (encode_record_fits _ Hfit) as (payload & Henc & Hp). destruct (Hlen t payload Henc Hp) as [-> Hh]. eexists. split; [done|].
    pose proof (stored_size_bound true (Zlen payload) (Zlen_nonneg _)) as Hs. cbn in Hs. lia.
  - intros t w [Hfit _] Hw. destruct (encode_record_fits _ Hfit) as (payload & Henc & Hp). destruct (Hlen t payload Henc Hp) as [-> Hh]. pose proof (Zlen_u64 _ Hp) as Hu.
    unfold render_interior_index_cell. eapply builds_get; [exact Henc|]. eapply builds_get; [apply writer_local; width|]. cbv beta.
    eapply builds_weaken; [apply (render_cell_builds true (index_child_head t payload)); [done..|]; intros s; apply app_assoc|].
    cbv beta. intros r w' (Hg & Hw' & Hr & ?). split_and!; [done..|by exists payload|done].
  - intros ps ps' t r Hs (payload & Henc & Hr). exists payload. split; [done|]. by eapply payload_cell_mono.
Qed.

(** ** Trees *)

(** A child is known by what [key_of] gives of the last cell under it. *)
Definition covers_last {T C K} (key_of : T -> K) (max_of : C -> K) (c : C) (ts : list T) : Prop := exists t, last ts = Some t /\ max_of c = key_of t.

Lemma covers_last_concat {T C K} (key_of : T -> K) (max_of : C -> K) (cs : list C) (css : list (list T)) c k :
  Forall2 (covers_last key_of max_of) cs css -> last cs = Some c -> k = max_of c -> exists t, last (concat css) = Some t /\ k = key_of t.
Proof.
  intros H Hc ->. destruct cs as [|c' cs' _] using rev_ind; [done|]. rewrite last_snoc in Hc. injection Hc as ->.
  apply Forall2_app_inv_l in H as (css1 & css2 & _ & H2 & ->). apply Forall2_cons_inv_l in H2 as (ts & css3 & (t & Ht & Hk) & H3 & ->).
  apply Forall2_nil_inv_l in H3 as ->. exists t. split; [|done]. rewrite concat_app. cbn. by rewrite app_nil_r, last_app, Ht.
Qed.

Definition table_covers : TableChildPage -> list TableLeafCellData -> Prop := covers_last leaf_row_id max_row_id.
Definition index_covers : IndexChildPage -> list IndexLeafCellData -> Prop := covers_last leaf_key max_key.

Lemma last_nonempty {A} (l : list A) : l <> [] -> exists x, last l = Some x /\ x ∈ l.
Proof. intros Hl. destruct (last l) as [x|] eqn:E; [|by apply last_None in E]. exists x. split; [done|]. by apply last_Some_elem_of. Qed.

#[export] Instance table_tree_format : TreeFormat table_leaf_good table_child_good table_page_no table_leaf_child table_interior_child table_covers.
Proof.
  split.
  - intros p g Hg. destruct (last_nonempty g Hg) as (t & Ht & _). eexists. split_and!; [done..|]. exists t. cbn. by rewrite Ht.
  - intros p cs css Hcs Hcov. destruct (last_nonempty cs Hcs) as (c & Hc & _). unfold table_interior_child. rewrite Hc. eexists. split_and!; [done..|].
    by eapply covers_last_concat.
  - intros c ts (t & Ht & Hm) Hg Hp. split; [|done]. rewrite Hm. by destruct (Forall_forall table_leaf_good ts) as [H _]; destruct (H Hg t (last_Some_elem_of _ _ Ht)).
Qed.

#[export] Instance index_tree_format n leaf interior :
  TreeFormat (index_leaf_good n) (index_child_good n) index_page_no (index_leaf_child leaf) (index_interior_child interior) index_covers.
Proof.
  split.
  - intros p g Hg. destruct (last_nonempty g Hg) as (t & Ht & _). unfold index_leaf_child. rewrite Ht. eexists. split_and!; [done..|]. by exists t.
  - intros p cs css Hcs Hcov. destruct (last_nonempty cs Hcs) as (c & Hc & _). unfold index_interior_child. rewrite Hc. eexists. split_and!; [done..|].
    by eapply covers_last_concat.
  - intros c ts (t & Ht & Hm) Hg Hp. unfold index_child_good. rewrite Hm. destruct (Forall_forall (index_leaf_good n) ts) as [H _].
    by destruct (H Hg t (last_Some_elem_of _ _ Ht)) as (? & ? & _).
Qed.

(** * Reading the writer's trees

    On the pages of a tree the readers find its cells, in order: a scan gives what the
    cells of the tree decode to, and the search for a row follows the right child. *)


(** ** Folds that can fail *)

Lemma mapM_res_app {A B} (f : A -> Result B) l k : mapM_res f (l ++ k) = (let? xs := mapM_res f l in let? ys := mapM_res f k in Ok (xs ++ ys)).
Proof.
  induction l as [|a l IH]; cbn [mapM_res app]; [by destruct (mapM_res f k)|]. destruct (f a); [|done..]. cbn [bind]. rewrite IH.
  destruct (mapM_res f l); [|done..]. cbn [bind]. by destruct (mapM_res f k).
Qed.

Lemma mapM_res_map {A B C} (f : B -> Result C) (g : A -> B) l : mapM_res f (map g l) = mapM_res (fun a => f (g a)) l.
Proof. induction l as [|a l IH]; cbn [map mapM_res]; [done|]. by rewrite IH. Qed.

Lemma mapM_res_Forall2_ext {A B C} (f : A -> Result C) (g : B -> Result C) l k : Forall2 (fun a b => f a = g b) l k -> mapM_res f l = mapM_res g k.
Proof. induction 1 as [|a b l k H _ IH]; cbn [mapM_res]; [done|]. by rewrite H, IH. Qed.

Lemma fold_res_ext {A B} (f g : B -> A -> Result B) l acc : (forall b a, a ∈ l -> f b a = g b a) -> fold_res f l acc = fold_res g l acc.
Proof.
  revert acc. induction l as [|a l IH]; intros acc H; cbn [fold_res]; [done|]. rewrite H by left. destruct (g acc a); [|done..]. cbn [bind]. apply IH. intros b x Hx. apply H. by right.
Qed.

(** ** The cells of a page *)

(** A cell at an offset of a page. *)
Definition at_offset (page : bytes) (offset : Z) (r : bytes) : Prop := 0 <= offset <= u16_max /\ exists pre post, page = pre ++ r ++ post /\ Zlen pre = offset.

Lemma get_from_at {A} (pre post : list A) : get_from (pre ++ post) (Zlen pre) = Some post.
Proof. rewrite get_from_drop by (rewrite Zlen_app; pose proof (Zlen_nonneg pre); pose proof (Zlen_nonneg post); lia). unfold Zlen. by rewrite Nat2Z.id, drop_app_length. Qed.

Lemma slice_rest {A} (l1 l2 : list A) : slice_range (l1 ++ l2) (Zlen l1) (Zlen (l1 ++ l2)) = Ok l2.
Proof.
  apply slice_range_Ok. pose proof (get_range_app_mid l1 l2 [] (Zlen l1) (Zlen (l1 ++ l2)) eq_refl (Zlen_app _ _)) as H. by rewrite app_nil_r in H.
Qed.

Lemma page_offsets page first_page type rightmost rs : page_cells page first_page type rightmost rs ->
  exists header offsets, decode_page_header page first_page = Ok header /\ page_type header = type /\ rightmost_pointer header = rightmost /\
    (forall e, offsets_from (Z.to_nat (cell_count header)) page (pointer_array_offset header first_page) 0 e = Ok offsets) /\
    Forall2 (at_offset page) offsets rs.
Proof. done. Qed.

(** A page of decodable cells. *)
Lemma decode_cells_run {A T} (holds : T -> bytes -> Prop) (decode : Z -> Result A) (read : T -> Result A) wrong page first_page type rightmost rs cells :
  page_cells page first_page type rightmost rs -> Forall2 holds cells rs ->
  (forall offset t r, t ∈ cells -> holds t r -> at_offset page offset r -> decode offset = read t) ->
  decode_cells type wrong decode page first_page = mapM_res read cells.
Proof.
  intros Hpage Hcells Hdec. destruct (page_offsets _ _ _ _ _ Hpage) as (header & offsets & Hh & Ht & _ & Hoff & Hat).
  unfold decode_cells. rewrite Hh. cbn [bind]. rewrite bool_decide_true by done. cbn [negb]. unfold cell_offsets. rewrite Hoff. cbn [bind].
  apply mapM_res_Forall2_ext. apply Forall2_same_length_lookup. split; [rewrite (Forall2_length _ _ _ Hat); by rewrite (Forall2_length _ _ _ Hcells)|].
  intros i o t Ho Hti. destruct (Forall2_lookup_l _ _ _ _ _ Hcells Hti) as (r & Hr & Hhold).
  refine (Hdec o t r _ Hhold (Forall2_lookup_lr _ _ _ _ _ _ Hat Ho Hr)). by eapply list_elem_of_lookup_2.
Qed.

Lemma decode_children_run {C} (holds : C -> bytes -> Prop) (page_no : C -> Z) (decode : Z -> Result Z) what page first_page type rs init lastc header :
  page_cells page first_page type (Some (page_no lastc)) rs -> Forall2 holds init rs -> decode_page_header page first_page = Ok header ->
  (forall offset c r, c ∈ init -> holds c r -> at_offset page offset r -> decode offset = Ok (page_no c)) ->
  decode_children type what decode page first_page header = Ok (map page_no (init ++ [lastc])).
Proof.
  intros Hpage Hcells Hh Hdec. destruct (page_offsets _ _ _ _ _ Hpage) as (header' & offsets & Hh' & Ht & Hr & Hoff & Hat). rewrite Hh in Hh'. injection Hh' as <-.
  unfold decode_children. rewrite bool_decide_true by done. cbn [negb]. unfold cell_offsets. rewrite Hoff. cbn [bind].
  assert (Hm : mapM_res decode offsets = Ok (map page_no init)).
  { rewrite (mapM_res_Forall2_ext decode (fun c => Ok (page_no c)) offsets init); [apply (mapM_res_ok _ page_no); done|]. apply Forall2_same_length_lookup. split; [rewrite (Forall2_length _ _ _ Hat); by rewrite (Forall2_length _ _ _ Hcells)|].
    intros i o c Ho Hci. destruct (Forall2_lookup_l _ _ _ _ _ Hcells Hci) as (r & Hri & Hhold).
    refine (Hdec o c r _ Hhold (Forall2_lookup_lr _ _ _ _ _ _ Hat Ho Hri)). by eapply list_elem_of_lookup_2. }
  rewrite Hm, Hr. cbn [bind ok_or]. by rewrite map_app.
Qed.

(** The page number at the head of an interior cell. *)
Lemma decode_child_pointer_run page offset p r : is_u32 p -> at_offset page offset (to_be 4 p ++ r) -> decode_interior_child_pointer page offset = Ok p.
Proof.
  intros Hp (_ & pre & post & -> & <-). unfold decode_interior_child_pointer. rewrite <- !app_assoc, (get_range_at pre (to_be 4 p)) by zlen. cbn [ok_or bind].
  by rewrite from_be_to_be_small by width.
Qed.

(** ** What a cell decodes to *)

Section Cells.
Context {SelectStatement : Type} (default_hash : list Value -> Z).
Abbreviation Schema := (Schema SelectStatement).

Definition read_table_leaf (schema : Schema) (t : TableLeafCellData) : Result TableLeafCell :=
  let? row := decode_table_record (leaf_payload t) in
  let? row := patch_integer_primary_key_alias schema (leaf_row_id t) row in
  Ok (mkTableLeafCell (leaf_row_id t) row).

Definition read_index_leaf (index : IndexMeta) (t : IndexLeafCellData) : Result IndexEntry :=
  let? values := decode_index_record (index_payload t) in
  decode_index_entry_values default_hash index values.

Definition read_without_rowid_leaf (schema : Schema) (t : IndexLeafCellData) : Result Row :=
  let? values := decode_index_record (index_payload t) in
  reorder_without_rowid_record schema values.

Context (pager : Pager) (ps : gmap Z bytes) (page : bytes) (Hserves : serves pager ps) (Hpage : Zlen page <= PAGE_SIZE).

Lemma decode_leaf_table_cell_run schema offset t r : table_leaf_good t -> table_leaf_holds ps t r -> at_offset page offset r ->
  decode_leaf_table_cell pager page schema offset = read_table_leaf schema t.
Proof.
  intros [Hid Hp] (s & -> & Hs) (_ & pre & post & Hcell & <-). pose proof (Zlen_u64 _ Hp) as Hu. rewrite <- app_assoc in Hcell.
  pose proof (Zlen_encode_varint _ Hid). pose proof (Zlen_encode_varint _ Hu).
  unfold decode_leaf_table_cell, slice_from, read_table_leaf. rewrite Hcell at 1. rewrite get_from_at. cbn [ok_or bind].
  assert (Hh : table_leaf_head t ++ s ++ post = encode_varint (Zlen (leaf_payload t)) ++ encode_varint (leaf_row_id t) ++ s ++ post) by (unfold table_leaf_head; by rewrite <- app_assoc).
  rewrite Hh, decode_encode_varint by done. cbn [bind]. rewrite slice_rest. cbn [bind]. rewrite decode_encode_varint by done. cbn [bind].
  unfold checked_add. rewrite (proj2 (Z.leb_le _ _)) by (unfold u64_max; lia). cbn [ok_or bind]. rewrite <- Zlen_app. fold (table_leaf_head t).
  by rewrite (read_stored_payload pager ps page false (leaf_payload t) s pre (table_leaf_head t) post).
Qed.

(** The payload of an index cell, after its head. *)
Lemma index_payload_read kind payload pre s post head : Zlen payload <= i64_max -> stored ps true payload s -> page = pre ++ head ++ s ++ post ->
  read_btree_payload pager page (Zlen pre) (Zlen head) (Zlen payload) true kind = Ok payload.
Proof. intros Hp Hs Hcell. by apply (read_stored_payload pager ps page true payload s pre head post). Qed.

Lemma decode_index_head n t pre s post : index_leaf_good n t -> page = pre ++ index_leaf_head t ++ s ++ post ->
  (let? cell := slice_from page (Zlen pre) in decode_varint cell) = Ok (Zlen (index_payload t), Zlen (index_leaf_head t)).
Proof.
  intros (_ & _ & Hp) ->. unfold slice_from. rewrite get_from_at. cbn [ok_or bind]. unfold index_leaf_head. by rewrite decode_encode_varint by (by apply Zlen_u64).
Qed.

Lemma decode_leaf_index_cell_run n index offset t r : index_leaf_good n t -> index_leaf_holds ps t r -> at_offset page offset r ->
  decode_leaf_index_cell default_hash pager page index offset = read_index_leaf index t.
Proof.
  intros Ht (s & -> & Hs) (_ & pre & post & Hcell & <-). rewrite <- app_assoc in Hcell. pose proof (decode_index_head n t pre s post Ht Hcell) as Hd.
  unfold decode_leaf_index_cell, read_index_leaf. apply bind_Ok_inv in Hd as (cell & -> & Hd). cbn [bind]. rewrite Hd. cbn [bind]. by rewrite (index_payload_read _ _ _ s post) by (done || apply Ht).
Qed.

Lemma decode_leaf_without_rowid_cell_run n schema offset t r : index_leaf_good n t -> index_leaf_holds ps t r -> at_offset page offset r ->
  decode_leaf_without_rowid_table_cell pager page schema offset = read_without_rowid_leaf schema t.
Proof.
  intros Ht (s & -> & Hs) (_ & pre & post & Hcell & <-). rewrite <- app_assoc in Hcell. pose proof (decode_index_head n t pre s post Ht Hcell) as Hd.
  unfold decode_leaf_without_rowid_table_cell, read_without_rowid_leaf. apply bind_Ok_inv in Hd as (cell & -> & Hd). cbn [bind]. rewrite Hd. cbn [bind].
  by rewrite (index_payload_read _ _ _ s post) by (done || apply Ht).
Qed.

(** An interior cell is valid when its key has a value for every column of the index, and one more. *)
Lemma validate_interior_cell_run n index offset c r : index_child_good n c -> index_child_holds ps c r -> at_offset page offset r ->
  n = Zlen (index_columns index) + 1 -> n <= u64_max ->
  validate_interior_index_cell pager page index offset = Ok tt.
Proof.
  intros (Hfit & Hcount & Hc) (payload & Henc & s & -> & Hs) (_ & pre & post & Hcell & <-) -> Hu64. rewrite <- app_assoc in Hcell.
  destruct (encode_record_fits _ Hfit) as (payload' & Henc' & Hp). rewrite Henc in Henc'. injection Henc' as <-. pose proof (Zlen_u64 _ Hp) as Hu.
  unfold validate_interior_index_cell, slice_from. rewrite Hcell at 1. rewrite get_from_at. cbn [ok_or bind]. unfold index_child_head at 1. rewrite <- !app_assoc.
  replace 4 with (Zlen (to_be 4 (index_page_no c))) at 1 by zlen. rewrite get_from_at. cbn [ok_or bind]. rewrite decode_encode_varint by done. cbn [bind].
  replace (4 + Zlen (encode_varint (Zlen payload))) with (Zlen (index_child_head c payload)) by (unfold index_child_head; zlen).
  rewrite (index_payload_read _ _ _ s post) by done. cbn [bind]. destruct (decode_encoded_record _ _ Hfit Henc) as [-> _]. cbn [bind].
  unfold minimum_index_record_value_count, checked_add. rewrite (proj2 (Z.leb_le _ _)) by done. cbn [ok_or bind]. by rewrite Zlen_map, (proj2 (Z.ltb_ge _ _)) by lia.
Qed.
End Cells.
