(* ===== verification/SqliteScan.v ===== *)
(** * Scans of trees

    A scan that reads leaves and goes through the children of interior pages gives what it
    makes of all cells of the tree, in order. The scans of tables and indexes are of this
    kind; the search for a row goes to the one child that can have it. *)

From stdpp Require Import sorting.
From S2P Require Import Prelude Text Varint Types Schema Record SqliteFile SqliteBTree SqliteWriter SqliteChains SqliteTrees SqliteReading.



(** ** Any scan *)

Section Scan.
Context {T C B : Type} {goodT : T -> Prop} {goodC : C -> Prop}.
Context {holdsT : gmap Z bytes -> T -> bytes -> Prop} {holdsC : gmap Z bytes -> C -> bytes -> Prop}.
Context {page_no : C -> Z} {leaf_child : Z -> list T -> Result C} {interior_child : Z -> list C -> Result C} {covers : C -> list T -> Prop}.
Context `{!TreeFormat goodT goodC page_no leaf_child interior_child covers}.
Context (leaf_type interior_type : PageType) (ps : gmap Z bytes).
Abbreviation leaf_content := (leaf_content (holdsT := holdsT) leaf_type ps).
Abbreviation interior_content := (interior_content (holdsC := holdsC) (page_no := page_no) interior_type ps).
Abbreviation tree := (tree (holdsT := holdsT) (holdsC := holdsC) (page_no := page_no) (covers := covers) leaf_type interior_type ps).

(** The subtrees of an interior page have good children: their keys and numbers can be written. *)
Lemma tree_children d children css :
  Forall2 (fun c cs => tree d (page_no c) cs /\ covers c cs) children css -> Forall goodT (concat css) ->
  Forall2 covers children css /\ Forall goodC children.
Proof.
  induction 1 as [|c cs children css (Ht & Hc) _ IH]; [done|]. cbn. intros [Hcs Hcss]%Forall_app. destruct (IH Hcss). split; constructor; try done.
  eapply tf_good; [done..|]. destruct d; destruct Ht as [? _]; width.
Qed.

Context (scan : nat -> B -> Z -> Result B) (step : list T -> B -> Result B).
Context (Hleaf : forall fuel acc p page cells, 1 < p <= u32_max -> ps !! p = Some page -> leaf_content page cells -> Forall goodT cells ->
  scan (S fuel) acc p = step cells acc).
Context (Hinterior : forall fuel acc p page children css, 1 < p <= u32_max -> ps !! p = Some page -> interior_content page children ->
  Forall2 covers children css -> Forall goodT (concat css) -> Forall goodC children -> scan (S fuel) acc p = fold_res (scan fuel) (map page_no children) acc).
Context (Hstep_nil : forall acc, step [] acc = Ok acc).
Context (Hstep_app : forall cells more acc, step (cells ++ more) acc = (let? acc := step cells acc in step more acc)).

Lemma scan_tree : forall d p cells fuel acc, tree d p cells -> (d < fuel)%nat -> Forall goodT cells -> scan fuel acc p = step cells acc.
Proof.
  induction d as [|d IH]; intros p cells fuel acc (Hp & page & Hpage & H) Hfuel Hgood; (destruct fuel as [|fuel]; [lia|]).
  - by eapply Hleaf.
  - destruct H as (children & css & Hcontent & Hsub & ->). destruct (tree_children d children css Hsub Hgood) as [Hcov Hgc].
    rewrite (Hinterior fuel acc p page children css) by done. clear Hcontent Hcov Hgc. revert acc.
    induction Hsub as [|c cs children css [Ht _] _ IH2]; intros acc; cbn [map fold_res concat]; [by rewrite Hstep_nil|].
    cbn in Hgood. apply Forall_app in Hgood as [Hcs Hcss]. rewrite (IH _ cs) by (done || lia). rewrite Hstep_app. destruct (step cs acc); [|done..]. cbn [bind]. by apply IH2.
Qed.
End Scan.

Lemma scan_step_app {T A B} (read : T -> Result A) (add : B -> list A -> B) : (forall acc xs ys, add acc (xs ++ ys) = add (add acc xs) ys) ->
  forall cells more acc, (let? xs := mapM_res read (cells ++ more) in Ok (add acc xs)) =
    (let? acc := (let? xs := mapM_res read cells in Ok (add acc xs)) in let? xs := mapM_res read more in Ok (add acc xs)).
Proof. intros Hadd cells more acc. rewrite mapM_res_app. destruct (mapM_res read cells); [|done..]. cbn [bind]. destruct (mapM_res read more); [|done..]. cbn [bind]. by rewrite Hadd. Qed.

(** ** Pages of a tree, read *)

Lemma read_leaf {T} (holds : gmap Z bytes -> T -> bytes -> Prop) type pager ps p page cells :
  serves pager ps -> 1 < p <= u32_max -> ps !! p = Some page -> leaf_content (holdsT := holds) type ps page cells ->
  exists header rs, read_page pager p = Ok page /\ (p =? 1) = false /\ decode_page_header page false = Ok header /\ page_type header = type /\
    page_cells page false type None rs /\ Forall2 (holds ps) cells rs.
Proof.
  intros Hs Hp Hpage (rs & Hcells & Hhold). destruct (page_offsets _ _ _ _ _ Hcells) as (header & _ & Hh & Ht & _). exists header, rs.
  split_and!; [by eapply sv_read|by apply Z.eqb_neq; lia|done..].
Qed.

Lemma read_interior {C} (holds : gmap Z bytes -> C -> bytes -> Prop) (page_no : C -> Z) type pager ps p page children :
  serves pager ps -> 1 < p <= u32_max -> ps !! p = Some page -> interior_content (holdsC := holds) (page_no := page_no) type ps page children ->
  exists header rs init lastc, read_page pager p = Ok page /\ (p =? 1) = false /\ decode_page_header page false = Ok header /\ page_type header = type /\
    children = init ++ [lastc] /\ page_cells page false type (Some (page_no lastc)) rs /\ Forall2 (holds ps) init rs.
Proof.
  intros Hs Hp Hpage (rs & init & lastc & Hc & Hcells & Hhold). destruct (page_offsets _ _ _ _ _ Hcells) as (header & _ & Hh & Ht & _). exists header, rs, init, lastc.
  split_and!; [by eapply sv_read|by apply Z.eqb_neq; lia|done..].
Qed.

(** ** Tables *)

Definition table_tree : gmap Z bytes -> nat -> Z -> list TableLeafCellData -> Prop :=
  tree (holdsT := table_leaf_holds) (holdsC := table_child_holds) (page_no := table_page_no) (covers := table_covers) LeafTable InteriorTable.

Section Tables.
Context {SelectStatement : Type} (schema : Schema SelectStatement).
Context (pager : Pager) (ps : gmap Z bytes) (Hserves : serves pager ps).

Definition numbered (cell : TableLeafCell) : RowId * Row := (cell_row_id cell, cell_row cell).

Lemma leaf_table_cells_run page rs cells p : ps !! p = Some page -> page_cells page false LeafTable None rs -> Forall2 (table_leaf_holds ps) cells rs ->
  Forall table_leaf_good cells -> decode_leaf_table_cells pager page false schema = mapM_res (read_table_leaf schema) cells.
Proof.
  intros Hp Hcells Hhold Hgood. eapply decode_cells_run; [exact Hcells|exact Hhold|]. intros offset t r Ht Hr Hat.
  eapply decode_leaf_table_cell_run; [exact Hserves|by rewrite (sv_length _ _ _ _ Hserves Hp)| |exact Hr|exact Hat]. by eapply Forall_forall.
Qed.

Lemma child_pointer_run page c r offset : table_child_good c -> table_child_holds ps c r -> at_offset page offset r ->
  decode_interior_child_pointer page offset = Ok (table_page_no c).
Proof. intros [_ Hu] -> Hat. exact (decode_child_pointer_run _ _ _ _ Hu Hat). Qed.

Lemma scan_table_tree d p cells fuel acc : table_tree ps d p cells -> (d < fuel)%nat -> Forall table_leaf_good cells ->
  scan_table_page fuel pager schema acc p = (let? rows := mapM_res (read_table_leaf schema) cells in Ok (acc ++ map numbered rows)).
Proof.
  apply (scan_tree LeafTable InteriorTable ps (fun fuel acc p => scan_table_page fuel pager schema acc p)
    (fun cells acc => let? rows := mapM_res (read_table_leaf schema) cells in Ok (acc ++ map numbered rows))).
  - clear d p cells fuel acc. intros fuel acc p page cells Hp Hpage Hc Hgood. destruct (read_leaf _ _ _ _ _ _ _ Hserves Hp Hpage Hc) as (header & rs & Hr & Hp1 & Hh & Ht & Hcells & Hhold).
    cbn [scan_table_page]. rewrite Hr. cbn [bind]. rewrite Hp1, Hh. cbn [bind]. rewrite Ht. by rewrite (leaf_table_cells_run page rs cells p).
  - intros fuel' acc' p' page children css Hp Hpage Hc _ _ Hgood.
    destruct (read_interior _ _ _ _ _ _ _ _ Hserves Hp Hpage Hc) as (header & rs & init & lastc & Hr & Hp1 & Hh & Ht & -> & Hcells & Hhold).
    cbn [scan_table_page]. rewrite Hr. cbn [bind]. rewrite Hp1, Hh. cbn [bind]. rewrite Ht. unfold decode_interior_table_children.
    rewrite (decode_children_run _ table_page_no _ _ _ _ _ _ _ _ _ Hcells Hhold Hh); [done|]. intros offset c r Hin. apply child_pointer_run.
    apply Forall_app in Hgood as [Hgood _]. by eapply Forall_forall.
  - intros acc'. cbn. by rewrite app_nil_r.
  - apply (scan_step_app (read_table_leaf schema) (fun acc rows => acc ++ map numbered rows)). intros. by rewrite map_app, app_assoc.
Qed.

(** ** The search for a row *)

(** The first child whose rows reach [row_id]. *)
Definition reaching (row_id : RowId) (init : list TableChildPage) : option TableChildPage := head (filter (fun c => row_id <= max_row_id c) init).

Lemma child_for_run page row_id offsets rs init : Zlen page <= PAGE_SIZE -> Forall2 (at_offset page) offsets rs -> Forall2 (table_child_holds ps) init rs ->
  Forall table_child_good init -> child_for page row_id offsets = Ok (table_page_no <$> reaching row_id init).
Proof.
  intros Hlen Hat. revert init. induction Hat as [|o r offsets rs Ho _ IH]; intros init Hhold Hgood.
  - apply Forall2_nil_inv_r in Hhold as ->. done.
  - apply Forall2_cons_inv_r in Hhold as (c & init' & Hr & Hhold & ->). apply Forall_cons in Hgood as [Hc Hgood]. cbn [child_for].
    rewrite (child_pointer_run page c r o Hc Hr Ho). cbn [bind]. destruct Ho as (Ho & pre & post & Hcell & Hpre). destruct Hc as [Hid _]. rewrite Hr in Hcell. unfold table_child_bytes in Hcell.
    assert (Hk : get_from page (o + 4) = Some (encode_varint (max_row_id c) ++ post)).
    { rewrite Hcell, <- app_assoc, app_assoc. replace (o + 4) with (Zlen (pre ++ to_be 4 (table_page_no c))) by (rewrite Zlen_app, Zlen_to_be; lia). apply get_from_at. }
    unfold checked_add, slice_from. rewrite (proj2 (Z.leb_le _ _)) by (unfold u16_max, u64_max in *; lia). cbn [ok_or bind]. rewrite Hk. cbn [ok_or bind].
    rewrite decode_encode_varint by done. cbn [bind]. unfold reaching. rewrite filter_cons.
    destruct (Z.leb_spec row_id (max_row_id c)); [by rewrite decide_True by done|]. rewrite decide_False by lia. by apply IH.
Qed.

Definition with_id (row_id : RowId) (cells : list TableLeafCellData) : list TableLeafCellData := filter (fun t => leaf_row_id t = row_id) cells.
Definition ids_increase : list TableLeafCellData -> Prop := StronglySorted (fun a b => leaf_row_id a < leaf_row_id b).

Lemma with_id_none row_id cells : Forall (fun t => leaf_row_id t <> row_id) cells -> with_id row_id cells = [].
Proof.
  unfold with_id. induction 1 as [|t cells Ht _ IH]; [done|]. by rewrite filter_cons, decide_False.
Qed.

Lemma with_id_app row_id cells more : with_id row_id (cells ++ more) = with_id row_id cells ++ with_id row_id more.
Proof. apply filter_app. Qed.

Lemma ids_increase_app cells more : ids_increase (cells ++ more) ->
  ids_increase cells /\ ids_increase more /\ forall a b, a ∈ cells -> b ∈ more -> leaf_row_id a < leaf_row_id b.
Proof. intros (Hlt & H1 & H2)%StronglySorted_app. by split_and!. Qed.

(** In increasing order the last row id bounds all. *)
Lemma covers_bound c cells t : ids_increase cells -> table_covers c cells -> t ∈ cells -> leaf_row_id t <= max_row_id c.
Proof.
  intros Hs (l & Hl & ->) Ht. destruct cells as [|l' init _] using rev_ind; [done|]. rewrite last_snoc in Hl. injection Hl as ->.
  apply ids_increase_app in Hs as (_ & _ & Hlt). apply elem_of_app in Ht as [Ht|Ht%list_elem_of_singleton]; [|by subst]. specialize (Hlt t l Ht ltac:(by left)). lia.
Qed.

Lemma zip_concat_split {A B} (l : list A) (kss : list (list B)) a ks : (a, ks) ∈ zip l kss -> exists before after, concat kss = before ++ ks ++ after.
Proof.
  intros Hin%elem_of_zip_r. apply list_elem_of_split in Hin as (b1 & b2 & ->). exists (concat b1), (concat b2). by rewrite concat_app.
Qed.

Lemma Forall2_zip {A B} (P : A -> B -> Prop) l k a b : Forall2 P l k -> (a, b) ∈ zip l k -> P a b.
Proof. induction 1 as [|x y l k Hxy _ IH]; [by intros ?%elem_of_nil|]. intros [[= -> ->]|Hin]%elem_of_cons; auto. Qed.

(** The rows with an id are under the child the search goes to. *)
Lemma reaching_cells row_id : forall init css lastc last_cells, Forall2 table_covers init css ->
  ids_increase (concat css ++ last_cells) ->
  exists c cs, c = default lastc (reaching row_id init) /\ with_id row_id (concat css ++ last_cells) = with_id row_id cs /\
    ((c, cs) = (lastc, last_cells) \/ (c, cs) ∈ zip init css).
Proof.
  intros init css lastc last_cells H. induction H as [|c cs init css Hc _ IH]; intros Hs.
  - exists lastc, last_cells. split_and!; [done..|by left].
  - cbn [concat] in *. rewrite <- app_assoc in *. apply ids_increase_app in Hs as (Hs1 & Hs2 & Hlt). unfold reaching. rewrite filter_cons.
    destruct (decide (row_id <= max_row_id c)) as [Hle|Hgt].
    + exists c, cs. split_and!; [done| |right; by left]. rewrite with_id_app.
      destruct Hc as (t & Ht & Hm). rewrite (with_id_none row_id (concat css ++ last_cells)); [apply app_nil_r|].
      apply Forall_forall. intros b Hb. specialize (Hlt t b (last_Some_elem_of _ _ Ht) Hb). lia.
    + destruct (IH Hs2) as (c' & cs' & -> & Hw & Hin). eexists _, cs'. split_and!; [done| |destruct Hin as [?|?]; [by left|right; by right]].
      rewrite <- Hw, with_id_app, (with_id_none row_id cs); [done|]. apply Forall_forall. intros t Ht.
      pose proof (covers_bound c cs t Hs1 Hc Ht). lia.
Qed.

Lemma get_table_tree row_id (row_of : TableLeafCellData -> Row) : forall d p cells fuel, table_tree ps d p cells -> (d < fuel)%nat ->
  Forall table_leaf_good cells -> ids_increase cells ->
  (forall t, t ∈ cells -> read_table_leaf schema t = Ok (mkTableLeafCell (leaf_row_id t) (row_of t))) ->
  get_table_row_from_page fuel pager p schema row_id = Ok (row_of <$> head (with_id row_id cells)).
Proof.
  induction d as [|d IH]; intros p cells fuel (Hp & page & Hpage & H) Hfuel Hgood Hinc Hread; (destruct fuel as [|fuel]; [lia|]); cbn [get_table_row_from_page].
  - destruct (read_leaf _ _ _ _ _ _ _ Hserves Hp Hpage H) as (header & rs & Hr & Hp1 & Hh & Ht & Hcells & Hhold).
    rewrite Hr. cbn [bind]. rewrite Hp1, Hh. cbn [bind]. rewrite Ht, (leaf_table_cells_run page rs cells p) by done.
    rewrite (mapM_res_ok _ (fun t => mkTableLeafCell (leaf_row_id t) (row_of t))) by done. cbn [bind]. f_equal. unfold with_id. clear.
    induction cells as [|t cells IH]; [done|]. cbn [map]. rewrite !filter_cons. cbn [cell_row_id]. by destruct (decide (leaf_row_id t = row_id)).
  - destruct H as (children & css & Hc & Hsub & ->). destruct (tree_children _ _ _ _ _ _ Hsub Hgood) as [Hcov Hgc].
    destruct (read_interior _ _ _ _ _ _ _ _ Hserves Hp Hpage Hc) as (header & rs & init & lastc & Hr & Hp1 & Hh & Ht & -> & Hcells & Hhold).
    rewrite Hr. cbn [bind]. rewrite Hp1, Hh. cbn [bind]. rewrite Ht.
    destruct (page_offsets _ _ _ _ _ Hcells) as (header' & offsets & Hh' & _ & Hright & Hoff & Hat). rewrite Hh in Hh'. injection Hh' as <-.
    unfold cell_offsets. rewrite Hoff. cbn [bind]. apply Forall_app in Hgc as [Hgc _].
    rewrite (child_for_run page row_id offsets rs init) by (done || by rewrite (sv_length _ _ _ _ Hserves Hpage)). cbn [bind].
    apply Forall2_app_inv_l in Hsub as (css1 & css2 & Hsub1 & Hsub2 & ->). apply Forall2_cons_inv_l in Hsub2 as (lcs & css3 & [Hlast _] & Hnil & ->).
    apply Forall2_nil_inv_l in Hnil as ->. apply Forall2_app_inv_l in Hcov as (css1' & css2' & Hcov & Hcov2 & Heq).
    apply app_inj_2 in Heq as [<- <-]; [|by rewrite <- (Forall2_length _ _ _ Hcov2)].
    rewrite concat_app in *. cbn [concat] in *. rewrite app_nil_r in *.
    destruct (reaching_cells row_id init css1 lastc lcs Hcov Hinc) as (c & cs & Hc' & Hw & Hin). rewrite Hw.
    assert (Hgo : get_table_row_from_page fuel pager (table_page_no c) schema row_id = Ok (row_of <$> head (with_id row_id cs))).
    { assert (Htree : table_tree ps d (table_page_no c) cs /\ exists before after, concat css1 ++ lcs = before ++ cs ++ after).
      { destruct Hin as [[= -> ->]|Hin]; [split; [done|]; exists (concat css1), []; by rewrite app_nil_r|].
        destruct (zip_concat_split _ _ _ _ Hin) as (before & after & ->). split; [|exists before, (after ++ lcs); by rewrite <- !app_assoc].
        by destruct (Forall2_zip _ _ _ _ _ Hsub1 Hin). }
      destruct Htree as (Htree & before & after & Hsplit). rewrite Hsplit in *. apply Forall_app in Hgood as [_ [Hgood _]%Forall_app].
      apply ids_increase_app in Hinc as (_ & (Hinc & _ & _)%ids_increase_app & _). apply IH; [done|lia|done|done|]. intros t Ht'. apply Hread. set_solver. }
    subst c. destruct (reaching row_id init) as [c|]; cbn [fmap option_fmap option_map default] in *; [done|]. rewrite Hright. done.
Qed.
End Tables.

(** * Scans of indexes and WITHOUT ROWID tables

    The same for the trees of keys: an index scan gives the entries its leaf cells decode
    to, a lookup the row ids of those that begin with a key, and the scan of a WITHOUT ROWID
    table its rows, numbered in their order. *)


Definition index_tree : gmap Z bytes -> nat -> Z -> list IndexLeafCellData -> Prop :=
  tree (holdsT := index_leaf_holds) (holdsC := index_child_holds) (page_no := index_page_no) (covers := index_covers) LeafIndex InteriorIndex.

(** What a lookup collects. *)
Definition add_matching (key_prefix : list Value) (row_ids : gset Z) (entries : list IndexEntry) : gset Z :=
  fold_left (fun row_ids entry => if starts_with (entry_key entry) key_prefix then {[entry_row_id entry]} ∪ row_ids else row_ids) entries row_ids.

Lemma elem_of_add_matching key_prefix entries : forall row_ids x,
  x ∈ add_matching key_prefix row_ids entries <-> x ∈ row_ids \/ exists e, e ∈ entries /\ starts_with (entry_key e) key_prefix = true /\ entry_row_id e = x.
Proof.
  unfold add_matching. induction entries as [|e entries IH]; intros row_ids x; cbn [fold_left].
  - split; [by left|]. intros [?|(e & He & _)]; [done|by apply elem_of_nil in He].
  - rewrite IH. setoid_rewrite elem_of_cons. destruct (starts_with (entry_key e) key_prefix) eqn:E.
    + rewrite elem_of_union, elem_of_singleton. naive_solver.
    + naive_solver congruence.
Qed.
Section Indexes.
Context {SelectStatement : Type} (schema : Schema SelectStatement) (default_hash : list Value -> Z) (index : IndexMeta) (n : Z).
Context (pager : Pager) (ps : gmap Z bytes) (Hserves : serves pager ps).

Lemma leaf_index_cells_run page rs cells p : ps !! p = Some page -> page_cells page false LeafIndex None rs -> Forall2 (index_leaf_holds ps) cells rs ->
  Forall (index_leaf_good n) cells -> decode_leaf_index_cells default_hash pager page false index = mapM_res (read_index_leaf default_hash index) cells.
Proof.
  intros Hp Hcells Hhold Hgood. eapply decode_cells_run; [exact Hcells|exact Hhold|]. intros offset t r Ht Hr Hat.
  eapply decode_leaf_index_cell_run; [exact Hserves|by rewrite (sv_length _ _ _ _ Hserves Hp)| |exact Hr|exact Hat]. by eapply (Forall_forall (index_leaf_good n)).
Qed.

Lemma leaf_rows_run page rs cells p : ps !! p = Some page -> page_cells page false LeafIndex None rs -> Forall2 (index_leaf_holds ps) cells rs ->
  Forall (index_leaf_good n) cells -> decode_leaf_without_rowid_table_rows pager page false schema = mapM_res (read_without_rowid_leaf schema) cells.
Proof.
  intros Hp Hcells Hhold Hgood. eapply decode_cells_run; [exact Hcells|exact Hhold|]. intros offset t r Ht Hr Hat.
  eapply decode_leaf_without_rowid_cell_run; [exact Hserves|by rewrite (sv_length _ _ _ _ Hserves Hp)| |exact Hr|exact Hat]. by eapply (Forall_forall (index_leaf_good n)).
Qed.

Lemma index_child_pointer_run page c r offset : index_child_good n c -> index_child_holds ps c r -> at_offset page offset r ->
  decode_interior_child_pointer page offset = Ok (index_page_no c).
Proof.
  intros (_ & _ & Hu) (payload & _ & s & -> & _) Hat. unfold index_child_head in Hat. rewrite <- app_assoc in Hat. exact (decode_child_pointer_run _ _ _ _ Hu Hat).
Qed.

(** The children of an interior page, with the validation of its cells and without. *)
Lemma index_children_run page p rs init lastc header : ps !! p = Some page -> page_cells page false InteriorIndex (Some (index_page_no lastc)) rs ->
  Forall2 (index_child_holds ps) init rs -> Forall (index_child_good n) init -> decode_page_header page false = Ok header ->
  n = Zlen (index_columns index) + 1 -> n <= u64_max ->
  decode_interior_index_children pager page false header index = Ok (map index_page_no (init ++ [lastc])).
Proof.
  intros Hpage Hcells Hhold Hgood Hh Hn Hu. unfold decode_interior_index_children.
  apply (decode_children_run _ index_page_no _ _ _ _ _ _ _ _ _ Hcells Hhold Hh). intros offset c r Hin Hr Hat.
  assert (Hc : index_child_good n c) by (by eapply (Forall_forall (index_child_good n))).
  rewrite (validate_interior_cell_run pager ps page Hserves ltac:(by rewrite (sv_length _ _ _ _ Hserves Hpage)) n index offset c r) by done.
  by apply (index_child_pointer_run page c r).
Qed.

Lemma index_child_pointers_run page rs init lastc header : page_cells page false InteriorIndex (Some (index_page_no lastc)) rs ->
  Forall2 (index_child_holds ps) init rs -> Forall (index_child_good n) init -> decode_page_header page false = Ok header ->
  decode_interior_index_child_pointers page false header = Ok (map index_page_no (init ++ [lastc])).
Proof.
  intros Hcells Hhold Hgood Hh. apply (decode_children_run _ index_page_no _ _ _ _ _ _ _ _ _ Hcells Hhold Hh). intros offset c r Hin Hr Hat.
  apply (index_child_pointer_run page c r); [by eapply (Forall_forall (index_child_good n))|done..].
Qed.

(** The rows of a WITHOUT ROWID table, which all decode. *)
Lemma scan_without_rowid_tree (row_of : IndexLeafCellData -> Row) d p cells fuel acc : without_rowid schema = true -> index_tree ps d p cells -> (d < fuel)%nat ->
  Forall (fun t => index_leaf_good n t /\ read_without_rowid_leaf schema t = Ok (row_of t)) cells ->
  scan_table_page fuel pager schema acc p = fold_res push_numbered (map row_of cells) acc.
Proof.
  intros Hw. set (good t := index_leaf_good n t /\ read_without_rowid_leaf schema t = Ok (row_of t)).
  pose proof (tree_format_narrow _ good _ _ _ _ _ (index_tree_format n "" "") ltac:(by intros t [? _])) as Hformat.
  apply (scan_tree LeafIndex InteriorIndex ps (fun fuel acc p => scan_table_page fuel pager schema acc p)
    (fun cells acc => fold_res push_numbered (map row_of cells) acc)).
  - clear d p cells fuel acc. intros fuel acc p page cells Hp Hpage Hc Hgood. destruct (read_leaf _ _ _ _ _ _ _ Hserves Hp Hpage Hc) as (header & rs & Hr & Hp1 & Hh & Ht & Hcells & Hhold).
    cbn [scan_table_page]. rewrite Hr. cbn [bind]. rewrite Hp1, Hh. cbn [bind]. rewrite Ht, Hw. apply Forall_and in Hgood as [Hgood Hread].
    rewrite (leaf_rows_run page rs cells p) by done. rewrite (mapM_res_ok _ row_of); [done|]. by apply Forall_forall.
  - intros fuel' acc' p' page children css Hp Hpage Hc _ _ Hgood.
    destruct (read_interior _ _ _ _ _ _ _ _ Hserves Hp Hpage Hc) as (header & rs & init & lastc & Hr & Hp1 & Hh & Ht & -> & Hcells & Hhold).
    cbn [scan_table_page]. rewrite Hr. cbn [bind]. rewrite Hp1, Hh. cbn [bind]. rewrite Ht, Hw. apply Forall_app in Hgood as [Hgood _].
    by rewrite (index_child_pointers_run page rs init lastc header).
  - done.
  - intros cs ds acc'. rewrite map_app. generalize (map row_of cs) as l. intros l. revert acc'. induction l as [|r l IH]; intros acc'; cbn [fold_res app bind]; [done|].
    destruct (push_numbered acc' r); [|done..]. apply IH.
Qed.

Context (Hn : n = Zlen (index_columns index) + 1) (Hu : n <= u64_max).

(** Both scans of an index go through its pages in the same way. *)
Lemma index_scan_tree {B} (scan : nat -> B -> Z -> Result B) (add : B -> list IndexEntry -> B) :
  (forall fuel acc p, scan (S fuel) acc p =
      let? page := read_page pager p in
      let? header := decode_page_header page (p =? 1) in
      match page_type header with
      | LeafIndex => let? cells := decode_leaf_index_cells default_hash pager page (p =? 1) index in Ok (add acc cells)
      | InteriorIndex => let? children := decode_interior_index_children pager page (p =? 1) header index in fold_res (scan fuel) children acc
      | other => Err (unsupported_page "index" other)
      end) ->
  (forall acc, add acc [] = acc) -> (forall acc xs ys, add acc (xs ++ ys) = add (add acc xs) ys) ->
  forall d p cells fuel acc, index_tree ps d p cells -> (d < fuel)%nat -> Forall (index_leaf_good n) cells ->
  scan fuel acc p = (let? entries := mapM_res (read_index_leaf default_hash index) cells in Ok (add acc entries)).
Proof.
  intros Hscan Hnil Happ. apply (scan_tree (leaf_child := index_leaf_child "") (interior_child := index_interior_child "") LeafIndex InteriorIndex ps scan
    (fun cells acc => let? entries := mapM_res (read_index_leaf default_hash index) cells in Ok (add acc entries))).
  - intros fuel acc p page cells Hp Hpage Hc Hgood. destruct (read_leaf _ _ _ _ _ _ _ Hserves Hp Hpage Hc) as (header & rs & Hr & Hp1 & Hh & Ht & Hcells & Hhold).
    rewrite Hscan, Hr. cbn [bind]. rewrite Hp1, Hh. cbn [bind]. rewrite Ht. by rewrite (leaf_index_cells_run page rs cells p).
  - intros fuel acc p page children css Hp Hpage Hc _ _ Hgood.
    destruct (read_interior _ _ _ _ _ _ _ _ Hserves Hp Hpage Hc) as (header & rs & init & lastc & Hr & Hp1 & Hh & Ht & -> & Hcells & Hhold).
    rewrite Hscan, Hr. cbn [bind]. rewrite Hp1, Hh. cbn [bind]. rewrite Ht. apply Forall_app in Hgood as [Hgood _].
    by rewrite (index_children_run page p rs init lastc header).
  - intros acc. cbn. by rewrite Hnil.
  - by apply scan_step_app.
Qed.

Lemma scan_index_tree d p cells fuel acc : index_tree ps d p cells -> (d < fuel)%nat -> Forall (index_leaf_good n) cells ->
  scan_index_page default_hash fuel pager index acc p = (let? entries := mapM_res (read_index_leaf default_hash index) cells in Ok (acc ++ entries)).
Proof.
  apply (index_scan_tree (fun fuel acc p => scan_index_page default_hash fuel pager index acc p) app).
  - intros. cbn [scan_index_page]. done.
  - apply app_nil_r.
  - intros. apply app_assoc.
Qed.

Lemma scan_matching_tree key_prefix d p cells fuel row_ids : index_tree ps d p cells -> (d < fuel)%nat -> Forall (index_leaf_good n) cells ->
  scan_matching_index_page default_hash fuel pager index key_prefix row_ids p =
    (let? entries := mapM_res (read_index_leaf default_hash index) cells in Ok (add_matching key_prefix row_ids entries)).
Proof.
  apply (index_scan_tree (fun fuel acc p => scan_matching_index_page default_hash fuel pager index key_prefix acc p) (add_matching key_prefix)).
  - intros. cbn [scan_matching_index_page]. done.
  - done.
  - intros. apply fold_left_app.
Qed.

End Indexes.
