(* ===== verification/SqliteRoundTrip.v ===== *)
(** * Tables written and read back

    What [build_table_btree] puts on pages, [scan_table_rows] and [get_table_row] read back:
    the tree is the map from row ids to rows it was built from, each value as SQLite's record
    format keeps it and the row id in the column that stands for it. *)

From stdpp Require Import sorting.
From S2P Require Import Prelude Text Varint Types Floats Schema CheckValues CheckEval Record SqliteFile SqliteBTree SqliteWriter SqliteChains SqliteTrees SqliteReading SqliteScan.

(** ** Sorting *)

Lemma sort_by_map {A B} (f : A -> B) (ca : A -> A -> comparison) (cb : B -> B -> comparison) l :
  (forall a a', cb (f a) (f a') = ca a a') -> sort_by cb (map f l) = map f (sort_by ca l).
Proof.
  intros H. induction l as [|a l IH]; cbn [map sort_by]; [done|]. rewrite IH. clear IH. induction (sort_by ca l) as [|b k IH]; cbn [map insert_sorted]; [done|].
  rewrite H. destruct (ca a b); [done..|]. by rewrite IH.
Qed.

Lemma sorted_rows_ascending {A} (rows : list (Z * A)) : NoDup (map fst rows) -> StronglySorted (fun a b => a.1 < b.1) (sort_by (fun a b => a.1 ?= b.1) rows).
Proof.
  intros Hnd. assert (Hs : StronglySorted (le_cmp (fun a b : Z * A => a.1 ?= b.1)) (sort_by (fun a b => a.1 ?= b.1) rows)).
  { apply Sorted_StronglySorted; [intros a b c; unfold le_cmp; rewrite !Z.compare_ngt_iff; lia|]. apply sort_by_sorted.
    intros a b. rewrite Z.compare_gt_iff, Z.compare_ngt_iff. lia. }
  assert (Hnd' : NoDup (map fst (sort_by (fun a b : Z * A => a.1 ?= b.1) rows))) by (by rewrite sort_by_perm).
  induction Hs as [|a l Hl IH Ha]; [constructor|].
  apply NoDup_cons in Hnd' as [Hn Hnd']. constructor; [by apply IH|]. rewrite Forall_forall in *. intros b Hb.
  specialize (Ha b Hb). apply Z.compare_ngt_iff in Ha. assert (a.1 <> b.1); [|lia]. intros Heq. apply Hn. rewrite Heq. by apply list_elem_of_fmap_2.
Qed.

(** Rows in the order of their ids are the entries of a map. *)
Lemma sorted_rows_items {A} (rows : list (Z * A)) : NoDup (map fst rows) ->
  sort_by (fun a b => a.1 ?= b.1) rows = sorted_items (list_to_map rows).
Proof.
  intros Hnd. apply ascending_unique; [by apply sorted_rows_ascending|apply sorted_items_ascending|]. intros [k x].
  rewrite elem_of_sort_by, elem_of_sorted_items. by apply elem_of_list_to_map.
Qed.

Lemma head_with_key {A} (rows : list (Z * A)) k : NoDup (map fst rows) -> snd <$> head (filter (fun x => x.1 = k) rows) = list_to_map (M := gmap Z A) rows !! k.
Proof.
  induction rows as [|[k' x] rows IH]; intros Hnd; [done|]. apply NoDup_cons in Hnd as [_ Hnd]. rewrite filter_cons, list_to_map_cons. cbn [fst].
  destruct (decide (k' = k)) as [->|Hne]; [by rewrite lookup_insert_eq|]. rewrite lookup_insert_ne by done. by apply IH.
Qed.

(** ** The tree of a table *)

Lemma table_btree_builds root cells w : pages_ok w -> set_aside root w -> Forall table_leaf_good cells ->
  builds (table_btree root cells) w (fun _ w' => exists d, grows_root root w w' /\ pages_ok w' /\
    table_tree (pages w') d root (sort_by (fun a b => leaf_row_id a ?= leaf_row_id b) cells)).
Proof.
  intros Hw Hroot Hgood.
  apply (build_btree_builds (boundT := 4083) (boundC := 13) LeafTable InteriorTable "sqlite writer does not support records that overflow a single leaf page" "table");
    [done|done|unfold PAGE_SIZE; lia|unfold PAGE_SIZE; lia|done|done|]. by rewrite sort_by_perm.
Qed.

(** ** Rows and their cells *)

Section Rows.
Context {SelectStatement : Type} (schema : Schema SelectStatement).

(** A row as it is stored: without the columns that stand for the row id. *)
Definition stored_row (row : Row) : Row := zip_with (fun column value => if is_row_id_alias column then Null else value) (columns schema) row.

(** A row as it is read. *)
Definition row_image (row_id : RowId) (row : Row) : Row :=
  zip_with (fun column value => if is_row_id_alias column then Integer row_id else index_image value) (columns schema) row.

(** Rows that can be stored and read: of the width of the table, with an id that fits a
    column, and no longer than memory. *)
Definition storable (ir : RowId * Row) : Prop :=
  0 <= ir.1 <= i64_max /\ length ir.2 = length (columns schema) /\ record_fits (stored_row ir.2).

Lemma blank_aliases row : length row = length (columns schema) -> fold_res blank_alias (imap pair (columns schema)) row = Ok (stored_row row).
Proof.
  unfold stored_row. intros Hlen.
  assert (H : forall cols front rest, length rest = length cols ->
    fold_res blank_alias (imap (fun j => pair (length front + j)%nat) cols) (front ++ rest) =
      Ok (front ++ zip_with (fun column value => if is_row_id_alias column then Null else value) cols rest)).
  { induction cols as [|c cols IH]; intros front rest Hl; destruct rest as [|v rest]; try done.
    cbn [imap fold_res zip_with]. unfold blank_alias at 1. cbn [fst snd]. rewrite Nat.add_0_r, length_app, insert_app_r_alt, Nat.sub_diag by lia. cbn [list_insert].
    rewrite (proj2 (Nat.ltb_lt _ _)) by (cbn [length]; lia). unfold compose.
    specialize (IH (front ++ [if is_row_id_alias c then Null else v]) rest ltac:(by injection Hl)). rewrite length_app, <- !app_assoc in IH. cbn [app length] in IH.
    rewrite (imap_ext _ (fun j => pair (length front + 1 + j)%nat)) by (intros; f_equal; lia). by destruct (is_row_id_alias c). }
  exact (H (columns schema) [] row Hlen).
Qed.

Lemma patch_stored row_id row : row_id <= i64_max -> length row = length (columns schema) ->
  patch_integer_primary_key_alias schema row_id (map index_image (stored_row row)) = Ok (row_image row_id row).
Proof.
  intros Hid Hlen. unfold patch_integer_primary_key_alias, stored_row, row_image. rewrite length_map, length_zip_with_l, Nat.eqb_refl by lia. cbn [negb]. clear -Hid Hlen.
  revert row Hlen. induction (columns schema) as [|c cols IH]; intros [|v row] Hlen; try done. cbn [zip_with map zip mapM_res]. unfold patch_value at 1. cbn [fst snd].
  rewrite IH by (by injection Hlen). destruct (is_row_id_alias c); [cbn; by rewrite (proj2 (Z.leb_le _ _)) by done|done].
Qed.

Definition cell_of (ir : RowId * Row) : TableLeafCellData :=
  mkTableLeafCellData ir.1 (match encode_record (stored_row ir.2) with Ok payload => payload | _ => [] end).

Lemma table_cell_run ir : storable ir -> table_cell schema ir = Ok (cell_of ir) /\ table_leaf_good (cell_of ir) /\
  read_table_leaf schema (cell_of ir) = Ok (mkTableLeafCell ir.1 (row_image ir.1 ir.2)).
Proof.
  intros (Hid & Hlen & Hfit). destruct (encode_record_fits _ Hfit) as (payload & Henc & Hp). unfold table_cell, encode_table_row_payload, cell_of.
  rewrite blank_aliases by done. cbn [bind]. rewrite Henc. split; [done|]. split; [split; [unfold is_u64, u64_max; cbn; unfold i64_max in Hid; lia|done]|].
  unfold read_table_leaf. cbn [leaf_payload leaf_row_id]. destruct (decode_encoded_record _ _ Hfit Henc) as [_ ->]. cbn [bind]. by rewrite patch_stored by lia.
Qed.
End Rows.

(** ** The round trip *)

Section RoundTrip.
Context {SelectStatement : Type} `{Libm, JsonParser}.
Context (evaluate_index_term : Schema SelectStatement -> Row -> string -> Result Value) (parse_check_constraint_expression : string -> Result CheckExpr).

(** The table a list of rows makes. *)
Definition table_image (schema : Schema SelectStatement) (rows : list (RowId * Row)) : gmap Z Row :=
  map_imap (fun row_id row => Some (row_image schema row_id row)) (list_to_map rows).

Definition image_of (schema : Schema SelectStatement) (ir : RowId * Row) : RowId * Row := (ir.1, row_image schema ir.1 ir.2).

Lemma list_to_map_image schema rows : NoDup (map fst rows) -> list_to_map (map (image_of schema) rows) = table_image schema rows.
Proof.
  intros Hnd. apply map_eq. intros k. unfold table_image. rewrite map_lookup_imap. induction rows as [|[i row] rows IH]; [done|]. apply NoDup_cons in Hnd as [_ Hnd].
  cbn [map]. change (image_of schema (i, row)) with (i, row_image schema i row). rewrite !list_to_map_cons. destruct (decide (i = k)) as [->|Hne]; [by rewrite !lookup_insert_eq|]. rewrite !lookup_insert_ne by done. by apply IH.
Qed.

Lemma map_fst_image schema rows : map fst (map (image_of schema) rows) = map fst rows.
Proof. rewrite map_map. by apply map_ext. Qed.

(** The scan of a table finds the rows of a map in the order of their ids, and the search for
    a row id what the map has for it, with fuel above the height of the tree. *)
Definition table_at (pager : Pager) (schema : Schema SelectStatement) (root : Z) (image : gmap Z Row) : Prop :=
  exists depth, forall fuel, (depth < fuel)%nat ->
    scan_table_rows fuel pager root schema = Ok (sorted_items image) /\
    forall row_id, get_table_row fuel pager root schema row_id = Ok (image !! row_id).

(** So through any pager over the pages. *)
Definition table_reads (schema : Schema SelectStatement) (root : Z) (image : gmap Z Row) (ps : gmap Z bytes) : Prop :=
  forall pager, serves pager ps -> table_at pager schema root image.

Lemma table_reads_mono schema root image ps ps' : ps ⊆ ps' -> table_reads schema root image ps -> table_reads schema root image ps'.
Proof. intros Hs H' pager Hserves. apply H'. by eapply serves_mono. Qed.

Lemma build_table_builds (table : WritableTable SelectStatement) (root : Z) (w : Pages) :
  pages_ok w -> set_aside root w -> without_rowid (table_schema table) = false ->
  NoDup (map fst (table_rows table)) -> Forall (storable (table_schema table)) (table_rows table) ->
  builds (build_table_btree table root) w (fun _ w' => grows_root root w w' /\ pages_ok w' /\
    table_reads (table_schema table) root (table_image (table_schema table) (table_rows table)) (pages w')).
Proof.
  intros Hw Hroot Hwr Hnd Hst. set (schema := table_schema table) in *. set (rows := table_rows table) in *. set (image := table_image schema rows).
  assert (Hcell : forall ir, ir ∈ rows -> table_cell schema ir = Ok (cell_of schema ir) /\ table_leaf_good (cell_of schema ir) /\
    read_table_leaf schema (cell_of schema ir) = Ok (mkTableLeafCell ir.1 (row_image schema ir.1 ir.2))).
  { intros ir Hir. apply table_cell_run. by eapply (Forall_forall (storable schema)). }
  unfold build_table_btree. fold schema rows. rewrite Hwr. eapply builds_get; [apply (mapM_res_ok _ (cell_of schema)); intros ir Hir; by apply Hcell|].
  assert (Hgood : Forall table_leaf_good (map (cell_of schema) rows)) by (apply Forall_fmap, Forall_forall; intros ir Hir; by apply Hcell).
  eapply builds_weaken; [by apply table_btree_builds|]. cbv beta. intros _ w' (d & Hg & Hw' & Htree). split; [done|]. split; [done|]. intros pager Hserves. exists d. intros fuel Hfuel.
  rewrite (sort_by_map _ (fun a b => a.1 ?= b.1)) in Htree by done. set (sorted := sort_by (fun a b : RowId * Row => a.1 ?= b.1) rows) in *.
  assert (Hin : forall ir, ir ∈ sorted -> ir ∈ rows) by (intros ir; apply elem_of_sort_by).
  assert (Hgood' : Forall table_leaf_good (map (cell_of schema) sorted)) by (apply Forall_fmap, Forall_forall; intros ir Hir; by apply Hcell, Hin).
  assert (Himage : image = list_to_map (map (image_of schema) rows)) by (symmetry; by apply list_to_map_image).
  split.
  - unfold scan_table_rows. rewrite (scan_table_tree schema pager _ Hserves d root _ fuel [] Htree Hfuel Hgood').
    rewrite mapM_res_map, (mapM_res_ok _ (fun ir => mkTableLeafCell ir.1 (row_image schema ir.1 ir.2))) by (intros ir Hir; by apply Hcell, Hin). cbn [bind app].
    rewrite map_map, Himage, <- sorted_rows_items by (by rewrite map_fst_image). by rewrite (sort_by_map (image_of schema) (fun a b => a.1 ?= b.1)).
  - intros row_id. set (row_of t := match read_table_leaf schema t with Ok c => cell_row c | _ => [] end). unfold get_table_row.
    rewrite (get_table_tree schema pager _ Hserves row_id row_of d root _ fuel Htree Hfuel Hgood').
    + f_equal. assert (Hperm : sorted ≡ₚ rows) by apply sort_by_perm.
      rewrite Himage, <- (list_to_map_proper (M := gmap Z) (map (image_of schema) sorted)) by (by rewrite ?map_fst_image, ?Hperm || by rewrite Hperm).
      rewrite <- head_with_key by (by rewrite map_fst_image, Hperm). clear -Hcell Hin. induction sorted as [|ir l IH]; [done|].
      assert (Hrow : row_of (cell_of schema ir) = row_image schema ir.1 ir.2) by (unfold row_of; by destruct (Hcell ir) as (_ & _ & ->); [apply Hin; left|]).
      unfold with_id in *. cbn [map]. rewrite !filter_cons. change ((image_of schema ir).1) with ir.1. change (leaf_row_id (cell_of schema ir)) with ir.1.
      destruct (decide (ir.1 = row_id)); [cbn; by rewrite Hrow|]. apply IH. intros x Hx. apply Hin. by right.
    + by apply (StronglySorted_fmap (cell_of schema) (fun a b => a.1 < b.1)), sorted_rows_ascending.
    + intros t Ht. apply list_elem_of_fmap in Ht as (ir & -> & Hir). unfold row_of. by destruct (Hcell ir) as (_ & _ & ->); [apply Hin|].
Qed.

(** C11: a table written and read back. When the rows have different ids and can be stored,
    [build_table_btree] only fails for want of page numbers; it leaves all pages there were,
    and through a pager over the pages the scan of the table finds the rows in the order of
    their ids, each as the map of the table has it, and the search for a row id finds its
    row or nothing, as the map says. *)
Theorem sqlite_table_roundtrip (table : WritableTable SelectStatement) (root : Z) (w : Pages) :
  pages_ok w -> set_aside root w -> without_rowid (table_schema table) = false ->
  NoDup (map fst (table_rows table)) -> Forall (storable (table_schema table)) (table_rows table) ->
  builds (build_table_btree table root) w (fun _ w' => pages w ⊆ pages w' /\
    table_reads (table_schema table) root (table_image (table_schema table) (table_rows table)) (pages w')).
Proof. intros. eapply builds_weaken; [by apply build_table_builds|]. cbv beta. intros _ w' ([_ Hold _ _] & _ & Hr). by split. Qed.

(** ** Indexes *)

Lemma index_btree_builds n leaf interior root cells w : pages_ok w -> set_aside root w -> Forall (index_leaf_good n) cells ->
  builds (index_btree leaf interior root cells) w (fun _ w' => exists d, grows_root root w w' /\ pages_ok w' /\
    index_tree (pages w') d root (sort_by (fun a b => lex_cmp value_cmp (leaf_key a) (leaf_key b)) cells)).
Proof.
  intros Hw Hroot Hgood. pose proof (index_tree_format n leaf interior).
  apply (build_btree_builds (goodT := index_leaf_good n) (goodC := index_child_good n) (boundT := 1015) (boundC := 1019) LeafIndex InteriorIndex
    "sqlite writer does not support index records that overflow a single leaf page" "index");
    [done|done|unfold PAGE_SIZE; lia|unfold PAGE_SIZE; lia|done|done|]. by rewrite sort_by_perm.
Qed.

(** The entries an index has: [keys] gives the key of a row, or nothing when the row is not
    in the index. *)
Definition index_pairs (keys : RowId * Row -> option (list Value)) (rows : list (RowId * Row)) : list (list Value * RowId) :=
  omap (fun ir => key ← keys ir; Some (key, ir.1)) rows.

(** [keys] is what the code finds the keys to be, and these can be stored. *)
Definition indexes_as (schema : Schema SelectStatement) (index : IndexMeta) (keys : RowId * Row -> option (list Value)) (ir : RowId * Row) : Prop :=
  row_matches_partial_index parse_check_constraint_expression schema index ir.2 = Ok (bool_decide (is_Some (keys ir))) /\
  forall key, keys ir = Some key ->
    mapM_res (evaluate_index_term schema ir.2) (index_columns index) = Ok key /\ 0 <= ir.1 <= i64_max /\ record_fits (key ++ [Integer ir.1]).

Definition entry_values (ki : list Value * RowId) : list Value := ki.1 ++ [Integer ki.2].
Definition index_cell_of (ki : list Value * RowId) : IndexLeafCellData :=
  mkIndexLeafCellData (entry_values ki) (match encode_record (entry_values ki) with Ok payload => payload | _ => [] end).
Definition entry_image (ki : list Value * RowId) : IndexEntry := mkIndexEntry (map index_image ki.1) ki.2.

Lemma index_cells_run schema index keys rows : Forall (indexes_as schema index keys) rows ->
  index_cells parse_check_constraint_expression schema index (index_cell evaluate_index_term schema index) rows = Ok (map index_cell_of (index_pairs keys rows)).
Proof.
  induction 1 as [|[id row] rows [Hm Hk] _ IH]; [done|]. cbn [index_cells]. cbn [snd] in Hm. rewrite Hm. cbn [bind]. unfold index_pairs. cbn [omap list_omap].
  destruct (keys (id, row)) as [key|]; [|by rewrite IH]. destruct (Hk key eq_refl) as (Hkey & Hid & Hfit). cbn [fst snd] in *.
  rewrite bool_decide_true by done. unfold index_cell at 1. rewrite Hkey. cbn [bind]. rewrite (proj2 (Z.leb_le _ _)) by lia. cbn [bind].
  destruct (encode_record_fits _ Hfit) as (payload & Henc & _). rewrite Henc. cbn [bind]. rewrite IH. cbn [bind mbind option_bind]. f_equal. cbn [map]. f_equal.
  unfold index_cell_of, entry_values. cbn [fst snd]. by rewrite Henc.
Qed.

Lemma elem_of_index_pairs keys rows ki : ki ∈ index_pairs keys rows <-> exists row, (ki.2, row) ∈ rows /\ keys (ki.2, row) = Some ki.1.
Proof.
  unfold index_pairs. rewrite list_elem_of_omap. destruct ki as [key id]. cbn [fst snd]. split.
  - intros ([id' row] & Hin & Hk). cbn in Hk. destruct (keys (id', row)) as [key'|] eqn:E; [|done]. cbn in Hk. injection Hk as -> ->. by exists row.
  - intros (row & Hin & Hk). exists (id, row). split; [done|]. cbn. by rewrite Hk.
Qed.

(** An entry read back. *)
Lemma read_index_entry default_hash index ki : length ki.1 = length (index_columns index) -> Zlen (index_columns index) + 1 <= u64_max ->
  0 <= ki.2 -> record_fits (entry_values ki) -> read_index_leaf default_hash index (index_cell_of ki) = Ok (entry_image ki).
Proof.
  intros Hlen Hu Hid Hfit. destruct (encode_record_fits _ Hfit) as (payload & Henc & _). unfold read_index_leaf, index_cell_of. cbn [index_payload].
  rewrite Henc. destruct (decode_encoded_record _ _ Hfit Henc) as [-> _]. cbn [bind]. unfold entry_values. rewrite map_app. cbn [map index_image].
  unfold decode_index_entry_values, minimum_index_record_value_count, checked_add. rewrite (proj2 (Z.leb_le _ _)) by done. cbn [ok_or bind].
  rewrite (proj2 (Z.ltb_ge _ _)) by (rewrite Zlen_app, Zlen_map; change (Zlen [Integer ki.2]) with 1; unfold Zlen; lia).
  rewrite length_app, length_map. cbn [length]. rewrite Hlen, Nat.eqb_refl, last_snoc, (proj2 (Z.leb_le _ _)) by done.
  by rewrite <- Hlen, <- (length_map index_image ki.1), take_app_length.
Qed.

(** The scan of an index finds [pairs], and the lookup of a prefix the row ids of those that
    begin with it. *)
Definition index_at_root (default_hash : list Value -> Z) (pager : Pager) (index : IndexMeta) (root : Z) (pairs : list (list Value * RowId)) : Prop :=
  exists depth, forall fuel, (depth < fuel)%nat ->
    scan_index_entries default_hash fuel pager root index = Ok (map entry_image pairs) /\
    forall key_prefix, exists row_ids, lookup_index_entries default_hash fuel pager root index key_prefix = Ok row_ids /\
      forall row_id, row_id ∈ row_ids <-> exists key, (key, row_id) ∈ pairs /\ starts_with (map index_image key) key_prefix = true.

Definition index_reads (default_hash : list Value -> Z) (index : IndexMeta) (root : Z) (pairs : list (list Value * RowId)) (ps : gmap Z bytes) : Prop :=
  forall pager, serves pager ps -> index_at_root default_hash pager index root pairs.

Lemma index_reads_mono default_hash index root pairs ps ps' : ps ⊆ ps' -> index_reads default_hash index root pairs ps -> index_reads default_hash index root pairs ps'.
Proof. intros Hs H' pager Hserves. apply H'. by eapply serves_mono. Qed.

(** The entries in their order in the index. *)
Definition sorted_pairs (keys : RowId * Row -> option (list Value)) (rows : list (RowId * Row)) : list (list Value * RowId) :=
  sort_by (fun a b => lex_cmp value_cmp (entry_values a) (entry_values b)) (index_pairs keys rows).

Lemma build_index_builds (default_hash : list Value -> Z) (table : WritableTable SelectStatement) (index : IndexMeta)
    (keys : RowId * Row -> option (list Value)) (root : Z) (w : Pages) :
  pages_ok w -> set_aside root w -> without_rowid (table_schema table) = false -> Zlen (index_columns index) + 1 <= u64_max ->
  Forall (indexes_as (table_schema table) index keys) (table_rows table) ->
  builds (build_index_btree evaluate_index_term parse_check_constraint_expression table index root) w (fun _ w' => grows_root root w w' /\ pages_ok w' /\
    index_reads default_hash index root (sorted_pairs keys (table_rows table)) (pages w')).
Proof.
  intros Hw Hroot Hwr Hu Hrows. set (rows := table_rows table) in *. set (pairs := sorted_pairs keys rows). set (n := Zlen (index_columns index) + 1) in *.
  unfold build_index_btree. rewrite Hwr. eapply builds_get; [by apply index_cells_run|]. fold rows.
  assert (Hpair : forall ki, ki ∈ index_pairs keys rows -> length ki.1 = length (index_columns index) /\ 0 <= ki.2 /\ record_fits (entry_values ki)).
  { intros ki (row & Hin & Hk)%elem_of_index_pairs. rewrite Forall_forall in Hrows. destruct (Hrows _ Hin) as [_ Hkey]. destruct (Hkey _ Hk) as (Hm & Hid & Hfit).
    split_and!; [symmetry; by eapply Forall2_length, mapM_res_Forall2|apply Hid|done]. }
  assert (Hcell : forall ki, ki ∈ index_pairs keys rows -> index_leaf_good n (index_cell_of ki)).
  { intros ki Hki. destruct (Hpair ki Hki) as (Hlen & _ & Hfit). split; [done|]. split; [unfold n, index_cell_of, entry_values; cbn; rewrite Zlen_app; unfold Zlen; cbn; lia|].
    destruct (encode_record_fits _ Hfit) as (payload & Henc & Hp). unfold index_cell_of. by rewrite Henc. }
  eapply builds_weaken; [apply (index_btree_builds n); [done..|]; by apply Forall_fmap, Forall_forall|].
  cbv beta. intros _ w' (d & Hg & Hw' & Htree). split; [done|]. split; [done|]. intros pager Hserves. exists d. intros fuel Hfuel.
  rewrite (sort_by_map _ (fun a b => lex_cmp value_cmp (entry_values a) (entry_values b))) in Htree by done. change (sort_by _ _) with pairs in Htree.
  assert (Hin : forall ki, ki ∈ pairs <-> ki ∈ index_pairs keys rows) by (intros ki; apply elem_of_sort_by).
  assert (Hgood : Forall (index_leaf_good n) (map index_cell_of pairs)) by (apply Forall_fmap, Forall_forall; intros ki Hki; by apply Hcell, Hin).
  assert (Hread : mapM_res (read_index_leaf default_hash index) (map index_cell_of pairs) = Ok (map entry_image pairs)).
  { rewrite mapM_res_map. apply mapM_res_ok. intros ki Hki. apply Hin in Hki. destruct (Hpair ki Hki) as (? & ? & ?). by apply read_index_entry. }
  split.
  - unfold scan_index_entries. by rewrite (scan_index_tree default_hash index n pager _ Hserves eq_refl Hu d root _ fuel [] Htree Hfuel Hgood), Hread.
  - intros key_prefix. unfold lookup_index_entries. rewrite (scan_matching_tree default_hash index n pager _ Hserves eq_refl Hu key_prefix d root _ fuel ∅ Htree Hfuel Hgood), Hread.
    eexists. split; [done|]. intros row_id. rewrite elem_of_sorted_elements, elem_of_add_matching. split.
    + intros [?%elem_of_empty|(e & He & Hs & <-)]; [done|]. apply list_elem_of_fmap in He as ([key id] & -> & Hki). by exists key.
    + intros (key & Hki & Hs). right. exists (entry_image (key, row_id)). split_and!; [by apply list_elem_of_fmap_2|done..].
Qed.
(** C12: an index written and read back. When the keys of the rows are found and can be
    stored, [build_index_btree] only fails for want of page numbers; it leaves all pages
    there were, and through a pager over the pages the scan of the index finds an entry
    for every row that the index has, in the order of keys and row ids, and the lookup of a
    prefix finds exactly the rows whose keys, as stored, begin with it. *)
Theorem sqlite_index_roundtrip (default_hash : list Value -> Z) (table : WritableTable SelectStatement) (index : IndexMeta)
    (keys : RowId * Row -> option (list Value)) (root : Z) (w : Pages) :
  pages_ok w -> set_aside root w -> without_rowid (table_schema table) = false -> Zlen (index_columns index) + 1 <= u64_max ->
  Forall (indexes_as (table_schema table) index keys) (table_rows table) ->
  builds (build_index_btree evaluate_index_term parse_check_constraint_expression table index root) w (fun _ w' => pages w ⊆ pages w' /\
    index_reads default_hash index root (sorted_pairs keys (table_rows table)) (pages w')).
Proof. intros. eapply builds_weaken; [by apply (build_index_builds default_hash table index keys)|]. cbv beta. intros _ w' ([_ Hold _ _] & _ & Hr). by split. Qed.
End RoundTrip.
