(* ===== verification/SqliteWithoutRowid.v ===== *)
(** * WITHOUT ROWID tables written and read back

    Their records have the columns of the primary key first. The reader puts every value
    back at its column, and the rows come in the order of their keys, numbered. *)

From S2P Require Import Prelude Text Varint Types Floats Schema SchemaLaws CheckValues CheckEval Record SqliteFile SqliteBTree SqliteWriter SqliteChains SqliteTrees SqliteReading SqliteScan SqliteRoundTrip.

Section Order.
Context {SelectStatement : Type} (schema : Schema SelectStatement) (pk : PrimaryKeyConstraint).
Abbreviation names := (map column_name (columns schema)).
Context (Hnames : NoDup names) (Hpk : NoDup (pk_columns pk)) (Hsub : forall name, name ∈ pk_columns pk -> name ∈ names).

Lemma record_order_perm : record_order schema pk ≡ₚ names.
Proof.
  apply NoDup_Permutation.
  - apply NoDup_app. split_and!; [done| |by apply NoDup_filter]. intros x Hx Hf. apply list_elem_of_filter in Hf as [Hn _]. done.
  - done.
  - intros x. unfold record_order. rewrite elem_of_app, list_elem_of_filter. split; [intros [?|[_ ?]]; auto|].
    intros Hx. destruct (decide (x ∈ pk_columns pk)); [by left|by right].
Qed.

Lemma column_index_at i name : names !! i = Some name -> column_index schema name = Ok i.
Proof.
  intros Hi. apply list_lookup_fmap_Some in Hi as (c & -> & Hc). unfold column_index. replace (column_position (column_name c) (columns schema)) with (Some i); [done|].
  symmetry. unfold column_position. rewrite (proj2 (list_find_Some _ _ i c)); [done|]. split_and!; [done..|]. intros j y Hj Hlt Heq.
  assert (i = j); [|lia]. eapply (NoDup_lookup names); [done|by apply list_lookup_fmap_Some; exists c|by apply list_lookup_fmap_Some; exists y].
Qed.

Lemma column_at name : name ∈ names -> exists i, names !! i = Some name /\ column_index schema name = Ok i.
Proof. intros (i & Hi)%list_elem_of_lookup. exists i. split; [done|]. by apply column_index_at. Qed.

(** The value of a column in a row. *)
Definition column_value (row : Row) (name : string) : Value := default Null (column_position name (columns schema) ≫= (row !!.)).

Lemma row_column_run row name : length row = length (columns schema) -> name ∈ names -> row_column schema row name = Ok (column_value row name).
Proof.
  intros Hlen Hin. destruct (column_at name Hin) as (i & Hi & Hc). unfold row_column, column_value. rewrite Hc. cbn [bind].
  unfold column_index in Hc. apply ok_or_Ok_inv in Hc as ->. cbn [mbind option_bind].
  assert (Hlt : (i < length row)%nat) by (rewrite Hlen, <- (length_map column_name); by eapply lookup_lt_Some).
  destruct (row !! i) eqn:E; [done|]. apply lookup_ge_None in E. lia.
Qed.

Lemma column_value_at row i name : names !! i = Some name -> column_value row name = default Null (row !! i).
Proof. intros Hi%column_index_at. unfold column_index in Hi. apply ok_or_Ok_inv in Hi. unfold column_value. by rewrite Hi. Qed.

(** The loop that puts the values of a record at their columns. *)
Lemma place_values (value_of : string -> Value) : forall order acc, NoDup order -> (forall name, name ∈ order -> name ∈ names) -> length acc = length names ->
  exists acc', fold_res (fun row (vn : Value * string) => let? position := column_index schema vn.2 in Ok (<[position := vn.1]> row)) (zip (map value_of order) order) acc = Ok acc' /\
    length acc' = length names /\
    forall i name, names !! i = Some name -> acc' !! i = if decide (name ∈ order) then Some (value_of name) else acc !! i.
Proof.
  induction order as [|name order IH]; intros acc Hnd Hin Hlen.
  - exists acc. split_and!; [done..|]. intros i name' Hi. by rewrite decide_False by apply not_elem_of_nil.
  - apply NoDup_cons in Hnd as [Hn Hnd]. destruct (column_at name ltac:(apply Hin; by left)) as (j & Hj & Hc). cbn [map zip zip_with fold_res snd fst]. rewrite Hc. cbn [bind].
    destruct (IH (<[j := value_of name]> acc)) as (acc' & Hrun & Hlen' & Hat); [done|intros x Hx; apply Hin; by right|by rewrite length_insert|].
    exists acc'. split_and!; [exact Hrun|done|]. intros i name' Hi. rewrite (Hat i name' Hi). destruct (decide (name' = name)) as [->|Hne].
    + assert (i = j) as -> by (by eapply (NoDup_lookup names)). rewrite decide_False, decide_True by (done || by left). apply list_lookup_insert_eq. rewrite Hlen. by eapply lookup_lt_Some.
    + assert (j <> i) by (intros ->; congruence). rewrite list_lookup_insert_ne by done. destruct (decide (name' ∈ order)).
      * by rewrite decide_True by (by right).
      * rewrite decide_False; [done|]. by intros [?|?]%elem_of_cons.
Qed.

(** A row put in the order of its record and back. *)
Lemma reorder_row (f : Value -> Value) row : f Null = Null -> primary_key_constraint schema = Some pk -> length row = length (columns schema) ->
  reorder_without_rowid_record schema (map f (map (column_value row) (record_order schema pk))) = Ok (map f row).
Proof.
  intros Hf Hpkc Hlen. assert (Ho : length (record_order schema pk) = length (columns schema)) by (rewrite record_order_perm; apply length_map).
  unfold reorder_without_rowid_record. rewrite !length_map, Ho, Nat.eqb_refl. cbn [negb]. rewrite Hpkc. cbn [ok_or bind]. rewrite Ho, Nat.eqb_refl. cbn [negb]. rewrite map_map.
  destruct (place_values (fun name => f (column_value row name)) (record_order schema pk) (replicate (length (columns schema)) Null)) as (row' & Hrun & Hl & Hat).
  - rewrite record_order_perm. done.
  - intros name. by rewrite record_order_perm.
  - by rewrite length_replicate, length_map.
  - rewrite Hrun. f_equal. rewrite length_map in Hl. apply list_eq_same_length with (length row); [by rewrite length_map|lia|]. intros i x y Hi Hx Hy.
    assert (Hlt : (i < length (columns schema))%nat) by lia. destruct (names !! i) as [name|] eqn:En; [|apply lookup_ge_None in En; rewrite length_map in En; lia].
    rewrite (Hat i name En), decide_True in Hx by (rewrite record_order_perm; by eapply list_elem_of_lookup_2). injection Hx as <-.
    rewrite (column_value_at row i name En). apply list_lookup_fmap_Some in Hy as (v & -> & Hv). by rewrite Hv.
Qed.
End Order.

(** ** The round trip *)

Section RoundTrip.
Context {SelectStatement : Type} (schema : Schema SelectStatement) (pk : PrimaryKeyConstraint).
Abbreviation names := (map column_name (columns schema)).

(** A schema whose rows have a record: different columns, among them those of the key. *)
Record keyed : Prop := {
  keyed_rowid : without_rowid schema = true;
  keyed_constraint : primary_key_constraint schema = Some pk;
  keyed_names : NoDup names;
  keyed_key : NoDup (pk_columns pk);
  keyed_columns : forall name, name ∈ pk_columns pk -> name ∈ names
}.

(** The record of a row and its key. *)
Definition row_record (row : Row) : list Value := map (column_value schema row) (record_order schema pk).
Definition row_key (row : Row) : list Value := map (column_value schema row) (pk_columns pk).

Definition keyed_row (ir : RowId * Row) : Prop :=
  length ir.2 = length (columns schema) /\ record_fits (row_record ir.2) /\ record_fits (row_key ir.2).

Definition keyed_cell (ir : RowId * Row) : IndexLeafCellData :=
  mkIndexLeafCellData (row_key ir.2) (match encode_record (row_record ir.2) with Ok payload => payload | _ => [] end).

Lemma keyed_cell_run ir : keyed -> keyed_row ir ->
  without_rowid_table_cell schema pk ir = Ok (keyed_cell ir) /\ index_leaf_good 0 (keyed_cell ir) /\
  read_without_rowid_leaf schema (keyed_cell ir) = Ok (map index_image ir.2).
Proof.
  intros Hk (Hlen & Hfit & Hkey). destruct Hk as [_ Hc Hn Hp Hs]. destruct (encode_record_fits _ Hfit) as (payload & Henc & Hl).
  unfold without_rowid_table_cell, encode_without_rowid_table_payload, keyed_cell.
  rewrite (mapM_res_ok _ (column_value schema ir.2)) by (intros name Hin; apply row_column_run; auto). cbn [bind]. rewrite Hc. cbn [ok_or bind].
  rewrite (mapM_res_ok _ (column_value schema ir.2)) by (intros name Hin; apply row_column_run; auto; by rewrite record_order_perm in Hin). cbn [bind]. fold (row_record ir.2). rewrite Henc.
  split; [done|]. split; [split_and!; [done|apply Zlen_nonneg|done]|].
  unfold read_without_rowid_leaf. cbn [index_payload]. destruct (decode_encoded_record _ _ Hfit Henc) as [-> _]. cbn [bind]. by apply (reorder_row schema pk).
Qed.

Lemma push_all rows : forall acc, Zlen acc + Zlen rows <= u64_max ->
  fold_res push_numbered rows acc = Ok (acc ++ imap (fun i row => (Zlen acc + Z.of_nat i + 1, row)) rows).
Proof.
  induction rows as [|row rows IH]; intros acc Hl; cbn [fold_res imap]; [by rewrite app_nil_r|]. rewrite Zlen_cons in Hl. pose proof (Zlen_nonneg rows).
  unfold push_numbered at 1, checked_add. rewrite (proj2 (Z.leb_le _ _)) by lia. cbn [ok_or bind]. rewrite IH by (rewrite Zlen_app; change (Zlen [(Zlen acc + 1, row)]) with 1; lia).
  rewrite <- app_assoc. cbn [app]. rewrite Z.add_0_r. do 3 f_equal. apply imap_ext. intros i x _. unfold compose. rewrite Zlen_app. change (Zlen [(Zlen acc + 1, row)]) with 1. f_equal. lia.
Qed.

(** The tree of keys is one the search for row ids does not enter. *)
Lemma get_row_refuses pager ps d root cells fuel row_id : serves pager ps -> index_tree ps d root cells ->
  exists type, get_table_row (S fuel) pager root schema row_id = Err (unsupported_page "table" type).
Proof.
  intros Hs. destruct d; intros (Hp & page & Hpage & H); unfold get_table_row; cbn [get_table_row_from_page].
  - destruct (read_leaf _ _ _ _ _ _ _ Hs Hp Hpage H) as (header & rs & Hr & Hp1 & Hh & Ht & _). rewrite Hr. cbn [bind]. rewrite Hp1, Hh. cbn [bind]. rewrite Ht. by exists LeafIndex.
  - destruct H as (children & css & Hc & _ & _). destruct (read_interior _ _ _ _ _ _ _ _ Hs Hp Hpage Hc) as (header & rs & init & lastc & Hr & Hp1 & Hh & Ht & _).
    rewrite Hr. cbn [bind]. rewrite Hp1, Hh. cbn [bind]. rewrite Ht. by exists InteriorIndex.
Qed.

(** The scan finds the rows, numbered; the search for a row id refuses the tree. *)
Definition keyed_at (pager : Pager) (root : Z) (rows : list (RowId * Row)) : Prop :=
  exists depth, forall fuel, (depth < fuel)%nat ->
    scan_table_rows fuel pager root schema = Ok (imap (fun i ir => (Z.of_nat i + 1, map index_image ir.2)) rows) /\
    forall row_id, exists type, get_table_row fuel pager root schema row_id = Err (unsupported_page "table" type).

Definition keyed_reads (root : Z) (rows : list (RowId * Row)) (ps : gmap Z bytes) : Prop :=
  forall pager, serves pager ps -> keyed_at pager root rows.

Lemma keyed_reads_mono root rows ps ps' : ps ⊆ ps' -> keyed_reads root rows ps -> keyed_reads root rows ps'.
Proof. intros Hs H' pager Hserves. apply H'. by eapply serves_mono. Qed.

Definition sorted_by_key (rows : list (RowId * Row)) : list (RowId * Row) := sort_by (fun a b => lex_cmp value_cmp (row_key a.2) (row_key b.2)) rows.

Lemma build_keyed_builds (rows : list (RowId * Row)) (root : Z) (w : Pages) :
  pages_ok w -> set_aside root w -> keyed -> Forall keyed_row rows -> Zlen rows <= i64_max ->
  builds (build_table_btree (mkWritableTable _ schema rows) root) w (fun _ w' => grows_root root w w' /\ pages_ok w' /\
    keyed_reads root (sorted_by_key rows) (pages w')).
Proof.
  intros Hw Hroot Hkeyed Hrows Hlen. set (sorted := sorted_by_key rows).
  assert (Hcell : forall ir, ir ∈ rows -> without_rowid_table_cell schema pk ir = Ok (keyed_cell ir) /\ index_leaf_good 0 (keyed_cell ir) /\
    read_without_rowid_leaf schema (keyed_cell ir) = Ok (map index_image ir.2)).
  { intros ir Hir. apply keyed_cell_run; [done|]. by eapply Forall_forall. }
  unfold build_table_btree, build_without_rowid_table_btree. cbn [table_schema table_rows]. rewrite (keyed_rowid Hkeyed).
  eapply builds_get; [rewrite (keyed_constraint Hkeyed); done|]. eapply builds_get; [apply (mapM_res_ok _ keyed_cell); intros ir Hir; by apply Hcell|].
  eapply builds_weaken; [apply (index_btree_builds 0); [done..|]; apply Forall_fmap, Forall_forall; intros ir Hir; by apply Hcell|].
  cbv beta. intros _ w' (d & Hg & Hw' & Htree). split; [done|]. split; [done|]. intros pager Hserves. exists d. intros fuel Hfuel.
  rewrite (sort_by_map _ (fun a b => lex_cmp value_cmp (row_key a.2) (row_key b.2))) in Htree by done. change (sort_by _ _) with sorted in Htree.
  assert (Hin : forall ir, ir ∈ sorted -> ir ∈ rows) by (intros ir; apply elem_of_sort_by). split.
  - set (row_of t := match read_without_rowid_leaf schema t with Ok row => row | _ => [] end).
    assert (Hrow : forall ir, ir ∈ sorted -> row_of (keyed_cell ir) = map index_image ir.2) by (intros ir Hir; unfold row_of; by destruct (Hcell ir (Hin ir Hir)) as (_ & _ & ->)).
    unfold scan_table_rows. rewrite (scan_without_rowid_tree schema 0 pager _ Hserves row_of d root _ fuel [] (keyed_rowid Hkeyed) Htree Hfuel).
    + assert (Hl : Zlen sorted = Zlen rows) by (unfold Zlen, sorted, sorted_by_key; by rewrite sort_by_perm). rewrite push_all by (rewrite !Zlen_map, Hl; change (Zlen []) with 0; unfold i64_max, u64_max in *; lia).
      cbn [app]. f_equal. rewrite map_map. transitivity (imap (fun i row => (Z.of_nat i + 1, row)) (map (fun ir : RowId * Row => map index_image ir.2) sorted)).
      * rewrite (map_ext_in _ (fun ir : RowId * Row => map index_image ir.2)); [apply imap_ext; intros; f_equal; change (Zlen []) with 0; lia|]. intros ir Hir%list_elem_of_In. by apply Hrow.
      * rewrite imap_fmap. by apply imap_ext.
    + apply Forall_fmap, Forall_forall. intros ir Hir. cbn. rewrite (Hrow ir Hir). split; by apply Hcell, Hin.
  - intros row_id. destruct fuel as [|fuel]; [lia|]. by eapply get_row_refuses.
Qed.
(** C13: a WITHOUT ROWID table written and read back: [build_table_btree] only fails for
    want of page numbers and leaves the pages there were; the scan finds all rows, every
    value at its column though records begin with the key, in the order of their primary
    keys and numbered from 1. The search for a row id refuses the tree. *)
Theorem sqlite_without_rowid_roundtrip (rows : list (RowId * Row)) (root : Z) (w : Pages) :
  pages_ok w -> set_aside root w -> keyed -> Forall keyed_row rows -> Zlen rows <= i64_max ->
  builds (build_table_btree (mkWritableTable _ schema rows) root) w (fun _ w' => pages w ⊆ pages w' /\
    keyed_reads root (sorted_by_key rows) (pages w')).
Proof. intros. eapply builds_weaken; [by apply build_keyed_builds|]. cbv beta. intros _ w' ([_ Hold _ _] & _ & Hr). by split. Qed.
End RoundTrip.
