(* ===== verification/SqliteAssembly.v ===== *)
(** * The schema page, written and read back

    The rows of the schema table as the writer encodes them on page 1, and as the loader of
    the catalog reads them there. *)

From S2P Require Import Prelude Text Varint Types Floats Schema CheckValues CheckEval Record SqliteFile SqliteBTree SqliteSchema SqliteRender SqliteWriter SqliteDatabase SqliteChains SqliteTrees SqliteReading SqliteScan SqliteRoundTrip SqliteWithoutRowid.



(** ** Records *)

(** The values a row of the schema table has. *)
Definition row_values (row : SchemaRow) : list Value :=
  [Text (entry_type row); Text (row_name row); Text (table_name row); Integer (root_page row);
   match row_sql row with Some sql => Text sql | None => Null end].

Definition schema_value (v : Value) : option RecordValue :=
  match v with Null => Some RvNull | Integer i => Some (RvInteger i) | Text s => Some (RvText s) | _ => None end.

Lemma schema_serial_value v rv pre post : encodable v -> schema_value v = Some rv -> Zlen pre + Zlen (body_of v) <= u64_max ->
  decode_serial_value (pre ++ body_of v ++ post) (Zlen pre) (serial_of v) = Ok (rv, Zlen pre + Zlen (body_of v)).
Proof.
  intros Henc Hrv Hl. pose proof (Zlen_body_of v Henc) as Hb. destruct Henc as [Hwf Hv]. pose proof (take_field_ok pre (body_of v) post) as Htf.
  unfold decode_serial_value. destruct v as [| |i| | |t]; try done; injection Hrv as <-.
  - cbn. by rewrite Z.add_0_r.
  - cbn [serial_of] in *. destruct (integer_serial_cases i Hwf) as [(->&->)|[(->&->)|(n&Hn&Hs&Hlen&Hr)]]; [cbn; by rewrite Z.add_0_r..|].
    replace (integer_serial_type i =? 0) with false by lia.
    replace ((1 <=? integer_serial_type i) && (integer_serial_type i <=? 6)) with true in * by lia.
    cbv zeta in Hb. rewrite <- Hb, Htf by done. cbn [bind body_of]. rewrite Hlen, Nat2Z.id. by rewrite decode_integer_to_be.
  - cbn [serial_of body_of] in *. destruct Hv as [Hutf _]. set (l := string_bytes t) in *. pose proof (Zlen_nonneg l).
    replace (2 * Zlen l + 13 =? 0) with false by lia. replace (2 * Zlen l + 13 =? 8) with false by lia. replace (2 * Zlen l + 13 =? 9) with false by lia.
    replace ((1 <=? 2 * Zlen l + 13) && (2 * Zlen l + 13 <=? 6)) with false by lia.
    replace ((12 <=? 2 * Zlen l + 13) && ((2 * Zlen l + 13) mod 2 =? 0)) with false by zlia.
    replace ((13 <=? 2 * Zlen l + 13) && ((2 * Zlen l + 13) mod 2 =? 1)) with true by zlia.
    replace ((2 * Zlen l + 13 - 13) / 2) with (Zlen l) by zlia. rewrite Htf by done. cbn [bind]. rewrite Hutf. unfold l. by rewrite bytes_string_bytes.
Qed.

Lemma record_values_run vs : forall rvs pre, Forall encodable vs -> Forall2 (fun v rv => schema_value v = Some rv) vs rvs -> Zlen pre + Zlen (payload_of vs) <= u64_max ->
  record_values (pre ++ payload_of vs) (map serial_of vs) (Zlen pre) = Ok rvs.
Proof.
  induction vs as [|v vs IH]; intros rvs pre Hvs Hrvs Hl.
  - by apply Forall2_nil_inv_l in Hrvs as ->.
  - apply Forall_cons in Hvs as [Hv Hvs]. apply Forall2_cons_inv_l in Hrvs as (rv & rvs' & Hrv & Hrvs & ->).
    change (payload_of (v :: vs)) with (body_of v ++ payload_of vs) in *. rewrite Zlen_app in Hl. pose proof (Zlen_nonneg (payload_of vs)).
    cbn [map record_values]. rewrite (schema_serial_value v rv) by (done || lia). cbn [bind].
    specialize (IH rvs' (pre ++ body_of v) Hvs Hrvs). rewrite Zlen_app, <- app_assoc in IH. by rewrite IH by lia.
Qed.

Lemma decode_record_values_run vs rvs payload : record_fits vs -> Forall2 (fun v rv => schema_value v = Some rv) vs rvs -> encode_record vs = Ok payload ->
  decode_record_values payload = Ok rvs.
Proof.
  intros Hfit Hrvs Henc. destruct (encode_record_shape _ Hfit) as (n & Henc' & Hn & Hl). rewrite Henc in Henc'. injection Henc' as ->.
  unfold decode_record_values. rewrite decode_record_header_ok by done. cbn [bind]. destruct Hfit as [Hvs Hfit]. pose proof (Zlen_nonneg (header_of vs)).
  set (e := encode_varint (Zlen (header_of vs) + n)) in *. rewrite app_assoc.
  replace (Zlen (header_of vs) + n) with (Zlen (e ++ header_of vs)) by (rewrite Zlen_app; lia).
  apply record_values_run; [done..|rewrite Zlen_app; width].
Qed.

Lemma decode_row_values row payload : record_fits (row_values row) -> encode_record (row_values row) = Ok payload ->
  decode_record_values payload = Ok [RvText (entry_type row); RvText (row_name row); RvText (table_name row); RvInteger (root_page row);
    match row_sql row with Some sql => RvText sql | None => RvNull end].
Proof. intros Hfit. apply decode_record_values_run; [done|]. unfold row_values. by destruct (row_sql row); repeat constructor. Qed.

(** ** Cells *)

(** Rows that fit a page and that the reader accepts. *)
Definition schema_cell_good (cell : Z * bytes) : Prop := is_u64 cell.1 /\ Zlen cell.2 <= 4061.
Definition schema_cell_head (cell : Z * bytes) : bytes := encode_varint (Zlen cell.2) ++ encode_varint cell.1.
Definition schema_cell_len (cell : Z * bytes) : Result Z := Ok (Zlen (schema_cell_head cell) + Zlen cell.2).
Definition schema_cell_holds (_ : gmap Z bytes) (cell : Z * bytes) (r : bytes) : Prop := r = schema_cell_head cell ++ cell.2.

Lemma schema_head_length cell : schema_cell_good cell -> 2 <= Zlen (schema_cell_head cell) <= 18.
Proof.
  intros [Hid Hp]. assert (Hu : is_u64 (Zlen cell.2)) by (apply Zlen_u64; unfold i64_max; lia). unfold schema_cell_head. rewrite Zlen_app.
  pose proof (Zlen_encode_varint _ Hid). pose proof (Zlen_encode_varint _ Hu). lia.
Qed.

#[export] Instance schema_cell_format : CellFormat schema_cell_good 4079 schema_cell_len render_schema_cell schema_cell_holds.
Proof.
  split.
  - intros t Ht. eexists. split; [done|]. pose proof (schema_head_length t Ht). destruct Ht as [_ Hp]. pose proof (Zlen_nonneg t.2). lia.
  - intros t w Ht Hw. unfold render_schema_cell. apply builds_ret. split_and!; [apply grows_refl|done|unfold schema_cell_holds, schema_cell_head; by rewrite <- app_assoc|].
    unfold schema_cell_len, schema_cell_head. by rewrite !Zlen_app, Z.add_assoc.
  - done.
Qed.

Lemma payload_at pager page pre head payload post : usable_size pager = Ok PAGE_SIZE -> page = pre ++ head ++ payload ++ post -> Zlen page = PAGE_SIZE -> Zlen payload <= 4061 ->
  read_leaf_table_payload pager page (Zlen pre) (Zlen head) (Zlen payload) = Ok payload.
Proof.
  intros Hu -> Hl Hp. rewrite !Zlen_app in Hl. unfold PAGE_SIZE in Hl. pose proof (Zlen_nonneg pre). pose proof (Zlen_nonneg head). pose proof (Zlen_nonneg payload). pose proof (Zlen_nonneg post).
  unfold read_leaf_table_payload. rewrite Hu. cbn [bind]. change (checked_sub PAGE_SIZE 35) with (Some 4061). change (checked_sub PAGE_SIZE 12) with (Some 4084). cbn [ok_or bind].
  change (checked_mul 4084 32) with (Some 130688). cbn [ok_or bind]. change (checked_sub (130688 / 255) 23) with (Some 489). cbn [ok_or bind].
  unfold local_size. rewrite (proj2 (Z.leb_le _ _)) by done. cbn [bind].
  unfold checked_add. rewrite !(proj2 (Z.leb_le _ _)) by (unfold u64_max; lia). cbn [ok_or bind].
  rewrite (proj2 (Z.leb_le _ _)) by (unfold u64_max; lia). cbn [ok_or bind].
  by rewrite app_assoc, (get_range_at (pre ++ head) payload post) by (rewrite Zlen_app; lia).
Qed.

Lemma decode_schema_cell_run pager page offset cell r row : usable_size pager = Ok PAGE_SIZE -> Zlen page = PAGE_SIZE -> schema_cell_good cell ->
  schema_cell_holds ∅ cell r -> at_offset page offset r -> encode_record (row_values row) = Ok cell.2 -> record_fits (row_values row) -> is_u32 (root_page row) ->
  decode_schema_cell pager page offset = Ok row.
Proof.
  intros Hu Hl Hgood -> (_ & pre & post & Hcell & <-) Henc Hfit Hroot. destruct (schema_head_length cell Hgood) as [_ Hhead]. destruct Hgood as [Hid Hp].
  assert (Hul : is_u64 (Zlen cell.2)) by (apply Zlen_u64; unfold i64_max; lia). pose proof (Zlen_encode_varint _ Hid). pose proof (Zlen_encode_varint _ Hul).
  rewrite <- app_assoc in Hcell. unfold decode_schema_cell. rewrite Hcell at 1. rewrite get_from_at. cbn [ok_or bind].
  assert (Hh : schema_cell_head cell ++ cell.2 ++ post = encode_varint (Zlen cell.2) ++ encode_varint cell.1 ++ cell.2 ++ post) by (unfold schema_cell_head; by rewrite <- app_assoc).
  rewrite Hh, decode_encode_varint by done. cbn [bind]. rewrite slice_rest. cbn [bind]. rewrite decode_encode_varint by done. cbn [bind].
  unfold checked_add. rewrite (proj2 (Z.leb_le _ _)) by (unfold u64_max; lia). cbn [ok_or bind]. rewrite <- Zlen_app. fold (schema_cell_head cell).
  rewrite (payload_at pager page pre (schema_cell_head cell) cell.2 post) by done. cbn [bind]. rewrite (decode_row_values row) by done. cbn [bind require_text require_u32].
  assert (Hr : (0 <=? root_page row) && (root_page row <=? u32_max) = true) by (unfold is_u32 in Hroot; lia). rewrite Hr. cbn [bind].
  destruct row as [ty name table root sql]. by destruct sql.
Qed.

(** ** The page *)

(** A row and its cell. *)
Definition row_cell (cell : Z * bytes) (row : SchemaRow) : Prop :=
  schema_cell_good cell /\ encode_record (row_values row) = Ok cell.2 /\ record_fits (row_values row) /\ is_u32 (root_page row).

Lemma read_schema_page pager page rs cells rows fuel : usable_size pager = Ok PAGE_SIZE -> read_page pager 1 = Ok page -> Zlen page = PAGE_SIZE ->
  page_cells page true LeafTable None rs -> Forall2 (schema_cell_holds ∅) cells rs -> Forall2 row_cell cells rows ->
  read_schema_rows (S fuel) pager = Ok rows.
Proof.
  intros Hu Hread Hl Hcells Hhold Hrows. destruct (page_offsets _ _ _ _ _ Hcells) as (header & offsets & Hh & Ht & _ & Hoff & Hat).
  unfold read_schema_rows. cbn [scan_schema_page]. rewrite Hread. cbn [bind]. rewrite Hh. cbn [bind]. rewrite Ht. unfold schema_cell_offsets. rewrite Hoff. cbn [bind].
  replace (mapM_res (decode_schema_cell pager page) offsets) with (Ok rows : Result (list SchemaRow)); [done|]. symmetry.
  rewrite (mapM_res_Forall2_ext _ (fun row => Ok row) offsets rows); [rewrite (mapM_res_ok _ id) by done; by rewrite map_id|].
  apply Forall2_same_length_lookup. split; [by rewrite (Forall2_length _ _ _ Hat), <- (Forall2_length _ _ _ Hhold), (Forall2_length _ _ _ Hrows)|].
  intros i o row Ho Hrow. destruct (Forall2_lookup_r _ _ _ _ _ Hrows Hrow) as (cell & Hcell & Hg & Henc & Hfit & Hroot).
  destruct (Forall2_lookup_l _ _ _ _ _ Hhold Hcell) as (r & Hr & Hhr).
  exact (decode_schema_cell_run pager page o cell r row Hu Hl Hg Hhr (Forall2_lookup_lr _ _ _ _ _ _ Hat Ho Hr) Henc Hfit Hroot).
Qed.

(** * Putting a file together

    Several trees built one after the other on root pages set aside, the numbers of these
    roots, and the file made of all pages: opening it, and reading its pages. *)


(** ** Several trees *)

(** The pages have grown by pages at the roots [R], set aside before, and at new numbers. *)
Record grows_roots (R : list Z) (w w' : Pages) : Prop := {
  grs_next : next_page_no w <= next_page_no w';
  grs_old : pages w ⊆ pages w';
  grs_new : forall k, is_Some (pages w' !! k) -> is_Some (pages w !! k) \/ k ∈ R \/ next_page_no w <= k < next_page_no w';
  grs_full : forall k, k ∈ R \/ next_page_no w <= k < next_page_no w' -> is_Some (pages w' !! k)
}.

Lemma grows_root_one root w w' : grows_root root w w' -> grows_roots [root] w w'.
Proof. intros [H1 H2 H3 H4]. split; [done..| |]; intros k Hk; rewrite list_elem_of_singleton in *; auto. Qed.

Lemma grows_roots_refl w : grows_roots [] w w.
Proof. split; [lia|done|tauto|]. intros k [Hk%elem_of_nil|]; [done|lia]. Qed.

Lemma grows_roots_trans R1 R2 w1 w2 w3 : grows_roots R1 w1 w2 -> grows_roots R2 w2 w3 -> grows_roots (R1 ++ R2) w1 w3.
Proof.
  intros [A1 A2 A3 A4] [B1 B2 B3 B4]. split; [lia|by transitivity (pages w2)| |]; intros k Hk; rewrite elem_of_app in *.
  - destruct (B3 k Hk) as [Hk2|[|]]; [|tauto|right; right; lia]. destruct (A3 k Hk2) as [|[|]]; [tauto|tauto|right; right; lia].
  - assert (Hcase : (k ∈ R1 \/ next_page_no w1 <= k < next_page_no w2) \/ (k ∈ R2 \/ next_page_no w2 <= k < next_page_no w3)).
    { destruct Hk as [[?|?]|?]; [tauto|tauto|]. destruct (decide (k < next_page_no w2)); [left|right]; right; lia. }
    destruct Hcase as [Hk1|Hk2]; [|by apply B4]. destruct (A4 k Hk1) as [page Hp]. exists page. by eapply lookup_weaken.
Qed.

Lemma set_aside_roots r R w w' : set_aside r w -> grows_roots R w w' -> r ∉ R -> set_aside r w'.
Proof.
  intros [Hr Hn] [G1 G2 G3 _] Hout. split; [lia|]. apply eq_None_not_Some. intros Hs. destruct (G3 r Hs) as [[? ?]|[|]]; [congruence|done|lia].
Qed.

Lemma each_builds {A} (f : A -> ST Pages unit) (roots_of : A -> list Z) (built : gmap Z bytes -> A -> Prop) :
  (forall ps ps' a, ps ⊆ ps' -> built ps a -> built ps' a) ->
  forall l w, (forall a w, a ∈ l -> pages_ok w -> Forall (fun r => set_aside r w) (roots_of a) ->
      builds (f a) w (fun _ w' => grows_roots (roots_of a) w w' /\ pages_ok w' /\ built (pages w') a)) ->
  pages_ok w -> NoDup (concat (map roots_of l)) -> Forall (fun r => set_aside r w) (concat (map roots_of l)) ->
  builds (st_each f l) w (fun _ w' => grows_roots (concat (map roots_of l)) w w' /\ pages_ok w' /\ forall a, a ∈ l -> built (pages w') a).
Proof.
  intros Hmono. induction l as [|a l IH]; intros w Hf Hw Hnd Hr; cbn [st_each map concat] in *.
  - apply builds_ret. split_and!; [apply grows_roots_refl|done|]. by intros a ?%elem_of_nil.
  - apply NoDup_app in Hnd as (_ & Hdis & Hnd). apply Forall_app in Hr as [Hra Hr].
    eapply builds_bind; [apply Hf; [by left|done..]|]. cbv beta. intros _ w1 (Hg1 & Hw1 & Hb1).
    eapply builds_weaken; [apply IH; [|done..|]|].
    + intros b w2 Hb. apply Hf. by right.
    + apply Forall_forall. intros r Hin. rewrite Forall_forall in Hr. eapply set_aside_roots; [by apply Hr|done|]. intros ?. by apply (Hdis r).
    + cbv beta. intros _ w' (Hg & Hw' & Hb). split_and!; [by eapply grows_roots_trans|done|]. intros x [->|Hx]%elem_of_cons; [|by apply Hb].
      eapply Hmono; [apply (grs_old _ _ _ Hg)|done].
Qed.

(** ** Numbers for the roots *)

Lemma mapM_res_or_err {A B} (f : A -> Result B) e l : (forall a, a ∈ l -> (exists b, f a = Ok b) \/ f a = Err e) ->
  (exists bs, mapM_res f l = Ok bs) \/ mapM_res f l = Err e.
Proof.
  induction l as [|a l IH]; intros Hf; cbn [mapM_res]; [left; by exists []|].
  destruct (Hf a) as [[b ->]| ->]; [by left| |by right]. cbn [bind]. destruct IH as [[bs ->]| ->]; [intros x Hx; apply Hf; by right|left; by exists (b :: bs)|by right].
Qed.

Lemma collect_map_rev {K A} `{Countable K} (l : list (K * A)) : collect_map l = list_to_map (rev l).
Proof. unfold collect_map. rewrite <- fold_left_rev_right. induction (rev l) as [|[k x] r IH]; [done|]. cbn [foldr fold_right]. by rewrite IH. Qed.

Lemma collect_map_lookup {K A} `{Countable K} (l : list (K * A)) k x : NoDup (map fst l) -> (k, x) ∈ l -> collect_map l !! k = Some x.
Proof. intros Hnd Hin. rewrite collect_map_rev. apply elem_of_list_to_map_1; [by rewrite <- Permutation_rev|by rewrite <- Permutation_rev]. Qed.

Lemma collect_map_size {K A} `{Countable K} (l : list (K * A)) : NoDup (map fst l) -> size (collect_map l) = length l.
Proof.
  intros Hnd. rewrite collect_map_rev. assert (Hnd' : NoDup (rev l).*1) by (by rewrite <- Permutation_rev).
  rewrite map_size_list_to_map by done. apply length_rev.
Qed.

(** The root of a key. *)
Definition root_of {K} `{Countable K} (roots : gmap K Z) (key : K) : Z := default 0 (roots !! key).

(** The keys numbered from [first] on. *)
Definition numbered {K} `{Countable K} (first : Z) (keys : list K) : gmap K Z := collect_map (imap (fun i key => (key, first + Z.of_nat i)) keys).

Lemma imap_keys {K A} (f : nat -> A) (keys : list K) : map fst (imap (fun i key => (key, f i)) keys) = keys.
Proof. apply list_eq. intros i. rewrite list_lookup_fmap, list_lookup_imap. by destruct (keys !! i). Qed.

Lemma numbered_lookup {K} `{Countable K} first (keys : list K) i key : NoDup keys -> keys !! i = Some key -> numbered first keys !! key = Some (first + Z.of_nat i).
Proof.
  intros Hnd Hk. apply collect_map_lookup; [by rewrite (imap_keys (fun i => first + Z.of_nat i))|]. apply list_elem_of_lookup. exists i. rewrite list_lookup_imap. by rewrite Hk.
Qed.

Lemma root_of_numbered {K} `{Countable K} first (keys : list K) key : NoDup keys -> key ∈ keys -> numbered first keys !! key = Some (root_of (numbered first keys) key).
Proof. intros Hnd [i Hi]%list_elem_of_lookup. unfold root_of. by rewrite (numbered_lookup first keys i key). Qed.

Lemma numbered_roots {K} `{Countable K} first (keys : list K) : NoDup keys -> map (root_of (numbered first keys)) keys = seqZ first (Zlen keys).
Proof.
  intros Hnd. apply list_eq. intros i. rewrite list_lookup_fmap. destruct (keys !! i) as [k|] eqn:Ek; cbn.
  - unfold root_of. rewrite (numbered_lookup first keys i k) by done. symmetry. apply lookup_seqZ. split; [done|]. apply lookup_lt_Some in Ek. unfold Zlen. lia.
  - apply lookup_ge_None in Ek. symmetry. apply lookup_seqZ_ge. unfold Zlen. lia.
Qed.

Lemma numbered_size {K} `{Countable K} first (keys : list K) : NoDup keys -> size (numbered first keys) = length keys.
Proof. intros Hnd. unfold numbered. rewrite collect_map_size by (by rewrite (imap_keys (fun i => first + Z.of_nat i))). apply length_imap. Qed.

Lemma assign_roots_run {K} `{Countable K} first (keys : list K) :
  assign_roots first keys = Ok (numbered first keys) /\ (keys = [] \/ first + Zlen keys - 1 <= u32_max) \/ assign_roots first keys = Err number_overflow.
Proof.
  unfold assign_roots. set (f := fun ik : nat * K => let? page_no := to_u32 (Z.of_nat ik.1 + first) in Ok (ik.2, page_no)).
  destruct (mapM_res_or_err f number_overflow (imap pair keys)) as [[bs Hbs]| ->]; [|left|by right].
  - intros [i k] _. unfold f, to_u32. cbn. destruct (_ <=? _); [left; by eexists|by right].
  - rewrite Hbs. cbn [bind]. apply mapM_res_Forall2 in Hbs. split.
    2: { destruct keys as [|key keys] using rev_ind; [by left|right]. destruct (Forall2_lookup_l _ _ _ (length keys) (length keys, key) Hbs) as (b & _ & Hb).
      - rewrite list_lookup_imap, lookup_app_r, Nat.sub_diag by done. done.
      - unfold f, to_u32 in Hb. cbn in Hb. destruct (Z.leb_spec (Z.of_nat (length keys) + first) u32_max); [|done]. rewrite Zlen_app. unfold Zlen. cbn. lia. }
    unfold numbered. do 2 f_equal. apply list_eq. intros i. rewrite list_lookup_imap. destruct (bs !! i) as [b|] eqn:Eb.
    + destruct (Forall2_lookup_r _ _ _ _ _ Hbs Eb) as ([j k] & Hj & Hf). rewrite list_lookup_imap in Hj. destruct (keys !! i) as [k'|]; [|done]. injection Hj as <- <-.
      unfold f, to_u32 in Hf. cbn in Hf. destruct (_ <=? _); [|done]. injection Hf as <-. cbn. do 2 f_equal. lia.
    + apply lookup_ge_None in Eb. rewrite <- (Forall2_length _ _ _ Hbs), length_imap in Eb. by rewrite (lookup_ge_None_2 keys).
Qed.

(** ** The header of the file *)

(** Fields that follow one another from [start] on. *)
Fixpoint contiguous (start : Z) (fields : list (Z * bytes)) : Prop :=
  match fields with [] => True | (offset, b) :: fields => offset = start /\ contiguous (start + Zlen b) fields end.

Lemma copy_fields fields : forall pre rest, contiguous (Zlen pre) fields ->
  fold_res (fun page (ob : Z * bytes) => copy_at page ob.1 ob.2) fields (pre ++ replicate (length (concat (map snd fields))) 0 ++ rest) =
    Ok (pre ++ concat (map snd fields) ++ rest).
Proof.
  induction fields as [|[o b] fields IH]; intros pre rest Hc; [done|]. destruct Hc as [-> Hc]. cbn [map concat fold_res fst snd].
  rewrite length_app, replicate_add, <- app_assoc, copy_at_mid by (done || by rewrite length_replicate). cbn [bind].
  specialize (IH (pre ++ b) rest). rewrite Zlen_app, <- !app_assoc in IH. rewrite IH by done. by rewrite <- app_assoc.
Qed.

(** The first hundred bytes of the file. *)
Definition header_bytes (page_count change_counter schema_version user_version application_id : Z) : bytes :=
  concat (map snd (header_fields page_count change_counter schema_version user_version application_id)).

Lemma write_header_run page_count change_counter schema_version user_version application_id rest :
  write_database_header (replicate 100 0 ++ rest) page_count change_counter schema_version user_version application_id =
    Ok (header_bytes page_count change_counter schema_version user_version application_id ++ rest).
Proof.
  apply (copy_fields (header_fields page_count change_counter schema_version user_version application_id) []). cbv. repeat split.
Qed.

Lemma header_bytes_length page_count change_counter schema_version user_version application_id :
  length (header_bytes page_count change_counter schema_version user_version application_id) = 100%nat.
Proof. reflexivity. Qed.

(** The header read again. *)
Definition written_header (page_count schema_version user_version application_id : Z) : DatabaseHeader :=
  mkDatabaseHeader PAGE_SIZE 0 page_count 0 schema_version 4 1 user_version application_id.

Lemma decode_written_header page_count schema_version user_version application_id :
  is_u32 page_count -> is_u32 schema_version -> is_u32 user_version -> is_u32 application_id ->
  decode_header (header_bytes page_count 1 schema_version user_version application_id) = Ok (written_header page_count schema_version user_version application_id).
Proof.
  intros H1 H2 H3 H4. unfold decode_header. rewrite bool_decide_true by reflexivity. unfold be_at.
  set (b := header_bytes page_count 1 schema_version user_version application_id).
  change (get_bytes b 16 2) with (to_be 2 PAGE_SIZE). change (get_bytes b 28 4) with (to_be 4 page_count).
  change (get_bytes b 40 4) with (to_be 4 schema_version). change (get_bytes b 60 4) with (to_be 4 user_version). change (get_bytes b 68 4) with (to_be 4 application_id).
  rewrite !(from_be_to_be_small 4) by width. reflexivity.
Qed.

(** ** The pages of the file *)

Lemma Zlen_concat_pages (l : list bytes) : Forall (fun page => Zlen page = PAGE_SIZE) l -> Zlen (concat l) = PAGE_SIZE * Zlen l.
Proof. induction 1 as [|page l Hp _ IH]; [done|]. cbn [concat]. rewrite Zlen_app, IH, Hp, Zlen_cons. lia. Qed.

Lemma concat_page (l : list bytes) i page : Forall (fun page => Zlen page = PAGE_SIZE) l -> l !! i = Some page ->
  get_range (concat l) (PAGE_SIZE * Z.of_nat i) (PAGE_SIZE * Z.of_nat i + PAGE_SIZE) = Some page.
Proof.
  intros Hl Hi. apply list_elem_of_split_length in Hi as (l1 & l2 & -> & ->). apply Forall_app in Hl as [H1 [Hp _]%Forall_cons].
  rewrite concat_app. cbn [concat]. apply get_range_at; rewrite Zlen_concat_pages by done; unfold Zlen in *; lia.
Qed.

Lemma read_file_page file header i page l : file = concat l -> Forall (fun page => Zlen page = PAGE_SIZE) l -> page_size header = PAGE_SIZE -> Zlen l <= u32_max ->
  l !! i = Some page -> read_page (mkPager file header) (Z.of_nat i + 1) = Ok page.
Proof.
  intros -> Hl Hs Hmax Hi. pose proof (lookup_lt_Some _ _ _ Hi) as Hlt. unfold read_page. cbn [SqliteFile.header SqliteFile.file]. rewrite (proj2 (Z.eqb_neq _ _)) by lia. rewrite Hs.
  unfold checked_mul. rewrite (proj2 (Z.leb_le _ _)) by (unfold PAGE_SIZE, u64_max, u32_max, Zlen in *; lia). cbn [ok_or bind].
  unfold checked_add. rewrite (proj2 (Z.leb_le _ _)) by (unfold PAGE_SIZE, u64_max, u32_max, Zlen in *; lia). cbn [ok_or bind].
  rewrite Zlen_concat_pages by done. rewrite (proj2 (Z.ltb_ge _ _)) by (unfold PAGE_SIZE, Zlen in *; lia). apply slice_range_Ok.
  replace ((Z.of_nat i + 1 - 1) * PAGE_SIZE) with (PAGE_SIZE * Z.of_nat i) by lia. by apply concat_page.
Qed.

(** A file of whole pages that begins with a written header opens. *)
Lemma open_written file l first rest page_count schema_version user_version application_id :
  is_u32 page_count -> is_u32 schema_version -> is_u32 user_version -> is_u32 application_id ->
  file = concat l -> Forall (fun page => Zlen page = PAGE_SIZE) l -> l = first :: rest ->
  (exists body, first = header_bytes page_count 1 schema_version user_version application_id ++ body) ->
  open_pager file = Ok (mkPager file (written_header page_count schema_version user_version application_id)).
Proof.
  intros H1 H2 H3 H4 -> Hl -> [body Hfirst]. pose proof (Zlen_concat_pages _ Hl) as Hlen. rewrite Zlen_cons in Hlen. pose proof (Zlen_nonneg rest).
  unfold open_pager. rewrite (proj2 (Z.ltb_ge _ _)) by (unfold PAGE_SIZE in *; lia).
  replace (get_bytes (concat (first :: rest)) 0 100) with (header_bytes page_count 1 schema_version user_version application_id).
  - rewrite decode_written_header by done. cbn [bind page_size written_header]. rewrite Hlen, (proj2 (Z.ltb_ge _ _)) by (unfold PAGE_SIZE in *; lia).
    rewrite Z.mul_comm, Z.mod_mul by done. done.
  - cbn [concat]. rewrite Hfirst, <- app_assoc. symmetry. apply (get_bytes_at [] (header_bytes page_count 1 schema_version user_version application_id) (body ++ concat rest)); [done|apply header_bytes_length].
Qed.

(** * A database file, written and opened

    What [write_database] makes of a database whose contents can be stored: a file that
    opens, whose schema table lists the objects of the database, and in which every table
    and index is found at the root page listed for it. *)


Section File.
Context {SelectStatement : Type} `{Libm, JsonParser}.
Abbreviation Schema := (Schema SelectStatement).
Abbreviation WritableTable := (WritableTable SelectStatement).
Abbreviation WritableDatabase := (WritableDatabase SelectStatement).
Context (evaluate_index_term : Schema -> Row -> string -> Result Value) (parse_check_constraint_expression : string -> Result CheckExpr).
Context (default_hash : list Value -> Z).

(** ** Tables *)

Definition rowid_table (t : WritableTable) : Prop :=
  without_rowid (table_schema t) = false /\ NoDup (map fst (table_rows t)) /\ Forall (storable (table_schema t)) (table_rows t).

Definition keyed_table (t : WritableTable) : Prop :=
  exists pk, keyed (table_schema t) pk /\ Forall (keyed_row (table_schema t) pk) (table_rows t) /\ Zlen (table_rows t) <= i64_max.

(** A table that can be stored. *)
Definition table_fits (t : WritableTable) : Prop := rowid_table t \/ keyed_table t.

(** What is found of it at its root. *)
Definition table_found (pager : Pager) (t : WritableTable) (root : Z) : Prop :=
  (without_rowid (table_schema t) = false -> table_at pager (table_schema t) root (table_image (table_schema t) (table_rows t))) /\
  (forall pk, without_rowid (table_schema t) = true -> primary_key_constraint (table_schema t) = Some pk ->
     keyed_at (table_schema t) pager root (sorted_by_key (table_schema t) pk (table_rows t))).

Definition table_built (ps : gmap Z bytes) (t : WritableTable) (root : Z) : Prop := forall pager, serves pager ps -> table_found pager t root.

Lemma table_built_mono ps ps' t root : ps ⊆ ps' -> table_built ps t root -> table_built ps' t root.
Proof. intros Hs Ht pager Hp. apply Ht. by eapply serves_mono. Qed.

Lemma any_table_builds t root w : pages_ok w -> set_aside root w -> table_fits t ->
  builds (build_table_btree t root) w (fun _ w' => grows_roots [root] w w' /\ pages_ok w' /\ table_built (pages w') t root).
Proof.
  intros Hw Hroot [(Hwr & Hnd & Hst)|(pk & Hk & Hrows & Hlen)].
  - eapply builds_weaken; [by apply build_table_builds|]. cbv beta. intros _ w' (Hg & Hw' & Ht). split_and!; [by apply grows_root_one|done|].
    intros pager Hp. split; [intros _; by apply Ht|]. congruence.
  - destruct t as [schema rows]. cbn in *. eapply builds_weaken; [by apply (build_keyed_builds schema pk)|]. cbv beta. intros _ w' (Hg & Hw' & Ht). split_and!; [by apply grows_root_one|done|].
    intros pager Hp. destruct Hk as [Hk1 Hk2 _ _ _]. split; cbn; [congruence|]. intros pk' _ Hpk. rewrite Hpk in Hk2. injection Hk2 as ->. by apply Ht.
Qed.

(** ** Indexes *)

(** An index that can be stored: on a table with row ids, its keys are [keys]; on another
    one its entries have a record. *)
Definition index_fits (keys : RowId * Row -> option (list Value)) (t : WritableTable) (index : IndexMeta) : Prop :=
  Zlen (index_columns index) + 1 <= u64_max /\
  if without_rowid (table_schema t) then
    exists cells, index_cells parse_check_constraint_expression (table_schema t) index (without_rowid_index_cell evaluate_index_term (table_schema t) index) (table_rows t) = Ok cells /\
      Forall (index_leaf_good 0) cells
  else Forall (indexes_as evaluate_index_term parse_check_constraint_expression (table_schema t) index keys) (table_rows t).

Definition index_found (pager : Pager) (keys : RowId * Row -> option (list Value)) (t : WritableTable) (index : IndexMeta) (root : Z) : Prop :=
  without_rowid (table_schema t) = false -> index_at_root default_hash pager index root (sorted_pairs keys (table_rows t)).

Definition index_built (ps : gmap Z bytes) keys t index root : Prop := forall pager, serves pager ps -> index_found pager keys t index root.

Lemma index_built_mono ps ps' keys t index root : ps ⊆ ps' -> index_built ps keys t index root -> index_built ps' keys t index root.
Proof. intros Hs Ht pager Hp. apply Ht. by eapply serves_mono. Qed.

Lemma any_index_builds keys t index root w : pages_ok w -> set_aside root w -> index_fits keys t index ->
  builds (build_index_btree evaluate_index_term parse_check_constraint_expression t index root) w (fun _ w' =>
    grows_roots [root] w w' /\ pages_ok w' /\ index_built (pages w') keys t index root).
Proof.
  intros Hw Hroot [Hu Hfit]. destruct (without_rowid (table_schema t)) eqn:Hwr.
  - destruct Hfit as (cells & Hcells & Hgood). unfold build_index_btree. rewrite Hwr. unfold build_without_rowid_index_btree. eapply builds_get; [exact Hcells|].
    eapply builds_weaken; [by apply (index_btree_builds 0)|]. cbv beta. intros _ w' (d & Hg & Hw' & _). split_and!; [by apply grows_root_one|done|]. intros pager _. unfold index_found. congruence.
  - eapply builds_weaken; [by apply (build_index_builds _ _ default_hash t index keys)|]. cbv beta. intros _ w' (Hg & Hw' & Ht). split_and!; [by apply grows_root_one|done|].
    intros pager Hp _. by apply Ht.
Qed.
End File.
