(* ===== verification/SqliteDatabaseLaws.v ===== *)
(** * The whole file, written and opened

    What [write_database] makes of a database that can be stored: a file that opens, whose
    schema table lists the objects of the database, and in which every table and index is
    found at the root page listed for it. *)

From S2P Require Import Prelude Text Varint Types Floats Schema CheckValues CheckEval Record SqliteFile SqliteBTree SqliteSchema SqliteRender SqliteWriter SqliteDatabase SqliteChains SqliteTrees SqliteReading SqliteScan SqliteRoundTrip SqliteWithoutRowid SqliteAssembly.

(** ** Lists *)

Lemma NoDup_groups {A B K} (key : B -> K) (group : A -> list B) (key_of : A -> K) l :
  NoDup (map key_of l) -> (forall a, a ∈ l -> NoDup (group a)) -> (forall a b, b ∈ group a -> key b = key_of a) -> NoDup (concat (map group l)).
Proof.
  intros Hnd Hg Hk. induction l as [|a l IH]; [constructor|]. cbn [map concat] in *. apply NoDup_cons in Hnd as [Hout Hnd].
  apply NoDup_app. split_and!; [apply Hg; by left| |apply IH; [done|intros b Hb; apply Hg; by right]].
  intros b Hb Hin. apply Hout. apply list_elem_of_In, in_concat in Hin as (g & Hing & Hbin).
  apply list_elem_of_In, list_elem_of_fmap in Hing as (a' & -> & Ha'). rewrite <- (Hk a b Hb), (Hk a' b) by (by apply list_elem_of_In). by apply list_elem_of_fmap_2.
Qed.

Lemma NoDup_map_filter_fst {K A} (P : K * A -> Prop) `{!forall x, Decision (P x)} (l : list (K * A)) : NoDup (map fst l) -> NoDup (map fst (filter P l)).
Proof.
  induction l as [|[k a] l IH]; intros Hnd; [constructor|]. apply NoDup_cons in Hnd as [Hout Hnd]. rewrite filter_cons. destruct (decide (P (k, a))); [|by apply IH].
  cbn [map fst]. apply NoDup_cons. split; [|by apply IH]. intros ([k' a'] & -> & Hin)%list_elem_of_fmap. apply list_elem_of_filter in Hin as [_ Hin].
  apply Hout. by apply (list_elem_of_fmap_2 fst _ (k', a')).
Qed.

Lemma head_at {A} (l : list A) a : l !! 0%nat = Some a -> exists rest, l = a :: rest.
Proof. destruct l as [|b l]; [done|]. intros Hb. exists l. cbn in Hb. congruence. Qed.

Section Database.
Context {SelectStatement : Type} `{Libm, JsonParser}.
Abbreviation Schema := (Schema SelectStatement).
Abbreviation WritableTable := (WritableTable SelectStatement).
Abbreviation WritableDatabase := (WritableDatabase SelectStatement).
Context (evaluate_index_term : Schema -> Row -> string -> Result Value) (parse_check_constraint_expression : string -> Result CheckExpr).
Context (default_hash : list Value -> Z).
Context (database : WritableDatabase).

(** ** The objects of the file *)

Definition group_physical (ti : string * gmap string IndexMeta) : list (string * string * IndexMeta) :=
  match tables database !! ti.1 with
  | Some table =>
      if schema_is_view (table_schema table) then []
      else map (fun ni => (ti.1, ni.1, ni.2))
             (filter (fun ni : string * IndexMeta => is_synthesized_without_rowid_primary_key_index (table_schema table) ni.2 ti.1 = false) (sorted_by_name ti.2))
  | None => []
  end.

(** The indexes with pages: not those of views, and not the one that stands for the primary
    key of a WITHOUT ROWID table. *)
Definition physical_indexes : list (string * string * IndexMeta) := concat (map group_physical (sorted_by_name (indexes database))).

(** Tables and indexes have the root pages from 2 on. *)
Definition table_roots : gmap string Z := numbered 2 (table_names database).
Definition index_roots : gmap (string * string) Z := numbered (Zlen (table_names database) + 2) (map fst physical_indexes).

(** The contents of [sqlite_sequence]. *)
Definition sequence_values (it : nat * (string * Z)) : RowId * Row := (Z.of_nat it.1 + 1, [Text it.2.1; Integer it.2.2]).
Definition sequence_table : WritableTable :=
  mkWritableTable _ sequence_schema (map sequence_values (imap pair (sorted_by_name (sqlite_sequence database)))).

(** The rows of the schema table. *)
Definition table_row (nt : string * WritableTable) : SchemaRow :=
  let schema := table_schema nt.2 in
  mkSchemaRow (if schema_is_view schema then "view" else "table") nt.1 nt.1 (if schema_is_view schema then 0 else root_of table_roots nt.1)
    (Some (default (render_create_table schema) (create_sql schema))).
Definition index_row (tni : string * string * IndexMeta) : SchemaRow :=
  let '(table_name, index_name, index) := tni in
  mkSchemaRow "index" index_name table_name (root_of index_roots (table_name, index_name))
    (if String.prefix "sqlite_autoindex_" index_name then None else Some (render_create_index table_name index)).
Definition object_row (object : WritableSchemaObject) : SchemaRow :=
  mkSchemaRow (object_entry_type object) (object_name object) (object_table_name object) (object_root_page object) (object_sql object).
Definition sequence_schema_row : SchemaRow :=
  mkSchemaRow "table" "sqlite_sequence" "sqlite_sequence" (root_of table_roots "sqlite_sequence"%string) (Some "CREATE TABLE sqlite_sequence(name,seq)"%string).

Definition schema_rows : list SchemaRow :=
  map table_row (sorted_by_name (tables database)) ++ map index_row physical_indexes ++ map object_row (extra_schema_objects database)
  ++ (if sqlite_sequence_exists database then [sequence_schema_row] else []).

(** The cells of the schema table have the ids 1, 2, ... *)
Definition schema_cell_of (i : nat) (row : SchemaRow) : Z * bytes :=
  (Z.of_nat i + 1, match encode_record (row_values row) with Ok payload => payload | _ => [] end).

(** ** Databases that can be stored *)

Definition row_fits (row : SchemaRow) : Prop := record_fits (row_values row) /\ is_u32 (root_page row).

Record database_fits (keys : string -> IndexMeta -> RowId * Row -> option (list Value)) : Prop := {
  df_tables name table : tables database !! name = Some table -> schema_is_view (table_schema table) = false -> table_fits table;
  df_sequence_name : sqlite_sequence_exists database = true -> tables database !! "sqlite_sequence"%string = None;
  df_sequence name seq : sqlite_sequence database !! name = Some seq -> seq <= i64_max /\ record_fits [Text name; Integer seq];
  df_sequence_size : Z.of_nat (size (sqlite_sequence database)) <= i64_max;
  df_index_table name group : indexes database !! name = Some group -> is_Some (tables database !! name);
  df_indexes table_name index_name index table : (table_name, index_name, index) ∈ physical_indexes -> tables database !! table_name = Some table ->
    index_fits evaluate_index_term parse_check_constraint_expression (keys table_name index) table index;
  df_versions : is_u32 (schema_version database) /\ is_u32 (user_version database) /\ is_u32 (application_id database);
  df_rows : Forall row_fits schema_rows;
  df_cells : Forall (fun cell : Z * bytes => Zlen cell.2 <= 4061) (imap schema_cell_of schema_rows);
  df_room : 108 + room_of schema_cell_len (imap schema_cell_of schema_rows) <= PAGE_SIZE
}.

(** ** The names *)

Lemma elem_of_physical table_name index_name index : (table_name, index_name, index) ∈ physical_indexes ->
  exists table, tables database !! table_name = Some table /\ schema_is_view (table_schema table) = false.
Proof.
  intros Hin. apply list_elem_of_In, in_concat in Hin as (g & Hg & Hin). apply list_elem_of_In, list_elem_of_fmap in Hg as ([name group] & -> & _).
  apply list_elem_of_In in Hin. unfold group_physical in Hin. cbn [fst snd] in Hin. destruct (tables database !! name) as [table|] eqn:Et; [|by apply elem_of_nil in Hin].
  destruct (schema_is_view _) eqn:Ev; [by apply elem_of_nil in Hin|]. apply list_elem_of_fmap in Hin as ([n i] & Heq & _). injection Heq as -> _ _. by exists table.
Qed.

Lemma physical_names : NoDup (map fst physical_indexes).
Proof.
  unfold physical_indexes. rewrite concat_map, map_map. apply (NoDup_groups fst _ fst); [apply sorted_by_name_NoDup| |].
  - intros [name group] _. unfold group_physical. cbn [fst snd]. destruct (tables database !! name) as [table|]; [|constructor]. destruct (schema_is_view _); [constructor|].
    rewrite map_map. cbn [fst]. change (fun x : string * IndexMeta => (name, x.1)) with (fun x : string * IndexMeta => pair name (fst x)). rewrite <- (map_map fst (pair name)).
    apply NoDup_fmap; [intros ? ? [=]; done|]. by apply NoDup_map_filter_fst, sorted_by_name_NoDup.
  - intros [name group] [t n] Hin. unfold group_physical in Hin. cbn [fst snd] in *. destruct (tables database !! name) as [table|]; [|by apply elem_of_nil in Hin].
    destruct (schema_is_view _); [by apply elem_of_nil in Hin|]. rewrite map_map in Hin. apply list_elem_of_fmap in Hin as (x & Heq & _). by injection Heq.
Qed.

Lemma collect_physical_run : (forall name group, indexes database !! name = Some group -> is_Some (tables database !! name)) ->
  collect_physical_indexes database = Ok physical_indexes.
Proof.
  intros Hex. unfold collect_physical_indexes. rewrite (mapM_res_ok _ group_physical); [done|]. intros [name group] Hin%sorted_by_name_elem.
  destruct (Hex name group Hin) as [table Ht]. unfold table_physical_indexes, group_physical. cbn [fst snd]. rewrite Ht. cbn [ok_or bind]. by destruct (schema_is_view _).
Qed.

Definition stored_tables : list (string * WritableTable) := filter (fun nt : string * WritableTable => schema_is_view (table_schema nt.2) = false) (sorted_by_name (tables database)).

Lemma elem_of_stored_tables name table : (name, table) ∈ stored_tables <-> tables database !! name = Some table /\ schema_is_view (table_schema table) = false.
Proof. unfold stored_tables. rewrite list_elem_of_filter, sorted_by_name_elem. cbn. tauto. Qed.

Lemma table_names_NoDup : (sqlite_sequence_exists database = true -> tables database !! "sqlite_sequence"%string = None) -> NoDup (table_names database).
Proof.
  intros Hseq. unfold table_names. apply NoDup_app. split_and!.
  - apply NoDup_map_filter_fst, sorted_by_name_NoDup.
  - intros name ([name' table] & -> & Hin)%list_elem_of_fmap. cbn [fst]. apply elem_of_stored_tables in Hin as [Ht _].
    destruct (sqlite_sequence_exists database); [|apply not_elem_of_nil]. intros ->%list_elem_of_singleton. by rewrite Hseq in Ht.
  - destruct (sqlite_sequence_exists database); [apply NoDup_singleton|constructor].
Qed.

Lemma stored_name name table : (name, table) ∈ stored_tables -> name ∈ table_names database.
Proof. intros Hin. unfold table_names. apply elem_of_app. left. by apply (list_elem_of_fmap_2 fst _ (name, table)). Qed.

Lemma sequence_name : sqlite_sequence_exists database = true -> "sqlite_sequence"%string ∈ table_names database.
Proof. intros Hs. unfold table_names. rewrite Hs. apply elem_of_app. right. by left. Qed.

(** ** The trees *)

Section Run.
Context (keys : string -> IndexMeta -> RowId * Row -> option (list Value)) (Hfit : database_fits keys).

Lemma table_root name : name ∈ table_names database -> table_roots !! name = Some (root_of table_roots name).
Proof. apply root_of_numbered, table_names_NoDup, (df_sequence_name _ Hfit). Qed.

Lemma index_root key : key ∈ map fst physical_indexes -> index_roots !! key = Some (root_of index_roots key).
Proof. apply root_of_numbered, physical_names. Qed.

Definition table_root_list (nt : string * WritableTable) : list Z := if schema_is_view (table_schema nt.2) then [] else [root_of table_roots nt.1].
Definition sequence_root_list : list Z := if sqlite_sequence_exists database then [root_of table_roots "sqlite_sequence"%string] else [].
Definition index_root_list (tni : string * string * IndexMeta) : list Z := [root_of index_roots tni.1].

Definition all_roots : list Z :=
  concat (map table_root_list (sorted_by_name (tables database))) ++ sequence_root_list ++ concat (map index_root_list physical_indexes).

Lemma table_root_lists : concat (map table_root_list (sorted_by_name (tables database))) = map (root_of table_roots) (map fst stored_tables).
Proof.
  unfold stored_tables. induction (sorted_by_name (tables database)) as [|[name table] l IH]; [done|]. cbn [map concat]. rewrite IH, filter_cons. unfold table_root_list at 1. cbn [fst snd].
  by destruct (schema_is_view (table_schema table)).
Qed.

Lemma index_root_lists l : concat (map index_root_list l) = map (root_of index_roots) (map fst l).
Proof. induction l as [|x l IH]; [done|]. cbn [map concat]. by rewrite IH. Qed.

(** The roots are the numbers from 2 on. *)
Lemma all_roots_seqZ : all_roots = seqZ 2 (Zlen (table_names database) + Zlen physical_indexes).
Proof.
  rewrite seqZ_app by apply Zlen_nonneg. unfold all_roots. rewrite table_root_lists, index_root_lists. rewrite <- (numbered_roots 2 (table_names database)) by apply table_names_NoDup, (df_sequence_name _ Hfit).
  rewrite <- (Zlen_map fst physical_indexes), Z.add_comm. rewrite <- (numbered_roots (Zlen (table_names database) + 2) (map fst physical_indexes)) by apply physical_names.
  rewrite app_assoc. f_equal. unfold table_names at 2. rewrite map_app. f_equal. unfold sequence_root_list. by destruct (sqlite_sequence_exists database).
Qed.

Definition roots_free (R : list Z) (w : Pages) : Prop := NoDup R /\ Forall (fun r => set_aside r w) R.

Lemma tables_build w : pages_ok w -> roots_free (concat (map table_root_list (sorted_by_name (tables database)))) w ->
  builds (build_tables database table_roots) w (fun _ w' => grows_roots (concat (map table_root_list (sorted_by_name (tables database)))) w w' /\ pages_ok w' /\
    forall nt, nt ∈ sorted_by_name (tables database) -> schema_is_view (table_schema nt.2) = false -> table_built (pages w') nt.2 (root_of table_roots nt.1)).
Proof.
  intros Hw [Hnd Hr]. apply (each_builds _ table_root_list (fun ps nt => schema_is_view (table_schema nt.2) = false -> table_built ps nt.2 (root_of table_roots nt.1))); [|clear w Hw Hnd Hr|done..].
  - intros ps ps' nt Hs Hb Hv. eapply table_built_mono; [done|by apply Hb].
  - intros [name table] w Hin Hw Hr. unfold table_root_list in *. cbn [fst snd] in *. destruct (schema_is_view (table_schema table)) eqn:Hv.
    + apply builds_ret. split_and!; [apply grows_roots_refl|done|done].
    + apply sorted_by_name_elem in Hin. assert (Hname : name ∈ table_names database) by (apply (stored_name name table), elem_of_stored_tables; done).
      eapply builds_get; [by rewrite table_root|]. eapply builds_weaken; [apply any_table_builds; [done|exact (Forall_inv Hr)|by eapply (df_tables _ Hfit)]|].
      cbv beta. intros _ w' (Hg & Hw' & Hb). by split_and!.
Qed.

Lemma sequence_fits : table_fits sequence_table.
Proof.
  left. split; [done|]. pose proof (df_sequence_size _ Hfit) as Hsize. set (l := sorted_by_name (sqlite_sequence database)).
  assert (Hlen : Zlen l <= i64_max).
  { unfold l, Zlen, sorted_by_name. by rewrite sort_by_perm, length_map_to_list. }
  unfold sequence_table. cbn [table_rows]. fold l. split.
  - rewrite map_map. apply NoDup_alt. intros i j k Hi Hj. rewrite list_lookup_fmap, list_lookup_imap in Hi, Hj. destruct (l !! i), (l !! j); cbn in *; simplify_eq. lia.
  - apply Forall_fmap, Forall_forall. intros [i [name seq]] Hin. apply list_elem_of_lookup in Hin as (j & Hj). rewrite list_lookup_imap in Hj.
    destruct (l !! j) as [ns|] eqn:El; [|done]. injection Hj as -> ->. pose proof (lookup_lt_Some _ _ _ El) as Hlt. apply list_elem_of_lookup_2, sorted_by_name_elem in El.
    destruct (df_sequence _ Hfit _ _ El) as [Hseq Hrec]. split; [unfold sequence_values, Zlen in *; cbn; lia|]. by split.
Qed.

Lemma sequence_run : build_sqlite_sequence_table database = Ok sequence_table.
Proof.
  unfold build_sqlite_sequence_table. rewrite (mapM_res_ok _ sequence_values); [done|]. intros [i [name seq]] Hin. apply list_elem_of_lookup in Hin as (j & Hj).
  rewrite list_lookup_imap in Hj. destruct (sorted_by_name (sqlite_sequence database) !! j) as [ns|] eqn:El; [|done]. injection Hj as -> ->.
  apply list_elem_of_lookup_2, sorted_by_name_elem in El. destruct (df_sequence _ Hfit _ _ El) as [Hseq _]. unfold sequence_row. by rewrite (proj2 (Z.leb_le _ _)).
Qed.

Lemma sequence_builds w : pages_ok w -> roots_free sequence_root_list w ->
  builds (build_sequence database table_roots) w (fun _ w' => grows_roots sequence_root_list w w' /\ pages_ok w' /\
    (sqlite_sequence_exists database = true -> table_built (pages w') sequence_table (root_of table_roots "sqlite_sequence"%string))).
Proof.
  unfold build_sequence, sequence_root_list. intros Hw [_ Hr]. destruct (sqlite_sequence_exists database) eqn:Hs.
  - eapply builds_get; [by rewrite table_root by by apply sequence_name|]. eapply builds_get; [apply sequence_run|].
    eapply builds_weaken; [apply any_table_builds; [done|exact (Forall_inv Hr)|apply sequence_fits]|]. cbv beta. intros _ w' (Hg & Hw' & Hb). by split_and!.
  - apply builds_ret. split_and!; [apply grows_roots_refl|done|done].
Qed.

Lemma indexes_build w : pages_ok w -> roots_free (concat (map index_root_list physical_indexes)) w ->
  builds (build_indexes evaluate_index_term parse_check_constraint_expression database index_roots physical_indexes) w (fun _ w' =>
    grows_roots (concat (map index_root_list physical_indexes)) w w' /\ pages_ok w' /\
    forall tni, tni ∈ physical_indexes -> forall table, tables database !! tni.1.1 = Some table ->
      index_built default_hash (pages w') (keys tni.1.1 tni.2) table tni.2 (root_of index_roots tni.1)).
Proof.
  intros Hw [Hnd Hr].
  apply (each_builds _ index_root_list (fun ps tni => forall table, tables database !! tni.1.1 = Some table -> index_built default_hash ps (keys tni.1.1 tni.2) table tni.2 (root_of index_roots tni.1)));
    [|clear w Hw Hnd Hr|done..].
  - intros ps ps' tni Hs Hb table Ht. eapply index_built_mono; [done|by apply Hb].
  - intros [[name iname] index] w Hin Hw Hr. unfold index_root_list in *. cbn [fst snd] in *. destruct (elem_of_physical _ _ _ Hin) as (table & Ht & _).
    eapply builds_get; [by rewrite index_root by by apply (list_elem_of_fmap_2 fst _ (name, iname, index))|]. eapply builds_get; [by rewrite Ht|].
    eapply builds_weaken; [apply (any_index_builds _ _ default_hash (keys name index)); [done|exact (Forall_inv Hr)|by eapply (df_indexes _ Hfit)]|].
    cbv beta. intros _ w' (Hg & Hw' & Hb). split_and!; [done..|]. intros table' Ht'. rewrite Ht in Ht'. by injection Ht' as <-.
Qed.

(** ** The schema page *)

Lemma encode_schema_row i row : row_fits row -> encode_record (row_values row) = Ok (schema_cell_of i row).2.
Proof. intros [Hf _]. destruct (encode_record_fits _ Hf) as (payload & Henc & _). unfold schema_cell_of. by rewrite Henc. Qed.

Lemma push_schema_row rows row values : row_fits row -> values = row_values row ->
  push_schema_cell (imap schema_cell_of rows) values = Ok (imap schema_cell_of (rows ++ [row])).
Proof.
  intros Hf ->. unfold push_schema_cell. rewrite (encode_schema_row (length rows) row) by done. cbn [bind]. rewrite imap_app. cbn [imap]. do 3 f_equal.
  unfold schema_cell_of, Zlen. rewrite length_imap. cbn. by rewrite Nat.add_0_r.
Qed.

Lemma push_object_rows objects : forall rows, Forall row_fits (map object_row objects) ->
  fold_res (fun cells object => push_schema_cell cells (object_values object)) objects (imap schema_cell_of rows) = Ok (imap schema_cell_of (rows ++ map object_row objects)).
Proof.
  induction objects as [|o objects IH]; intros rows Hf; cbn [fold_res map]; [by rewrite app_nil_r|]. apply Forall_cons in Hf as [Ho Hf].
  rewrite (push_schema_row rows (object_row o)) by done. cbn [bind]. rewrite IH by done. by rewrite <- app_assoc.
Qed.

Lemma map_numbered {A B} (f : nat -> A -> B) l : map (fun it : nat * A => f it.1 it.2) (imap pair l) = imap f l.
Proof. apply list_eq. intros i. rewrite list_lookup_fmap, !list_lookup_imap. by destruct (l !! i). Qed.

Lemma schema_cells_run : schema_cells database table_roots index_roots = Ok (imap schema_cell_of schema_rows).
Proof.
  pose proof (df_rows _ Hfit) as Hrows. unfold schema_rows in *. apply Forall_app in Hrows as [Ht Hrows]. apply Forall_app in Hrows as [Hi Hrows]. apply Forall_app in Hrows as [Ho Hs].
  rewrite Forall_forall in Ht, Hi. unfold schema_cells.
  rewrite (mapM_res_ok _ (fun it => schema_cell_of it.1 (table_row it.2))).
  - cbn [bind]. rewrite collect_physical_run by apply (df_index_table _ Hfit). cbn [bind].
    rewrite (mapM_res_ok _ (fun it => schema_cell_of (length (sorted_by_name (tables database)) + it.1) (index_row it.2))).
    + cbn [bind]. rewrite (map_numbered (fun i nt => schema_cell_of i (table_row nt))), (map_numbered (fun i tni => schema_cell_of (length (sorted_by_name (tables database)) + i) (index_row tni))).
      rewrite <- (imap_fmap schema_cell_of table_row), <- (imap_fmap (fun i => schema_cell_of (length (sorted_by_name (tables database)) + i)) index_row).
      rewrite <- (length_map table_row (sorted_by_name (tables database))). rewrite <- imap_app. rewrite push_object_rows by done. cbn [bind].
      destruct (sqlite_sequence_exists database) eqn:Hex.
      * rewrite table_root by by apply sequence_name. cbn [ok_or bind]. rewrite (push_schema_row _ sequence_schema_row) by (exact (Forall_inv Hs) || done). by rewrite <- !app_assoc.
      * by rewrite app_nil_r, <- app_assoc.
    + intros [j [[name iname] index]] Hin. apply list_elem_of_lookup in Hin as (k & Hk). rewrite list_lookup_imap in Hk. destruct (physical_indexes !! k) as [x|] eqn:Ex; [|done].
      injection Hk as -> ->. apply list_elem_of_lookup_2 in Ex. specialize (Hi _ (list_elem_of_fmap_2 index_row _ _ Ex)). pose proof (encode_schema_row (length (sorted_by_name (tables database)) + j) _ Hi) as Henc.
      unfold index_schema_cell. rewrite index_root by by apply (list_elem_of_fmap_2 fst _ (name, iname, index)). cbn [ok_or bind]. unfold row_values, index_row in Henc. cbn [SqliteSchema.root_page entry_type row_name SqliteSchema.table_name row_sql] in Henc.
      replace (if String.prefix "sqlite_autoindex_" iname then Null else Text (render_create_index name index)) with
        (match (if String.prefix "sqlite_autoindex_" iname then None else Some (render_create_index name index)) with Some sql => Text sql | None => Null end) by by destruct (String.prefix _ _).
      rewrite Henc. cbn [bind]. do 2 f_equal. cbn [fst snd]. unfold sorted_by_name, schema_cell_of. cbn [fst snd]. rewrite sort_by_perm, length_map_to_list. f_equal. lia.
  - intros [j [name table]] Hin. apply list_elem_of_lookup in Hin as (k & Hk). rewrite list_lookup_imap in Hk. destruct (sorted_by_name (tables database) !! k) as [x|] eqn:Ex; [|done].
    injection Hk as -> ->. apply list_elem_of_lookup_2 in Ex. specialize (Ht _ (list_elem_of_fmap_2 table_row _ _ Ex)). pose proof (encode_schema_row j _ Ht) as Henc. apply sorted_by_name_elem in Ex.
    unfold table_schema_cell. unfold row_values, table_row in Henc. cbn [SqliteSchema.root_page entry_type row_name SqliteSchema.table_name row_sql fst snd] in Henc. destruct (schema_is_view (table_schema table)) eqn:Hv.
    + cbn [bind]. rewrite Henc. cbn [bind fst snd]. unfold table_row. cbn [fst snd]. by rewrite Hv.
    + rewrite table_root by (apply (stored_name name table), elem_of_stored_tables; done). cbn [ok_or bind]. rewrite Henc. cbn [bind fst snd]. unfold table_row. cbn [fst snd]. by rewrite Hv.
Qed.

Lemma cells_room l : Z.of_nat (length l) <= room_of schema_cell_len l.
Proof.
  induction l as [|cell l IH]; [done|]. rewrite room_of_cons. unfold room at 1. unfold schema_cell_len at 1. pose proof (Zlen_nonneg (schema_cell_head cell)). pose proof (Zlen_nonneg cell.2).
  cbn [length]. lia.
Qed.

Lemma schema_cells_good : Forall schema_cell_good (imap schema_cell_of schema_rows) /\ Forall2 row_cell (imap schema_cell_of schema_rows) schema_rows.
Proof.
  pose proof (df_cells _ Hfit) as Hcells. pose proof (df_rows _ Hfit) as Hrows. pose proof (df_room _ Hfit) as Hroom. rewrite Forall_forall in Hcells. rewrite Forall_forall in Hrows.
  assert (Hlen : Z.of_nat (length schema_rows) <= PAGE_SIZE).
  { rewrite <- (length_imap schema_cell_of). pose proof (cells_room (imap schema_cell_of schema_rows)). lia. }
  assert (Hgood : forall i row, schema_rows !! i = Some row -> schema_cell_good (schema_cell_of i row)).
  { intros i row Hi. split.
    - pose proof (lookup_lt_Some _ _ _ Hi). unfold schema_cell_of, is_u64, u64_max, PAGE_SIZE in *. cbn. lia.
    - apply Hcells, list_elem_of_lookup. exists i. by rewrite list_lookup_imap, Hi. }
  split.
  - apply Forall_forall. intros cell Hin. apply list_elem_of_lookup in Hin as (i & Hi). rewrite list_lookup_imap in Hi. destruct (schema_rows !! i) as [row|] eqn:Er; [|done].
    injection Hi as <-. by apply Hgood.
  - apply Forall2_same_length_lookup. split; [apply length_imap|]. intros i cell row Hi Hr. rewrite list_lookup_imap, Hr in Hi. injection Hi as <-.
    destruct (Hrows row (list_elem_of_lookup_2 _ _ _ Hr)) as [Hf Hu]. split_and!; [by apply Hgood|by apply encode_schema_row|done|done].
Qed.

(** What page 1 holds: the schema table behind the room for the header. *)
Definition schema_body (body : bytes) : Prop := Zlen body = PAGE_SIZE - 100 /\
  exists rs, Forall2 (schema_cell_holds ∅) (imap schema_cell_of schema_rows) rs /\
    forall pre, Zlen pre = 100 -> page_cells (pre ++ body) true LeafTable None rs.

Lemma schema_page_builds w : pages_ok w ->
  builds (build_sqlite_schema_page database table_roots index_roots) w (fun page w' => grows w w' /\ pages_ok w' /\
    exists body, page = replicate 100 0 ++ body /\ schema_body body).
Proof.
  intros Hw. destruct schema_cells_good as [Hgood _]. unfold build_sqlite_schema_page. eapply builds_get; [apply schema_cells_run|].
  eapply builds_weaken; [apply (build_page_builds (holds := schema_cell_holds) _ LeafTable true None _ w Hgood Hw (df_room _ Hfit))|].
  - cbn. split; [done|]. by intros [? ?].
  - done.
  - cbv beta. intros page w' (body & rs & Hg & Hw' & -> & Hlen & Hrs & Hcells). split_and!; [done|done|]. exists body. split; [done|]. split; [done|]. exists rs. by split.
Qed.

(** ** All pages *)

(** The pages of the file before the header is written. *)
Record built (w : Pages) : Prop := {
  b_ok : pages_ok w;
  b_full : forall k, is_Some (pages w !! k) <-> 1 <= k < next_page_no w;
  b_schema : exists body, pages w !! 1 = Some (replicate 100 0 ++ body) /\ schema_body body;
  b_tables : forall name table, tables database !! name = Some table -> schema_is_view (table_schema table) = false ->
    table_built (delete 1 (pages w)) table (root_of table_roots name);
  b_sequence : sqlite_sequence_exists database = true -> table_built (delete 1 (pages w)) sequence_table (root_of table_roots "sqlite_sequence"%string);
  b_indexes : forall table_name index_name index table, (table_name, index_name, index) ∈ physical_indexes -> tables database !! table_name = Some table ->
    index_built default_hash (delete 1 (pages w)) (keys table_name index) table index (root_of index_roots (table_name, index_name))
}.

Lemma roots_free_grows R R' w w' : roots_free (R ++ R') w -> grows_roots R w w' -> roots_free R' w'.
Proof.
  intros [Hnd Hr] Hg. apply NoDup_app in Hnd as (_ & Hdis & Hnd). apply Forall_app in Hr as [_ Hr]. split; [done|]. rewrite Forall_forall in *. intros r Hin.
  eapply set_aside_roots; [by apply Hr|done|]. intros Hin'. by eapply Hdis.
Qed.

Lemma roots_free_app R R' w : roots_free (R ++ R') w -> roots_free R w.
Proof. intros [Hnd Hr]. apply NoDup_app in Hnd as (Hnd & _ & _). apply Forall_app in Hr as [Hr _]. by split. Qed.

Lemma build_pages_builds next : next = 2 + (Zlen (table_names database) + Zlen physical_indexes) -> next <= u32_max ->
  builds (build_pages evaluate_index_term parse_check_constraint_expression database table_roots index_roots physical_indexes) (mkPages next ∅) (fun _ w => built w).
Proof.
  intros Hnext Hmax. set (w0 := mkPages next ∅). pose proof (Zlen_nonneg (table_names database)). pose proof (Zlen_nonneg physical_indexes).
  assert (Hw0 : pages_ok w0) by (split; cbn; [lia|by intros k [? ?]|done]).
  assert (Hfree : roots_free all_roots w0).
  { rewrite all_roots_seqZ. split; [apply NoDup_seqZ|]. apply Forall_forall. intros r Hr%elem_of_seqZ. split; cbn; [lia|done]. }
  unfold all_roots in Hfree. unfold build_pages.
  eapply builds_bind; [apply tables_build; [done|by eapply roots_free_app]|]. cbv beta. intros _ w1 (Hg1 & Hw1 & Hb1). pose proof (roots_free_grows _ _ _ _ Hfree Hg1) as Hfree1.
  eapply builds_bind; [apply sequence_builds; [done|by eapply roots_free_app]|]. cbv beta. intros _ w2 (Hg2 & Hw2 & Hb2). pose proof (roots_free_grows _ _ _ _ Hfree1 Hg2) as Hfree2.
  eapply builds_bind; [by apply indexes_build|]. cbv beta. intros _ w3 (Hg3 & Hw3 & Hb3).
  pose proof (grows_roots_trans _ _ _ _ _ Hg1 (grows_roots_trans _ _ _ _ _ Hg2 Hg3)) as [Gn Gold Gnew Gfull]. fold all_roots in Gnew, Gfull. rewrite all_roots_seqZ in Gnew, Gfull.
  eapply builds_bind; [by apply schema_page_builds|]. cbv beta. intros page w4 ([G4n G4old G4new G4full] & Hw4 & body & -> & Hbody).
  assert (Hone : pages w4 !! 1 = None).
  { apply eq_None_not_Some. intros Hs. destruct (G4new 1 Hs) as [Hs3|]; [|cbn in *; lia]. destruct (Gnew 1 Hs3) as [[? ?]|[Hin|]]; [done|apply elem_of_seqZ in Hin; lia|cbn in *; lia]. }
  eapply builds_weaken; [apply insert_page_builds; [done|done|cbn in *; lia|destruct Hbody as [Hl _]; rewrite Zlen_app, Zlen_replicate, Hl; done]|].
  cbv beta. intros _ w (Hnx & Hp & Hw). assert (Hdel : delete 1 (pages w) = pages w4) by (rewrite Hp; by apply delete_insert_id).
  assert (Hs24 : pages w2 ⊆ pages w4) by (transitivity (pages w3); [apply Hg3|done]).
  assert (Hs14 : pages w1 ⊆ pages w4) by (transitivity (pages w2); [apply Hg2|done]). split; rewrite ?Hdel.
  - done.
  - intros k. rewrite Hp. destruct (decide (k = 1)) as [->|Hne]; [rewrite lookup_insert_eq; split; [cbn in *; lia|eauto]|]. rewrite lookup_insert_ne by done. split.
    { intros Hs. destruct (G4new k Hs) as [Hs3|]; [|cbn in *; lia]. destruct (Gnew k Hs3) as [[? ?]|[Hin|]]; [done|apply elem_of_seqZ in Hin; cbn in *; lia|cbn in *; lia]. }
    intros Hk. destruct (decide (k < next_page_no w3)) as [Hlt|Hge]; [|apply G4full; lia]. destruct (Gfull k) as [page Hpage]; [|exists page; by eapply lookup_weaken].
    destruct (decide (k < next)); [left; apply elem_of_seqZ; lia|right; cbn; lia].
  - exists body. rewrite Hp, lookup_insert_eq. by split.
  - intros name table Ht Hv. eapply table_built_mono; [exact Hs14|]. apply (Hb1 (name, table)); [by apply sorted_by_name_elem|done].
  - intros Hs. eapply table_built_mono; [exact Hs24|by apply Hb2].
  - intros tname iname index table Hin Ht. eapply index_built_mono; [exact G4old|by apply (Hb3 (tname, iname, index))].
Qed.

(** ** The file *)

Definition file_header (count : Z) : bytes := header_bytes count 1 (schema_version database) (user_version database) (application_id database).

(** A page of the file. *)
Definition final_page (w : Pages) (count p : Z) : bytes :=
  let page := default [] (pages w !! p) in if p =? 1 then file_header count ++ drop 100 page else page.

Lemma final_page_one w count body : pages w !! 1 = Some (replicate 100 0 ++ body) -> final_page w count 1 = file_header count ++ body.
Proof. intros Hp. unfold final_page. by rewrite Hp. Qed.

Lemma final_pages w count : built w -> count = next_page_no w - 1 ->
  mapM_res (file_page database count (pages w)) (seqZ 1 count) = Ok (map (final_page w count) (seqZ 1 count)) /\
  Forall (fun page => Zlen page = PAGE_SIZE) (map (final_page w count) (seqZ 1 count)) /\
  (forall p, 1 < p <= count -> pages w !! p = Some (final_page w count p)).
Proof.
  intros Hb ->. destruct (b_schema _ Hb) as (body & Hp1 & Hlen & _).
  pose proof (final_page_one w (next_page_no w - 1) body Hp1) as Hfirst.
  assert (Hat : forall p, 1 <= p <= next_page_no w - 1 -> exists page, pages w !! p = Some page) by (intros p Hp; apply (b_full _ Hb); lia).
  assert (Hrest : forall p, 1 < p <= next_page_no w - 1 -> pages w !! p = Some (final_page w (next_page_no w - 1) p)).
  { intros p Hp. destruct (Hat p ltac:(lia)) as [page Hpage]. unfold final_page. rewrite Hpage, (proj2 (Z.eqb_neq _ _)) by lia. done. }
  split_and!; [| |done].
  - apply mapM_res_ok. intros p Hp%elem_of_seqZ. unfold file_page. destruct (decide (p = 1)) as [->|Hne].
    + rewrite Hp1. cbn [ok_or bind]. rewrite Z.eqb_refl, Hfirst. apply write_header_run.
    + rewrite Hrest by lia. cbn [ok_or bind]. by rewrite (proj2 (Z.eqb_neq _ _)) by lia.
  - apply Forall_forall. intros page (p & -> & Hp%elem_of_seqZ)%list_elem_of_fmap. destruct (decide (p = 1)) as [->|Hne].
    + rewrite Hfirst, Zlen_app, Hlen. unfold file_header, Zlen. rewrite header_bytes_length. unfold PAGE_SIZE. lia.
    + eapply po_size; [apply (b_ok _ Hb)|]. apply Hrest. lia.
Qed.

(** The contents of the file: its header, its schema table, its tables and its indexes. *)
Definition holds_database (file : bytes) : Prop :=
  exists pager count, open_pager file = Ok pager /\ Zlen file = PAGE_SIZE * count /\
    header pager = written_header count (schema_version database) (user_version database) (application_id database) /\
    (forall fuel, read_schema_rows (S fuel) pager = Ok schema_rows) /\
    (forall name table, tables database !! name = Some table -> schema_is_view (table_schema table) = false ->
       table_found pager table (root_of table_roots name)) /\
    (sqlite_sequence_exists database = true -> table_found pager sequence_table (root_of table_roots "sqlite_sequence"%string)) /\
    (forall table_name index_name index table, (table_name, index_name, index) ∈ physical_indexes -> tables database !! table_name = Some table ->
       index_found default_hash pager (keys table_name index) table index (root_of index_roots (table_name, index_name))).

Lemma built_file w count : built w -> count = next_page_no w - 1 -> holds_database (concat (map (final_page w count) (seqZ 1 count))).
Proof.
  intros Hb Hcount. destruct (final_pages w count Hb Hcount) as (_ & Hsize & Hrest). destruct (b_schema _ Hb) as (body & Hp1 & Hbody). destruct (po_next _ (b_ok _ Hb)) as [Hn Hmax].
  destruct (df_versions _ Hfit) as (Hv1 & Hv2 & Hv3). set (l := map (final_page w count) (seqZ 1 count)) in *. set (file := concat l). set (h := written_header count (schema_version database) (user_version database) (application_id database)).
  assert (Hat : forall p, 1 <= p <= count -> l !! Z.to_nat (p - 1) = Some (final_page w count p)).
  { intros p Hp. unfold l. rewrite list_lookup_fmap, lookup_seqZ_lt by lia. cbn. by replace (1 + Z.of_nat (Z.to_nat (p - 1))) with p by lia. }
  assert (Hlen : Zlen l = count) by (unfold l; rewrite Zlen_map; unfold Zlen; rewrite length_seqZ; lia).
  assert (Hread : forall p, 1 <= p <= count -> read_page (mkPager file h) p = Ok (final_page w count p)).
  { intros p Hp. replace p with (Z.of_nat (Z.to_nat (p - 1)) + 1) at 1 by lia. eapply read_file_page; [done|done|done|lia|by apply Hat]. }
  pose proof (final_page_one w count body Hp1) as Hfirst.
  assert (Hopen : open_pager file = Ok (mkPager file h)).
  { destruct (head_at l (final_page w count 1) (Hat 1 ltac:(lia))) as [rest Hl]. rewrite Hfirst in Hl.
    apply (open_written file l (file_header count ++ body) rest); [unfold is_u32; lia|done..|by exists body]. }
  assert (Hserves : serves (mkPager file h) (delete 1 (pages w))).
  { split; [done..|]. intros p page Hp. apply lookup_delete_Some in Hp as [Hne Hp]. destruct (proj1 (b_full _ Hb p)) as [H1 H2]; [by rewrite Hp|].
    rewrite Hread by lia. f_equal. rewrite Hrest in Hp by lia. by injection Hp. }
  exists (mkPager file h), count. split_and!; [done|by rewrite <- Hlen, <- Zlen_concat_pages|done| | | |].
  - intros fuel. destruct Hbody as (Hbl & rs & Hrs & Hcells). eapply read_schema_page; [apply (sv_usable _ _ Hserves)|by apply Hread; lia| |rewrite Hfirst; by apply Hcells|done|apply schema_cells_good].
    pose proof (Hat 1 ltac:(lia)) as Hat1. rewrite Forall_forall in Hsize. apply Hsize. by eapply list_elem_of_lookup_2.
  - intros name table Ht Hv. by apply (b_tables _ Hb).
  - intros Hs. by apply (b_sequence _ Hb).
  - intros tname iname index table Hin Ht. by apply (b_indexes _ Hb tname iname).
Qed.

Lemma stored_tables_count : Zlen (filter (fun nt : string * WritableTable => schema_is_view (table_schema nt.2) = false) (map_to_list (tables database))) = Zlen stored_tables.
Proof. unfold Zlen, stored_tables, sorted_by_name. by rewrite (sort_by_perm _ (map_to_list (tables database))). Qed.

Lemma write_database_run : match write_database evaluate_index_term parse_check_constraint_expression database with
  | Ok file => holds_database file
  | Err e => e = number_overflow
  | _ => False
  end.
Proof.
  pose proof (table_names_NoDup (df_sequence_name _ Hfit)) as Hnd. pose proof physical_names as Hndi. unfold write_database.
  destruct (assign_roots_run 2 (table_names database)) as [[-> Hn]| ->]; [|done]. cbn [bind]. rewrite collect_physical_run by apply (df_index_table _ Hfit). cbn [bind].
  destruct (assign_roots_run (Zlen (table_names database) + 2) (map fst physical_indexes)) as [[-> Hi]| ->]; [|done]. cbn [bind].
  fold table_roots index_roots. rewrite stored_tables_count. unfold index_roots at 1. rewrite numbered_size, length_map by done.
  set (seq := if sqlite_sequence_exists database then 1 else 0). assert (Hnames : Zlen (table_names database) = Zlen stored_tables + seq).
  { unfold table_names. rewrite Zlen_app, Zlen_map. fold stored_tables. f_equal. unfold seq. by destruct (sqlite_sequence_exists database). }
  pose proof (Zlen_nonneg stored_tables). assert (Hb1 : Zlen (table_names database) <= u32_max) by (destruct Hn as [-> |]; [done|lia]).
  assert (Hb2 : Zlen physical_indexes <= u32_max) by (rewrite <- (Zlen_map fst); destruct Hi as [-> |]; [done|pose proof (Zlen_nonneg (table_names database)); lia]).
  unfold checked_add. rewrite (proj2 (Z.leb_le _ _)) by (unfold u64_max, u32_max in *; lia). cbn [ok_or bind].
  fold (Zlen physical_indexes). rewrite (proj2 (Z.leb_le _ _)) by (unfold u64_max, u32_max in *; lia). cbn [ok_or bind].
  unfold to_u32. destruct (Z.leb_spec (Zlen stored_tables + seq + Zlen physical_indexes + 2) u32_max) as [Hle|]; [|done]. cbn [bind].
  pose proof (build_pages_builds (Zlen stored_tables + seq + Zlen physical_indexes + 2) ltac:(lia) Hle) as Hbuilds. unfold builds in Hbuilds.
  destruct (build_pages _ _ _ _ _ _ _) as [[[]|e|why|] w]; try done. destruct (po_next _ (b_ok _ Hbuilds)) as [Hw _].
  unfold checked_sub. rewrite (proj2 (Z.leb_le _ _)) by lia. cbn [ok_or bind].
  destruct (final_pages w (next_page_no w - 1) Hbuilds eq_refl) as (-> & _ & _). cbn [bind]. by apply built_file.
Qed.

(** C10: a database written as a file and opened. When its rows, keys and schema entries can
    be stored and the schema table fits page 1, [write_database] only fails for want of page
    numbers. The file it makes opens; its header has the number of its pages and the versions of the
    database; the rows
    of its schema table are the tables, indexes, other objects and [sqlite_sequence] of the
    database with the root pages handed out from 2 on; and at these roots the tables, the
    sequences and the indexes are found with all their rows and entries. *)
Theorem write_database_opens : match write_database evaluate_index_term parse_check_constraint_expression database with
  | Ok file => holds_database file
  | Err e => e = number_overflow
  | _ => False
  end.
Proof. exact write_database_run. Qed.
End Run.
End Database.
