(* ===== verification/SqliteScenarios.v ===== *)
(** * Database files at work

    A small database with a table, a WITHOUT ROWID table, a view, an index and a sequence,
    on which the theorems on files are used, and runs of the writer and the readers. *)

From S2P Require Import Prelude Text Varint Types Floats Schema CheckValues CheckEval CheckLaws Record SqliteFile SqliteBTree SqliteSchema SqliteRender SqliteWriter SqliteDatabase SqliteChains SqliteTrees SqliteRoundTrip SqliteWithoutRowid SqliteAssembly SqliteDatabaseLaws.

#[local] Existing Instances sample_libm CheckLaws.sample_json.

(** ** Deciding what can be stored *)

#[local] Instance encodable_dec v : Decision (encodable v).
Proof. unfold encodable. destruct v; apply _. Defined.
#[local] Instance record_fits_dec vs : Decision (record_fits vs).
Proof. unfold record_fits. apply _. Defined.
#[local] Instance storable_dec {SelectStatement} (schema : Schema SelectStatement) ir : Decision (storable schema ir).
Proof. unfold storable. apply _. Defined.
#[local] Instance row_fits_dec row : Decision (row_fits row).
Proof. unfold row_fits. apply _. Defined.

Ltac by_decide := match goal with |- ?P => let d := constr:(_ : Decision P) in apply (@bool_decide_unpack P d) end; vm_compute; exact I.

(** ** The database *)

Definition id_column : ColumnDef :=
  mkColumnDef "id" CtInteger (Some "INTEGER"%string) None false None None true None None None false None None true None None false false false [] None.

Definition people : Schema unit :=
  mkSchema _ "people" [id_column; new_column "name" CtText; new_column "height" CtReal] ObjTable None None None [] [] None [] [] false false.

Definition settings_key : PrimaryKeyConstraint := mkPrimaryKeyConstraint None ["key"%string] None None.
Definition settings : Schema unit :=
  mkSchema _ "settings" [new_column "value" CtInteger; new_column "key" CtText] ObjTable None None None [] [] (Some settings_key) [] [] false true.

Definition adults : Schema unit :=
  mkSchema _ "adults" [] ObjView (Some "CREATE VIEW adults AS SELECT name FROM people"%string) None None [] [] None [] [] false false.

Definition people_rows : list (RowId * Row) := [(2, [Integer 2; Text "bob"; Real 4609434218613702656]); (1, [Integer 1; Text "al"; Null])].
Definition settings_rows : list (RowId * Row) := [(1, [Integer 300; Text "page"]); (2, [Integer 1; Text "debug"])].

Definition by_name : IndexMeta := mkIndexMeta "by_name" ["name"%string] None false None.
Definition settings_index : IndexMeta := mkIndexMeta "sqlite_autoindex_settings_1" ["key"%string] None true None.

Definition sample_database : WritableDatabase unit := {|
  tables := {[ "people"%string := mkWritableTable _ people people_rows; "settings"%string := mkWritableTable _ settings settings_rows;
               "adults"%string := mkWritableTable _ adults [] ]};
  indexes := {[ "people"%string := {[ "by_name"%string := by_name ]}; "settings"%string := {[ "sqlite_autoindex_settings_1"%string := settings_index ]} ]};
  extra_schema_objects := [mkWritableSchemaObject "trigger" "t" "people" 0 (Some "CREATE TRIGGER t"%string)];
  sqlite_sequence := {[ "people"%string := 2 ]};
  sqlite_sequence_exists := true;
  contains_without_rowid_tables := true;
  user_version := 7;
  application_id := 0;
  schema_version := 4
|}.

(** The value of a column. *)
Definition sample_term (schema : Schema unit) (row : Row) (name : string) : Result Value := row_column schema row name.
Definition sample_parser (_ : string) : Result CheckExpr := Err (Storage "not supported").
Definition sample_hash (_ : list Value) : Z := 0.
Definition sample_keys (_ : string) (_ : IndexMeta) (ir : RowId * Row) : option (list Value) := Some [default Null (ir.2 !! 1%nat)].

Lemma people_index_fits : Forall (indexes_as sample_term sample_parser people by_name (sample_keys "people" by_name)) people_rows.
Proof.
  assert (H : forall ir, ir ∈ people_rows -> 0 <= ir.1 <= i64_max /\ record_fits ([default Null (ir.2 !! 1%nat)] ++ [Integer ir.1]) /\ sample_term people ir.2 "name" = Ok (default Null (ir.2 !! 1%nat))).
  { intros ir [->|[->|[]%elem_of_nil]%elem_of_cons]%elem_of_cons; (split_and!; [cbn; lia|unfold i64_max; cbn; lia|by_decide|reflexivity]). }
  apply Forall_forall. intros ir Hin. destruct (H ir Hin) as (Hid & Hf & Ht). split; [done|]. intros key [= <-]. split_and!; [|apply Hid|apply Hid|exact Hf].
  cbn [index_columns by_name mapM_res]. rewrite Ht. done.
Qed.

Lemma settings_keyed : keyed settings settings_key.
Proof. split; [done|done|by_decide|by_decide|]. intros name ->%list_elem_of_singleton. by_decide. Qed.

Lemma sample_physical : physical_indexes sample_database = [("people"%string, "by_name"%string, by_name)].
Proof. vm_compute. reflexivity. Qed.

Lemma sample_fits : database_fits sample_term sample_parser sample_database sample_keys.
Proof.
  split.
  - intros name table Hl Hv. cbn in Hl. apply lookup_insert_Some in Hl as [[<- <-]|[_ Hl]]; [left|].
    { split; [done|]. split; [by_decide|]. repeat constructor; by_decide. }
    apply lookup_insert_Some in Hl as [[<- <-]|[_ Hl]]; [right|].
    { exists settings_key. split; [exact settings_keyed|]. split; [|by_decide]. repeat constructor; by_decide. }
    apply lookup_singleton_Some in Hl as [<- <-]. done.
  - intros _. reflexivity.
  - intros name seq Hl. cbn in Hl. apply lookup_singleton_Some in Hl as [<- <-]. split; by_decide.
  - by_decide.
  - intros name group Hl. cbn in Hl. apply lookup_insert_Some in Hl as [[<- <-]|[_ Hl]]; [by_decide|]. apply lookup_singleton_Some in Hl as [<- <-]. by_decide.
  - intros tname iname index table Hin Ht. rewrite sample_physical in Hin. apply list_elem_of_singleton in Hin as [= -> -> ->]. cbn in Ht. injection Ht as <-.
    split; [by_decide|]. exact people_index_fits.
  - split_and!; by_decide.
  - by_decide.
  - by_decide.
  - by_decide.
Qed.

(** ** The theorems, used *)

Definition empty_pages : Pages := mkPages 5 ∅.

Lemma empty_pages_ok : pages_ok empty_pages.
Proof. split; cbn; [unfold u32_max; lia|by intros k [? ?]|done]. Qed.

Lemma root_set_aside : set_aside 2 empty_pages.
Proof. split; cbn; [lia|done]. Qed.

Lemma sqlite_table_roundtrip_witness :
  builds (build_table_btree (mkWritableTable _ people people_rows) 2) empty_pages (fun _ w' => pages empty_pages ⊆ pages w' /\
    table_reads people 2 (table_image people people_rows) (pages w')).
Proof.
  apply (sqlite_table_roundtrip (mkWritableTable _ people people_rows) 2 empty_pages).
  - exact empty_pages_ok.
  - exact root_set_aside.
  - reflexivity.
  - by_decide.
  - by_decide.
Defined.

Lemma sqlite_index_roundtrip_witness :
  builds (build_index_btree sample_term sample_parser (mkWritableTable _ people people_rows) by_name 2) empty_pages (fun _ w' => pages empty_pages ⊆ pages w' /\
    index_reads sample_hash by_name 2 (sorted_pairs (sample_keys "people" by_name) people_rows) (pages w')).
Proof.
  apply (sqlite_index_roundtrip sample_term sample_parser sample_hash (mkWritableTable _ people people_rows) by_name (sample_keys "people" by_name) 2 empty_pages).
  - exact empty_pages_ok.
  - exact root_set_aside.
  - reflexivity.
  - by_decide.
  - exact people_index_fits.
Defined.

Lemma sqlite_without_rowid_roundtrip_witness :
  builds (build_table_btree (mkWritableTable _ settings settings_rows) 2) empty_pages (fun _ w' => pages empty_pages ⊆ pages w' /\
    keyed_reads settings 2 (sorted_by_key settings settings_key settings_rows) (pages w')).
Proof.
  apply (sqlite_without_rowid_roundtrip settings settings_key settings_rows 2 empty_pages).
  - exact empty_pages_ok.
  - exact root_set_aside.
  - exact settings_keyed.
  - repeat constructor; by_decide.
  - by_decide.
Defined.

(** The file of the sample database. *)
Definition sample_file : Result bytes := write_database sample_term sample_parser sample_database.

Lemma sample_file_written : is_ok sample_file = true.
Proof. vm_compute. reflexivity. Qed.

Lemma write_database_opens_witness : exists file, sample_file = Ok file /\ holds_database sample_hash sample_database sample_keys file.
Proof.
  pose proof (write_database_opens sample_term sample_parser sample_hash sample_database sample_keys sample_fits) as H. fold sample_file in H.
  pose proof sample_file_written as Hok. destruct sample_file as [file|e|why|]; [exists file; split; [reflexivity|exact H]|discriminate..].
Defined.

(** ** Runs *)

Definition with_sample {A} (f : Pager -> Result A) : Result A :=
  let? file := sample_file in
  let? pager := open_pager file in
  f pager.

(** The file has five pages: the schema table, the roots of two tables, of [sqlite_sequence]
    and of the index. *)
Lemma sample_schema : with_sample (fun pager => let? rows := read_schema_rows 2 pager in Ok (map (fun row => (entry_type row, row_name row, root_page row)) rows)) =
  Ok [("view"%string, "adults"%string, 0); ("table"%string, "people"%string, 2); ("table"%string, "settings"%string, 3);
      ("index"%string, "by_name"%string, 5); ("trigger"%string, "t"%string, 0); ("table"%string, "sqlite_sequence"%string, 4)].
Proof. vm_compute. reflexivity. Qed.

Lemma sample_reads :
  with_sample (fun pager => scan_table_rows 2 pager 2 people) = Ok [(1, [Integer 1; Text "al"; Null]); (2, [Integer 2; Text "bob"; Real 4609434218613702656])] /\
  with_sample (fun pager => scan_table_rows 2 pager 3 settings) = Ok [(1, [Integer 1; Text "debug"]); (2, [Integer 300; Text "page"])] /\
  with_sample (fun pager => get_table_row 2 pager 2 people 2) = Ok (Some [Integer 2; Text "bob"; Real 4609434218613702656]) /\
  with_sample (fun pager => lookup_index_entries sample_hash 2 pager 5 by_name [Text "bob"]) = Ok [2].
Proof. split_and!; vm_compute; reflexivity. Qed.

(** ** What the rendered SQL loses *)

(** The literal of a real that is an integer has no point: a default of [1.0] is an integer
    when the schema is read again. *)
Lemma real_literal_without_point : render_literal (Real 4607182418800017408) = "1"%string /\ render_literal (Integer 1) = "1"%string.
Proof. split; vm_compute; reflexivity. Qed.

(** Names are not quoted. *)
Lemma name_not_quoted : render_create_table (new_schema (SelectStatement := unit) "order items" [new_column "order" CtText]) = "CREATE TABLE order items (order TEXT)"%string.
Proof. vm_compute. reflexivity. Qed.

(** The sort order of a primary key comes after its conflict clause. *)
Lemma sort_order_after_conflict :
  render_column_def people (mkColumnDef "id" CtInteger (Some "INTEGER"%string) None false None None true None (Some "REPLACE"%string) (Some Desc) false None None false None None
    false false false [] None) = "id INTEGER PRIMARY KEY ON CONFLICT REPLACE DESC"%string.
Proof. vm_compute. reflexivity. Qed.
