(* ===== verification/V2Page.v ===== *)
(** * Pages of the v2 engine: [src/storage/v2/page.rs]

    The 4096-byte page layout (magic, kind, payload length, payload), the meta page,
    and their round trips. *)

From S2P Require Import Prelude.

Definition PAGE_SIZE : Z := 4096.
Definition PAGE_SIZE_nat : nat := 4096.
(** [b"RSV2"] *)
Definition STORAGE_MAGIC : bytes := [82; 83; 86; 50].

Definition KIND_OFFSET : nat := 4.
Definition PAYLOAD_LEN_OFFSET : nat := 8.
Definition PAYLOAD_OFFSET : nat := 16.

(** [PageId(u32)] *)
Abbreviation PageId := Z (only parsing).

Inductive PageKind := Meta | Catalog | Leaf | Internal.

#[export] Instance PageKind_eq_dec : EqDecision PageKind.
Proof. solve_decision. Defined.

(** [kind as u8] *)
Definition kind_u8 (kind : PageKind) : Z :=
  match kind with Meta => 1 | Catalog => 2 | Leaf => 3 | Internal => 4 end.

(** [TryFrom<u8> for PageKind] *)
Definition kind_try_from (value : Z) : Result PageKind :=
  match value with
  | 1 => Ok Meta
  | 2 => Ok Catalog
  | 3 => Ok Leaf
  | 4 => Ok Internal
  | other => Err (Storage ("unknown storage_v2 page kind: " ++ pretty other))
  end.

(** [{:?}] of a [PageKind]. *)
Definition kind_debug (kind : PageKind) : string :=
  match kind with Meta => "Meta" | Catalog => "Catalog" | Leaf => "Leaf" | Internal => "Internal" end.

Record MetaPage := mkMetaPage {
  page_size : Z;
  page_count : Z;
  catalog_page_id : PageId;
  next_txn_id : Z
}.

#[export] Instance MetaPage_eq_dec : EqDecision MetaPage.
Proof. solve_decision. Defined.

Definition empty_page (kind : PageKind) : bytes :=
  let page := replicate PAGE_SIZE_nat 0 in
  let page := set_bytes page 0 STORAGE_MAGIC in
  set_bytes page KIND_OFFSET [kind_u8 kind].

Definition validate_page_buffer (page : bytes) : Result unit :=
  if negb (Zlen page =? PAGE_SIZE) then
    Err (Storage "storage_v2 page buffer must be exactly 4096 bytes")
  else if negb (bool_decide (get_bytes page 0 4 = STORAGE_MAGIC)) then
    Err (Storage "invalid storage_v2 page magic")
  else Ok tt.

Definition page_kind (page : bytes) : Result PageKind :=
  validate_page_buffer page ;;?
  let? kind := index_at page (Z.of_nat KIND_OFFSET) in
  kind_try_from kind.

(** [MetaPage::encode] *)
Definition meta_encode (self : MetaPage) : bytes :=
  let page := empty_page Meta in
  let page := set_bytes page PAYLOAD_OFFSET (to_le 4 (page_size self)) in
  let page := set_bytes page (PAYLOAD_OFFSET + 4) (to_le 4 (page_count self)) in
  let page := set_bytes page (PAYLOAD_OFFSET + 8) (to_le 4 (catalog_page_id self)) in
  set_bytes page (PAYLOAD_OFFSET + 12) (to_le 8 (next_txn_id self)).

(** [MetaPage::decode] *)
Definition meta_decode (page : bytes) : Result MetaPage :=
  validate_page_buffer page ;;?
  let? kind := page_kind page in
  if negb (bool_decide (kind = Meta)) then
    Err (Storage "storage_v2 meta page has wrong page kind")
  else Ok {|
    page_size := from_le (get_bytes page PAYLOAD_OFFSET 4);
    page_count := from_le (get_bytes page (PAYLOAD_OFFSET + 4) 4);
    catalog_page_id := from_le (get_bytes page (PAYLOAD_OFFSET + 8) 4);
    next_txn_id := from_le (get_bytes page (PAYLOAD_OFFSET + 12) 8)
  |}.

Definition encode_payload_page (kind : PageKind) (payload : bytes) : Result bytes :=
  if PAGE_SIZE - Z.of_nat PAYLOAD_OFFSET <? Zlen payload then
    Err (Storage ("payload of " ++ pretty (Zlen payload) ++ " bytes exceeds page capacity 4080"))
  else
    let page := empty_page kind in
    let page := set_bytes page PAYLOAD_LEN_OFFSET (to_le 4 (Zlen payload)) in
    Ok (set_bytes page PAYLOAD_OFFSET payload).

Definition decode_payload (page : bytes) (expected_kind : PageKind) : Result bytes :=
  validate_page_buffer page ;;?
  let? kind := page_kind page in
  if negb (bool_decide (kind = expected_kind)) then
    Err (Storage ("expected " ++ kind_debug expected_kind ++ " page but found " ++ kind_debug kind))
  else
    let payload_len := from_le (get_bytes page PAYLOAD_LEN_OFFSET 4) in
    if PAGE_SIZE - Z.of_nat PAYLOAD_OFFSET <? payload_len then
      Err (Storage ("page payload length " ++ pretty payload_len ++ " exceeds capacity"))
    else slice_range page (Z.of_nat PAYLOAD_OFFSET) (Z.of_nat PAYLOAD_OFFSET + payload_len).

(** ** Lemmas *)

Arguments PAGE_SIZE_nat : simpl never.
#[global] Opaque PAGE_SIZE_nat.

Lemma PAGE_SIZE_nat_eq : PAGE_SIZE_nat = 4096%nat.
Proof. reflexivity. Qed.

(** A buffer laid out as a page of the given kind. *)
Definition page_wf (kind : PageKind) (page : bytes) : Prop :=
  length page = PAGE_SIZE_nat /\ get_bytes page 0 4 = STORAGE_MAGIC /\
  get_bytes page KIND_OFFSET 1 = [kind_u8 kind].

Lemma empty_page_wf kind : page_wf kind (empty_page kind).
Proof.
  pose proof PAGE_SIZE_nat_eq as HP. unfold page_wf, empty_page, KIND_OFFSET.
  assert (Hm : length STORAGE_MAGIC = 4%nat) by done.
  assert (Hk : length [kind_u8 kind] = 1%nat) by done.
  assert (Hr : length (replicate PAGE_SIZE_nat 0) = PAGE_SIZE_nat) by apply length_replicate.
  assert (H1 : length (set_bytes (replicate PAGE_SIZE_nat 0) 0 STORAGE_MAGIC) = PAGE_SIZE_nat).
  { rewrite length_set_bytes; lia. }
  split_and!.
  - rewrite length_set_bytes; lia.
  - rewrite get_set_bytes_ne by lia. apply get_set_bytes; lia.
  - apply get_set_bytes; lia.
Qed.

(** Writing past the kind byte keeps the layout. *)
Lemma set_bytes_wf kind page a src :
  page_wf kind page -> (5 <= a)%nat -> (a + length src <= PAGE_SIZE_nat)%nat ->
  page_wf kind (set_bytes page a src).
Proof.
  unfold page_wf, KIND_OFFSET. intros (Hl & Hm & Hk) Ha Hs. split_and!.
  - rewrite length_set_bytes; lia.
  - rewrite get_set_bytes_ne by lia. done.
  - rewrite get_set_bytes_ne by lia. done.
Qed.

Lemma validate_page_wf kind page : page_wf kind page -> validate_page_buffer page = Ok tt.
Proof.
  intros (Hl & Hm & _). unfold validate_page_buffer, PAGE_SIZE, Zlen.
  rewrite Hl, PAGE_SIZE_nat_eq. simpl. by rewrite bool_decide_true.
Qed.

Lemma kind_try_from_u8 kind : kind_try_from (kind_u8 kind) = Ok kind.
Proof. by destruct kind. Qed.

Lemma page_kind_wf kind page : page_wf kind page -> page_kind page = Ok kind.
Proof.
  intros Hw. unfold page_kind. rewrite (validate_page_wf kind) by done. cbn [bind].
  destruct Hw as (_ & _ & Hk). unfold get_bytes in Hk. unfold index_at. simpl (0 <=? _).
  rewrite Nat2Z.id. destruct (drop KIND_OFFSET page) as [|b rest] eqn:E; [done|].
  simpl in Hk. injection Hk as ->.
  assert (Hi : page !! KIND_OFFSET = Some (kind_u8 kind)).
  { rewrite <- (Nat.add_0_r KIND_OFFSET), <- lookup_drop, E. done. }
  rewrite Hi. cbn [bind]. apply kind_try_from_u8.
Qed.

Lemma encode_payload_page_Ok kind payload :
  Zlen payload <= 4080 ->
  encode_payload_page kind payload =
    Ok (set_bytes (set_bytes (empty_page kind) PAYLOAD_LEN_OFFSET (to_le 4 (Zlen payload)))
          PAYLOAD_OFFSET payload).
Proof.
  intros Hl. unfold encode_payload_page, PAGE_SIZE, PAYLOAD_OFFSET.
  destruct (Z.ltb_spec (4096 - Z.of_nat 16) (Zlen payload)); [lia|done].
Qed.

Lemma payload_page_wf kind payload page :
  encode_payload_page kind payload = Ok page -> page_wf kind page /\ Zlen payload <= 4080.
Proof.
  intros He. assert (Hl : Zlen payload <= 4080).
  { revert He. unfold encode_payload_page, PAGE_SIZE, PAYLOAD_OFFSET.
    destruct (Z.ltb_spec (4096 - Z.of_nat 16) (Zlen payload)); [done|lia]. }
  rewrite encode_payload_page_Ok in He by done. apply Ok_inj in He as <-. split; [|done].
  apply set_bytes_wf; [apply set_bytes_wf; [apply empty_page_wf|..]|..];
    rewrite ?length_to_le, ?PAGE_SIZE_nat_eq; unfold PAYLOAD_LEN_OFFSET, PAYLOAD_OFFSET, Zlen in *; lia.
Qed.

Lemma decode_encode_payload kind payload page :
  encode_payload_page kind payload = Ok page -> decode_payload page kind = Ok payload.
Proof.
  intros He. pose proof (payload_page_wf _ _ _ He) as [Hw Hl].
  rewrite encode_payload_page_Ok in He by done. apply Ok_inj in He as Hpage.
  unfold decode_payload. rewrite (validate_page_wf kind) by done. cbn [bind].
  rewrite (page_kind_wf kind) by done. cbn [bind]. rewrite bool_decide_true by done. simpl negb. cbn iota.
  pose proof (empty_page_wf kind) as (He1 & _). pose proof (Zlen_nonneg payload).
  assert (Hplen : from_le (get_bytes page PAYLOAD_LEN_OFFSET 4) = Zlen payload).
  { subst page. rewrite PAGE_SIZE_nat_eq in He1. unfold PAYLOAD_LEN_OFFSET, PAYLOAD_OFFSET, Zlen in *.
    rewrite get_set_bytes_ne; [|rewrite length_set_bytes; rewrite ?length_to_le; lia|lia].
    rewrite get_set_bytes by (rewrite ?length_to_le; lia). apply from_le_to_le_small. simpl. lia. }
  rewrite Hplen. unfold PAGE_SIZE. destruct (Z.ltb_spec (4096 - Z.of_nat PAYLOAD_OFFSET) (Zlen payload));
    [unfold PAYLOAD_OFFSET in *; lia|].
  destruct Hw as (Hlen & _). rewrite PAGE_SIZE_nat_eq in Hlen.
  apply slice_range_Ok, get_range_Some. unfold PAYLOAD_OFFSET in *.
  split_and!; [lia..|unfold Zlen in *; lia|].
  replace (Z.to_nat (Z.of_nat 16 + Zlen payload - Z.of_nat 16)) with (length payload) by (unfold Zlen; lia).
  rewrite Nat2Z.id. fold (get_bytes page 16 (length payload)). subst page. symmetry.
  apply get_set_bytes; [|done]. rewrite PAGE_SIZE_nat_eq in He1.
  rewrite length_set_bytes; rewrite ?length_to_le; unfold PAYLOAD_LEN_OFFSET, Zlen in *; lia.
Qed.

(** The meta record's fields fit their widths. *)
Definition meta_wf (m : MetaPage) : Prop :=
  is_u32 (page_size m) /\ is_u32 (page_count m) /\ is_u32 (catalog_page_id m) /\
  is_u64 (next_txn_id m).

#[export] Instance meta_wf_dec m : Decision (meta_wf m).
Proof. unfold meta_wf. apply _. Defined.

Lemma meta_encode_wf m : page_wf Meta (meta_encode m).
Proof.
  unfold meta_encode, PAYLOAD_OFFSET.
  repeat (apply set_bytes_wf; [|rewrite ?length_to_le, ?PAGE_SIZE_nat_eq; lia..]). apply empty_page_wf.
Qed.

(** ** Properties *)

(** The meta page round-trips: decoding the encoding of any meta record, at its
    field widths, gives the record back. *)
Theorem meta_roundtrip (m : MetaPage) :
  meta_wf m -> meta_decode (meta_encode m) = Ok m.
Proof.
  intros (H1 & H2 & H3 & H4). pose proof (meta_encode_wf m) as Hw.
  unfold meta_decode. rewrite (validate_page_wf Meta) by done. cbn [bind].
  rewrite (page_kind_wf Meta) by done. cbn [bind]. rewrite bool_decide_true by done. simpl negb. cbn iota.
  pose proof (empty_page_wf Meta) as (Hl & _). rewrite PAGE_SIZE_nat_eq in Hl.
  unfold meta_encode, PAYLOAD_OFFSET, is_u32, is_u64, u32_max, u64_max in *. destruct m as [ps pc cp nt]. cbn [page_size page_count catalog_page_id next_txn_id] in *.
  assert (L4 : forall v, length (to_le 4 v) = 4%nat) by (intros; apply length_to_le).
  assert (L8 : forall v, length (to_le 8 v) = 8%nat) by (intros; apply length_to_le).
  assert (Ls : forall l a src, length l = 4096%nat -> (a + length src <= 4096)%nat ->
    length (set_bytes l a src) = 4096%nat) by (intros; rewrite length_set_bytes; lia).
  set (e := empty_page Meta) in *.
  pose proof (Ls e 16%nat (to_le 4 ps)) as S1. rewrite L4 in S1.
  pose proof (Ls (set_bytes e 16 (to_le 4 ps)) 20%nat (to_le 4 pc)) as S2. rewrite L4 in S2.
  pose proof (Ls (set_bytes (set_bytes e 16 (to_le 4 ps)) 20 (to_le 4 pc)) 24%nat (to_le 4 cp)) as S3.
  rewrite L4 in S3. simpl Nat.add.
  do 2 f_equal.
  - rewrite !get_set_bytes_ne by (rewrite ?L4, ?L8; lia).
    rewrite get_set_bytes by (rewrite ?L4; lia). apply from_le_to_le_small. simpl. lia.
  - rewrite !get_set_bytes_ne by (rewrite ?L4, ?L8; lia).
    rewrite get_set_bytes by (rewrite ?L4; lia). apply from_le_to_le_small. simpl. lia.
  - rewrite get_set_bytes_ne by (rewrite ?L4, ?L8; lia).
    rewrite get_set_bytes by (rewrite ?L4; lia). apply from_le_to_le_small. simpl. lia.
  - rewrite get_set_bytes by (rewrite ?L8; lia). apply from_le_to_le_small. simpl. lia.
Qed.

Lemma meta_roundtrip_witness :
  meta_decode (meta_encode (mkMetaPage 4096 3 1 9)) = Ok (mkMetaPage 4096 3 1 9).
Proof. apply (meta_roundtrip (mkMetaPage 4096 3 1 9)). by_compute. Defined.

(** Payload pages. A payload of at most 4080 bytes is stored in a 4096-byte page
    that decodes to the same payload under the kind it was written with and is an error
    under any other kind; a longer payload is refused. *)
Theorem payload_page_roundtrip (kind : PageKind) (payload : bytes) :
  (Zlen payload <= 4080 ->
     exists page, encode_payload_page kind payload = Ok page /\ Zlen page = PAGE_SIZE /\
       page_kind page = Ok kind /\ decode_payload page kind = Ok payload /\
       forall other, other <> kind -> is_err (decode_payload page other) = true) /\
  (4080 < Zlen payload -> is_err (encode_payload_page kind payload) = true).
Proof.
  split; intros Hl.
  - pose proof (encode_payload_page_Ok kind payload Hl) as He. eexists. split; [exact He|].
    destruct (payload_page_wf _ _ _ He) as [Hw _]. split.
    { destruct Hw as [Hlen _]. rewrite PAGE_SIZE_nat_eq in Hlen.
      match goal with |- Zlen ?p = _ => change (Z.of_nat (length p) = 4096) end.
      rewrite Hlen. reflexivity. }
    split; [by apply page_kind_wf|]. split; [by apply decode_encode_payload|].
    intros other Hne. unfold decode_payload. rewrite (validate_page_wf kind) by done. cbn [bind].
    rewrite (page_kind_wf kind) by done. cbn [bind]. by rewrite bool_decide_false by done.
  - unfold encode_payload_page, PAGE_SIZE, PAYLOAD_OFFSET.
    destruct (Z.ltb_spec (4096 - Z.of_nat 16) (Zlen payload)); [done|lia].
Qed.

Lemma payload_page_roundtrip_witness :
  (Zlen [1; 2; 3] <= 4080 ->
     exists page, encode_payload_page Leaf [1; 2; 3] = Ok page /\ Zlen page = PAGE_SIZE /\
       page_kind page = Ok Leaf /\ decode_payload page Leaf = Ok [1; 2; 3] /\
       forall other, other <> Leaf -> is_err (decode_payload page other) = true) /\
  (4080 < Zlen [1; 2; 3] -> is_err (encode_payload_page Leaf [1; 2; 3]) = true).
Proof. exact (payload_page_roundtrip Leaf [1; 2; 3]). Defined.
