(* ===== verification/Wal.v ===== *)
(** * The write-ahead log of the v2 engine: [src/storage/v2/wal.rs]

    The frame and commit records appended by a committing transaction, and the recovery
    scan that replays a possibly torn log. [recover_frames] walks the log with an offset;
    here the scan carries the unread suffix [rest = &bytes[offset..]], so that
    [bytes.len().saturating_sub(offset)] is [Zlen rest]. Every iteration consumes at
    least the record's tag byte: the fuel [S (length bytes)] is never exhausted. *)

From S2P Require Import Prelude V2Page.

Definition RECORD_FRAME : Z := 1.
Definition RECORD_COMMIT : Z := 2.

Record WalFrame := mkWalFrame {
  txn_id : Z;
  page_id : PageId;
  page_bytes : bytes
}.

#[export] Instance WalFrame_eq_dec : EqDecision WalFrame.
Proof. solve_decision. Defined.

Definition write_frame (out : bytes) (txn_id : Z) (page_id : PageId) (page : bytes) : Result bytes :=
  if negb (Zlen page =? PAGE_SIZE) then
    Err (Storage ("wal frames must contain exactly 4096 bytes"))
  else
    let out := out ++ [RECORD_FRAME] in
    let out := out ++ to_le 8 txn_id in
    let out := out ++ to_le 4 page_id in
    let out := out ++ to_le 4 (Zlen page) in
    let out := out ++ page in
    Ok out.

Definition write_commit (out : bytes) (txn_id : Z) (frame_count : Z) : Result bytes :=
  let out := out ++ [RECORD_COMMIT] in
  let out := out ++ to_le 8 txn_id in
  let out := out ++ to_le 4 frame_count in
  Ok out.

(** [HashMap<u64, Vec<WalFrame>>] *)
Abbreviation Pending := (gmap Z (list WalFrame)).

(** The [while offset < bytes.len()] loop; [break] returns [committed]. *)
Fixpoint recover_loop (fuel : nat) (rest : bytes) (pending : Pending)
    (committed : list WalFrame) : Result (list WalFrame) :=
  match fuel with
  | O => OutOfFuel
  | S fuel =>
    match rest with
    | [] => Ok committed
    | record_type :: rest =>
      if record_type =? RECORD_FRAME then
        if Zlen rest <? 8 + 4 + 4 then Ok committed
        else
          let txn_id := from_le (get_bytes rest 0 8) in
          let page_id := from_le (get_bytes rest 8 4) in
          let page_len := from_le (get_bytes rest 12 4) in
          let rest := drop 16 rest in
          if Zlen rest <? page_len then Ok committed
          else if negb (page_len =? PAGE_SIZE) then
            Err (Storage ("wal frame for page " ++ pretty page_id ++ " had " ++ pretty page_len
                          ++ " bytes instead of 4096"))
          else
            let page_bytes := take (Z.to_nat page_len) rest in
            let rest := drop (Z.to_nat page_len) rest in
            let frames := default [] (pending !! txn_id) in
            recover_loop fuel rest
              (<[txn_id := frames ++ [mkWalFrame txn_id page_id page_bytes]]> pending) committed
      else if record_type =? RECORD_COMMIT then
        if Zlen rest <? 8 + 4 then Ok committed
        else
          let txn_id := from_le (get_bytes rest 0 8) in
          let frame_count := from_le (get_bytes rest 8 4) in
          let rest := drop 12 rest in
          let committed :=
            match pending !! txn_id with
            | Some frames => if Zlen frames =? frame_count then committed ++ frames else committed
            | None => committed
            end in
          recover_loop fuel rest (delete txn_id pending) committed
      else
        Err (Storage ("unknown storage_v2 wal record type: " ++ pretty record_type))
    end
  end.

Definition recover_frames (bytes : bytes) : Result (list WalFrame) :=
  recover_loop (S (length bytes)) bytes ∅ [].

(** ** The abstract log *)

Inductive LogRecord :=
  | Frame (f : WalFrame)
  | Commit (txn_id : Z) (frame_count : Z).

Definition record_wf (r : LogRecord) : Prop :=
  match r with
  | Frame f => is_u64 (txn_id f) /\ is_u32 (page_id f) /\ Zlen (page_bytes f) = PAGE_SIZE
  | Commit t c => is_u64 t /\ is_u32 c
  end.

Definition append_record (out : bytes) (r : LogRecord) : Result bytes :=
  match r with
  | Frame f => write_frame out (txn_id f) (page_id f) (page_bytes f)
  | Commit t c => write_commit out t c
  end.

(** The bytes of a log, written record by record. *)
Fixpoint append_log (out : bytes) (log : list LogRecord) : Result bytes :=
  match log with
  | [] => Ok out
  | r :: log => let? out := append_record out r in append_log out log
  end.

(** The frames of transaction [t] written since its last commit record. *)
Definition open_frames (t : Z) (log : list LogRecord) : list WalFrame :=
  fold_left (fun acc r =>
    match r with
    | Frame f => if txn_id f =? t then acc ++ [f] else acc
    | Commit t' _ => if t' =? t then [] else acc
    end) log [].

(** What a log commits: at each commit record, the open frames of its transaction when
    their number is the recorded one. *)
Fixpoint committed_after (seen log : list LogRecord) : list WalFrame :=
  match log with
  | [] => []
  | r :: log =>
      match r with
      | Frame _ => []
      | Commit t c =>
          if (Zlen (open_frames t seen) =? c) then open_frames t seen else []
      end ++ committed_after (seen ++ [r]) log
  end.

Definition committed_frames (log : list LogRecord) : list WalFrame := committed_after [] log.

(** ** Encoding a record *)

Definition record_bytes (r : LogRecord) : bytes :=
  match r with
  | Frame f => RECORD_FRAME :: to_le 8 (txn_id f) ++ to_le 4 (page_id f) ++
                 to_le 4 (Zlen (page_bytes f)) ++ page_bytes f
  | Commit t c => RECORD_COMMIT :: to_le 8 t ++ to_le 4 c
  end.

Definition log_bytes (log : list LogRecord) : bytes := flat_map record_bytes log.

Arguments to_le : simpl never.
Arguments from_le : simpl never.
Arguments get_bytes : simpl never.
Arguments Z.of_nat : simpl never.

Lemma append_record_bytes out r :
  record_wf r -> append_record out r = Ok (out ++ record_bytes r).
Proof.
  destruct r as [f|t c]; cbn [append_record record_wf record_bytes].
  - intros (_ & _ & Hp). unfold write_frame. rewrite Hp, Z.eqb_refl. cbn [negb].
    by rewrite <- !app_assoc.
  - intros _. unfold write_commit. by rewrite <- !app_assoc.
Qed.

Lemma append_log_bytes log out :
  Forall record_wf log -> append_log out log = Ok (out ++ log_bytes log).
Proof.
  intros Hl. revert out. induction Hl as [|r log Hr Hl IH]; intros out; simpl.
  - by rewrite app_nil_r.
  - rewrite append_record_bytes by done. cbn [bind]. rewrite IH. unfold log_bytes. simpl.
    by rewrite <- app_assoc.
Qed.

Lemma log_bytes_app l1 l2 : log_bytes (l1 ++ l2) = log_bytes l1 ++ log_bytes l2.
Proof. apply flat_map_app. Qed.

Lemma log_bytes_take n log : (length (log_bytes (take n log)) <= length (log_bytes log))%nat.
Proof. rewrite <- (take_drop n log) at 2. rewrite log_bytes_app, length_app. lia. Qed.

(** The field of [n] bytes after a prefix. *)
Lemma get_bytes_app (pre field post : bytes) a n :
  a = length pre -> n = length field -> get_bytes (pre ++ field ++ post) a n = field.
Proof.
  intros -> ->. unfold get_bytes. by rewrite drop_app_length, take_app_length.
Qed.

Lemma get_bytes_app_l (field post : bytes) n :
  n = length field -> get_bytes (field ++ post) 0 n = field.
Proof. exact (get_bytes_app [] field post 0 n eq_refl). Qed.

(** The fields read back from a little-endian record. *)
Lemma field8 v : is_u64 v -> from_le (to_le 8 v) = v.
Proof. intros H. apply from_le_to_le_small. change (256 ^ Z.of_nat 8) with 18446744073709551616. width. Qed.

Lemma field4 v : is_u32 v -> from_le (to_le 4 v) = v.
Proof. intros H. apply from_le_to_le_small. change (256 ^ Z.of_nat 4) with 4294967296. width. Qed.

Lemma frame_fields t p n (b : bytes) :
  get_bytes (to_le 8 t ++ to_le 4 p ++ to_le 4 n ++ b) 0 8 = to_le 8 t /\
  get_bytes (to_le 8 t ++ to_le 4 p ++ to_le 4 n ++ b) 8 4 = to_le 4 p /\
  get_bytes (to_le 8 t ++ to_le 4 p ++ to_le 4 n ++ b) 12 4 = to_le 4 n /\
  drop 16 (to_le 8 t ++ to_le 4 p ++ to_le 4 n ++ b) = b.
Proof.
  split_and!.
  - by apply get_bytes_app_l.
  - by apply get_bytes_app.
  - rewrite (app_assoc (to_le 8 t)). by apply get_bytes_app.
  - rewrite (app_assoc (to_le 8 t)), app_assoc. by apply drop_app_length'.
Qed.

Lemma commit_fields t n (b : bytes) :
  get_bytes (to_le 8 t ++ to_le 4 n ++ b) 0 8 = to_le 8 t /\
  get_bytes (to_le 8 t ++ to_le 4 n ++ b) 8 4 = to_le 4 n /\
  drop 12 (to_le 8 t ++ to_le 4 n ++ b) = b.
Proof.
  split_and!.
  - by apply get_bytes_app_l.
  - by apply get_bytes_app.
  - rewrite app_assoc. by apply drop_app_length'.
Qed.

(** ** One iteration of the scan *)

Definition step_pending (r : LogRecord) (pending : Pending) : Pending :=
  match r with
  | Frame f => <[txn_id f := default [] (pending !! txn_id f) ++ [f]]> pending
  | Commit t _ => delete t pending
  end.

Definition step_committed (r : LogRecord) (pending : Pending) (committed : list WalFrame) :=
  match r with
  | Frame _ => committed
  | Commit t c =>
      match pending !! t with
      | Some frames => if Zlen frames =? c then committed ++ frames else committed
      | None => committed
      end
  end.

Lemma recover_loop_record fuel r rest pending committed :
  record_wf r ->
  recover_loop (S fuel) (record_bytes r ++ rest) pending committed =
  recover_loop fuel rest (step_pending r pending) (step_committed r pending committed).
Proof.
  intros Hr. destruct r as [[t p b]|t c]; cbn [record_wf txn_id page_id page_bytes] in Hr.
  - destruct Hr as (Ht & Hp & Hb).
    assert (Hb32 : is_u32 (Zlen b)) by (rewrite Hb; unfold PAGE_SIZE; width).
    cbn [record_bytes txn_id page_id page_bytes app recover_loop].
    rewrite <- !app_assoc. change (RECORD_FRAME =? RECORD_FRAME) with true. cbv iota.
    pose proof (Zlen_nonneg rest). pose proof (Zlen_nonneg b).
    rewrite !Zlen_app. unfold Zlen at 1 2 3. rewrite !length_to_le.
    destruct (Z.ltb_spec (Z.of_nat 8 + (Z.of_nat 4 + (Z.of_nat 4 + (Zlen b + Zlen rest)))) (8 + 4 + 4)) as [|_]; [lia|].
    destruct (frame_fields t p (Zlen b) (b ++ rest)) as (-> & -> & -> & ->).
    rewrite field8, !field4 by done.
    rewrite Zlen_app. destruct (Z.ltb_spec (Zlen b + Zlen rest) (Zlen b)) as [|_]; [lia|].
    rewrite Hb, Z.eqb_refl. cbn [negb]. cbv zeta. rewrite <- Hb.
    rewrite take_app_length', drop_app_length' by (unfold Zlen; lia). done.
  - destruct Hr as (Ht & Hc).
    cbn [record_bytes app recover_loop].
    rewrite <- !app_assoc. change (RECORD_COMMIT =? RECORD_FRAME) with false.
    change (RECORD_COMMIT =? RECORD_COMMIT) with true. cbv iota.
    pose proof (Zlen_nonneg rest).
    rewrite !Zlen_app. unfold Zlen at 1 2. rewrite !length_to_le.
    destruct (Z.ltb_spec (Z.of_nat 8 + (Z.of_nat 4 + Zlen rest)) (8 + 4)) as [|_]; [lia|].
    destruct (commit_fields t c rest) as (-> & -> & ->).
    rewrite field8, field4 by done.
    done.
Qed.

(** A record cut short ends the scan. *)
Lemma recover_loop_torn fuel r k pending committed :
  record_wf r -> (k < length (record_bytes r))%nat ->
  recover_loop (S fuel) (take k (record_bytes r)) pending committed = Ok committed.
Proof.
  intros Hr Hk. destruct k as [|k]; [done|].
  destruct r as [[t p b]|t c]; cbn [record_wf txn_id page_id page_bytes] in Hr.
  - destruct Hr as (Ht & Hp & Hb). assert (Hb32 : is_u32 (Zlen b)) by (rewrite Hb; unfold PAGE_SIZE; width).
    cbn [record_bytes txn_id page_id page_bytes take recover_loop] in *.
    change (RECORD_FRAME =? RECORD_FRAME) with true. cbv iota.
    assert (Hlen : length (to_le 8 t ++ to_le 4 p ++ to_le 4 (Zlen b) ++ b) = (16 + length b)%nat)
      by (rewrite !length_app, !length_to_le; lia).
    cbn [length] in Hk. rewrite Hlen in Hk.
    destruct (Z.ltb_spec (Zlen (take k (to_le 8 t ++ to_le 4 p ++ to_le 4 (Zlen b) ++ b))) (8 + 4 + 4)) as [|Hge]; [done|].
    unfold Zlen in Hge at 1. rewrite length_take, Hlen in Hge.
    rewrite !(app_assoc _ _ b), (app_assoc (to_le 8 t)).
    assert (H16 : length ((to_le 8 t ++ to_le 4 p) ++ to_le 4 (Zlen b)) = 16%nat)
      by (rewrite !length_app, !length_to_le; done).
    rewrite !take_app_ge by lia. rewrite <- !app_assoc.
    match goal with |- context [drop 16 (_ ++ _ ++ _ ++ ?b')] =>
      destruct (frame_fields t p (Zlen b) b') as (-> & -> & -> & ->) end.
    rewrite field4 by done. rewrite <- !app_assoc in H16.
    destruct (Z.ltb_spec (Zlen (take (k - length (to_le 8 t ++ to_le 4 p ++ to_le 4 (Zlen b))) b)) (Zlen b))
      as [|Hge2]; [done|].
    rewrite H16 in Hge2. unfold Zlen in Hge2. rewrite length_take in Hge2. lia.
  - cbn [record_bytes take recover_loop] in *.
    change (RECORD_COMMIT =? RECORD_FRAME) with false.
    change (RECORD_COMMIT =? RECORD_COMMIT) with true. cbv iota.
    cbn [length] in Hk. rewrite length_app, !length_to_le in Hk.
    destruct (Z.ltb_spec (Zlen (take k (to_le 8 t ++ to_le 4 c))) (8 + 4)) as [|Hge]; [done|].
    unfold Zlen in Hge. rewrite length_take, length_app, !length_to_le in Hge. lia.
Qed.

(** The scan's map holds, per transaction, its open frames. *)
Definition pending_agrees (seen : list LogRecord) (pending : Pending) : Prop :=
  forall t, default [] (pending !! t) = open_frames t seen.

Lemma open_frames_snoc t seen r :
  open_frames t (seen ++ [r]) =
  match r with
  | Frame f => if txn_id f =? t then open_frames t seen ++ [f] else open_frames t seen
  | Commit t' _ => if t' =? t then [] else open_frames t seen
  end.
Proof. unfold open_frames. by rewrite fold_left_app. Qed.

Lemma step_pending_agrees seen pending r :
  pending_agrees seen pending -> pending_agrees (seen ++ [r]) (step_pending r pending).
Proof.
  intros Hp t. rewrite open_frames_snoc. destruct r as [f|t' c]; simpl.
  - destruct (Z.eqb_spec (txn_id f) t) as [<-|Hne].
    + rewrite lookup_insert_eq. simpl. by rewrite Hp.
    + by rewrite lookup_insert_ne.
  - destruct (Z.eqb_spec t' t) as [<-|Hne].
    + by rewrite lookup_delete_eq.
    + by rewrite lookup_delete_ne.
Qed.

Lemma step_committed_agrees seen pending r committed :
  pending_agrees seen pending ->
  step_committed r pending committed =
  committed ++ match r with
               | Frame _ => []
               | Commit t c => if Zlen (open_frames t seen) =? c then open_frames t seen else []
               end.
Proof.
  intros Hp. destruct r as [f|t c]; simpl; [by rewrite app_nil_r|].
  specialize (Hp t). destruct (pending !! t) as [fs|]; simpl in Hp; rewrite <- Hp.
  - destruct (_ =? c); [done|by rewrite app_nil_r].
  - destruct (_ =? c); by rewrite app_nil_r.
Qed.

Lemma record_bytes_pos r : (1 <= length (record_bytes r))%nat.
Proof. destruct r; simpl; lia. Qed.

(** The scan of any prefix of a log, cut anywhere. *)
Lemma recover_loop_prefix log : Forall record_wf log ->
  forall k fuel seen pending committed, (k < fuel)%nat -> (k <= length (log_bytes log))%nat ->
  pending_agrees seen pending ->
  exists n, recover_loop fuel (take k (log_bytes log)) pending committed =
      Ok (committed ++ committed_after seen (take n log)) /\
    (length (log_bytes (take n log)) <= k)%nat /\
    (n <= length log)%nat /\
    ((n < length log)%nat -> (k < length (log_bytes (take (S n) log)))%nat).
Proof.
  induction 1 as [|r log Hr Hl IH]; intros k fuel seen pending committed Hf Hk Hp.
  - exists 0%nat. rewrite take_nil. destruct fuel; [lia|]. change (log_bytes []) with (@nil Z). rewrite take_nil.
    simpl. rewrite app_nil_r.
    split_and!; [done|lia..].
  - unfold log_bytes in *. simpl flat_map in *. rewrite length_app in Hk.
    pose proof (record_bytes_pos r) as Hpos.
    destruct fuel as [|fuel]; [lia|].
    destruct (decide (k < length (record_bytes r))%nat) as [Hlt|Hge].
    + exists 0%nat. rewrite take_app_le by lia. rewrite recover_loop_torn by done.
      simpl. rewrite !app_nil_r. split_and!; [done|lia..].
    + rewrite take_app_ge by lia. rewrite recover_loop_record by done.
      rewrite (step_committed_agrees seen) by done.
      destruct (IH (k - length (record_bytes r))%nat fuel (seen ++ [r]) (step_pending r pending)
        (committed ++ match r with
               | Frame _ => []
               | Commit t c => if Zlen (open_frames t seen) =? c then open_frames t seen else []
               end)) as (n & -> & H1 & H2 & H3); [lia|lia|by apply step_pending_agrees|].
      exists (S n). simpl. rewrite <- app_assoc. rewrite !length_app. split_and!; [done|lia|lia|].
      intros Hn. simpl in H3. destruct log as [|r' log]; simpl in *; lia.
Qed.

Lemma pending_agrees_empty : pending_agrees [] ∅.
Proof. intros t. by rewrite lookup_empty. Qed.

Lemma committed_after_app seen l1 l2 :
  committed_after seen (l1 ++ l2) = committed_after seen l1 ++ committed_after (seen ++ l1) l2.
Proof.
  revert seen. induction l1 as [|r l1 IH]; intros seen; simpl; [by rewrite app_nil_r|].
  rewrite IH, <- !app_assoc. done.
Qed.

Lemma recover_frames_prefix log k :
  Forall record_wf log -> (k <= length (log_bytes log))%nat ->
  exists n, recover_frames (take k (log_bytes log)) = Ok (committed_frames (take n log)) /\
    (length (log_bytes (take n log)) <= k)%nat /\ (n <= length log)%nat /\
    ((n < length log)%nat -> (k < length (log_bytes (take (S n) log)))%nat).
Proof.
  intros Hl Hk. unfold recover_frames.
  apply (recover_loop_prefix log Hl k _ [] ∅ []); [|done|apply pending_agrees_empty].
  rewrite length_take. lia.
Qed.

Lemma recover_frames_log log :
  Forall record_wf log -> recover_frames (log_bytes log) = Ok (committed_frames log).
Proof.
  intros Hl. destruct (recover_frames_prefix log (length (log_bytes log)) Hl) as (n & Hr & H1 & H2 & H3); [lia|].
  rewrite firstn_all in Hr. rewrite Hr. do 2 f_equal. apply take_ge.
  destruct (decide (n < length log)%nat) as [Hn|]; [|lia]. specialize (H3 Hn).
  pose proof (log_bytes_take (S n) log). lia.
Qed.

(** The transaction the v2 pager writes: its frames, then one commit record. *)
Definition txn_log (t : Z) (frames : list WalFrame) : list LogRecord :=
  map Frame frames ++ [Commit t (Zlen frames)].

Lemma open_frames_txn t frames seen :
  Forall (fun f => txn_id f = t) frames ->
  open_frames t (seen ++ map Frame frames) = open_frames t seen ++ frames.
Proof.
  intros Hf. revert seen. induction Hf as [|f fs Hf Hfs IH]; intros seen; simpl; [by rewrite !app_nil_r|].
  rewrite cons_middle, app_assoc, IH, open_frames_snoc, Hf, Z.eqb_refl.
  by rewrite <- app_assoc.
Qed.

Lemma committed_after_frames seen frames : committed_after seen (map Frame frames) = [].
Proof. revert seen. induction frames as [|f fs IH]; intros seen; simpl; [done|apply IH]. Qed.

Lemma txn_log_wf t frames :
  is_u64 t -> Zlen frames <= u32_max ->
  Forall (fun f => txn_id f = t /\ is_u32 (page_id f) /\ Zlen (page_bytes f) = PAGE_SIZE) frames ->
  Forall record_wf (txn_log t frames).
Proof.
  intros Ht Hn Hf. unfold txn_log. apply Forall_app. split.
  - apply Forall_map. eapply Forall_impl; [exact Hf|]. intros f (H1 & H2 & H3). simpl. by rewrite H1.
  - apply Forall_singleton. split; [done|]. pose proof (Zlen_nonneg frames). width.
Qed.

(** A transaction's records, appended to a log in which it has no open frames. *)
Lemma recover_appended log t frames :
  Forall record_wf log -> is_u64 t -> Zlen frames <= u32_max -> open_frames t log = [] ->
  Forall (fun f => txn_id f = t /\ is_u32 (page_id f) /\ Zlen (page_bytes f) = PAGE_SIZE) frames ->
  (forall k, (k < length (log_bytes (txn_log t frames)))%nat ->
     recover_frames (log_bytes log ++ take k (log_bytes (txn_log t frames))) = Ok (committed_frames log)) /\
  recover_frames (log_bytes log ++ log_bytes (txn_log t frames)) = Ok (committed_frames log ++ frames).
Proof.
  intros Hl Ht Hn Ho Hf. pose proof (txn_log_wf t frames Ht Hn Hf) as Hw.
  assert (Hall : Forall record_wf (log ++ txn_log t frames)) by by apply Forall_app.
  split.
  - intros k Hk. destruct (recover_frames_prefix (log ++ txn_log t frames) (length (log_bytes log) + k) Hall) as (n & Hr & H1 & H2 & H3).
    { rewrite log_bytes_app, length_app. lia. }
    rewrite log_bytes_app, take_app_add in Hr. rewrite Hr. f_equal.
    assert (Hnl : (n < length (log ++ txn_log t frames))%nat).
    { destruct (decide (n < length (log ++ txn_log t frames))%nat); [done|].
      rewrite take_ge in H1 by lia. rewrite log_bytes_app, length_app in H1. lia. }
    unfold committed_frames. destruct (decide (n < length log)%nat) as [Hlt|Hge].
    + exfalso. specialize (H3 Hnl). rewrite take_app_le in H3 by lia.
      pose proof (log_bytes_take (S n) log). lia.
    + rewrite take_app_ge by lia. rewrite committed_after_app. unfold txn_log in *.
      rewrite !length_app, length_map in Hnl. simpl in Hnl.
      rewrite take_app_le by (rewrite length_map; lia).
      rewrite firstn_map, committed_after_frames. by rewrite app_nil_r.
  - rewrite <- log_bytes_app, recover_frames_log by done. f_equal.
    unfold committed_frames, txn_log. rewrite !committed_after_app, committed_after_frames. simpl.
    rewrite open_frames_txn by (eapply Forall_impl; [exact Hf|]; by intros ? (? & _)).
    rewrite Ho, app_nil_l, Z.eqb_refl, app_nil_r. done.
Qed.

(** ... and the log of one transaction alone. *)
Lemma recover_txn t frames :
  is_u64 t -> Zlen frames <= u32_max ->
  Forall (fun f => txn_id f = t /\ is_u32 (page_id f) /\ Zlen (page_bytes f) = PAGE_SIZE) frames ->
  (forall k, (k < length (log_bytes (txn_log t frames)))%nat ->
     recover_frames (take k (log_bytes (txn_log t frames))) = Ok []) /\
  recover_frames (log_bytes (txn_log t frames)) = Ok frames.
Proof. intros Ht Hn Hf. by apply (recover_appended [] t frames). Qed.

(** Every log the scan accepts yields page images of exactly one page, and the scan of
    arbitrary bytes always ends in [Ok] or [Err]. *)
Definition pages_wf (frames : list WalFrame) : Prop :=
  Forall (fun f => Zlen (page_bytes f) = PAGE_SIZE) frames.

Lemma recover_loop_total fuel rest pending committed :
  (length rest < fuel)%nat -> map_Forall (fun _ fs => pages_wf fs) pending -> pages_wf committed ->
  match recover_loop fuel rest pending committed with
  | Ok frames => pages_wf frames
  | Err _ => True
  | _ => False
  end.
Proof.
  revert rest pending committed. induction fuel as [|fuel IH]; intros rest pending committed Hf Hp Hc; [lia|].
  simpl. destruct rest as [|ty rest]; [done|]. simpl in Hf.
  destruct (ty =? RECORD_FRAME); [|destruct (ty =? RECORD_COMMIT); [|done]].
  - destruct (_ <? _); [done|].
    destruct (Z.ltb_spec (Zlen (drop 16 rest)) (from_le (get_bytes rest 12 4))) as [|Hle]; [done|].
    destruct (Z.eqb_spec (from_le (get_bytes rest 12 4)) PAGE_SIZE) as [Heq|]; [|done]. simpl negb. cbv iota.
    apply IH; [rewrite !length_drop; lia| |done].
    apply map_Forall_insert_2; [|done]. apply Forall_app. split.
    + destruct (pending !! _) eqn:E; [|constructor]. by apply (Hp _ _ E).
    + apply Forall_singleton. cbn [page_bytes]. unfold Zlen in *. rewrite length_take.
      rewrite Heq in *. unfold PAGE_SIZE in *. lia.
  - destruct (_ <? _); [done|]. apply IH.
    + rewrite length_drop. lia.
    + by apply map_Forall_delete.
    + destruct (pending !! _) eqn:E; [|done]. destruct (_ =? _); [|done].
      apply Forall_app. split; [done|]. by apply (Hp _ _ E).
Qed.

(** ** Theorems *)

(** Recovery of a torn log. For a log of well-formed records written by [write_frame]
    and [write_commit] and cut after any number [k] of bytes, [recover_frames] succeeds and
    returns the frames committed by the records that survive whole: for each surviving
    commit record, the frames its transaction wrote since its last commit record,
    provided their number is the recorded one. *)
Theorem recover_torn_log (log : list LogRecord) (k : nat) :
  Forall record_wf log ->
  exists out, append_log [] log = Ok out /\
    ((k <= length out)%nat ->
     exists n prefix, append_log [] (take n log) = Ok prefix /\
       recover_frames (take k out) = Ok (committed_frames (take n log)) /\
       (length prefix <= k)%nat /\
       forall n' longer, (n < n')%nat -> (n' <= length log)%nat ->
         append_log [] (take n' log) = Ok longer -> (k < length longer)%nat).
Proof.
  intros Hl. exists (log_bytes log). rewrite append_log_bytes by done. split; [done|]. intros Hk.
  destruct (recover_frames_prefix log k Hl Hk) as (n & Hr & H1 & H2 & H3).
  exists n, (log_bytes (take n log)).
  rewrite append_log_bytes by by apply Forall_take. split_and!; [done|done|done|].
  intros n' longer Hn Hn' Ha. rewrite append_log_bytes in Ha by by apply Forall_take.
  apply Ok_inj in Ha. subst longer. simpl.
  specialize (H3 ltac:(lia)).
  rewrite <- (take_drop (S n) (take n' log)), take_take, Nat.min_l by lia.
  rewrite log_bytes_app, length_app. lia.
Qed.

(** Decidable well-formedness, so that concrete logs are checked by computation. *)
#[export] Instance record_wf_dec r : Decision (record_wf r).
Proof. destruct r; unfold record_wf; apply _. Defined.

Definition sample_page (b : Z) : bytes := replicate (Z.to_nat PAGE_SIZE) b.
Definition sample_log : list LogRecord :=
  [Frame (mkWalFrame 7 2 (sample_page 1)); Commit 7 1; Frame (mkWalFrame 8 3 (sample_page 2))].

Lemma recover_torn_log_witness :
  exists out, append_log [] sample_log = Ok out /\
    ((4129 <= length out)%nat ->
     exists n prefix, append_log [] (take n sample_log) = Ok prefix /\
       recover_frames (take 4129 out) = Ok (committed_frames (take n sample_log)) /\
       (length prefix <= 4129)%nat /\
       forall n' longer, (n < n')%nat -> (n' <= length sample_log)%nat ->
         append_log [] (take n' sample_log) = Ok longer -> (4129 < length longer)%nat).
Proof. apply (recover_torn_log sample_log 4129). by_compute. Defined.

(** Commits are atomic under crashes. When a transaction with no open frames in the
    log appends its frames and its commit record, a crash that leaves any strict prefix
    of those bytes recovers exactly what the log committed before, and once all of them
    are on disk recovery returns that and all the transaction's frames, in order. *)
Theorem commit_atomic (log : list LogRecord) (t : Z) (frames : list WalFrame) (before txn : bytes) :
  Forall record_wf log -> is_u64 t -> Zlen frames <= u32_max -> open_frames t log = [] ->
  Forall (fun f => txn_id f = t /\ is_u32 (page_id f) /\ Zlen (page_bytes f) = PAGE_SIZE) frames ->
  append_log [] log = Ok before -> append_log [] (txn_log t frames) = Ok txn ->
  append_log before (txn_log t frames) = Ok (before ++ txn) /\
  (forall k, (k < length txn)%nat ->
     recover_frames (before ++ take k txn) = Ok (committed_frames log)) /\
  recover_frames (before ++ txn) = Ok (committed_frames log ++ frames).
Proof.
  intros Hl Ht Hn Ho Hf Hb Hx. pose proof (txn_log_wf t frames Ht Hn Hf) as Hw.
  rewrite append_log_bytes in Hb, Hx by done. apply Ok_inj in Hb, Hx. simpl in Hb, Hx. subst before txn.
  split; [by apply append_log_bytes|]. by apply recover_appended.
Qed.

Definition sample_frames : list WalFrame := [mkWalFrame 9 4 (sample_page 5)].

Lemma commit_atomic_witness :
  append_log (log_bytes sample_log) (txn_log 9 sample_frames) =
    Ok (log_bytes sample_log ++ log_bytes (txn_log 9 sample_frames)) /\
  (forall k, (k < length (log_bytes (txn_log 9 sample_frames)))%nat ->
     recover_frames (log_bytes sample_log ++ take k (log_bytes (txn_log 9 sample_frames))) =
     Ok (committed_frames sample_log)) /\
  recover_frames (log_bytes sample_log ++ log_bytes (txn_log 9 sample_frames)) =
    Ok (committed_frames sample_log ++ sample_frames).
Proof.
  apply commit_atomic; [by_compute|by_compute|by_compute|reflexivity| | |].
  - apply Forall_singleton. split_and!; reflexivity || by_compute.
  - apply (append_log_bytes sample_log []). by_compute.
  - apply (append_log_bytes (txn_log 9 sample_frames) []). by_compute.
Defined.

(** Recovery is total. On any bytes at all, [recover_frames] returns frames of
    exactly one page each or an error: it neither panics nor loops. *)
Theorem recover_frames_total (log : bytes) :
  match recover_frames log with
  | Ok frames => pages_wf frames
  | Err _ => True
  | _ => False
  end.
Proof.
  apply recover_loop_total; [lia|apply map_Forall_empty|constructor].
Qed.
