(* ===== verification/TxTypes.v ===== *)
(** * Transaction data of the v2 engine: [src/storage/v2/tx_types.rs]

    The records kept per transaction, with [TransactionId] of [src/engine/txn.rs].
    Identifiers and timestamps are [u64] values, kept as integers. *)

From S2P Require Import Prelude Types Ast V2Page.

(** [TransactionId(u64)] *)
Abbreviation TransactionId := Z (only parsing).

Inductive TxnStatus := Active | Committed | Aborted.

#[export] Instance TxnStatus_eq_dec : EqDecision TxnStatus.
Proof. solve_decision. Defined.

Record TxnSnapshot := mkTxnSnapshot {
  visible_up_to : Z;
  active_txns : gset TransactionId
}.

Record PageWriteSetEntry := mkPageWriteSetEntry {
  entry_page_id : PageId;
  before_image : option bytes;
  after_image : bytes
}.

Inductive UndoRecord :=
  | UPageWrite (page_id : PageId)
  | UInsertRow (table : string) (row_id : RowId)
  | UDeleteRow (table : string) (row_id : RowId) (previous_bytes : bytes)
  | UIndexInsert (table index : string) (row_id : RowId) (key : list Value)
  | UIndexDelete (table index : string) (row_id : RowId) (key : list Value).

#[export] Instance UndoRecord_eq_dec : EqDecision UndoRecord.
Proof. solve_decision. Defined.

Record TxnWriteSet := mkTxnWriteSet {
  touched_pages : gset PageId;
  page_writes : list PageWriteSetEntry
}.

(** [TxnWriteSet::default()] *)
Definition write_set_default : TxnWriteSet := mkTxnWriteSet ∅ [].

Record TxnState := mkTxnState {
  id : TransactionId;
  isolation_level : IsolationLevel;
  status : TxnStatus;
  terminal_error : option string;
  start_ts : Z;
  commit_ts : option Z;
  snapshot : TxnSnapshot;
  write_set : TxnWriteSet;
  undo_records : list UndoRecord;
  purge_records : list UndoRecord
}.

(** Field updates of a transaction. *)
Definition with_status (x : TxnStatus) (t : TxnState) : TxnState :=
  {| id := id t; isolation_level := isolation_level t; status := x; terminal_error := terminal_error t;
     start_ts := start_ts t; commit_ts := commit_ts t; snapshot := snapshot t; write_set := write_set t;
     undo_records := undo_records t; purge_records := purge_records t |}.
Definition with_terminal_error (x : option string) (t : TxnState) : TxnState :=
  {| id := id t; isolation_level := isolation_level t; status := status t; terminal_error := x;
     start_ts := start_ts t; commit_ts := commit_ts t; snapshot := snapshot t; write_set := write_set t;
     undo_records := undo_records t; purge_records := purge_records t |}.
Definition with_commit_ts (x : option Z) (t : TxnState) : TxnState :=
  {| id := id t; isolation_level := isolation_level t; status := status t; terminal_error := terminal_error t;
     start_ts := start_ts t; commit_ts := x; snapshot := snapshot t; write_set := write_set t;
     undo_records := undo_records t; purge_records := purge_records t |}.
Definition with_snapshot (x : TxnSnapshot) (t : TxnState) : TxnState :=
  {| id := id t; isolation_level := isolation_level t; status := status t; terminal_error := terminal_error t;
     start_ts := start_ts t; commit_ts := commit_ts t; snapshot := x; write_set := write_set t;
     undo_records := undo_records t; purge_records := purge_records t |}.
Definition with_write_set (x : TxnWriteSet) (t : TxnState) : TxnState :=
  {| id := id t; isolation_level := isolation_level t; status := status t; terminal_error := terminal_error t;
     start_ts := start_ts t; commit_ts := commit_ts t; snapshot := snapshot t; write_set := x;
     undo_records := undo_records t; purge_records := purge_records t |}.
Definition with_undo_records (x : list UndoRecord) (t : TxnState) : TxnState :=
  {| id := id t; isolation_level := isolation_level t; status := status t; terminal_error := terminal_error t;
     start_ts := start_ts t; commit_ts := commit_ts t; snapshot := snapshot t; write_set := write_set t;
     undo_records := x; purge_records := purge_records t |}.
Definition with_purge_records (x : list UndoRecord) (t : TxnState) : TxnState :=
  {| id := id t; isolation_level := isolation_level t; status := status t; terminal_error := terminal_error t;
     start_ts := start_ts t; commit_ts := commit_ts t; snapshot := snapshot t; write_set := write_set t;
     undo_records := undo_records t; purge_records := x |}.
