(* ===== verification/Memory.v ===== *)
(** * The memory engine: [src/storage/memory.rs]

    [MemoryStorage] keeps schemas, rows, index entries and row id counters in maps, and for
    its one transaction an undo log: rolling back, whole or to a savepoint, applies the
    recorded operations in reverse. One definition per function of the file; the [RefCell]
    is borrowed once per call and never across calls, so it is left out. The keys of an
    index are compared by their values ([value_cmp_total_order]), so the [BTreeMap]s are
    finite maps, iterated in sorted order where the order can be observed. *)

From S2P Require Import Prelude Text Types Ast Floats Schema CheckValues CheckEval TxTypes.

#[export] Instance IndexMeta_eq_dec : EqDecision IndexMeta.
Proof. solve_decision. Defined.

(** ** State *)

Abbreviation Rows := (gmap RowId Row).

Record IndexState := mkIndexState {
  meta : IndexMeta;
  entries : gmap (list Value) (gset RowId)
}.

Abbreviation Indexes := (gmap string IndexState).

(** [Savepoint] *)
Record Savepoint := mkSavepoint {
  savepoint_name : string;
  undo_len : nat
}.

Inductive UndoOp {SelectStatement : Type} :=
  | DropSchema (schema_name : string)
  | DropIndex (schema_name index_name : string)
  | RestoreTable (schema : Schema SelectStatement) (rows : Rows) (indexes : Indexes) (next_row_id : option Z)
  | RestoreIndex (schema_name index_name : string) (index : IndexState)
  | DeleteRow (schema_name : string) (row_id : RowId)
  | ReinsertRow (schema_name : string) (row_id : RowId) (row : Row)
  | RestoreRow (schema_name : string) (row_id : RowId) (row : Row).
Arguments UndoOp : clear implicits.

Record ActiveTransaction {SelectStatement : Type} := mkActiveTransaction {
  active_id : TransactionId;
  undo_log : list (UndoOp SelectStatement);
  savepoints : list Savepoint
}.
Arguments ActiveTransaction : clear implicits.

(** [MemoryStorageInner] *)
Record MemoryStorage {SelectStatement : Type} := mkMemoryStorage {
  schemas : gmap string (Schema SelectStatement);
  rows : gmap string Rows;
  indexes : gmap string Indexes;
  next_row_ids : gmap string Z;
  next_txn_id : Z;
  active_txn : option (ActiveTransaction SelectStatement);
  user_version : Z;
  application_id : Z;
  schema_version : Z;
  ignore_check_constraints : bool;
  case_sensitive_like : bool
}.
Arguments MemoryStorage : clear implicits.

Definition set_entries x (ix : IndexState) : IndexState := mkIndexState (meta ix) x.
Definition set_meta x (ix : IndexState) : IndexState := mkIndexState x (entries ix).

Section Memory.
Context {SelectStatement : Type} `{Libm, JsonParser}.
Context (debug : list Value -> string) (now : Z + string).
Abbreviation Schema := (Schema SelectStatement).
Abbreviation UndoOp := (UndoOp SelectStatement).
Abbreviation ActiveTransaction := (ActiveTransaction SelectStatement).
Abbreviation MemoryStorage := (MemoryStorage SelectStatement).
Implicit Types m : MemoryStorage.

Definition set_schemas x m : MemoryStorage := mkMemoryStorage _ x (rows m) (indexes m) (next_row_ids m) (next_txn_id m) (active_txn m)
  (user_version m) (application_id m) (schema_version m) (ignore_check_constraints m) (case_sensitive_like m).
Definition set_rows x m : MemoryStorage := mkMemoryStorage _ (schemas m) x (indexes m) (next_row_ids m) (next_txn_id m) (active_txn m)
  (user_version m) (application_id m) (schema_version m) (ignore_check_constraints m) (case_sensitive_like m).
Definition set_indexes x m : MemoryStorage := mkMemoryStorage _ (schemas m) (rows m) x (next_row_ids m) (next_txn_id m) (active_txn m)
  (user_version m) (application_id m) (schema_version m) (ignore_check_constraints m) (case_sensitive_like m).
Definition set_next_row_ids x m : MemoryStorage := mkMemoryStorage _ (schemas m) (rows m) (indexes m) x (next_txn_id m) (active_txn m)
  (user_version m) (application_id m) (schema_version m) (ignore_check_constraints m) (case_sensitive_like m).
Definition set_active_txn x m : MemoryStorage := mkMemoryStorage _ (schemas m) (rows m) (indexes m) (next_row_ids m) (next_txn_id m) x
  (user_version m) (application_id m) (schema_version m) (ignore_check_constraints m) (case_sensitive_like m).
Definition set_next_txn_id x m : MemoryStorage := mkMemoryStorage _ (schemas m) (rows m) (indexes m) (next_row_ids m) x (active_txn m)
  (user_version m) (application_id m) (schema_version m) (ignore_check_constraints m) (case_sensitive_like m).

Definition set_user_version x m : MemoryStorage := mkMemoryStorage _ (schemas m) (rows m) (indexes m) (next_row_ids m) (next_txn_id m)
  (active_txn m) x (application_id m) (schema_version m) (ignore_check_constraints m) (case_sensitive_like m).
Definition set_application_id x m : MemoryStorage := mkMemoryStorage _ (schemas m) (rows m) (indexes m) (next_row_ids m) (next_txn_id m)
  (active_txn m) (user_version m) x (schema_version m) (ignore_check_constraints m) (case_sensitive_like m).
Definition set_schema_version x m : MemoryStorage := mkMemoryStorage _ (schemas m) (rows m) (indexes m) (next_row_ids m) (next_txn_id m)
  (active_txn m) (user_version m) (application_id m) x (ignore_check_constraints m) (case_sensitive_like m).
Definition set_ignore_check_constraints x m : MemoryStorage := mkMemoryStorage _ (schemas m) (rows m) (indexes m) (next_row_ids m)
  (next_txn_id m) (active_txn m) (user_version m) (application_id m) (schema_version m) x (case_sensitive_like m).
Definition set_case_sensitive_like x m : MemoryStorage := mkMemoryStorage _ (schemas m) (rows m) (indexes m) (next_row_ids m)
  (next_txn_id m) (active_txn m) (user_version m) (application_id m) (schema_version m) (ignore_check_constraints m) x.

(** [MemoryStorage::new] *)
Definition new : MemoryStorage := mkMemoryStorage _ ∅ ∅ ∅ ∅ 1 None 0 0 0 false false.

(** ** Helpers of [MemoryStorageInner] *)

Definition is_primary_key_backing_index (schema : Schema) (index : IndexMeta) (table : string) : bool :=
  match primary_key_constraint schema with
  | Some pk => String.prefix ("sqlite_autoindex_" ++ table ++ "_") (index_name index) && bool_decide (pk_columns pk = index_columns index)
  | None => false
  end.

Definition integer_primary_key_column_index (schema : Schema) : option nat :=
  if without_rowid schema then None
  else match filter (fun ic : nat * ColumnDef => primary_key ic.2) (imap pair (columns schema)) with
       | [(index, column)] =>
           match column_type column, primary_key_sort_order column with
           | CtInteger, Some Desc => None
           | CtInteger, _ => Some index
           | _, _ => None
           end
       | _ => None
       end.

(** [MemoryStorageInner::column_position] *)
Definition table_column_position (schema : Schema) (column : string) : Result nat :=
  ok_or (column_position column (columns schema)) (Storage ("unknown column " ++ column ++ " on table " ++ schema_name schema)%string).

Definition project_index_key (schema : Schema) (index : IndexMeta) (row : Row) : Result (list Value) :=
  mapM_res (fun column =>
    let? position := table_column_position schema column in
    ok_or (row !! position) (Storage ("row for table " ++ schema_name schema ++ " is missing column " ++ column)%string))
    (index_columns index).

Definition validate_transaction (txn_id : TransactionId) m : Result unit :=
  match active_txn m with
  | Some active =>
      if active_id active =? txn_id then Ok tt
      else Err (Txn ("transaction " ++ pretty txn_id ++ " is not active; current transaction is " ++ pretty (active_id active))%string)
  | None => Err (Txn "no active transaction")
  end.

Definition validate_snapshot_transaction (txn_id : option TransactionId) m : Result unit :=
  match txn_id, active_txn m with
  | Some id, Some active =>
      if id =? active_id active then Ok tt
      else Err (Txn ("transaction " ++ pretty id ++ " is not active; current transaction is " ++ pretty (active_id active))%string)
  | Some id, None => Err (Txn ("transaction " ++ pretty id ++ " is not active")%string)
  | None, Some _ => Err (Txn "metadata snapshot requires the active transaction id while a transaction is open")
  | None, None => Ok tt
  end.

Definition with_undo_log (log : list UndoOp) (a : ActiveTransaction) : ActiveTransaction :=
  mkActiveTransaction _ (active_id a) log (savepoints a).
Definition with_savepoints (sps : list Savepoint) (a : ActiveTransaction) : ActiveTransaction :=
  mkActiveTransaction _ (active_id a) (undo_log a) sps.

Definition record_undo (undo : UndoOp) : ST MemoryStorage unit :=
  st_mod (fun m => set_active_txn ((fun a => with_undo_log (undo_log a ++ [undo]) a) <$> active_txn m) m).

Definition unknown_table (table : string) : DbError := Storage ("unknown table: " ++ table)%string.
Definition require_schema (table : string) m : Result Schema := ok_or (schemas m !! table) (unknown_table table).

(** [*entry += 1] panics on overflow; the entry has been created by then. *)
Definition next_row_id (table : string) : ST MemoryStorage RowId :=
  st_mod (fun m => set_next_row_ids (<[table := default 1 (next_row_ids m !! table)]> (next_row_ids m)) m) ;;!
  let! row_id := st_read (fun m => default 1 (next_row_ids m !! table)) in
  let! next := st_get (fun _ => u64_add row_id 1) in
  st_mod (fun m => set_next_row_ids (<[table := next]> (next_row_ids m)) m) ;;!
  st_ret row_id.

(** The [and_modify] and [or_insert] that keep the counter above [row_id]. *)
Definition reserve_row_id (table : string) (row_id : RowId) : ST MemoryStorage unit :=
  let! next := st_get (fun _ => u64_add row_id 1) in
  st_mod (fun m => set_next_row_ids (<[table := match next_row_ids m !! table with Some n => Z.max n next | None => next end]>
    (next_row_ids m)) m).

(** ** Index maintenance *)

Definition unique_failed (index : IndexMeta) : DbError :=
  Storage ("unique index " ++ index_name index ++ " constraint failed")%string.

(** [entries.get(&key).is_some_and(|row_ids| !row_ids.is_empty())] *)
Definition taken (key : list Value) (ix : IndexState) : bool :=
  match entries ix !! key with Some row_ids => negb (bool_decide (row_ids = ∅)) | None => false end.

(** [entries.entry(key).or_default().insert(row_id)] *)
Definition add_entry (key : list Value) (row_id : RowId) (es : gmap (list Value) (gset RowId)) : gmap (list Value) (gset RowId) :=
  <[key := {[row_id]} ∪ default ∅ (es !! key)]> es.

(** The bodies of the loops over [indexes.values_mut()]. *)
Definition index_row (schema : Schema) (row_id : RowId) (row : Row) : ST IndexState unit :=
  let! key := st_get (fun ix => project_index_key schema (meta ix) row) in
  let! conflict := st_read (fun ix => enforces_unique_key (meta ix) key && taken key ix) in
  if (conflict : bool) then (let! index := st_read meta in st_err (unique_failed index))
  else st_mod (fun ix => set_entries (add_entry key row_id (entries ix)) ix).

Definition unindex_row (schema : Schema) (row_id : RowId) (row : Row) : ST IndexState unit :=
  let! key := st_get (fun ix => project_index_key schema (meta ix) row) in
  st_mod (fun ix =>
    match entries ix !! key with
    | Some row_ids =>
        let row_ids := row_ids ∖ {[row_id]} in
        set_entries (if bool_decide (row_ids = ∅) then delete key (entries ix) else <[key := row_ids]> (entries ix)) ix
    | None => ix
    end).

Definition rebuild_index (schema : Schema) (table_rows : Rows) : ST IndexState unit :=
  st_mod (set_entries ∅) ;;!
  st_each (fun ir : RowId * Row =>
    let! key := st_get (fun ix => project_index_key schema (meta ix) ir.2) in
    st_mod (fun ix => set_entries (add_entry key ir.1 (entries ix)) ix)) (sorted_items table_rows).

(** [body] on the index [name], in place. *)
Definition on_index (name : string) (body : ST IndexState unit) : ST Indexes unit := fun ixs =>
  match ixs !! name with
  | Some ix => let (r, ix) := body ix in (r, <[name := ix]> ixs)
  | None => (Ok tt, ixs)
  end.

(** [for index in indexes.values_mut() { body(index)? }] *)
Definition each_index (body : ST IndexState unit) : ST Indexes unit :=
  let! ixs := st_read sorted_by_name in
  st_each (fun nx : string * IndexState => on_index nx.1 body) ixs.

(** The loop, after [let Some(indexes) = self.indexes.get_mut(table) else { return Ok(()) }]. *)
Definition for_indexes (table : string) (body : ST IndexState unit) : ST MemoryStorage unit := fun m =>
  match indexes m !! table with
  | Some ixs => let (r, ixs) := each_index body ixs in (r, set_indexes (<[table := ixs]> (indexes m)) m)
  | None => (Ok tt, m)
  end.

Definition add_row_to_indexes (table : string) (row_id : RowId) (row : Row) : ST MemoryStorage unit :=
  let! schema := st_get (require_schema table) in
  for_indexes table (index_row schema row_id row).

Definition remove_row_from_indexes (table : string) (row_id : RowId) (row : Row) : ST MemoryStorage unit :=
  let! schema := st_get (require_schema table) in
  for_indexes table (unindex_row schema row_id row).

Definition rebuild_indexes_for_schema (table : string) (schema : Schema) (table_rows : Rows) : ST MemoryStorage unit :=
  for_indexes table (rebuild_index schema table_rows).

(** The check of one index in [validate_unique_index_constraints]. *)
Definition check_index_unique (schema : Schema) (row : Row) (ix : IndexState) : Result unit :=
  let? key := project_index_key schema (meta ix) row in
  if enforces_unique_key (meta ix) key && taken key ix then Err (unique_failed (meta ix)) else Ok tt.

Definition validate_unique_index_constraints (table : string) (row : Row) m : Result unit :=
  let? schema := require_schema table m in
  each_res (fun nx : string * IndexState =>
      if is_primary_key_backing_index schema (meta nx.2) table then Ok tt else check_index_unique schema row nx.2)
    (sorted_by_name (default ∅ (indexes m !! table))).

(** ** Undoing *)

Definition table_rows (table : string) m : Rows := default ∅ (rows m !! table).
Definition table_indexes (table : string) m : Indexes := default ∅ (indexes m !! table).

Definition put_schema (table : string) (schema : Schema) : ST MemoryStorage unit :=
  st_mod (fun m => set_schemas (<[table := schema]> (schemas m)) m).
Definition put_rows (table : string) (rs : Rows) : ST MemoryStorage unit :=
  st_mod (fun m => set_rows (<[table := rs]> (rows m)) m).
Definition put_indexes (table : string) (ixs : Indexes) : ST MemoryStorage unit :=
  st_mod (fun m => set_indexes (<[table := ixs]> (indexes m)) m).
Definition put_next_row_id (table : string) (next : option Z) : ST MemoryStorage unit :=
  match next with
  | Some next => st_mod (fun m => set_next_row_ids (<[table := next]> (next_row_ids m)) m)
  | None => st_ret tt
  end.

Definition remove_table (table : string) : ST MemoryStorage unit :=
  st_mod (fun m => set_schemas (delete table (schemas m)) m) ;;!
  st_mod (fun m => set_rows (delete table (rows m)) m) ;;!
  st_mod (fun m => set_indexes (delete table (indexes m)) m) ;;!
  st_mod (fun m => set_next_row_ids (delete table (next_row_ids m)) m).

(** [rows.entry(table).or_default().insert(row_id, row)] *)
Definition store_row (table : string) (row_id : RowId) (row : Row) : ST MemoryStorage unit :=
  st_mod (fun m => set_rows (<[table := <[row_id := row]> (table_rows table m)]> (rows m)) m).
(** [rows.get_mut(table).and_then(|rows| rows.remove(&row_id))] *)
Definition take_row (table : string) (row_id : RowId) : ST MemoryStorage (option Row) :=
  let! removed := st_read (fun m => table_rows table m !! row_id) in
  st_mod (fun m => set_rows (alter (delete row_id) table (rows m)) m) ;;!
  st_ret removed.
(** [rows.get_mut(table).and_then(|rows| rows.insert(row_id, row))] *)
Definition swap_row (table : string) (row_id : RowId) (row : Row) : ST MemoryStorage (option Row) :=
  let! replaced := st_read (fun m => table_rows table m !! row_id) in
  st_mod (fun m => set_rows (alter <[row_id := row]> table (rows m)) m) ;;!
  st_ret replaced.

(** [if let Some(row) = removed { self.remove_row_from_indexes(table, row_id, &row)? }] *)
Definition unindex_removed (table : string) (row_id : RowId) (removed : option Row) : ST MemoryStorage unit :=
  match removed with Some row => remove_row_from_indexes table row_id row | None => st_ret tt end.

Definition apply_undo (undo : UndoOp) : ST MemoryStorage unit :=
  match undo with
  | DropSchema table => remove_table table
  | DropIndex table name => st_mod (fun m => set_indexes (alter (delete name) table (indexes m)) m)
  | RestoreTable schema rs ixs next =>
      let table := schema_name schema in
      put_schema table schema ;;! put_rows table rs ;;! put_indexes table ixs ;;! put_next_row_id table next
  | RestoreIndex table name index =>
      st_mod (fun m => set_indexes (<[table := <[name := index]> (table_indexes table m)]> (indexes m)) m)
  | DeleteRow table row_id =>
      let! removed := take_row table row_id in
      unindex_removed table row_id removed
  | ReinsertRow table row_id row =>
      store_row table row_id row ;;!
      reserve_row_id table row_id ;;!
      add_row_to_indexes table row_id row
  | RestoreRow table row_id row =>
      let! replaced := swap_row table row_id row in
      unindex_removed table row_id replaced ;;!
      reserve_row_id table row_id ;;!
      add_row_to_indexes table row_id row
  end.

(** ** [CatalogStore] *)

(** The record of a table as it is, which several operations begin with. *)
Definition record_table (schema : Schema) (table : string) : ST MemoryStorage unit :=
  let! undo := st_read (fun m => RestoreTable schema (table_rows table m) (table_indexes table m) (next_row_ids m !! table)) in
  record_undo undo.

Definition create_schema (txn_id : TransactionId) (schema : Schema) : ST MemoryStorage unit :=
  let table := schema_name schema in
  st_get (validate_transaction txn_id) ;;!
  let! known := st_read (fun m => schemas m !! table) in
  match known with
  | Some _ => st_err (Storage ("table already exists: " ++ table)%string)
  | None =>
      record_undo (DropSchema table) ;;!
      put_schema table schema ;;!
      st_mod (fun m => set_rows (<[table := table_rows table m]> (rows m)) m) ;;!
      st_mod (fun m => set_indexes (<[table := table_indexes table m]> (indexes m)) m) ;;!
      st_mod (fun m => set_next_row_ids (<[table := default 1 (next_row_ids m !! table)]> (next_row_ids m)) m)
  end.

Definition drop_schema (txn_id : TransactionId) (name : string) : ST MemoryStorage unit :=
  st_get (validate_transaction txn_id) ;;!
  let! schema := st_get (require_schema name) in
  let! undo := st_read (fun m => RestoreTable schema (table_rows name m) (table_indexes name m) (next_row_ids m !! name)) in
  remove_table name ;;!
  record_undo undo.

Definition replace_schema (txn_id : TransactionId) (schema : Schema) : ST MemoryStorage unit :=
  let table := schema_name schema in
  st_get (validate_transaction txn_id) ;;!
  let! old_schema := st_get (require_schema table) in
  record_table old_schema table ;;!
  put_schema table schema.

(** The loop over [affected_schemas], whose order is that of a [HashMap]: each round
    concerns one table only. *)
Definition change_affected (change : Schema -> Schema) (affected : string * Schema) : ST MemoryStorage unit :=
  record_table affected.2 affected.1 ;;!
  st_mod (fun m => set_schemas (alter change affected.1 (schemas m)) m).

Definition affected_schemas (table : string) (refers : ForeignKey -> bool) m : list (string * Schema) :=
  filter (fun ns : string * Schema => ns.1 <> table /\ existsb refers (all_foreign_keys ns.2) = true) (sorted_by_name (schemas m)).

Definition rename_schema (txn_id : TransactionId) (old_name new_name : string) : ST MemoryStorage unit :=
  st_get (validate_transaction txn_id) ;;!
  let! known := st_read (fun m => schemas m !! new_name) in
  match known with
  | Some _ => st_err (Storage ("table already exists: " ++ new_name)%string)
  | None =>
      let! schema := st_get (require_schema old_name) in
      let! old_rows := st_read (table_rows old_name) in
      let! old_indexes := st_read (table_indexes old_name) in
      let! old_next_row_id := st_read (fun m => next_row_ids m !! old_name) in
      remove_table old_name ;;!
      record_undo (RestoreTable schema old_rows old_indexes old_next_row_id) ;;!
      record_undo (DropSchema new_name) ;;!
      put_schema new_name (with_schema_name new_name schema) ;;!
      put_rows new_name old_rows ;;!
      put_indexes new_name old_indexes ;;!
      put_next_row_id new_name old_next_row_id ;;!
      let! affected := st_read (affected_schemas new_name (fun fk => String.eqb (ref_table fk) old_name)) in
      st_each (change_affected (rename_foreign_key_ref_table old_name new_name)) affected ;;!
      st_mod (fun m => set_schemas (alter (rename_foreign_key_ref_table old_name new_name) new_name (schemas m)) m)
  end.

(** The round of the loop that normalises and checks the rows of [add_column]. *)
Definition extend_row (updated : Schema) (value : Value) (like_mode : bool) (ir : RowId * Row) : Result (RowId * Row) :=
  let? candidate := normalize_strict_row_values updated (ir.2 ++ [value]) in
  validate_row_values updated candidate ;;?
  validate_check_constraints_with_like_mode updated candidate like_mode ;;?
  Ok (ir.1, candidate).

(** [for (row_id, row) in normalized_rows { rows.insert(row_id, row); }] *)
Definition insert_rows (normalized : list (RowId * Row)) (rs : Rows) : Rows :=
  fold_left (fun rs ir => <[ir.1 := ir.2]> rs) normalized rs.

Definition add_column (txn_id : TransactionId) (table : string) (column : ColumnDef) : ST MemoryStorage unit :=
  st_get (validate_transaction txn_id) ;;!
  let! schema := st_get (require_schema table) in
  if has_column schema (column_name column) then
    st_err (Storage ("column already exists on table " ++ table ++ ": " ++ column_name column)%string)
  else
    let! value := st_get (fun _ => match default_value column with Some d => evaluate now d | None => Ok Null end) in
    let updated := with_columns (columns schema ++ [column]) schema in
    st_get (fun _ => validate_constraints_metadata updated) ;;!
    let! normalized := st_get (fun m => mapM_res (extend_row updated value (case_sensitive_like m)) (sorted_items (table_rows table m))) in
    record_table schema table ;;!
    put_schema table updated ;;!
    st_mod (fun m => set_rows (alter (insert_rows normalized) table (rows m)) m).

(** The renaming of the columns of an index. *)
Definition rename_index_column (old_name new_name : string) (ix : IndexState) : IndexState :=
  set_meta (mkIndexMeta (index_name (meta ix)) (map (rename old_name new_name) (index_columns (meta ix)))
              (decorated_columns (meta ix)) (index_unique (meta ix)) (predicate (meta ix))) ix.

Definition rename_column (txn_id : TransactionId) (table old_name new_name : string) : ST MemoryStorage unit :=
  st_get (validate_transaction txn_id) ;;!
  let! schema := st_get (require_schema table) in
  if negb (has_column schema old_name) then st_err (Storage ("unknown column " ++ old_name ++ " on table " ++ table)%string)
  else if has_column schema new_name then
    st_err (Storage ("column already exists on table " ++ table ++ ": " ++ new_name)%string)
  else
    record_table schema table ;;!
    let updated := rename_foreign_key_ref_column table old_name new_name (rename_column_references old_name new_name schema) in
    st_get (fun _ => validate_constraints_metadata updated) ;;!
    put_schema table updated ;;!
    st_mod (fun m => set_indexes (alter (fmap (rename_index_column old_name new_name)) table (indexes m)) m) ;;!
    let! affected := st_read (affected_schemas table (fun fk => String.eqb (ref_table fk) table && has_referenced_column fk old_name)) in
    st_each (change_affected (rename_foreign_key_ref_column table old_name new_name)) affected.

(** [row.remove(removed_index)] in every row *)
Definition drop_row_value (removed_index : nat) (ir : RowId * Row) : Result (RowId * Row) :=
  let? row := vec_remove ir.2 removed_index in Ok (ir.1, row).

Definition drop_table_column (txn_id : TransactionId) (table old_name : string) : ST MemoryStorage unit :=
  st_get (validate_transaction txn_id) ;;!
  let! schema := st_get (require_schema table) in
  let! (updated, removed_index) := st_get (fun _ => drop_column old_name schema) in
  record_table schema table ;;!
  let! updated_rows := st_get (fun m => mapM_res (drop_row_value removed_index) (sorted_items (table_rows table m))) in
  put_schema table updated ;;!
  put_rows table (list_to_map updated_rows) ;;!
  rebuild_indexes_for_schema table updated (list_to_map updated_rows).

Definition get_schema (txn_id : TransactionId) (name : string) m : Result (option Schema) :=
  validate_transaction txn_id m ;;? Ok (schemas m !! name).

(** In the code's order, that of a [HashMap], no order is promised. *)
Definition list_schemas (txn_id : TransactionId) m : Result (list Schema) :=
  validate_transaction txn_id m ;;? Ok (map snd (map_to_list (schemas m))).

(** ** [TableStore] *)

Definition missing_values (operation table : string) (schema : Schema) (row : Row) : DbError :=
  Storage (operation ++ table ++ " expected " ++ pretty (length (columns schema)) ++ " values but got " ++ pretty (length row))%string.

(** The row id an INTEGER PRIMARY KEY gives a row, which gets [fallback] in place of a null;
    both [insert_row] and [update_row] choose it so. *)
Definition choose_row_id (schema : Schema) (row : Row) (fallback : ST MemoryStorage RowId) : ST MemoryStorage (RowId * Row) :=
  match integer_primary_key_column_index schema with
  | Some index =>
      match row !! index with
      | Some (Integer value) =>
          if 0 <=? value then st_ret (value, row) else st_err (Storage "sqlite rowid must be a non-negative INTEGER")
      | Some Null =>
          let! row_id := fallback in
          if row_id <=? i64_max then st_ret (row_id, <[index := Integer row_id]> row)
          else st_err (Storage "sqlite rowid does not fit in i64")
      | Some value => st_err (Storage ("sqlite rowid column must be INTEGER, got " ++ type_name value)%string)
      | None => st_err (Storage "sqlite row is missing rowid column")
      end
  | None => let! row_id := fallback in st_ret (row_id, row)
  end.

(** The checks of a row; [others] are the rows its primary key is compared with. *)
Definition check_row (schema : Schema) (row : Row) (others : list Row) m : Result unit :=
  validate_row_values schema row ;;?
  (if ignore_check_constraints m then Ok tt else validate_check_constraints_with_like_mode schema row (case_sensitive_like m)) ;;?
  validate_primary_key_uniqueness value_display debug schema row others.

Definition insert_row (txn_id : TransactionId) (table : string) (row : Row) : ST MemoryStorage RowId :=
  st_get (validate_transaction txn_id) ;;!
  let! schema := st_get (require_schema table) in
  if negb (length row =? length (columns schema))%nat then st_err (missing_values "insert into " table schema row)
  else
    let! (row_id, row) := choose_row_id schema row (next_row_id table) in
    st_get (fun m => check_row schema row (map snd (sorted_items (table_rows table m))) m) ;;!
    st_get (validate_unique_index_constraints table row) ;;!
    store_row table row_id row ;;!
    add_row_to_indexes table row_id row ;;!
    record_undo (DeleteRow table row_id) ;;!
    st_ret row_id.

Definition get_row (txn_id : TransactionId) (table : string) (row_id : RowId) m : Result (option Row) :=
  validate_transaction txn_id m ;;? Ok (table_rows table m !! row_id).

Definition scan_rows (txn_id : TransactionId) (table : string) m : Result (list (RowId * Row)) :=
  validate_transaction txn_id m ;;? Ok (sorted_items (table_rows table m)).

Definition delete_row (txn_id : TransactionId) (table : string) (row_id : RowId) : ST MemoryStorage unit :=
  st_get (validate_transaction txn_id) ;;!
  let! removed := take_row table row_id in
  match removed with
  | Some row =>
      remove_row_from_indexes table row_id row ;;!
      record_undo (ReinsertRow table row_id row)
  | None => st_ret tt
  end.

(** The check of one index in [update_row]: a row does not conflict with itself. *)
Definition check_update_unique (schema : Schema) (row_id : RowId) (row : Row) (ix : IndexState) : Result unit :=
  let? key := project_index_key schema (meta ix) row in
  if enforces_unique_key (meta ix) key && negb (bool_decide (default ∅ (entries ix !! key) ∖ {[row_id]} = ∅))
  then Err (unique_failed (meta ix)) else Ok tt.

(** The changes of [update_row], once the row has passed the checks. *)
Definition move_row (table : string) (row_id target_row_id : RowId) (row existing_row : Row) : ST MemoryStorage unit :=
  remove_row_from_indexes table row_id existing_row ;;!
  let! rs := st_read (table_rows table) in
  if negb (target_row_id =? row_id) && bool_decide (is_Some (rs !! target_row_id)) then
    st_err (Storage ("duplicate rowid " ++ pretty target_row_id ++ " on table " ++ table)%string)
  else
    st_mod (fun m => set_rows (alter (delete row_id) table (rows m)) m) ;;!
    store_row table target_row_id row ;;!
    reserve_row_id table target_row_id ;;!
    add_row_to_indexes table target_row_id row ;;!
    record_undo (RestoreRow table row_id existing_row).

Definition update_row (txn_id : TransactionId) (table : string) (row_id : RowId) (row : Row) : ST MemoryStorage unit :=
  st_get (validate_transaction txn_id) ;;!
  let! schema := st_get (require_schema table) in
  if negb (length row =? length (columns schema))%nat then st_err (missing_values "update " table schema row)
  else
    let! found := st_read (fun m => table_rows table m !! row_id) in
    match found with
    | None => st_ret tt
    | Some existing_row =>
        let! (target_row_id, row) := choose_row_id schema row (st_ret row_id) in
        if bool_decide (existing_row = row) && (target_row_id =? row_id) then st_ret tt
        else
          st_get (fun m => check_row schema row (map snd (filter (fun ir : RowId * Row => ir.1 <> row_id) (sorted_items (table_rows table m)))) m) ;;!
          st_get (fun m => each_res (fun nx : string * IndexState => check_update_unique schema row_id row nx.2)
                             (sorted_by_name (table_indexes table m))) ;;!
          move_row table row_id target_row_id row existing_row
    end.

(** ** [IndexStore] *)

(** The loop that fills a new index. *)
Fixpoint build_entries (schema : Schema) (index : IndexMeta) (rs : list (RowId * Row)) (es : gmap (list Value) (gset RowId))
    : Result (gmap (list Value) (gset RowId)) :=
  match rs with
  | [] => Ok es
  | (row_id, row) :: rs =>
      let? key := project_index_key schema index row in
      if enforces_unique_key index key && taken key (mkIndexState index es) then Err (unique_failed index)
      else build_entries schema index rs (add_entry key row_id es)
  end.

Definition create_index (txn_id : TransactionId) (table : string) (index : IndexMeta) : ST MemoryStorage unit :=
  st_get (validate_transaction txn_id) ;;!
  let! schema := st_get (require_schema table) in
  let! known := st_read (fun m => table_indexes table m !! index_name index) in
  match known with
  | Some _ => st_err (Storage ("index already exists: " ++ index_name index)%string)
  | None =>
      if bool_decide (index_columns index = []) then st_err (Storage ("index " ++ index_name index ++ " has no columns")%string)
      else
        let! es := st_get (fun m => build_entries schema index (sorted_items (table_rows table m)) ∅) in
        record_undo (DropIndex table (index_name index)) ;;!
        st_mod (fun m => set_indexes (<[table := <[index_name index := mkIndexState index es]> (table_indexes table m)]> (indexes m)) m)
  end.

Definition unknown_index (index table : string) : DbError := Storage ("unknown index " ++ index ++ " on table " ++ table)%string.
Definition require_index (table name : string) m : Result IndexState := ok_or (table_indexes table m !! name) (unknown_index name table).

Definition drop_index (txn_id : TransactionId) (table name : string) : ST MemoryStorage unit :=
  st_get (validate_transaction txn_id) ;;!
  let! removed := st_get (require_index table name) in
  st_mod (fun m => set_indexes (alter (delete name) table (indexes m)) m) ;;!
  record_undo (RestoreIndex table name removed).

Definition get_index (txn_id : TransactionId) (table name : string) m : Result (option IndexMeta) :=
  validate_transaction txn_id m ;;? Ok (meta <$> table_indexes table m !! name).

Definition list_indexes (txn_id : TransactionId) (table : string) m : Result (list IndexMeta) :=
  validate_transaction txn_id m ;;? Ok (map (fun nx => meta nx.2) (sorted_by_name (table_indexes table m))).

Definition lookup_index (txn_id : TransactionId) (table name : string) (key : list Value) m : Result (list RowId) :=
  validate_transaction txn_id m ;;?
  let? index := require_index table name m in
  Ok (sorted_elements (default ∅ (entries index !! key))).

(** The row ids of the entries whose key passes a test, as the [BTreeSet] collects them. *)
Definition collect (test : list Value -> bool) (index : IndexState) : list RowId :=
  sorted_elements (⋃ map snd (filter (fun ke : list Value * gset RowId => test ke.1 = true) (map_to_list (entries index)))).

Definition scan_index_prefix (txn_id : TransactionId) (table name : string) (key_prefix : list Value) m : Result (list RowId) :=
  validate_transaction txn_id m ;;?
  let? index := require_index table name m in
  if (length (index_columns (meta index)) <? length key_prefix)%nat then
    Err (Storage ("index " ++ index_name (meta index) ++ " expected at most " ++ pretty (length (index_columns (meta index)))
                  ++ " key values but got " ++ pretty (length key_prefix))%string)
  else Ok (collect (fun key => bool_decide (key_prefix `prefix_of` key)) index).

Definition compare_values (lhs rhs : Value) : option comparison :=
  match lhs, rhs with
  | Null, Null => Some Eq
  | Boolean lhs, Boolean rhs => Some (bool_cmp lhs rhs)
  | Integer lhs, Integer rhs => Some (lhs ?= rhs)
  | Text lhs, Text rhs => Some (str_cmp lhs rhs)
  | _, _ => None
  end.

Definition matches_compare (lhs : Value) (op : CompareOp) (rhs : Value) : bool :=
  match op with
  | OpEq => value_eqb lhs rhs
  | OpNe => negb (value_eqb lhs rhs)
  | OpGt => bool_decide (compare_values lhs rhs = Some Gt)
  | OpGte => match compare_values lhs rhs with Some (Gt | Eq) => true | _ => false end
  | OpLt => bool_decide (compare_values lhs rhs = Some Lt)
  | OpLte => match compare_values lhs rhs with Some (Lt | Eq) => true | _ => false end
  end.

Definition matches_bounds (candidate : Value) (lower upper : option (CompareOp * Value)) : bool :=
  let holds bound := match bound with Some (op, value) => matches_compare candidate op value | None => true end in
  holds lower && holds upper.

Definition scan_index_range (txn_id : TransactionId) (table name : string) (key_prefix : list Value)
    (lower upper : option (CompareOp * Value)) m : Result (list RowId) :=
  validate_transaction txn_id m ;;?
  let? index := require_index table name m in
  if (length (index_columns (meta index)) <=? length key_prefix)%nat then
    Err (Storage ("index " ++ index_name (meta index) ++ " has no range column after prefix of length " ++ pretty (length key_prefix))%string)
  else Ok (collect (fun key =>
         bool_decide (key_prefix `prefix_of` key) &&
         match key !! length key_prefix with Some candidate => matches_bounds candidate lower upper | None => false end) index).

(** ** [TransactionManager] *)

Definition begin : ST MemoryStorage TransactionId :=
  let! active := st_read active_txn in
  match active with
  | Some active => st_err (Txn ("transaction " ++ pretty (active_id active) ++ " is already active")%string)
  | None =>
      let! txn_id := st_read next_txn_id in
      let! next := st_get (fun _ => u64_add txn_id 1) in
      st_mod (set_next_txn_id next) ;;!
      st_mod (set_active_txn (Some (mkActiveTransaction _ txn_id [] []))) ;;!
      st_ret txn_id
  end.

Definition commit (txn_id : TransactionId) : ST MemoryStorage unit :=
  st_get (validate_transaction txn_id) ;;!
  st_mod (set_active_txn None).

Definition rollback (txn_id : TransactionId) : ST MemoryStorage unit :=
  let! active := st_read active_txn in
  match active with
  | None => st_err (Txn "no active transaction")
  | Some active =>
      if negb (active_id active =? txn_id) then st_err (Txn ("transaction " ++ pretty txn_id ++ " is not active")%string)
      else
        st_mod (set_active_txn None) ;;!
        st_each apply_undo (rev (undo_log active))
  end.

(** The last savepoint of a name, and its position: [rposition]. *)
Definition same_name (a b : string) : bool := eq_ignore_ascii_case (string_bytes a) (string_bytes b).
Fixpoint find_savepoint (name : string) (i : nat) (sps : list Savepoint) : option (nat * Savepoint) :=
  match sps with
  | [] => None
  | sp :: sps =>
      match find_savepoint name (S i) sps with
      | Some found => Some found
      | None => if same_name (savepoint_name sp) name then Some (i, sp) else None
      end
  end.

Definition mod_active (f : ActiveTransaction -> ActiveTransaction) : ST MemoryStorage unit :=
  st_mod (fun m => set_active_txn (f <$> active_txn m) m).
Definition active_savepoints m : list Savepoint := match active_txn m with Some a => savepoints a | None => [] end.
Definition active_undo_log m : list UndoOp := match active_txn m with Some a => undo_log a | None => [] end.

Definition savepoint (txn_id : TransactionId) (name : string) : ST MemoryStorage unit :=
  st_get (validate_transaction txn_id) ;;!
  mod_active (fun a => with_savepoints (savepoints a ++ [mkSavepoint name (length (undo_log a))]) a).

Definition no_such_savepoint (name : string) : DbError := Txn ("no such savepoint: " ++ name)%string.

(** [split_off] panics beyond the length, which [take] and [drop] do not. *)
Definition rollback_to_savepoint (txn_id : TransactionId) (name : string) : ST MemoryStorage unit :=
  st_get (validate_transaction txn_id) ;;!
  let! (savepoint_index, sp) := st_get (fun m => ok_or (find_savepoint name 0 (active_savepoints m)) (no_such_savepoint name)) in
  let! undo_records := st_get (fun m =>
    let log := active_undo_log m in
    if (undo_len sp <=? length log)%nat then Ok (drop (undo_len sp) log) else Panic "`at` split index should be <= len") in
  mod_active (fun a => with_savepoints (take (S savepoint_index) (savepoints a)) (with_undo_log (take (undo_len sp) (undo_log a)) a)) ;;!
  st_each apply_undo (rev undo_records).

Definition release_savepoint (txn_id : TransactionId) (name : string) : ST MemoryStorage unit :=
  st_get (validate_transaction txn_id) ;;!
  let! (savepoint_index, _) := st_get (fun m => ok_or (find_savepoint name 0 (active_savepoints m)) (no_such_savepoint name)) in
  mod_active (fun a => with_savepoints (take savepoint_index (savepoints a)) a).

(** ** [PlanningStorageEngine] *)

Definition planning_context (txn_id : option TransactionId) m : Result (gmap string Schema * gmap string (list IndexMeta)) :=
  validate_snapshot_transaction txn_id m ;;?
  Ok (schemas m, (fun by_name => map (fun nx => meta nx.2) (sorted_by_name by_name)) <$> indexes m).
End Memory.
