(* ===== verification/MemoryIndex.v ===== *)
(** * Tables of the memory engine: what their indexes hold

    A table is well-formed when each row has a value for each column and the id its
    INTEGER PRIMARY KEY says, and each index has exactly the rows of each key. The entries
    of an index are then determined by the rows, and indexing, unindexing and rebuilding
    keep them so. *)

From S2P Require Import Prelude Text Types Ast Floats Schema SchemaLaws CheckValues CheckEval TxTypes Memory.

(** ** Keys *)

(** The values of the columns [names] of a row. *)
Definition key_at (cols : list ColumnDef) (names : list string) (row : Row) : option (list Value) :=
  mapM (fun name => position ← column_position name cols; row !! position) names.

Lemma project_key {SelectStatement} (s : Schema SelectStatement) index row key :
  project_index_key s index row = Ok key <-> key_at (columns s) (index_columns index) row = Some key.
Proof.
  unfold project_index_key, key_at, table_column_position. revert key.
  induction (index_columns index) as [|c names IH]; intros key; [split; intros [= <-]; done|].
  cbn [mapM_res mapM]. destruct (column_position c (columns s)) as [p|]; cbn [ok_or bind mbind option_bind]; [|done].
  destruct (row !! p) as [v|]; cbn [ok_or bind mbind option_bind]; [|done]. split.
  - intros (k & Hk%IH & [= <-])%bind_Ok_inv. by rewrite Hk.
  - destruct (mapM _ names) as [k|] eqn:Ek; [|done]. intros [= <-]. by rewrite (proj2 (IH k) eq_refl).
Qed.

(** Every name of an index is a column. *)
Definition projects (cols : list ColumnDef) (names : list string) : Prop :=
  Forall (fun name => is_Some (column_position name cols)) names.

Lemma column_position_lt name cols i : column_position name cols = Some i -> (i < length cols)%nat.
Proof. intros (c & Hc & _)%column_position_Some. by apply lookup_lt_Some in Hc. Qed.

Lemma key_at_total cols names row :
  projects cols names -> length row = length cols -> exists key, key_at cols names row = Some key.
Proof.
  intros Hp Hl. unfold key_at. induction Hp as [|c names [p Hc] _ [key IH]]; [by exists []|].
  cbn [mapM]. rewrite Hc. cbn [mbind option_bind].
  destruct (lookup_lt_is_Some_2 row p) as [v Hv]; [rewrite Hl; by eapply column_position_lt|].
  rewrite Hv. cbn. rewrite IH. by eexists.
Qed.

Lemma key_at_agree cols names (row1 row2 : Row) key c p :
  key_at cols names row1 = Some key -> key_at cols names row2 = Some key -> c ∈ names -> column_position c cols = Some p ->
  row1 !! p = row2 !! p.
Proof.
  unfold key_at. intros H1 H2 Hc Hp. apply mapM_Some in H1, H2. revert H2 Hc.
  induction H1 as [|c' v names key Hv H1 IH]; intros H2 Hc; [by apply not_elem_of_nil in Hc|].
  inversion H2 as [|? ? ? ? Hv2 H2']; subst. apply elem_of_cons in Hc as [<-|Hc]; [|by apply IH].
  rewrite Hp in Hv, Hv2. cbn in Hv, Hv2. congruence.
Qed.

Lemma key_at_ext cols names cols' (row row' : Row) :
  (forall c, c ∈ names -> (column_position c cols ≫= (row !!.)) = (column_position c cols' ≫= (row' !!.))) ->
  key_at cols names row = key_at cols' names row'.
Proof.
  unfold key_at. induction names as [|c names IH]; intros Hc; [done|]. cbn [mapM]. rewrite Hc by by left.
  rewrite IH; [done|]. intros c' Hc'. apply Hc. by right.
Qed.

(** ** What an index holds *)

(** The ids of the rows with a key. *)
Definition keyed (cols : list ColumnDef) (index : IndexMeta) (rs : Rows) (key : list Value) : gset RowId :=
  dom (filter (fun ir : RowId * Row => key_at cols (index_columns index) ir.2 = Some key) rs).

Definition nonempty (ids : gset RowId) : option (gset RowId) := if bool_decide (ids = ∅) then None else Some ids.

Record index_ok (cols : list ColumnDef) (rs : Rows) (ix : IndexState) : Prop := {
  ix_projects : projects cols (index_columns (meta ix));
  ix_entries key : entries ix !! key = nonempty (keyed cols (meta ix) rs key);
  ix_unique key i j : enforces_unique_key (meta ix) key = true ->
    i ∈ keyed cols (meta ix) rs key -> j ∈ keyed cols (meta ix) rs key -> i = j
}.

Lemma elem_of_keyed cols index rs key id :
  id ∈ keyed cols index rs key <-> exists row, rs !! id = Some row /\ key_at cols (index_columns index) row = Some key.
Proof. unfold keyed. rewrite elem_of_dom. unfold is_Some. setoid_rewrite map_lookup_filter_Some. naive_solver. Qed.

Lemma keyed_insert cols index rs key id row :
  rs !! id = None ->
  keyed cols index (<[id := row]> rs) key =
  if decide (key_at cols (index_columns index) row = Some key) then {[id]} ∪ keyed cols index rs key else keyed cols index rs key.
Proof.
  intros Hid. apply set_eq. intros j. rewrite elem_of_keyed.
  destruct (decide (key_at _ _ row = Some key)) as [Hk|Hk]; rewrite ?elem_of_union, ?elem_of_singleton, elem_of_keyed;
    destruct (decide (j = id)) as [->|Hj]; rewrite ?lookup_insert_eq, ?lookup_insert_ne by done; naive_solver.
Qed.

Lemma keyed_delete cols index rs key id : keyed cols index (delete id rs) key = keyed cols index rs key ∖ {[id]}.
Proof.
  apply set_eq. intros j. rewrite elem_of_difference, elem_of_singleton, !elem_of_keyed.
  destruct (decide (j = id)) as [->|Hj]; rewrite ?lookup_delete_eq, ?lookup_delete_ne by done; naive_solver.
Qed.

Lemma default_nonempty ids : default ∅ (nonempty ids) = ids.
Proof. unfold nonempty. by case_bool_decide. Qed.
Lemma nonempty_Some ids : ids <> ∅ -> nonempty ids = Some ids.
Proof. intros H. unfold nonempty. by case_bool_decide. Qed.

Lemma taken_keyed cols rs ix key : index_ok cols rs ix -> taken key ix = negb (bool_decide (keyed cols (meta ix) rs key = ∅)).
Proof.
  intros Hix. unfold taken. rewrite (ix_entries _ _ _ Hix). unfold nonempty. case_bool_decide as H; [done|].
  by rewrite bool_decide_eq_false_2.
Qed.

(** The rows determine the entries. *)
Lemma index_determined cols rs ix ix' : index_ok cols rs ix -> index_ok cols rs ix' -> meta ix = meta ix' -> ix = ix'.
Proof.
  intros H1 H2 Hm. destruct ix as [mt es], ix' as [mt' es']. cbn in Hm. subst mt'. f_equal. apply map_eq. intros key.
  etrans; [apply (ix_entries _ _ _ H1)|symmetry; apply (ix_entries _ _ _ H2)].
Qed.

Lemma add_entry_keyed cols index rs es id row key :
  (forall k, es !! k = nonempty (keyed cols index rs k)) -> rs !! id = None -> key_at cols (index_columns index) row = Some key ->
  forall k, add_entry key id es !! k = nonempty (keyed cols index (<[id := row]> rs) k).
Proof.
  intros Hes Hid Hk k. unfold add_entry. rewrite keyed_insert by done. rewrite (Hes key), default_nonempty.
  destruct (decide (key = k)) as [<-|Hne].
  - rewrite lookup_insert_eq, decide_True by done. rewrite nonempty_Some; [done|]. set_solver.
  - rewrite lookup_insert_ne by done. rewrite decide_False by congruence. apply Hes.
Qed.

(** No row of another id has the key of [row] where the index is unique. *)
Definition no_conflict (cols : list ColumnDef) (rs : Rows) (ix : IndexState) (row : Row) : Prop :=
  forall key, key_at cols (index_columns (meta ix)) row = Some key -> enforces_unique_key (meta ix) key = true ->
    keyed cols (meta ix) rs key = ∅.

Section Indexing.
Context {SelectStatement : Type} (s : Schema SelectStatement).
#[local] Abbreviation cols := (columns s).

Lemma index_row_ok rs ix id row :
  index_ok cols rs ix -> rs !! id = None -> length row = length cols -> no_conflict cols rs ix row ->
  exists ix', index_row s id row ix = (Ok tt, ix') /\ meta ix' = meta ix /\ index_ok cols (<[id := row]> rs) ix'.
Proof.
  intros Hix Hid Hl Hno. destruct (key_at_total cols (index_columns (meta ix)) row) as [key Hk]; [apply Hix|done|].
  unfold index_row, st_bind, st_get, st_read. rewrite (proj2 (project_key s (meta ix) row key) Hk). cbn.
  assert (Hc : enforces_unique_key (meta ix) key && taken key ix = false).
  { destruct (enforces_unique_key (meta ix) key) eqn:E; [|done]. cbn. rewrite (taken_keyed cols rs), Hno by done. done. }
  rewrite Hc. unfold st_mod. eexists. split_and!; [done..|]. split; cbn.
  - apply Hix.
  - by apply add_entry_keyed; [apply Hix|..].
  - intros k i j Hu. rewrite !keyed_insert by done. destruct (decide _) as [Hk'|Hk'].
    + rewrite (Hno k Hk' Hu). set_solver.
    + by apply Hix.
Qed.

Lemma unindex_row_ok rs ix id row :
  index_ok cols rs ix -> rs !! id = Some row -> length row = length cols ->
  exists ix', unindex_row s id row ix = (Ok tt, ix') /\ meta ix' = meta ix /\ index_ok cols (delete id rs) ix'.
Proof.
  intros Hix Hid Hl. destruct (key_at_total cols (index_columns (meta ix)) row) as [key Hk]; [apply Hix|done|].
  unfold unindex_row, st_bind, st_get, st_mod. rewrite (proj2 (project_key s (meta ix) row key) Hk). cbn.
  assert (Hin : id ∈ keyed cols (meta ix) rs key) by (apply elem_of_keyed; eauto).
  rewrite (ix_entries _ _ _ Hix key), nonempty_Some by set_solver. cbn.
  eexists. split_and!; [done..|]. split; cbn.
  - apply Hix.
  - intros k. rewrite keyed_delete. destruct (decide (key = k)) as [<-|Hne].
    + unfold nonempty. case_bool_decide; by rewrite ?lookup_delete_eq, ?lookup_insert_eq.
    + transitivity (entries ix !! k); [case_bool_decide; by rewrite ?lookup_delete_ne, ?lookup_insert_ne|].
      rewrite (ix_entries _ _ _ Hix k). f_equal. apply set_eq. intros j. rewrite elem_of_difference, elem_of_singleton.
      split; [|tauto]. intros Hj. split; [done|]. intros ->. apply elem_of_keyed in Hj as (? & ? & ?). congruence.
  - intros k i j Hu. rewrite !keyed_delete. intros [Hi _]%elem_of_difference [Hj _]%elem_of_difference. by eapply Hix.
Qed.
(** The loop that fills a new index. *)
Lemma build_entries_ok index l : forall rs es es',
  index_ok cols rs (mkIndexState index es) -> Forall (fun ir : RowId * Row => length ir.2 = length cols) l ->
  NoDup (map fst l) -> (forall id, id ∈ map fst l -> rs !! id = None) ->
  build_entries s index l es = Ok es' -> index_ok cols (list_to_map l ∪ rs) (mkIndexState index es').
Proof.
  induction l as [|[id row] l IH]; intros rs es es' Hix Hl Hnd Hfresh; cbn [build_entries].
  { intros [= <-]. cbn. by rewrite (left_id_L ∅ (∪)). }
  apply Forall_cons in Hl as [Hrow Hl]. cbn [map] in Hnd. apply NoDup_cons in Hnd as [Hn Hnd].
  intros (key & Hk%project_key & H)%bind_Ok_inv.
  destruct (enforces_unique_key index key && taken key (mkIndexState index es)) eqn:Ec; [done|].
  assert (Hno : no_conflict cols rs (mkIndexState index es) row).
  { intros k Hk' Hu. cbn in *. assert (k = key) as -> by congruence. rewrite Hu, (taken_keyed cols rs) in Ec by done.
    cbn in Ec. by apply negb_false_iff, bool_decide_eq_true in Ec. }
  apply IH with (rs := <[id := row]> rs) in H; [|clear IH H..].
  - cbn. rewrite <- insert_union_l, insert_union_r; [done|]. by apply not_elem_of_list_to_map_1.
  - destruct (index_row_ok rs (mkIndexState index es) id row) as (ix' & Hrun & Hm & Hix'); [done|apply Hfresh; by left|done..|].
    unfold index_row, st_bind, st_get, st_read, st_mod in Hrun. cbn [meta] in Hrun. rewrite (proj2 (project_key s index row key) Hk) in Hrun.
    rewrite Ec in Hrun. by injection Hrun as <-.
  - done.
  - done.
  - intros j Hj. rewrite lookup_insert_ne by (intros ->; done). apply Hfresh. by right.
Qed.

(** Rebuilding forgets what the entries were. *)
Lemma rebuild_index_ok rs ix :
  projects cols (index_columns (meta ix)) -> map_Forall (fun _ row => length row = length cols) rs ->
  exists ix', rebuild_index s rs ix = (Ok tt, ix') /\ meta ix' = meta ix /\
    forall key, entries ix' !! key = nonempty (keyed cols (meta ix) rs key).
Proof.
  intros Hp Hrows. unfold rebuild_index, st_bind at 1, st_mod at 1.
  assert (Hgen : forall l rs0 es, NoDup (map fst l) -> (forall id, id ∈ map fst l -> rs0 !! id = None) ->
    Forall (fun ir : RowId * Row => length ir.2 = length cols) l -> (forall k, es !! k = nonempty (keyed cols (meta ix) rs0 k)) ->
    exists ix', st_each (fun ir : RowId * Row =>
      let! key := st_get (fun ix => project_index_key s (meta ix) ir.2) in
      st_mod (fun ix => set_entries (add_entry key ir.1 (entries ix)) ix)) l (set_entries es ix) = (Ok tt, ix') /\ meta ix' = meta ix /\
      forall key, entries ix' !! key = nonempty (keyed cols (meta ix) (list_to_map l ∪ rs0) key)).
  { induction l as [|[id row] l IH]; intros rs0 es Hnd Hfresh Hl Hes.
    - cbn. eexists. split_and!; [done..|]. cbn. by rewrite (left_id_L ∅ (∪)).
    - apply Forall_cons in Hl as [Hrow Hl]. cbn [map] in Hnd. apply NoDup_cons in Hnd as [Hn Hnd].
      destruct (key_at_total cols (index_columns (meta ix)) row) as [key Hk]; [done..|].
      cbn [st_each]. unfold st_bind, st_get, st_mod. cbn. rewrite (proj2 (project_key s (meta ix) row key) Hk).
      destruct (IH (<[id := row]> rs0) (add_entry key id es)) as (ix' & Hrun & Hm & He); [done| |done| |].
      + intros j Hj. rewrite lookup_insert_ne by (intros ->; done). apply Hfresh. by right.
      + apply add_entry_keyed; [done|apply Hfresh; by left|done].
      + exists ix'. split_and!; [exact Hrun|done|]. intros k. rewrite He. rewrite <- insert_union_l, insert_union_r; [done|].
        by apply not_elem_of_list_to_map_1. }
  destruct (Hgen (sorted_items rs) ∅ ∅) as (ix' & Hrun & Hm & He).
  - apply sorted_items_NoDup.
  - done.
  - apply Forall_forall. intros [id row] Hin%elem_of_sorted_items. by apply (Hrows id).
  - intros k. unfold nonempty, keyed. rewrite map_filter_empty, dom_empty_L. done.
  - exists ix'. split_and!; [exact Hrun|done|]. intros k. rewrite He, (right_id_L ∅ (∪)), list_to_map_sorted_items. done.
Qed.
End Indexing.

(** ** All the indexes of a table *)

Lemma on_indexes_run body (l : list (string * IndexState)) : forall ixs : Indexes,
  NoDup (map fst l) -> (forall name ix, (name, ix) ∈ l -> ixs !! name = Some ix /\ (body ix).1 = Ok tt) ->
  exists ixs', st_each (fun nx : string * IndexState => on_index nx.1 body) l ixs = (Ok tt, ixs') /\
    forall name, ixs' !! name = if bool_decide (name ∈ map fst l) then (fun ix => (body ix).2) <$> ixs !! name else ixs !! name.
Proof.
  induction l as [|[name ix] l IH]; intros ixs Hnd Hl.
  - exists ixs. cbn. split; [done|]. intros name. rewrite bool_decide_eq_false_2; [done|]. apply not_elem_of_nil.
  - cbn [map] in Hnd. apply NoDup_cons in Hnd as [Hn Hnd]. destruct (Hl name ix) as [Hix Hok]; [by left|].
    cbn [st_each]. unfold st_bind, on_index at 1. cbn [fst]. rewrite Hix. destruct (body ix) as [r ix'] eqn:Eb. cbn in Hok. subst r. cbn.
    destruct (IH (<[name := ix']> ixs)) as (ixs' & Hrun & Hat); [done| |].
    + intros name2 ix2 Hin. destruct (Hl name2 ix2) as [H1 H2]; [by right|]. rewrite lookup_insert_ne; [done|]. intros ->. apply Hn. by apply (list_elem_of_fmap_2 fst) in Hin.
    + exists ixs'. split; [done|]. intros name2. rewrite Hat. destruct (decide (name2 = name)) as [->|Hne].
      * rewrite bool_decide_eq_false_2 by done. rewrite lookup_insert_eq, bool_decide_eq_true_2 by by left. rewrite Hix. cbn. by rewrite Eb.
      * rewrite lookup_insert_ne by done. erewrite (bool_decide_ext (name2 ∈ map fst l)); [done|]. cbn. rewrite elem_of_cons. naive_solver.
Qed.

Lemma each_index_run body (ixs : Indexes) :
  map_Forall (fun _ ix => (body ix).1 = Ok tt) ixs -> each_index body ixs = (Ok tt, (fun ix => (body ix).2) <$> ixs).
Proof.
  intros Hok. unfold each_index, st_bind, st_read. destruct (on_indexes_run body (sorted_by_name ixs) ixs) as (ixs' & -> & Hat).
  - apply sorted_by_name_NoDup.
  - intros name ix H%sorted_by_name_elem. split; [done|]. by apply (Hok name).
  - f_equal. apply map_eq. intros name. rewrite Hat, lookup_fmap. case_bool_decide as Hin; [done|].
    destruct (ixs !! name) as [ix|] eqn:E; [|done]. exfalso. apply Hin. apply sorted_by_name_elem in E. by apply (list_elem_of_fmap_2 fst) in E.
Qed.

Lemma for_indexes_run {SelectStatement} n body (m : MemoryStorage SelectStatement) ixs :
  indexes m !! n = Some ixs -> map_Forall (fun _ ix => (body ix).1 = Ok tt) ixs ->
  for_indexes n body m = (Ok tt, set_indexes (<[n := (fun ix => (body ix).2) <$> ixs]> (indexes m)) m).
Proof. intros Hm Hok. unfold for_indexes. rewrite Hm. by rewrite each_index_run. Qed.

(** ** Tables *)

(** The columns flagged as primary key are in the primary key constraint, if there is one. *)
Definition flagged {SelectStatement} (s : Schema SelectStatement) : Prop :=
  forall pk, primary_key_constraint s = Some pk ->
    (exists c, c ∈ columns s /\ primary_key c = true) /\
    forall c, c ∈ columns s -> primary_key c = true -> column_name c ∈ pk_columns pk.

Record table_ok {SelectStatement} (n : string) (s : Schema SelectStatement) (rs : Rows) (ixs : Indexes) : Prop := {
  ok_name : schema_name s = n;
  ok_columns : NoDup (column_name <$> columns s);
  ok_flagged : flagged s;
  ok_ids : map_Forall (fun id _ => 0 <= id < u64_max) rs;
  ok_rows : map_Forall (fun _ (row : Row) => length row = length (columns s)) rs;
  ok_rowids : forall i, integer_primary_key_column_index s = Some i -> map_Forall (fun id (row : Row) => row !! i = Some (Integer id)) rs;
  ok_indexes : map_Forall (fun _ ix => index_ok (columns s) rs ix) ixs
}.

Section Tables.
Context {SelectStatement : Type}.
Implicit Types (m : MemoryStorage SelectStatement) (s : Schema SelectStatement).

(** The rows and the definitions of the indexes determine their entries. *)
Lemma table_determined n s rs ixs ixs' : table_ok n s rs ixs -> table_ok n s rs ixs' -> meta <$> ixs = meta <$> ixs' -> ixs = ixs'.
Proof.
  intros H1 H2 Hm. apply map_eq. intros name. pose proof (f_equal (fun x => x !! name) Hm) as Hn. cbn in Hn. rewrite !lookup_fmap in Hn.
  destruct (ixs !! name) as [ix|] eqn:E1, (ixs' !! name) as [ix'|] eqn:E2; try done. injection Hn as Hn. f_equal.
  apply (index_determined (columns s) rs); [by apply (ok_indexes _ _ _ _ H1 name)|by apply (ok_indexes _ _ _ _ H2 name)|done].
Qed.

Lemma fmap_meta (f : IndexState -> IndexState) (ixs : Indexes) :
  map_Forall (fun _ ix => meta (f ix) = meta ix) ixs -> meta <$> (f <$> ixs) = meta <$> ixs.
Proof.
  intros Hf. apply map_eq. intros name. rewrite !lookup_fmap. destruct (ixs !! name) as [ix|] eqn:E; [|done]. cbn. by rewrite (Hf name ix E).
Qed.

Lemma remove_row_run m n s rs ixs id row :
  schemas m !! n = Some s -> indexes m !! n = Some ixs -> table_ok n s rs ixs -> rs !! id = Some row ->
  exists ixs', remove_row_from_indexes n id row m = (Ok tt, set_indexes (<[n := ixs']> (indexes m)) m) /\
    meta <$> ixs' = meta <$> ixs /\ table_ok n s (delete id rs) ixs'.
Proof.
  intros Hs Hi Ht Hid. pose proof (ok_rows _ _ _ _ Ht id row Hid) as Hl.
  assert (Hrun : map_Forall (fun _ ix => exists ix', unindex_row s id row ix = (Ok tt, ix') /\ meta ix' = meta ix /\
    index_ok (columns s) (delete id rs) ix') ixs).
  { intros name ix Hix. apply unindex_row_ok; [by apply (ok_indexes _ _ _ _ Ht name)|done..]. }
  exists ((fun ix => (unindex_row s id row ix).2) <$> ixs). split_and!.
  - unfold remove_row_from_indexes, require_schema, st_bind, st_get. rewrite Hs. cbn [ok_or]. apply for_indexes_run; [done|].
    intros name ix (ix' & Hr & _)%Hrun. by rewrite Hr.
  - apply fmap_meta. intros name ix (ix' & Hr & Hm & _)%Hrun. by rewrite Hr.
  - destruct Ht. split; try done; try by apply map_Forall_delete.
    + intros i Hi'. by apply map_Forall_delete, ok_rowids0.
    + intros name ix Hix. rewrite lookup_fmap in Hix. apply fmap_Some in Hix as (ix0 & (ix' & Hr & _ & Hix')%Hrun & ->). by rewrite Hr.
Qed.

(** What a new row must be. *)
Record fits s (rs : Rows) (id : RowId) (row : Row) : Prop := {
  fits_new : rs !! id = None;
  fits_id : 0 <= id < u64_max;
  fits_length : length row = length (columns s);
  fits_rowid i : integer_primary_key_column_index s = Some i -> row !! i = Some (Integer id)
}.

Lemma add_row_run m n s rs ixs id row :
  schemas m !! n = Some s -> indexes m !! n = Some ixs -> table_ok n s rs ixs -> fits s rs id row ->
  map_Forall (fun _ ix => no_conflict (columns s) rs ix row) ixs ->
  exists ixs', add_row_to_indexes n id row m = (Ok tt, set_indexes (<[n := ixs']> (indexes m)) m) /\
    meta <$> ixs' = meta <$> ixs /\ table_ok n s (<[id := row]> rs) ixs'.
Proof.
  intros Hs Hi Ht Hf Hno.
  assert (Hrun : map_Forall (fun _ ix => exists ix', index_row s id row ix = (Ok tt, ix') /\ meta ix' = meta ix /\
    index_ok (columns s) (<[id := row]> rs) ix') ixs).
  { intros name ix Hix. apply index_row_ok; [by apply (ok_indexes _ _ _ _ Ht name)|apply Hf..|by apply (Hno name)]. }
  exists ((fun ix => (index_row s id row ix).2) <$> ixs). split_and!.
  - unfold add_row_to_indexes, require_schema, st_bind, st_get. rewrite Hs. cbn [ok_or]. apply for_indexes_run; [done|].
    intros name ix (ix' & Hr & _)%Hrun. by rewrite Hr.
  - apply fmap_meta. intros name ix (ix' & Hr & Hm & _)%Hrun. by rewrite Hr.
  - destruct Ht, Hf. split; try done; try by apply map_Forall_insert_2.
    + intros i Hi'. apply map_Forall_insert_2; [by apply fits_rowid0|by apply ok_rowids0].
    + intros name ix Hix. rewrite lookup_fmap in Hix. apply fmap_Some in Hix as (ix0 & (ix' & Hr & _ & Hix')%Hrun & ->). by rewrite Hr.
Qed.

(** A row of a table conflicts with no other. *)
Lemma table_no_conflict n s rs ixs ixs' id row :
  table_ok n s (<[id := row]> rs) ixs' -> rs !! id = None -> meta <$> ixs = meta <$> ixs' ->
  map_Forall (fun _ ix => no_conflict (columns s) rs ix row) ixs.
Proof.
  intros Ht Hid Hm name ix Hix key Hk Hu. pose proof (f_equal (fun x => x !! name) Hm) as Hn. cbn in Hn. rewrite !lookup_fmap, Hix in Hn.
  destruct (ixs' !! name) as [ix'|] eqn:E; [|done]. injection Hn as Hn. pose proof (ok_indexes _ _ _ _ Ht name ix' E) as Hok.
  apply elem_of_equiv_empty_L. intros j Hj. pose proof (ix_unique _ _ _ Hok key id j) as Huniq. rewrite <- Hn in Huniq.
  rewrite keyed_insert, decide_True in Huniq by done. rewrite <- (Huniq Hu) in Hj by set_solver.
  apply elem_of_keyed in Hj as (? & ? & _). congruence.
Qed.

Lemma fits_row n s rs ixs id row : table_ok n s rs ixs -> rs !! id = Some row -> fits s (delete id rs) id row.
Proof.
  intros Ht Hid. split; [by apply lookup_delete_eq|by apply (ok_ids _ _ _ _ Ht id row)|by apply (ok_rows _ _ _ _ Ht id row)|].
  intros i Hi. by apply (ok_rowids _ _ _ _ Ht i Hi id row).
Qed.
End Tables.
