(* ===== verification/MemoryUndo.v ===== *)
(** * Undoing in the memory engine

    What each recorded operation undoes, and that every call leaves the tables well-formed
    and records operations that undo exactly what it did; a call that fails has done
    nothing. *)

From S2P Require Import Prelude Text Types Ast Floats Schema SchemaLaws CheckValues CheckEval CheckLaws TxTypes Memory MemoryIndex.

(** ** The tables of a state *)

(** The part of the state that a transaction changes, the row id counters apart. *)
Record Data {SelectStatement : Type} := mkData {
  d_schemas : gmap string (Schema SelectStatement);
  d_rows : gmap string Rows;
  d_indexes : gmap string Indexes
}.
Arguments Data : clear implicits.
Arguments mkData {SelectStatement}.

Section Data.
Context {SelectStatement : Type}.
Abbreviation MemoryStorage := (MemoryStorage SelectStatement).
Abbreviation Schema := (Schema SelectStatement).
Abbreviation Data := (Data SelectStatement).
Implicit Types (m : MemoryStorage) (s : Schema) (d : Data).

Definition data m : Data := mkData (schemas m) (rows m) (indexes m).

Definition tables_ok d : Prop := forall n,
  match d_schemas d !! n, d_rows d !! n, d_indexes d !! n with
  | Some s, Some rs, Some ixs => table_ok n s rs ixs
  | None, None, None => True
  | _, _, _ => False
  end.

(** The counter of a table that needs one is above its rows. *)
Definition counts (s : Schema) (rs : Rows) (next : option Z) : Prop :=
  (forall k, next = Some k -> 0 <= k) /\
  (integer_primary_key_column_index s = None -> exists k, next = Some k /\ map_Forall (fun id _ => id < k) rs).

Definition counters_ok (next : gmap string Z) d : Prop :=
  (forall n k, next !! n = Some k -> 0 <= k) /\
  forall n s rs, d_schemas d !! n = Some s -> d_rows d !! n = Some rs -> counts s rs (next !! n).

Definition good m : Prop := tables_ok (data m) /\ counters_ok (next_row_ids m) (data m).

Definition put_table (n : string) s (rs : Rows) (ixs : Indexes) d : Data :=
  mkData (<[n := s]> (d_schemas d)) (<[n := rs]> (d_rows d)) (<[n := ixs]> (d_indexes d)).
Definition without_table (n : string) d : Data := mkData (delete n (d_schemas d)) (delete n (d_rows d)) (delete n (d_indexes d)).

Definition table_at d (n : string) : option Schema * option Rows * option Indexes := (d_schemas d !! n, d_rows d !! n, d_indexes d !! n).

Lemma data_eq d d' : (forall n, table_at d n = table_at d' n) -> d = d'.
Proof.
  intros H. destruct d, d'. unfold table_at in H. cbn in H. f_equal; apply map_eq; intros n; by injection (H n).
Qed.

Lemma table_at_put n n' s rs ixs d :
  table_at (put_table n s rs ixs d) n' = if decide (n = n') then (Some s, Some rs, Some ixs) else table_at d n'.
Proof. unfold table_at, put_table. cbn. rewrite !lookup_insert. by case_decide. Qed.

Lemma table_at_without n n' d : table_at (without_table n d) n' = if decide (n = n') then (None, None, None) else table_at d n'.
Proof. unfold table_at, without_table. cbn. rewrite !lookup_delete. by case_decide. Qed.

Lemma tables_ok_at d n :
  tables_ok d -> match table_at d n with (Some s, Some rs, Some ixs) => table_ok n s rs ixs | (None, None, None) => True | _ => False end.
Proof. intros H. specialize (H n). unfold table_at. by repeat case_match. Qed.

Lemma tables_ok_put n s rs ixs d : tables_ok d -> table_ok n s rs ixs -> tables_ok (put_table n s rs ixs d).
Proof.
  intros Hd Ht n'. cbn. destruct (decide (n = n')) as [<-|Hn]; [by rewrite !lookup_insert_eq|].
  rewrite !lookup_insert_ne by done. apply Hd.
Qed.

Lemma tables_ok_without n d : tables_ok d -> tables_ok (without_table n d).
Proof.
  intros Hd n'. cbn. destruct (decide (n = n')) as [<-|Hn]; [by rewrite !lookup_delete_eq|].
  rewrite !lookup_delete_ne by done. apply Hd.
Qed.

Lemma counters_ok_put next next' n s rs ixs d :
  counters_ok next d -> (forall n', n <> n' -> next' !! n' = next !! n') -> counts s rs (next' !! n) ->
  counters_ok next' (put_table n s rs ixs d).
Proof.
  intros [Hk Hd] Hn Hc. split.
  - intros n' k. destruct (decide (n = n')) as [<-|Hne]; [apply Hc|rewrite Hn by done; apply Hk].
  - intros n' s' rs'. cbn. destruct (decide (n = n')) as [<-|Hne].
    + rewrite !lookup_insert_eq. by intros [= <-] [= <-].
    + rewrite !lookup_insert_ne, Hn by done. apply Hd.
Qed.

Lemma counters_ok_without next next' n d :
  counters_ok next d -> (forall n' k, next' !! n' = Some k -> 0 <= k) -> (forall n', n <> n' -> next' !! n' = next !! n') ->
  counters_ok next' (without_table n d).
Proof.
  intros [Hk Hd] Hk' Hn. split; [done|]. intros n' s' rs'. cbn. destruct (decide (n = n')) as [<-|Hne].
  - by rewrite lookup_delete_eq.
  - rewrite !lookup_delete_ne, Hn by done. apply Hd.
Qed.

Lemma good_table m n s : good m -> schemas m !! n = Some s ->
  exists rs ixs, rows m !! n = Some rs /\ indexes m !! n = Some ixs /\ table_ok n s rs ixs /\ counts s rs (next_row_ids m !! n).
Proof.
  intros [Hd Hc] Hs. specialize (Hd n). cbn in Hd. rewrite Hs in Hd.
  destruct (rows m !! n) as [rs|] eqn:Hr, (indexes m !! n) as [ixs|] eqn:Hi; try done. exists rs, ixs. split_and!; try done.
  by apply Hc.
Qed.

Lemma good_absent m n : good m -> schemas m !! n = None -> rows m !! n = None /\ indexes m !! n = None.
Proof.
  intros [Hd _] Hs. specialize (Hd n). cbn in Hd. rewrite Hs in Hd. by destruct (rows m !! n), (indexes m !! n).
Qed.

Lemma data_put m n s rs ixs :
  schemas m !! n = Some s -> mkData (schemas m) (<[n := rs]> (rows m)) (<[n := ixs]> (indexes m)) = put_table n s rs ixs (data m).
Proof. intros Hs. unfold put_table. cbn. by rewrite (insert_id (schemas m) n s Hs). Qed.

Lemma put_put n s rs ixs s' rs' ixs' d : put_table n s rs ixs (put_table n s' rs' ixs' d) = put_table n s rs ixs d.
Proof. unfold put_table. cbn. by rewrite !insert_insert_eq. Qed.

Lemma put_same m n s rs ixs : schemas m !! n = Some s -> rows m !! n = Some rs -> indexes m !! n = Some ixs -> put_table n s rs ixs (data m) = data m.
Proof. intros Hs Hr Hi. unfold put_table. cbn. by rewrite !insert_id. Qed.
End Data.

(** ** What an undo operation reverts *)

Section Undo.
Context {SelectStatement : Type}.
Abbreviation MemoryStorage := (MemoryStorage SelectStatement).
Abbreviation Schema := (Schema SelectStatement).
Abbreviation Data := (Data SelectStatement).
Abbreviation UndoOp := (UndoOp SelectStatement).
Implicit Types (m : MemoryStorage) (s : Schema) (d : Data) (u : UndoOp).

(** Running an action on any state with the tables [d] gives the tables [d']. *)
Definition turns (act : ST MemoryStorage unit) d d' : Prop := forall m, data m = d -> counters_ok (next_row_ids m) d ->
  exists m', act m = (Ok tt, m') /\ data m' = d' /\ counters_ok (next_row_ids m') d' /\ active_txn m' = active_txn m.

Definition reverts u : Data -> Data -> Prop := turns (apply_undo u).

(** Undoing a log, newest operation first. *)
Inductive undoes : Data -> list UndoOp -> Data -> Prop :=
  | undoes_nil d : undoes d [] d
  | undoes_snoc d d1 d0 us u : reverts u d d1 -> undoes d1 us d0 -> undoes d (us ++ [u]) d0.

Lemma undoes_app d d1 d0 us vs : undoes d vs d1 -> undoes d1 us d0 -> undoes d (us ++ vs) d0.
Proof.
  induction 1 as [|d d2 d1 vs u Hu _ IH]; intros H; [by rewrite app_nil_r|]. rewrite app_assoc. econstructor; [done|]. by apply IH.
Qed.

Lemma undoes_one u d d0 : reverts u d d0 -> undoes d [u] d0.
Proof. intros H. by apply (undoes_snoc d d0 d0 []); [|constructor]. Qed.

Lemma undoes_run d us d0 : undoes d us d0 -> turns (st_each apply_undo (rev us)) d d0.
Proof.
  induction 1 as [d|d d1 d0 us u Hu _ IH]; intros m Hm Hc; [by exists m|].
  rewrite rev_app_distr. cbn [rev app st_each]. destruct (Hu m Hm Hc) as (m1 & Hrun & Hm1 & Hc1 & Ha1).
  destruct (IH m1 Hm1 Hc1) as (m2 & Hrun2 & Hm2 & Hc2 & Ha2). exists m2. unfold st_bind. rewrite Hrun. split_and!; [done..|congruence].
Qed.

(** *** Whole tables *)

Lemma reverts_drop_schema n d : reverts (DropSchema n) d (without_table n d).
Proof.
  intros m <- Hc. eexists. split; [done|]. split_and!; [done| |done]. cbn. apply (counters_ok_without (next_row_ids m)); [done| |].
  - intros n' k [_ H]%lookup_delete_Some. by apply (proj1 Hc n').
  - intros n' Hn. by rewrite lookup_delete_ne.
Qed.

Lemma reverts_restore_table s rs ixs next d : counts s rs next -> reverts (RestoreTable s rs ixs next) d (put_table (schema_name s) s rs ixs d).
Proof.
  intros Hn m <- Hc. destruct next as [k|]; eexists; (split; [done|]); (split_and!; [done| |done]); cbn.
  - apply (counters_ok_put (next_row_ids m)); [done| |]; [intros n' ?; by rewrite lookup_insert_ne|by rewrite lookup_insert_eq].
  - apply (counters_ok_put (next_row_ids m)); [done..|]. split; [intros k; apply Hc|]. intros Hi. destruct (proj2 Hn Hi) as (? & ? & _). done.
Qed.

(** [u] puts the table [n] back as it is in [d0]. *)
Definition restores d0 u (n : string) : Prop :=
  match u with
  | DropSchema n' => n' = n /\ table_at d0 n = (None, None, None)
  | RestoreTable s rs ixs next => schema_name s = n /\ table_at d0 n = (Some s, Some rs, Some ixs) /\ counts s rs next
  | _ => False
  end.

Lemma undoes_restore d0 us ns : Forall2 (restores d0) us ns -> forall d, (forall n, n ∉ ns -> table_at d n = table_at d0 n) -> undoes d us d0.
Proof.
  revert ns. induction us as [|u us IH] using rev_ind; intros ns Hall d Hd.
  - apply Forall2_nil_inv_l in Hall as ->. rewrite (data_eq d d0); [constructor|]. intros n. apply Hd, not_elem_of_nil.
  - apply Forall2_app_inv_l in Hall as (ns1 & ns2 & Hall & Hu & ->). apply Forall2_cons_inv_l in Hu as (n & ns3 & Hu & H3 & ->).
    apply Forall2_nil_inv_l in H3 as ->.
    assert (Hgen : forall d1, reverts u d d1 -> (forall n', table_at d1 n' = if decide (n = n') then table_at d0 n else table_at d n') -> undoes d (us ++ [u]) d0).
    { intros d1 Hr Hat. econstructor; [exact Hr|]. apply (IH ns1); [done|]. intros n' Hn'. rewrite Hat. case_decide as Hne; [by subst|].
      apply Hd. rewrite elem_of_app, list_elem_of_singleton. naive_solver. }
    destruct u; try done; cbn in Hu.
    + destruct Hu as [-> Hat]. apply (Hgen (without_table n d)); [apply reverts_drop_schema|]. intros n'. rewrite table_at_without, Hat. done.
    + destruct Hu as (<- & Hat & Hc). eapply Hgen; [by apply reverts_restore_table|]. intros n'. rewrite table_at_put, Hat. done.
Qed.

(** *** Indexes *)

Definition set_table_indexes (f : Indexes -> Indexes) (n : string) d : Data := mkData (d_schemas d) (d_rows d) (alter f n (d_indexes d)).

Lemma reverts_drop_index n name d : reverts (DropIndex n name) d (set_table_indexes (delete name) n d).
Proof. intros m <- Hc. eexists. by split. Qed.

Lemma reverts_restore_index n name ix ixs d :
  d_indexes d !! n = Some ixs -> reverts (RestoreIndex n name ix) d (mkData (d_schemas d) (d_rows d) (<[n := <[name := ix]> ixs]> (d_indexes d))).
Proof.
  intros Hi m <- Hc. cbn in Hi. eexists. split; [done|]. cbn. unfold table_indexes. by rewrite Hi.
Qed.
End Undo.

(** *** Rows *)

Section UndoRows.
Context {SelectStatement : Type}.
Abbreviation MemoryStorage := (MemoryStorage SelectStatement).
Implicit Types (m : MemoryStorage) (s : Schema SelectStatement) (d : Data SelectStatement).

Definition bump (id : RowId) (next : option Z) : Z := match next with Some k => Z.max k (id + 1) | None => id + 1 end.

Lemma reserve_run n id m : 0 <= id < u64_max ->
  reserve_row_id n id m = (Ok tt, set_next_row_ids (<[n := bump id (next_row_ids m !! n)]> (next_row_ids m)) m).
Proof.
  intros Hid. unfold reserve_row_id, st_bind, st_get, u64_add. rewrite (proj2 (Z.leb_le _ _)) by lia. done.
Qed.

Lemma counts_insert s rs next id row : counts s rs next -> 0 <= id -> counts s (<[id := row]> rs) (Some (bump id next)).
Proof.
  intros [Hk Hi] Hid. split.
  - intros k [= <-]. unfold bump. destruct next as [k|]; [specialize (Hk k eq_refl)|]; lia.
  - intros Hn. destruct (Hi Hn) as (k & -> & Hall). eexists. split; [done|]. cbn. apply map_Forall_insert_2; [lia|].
    intros j r Hj. specialize (Hall j r Hj). cbn in Hall. lia.
Qed.

Lemma counts_delete s rs next id : counts s rs next -> counts s (delete id rs) next.
Proof. intros [Hk Hi]. split; [done|]. intros Hn. destruct (Hi Hn) as (k & -> & Hall). exists k. split; [done|]. by apply map_Forall_delete. Qed.

Lemma counts_at next n s rs ixs d : counters_ok next (put_table n s rs ixs d) -> counts s rs (next !! n).
Proof. intros [_ H]. apply (H n); cbn; by rewrite lookup_insert_eq. Qed.

(** The rows and index entries of one table, in a state. *)
Lemma state_table m n s rs ixs d : data m = put_table n s rs ixs d ->
  schemas m !! n = Some s /\ rows m !! n = Some rs /\ indexes m !! n = Some ixs /\ table_rows n m = rs.
Proof.
  intros Hm. unfold data, put_table in Hm. injection Hm as Hs Hr Hi. unfold table_rows. rewrite Hs, Hr, Hi. by rewrite !lookup_insert_eq.
Qed.

Lemma set_table m n s rs ixs rs' ixs' d : data m = put_table n s rs ixs d ->
  mkData (schemas m) (<[n := rs']> (rows m)) (<[n := ixs']> (indexes m)) = put_table n s rs' ixs' d.
Proof. intros Hm. unfold data, put_table in *. injection Hm as Hs Hr Hi. rewrite Hs, Hr, Hi. cbn. by rewrite !insert_insert_eq. Qed.

(** A row leaves or enters the indexes, whatever the rows are at that moment. *)
Lemma unindex_turns m n s rs rsx ixs ixs' d id row :
  data m = put_table n s rsx ixs d -> table_ok n s rs ixs -> rs !! id = Some row ->
  table_ok n s (delete id rs) ixs' -> meta <$> ixs' = meta <$> ixs ->
  exists m', remove_row_from_indexes n id row m = (Ok tt, m') /\ data m' = put_table n s rsx ixs' d /\
    next_row_ids m' = next_row_ids m /\ active_txn m' = active_txn m.
Proof.
  intros Hm Ht Hid Ht' Hmeta. destruct (state_table _ _ _ _ _ _ Hm) as (Hs & Hr & Hi & _).
  destruct (remove_row_run m n s rs ixs id row) as (ixs2 & Hrun & Hmeta2 & Ht2); [done..|]. eexists. split; [exact Hrun|]. split_and!; [|done..].
  rewrite (table_determined n s (delete id rs) ixs' ixs2) by (done || congruence). rewrite <- (set_table _ _ _ _ _ rsx ixs2 d Hm).
  unfold data. cbn. by rewrite (insert_id (rows m)).
Qed.

Lemma index_turns m n s rs rsx ixs ixs' d id row :
  data m = put_table n s rsx ixs d -> table_ok n s rs ixs -> rs !! id = None ->
  table_ok n s (<[id := row]> rs) ixs' -> meta <$> ixs' = meta <$> ixs ->
  exists m', add_row_to_indexes n id row m = (Ok tt, m') /\ data m' = put_table n s rsx ixs' d /\
    next_row_ids m' = next_row_ids m /\ active_txn m' = active_txn m.
Proof.
  intros Hm Ht Hid Ht' Hmeta. destruct (state_table _ _ _ _ _ _ Hm) as (Hs & Hr & Hi & _).
  assert (Hf : fits s rs id row).
  { pose proof (fits_row _ _ _ _ id row Ht') as Hf. rewrite delete_insert_eq, delete_id in Hf by done. apply Hf. apply lookup_insert_eq. }
  destruct (add_row_run m n s rs ixs id row) as (ixs2 & Hrun & Hmeta2 & Ht2); [done..| |].
  { eapply table_no_conflict; done. }
  eexists. split; [exact Hrun|]. split_and!; [|done..].
  rewrite (table_determined n s (<[id := row]> rs) ixs' ixs2) by (done || congruence). rewrite <- (set_table _ _ _ _ _ rsx ixs2 d Hm).
  unfold data. cbn. by rewrite (insert_id (rows m)).
Qed.

(** The same table, changed from [rs] and [ixs]. *)
Record same_table (n : string) s (rs : Rows) (ixs : Indexes) (rs' : Rows) (ixs' : Indexes) : Prop := {
  same_before : table_ok n s rs ixs;
  same_after : table_ok n s rs' ixs';
  same_meta : meta <$> ixs' = meta <$> ixs
}.

Lemma counters_table next next' n s rs ixs rs' ixs' d :
  counters_ok next (put_table n s rs ixs d) -> (forall n', n <> n' -> next' !! n' = next !! n') -> counts s rs' (next' !! n) ->
  counters_ok next' (put_table n s rs' ixs' d).
Proof. intros Hc Hn Hk. rewrite <- (put_put n s rs' ixs' s rs ixs d). by apply (counters_ok_put next). Qed.

Lemma alter_rows m n s rs ixs d f : data m = put_table n s rs ixs d -> alter f n (rows m) = <[n := f rs]> (rows m).
Proof.
  intros Hm. destruct (state_table _ _ _ _ _ _ Hm) as (_ & Hr & _). apply map_eq. intros n'.
  destruct (decide (n = n')) as [<-|Hn]; [by rewrite lookup_alter_eq, lookup_insert_eq, Hr|by rewrite lookup_alter_ne, lookup_insert_ne].
Qed.

Lemma set_table_rows m n s rs ixs d rs' : data m = put_table n s rs ixs d -> data (set_rows (<[n := rs']> (rows m)) m) = put_table n s rs' ixs d.
Proof.
  intros Hm. destruct (state_table _ _ _ _ _ _ Hm) as (_ & _ & Hi & _). rewrite <- (set_table _ _ _ _ _ rs' ixs d Hm). unfold data. cbn.
  by rewrite (insert_id (indexes m)).
Qed.

Lemma reverts_delete_row n s rs ixs ixs1 id row d :
  same_table n s rs ixs (<[id := row]> rs) ixs1 -> rs !! id = None ->
  reverts (DeleteRow n id) (put_table n s (<[id := row]> rs) ixs1 d) (put_table n s rs ixs d).
Proof.
  intros [H1 H2 Hmeta] Hid m Hm Hc. destruct (state_table _ _ _ _ _ _ Hm) as (_ & _ & _ & Hrows).
  unfold apply_undo, take_row, st_bind, st_read, st_mod, st_ret. rewrite Hrows, lookup_insert_eq. cbn [unindex_removed].
  rewrite (alter_rows _ _ _ _ _ _ _ Hm).
  destruct (unindex_turns (set_rows (<[n := delete id (<[id := row]> rs)]> (rows m)) m) n s (<[id := row]> rs) rs ixs1 ixs d id row) as (m' & -> & Hm' & Hn & Ha).
  - by rewrite (set_table_rows _ _ _ _ _ _ _ Hm), delete_insert_id.
  - done.
  - apply lookup_insert_eq.
  - by rewrite delete_insert_id.
  - done.
  - exists m'. split_and!; [done..| |done]. rewrite Hn. cbn.
    apply (counters_table (next_row_ids m) _ n s (<[id := row]> rs) ixs1); [done..|].
    rewrite <- (delete_insert_id rs id row) by done. eapply counts_delete, counts_at, Hc.
Qed.

Lemma reverts_reinsert_row n s rs ixs ixs1 id row d :
  same_table n s rs ixs (<[id := row]> rs) ixs1 -> rs !! id = None ->
  reverts (ReinsertRow n id row) (put_table n s rs ixs d) (put_table n s (<[id := row]> rs) ixs1 d).
Proof.
  intros [H1 H2 Hmeta] Hid m Hm Hc. destruct (state_table _ _ _ _ _ _ Hm) as (_ & _ & _ & Hrows).
  assert (Hrange : 0 <= id < u64_max) by (apply (ok_ids _ _ _ _ H2 id row), lookup_insert_eq).
  unfold apply_undo, store_row, st_bind, st_mod. rewrite Hrows, reserve_run by done.
  set (next' := <[n := bump id _]> _).
  destruct (index_turns (set_next_row_ids next' (set_rows (<[n := <[id := row]> rs]> (rows m)) m)) n s rs (<[id := row]> rs) ixs ixs1 d id row) as (m' & -> & Hm' & Hn & Ha);
    [exact (set_table_rows _ _ _ _ _ _ (<[id := row]> rs) Hm)|done..|].
  exists m'. split_and!; [done..| |done]. rewrite Hn. cbn.
  apply (counters_table (next_row_ids m) _ n s rs ixs); [done|intros n' ?; by apply lookup_insert_ne|].
  subst next'. rewrite lookup_insert_eq. apply counts_insert; [|lia]. eapply counts_at, Hc.
Qed.

Lemma reverts_restore_row n s rs ixs ixs1 ixs2 id old new d :
  same_table n s rs ixs (<[id := new]> rs) ixs1 -> same_table n s rs ixs (<[id := old]> rs) ixs2 -> rs !! id = None ->
  reverts (RestoreRow n id old) (put_table n s (<[id := new]> rs) ixs1 d) (put_table n s (<[id := old]> rs) ixs2 d).
Proof.
  intros [H1 H2 Hmeta] [_ H3 Hmeta2] Hid m Hm Hc. destruct (state_table _ _ _ _ _ _ Hm) as (_ & _ & _ & Hrows).
  assert (Hrange : 0 <= id < u64_max) by (apply (ok_ids _ _ _ _ H2 id new), lookup_insert_eq).
  unfold apply_undo, swap_row, st_bind, st_read, st_mod, st_ret. rewrite Hrows, lookup_insert_eq. cbn [unindex_removed].
  rewrite (alter_rows _ _ _ _ _ _ _ Hm), insert_insert_eq.
  destruct (unindex_turns (set_rows (<[n := <[id := old]> rs]> (rows m)) m) n s (<[id := new]> rs) (<[id := old]> rs) ixs1 ixs d id new)
    as (m1 & -> & Hm1 & Hn1 & Ha1);
    [exact (set_table_rows _ _ _ _ _ _ _ Hm)|done|apply lookup_insert_eq|by rewrite delete_insert_id|done|].
  rewrite reserve_run by done. set (next' := <[n := bump id _]> _).
  destruct (index_turns (set_next_row_ids next' m1) n s rs (<[id := old]> rs) ixs ixs2 d id old) as (m' & -> & Hm' & Hn & Ha); [done..|].
  exists m'. split_and!; [done..| |by rewrite Ha; cbn; rewrite Ha1]. rewrite Hn. cbn.
  apply (counters_table (next_row_ids m) _ n s (<[id := new]> rs) ixs1); [done|intros n' ?; subst next'; rewrite Hn1; by apply lookup_insert_ne|].
  subst next'. rewrite lookup_insert_eq, Hn1. cbn. apply counts_insert; [|lia].
  rewrite <- (delete_insert_id rs id new) by done. eapply counts_delete, counts_at, Hc.
Qed.
End UndoRows.
