(* ===== verification/MemoryRows.v ===== *)
(** * Row and index operations of the memory engine

    Inserting, deleting and updating rows, creating and dropping indexes: from well-formed
    tables to well-formed tables, recording what undoes them. *)

From S2P Require Import Prelude Text Types Ast Floats Schema SchemaLaws CheckValues CheckEval CheckLaws TxTypes Memory MemoryIndex MemoryUndo.

(** ** Calls and what they record *)

Section Recorded.
Context {SelectStatement : Type}.
Abbreviation MemoryStorage := (MemoryStorage SelectStatement).
Implicit Types m : MemoryStorage.

Definition push (us : list (UndoOp SelectStatement)) (a : ActiveTransaction SelectStatement) : ActiveTransaction SelectStatement :=
  with_undo_log (undo_log a ++ us) a.

(** What a call leaves: well-formed tables, a longer undo log whose new part undoes the
    call, and the same tables as before if it failed. *)
Record recorded {A} m (r : Result A * MemoryStorage) : Prop := {
  rec_good : good r.2;
  rec_undo : exists us, active_txn r.2 = push us <$> active_txn m /\ undoes (data r.2) us (data m);
  rec_fail : is_ok r.1 = false -> data r.2 = data m
}.

Lemma push_nil (o : option (ActiveTransaction SelectStatement)) : push [] <$> o = o.
Proof. destruct o as [[]|]; [|done]. cbn. unfold push, with_undo_log. cbn. by rewrite app_nil_r. Qed.

Lemma push_push us vs (o : option (ActiveTransaction SelectStatement)) : push vs <$> (push us <$> o) = push (us ++ vs) <$> o.
Proof. destruct o as [[]|]; [|done]. cbn. unfold push, with_undo_log. cbn. by rewrite app_assoc. Qed.

Lemma record_undo_run m u : record_undo u m = (Ok tt, set_active_txn (push [u] <$> active_txn m) m).
Proof. done. Qed.

Lemma recorded_quiet {A} m (r : Result A) m' : good m' -> data m' = data m -> active_txn m' = active_txn m -> recorded m (r, m').
Proof. intros Hg Hd Ha. split; [done| |done]. exists []. cbn. rewrite push_nil, Hd. split; [done|constructor]. Qed.

Lemma recorded_same {A} m (r : Result A) : good m -> recorded m (r, m).
Proof. intros H. by apply recorded_quiet. Qed.

Lemma recorded_done {A} m (a : A) m' us :
  good m' -> active_txn m' = push us <$> active_txn m -> undoes (data m') us (data m) -> recorded m (Ok a, m').
Proof. intros Hg Ha Hu. split; [done|eauto|done]. Qed.

Lemma recorded_get {A B} m (f : MemoryStorage -> Result A) (k : A -> ST MemoryStorage B) :
  good m -> (forall a, f m = Ok a -> recorded m (k a m)) -> recorded m (st_bind (st_get f) k m).
Proof. intros Hm Hk. unfold st_bind, st_get. destruct (f m) as [a|e|w|]; [by apply Hk|by apply recorded_same..]. Qed.

Lemma recorded_read {A B} m (f : MemoryStorage -> A) (k : A -> ST MemoryStorage B) : recorded m (k (f m) m) -> recorded m (st_bind (st_read f) k m).
Proof. done. Qed.

(** A call that first changes only the counters. *)
Lemma recorded_after {A} m m1 (r : Result A * MemoryStorage) :
  data m1 = data m -> active_txn m1 = active_txn m -> recorded m1 r -> recorded m r.
Proof. intros Hd Ha [H1 (us & H2 & H3) H4]. split; [done| |]; [exists us|]; by rewrite <- ?Hd, <- ?Ha. Qed.

Lemma good_after m m' : good m -> data m' = data m -> next_row_ids m' = next_row_ids m -> good m'.
Proof. intros [H1 H2] Hd Hn. split; by rewrite Hd, ?Hn. Qed.

Lemma good_put m m' n s rs' ixs' :
  good m -> data m' = put_table n s rs' ixs' (data m) -> table_ok n s rs' ixs' ->
  (forall n', n <> n' -> next_row_ids m' !! n' = next_row_ids m !! n') -> counts s rs' (next_row_ids m' !! n) -> good m'.
Proof.
  intros [H1 H2] Hm' Ht Hn Hc. split; rewrite Hm'; [by apply tables_ok_put|]. by apply (counters_ok_put (next_row_ids m)).
Qed.
End Recorded.

(** ** Primary keys *)

Section Keys.
Context {SelectStatement : Type}.
Implicit Types s : Schema SelectStatement.

(** No row of [rs] has the primary key of [row]. *)
Definition new_key s (rs : Rows) (row : Row) : Prop :=
  primary_key_columns s = [] \/ map_Forall (fun _ r => key_of s r <> key_of s row) rs.

Lemma checked_new_key show debug s row others (rs : Rows) :
  length row = length (columns s) -> validate_primary_key_uniqueness show debug s row others = Ok tt ->
  (forall id r, rs !! id = Some r -> r ∈ others) -> new_key s rs row.
Proof.
  intros Hl Hv Hin. apply primary_key_uniqueness_correct in Hv as [|Hv]; [by left| |lia].
  right. intros id r Hr. by apply Hv, (Hin id).
Qed.

Lemma rowid_key s i : integer_primary_key_column_index s = Some i -> exists c, primary_key_columns s = [(i, c)].
Proof.
  unfold integer_primary_key_column_index, primary_key_columns. destruct (without_rowid s); [done|].
  destruct (filter _ _) as [|[j c] [|? ?]]; [done| |done]. destruct (column_type c), (primary_key_sort_order c) as [[]|]; try done; intros [= <-]; eauto.
Qed.

Lemma rowid_new n s rs ixs i id row :
  table_ok n s rs ixs -> integer_primary_key_column_index s = Some i -> row !! i = Some (Integer id) -> new_key s rs row -> rs !! id = None.
Proof.
  intros Ht Hi Hid [Hk|Hk]; destruct (rowid_key s i Hi) as [c Hc]; [congruence|].
  destruct (rs !! id) as [r|] eqn:E; [|done]. destruct (Hk id r E). unfold key_of. rewrite Hc. cbn.
  by rewrite Hid, (ok_rowids _ _ _ _ Ht i Hi id r E).
Qed.

(** Rows with the same key in the index behind the primary key have the same primary key. *)
Lemma backing_no_conflict n s rs ixs ix row :
  table_ok n s rs ixs -> is_primary_key_backing_index s (meta ix) n = true -> new_key s rs row -> no_conflict (columns s) rs ix row.
Proof.
  intros Ht Hb Hk key Hkey _. unfold is_primary_key_backing_index in Hb. destruct (primary_key_constraint s) as [pk|] eqn:Epk; [|done].
  apply andb_true_iff in Hb as [_ Hb%bool_decide_eq_true]. destruct (ok_flagged _ _ _ _ Ht pk Epk) as [(c0 & Hc0 & Hf0) Hin].
  apply elem_of_equiv_empty_L. intros j (r & Hr & Hrk)%elem_of_keyed. destruct Hk as [Hk|Hk].
  - apply list_elem_of_lookup in Hc0 as [i Hi]. apply (not_elem_of_nil (i, c0)). rewrite <- Hk. apply list_elem_of_filter. split; [by apply Is_true_true|].
    apply elem_of_lookup_imap. by exists i, c0.
  - apply (Hk j r Hr). unfold key_of. apply map_ext_in. intros [i c] Hic%list_elem_of_In. apply list_elem_of_filter in Hic as [Hf%Is_true_true Hic].
    apply elem_of_lookup_imap in Hic as (i' & c' & [= <- <-] & Hi). cbn in *. eapply (key_at_agree _ (index_columns (meta ix)) r row key (column_name c)); [done..| |].
    + rewrite <- Hb. apply Hin; [by eapply list_elem_of_lookup_2|done].
    + apply column_position_Some. exists c. split_and!; [done..|]. intros j' c' Hj Hc' Heq. pose proof (ok_columns _ _ _ _ Ht) as Hnd.
      assert (j' = i); [|lia]. eapply NoDup_lookup; [exact Hnd|by rewrite list_lookup_fmap, Hc'|]. by rewrite list_lookup_fmap, Hi; cbn; rewrite Heq.
Qed.
End Keys.

(** ** Row ids *)

Section RowIds.
Context {SelectStatement : Type}.
Implicit Types (m : MemoryStorage SelectStatement) (s : Schema SelectStatement).

Lemma good_counter m n s rs next' :
  good m -> schemas m !! n = Some s -> rows m !! n = Some rs ->
  (forall n', n <> n' -> next' !! n' = next_row_ids m !! n') -> counts s rs (next' !! n) -> good (set_next_row_ids next' m).
Proof.
  intros Hg Hs Hr Hn Hc. destruct (good_table m n s Hg Hs) as (rs2 & ixs & Hr2 & Hi & Ht & _). assert (rs2 = rs) as -> by congruence.
  apply (good_put m _ n s rs ixs); cbn; try done; by rewrite put_same.
Qed.

(** A fresh id, when the counter does not overflow. *)
Lemma next_row_id_run m n s rs :
  good m -> schemas m !! n = Some s -> rows m !! n = Some rs ->
  let r := next_row_id n m in
  data r.2 = data m /\ active_txn r.2 = active_txn m /\ good r.2 /\
  match r.1 with
  | Ok id => 0 <= id < u64_max /\ (integer_primary_key_column_index s = None -> rs !! id = None) /\
      forall row, counts s (<[id := row]> rs) (next_row_ids r.2 !! n)
  | Err _ => False
  | _ => True
  end.
Proof.
  intros Hg Hs Hr. destruct (good_table m n s Hg Hs) as (rs2 & ixs & Hr2 & _ & _ & Hc). assert (rs2 = rs) as -> by congruence.
  set (k := default 1 (next_row_ids m !! n)).
  assert (Hk : 0 <= k) by (subst k; destruct (next_row_ids m !! n) as [k|] eqn:E; [apply (proj1 Hc k eq_refl)|cbn; lia]).
  assert (Hup : forall k', k <= k' -> counts s rs (Some k')).
  { intros k' Hle. split; [intros ? [= <-]; lia|]. intros Hi. destruct (proj2 Hc Hi) as (k2 & E & Hall). exists k'. split; [done|].
    subst k. rewrite E in Hle. cbn in Hle. intros id r Hid. specialize (Hall id r Hid). cbn in Hall. lia. }
  unfold next_row_id, st_bind, st_mod, st_read, st_get, st_ret, u64_add. cbn [next_row_ids set_next_row_ids]. rewrite lookup_insert_eq. fold k.
  change (default 1 (Some k)) with k. destruct (Z.leb_spec (k + 1) u64_max) as [Hle|Hgt]; cbn [fst snd].
  - split_and!; [done|done| |lia|lia| |].
    + apply (good_counter m n s rs); [done..|intros n' ?; by rewrite !lookup_insert_ne|]. rewrite lookup_insert_eq. apply Hup. lia.
    + intros Hi. destruct (proj2 Hc Hi) as (k2 & E & Hall). destruct (rs !! k) as [r|] eqn:Er; [|done]. specialize (Hall k r Er). cbn in Hall.
      subst k. rewrite E in Hall. cbn in Hall. lia.
    + intros row. cbn. rewrite lookup_insert_eq. split; [intros ? [= <-]; lia|]. intros Hi. eexists. split; [done|].
      destruct (Hup (k + 1) ltac:(lia)) as [_ H]. destruct (H Hi) as (? & [= <-] & Hall). apply map_Forall_insert_2; [lia|done].
  - split_and!; [done..| |done]. apply (good_counter m n s rs); [done..|intros n' ?; by rewrite !lookup_insert_ne|]. rewrite lookup_insert_eq. apply Hup. lia.
Qed.

Lemma i64_range z : is_i64 z -> 0 <= z -> 0 <= z < u64_max.
Proof. width. Qed.

Lemma choose_row_id_insert m n s rs row :
  good m -> schemas m !! n = Some s -> rows m !! n = Some rs -> Forall value_wf row ->
  let r := choose_row_id s row (next_row_id n) m in
  data r.2 = data m /\ active_txn r.2 = active_txn m /\ good r.2 /\
  forall id row', r.1 = Ok (id, row') -> 0 <= id < u64_max /\ length row' = length row /\
    (forall i, integer_primary_key_column_index s = Some i -> row' !! i = Some (Integer id)) /\
    (integer_primary_key_column_index s = None -> rs !! id = None) /\ counts s (<[id := row']> rs) (next_row_ids r.2 !! n).
Proof.
  intros Hg Hs Hr Hwf. destruct (good_table m n s Hg Hs) as (rs2 & ixs & Hr2 & _ & _ & Hc). assert (rs2 = rs) as -> by congruence.
  pose proof (next_row_id_run m n s rs Hg Hs Hr) as Hnext. unfold choose_row_id.
  destruct (integer_primary_key_column_index s) as [i|] eqn:Ei.
  - destruct (row !! i) as [v|] eqn:Ev; [|by split_and!].
    assert (Hbound : forall z, v = Integer z -> is_i64 z) by (intros z ->; by apply (Forall_lookup_1 _ _ _ _ Hwf Ev)).
    destruct v as [|b|z|z|b|b]; try by split_and!.
    + unfold st_bind. destruct (next_row_id n m) as [[id|e|w|] m1]; cbn in *; try by (destruct Hnext as (? & ? & ? & _); split_and!).
      destruct Hnext as (Hd & Ha & Hg1 & Hid & _ & Hcnt). destruct (Z.leb_spec id i64_max); cbn; [|by split_and!].
      split_and!; [done..|]. intros ? ? [= <- <-]. split_and!; [lia|lia|by rewrite length_insert| |done|apply Hcnt].
      intros ? [= <-]. apply list_lookup_insert_eq. by apply lookup_lt_Some in Ev.
    + destruct (Z.leb_spec 0 z); cbn; [|by split_and!]. split_and!; [done..|]. intros ? ? [= <- <-].
      destruct (i64_range z (Hbound z eq_refl)); [done|]. split_and!; [done..|by intros ? [= <-]|done|]. split; [apply Hc|by rewrite Ei].
  - unfold st_bind. destruct (next_row_id n m) as [[id|e|w|] m1]; cbn in *; try by (destruct Hnext as (? & ? & ? & _); split_and!).
    destruct Hnext as (Hd & Ha & Hg1 & Hid & Hnew & Hcnt). split_and!; [done..|]. intros ? ? [= <- <-]. split_and!; [lia|lia|done|done|by apply Hnew|apply Hcnt].
Qed.
End RowIds.

(** ** Inserting, deleting, updating *)

Section RowCalls.
Context {SelectStatement : Type} `{Libm, JsonParser}.
Context (debug : list Value -> string).
Implicit Types (m : MemoryStorage SelectStatement) (s : Schema SelectStatement).

Lemma checked_key s row others m (rs : Rows) :
  length row = length (columns s) -> check_row debug s row others m = Ok tt -> (forall id r, rs !! id = Some r -> r ∈ others) -> new_key s rs row.
Proof.
  intros Hl Hc Hin. unfold check_row in Hc. apply bind_unit_Ok in Hc as [_ Hc]. apply bind_unit_Ok in Hc as [_ Hc].
  by eapply checked_new_key.
Qed.

Lemma checked_index_unique s rs ix row :
  index_ok (columns s) rs ix -> check_index_unique s row ix = Ok tt -> no_conflict (columns s) rs ix row.
Proof.
  intros Hix Hc key Hk Hu. unfold check_index_unique in Hc. rewrite (proj2 (project_key s _ _ _) Hk) in Hc. cbn in Hc.
  rewrite Hu, (taken_keyed (columns s) rs) in Hc by done. cbn in Hc. by case_bool_decide.
Qed.

(** The unique checks of [insert_row], together: no index of the table refuses the row. *)
Lemma insert_no_conflict m n s rs ixs row :
  schemas m !! n = Some s -> indexes m !! n = Some ixs -> table_ok n s rs ixs -> new_key s rs row ->
  validate_unique_index_constraints n row m = Ok tt -> map_Forall (fun _ ix => no_conflict (columns s) rs ix row) ixs.
Proof.
  intros Hs Hi Ht Hk Hv name ix Hix. unfold validate_unique_index_constraints, require_schema in Hv. rewrite Hs, Hi in Hv. cbn [ok_or bind] in Hv.
  apply each_res_Ok in Hv. rewrite Forall_forall in Hv. specialize (Hv (name, ix)). cbn [snd] in Hv.
  destruct (is_primary_key_backing_index s (meta ix) n) eqn:Eb; [by eapply backing_no_conflict|].
  apply checked_index_unique; [by apply (ok_indexes _ _ _ _ Ht name)|]. apply Hv. by apply sorted_by_name_elem.
Qed.

(** The last steps of an insertion and of an update: the row, already in the map, enters
    the indexes, and the operation [undo] is recorded. *)
Lemma add_row_recorded m m1 n s rs ixs id row undo :
  good m -> data m = put_table n s rs ixs (data m) -> table_ok n s rs ixs -> data m1 = put_table n s (<[id := row]> rs) ixs (data m) ->
  active_txn m1 = active_txn m -> fits s rs id row -> map_Forall (fun _ ix => no_conflict (columns s) rs ix row) ixs ->
  (forall n', n <> n' -> next_row_ids m1 !! n' = next_row_ids m !! n') -> counts s (<[id := row]> rs) (next_row_ids m1 !! n) ->
  exists ixs' m', (add_row_to_indexes n id row ;;! record_undo undo) m1 = (Ok tt, m') /\ good m' /\
    active_txn m' = push [undo] <$> active_txn m /\ data m' = put_table n s (<[id := row]> rs) ixs' (data m) /\
    same_table n s rs ixs (<[id := row]> rs) ixs'.
Proof.
  intros Hg Hm Ht Hm1 Ha1 Hf Hno Hn Hc. destruct (state_table _ _ _ _ _ _ Hm1) as (Hs & Hr & Hi & _).
  destruct (add_row_run m1 n s rs ixs id row) as (ixs' & Hrun & Hmeta & Ht'); [done..|]. exists ixs'. unfold st_bind. rewrite Hrun. eexists. split; [done|].
  match goal with |- good ?m' /\ _ => assert (Hd : data m' = put_table n s (<[id := row]> rs) ixs' (data m)) end.
  { rewrite <- (set_table m1 n s _ ixs (<[id := row]> rs) ixs' (data m) Hm1). unfold data. cbn. by rewrite (insert_id (rows m1)). }
  split_and!; [|by cbn; rewrite Ha1|done|done]. by apply (good_put m _ n s (<[id := row]> rs) ixs').
Qed.

Lemma insert_row_recorded t n row m : good m -> Forall value_wf row -> recorded m (insert_row debug t n row m).
Proof.
  intros Hg Hwf. unfold insert_row. apply recorded_get; [done|intros [] _]. apply recorded_get; [done|intros s Hs%ok_or_Ok_inv].
  destruct (good_table m n s Hg Hs) as (rs & ixs & Hr & Hi & Ht & _).
  destruct (Nat.eqb_spec (length row) (length (columns s))) as [Hl|]; cbn [negb]; [|by apply recorded_same].
  pose proof (choose_row_id_insert m n s rs row Hg Hs Hr Hwf) as Hch. cbv zeta in Hch.
  unfold st_bind at 1. destruct (choose_row_id s row (next_row_id n) m) as [[[id row']|e|w|] m1]; cbn [fst snd] in Hch;
    destruct Hch as (Hd & Ha & Hg1 & Hch); try by apply recorded_quiet.
  destruct (Hch id row' eq_refl) as (Hid & Hl' & Hrid & Hnew & Hc). rewrite Hl in Hl'. clear Hch.
  assert (Hs1 : schemas m1 !! n = Some s /\ rows m1 !! n = Some rs /\ indexes m1 !! n = Some ixs) by (unfold data in Hd; by injection Hd as -> -> ->).
  destruct Hs1 as (Hs1 & Hr1 & Hi1). apply (recorded_after m m1); [done..|].
  apply recorded_get; [done|intros [] Hck]. apply recorded_get; [done|intros [] Hun].
  assert (Hk : new_key s rs row').
  { eapply checked_key; [done|exact Hck|]. intros j r Hj. unfold table_rows. rewrite Hr1. change (default ∅ (Some rs)) with rs.
    apply elem_of_sorted_items in Hj. by apply (list_elem_of_fmap_2 snd) in Hj. }
  assert (Hf : fits s rs id row').
  { split; try done. destruct (integer_primary_key_column_index s) as [i|] eqn:Ei; [|by apply Hnew]. by eapply rowid_new; [..|apply Hrid|]. }
  assert (Hm1 : data m1 = put_table n s rs ixs (data m1)) by (by rewrite put_same).
  destruct (add_row_recorded m1 (set_rows (<[n := <[id := row']> rs]> (rows m1)) m1) n s rs ixs id row' (DeleteRow n id))
    as (ixs' & m' & Hrun & Hg' & Ha' & Hd' & Hsame); [done..|exact (set_table_rows _ _ _ _ _ _ _ Hm1)|done|done| |done|done|].
  { by eapply insert_no_conflict. }
  unfold store_row, table_rows. unfold st_bind in *. unfold st_mod at 1. rewrite Hr1. change (default ∅ (Some rs)) with rs.
  destruct (add_row_to_indexes n id row' _) as [[]m3]; try done. rewrite Hrun. cbn.
  apply (recorded_done _ _ _ [DeleteRow n id]); [done..|]. rewrite Hd'. rewrite Hm1 at 2.
  apply undoes_one, reverts_delete_row; [done|apply Hf].
Qed.

Lemma take_row_None m n id : table_rows n m !! id = None -> take_row n id m = (Ok None, m).
Proof.
  intros Hid. unfold take_row, st_bind, st_read, st_mod, st_ret. rewrite Hid. do 2 f_equal. rewrite alter_id; [by destruct m|].
  intros rs Hr. unfold table_rows in Hid. rewrite Hr in Hid. by apply delete_id.
Qed.

Lemma delete_row_recorded t n id m : good m -> recorded m (delete_row t n id m).
Proof.
  intros Hg. unfold delete_row. apply recorded_get; [done|intros [] _]. destruct (table_rows n m !! id) as [row|] eqn:Hid.
  2:{ unfold st_bind. rewrite take_row_None by done. by apply recorded_same. }
  destruct (schemas m !! n) as [s|] eqn:Hs; [|destruct (good_absent m n Hg Hs) as [Hr _]; unfold table_rows in Hid; by rewrite Hr in Hid].
  destruct (good_table m n s Hg Hs) as (rs & ixs & Hr & Hi & Ht & Hc). unfold table_rows in Hid. rewrite Hr in Hid.
  assert (Hm : data m = put_table n s rs ixs (data m)) by (by rewrite put_same).
  unfold take_row, st_bind, st_read, st_mod, st_ret, table_rows. rewrite Hr. change (default ∅ (Some rs)) with rs in *. rewrite Hid.
  rewrite (alter_rows _ _ _ _ _ _ _ Hm).
  set (m1 := set_rows (<[n := delete id rs]> (rows m)) m).
  destruct (remove_row_run m1 n s rs ixs id row) as (ixs' & -> & Hmeta & Ht'); [done..|].
  rewrite record_undo_run. match goal with |- recorded _ (_, ?x) => set (m' := x) end.
  assert (Hd : data m' = put_table n s (delete id rs) ixs' (data m)) by (exact (data_put m n s (delete id rs) ixs' Hs)).
  apply (recorded_done _ _ _ [ReinsertRow n id row]); [|done|].
  - apply (good_put m _ n s (delete id rs) ixs'); try done. by apply counts_delete.
  - rewrite Hd. rewrite Hm at 2. rewrite <- (insert_delete_id rs id row) at 2 by done.
    apply undoes_one, reverts_reinsert_row; [|by apply lookup_delete_eq]. split; [done|by rewrite insert_delete_id|done].
Qed.

Lemma update_no_conflict n s rs ixs id row :
  table_ok n s rs ixs -> each_res (fun nx : string * IndexState => check_update_unique s id row nx.2) (sorted_by_name ixs) = Ok tt ->
  map_Forall (fun _ ix => no_conflict (columns s) (delete id rs) ix row) ixs.
Proof.
  intros Ht Hc name ix Hix key Hk Hu. apply each_res_Ok in Hc. rewrite Forall_forall in Hc. specialize (Hc (name, ix)). cbn [snd] in Hc.
  rewrite sorted_by_name_elem in Hc. specialize (Hc Hix). unfold check_update_unique in Hc.
  rewrite (proj2 (project_key s _ _ _) Hk) in Hc. cbn in Hc. rewrite Hu in Hc. cbn in Hc.
  rewrite (ix_entries _ _ _ (ok_indexes _ _ _ _ Ht name ix Hix) key), default_nonempty in Hc. rewrite keyed_delete. by case_bool_decide.
Qed.

Lemma no_conflict_meta cols rs (ixs ixs' : Indexes) row :
  meta <$> ixs' = meta <$> ixs -> map_Forall (fun _ ix => no_conflict cols rs ix row) ixs -> map_Forall (fun _ ix => no_conflict cols rs ix row) ixs'.
Proof.
  intros Hm Hno name ix Hix. pose proof (f_equal (fun x => x !! name) Hm) as Hn. cbn in Hn. rewrite !lookup_fmap, Hix in Hn.
  destruct (ixs !! name) as [ix0|] eqn:E; [|done]. injection Hn as Hn. specialize (Hno name ix0 E). unfold no_conflict in *. by rewrite Hn.
Qed.

(** An update that leaves the row its id. *)
Lemma move_row_recorded m n s rs ixs id row existing :
  good m -> schemas m !! n = Some s -> rows m !! n = Some rs -> indexes m !! n = Some ixs -> rs !! id = Some existing ->
  fits s (delete id rs) id row -> map_Forall (fun _ ix => no_conflict (columns s) (delete id rs) ix row) ixs ->
  recorded m (move_row n id id row existing m).
Proof.
  intros Hg Hs Hr Hi Hid Hf Hno. destruct (good_table m n s Hg Hs) as (? & ? & ? & ? & Ht & Hc). simplify_eq.
  assert (Hm : data m = put_table n s rs ixs (data m)) by (by rewrite put_same).
  destruct (remove_row_run m n s rs ixs id existing) as (ixs1 & Hrun1 & Hmeta1 & Ht1); [done..|].
  unfold move_row, st_bind at 1. rewrite Hrun1. set (m1 := set_indexes _ _). unfold st_bind at 1, st_read. rewrite Z.eqb_refl. cbn [negb andb].
  set (m2 := set_rows (<[n := delete id rs]> (rows m)) m1).
  assert (Hm2 : data m2 = put_table n s (delete id rs) ixs1 (data m)) by (exact (data_put m n s (delete id rs) ixs1 Hs)).
  assert (Hg2 : good m2) by (apply (good_put m m2 n s (delete id rs) ixs1); [done..|by apply counts_delete]).
  assert (Hm2' : data m2 = put_table n s (delete id rs) ixs1 (data m2)) by (by rewrite Hm2, put_put).
  unfold store_row, st_bind, st_mod. rewrite reserve_run by apply Hf.
  match goal with |- context [add_row_to_indexes _ _ _ ?x] => set (m3 := x) end.
  assert (Hrows3 : rows m3 = <[n := <[id := row]> (delete id rs)]> (rows m)).
  { subst m3. cbn. unfold table_rows. cbn. rewrite (alter_rows m n s rs ixs (data m)) by done. by rewrite lookup_insert_eq, insert_insert_eq. }
  destruct (add_row_recorded m2 m3 n s (delete id rs) ixs1 id row (RestoreRow n id existing)) as (ixs2 & m' & Hrun & Hg' & Ha' & Hd' & Hsame); try done.
  - unfold data at 1. rewrite Hrows3. change (schemas m3) with (schemas m). change (indexes m3) with (<[n := ixs1]> (indexes m)).
    rewrite Hm2, put_put. by apply data_put.
  - by eapply no_conflict_meta.
  - intros n' Hn. subst m3. cbn. by rewrite lookup_insert_ne.
  - subst m3. cbn. rewrite lookup_insert_eq. apply counts_insert; [by apply counts_delete|]. destruct (fits_id _ _ _ _ Hf). lia.
  - unfold st_bind in Hrun. destruct (add_row_to_indexes n id row m3) as [[]m4]; try done. rewrite Hrun.
    apply (recorded_done _ _ _ [RestoreRow n id existing]); [done..|]. rewrite Hd', Hm2, put_put. rewrite Hm at 2.
    rewrite <- (insert_delete_id rs id existing) at 2 by done.
    apply undoes_one, (reverts_restore_row n s (delete id rs) ixs1); [done| |by apply lookup_delete_eq].
    split; [done|by rewrite insert_delete_id|done].
Qed.

(** The update leaves the row its id. *)
Definition keeps_row_id s (id : RowId) (row : Row) : Prop :=
  forall i z, integer_primary_key_column_index s = Some i -> row !! i = Some (Integer z) -> z = id.

Lemma choose_row_id_update m s id row : keeps_row_id s id row ->
  exists r, choose_row_id s row (st_ret id) m = (r, m) /\ forall id' row', r = Ok (id', row') ->
    id' = id /\ length row' = length row /\ forall i, integer_primary_key_column_index s = Some i -> row' !! i = Some (Integer id).
Proof.
  intros Hk. unfold choose_row_id. destruct (integer_primary_key_column_index s) as [i|] eqn:Ei.
  - destruct (row !! i) as [v|] eqn:Ev; [|by eexists]. destruct v as [|b|z|z|b|b]; try by eexists.
    + unfold st_bind, st_ret. destruct (id <=? i64_max); [|by eexists]. eexists. split; [done|]. intros ? ? [= <- <-].
      split_and!; [done|by rewrite length_insert|]. intros ? [= <-]. apply list_lookup_insert_eq. by apply lookup_lt_Some in Ev.
    + destruct (0 <=? z); [|by eexists]. eexists. split; [done|]. intros ? ? [= <- <-]. assert (z = id) as -> by by apply (Hk i).
      split_and!; [done..|]. by intros ? [= <-].
  - eexists. split; [done|]. by intros ? ? [= <- <-].
Qed.

Lemma update_row_recorded t n id row m :
  good m -> (forall s, schemas m !! n = Some s -> keeps_row_id s id row) -> recorded m (update_row debug t n id row m).
Proof.
  intros Hg Hkeep. unfold update_row. apply recorded_get; [done|intros [] _]. apply recorded_get; [done|intros s Hs%ok_or_Ok_inv].
  destruct (good_table m n s Hg Hs) as (rs & ixs & Hr & Hi & Ht & Hc).
  destruct (Nat.eqb_spec (length row) (length (columns s))) as [Hl|]; cbn [negb]; [|by apply recorded_same].
  apply recorded_read. unfold table_rows. rewrite Hr. change (default ∅ (Some rs)) with rs.
  destruct (rs !! id) as [existing|] eqn:Hid; [|by apply recorded_same].
  destruct (choose_row_id_update m s id row (Hkeep s Hs)) as (r & Hch & Hr'). unfold st_bind at 1. rewrite Hch.
  destruct r as [[id' row']|e|w|]; try by apply recorded_same. destruct (Hr' id' row' eq_refl) as (-> & Hl' & Hrid). rewrite Hl in Hl'. clear Hr'.
  destruct (bool_decide (existing = row') && (id =? id)); [by apply recorded_same|].
  apply recorded_get; [done|intros [] Hck]. apply recorded_get; [done|intros [] Hun].
  unfold table_indexes in Hun. rewrite Hi in Hun.
  apply (move_row_recorded m n s rs ixs); try done; [|by eapply update_no_conflict].
  split; [by apply lookup_delete_eq|by apply (ok_ids _ _ _ _ Ht id existing)|done|done].
Qed.
End RowCalls.

(** ** Indexes *)

Section IndexCalls.
Context {SelectStatement : Type}.
Implicit Types (m : MemoryStorage SelectStatement) (s : Schema SelectStatement).

Lemma table_ok_indexes n s rs ixs ixs' :
  table_ok n s rs ixs -> map_Forall (fun _ ix => index_ok (columns s) rs ix) ixs' -> table_ok n s rs ixs'.
Proof. intros [] Hall. by split. Qed.

Lemma empty_index_ok cols index : projects cols (index_columns index) -> index_ok cols ∅ (mkIndexState index ∅).
Proof.
  intros Hp. assert (Hk : forall key, keyed cols index ∅ key = ∅) by (intros key; unfold keyed; by rewrite map_filter_empty, dom_empty_L).
  split; [done| |].
  - intros key. cbn. by rewrite Hk.
  - intros key i j _. cbn. rewrite !Hk. set_solver.
Qed.

Lemma create_index_recorded t n index m :
  good m -> (forall s, schemas m !! n = Some s -> projects (columns s) (index_columns index)) -> recorded m (create_index t n index m).
Proof.
  intros Hg Hp. unfold create_index. apply recorded_get; [done|intros [] _]. apply recorded_get; [done|intros s Hs%ok_or_Ok_inv].
  destruct (good_table m n s Hg Hs) as (rs & ixs & Hr & Hi & Ht & Hc). apply recorded_read. unfold table_indexes. rewrite Hi.
  change (default ∅ (Some ixs)) with ixs. destruct (ixs !! index_name index) eqn:Hn; [by apply recorded_same|].
  case_bool_decide; [by apply recorded_same|]. apply recorded_get; [done|intros es Hes].
  unfold table_rows in Hes. rewrite Hr in Hes. change (default ∅ (Some rs)) with rs in Hes.
  unfold st_bind, st_mod. rewrite record_undo_run. cbn [indexes set_active_txn]. rewrite Hi. change (default ∅ (Some ixs)) with ixs.
  match goal with |- recorded _ (_, ?x) => set (m' := x) end.
  set (ix := mkIndexState index es). assert (Hm : data m = put_table n s rs ixs (data m)) by (by rewrite put_same).
  assert (Hd : data m' = put_table n s rs (<[index_name index := ix]> ixs) (data m)).
  { rewrite <- (data_put m n s) by done. by rewrite (insert_id (rows m)). }
  assert (Hix : index_ok (columns s) rs ix).
  { rewrite <- (list_to_map_sorted_items rs), <- (right_id_L ∅ (∪) (list_to_map _)).
    apply (build_entries_ok s index _ _ ∅); [by apply empty_index_ok, Hp| |apply sorted_items_NoDup|done|done].
    apply Forall_forall. intros [id row] Hin%elem_of_sorted_items. by apply (ok_rows _ _ _ _ Ht id row). }
  apply (recorded_done _ _ _ [DropIndex n (index_name index)]); [|done|].
  - apply (good_put m _ n s rs (<[index_name index := ix]> ixs)); try done.
    apply (table_ok_indexes n s rs ixs); [done|]. apply map_Forall_insert_2; [done|apply Ht].
  - rewrite Hd. pose proof (reverts_drop_index n (index_name index) (put_table n s rs (<[index_name index := ix]> ixs) (data m))) as Hrev.
    replace (set_table_indexes _ _ _) with (data m) in Hrev; [by apply undoes_one|]. rewrite Hm at 1. unfold set_table_indexes, put_table. cbn. f_equal.
    apply map_eq. intros n'. destruct (decide (n = n')) as [<-|Hne].
    + by rewrite lookup_alter_eq, !lookup_insert_eq; cbn; rewrite delete_insert_id.
    + by rewrite lookup_alter_ne, !lookup_insert_ne.
Qed.

Lemma drop_index_recorded t n name m : good m -> recorded m (drop_index t n name m).
Proof.
  intros Hg. unfold drop_index. apply recorded_get; [done|intros [] _]. apply recorded_get; [done|intros ix Hix%ok_or_Ok_inv].
  destruct (schemas m !! n) as [s|] eqn:Hs; [|destruct (good_absent m n Hg Hs) as [_ Hi]; unfold table_indexes in Hix; by rewrite Hi in Hix].
  destruct (good_table m n s Hg Hs) as (rs & ixs & Hr & Hi & Ht & Hc). unfold table_indexes in Hix. rewrite Hi in Hix. change (default ∅ (Some ixs)) with ixs in Hix.
  assert (Hm : data m = put_table n s rs ixs (data m)) by (by rewrite put_same).
  unfold st_bind, st_mod. rewrite record_undo_run. match goal with |- recorded _ (_, ?x) => set (m' := x) end.
  assert (Hd : data m' = put_table n s rs (delete name ixs) (data m)).
  { rewrite <- (data_put m n s) by done. rewrite (insert_id (rows m)) by done. unfold data. cbn. f_equal. apply map_eq. intros n'.
    destruct (decide (n = n')) as [<-|Hne]; [by rewrite lookup_alter_eq, lookup_insert_eq, Hi|by rewrite lookup_alter_ne, lookup_insert_ne]. }
  apply (recorded_done _ _ _ [RestoreIndex n name ix]); [|done|].
  - apply (good_put m _ n s rs (delete name ixs)); try done. apply (table_ok_indexes n s rs ixs); [done|]. apply map_Forall_delete, Ht.
  - rewrite Hd. pose proof (reverts_restore_index n name ix (delete name ixs) (put_table n s rs (delete name ixs) (data m))) as Hrev. cbn in Hrev.
    rewrite lookup_insert_eq, insert_insert_eq, insert_delete_id in Hrev by done. specialize (Hrev eq_refl). apply undoes_one. by rewrite Hm at 2.
Qed.
End IndexCalls.
