(* ===== verification/MemoryCatalog.v ===== *)
(** * Catalog operations of the memory engine

    Creating, dropping and renaming tables, adding, renaming and dropping columns: from
    well-formed tables to well-formed tables, recording what undoes them. *)

From S2P Require Import Prelude Text Types Ast Floats Schema SchemaLaws CheckValues CheckEval CheckLaws TxTypes Memory MemoryIndex MemoryUndo MemoryRows.



(** ** Columns and keys under a change of schema *)

Lemma column_position_cons name c cols :
  column_position name (c :: cols) = if bool_decide (column_name c = name) then Some O else S <$> column_position name cols.
Proof.
  unfold column_position. cbn [list_find]. rewrite <- decide_bool_decide. destruct (decide (column_name c = name)); [done|].
  by destruct (list_find _ cols) as [[]|].
Qed.

Lemma column_position_map g name cols :
  Forall (fun c => column_name (g c) = name <-> column_name c = name) cols -> column_position name (map g cols) = column_position name cols.
Proof.
  induction 1 as [|c cols Hc _ IH]; [done|]. cbn [map]. rewrite !column_position_cons, IH. by rewrite (bool_decide_ext _ _ Hc).
Qed.

Lemma column_position_In name cols : is_Some (column_position name cols) -> name ∈ map column_name cols.
Proof. intros [i (c & Hc & <- & _)%column_position_Some]. by eapply list_elem_of_fmap_2, list_elem_of_lookup_2. Qed.

(** [g] keeps what the engine looks at in a column. *)
Definition same_column (g : ColumnDef -> ColumnDef) : Prop := forall c,
  column_name (g c) = column_name c /\ primary_key (g c) = primary_key c /\ column_type (g c) = column_type c /\
  primary_key_sort_order (g c) = primary_key_sort_order c.

Lemma index_ok_keyed cols cols' rs rs' ix :
  projects cols' (index_columns (meta ix)) -> (forall key, keyed cols' (meta ix) rs' key = keyed cols (meta ix) rs key) ->
  index_ok cols rs ix -> index_ok cols' rs' ix.
Proof. intros Hp Hk []. split; [done| |]; intros key; rewrite Hk; eauto. Qed.

Lemma keyed_ext cols cols' index rs rs' key :
  (forall id, (rs !! id ≫= key_at cols (index_columns index)) = (rs' !! id ≫= key_at cols' (index_columns index))) ->
  keyed cols' index rs' key = keyed cols index rs key.
Proof.
  intros Hid. apply set_eq. intros id. rewrite !elem_of_keyed. specialize (Hid id).
  destruct (rs !! id) as [r|], (rs' !! id) as [r'|]; cbn in Hid; naive_solver congruence.
Qed.

Section Shapes.
Context {SelectStatement : Type}.
Implicit Types s : Schema SelectStatement.

(** Which column is the row id. *)
Lemma rowid_Some s j : integer_primary_key_column_index s = Some j <->
  without_rowid s = false /\ exists c, columns s !! j = Some c /\ primary_key c = true /\ column_type c = CtInteger /\
    primary_key_sort_order c <> Some Desc /\ forall k c', columns s !! k = Some c' -> primary_key c' = true -> k = j.
Proof.
  unfold integer_primary_key_column_index. destruct (without_rowid s); [naive_solver|].
  assert (Hin : forall k c, (k, c) ∈ filter (fun ic : nat * ColumnDef => primary_key ic.2) (imap pair (columns s)) <-> columns s !! k = Some c /\ primary_key c = true).
  { intros k c. rewrite list_elem_of_filter, elem_of_lookup_imap. cbn. rewrite Is_true_true. naive_solver. }
  split.
  - destruct (filter _ _) as [|[i c] [|? ?]] eqn:E; [done| |done]. intros Hj. split; [done|]. exists c.
    assert (Hone : forall k c', (k, c') ∈ [(i, c)] <-> columns s !! k = Some c' /\ primary_key c' = true) by (intros; by rewrite Hin).
    setoid_rewrite list_elem_of_singleton in Hone. destruct (proj1 (Hone i c) eq_refl) as [Hi Hp].
    assert (Hu : forall k c', columns s !! k = Some c' -> primary_key c' = true -> k = i).
    { intros k c' H1 H2. assert ((k, c') = (i, c)) as [= -> ->] by by apply Hone. done. }
    destruct (column_type c); try done. destruct (primary_key_sort_order c) as [[]|]; try done; injection Hj as <-; by split_and!.
  - intros (_ & c & Hj & Hp & Ht & Ho & Huniq).
    assert (Hl : filter (fun ic : nat * ColumnDef => primary_key ic.2) (imap pair (columns s)) = [(j, c)]).
    { apply Permutation_singleton_r. apply NoDup_Permutation.
      - apply NoDup_filter, NoDup_fmap_1 with (f := fst). rewrite fmap_imap. apply NoDup_alt. intros a b x Ha Hb.
        rewrite list_lookup_imap in Ha, Hb. destruct (columns s !! a), (columns s !! b); naive_solver.
      - apply NoDup_singleton.
      - intros [k c']. rewrite Hin, list_elem_of_singleton. split; [|intros [= -> ->]; done]. intros [H1 H2]. assert (k = j) as -> by by eapply Huniq. congruence. }
    rewrite Hl, Ht. destruct (primary_key_sort_order c) as [[]|]; done.
Qed.

Lemma rowid_map s s' g :
  columns s' = map g (columns s) -> without_rowid s' = without_rowid s ->
  (forall c, primary_key (g c) = primary_key c /\ column_type (g c) = column_type c /\ primary_key_sort_order (g c) = primary_key_sort_order c) ->
  integer_primary_key_column_index s' = integer_primary_key_column_index s.
Proof.
  intros Hc Hw Hg. apply option_eq. intros j. rewrite !rowid_Some, Hw, Hc. apply and_iff_compat_l. split.
  - intros (c' & Hj & Hp & Ht & Ho & Hu).
    rewrite list_lookup_fmap in Hj. apply fmap_Some in Hj as (c & Hj & ->). destruct (Hg c) as (H1 & H2 & H3). exists c. split_and!; try congruence.
    intros k c2 Hk Hp2. apply (Hu k (g c2)); [by rewrite list_lookup_fmap, Hk|]. by rewrite (proj1 (Hg c2)).
  - intros (c & Hj & Hp & Ht & Ho & Hu). destruct (Hg c) as (H1 & H2 & H3). exists (g c). split_and!; [by rewrite list_lookup_fmap, Hj|congruence..|].
    intros k c' Hk Hp'. rewrite list_lookup_fmap in Hk. apply fmap_Some in Hk as (c2 & Hk & ->). apply (Hu k c2); [done|]. by rewrite <- (proj1 (Hg c2)).
Qed.

Lemma table_ok_map n n' s s' g rs ixs :
  columns s' = map g (columns s) -> same_column g -> primary_key_constraint s' = primary_key_constraint s ->
  without_rowid s' = without_rowid s -> schema_name s' = n' -> table_ok n s rs ixs -> table_ok n' s' rs ixs.
Proof.
  intros Hc Hg Hpk Hw Hn [].
  assert (Hpos : forall name, column_position name (columns s') = column_position name (columns s)).
  { intros name. rewrite Hc. apply column_position_map, Forall_true. intros c. by rewrite (proj1 (Hg c)). }
  split; try done.
  - rewrite Hc. rewrite <- list_fmap_compose. erewrite list_fmap_ext; [exact ok_columns|]. intros i c _. apply (Hg c).
  - intros pk Epk. rewrite Hpk in Epk. destruct (ok_flagged pk Epk) as [(c & Hin & Hf) Hall]. rewrite Hc. split.
    + exists (g c). split; [by apply list_elem_of_fmap_2|]. by rewrite (proj1 (proj2 (Hg c))).
    + intros c' (c2 & -> & Hin2)%list_elem_of_fmap Hf2. destruct (Hg c2) as (-> & Hp2 & _). rewrite Hp2 in Hf2. by apply Hall.
  - intros id row Hid. rewrite Hc, length_map. by apply (ok_rows id).
  - intros i Hi. apply ok_rowids. rewrite <- Hi. symmetry. apply (rowid_map s s' g); [done..|]. intros c. by destruct (Hg c) as (_ & ? & ? & ?).
  - intros name ix Hix. specialize (ok_indexes name ix Hix). apply (index_ok_keyed (columns s) _ rs); [| |done].
    + eapply Forall_impl; [apply ok_indexes|]. intros c. by rewrite Hpos.
    + intros key. apply keyed_ext. intros id. destruct (rs !! id); [|done]. cbn. apply key_at_ext. intros c _. by rewrite Hpos.
Qed.

Lemma same_foreign_keys f : same_column (fun c => with_foreign_key (f <$> foreign_key c) c).
Proof. by intros c. Qed.

Lemma table_ok_foreign_keys n s f rs ixs : table_ok n s rs ixs -> table_ok n (map_foreign_keys f s) rs ixs.
Proof. intros Ht. eapply table_ok_map; [|apply (same_foreign_keys f)|..|exact Ht]; try done. apply Ht. Qed.

Lemma counts_rowid s s' rs next :
  (integer_primary_key_column_index s' = None -> integer_primary_key_column_index s = None) -> counts s rs next -> counts s' rs next.
Proof. intros Hi [H1 H2]. split; [done|]. intros Hn. by apply H2, Hi. Qed.
End Shapes.

(** ** Whole tables *)

Section TableCalls.
Context {SelectStatement : Type}.
Implicit Types (m : MemoryStorage SelectStatement) (s : Schema SelectStatement) (d : Data SelectStatement).

Lemma recorded_tables {A} m (a : A) m' us ns :
  good m' -> active_txn m' = push us <$> active_txn m -> Forall2 (restores (data m)) us ns ->
  (forall n, n ∉ ns -> table_at (data m') n = table_at (data m) n) -> recorded m (Ok a, m').
Proof. intros Hg Ha Hr Hat. by apply (recorded_done _ _ _ us); [..|apply (undoes_restore _ us ns)]. Qed.

Lemma restores_recorded m n s : good m -> schemas m !! n = Some s ->
  restores (data m) (RestoreTable s (table_rows n m) (table_indexes n m) (next_row_ids m !! n)) n.
Proof.
  intros Hg Hs. destruct (good_table m n s Hg Hs) as (rs & ixs & Hr & Hi & Ht & Hc). unfold table_rows, table_indexes. rewrite Hr, Hi.
  split_and!; [apply Ht| |done]. unfold table_at. cbn. by rewrite Hs, Hr, Hi.
Qed.

Lemma restores_at d d' u n : table_at d' n = table_at d n -> restores d u n -> restores d' u n.
Proof. intros Hat. destruct u; cbn; rewrite ?Hat; done. Qed.

Lemma restores_all_at d d' us ns :
  Forall2 (restores d) us ns -> (forall n, n ∈ ns -> table_at d' n = table_at d n) -> Forall2 (restores d') us ns.
Proof.
  induction 1 as [|u n us ns Hu _ IH]; intros Hat; [done|]. constructor; [apply (restores_at d); [apply Hat; by left|done]|].
  apply IH. intros n' Hn'. apply Hat. by right.
Qed.

Lemma record_table_run s n m :
  record_table s n m = (Ok tt, set_active_txn (push [RestoreTable s (table_rows n m) (table_indexes n m) (next_row_ids m !! n)] <$> active_txn m) m).
Proof. done. Qed.

Lemma table_at_off n n' s rs ixs d : n <> n' -> table_at (put_table n s rs ixs d) n' = table_at d n'.
Proof. intros Hn. rewrite table_at_put. by rewrite decide_False. Qed.

(** The schema of a table changes, its rows and indexes do not. *)
Lemma put_schema_recorded {A} m m' (a : A) n s s' :
  good m -> schemas m !! n = Some s ->
  (forall rs ixs, table_ok n s rs ixs -> table_ok n s' rs ixs) -> (integer_primary_key_column_index s' = None -> integer_primary_key_column_index s = None) ->
  m' = set_schemas (<[n := s']> (schemas m)) (record_table s n m).2 -> recorded m (Ok a, m').
Proof.
  intros Hg Hs Hok Hi ->. destruct (good_table m n s Hg Hs) as (rs & ixs & Hr & Hix & Ht & Hc).
  rewrite record_table_run. match goal with |- recorded _ (_, ?x) => set (m' := x) end.
  assert (Hd : data m' = put_table n s' rs ixs (data m)) by (unfold data, put_table; cbn; by rewrite (insert_id (rows m)), (insert_id (indexes m))).
  apply (recorded_tables _ _ _ [RestoreTable s (table_rows n m) (table_indexes n m) (next_row_ids m !! n)] [n]); [|done| |].
  - destruct Hg as [Hg1 Hg2]. split; rewrite Hd; [by apply tables_ok_put, Hok|].
    apply (counters_ok_put (next_row_ids m)); [done..|]. by apply (counts_rowid s).
  - constructor; [by apply restores_recorded|constructor].
  - intros n' Hn'. rewrite Hd. apply table_at_off. intros ->. apply Hn'. by left.
Qed.

Definition schema_ok s : Prop := NoDup (column_name <$> columns s) /\ flagged s.

Lemma create_schema_recorded t s m : good m -> schema_ok s -> recorded m (create_schema t s m).
Proof.
  intros Hg [Hnd Hf]. unfold create_schema. set (n := schema_name s). apply recorded_get; [done|intros [] _]. apply recorded_read.
  destruct (schemas m !! n) eqn:Hs; [by apply recorded_same|]. destruct (good_absent m n Hg Hs) as [Hr Hi].
  unfold put_schema, st_bind, st_mod. rewrite record_undo_run. match goal with |- recorded _ (_, ?x) => set (m' := x) end.
  assert (Hd : data m' = put_table n s ∅ ∅ (data m)) by (unfold data, m', put_table, table_rows, table_indexes; cbn; by rewrite Hr, Hi).
  assert (Hc : counts s ∅ (Some (default 1 (next_row_ids m !! n)))).
  { destruct Hg as [_ [Hk _]]. split; [|intros _; eexists; split; [done|apply map_Forall_empty]].
    intros k [= <-]. destruct (next_row_ids m !! n) as [k|] eqn:E; cbn; [by eapply Hk|lia]. }
  apply (recorded_tables _ _ _ [DropSchema n] [n]); [|done| |].
  - destruct Hg as [Hg1 Hg2]. split; rewrite Hd.
    + apply tables_ok_put; [done|]. split; try done; try apply map_Forall_empty.
    + apply (counters_ok_put (next_row_ids m)); [done|..]; cbn; [intros n' Hn; by rewrite lookup_insert_ne|by rewrite lookup_insert_eq].
  - constructor; [|constructor]. split; [done|]. unfold table_at. cbn. by rewrite Hs, Hr, Hi.
  - intros n' Hn'. rewrite Hd. apply table_at_off. intros ->. apply Hn'. by left.
Qed.

Lemma good_without m m' n :
  good m -> data m' = without_table n (data m) -> next_row_ids m' = delete n (next_row_ids m) -> good m'.
Proof.
  intros [Hg1 Hg2] Hd Hn. split; rewrite Hd; [by apply tables_ok_without|]. rewrite Hn. apply (counters_ok_without (next_row_ids m)); [done| |].
  - intros n' k [_ Hk]%lookup_delete_Some. by apply (proj1 Hg2 n').
  - intros n' Hne. by rewrite lookup_delete_ne.
Qed.

Lemma drop_schema_recorded t n m : good m -> recorded m (drop_schema t n m).
Proof.
  intros Hg. unfold drop_schema. apply recorded_get; [done|intros [] _]. apply recorded_get; [done|intros s Hs%ok_or_Ok_inv]. apply recorded_read.
  unfold remove_table, st_bind, st_mod. rewrite record_undo_run. match goal with |- recorded _ (_, ?x) => set (m' := x) end.
  assert (Hd : data m' = without_table n (data m)) by done.
  apply (recorded_tables _ _ _ [RestoreTable s (table_rows n m) (table_indexes n m) (next_row_ids m !! n)] [n]); [|done| |].
  - by apply (good_without m m' n).
  - constructor; [by apply restores_recorded|constructor].
  - intros n' Hn'. rewrite Hd, table_at_without, decide_False; [done|]. intros ->. apply Hn'. by left.
Qed.

(** The new schema has the columns and the primary key of the old one. *)
Definition replaces s s' : Prop :=
  columns s' = columns s /\ primary_key_constraint s' = primary_key_constraint s /\ without_rowid s' = without_rowid s.

Lemma replace_schema_recorded t s' m :
  good m -> (forall s, schemas m !! schema_name s' = Some s -> replaces s s') -> recorded m (replace_schema t s' m).
Proof.
  intros Hg Hrep. unfold replace_schema. apply recorded_get; [done|intros [] _]. apply recorded_get; [done|intros s Hs%ok_or_Ok_inv].
  destruct (Hrep s Hs) as (Hc & Hpk & Hw). assert (Hmap : columns s' = map (fun c => c) (columns s)) by (by rewrite Hc, map_id).
  eapply (put_schema_recorded m _ tt (schema_name s') s s'); [done..| | |reflexivity].
  - intros rs ixs. by apply (table_ok_map _ _ s s' (fun c => c)).
  - by rewrite (rowid_map s s' (fun c => c)).
Qed.

(** ** Renaming *)

Lemma alter_schema m n s f : schemas m !! n = Some s -> alter f n (schemas m) = <[n := f s]> (schemas m).
Proof.
  intros Hs. apply map_eq. intros n'. destruct (decide (n = n')) as [<-|Hn].
  - by rewrite lookup_alter_eq, lookup_insert_eq, Hs.
  - by rewrite lookup_alter_ne, lookup_insert_ne.
Qed.

Lemma good_schema m m' n s s' :
  good m -> schemas m !! n = Some s -> (forall rs ixs, table_ok n s rs ixs -> table_ok n s' rs ixs) ->
  (integer_primary_key_column_index s' = None -> integer_primary_key_column_index s = None) ->
  data m' = mkData (<[n := s']> (schemas m)) (rows m) (indexes m) -> next_row_ids m' = next_row_ids m ->
  good m' /\ forall n', n <> n' -> table_at (data m') n' = table_at (data m) n'.
Proof.
  intros Hg Hs Hok Hi Hd Hn. destruct (good_table m n s Hg Hs) as (rs & ixs & Hr & Hix & Ht & Hc).
  assert (Hd' : data m' = put_table n s' rs ixs (data m)) by (rewrite Hd; unfold put_table; cbn; by rewrite (insert_id (rows m)), (insert_id (indexes m))).
  rewrite Hd'. split; [|intros n' Hne; by apply table_at_off]. destruct Hg as [Hg1 Hg2]. split; rewrite Hd', ?Hn; [by apply tables_ok_put, Hok|].
  apply (counters_ok_put (next_row_ids m)); [done..|]. by apply (counts_rowid s).
Qed.

(** The loop over the tables with foreign keys to the renamed table or column. *)
Lemma affected_run f (l : list (string * Schema SelectStatement)) : forall m,
  good m -> NoDup (map fst l) -> (forall n s, (n, s) ∈ l -> schemas m !! n = Some s) ->
  exists m' us, st_each (change_affected (map_foreign_keys f)) l m = (Ok tt, m') /\ good m' /\ active_txn m' = push us <$> active_txn m /\
    next_row_ids m' = next_row_ids m /\ Forall2 (restores (data m)) us (map fst l) /\
    forall n, n ∉ map fst l -> table_at (data m') n = table_at (data m) n.
Proof.
  induction l as [|[n s] l IH]; intros m Hg Hnd Hl.
  - exists m, []. rewrite push_nil. by split_and!.
  - cbn [map] in Hnd. apply NoDup_cons in Hnd as [Hn Hnd]. pose proof (Hl n s ltac:(by left)) as Hs.
    set (m1 := set_schemas (<[n := map_foreign_keys f s]> (schemas m)) (record_table s n m).2).
    assert (Hrun : change_affected (map_foreign_keys f) (n, s) m = (Ok tt, m1)).
    { unfold change_affected, st_bind, st_mod. cbn [fst snd]. rewrite record_table_run. subst m1. rewrite record_table_run. cbn [snd].
      by rewrite (alter_schema _ n s). }
    destruct (good_schema m m1 n s (map_foreign_keys f s)) as [Hg1 Hat1]; try done.
    { intros rs ixs. apply table_ok_foreign_keys. }
    { by rewrite (rowid_map s _ (fun c => with_foreign_key (f <$> foreign_key c) c)). }
    destruct (IH m1) as (m' & us & Hrun' & Hg' & Ha & Hnx & Hus & Hat); [done|done| |].
    { intros n2 s2 Hin. cbn. rewrite lookup_insert_ne; [apply Hl; by right|]. intros ->. apply Hn. by apply (list_elem_of_fmap_2 fst) in Hin. }
    exists m', (RestoreTable s (table_rows n m) (table_indexes n m) (next_row_ids m !! n) :: us).
    cbn [st_each map fst]. unfold st_bind at 1. rewrite Hrun. split_and!; [done|done| |by rewrite Hnx| |].
    + rewrite Ha. subst m1. rewrite record_table_run. cbn [active_txn set_schemas snd set_active_txn]. by rewrite push_push.
    + constructor; [by apply restores_recorded|]. apply (restores_all_at (data m1)); [done|]. intros n2 Hn2. symmetry. apply Hat1. intros ->. done.
    + intros n2 Hn2. rewrite elem_of_cons in Hn2. rewrite Hat by tauto. apply Hat1. intros ->. tauto.
Qed.

Lemma NoDup_map_filter {A B} (f : A -> B) (P : A -> Prop) `{forall x, Decision (P x)} l : NoDup (map f l) -> NoDup (map f (filter P l)).
Proof.
  induction l as [|x l IH]; [done|]. cbn [map]. intros [Hx Hl]%NoDup_cons. rewrite filter_cons. case_decide; [|by apply IH].
  cbn [map]. apply NoDup_cons. split; [|by apply IH]. intros (y & Hxy & [_ Hy]%list_elem_of_filter)%list_elem_of_fmap. apply Hx. rewrite Hxy. by apply list_elem_of_fmap_2.
Qed.

Lemma affected_schemas_ok n refers m :
  NoDup (map fst (affected_schemas n refers m)) /\
  (forall n' s, (n', s) ∈ affected_schemas n refers m -> schemas m !! n' = Some s /\ n' <> n).
Proof.
  unfold affected_schemas. split.
  - apply NoDup_map_filter, sorted_by_name_NoDup.
  - intros n' s [[Hne _] Hin]%list_elem_of_filter. cbn in Hne. by apply sorted_by_name_elem in Hin.
Qed.

Lemma put_next_row_id_run n next m : put_next_row_id n next m =
  (Ok tt, set_next_row_ids (match next with Some k => <[n := k]> (next_row_ids m) | None => next_row_ids m end) m).
Proof. destruct next; [done|]. by destruct m. Qed.

(** The table is moved; what refers to it is not yet changed. *)
Lemma moved_good m m1 old_name new_name s rs ixs :
  good m -> schemas m !! old_name = Some s -> schemas m !! new_name = None -> rows m !! old_name = Some rs -> indexes m !! old_name = Some ixs ->
  data m1 = put_table new_name (with_schema_name new_name s) rs ixs (without_table old_name (data m)) ->
  next_row_ids m1 = match next_row_ids m !! old_name with
                    | Some k => <[new_name := k]> (delete old_name (next_row_ids m))
                    | None => delete old_name (next_row_ids m)
                    end -> good m1.
Proof.
  intros Hg Hs Hnew Hr Hi Hd Hn. destruct (good_table m old_name s Hg Hs) as (? & ? & ? & ? & Ht & Hc). simplify_eq.
  destruct Hg as [Hg1 Hg2]. assert (Hk : forall n' k, delete old_name (next_row_ids m) !! n' = Some k -> 0 <= k).
  { intros n' k [_ Hk]%lookup_delete_Some. by apply (proj1 Hg2 n'). }
  assert (Hg2' : counters_ok (delete old_name (next_row_ids m)) (without_table old_name (data m))).
  { apply (counters_ok_without (next_row_ids m)); [done|done|]. intros n' Hne. by rewrite lookup_delete_ne. }
  split; rewrite Hd.
  - apply tables_ok_put; [by apply tables_ok_without|].
    apply (table_ok_map old_name new_name s _ (fun c => c)); try done. cbn. by rewrite map_id.
  - rewrite Hn. destruct (next_row_ids m !! old_name) as [k|] eqn:Ek.
    + apply (counters_ok_put (delete old_name (next_row_ids m))); [done|intros n' Hne; by rewrite lookup_insert_ne|]. by rewrite lookup_insert_eq.
    + apply (counters_ok_put (delete old_name (next_row_ids m))); [done..|]. split; [apply Hk|]. intros Hno. by destruct (proj2 Hc Hno) as (? & ? & _).
Qed.

Lemma rename_schema_recorded t old_name new_name m : good m -> recorded m (rename_schema t old_name new_name m).
Proof.
  intros Hg. unfold rename_schema. apply recorded_get; [done|intros [] _]. apply recorded_read.
  destruct (schemas m !! new_name) eqn:Hnew; [by apply recorded_same|]. apply recorded_get; [done|intros s Hs%ok_or_Ok_inv].
  do 3 apply recorded_read. destruct (good_table m old_name s Hg Hs) as (rs & ixs & Hr & Hi & Ht & Hc).
  destruct (good_absent m new_name Hg Hnew) as [Hr' Hi']. assert (Hne : old_name <> new_name) by congruence.
  unfold remove_table, put_schema, put_rows, put_indexes, st_bind, st_mod, st_read. rewrite !record_undo_run, put_next_row_id_run.
  match goal with |- context [st_each _ _ ?x] => set (m1 := x) end.
  assert (Hrows : table_rows old_name m = rs) by (unfold table_rows; by rewrite Hr).
  assert (Hixs : table_indexes old_name m = ixs) by (unfold table_indexes; by rewrite Hi).
  assert (Hd1 : data m1 = put_table new_name (with_schema_name new_name s) rs ixs (without_table old_name (data m))) by (by rewrite <- Hrows, <- Hixs).
  assert (Hg1 : good m1) by (by apply (moved_good m m1 old_name new_name s rs ixs)).
  destruct (affected_schemas_ok new_name (fun fk => String.eqb (ref_table fk) old_name) m1) as [Hnd Haff]. set (l := affected_schemas _ _ m1) in *.
  destruct (affected_run (fun fk => with_ref_table (rename old_name new_name (ref_table fk)) fk) l m1) as (m2 & us & Hrun & Hg2 & Ha2 & Hn2 & Hus & Hat2);
    [done|done|intros n' s' Hin; by apply Haff|].
  change (map_foreign_keys _) with (rename_foreign_key_ref_table (SelectStatement := SelectStatement) old_name new_name) in Hrun. rewrite Hrun. clear Hrun.
  assert (Hs2 : schemas m2 !! new_name = Some (with_schema_name new_name s)).
  { pose proof (Hat2 new_name) as Hat. unfold table_at in Hat. rewrite Hd1 in Hat. cbn in Hat. rewrite lookup_insert_eq in Hat.
    destruct (decide (new_name ∈ map fst l)) as [Hin|Hin]; [|by injection (Hat Hin)].
    apply list_elem_of_fmap in Hin as ([n' s'] & -> & Hin). by apply Haff in Hin as [_ ?]. }
  match goal with |- recorded _ (_, ?x) => set (m3 := x) end.
  destruct (good_schema m2 m3 new_name (with_schema_name new_name s) (rename_foreign_key_ref_table old_name new_name (with_schema_name new_name s)))
    as [Hg3 Hat3]; try done.
  { intros rs2 ixs2. apply table_ok_foreign_keys. }
  { unfold rename_foreign_key_ref_table. by rewrite (rowid_map (with_schema_name new_name s) _ (fun c => with_foreign_key
      ((fun fk => with_ref_table (rename old_name new_name (ref_table fk)) fk) <$> foreign_key c) c)). }
  { unfold data, m3. cbn. by rewrite (alter_schema _ _ _ _ Hs2). }
  apply (recorded_tables _ _ _ ([RestoreTable s rs ixs (next_row_ids m !! old_name); DropSchema new_name] ++ us) ([old_name; new_name] ++ map fst l)); [done| | |].
  - transitivity (active_txn m2); [done|]. rewrite Ha2. rewrite <- Hrows, <- Hixs, <- push_push. subst m1. cbn [active_txn set_active_txn set_schemas set_rows set_indexes set_next_row_ids].
    by rewrite !push_push.
  - apply Forall2_app; [constructor; [|constructor; [|constructor]]|].
    + rewrite <- Hrows, <- Hixs. by apply restores_recorded.
    + split; [done|]. unfold table_at. cbn. by rewrite Hnew, Hr', Hi'.
    + apply (restores_all_at (data m1)); [done|]. intros n' Hin. apply list_elem_of_fmap in Hin as ([n2 s2] & -> & Hin).
      destruct (Haff _ _ Hin) as [Hin1 Hne2]. cbn [fst]. symmetry. rewrite Hd1, table_at_off by done. rewrite table_at_without, decide_False; [done|].
      intros <-. assert (Hsch : schemas m1 !! old_name = None); [|by rewrite Hsch in Hin1].
      change (schemas m1) with (d_schemas (data m1)). rewrite Hd1. cbn. by rewrite lookup_insert_ne, lookup_delete_eq.
  - intros n' Hn'. rewrite !elem_of_app, !elem_of_cons in Hn'. rewrite Hat3 by (intros ->; tauto). rewrite Hat2 by tauto. rewrite Hd1.
    rewrite table_at_off by (intros ->; tauto). rewrite table_at_without, decide_False; [done|]. intros ->. tauto.
Qed.
End TableCalls.

(** * Column operations of the memory engine

    Renaming, adding and dropping columns: the rows and the indexes follow the schema. *)


(** ** Renaming a column *)

Section Renaming.
Context (old_name new_name : string).
#[local] Abbreviation ren := (rename old_name new_name).

Lemma rename_inj a b : a <> new_name -> b <> new_name -> ren a = ren b <-> a = b.
Proof. unfold rename. intros. destruct (String.eqb_spec a old_name), (String.eqb_spec b old_name); split; congruence. Qed.

Lemma column_position_rename g name cols :
  name <> new_name -> new_name ∉ map column_name cols -> (forall c, column_name (g c) = ren (column_name c)) ->
  column_position (ren name) (map g cols) = column_position name cols.
Proof.
  intros Hname Hnew Hg. induction cols as [|c cols IH]; [done|]. cbn [map] in *. apply not_elem_of_cons in Hnew as [Hc Hnew].
  rewrite !column_position_cons, IH, Hg by done. erewrite (bool_decide_ext (ren (column_name c) = _)); [done|]. by apply rename_inj.
Qed.

Lemma key_at_rename g cols names row :
  projects cols names -> new_name ∉ map column_name cols -> (forall c, column_name (g c) = ren (column_name c)) ->
  key_at (map g cols) (map ren names) row = key_at cols names row /\ projects (map g cols) (map ren names).
Proof.
  intros Hp Hnew Hg. unfold key_at, projects in *. induction Hp as [|name names Hname Hp [IH1 IH2]]; [by split; constructor|].
  assert (Hne : name <> new_name) by (intros ->; by apply Hnew, column_position_In).
  cbn [map mapM]. rewrite Forall_cons, column_position_rename, IH1 by done. done.
Qed.

Lemma index_ok_rename g cols rs ix :
  index_ok cols rs ix -> new_name ∉ map column_name cols -> (forall c, column_name (g c) = ren (column_name c)) ->
  index_ok (map g cols) rs (rename_index_column old_name new_name ix).
Proof.
  intros [Hp He Hu] Hnew Hg. assert (Hk : forall key, keyed (map g cols) (meta (rename_index_column old_name new_name ix)) rs key = keyed cols (meta ix) rs key).
  { intros key. apply set_eq. intros id. rewrite !elem_of_keyed. cbn.
    setoid_rewrite (fun row => proj1 (key_at_rename g cols (index_columns (meta ix)) row Hp Hnew Hg)). done. }
  split.
  - by apply (key_at_rename g cols (index_columns (meta ix)) []).
  - intros key. rewrite Hk. apply He.
  - intros key i j. rewrite !Hk. apply Hu.
Qed.

Lemma table_ok_rename {SelectStatement} n (s s' : Schema SelectStatement) g rs ixs :
  columns s' = map g (columns s) -> (forall c, column_name (g c) = ren (column_name c) /\ primary_key (g c) = primary_key c /\
    column_type (g c) = column_type c /\ primary_key_sort_order (g c) = primary_key_sort_order c) ->
  primary_key_constraint s' = primary_key_constraint s -> without_rowid s' = without_rowid s -> schema_name s' = n ->
  new_name ∉ map column_name (columns s) -> (forall pk, primary_key_constraint s = Some pk -> old_name ∉ pk_columns pk) ->
  table_ok n s rs ixs -> table_ok n s' rs (rename_index_column old_name new_name <$> ixs).
Proof.
  intros Hc Hg Hpk Hw Hn Hnew Hold [].
  assert (Hnames : column_name <$> columns s' = ren <$> (column_name <$> columns s)).
  { rewrite Hc. rewrite <- !list_fmap_compose. apply list_fmap_ext. intros i c _. apply (Hg c). }
  split; try done.
  - rewrite Hnames. apply NoDup_fmap_2_strong; [|done]. intros a b Ha Hb. apply rename_inj; intros ->; done.
  - intros pk Epk. rewrite Hpk in Epk. destruct (ok_flagged pk Epk) as [(c & Hin & Hf) Hall]. rewrite Hc. split.
    + exists (g c). split; [by apply list_elem_of_fmap_2|]. by rewrite (proj1 (proj2 (Hg c))).
    + intros c' (c2 & -> & Hin2)%list_elem_of_fmap Hf2. destruct (Hg c2) as (-> & Hp2 & _). rewrite Hp2 in Hf2.
      pose proof (Hall c2 Hin2 Hf2) as Hcol. unfold rename. destruct (String.eqb_spec (column_name c2) old_name) as [E|]; [|done].
      rewrite E in Hcol. by destruct (Hold pk Epk).
  - intros id row Hid. rewrite Hc, length_map. by apply (ok_rows id).
  - intros i Hi. apply ok_rowids. rewrite <- Hi. symmetry. apply (rowid_map s s' g); [done..|]. intros c. by destruct (Hg c) as (_ & ? & ? & ?).
  - intros name ix Hix. rewrite lookup_fmap in Hix. apply fmap_Some in Hix as (ix0 & Hix & ->). rewrite Hc.
    apply index_ok_rename; [by apply (ok_indexes name)|done|]. intros c. apply (Hg c).
Qed.
End Renaming.

Section ColumnCalls.
Context {SelectStatement : Type} `{Libm, JsonParser}.
Context (now : Z + string).
Implicit Types (m : MemoryStorage SelectStatement) (s : Schema SelectStatement).

(** The primary key constraint does not name the column, which renaming would leave behind
    there ([rename_column_correct]). *)
Definition outside_primary_key s (name : string) : Prop := forall pk, primary_key_constraint s = Some pk -> name ∉ pk_columns pk.

Lemma recorded_identity {A} m m' (r : Result A) s n :
  good m -> schemas m !! n = Some s -> m' = (record_table s n m).2 -> recorded m (r, m').
Proof.
  intros Hg Hs ->. rewrite record_table_run. match goal with |- recorded _ (_, ?x) => set (m' := x) end.
  split; [by apply (good_after m)| |done]. exists [RestoreTable s (table_rows n m) (table_indexes n m) (next_row_ids m !! n)]. split; [done|].
  apply (undoes_restore _ _ [n]); [constructor; [by apply restores_recorded|constructor]|done].
Qed.

Lemma updated_columns n old_name new_name s : exists g,
  columns (rename_foreign_key_ref_column n old_name new_name (rename_column_references old_name new_name s)) = map g (columns s) /\
  forall c, column_name (g c) = rename old_name new_name (column_name c) /\ primary_key (g c) = primary_key c /\
    column_type (g c) = column_type c /\ primary_key_sort_order (g c) = primary_key_sort_order c.
Proof.
  eexists. split.
  - unfold rename_foreign_key_ref_column, map_foreign_keys, rename_column_references. cbn. rewrite map_map. reflexivity.
  - by intros c.
Qed.

Lemma rename_column_recorded t n old_name new_name m :
  good m -> (forall s, schemas m !! n = Some s -> outside_primary_key s old_name) -> recorded m (rename_column t n old_name new_name m).
Proof.
  intros Hg Hpk. unfold rename_column. apply recorded_get; [done|intros [] _]. apply recorded_get; [done|intros s Hs%ok_or_Ok_inv].
  destruct (has_column s old_name); cbn [negb]; [|by apply recorded_same]. destruct (has_column s new_name) eqn:Hnew; [by apply recorded_same|].
  apply not_true_iff_false in Hnew. rewrite has_column_In in Hnew.
  destruct (good_table m n s Hg Hs) as (rs & ixs & Hr & Hi & Ht & Hc).
  set (updated := rename_foreign_key_ref_column n old_name new_name (rename_column_references old_name new_name s)).
  unfold st_bind at 1. rewrite record_table_run. unfold st_bind at 1, st_get. destruct (validate_constraints_metadata updated) as [[]|e|w|];
    [|by eapply recorded_identity; [..|by rewrite record_table_run]..].
  unfold put_schema, st_bind, st_mod, st_read. match goal with |- context [st_each _ _ ?x] => set (m1 := x) end.
  set (ixs' := rename_index_column old_name new_name <$> ixs).
  assert (Hd1 : data m1 = put_table n updated rs ixs' (data m)).
  { unfold data, put_table. subst m1. cbn. rewrite (insert_id (rows m)) by done. f_equal. apply map_eq. intros n'.
    destruct (decide (n = n')) as [<-|Hne]; [by rewrite lookup_alter_eq, lookup_insert_eq, Hi|by rewrite lookup_alter_ne, lookup_insert_ne]. }
  assert (Hg1 : good m1).
  { destruct (updated_columns n old_name new_name s) as (g & Hcols & Hgc).
    apply (good_put m m1 n updated rs ixs'); [done|done| |done|].
    - apply (table_ok_rename old_name new_name n s updated g); [done|done|done|done|apply Ht|done|by apply Hpk|done].
    - apply (counts_rowid s); [|done]. rewrite (rowid_map s updated g); [done|done|done|]. intros c. apply (Hgc c). }
  destruct (affected_schemas_ok n (fun fk => String.eqb (ref_table fk) n && has_referenced_column fk old_name) m1) as [Hnd Haff]. set (l := affected_schemas _ _ m1) in *.
  destruct (affected_run (fun fk => if String.eqb (ref_table fk) n then rename_ref_columns old_name new_name fk else fk) l m1)
    as (m2 & us & Hrun & Hg2 & Ha2 & Hn2 & Hus & Hat2); [done|done|intros n' s' Hin; by apply Haff|].
  change (map_foreign_keys _) with (rename_foreign_key_ref_column (SelectStatement := SelectStatement) n old_name new_name) in Hrun. rewrite Hrun. clear Hrun.
  apply (recorded_tables _ _ _ ([RestoreTable s (table_rows n m) (table_indexes n m) (next_row_ids m !! n)] ++ us) ([n] ++ map fst l)); [done| | |].
  - rewrite Ha2. subst m1. cbn [active_txn set_active_txn set_schemas set_indexes]. by rewrite push_push.
  - apply Forall2_app; [constructor; [by apply restores_recorded|constructor]|]. apply (restores_all_at (data m1)); [done|].
    intros n' Hin. apply list_elem_of_fmap in Hin as ([n2 s2] & -> & Hin). destruct (Haff _ _ Hin) as [_ Hne2]. cbn [fst].
    symmetry. rewrite Hd1. by apply table_at_off.
  - intros n' Hn'. rewrite elem_of_app, list_elem_of_singleton in Hn'. rewrite Hat2 by tauto. rewrite Hd1. apply table_at_off. intros ->. tauto.
Qed.

(** ** Dropping a column *)

Lemma drop_column_shape s name s' i : drop_column name s = Ok (s', i) ->
  s' = with_columns (delete i (columns s)) s /\ exists c, columns s !! i = Some c /\ column_name c = name /\ primary_key c = false.
Proof.
  unfold drop_column. destruct (column_position name (columns s)) as [j|] eqn:Ej; cbn [ok_or bind]; [|done].
  apply column_position_Some in Ej as (c & Hc & Hn & _). unfold vec_index. rewrite Hc. cbn [bind].
  destruct (length _ =? 1)%nat; [done|]. destruct (primary_key c) eqn:Ep; [done|]. repeat (match goal with |- (if ?b then _ else _) = _ -> _ => destruct b; [done|] end).
  intros (_ & _ & [= <- <-])%bind_Ok_inv. eauto.
Qed.

Lemma key_delete name c i cols (row : Row) : cols !! i = Some c -> column_name c <> name -> length row = length cols ->
  (column_position name (delete i cols) ≫= (delete i row !!.)) = (column_position name cols ≫= (row !!.)) /\
  (is_Some (column_position name cols) -> is_Some (column_position name (delete i cols))).
Proof.
  revert cols row. induction i as [|i IH]; intros [|d cols] [|v row] Hi Hne Hl; try done; injection Hl as Hl.
  - injection Hi as ->. cbn [delete list_delete]. rewrite column_position_cons, bool_decide_eq_false_2 by done.
    by destruct (column_position name cols).
  - destruct (IH cols row Hi Hne Hl) as [IH1 IH2]. change (delete (S i) (d :: cols)) with (d :: delete i cols). change (delete (S i) (v :: row)) with (v :: delete i row).
    rewrite !column_position_cons. case_bool_decide; [done|].
    destruct (column_position name (delete i cols)), (column_position name cols); cbn in *; try done; (split; [done|]); intros _; by apply IH2.
Qed.

Lemma rowid_delete s i c j : columns s !! i = Some c -> primary_key c = false ->
  integer_primary_key_column_index (with_columns (delete i (columns s)) s) = Some j ->
  integer_primary_key_column_index s = Some (if (j <? i)%nat then j else S j).
Proof.
  intros Hi Hc. rewrite !rowid_Some. cbn -[Nat.ltb]. intros (Hw & c' & Hj & Hp & Ht & Ho & Hu). split; [done|]. exists c'.
  assert (Hlook : forall k x, delete i (columns s) !! k = Some x <-> columns s !! (if (k <? i)%nat then k else S k) = Some x).
  { intros k x. destruct (Nat.ltb_spec k i); [by rewrite list_lookup_delete_lt|by rewrite list_lookup_delete_ge]. }
  split_and!; [by apply Hlook|done..|]. intros k c2 Hk Hp2. assert (k <> i) by congruence.
  assert (Hk' : delete i (columns s) !! (if (k <? i)%nat then k else pred k) = Some c2).
  { apply Hlook. destruct (Nat.ltb_spec k i) as [Hlt|Hge]; [by rewrite (proj2 (Nat.ltb_lt _ _) Hlt)|].
    destruct (Nat.ltb_spec (pred k) i); [lia|]. by replace (S (pred k)) with k by lia. }
  apply Hu in Hk'; [|done]. rewrite <- Hk'. destruct (Nat.ltb_spec k i) as [Hlt|Hge]; [by rewrite (proj2 (Nat.ltb_lt _ _) Hlt)|].
  rewrite (proj2 (Nat.ltb_ge _ _)) by lia. lia.
Qed.

Lemma rowid_delete_None s i c : columns s !! i = Some c -> primary_key c = false ->
  integer_primary_key_column_index (with_columns (delete i (columns s)) s) = None -> integer_primary_key_column_index s = None.
Proof.
  intros Hi Hc Hn. destruct (integer_primary_key_column_index s) as [j|] eqn:Ej; [exfalso|done]. apply rowid_Some in Ej as (Hw & c' & Hj & Hp & Ht & Ho & Hu).
  assert (j <> i) by congruence. assert (Hsome : integer_primary_key_column_index (with_columns (delete i (columns s)) s) = Some (if (j <? i)%nat then j else pred j)); [|congruence].
  assert (Hlook : forall k x, delete i (columns s) !! k = Some x <-> columns s !! (if (k <? i)%nat then k else S k) = Some x).
  { intros k x. destruct (Nat.ltb_spec k i); [by rewrite list_lookup_delete_lt|by rewrite list_lookup_delete_ge]. }
  apply rowid_Some. cbn -[Nat.ltb]. split; [done|]. exists c'. split_and!; [|done..|].
  - apply Hlook. destruct (Nat.ltb_spec j i) as [Hlt|Hge]; [by rewrite (proj2 (Nat.ltb_lt _ _) Hlt)|].
    destruct (Nat.ltb_spec (pred j) i); [lia|]. by replace (S (pred j)) with j by lia.
  - intros k c2 Hk%Hlook Hp2. rewrite <- (Hu _ _ Hk Hp2). destruct (Nat.ltb_spec k i) as [Hlt|Hge]; [by rewrite (proj2 (Nat.ltb_lt _ _) Hlt)|].
    rewrite (proj2 (Nat.ltb_ge _ _)) by lia. lia.
Qed.

(** No index is on the column: the engine does not drop them, and rebuilding them fails. *)
Definition unindexed (ixs : Indexes) (name : string) : Prop := map_Forall (fun _ ix => name ∉ index_columns (meta ix)) ixs.

Lemma table_ok_delete n s i c rs ixs :
  columns s !! i = Some c -> primary_key c = false -> unindexed ixs (column_name c) -> table_ok n s rs ixs ->
  table_ok n (with_columns (delete i (columns s)) s) (delete i <$> rs) ixs /\
  map_Forall (fun _ ix => rebuild_index (with_columns (delete i (columns s)) s) (delete i <$> rs) ix = (Ok tt, ix)) ixs.
Proof.
  intros Hi Hc Hun []. set (s' := with_columns (delete i (columns s)) s).
  assert (Hlt : (i < length (columns s))%nat) by (by apply lookup_lt_Some in Hi).
  assert (Hlen : map_Forall (fun _ (row : Row) => length row = length (columns s')) (delete i <$> rs)).
  { intros id row Hid. rewrite lookup_fmap in Hid. apply fmap_Some in Hid as (row0 & Hid & ->). specialize (ok_rows id row0 Hid). cbn in *.
    by rewrite !length_delete, ok_rows by (eapply lookup_lt_is_Some_2; lia). }
  assert (Hix : map_Forall (fun _ ix => projects (columns s') (index_columns (meta ix)) /\
    forall key, keyed (columns s') (meta ix) (delete i <$> rs) key = keyed (columns s) (meta ix) rs key) ixs).
  { intros name ix Hname. specialize (ok_indexes name ix Hname). specialize (Hun name ix Hname). cbn in Hun. split.
    - pose proof (ix_projects _ _ _ ok_indexes) as Hp. unfold projects in *. rewrite Forall_forall in *. intros col Hcol.
      eapply (key_delete col c i (columns s) (map (fun _ => Null) (columns s))); [done|intros Heq; apply Hun; by rewrite Heq|by rewrite length_map|by apply Hp].
    - intros key. apply keyed_ext. intros id. rewrite lookup_fmap. destruct (rs !! id) as [row|] eqn:Hid; [|done]. cbn. apply key_at_ext.
      intros col Hcol. symmetry. eapply key_delete; [done|intros Heq; apply Hun; by rewrite Heq|by apply (ok_rows id)]. }
  split; [split; try done|].
  - eapply sublist_NoDup; [exact ok_columns|]. cbn. rewrite list_fmap_delete. apply sublist_delete.
  - intros pk Epk. destruct (ok_flagged pk Epk) as [(c0 & Hin & Hf) Hall]. cbn. split.
    + exists c0. split; [|done]. apply list_elem_of_lookup in Hin as [k Hk]. assert (k <> i) by congruence. apply list_elem_of_lookup.
      destruct (decide (k < i)%nat); [exists k; by rewrite list_lookup_delete_lt|]. exists (pred k). rewrite list_lookup_delete_ge by lia. by replace (S (pred k)) with k by lia.
    + intros c2 [k Hk]%list_elem_of_lookup. apply Hall.
      destruct (decide (k < i)%nat); [rewrite list_lookup_delete_lt in Hk by done|rewrite list_lookup_delete_ge in Hk by lia]; by eapply list_elem_of_lookup_2.
  - intros id row Hid. rewrite lookup_fmap in Hid. apply fmap_Some in Hid as (row0 & Hid & _). by apply (ok_ids id row0).
  - intros j Hj id row Hid. rewrite lookup_fmap in Hid. apply fmap_Some in Hid as (row0 & Hid & ->).
    apply (rowid_delete s i c) in Hj; [|done..]. specialize (ok_rowids _ Hj id row0 Hid). cbn beta in ok_rowids.
    destruct (Nat.ltb_spec j i); [by rewrite list_lookup_delete_lt|by rewrite list_lookup_delete_ge].
  - intros name ix Hname. destruct (Hix name ix Hname) as [Hp Hk]. eapply index_ok_keyed; [done|exact Hk|by apply (ok_indexes name)].
  - intros name ix Hname. destruct (Hix name ix Hname) as [Hp Hk]. destruct (rebuild_index_ok s' (delete i <$> rs) ix) as (ix' & Hrun & Hm & He); [done..|].
    rewrite Hrun. f_equal. specialize (ok_indexes name ix Hname). apply (index_determined (columns s) rs); [|done|done].
    destruct ok_indexes as [H1 H2 H3]. split; rewrite Hm; [done| |done]. intros key. by rewrite He, Hk.
Qed.

Lemma counts_dom s (rs rs' : Rows) next : (forall id, is_Some (rs' !! id) -> is_Some (rs !! id)) -> counts s rs next -> counts s rs' next.
Proof.
  intros Hdom [Hc1 Hc2]. split; [done|]. intros Hn. destruct (Hc2 Hn) as (k & -> & Hall). exists k. split; [done|].
  intros id row' Hid. destruct (Hdom id) as [row Hrow]; [by eexists|]. by apply (Hall id row).
Qed.

Lemma dropped_rows i rs (n : nat) :
  (i < n)%nat -> map_Forall (fun _ (row : Row) => length row = n) rs ->
  exists l, mapM_res (drop_row_value i) (sorted_items rs) = Ok l /\ list_to_map l = (delete i <$> rs : Rows).
Proof.
  intros Hi Hrows. exists (map (prod_map Datatypes.id (delete i)) (sorted_items rs)). split.
  - apply mapM_res_ok. intros [k row] Hin%elem_of_sorted_items. unfold drop_row_value, vec_remove. cbn [fst snd prod_map].
    rewrite (proj2 (Nat.ltb_lt _ _)); [done|]. pose proof (Hrows k row Hin) as Hl. cbn in Hl. by rewrite Hl.
  - change (map ?f ?l) with (f <$> l). by rewrite list_to_map_fmap, list_to_map_sorted_items.
Qed.

Lemma drop_column_recorded t n name m :
  good m -> (forall ixs, indexes m !! n = Some ixs -> unindexed ixs name) -> recorded m (drop_table_column t n name m).
Proof.
  intros Hg Hun. unfold drop_table_column. apply recorded_get; [done|intros [] _]. apply recorded_get; [done|intros s Hs%ok_or_Ok_inv].
  apply recorded_get; [done|intros [s' i] (-> & c & Hi & <- & Hp)%drop_column_shape].
  destruct (good_table m n s Hg Hs) as (rs & ixs & Hr & Hix & Ht & Hc).
  destruct (table_ok_delete n s i c rs ixs) as [Ht' Hrebuild]; [done|done|by apply Hun|done|]. set (s' := with_columns _ s) in *.
  destruct (dropped_rows i rs (length (columns s))) as (l & Hl & Hmap); [by apply lookup_lt_Some in Hi|apply Ht|].
  assert (Hrows : table_rows n m = rs) by (unfold table_rows; by rewrite Hr).
  unfold st_bind at 1. rewrite record_table_run. unfold st_bind at 1, st_get. change (table_rows n (set_active_txn _ m)) with (table_rows n m).
  rewrite Hrows, Hl. unfold put_schema, put_rows, st_bind, st_mod. rewrite Hmap.
  unfold rebuild_indexes_for_schema. match goal with |- context [for_indexes _ _ ?x] => set (m1 := x) end.
  rewrite (for_indexes_run n _ m1 ixs); [|done|by intros x ix Hx; rewrite (Hrebuild x ix Hx)].
  replace ((fun ix => (rebuild_index s' (delete i <$> rs) ix).2) <$> ixs) with ixs.
  2:{ apply map_eq. intros x. rewrite lookup_fmap. destruct (ixs !! x) as [ix|] eqn:E; [|done]. pose proof (Hrebuild x ix E) as Hx. cbn beta in Hx. cbn [fmap option_fmap option_map]. by rewrite Hx. }
  match goal with |- recorded _ (_, ?x) => set (m' := x) end.
  assert (Hd : data m' = put_table n s' (delete i <$> rs) ixs (data m)) by done.
  apply (recorded_tables _ _ _ [RestoreTable s rs (table_indexes n m) (next_row_ids m !! n)] [n]); [|done| |].
  - apply (good_put m m' n s' (delete i <$> rs) ixs); [done..|]. eapply counts_rowid; [by apply (rowid_delete_None s i c)|].
    apply (counts_dom s rs); [|done]. intros id. by rewrite lookup_fmap, fmap_is_Some.
  - rewrite <- Hrows. constructor; [by apply restores_recorded|constructor].
  - intros n' Hn'. rewrite Hd. apply table_at_off. intros ->. apply Hn'. by left.
Qed.

(** ** Adding a column *)

Lemma insert_rows_lookup l (rs : Rows) id :
  NoDup (map fst l) -> insert_rows l rs !! id = match (list_to_map l : Rows) !! id with Some row => Some row | None => rs !! id end.
Proof.
  unfold insert_rows. revert rs. induction l as [|[k row] l IH]; intros rs Hnd; [cbn; by rewrite lookup_empty|].
  cbn [map] in Hnd. apply NoDup_cons in Hnd as [Hk Hnd]. cbn [fold_left]. rewrite IH by done. cbn.
  destruct (decide (id = k)) as [->|Hne].
  - by rewrite lookup_insert_eq, (not_elem_of_list_to_map_1 l k Hk), lookup_insert_eq.
  - by rewrite !lookup_insert_ne by done.
Qed.

(** The rows a checked loop makes, one for each. *)
Lemma mapped_rows (f : RowId * Row -> Result (RowId * Row)) rs l :
  (forall id row x, f (id, row) = Ok x -> x.1 = id) -> mapM_res f (sorted_items rs) = Ok l ->
  NoDup (map fst l) /\ forall id, match rs !! id, (list_to_map l : Rows) !! id with
                                 | Some row, Some row' => f (id, row) = Ok (id, row')
                                 | None, None => True
                                 | _, _ => False
                                 end.
Proof.
  intros Hf Hl%mapM_res_Forall2. assert (Hfst : map fst l = map fst (sorted_items rs)).
  { clear -Hl Hf. induction Hl as [|[k row] x rs' l Hx _ IH]; [done|]. cbn. f_equal; [by apply (Hf k row)|done]. }
  assert (Hnd : NoDup (map fst l)) by (rewrite Hfst; apply sorted_items_NoDup). split; [done|]. intros id.
  destruct (rs !! id) as [row|] eqn:E.
  - apply elem_of_sorted_items, list_elem_of_lookup in E as [i Hi]. destruct (Forall2_lookup_l _ _ _ _ _ Hl Hi) as ([k row'] & Hi' & Hx).
    pose proof (Hf id row _ Hx) as Hk. cbn in Hk. subst k. apply list_elem_of_lookup_2, (elem_of_list_to_map l id row' Hnd) in Hi'. by rewrite Hi'.
  - destruct (list_to_map l !! id) as [row'|] eqn:E2; [|done]. apply elem_of_list_to_map in E2; [|done]. apply (list_elem_of_fmap_2 fst) in E2.
    change (fst <$> l) with (map fst l) in E2. rewrite Hfst in E2.
    apply list_elem_of_fmap in E2 as ([k row] & Hk & Hin%elem_of_sorted_items). cbn in Hk. congruence.
Qed.

(** The new column is not in the primary key, and normalising an extended row changes the
    new value only, which holds of tables that are not STRICT. *)
Definition extends_table s (rs : Rows) (column : ColumnDef) : Prop :=
  primary_key column = false /\ forall id row v r, rs !! id = Some row ->
    normalize_strict_row_values (with_columns (columns s ++ [column]) s) (row ++ [v]) = Ok r -> exists v', r = row ++ [v'].

Lemma not_strict_extends s rs column : strict s = false -> primary_key column = false -> extends_table s rs column.
Proof. intros Hs Hp. split; [done|]. intros id row v r _. unfold normalize_strict_row_values. cbn. rewrite Hs. cbn. intros [= <-]. by exists v. Qed.

Lemma rowid_extend s c : primary_key c = false ->
  integer_primary_key_column_index (with_columns (columns s ++ [c]) s) = integer_primary_key_column_index s.
Proof.
  intros Hc. apply option_eq. intros j. rewrite !rowid_Some. cbn. apply and_iff_compat_l.
  assert (Hat : forall k c', primary_key c' = true -> (columns s ++ [c]) !! k = Some c' <-> columns s !! k = Some c').
  { intros k c' Hp. rewrite lookup_app. destruct (columns s !! k) eqn:E; [done|]. split; [|done]. intros [_ ->]%list_lookup_singleton_Some. congruence. }
  split; intros (c' & Hj & Hp & Ht & Ho & Hu); exists c'; (split_and!; [by apply Hat|done..|]); intros k c2 Hk Hp2; apply (Hu k c2); try done; by apply Hat.
Qed.

Lemma key_at_extend cols c names (row : Row) v :
  projects cols names -> length row = length cols -> key_at (cols ++ [c]) names (row ++ [v]) = key_at cols names row /\ projects (cols ++ [c]) names.
Proof.
  intros Hp Hl. assert (Hpos : forall name i, column_position name cols = Some i -> column_position name (cols ++ [c]) = Some i).
  { intros name i Hi. apply column_position_Some in Hi as (c' & Hi & Hn & Hfirst). apply column_position_Some. exists c'.
    pose proof (lookup_lt_Some _ _ _ Hi). split_and!; [by rewrite lookup_app_l|done|]. intros j c2 Hj Hc2. rewrite lookup_app_l in Hc2 by lia. by apply (Hfirst j). }
  unfold projects in *. rewrite Forall_forall in Hp. split.
  - apply key_at_ext. intros name Hin. destruct (Hp name Hin) as [i Hi]. rewrite (Hpos _ _ Hi), Hi. cbn.
    apply lookup_app_l. rewrite Hl. by apply column_position_lt in Hi.
  - rewrite Forall_forall. intros name Hin. destruct (Hp name Hin) as [i Hi]. rewrite (Hpos _ _ Hi). done.
Qed.

Lemma table_ok_extend n s c rs rs' ixs :
  has_column s (column_name c) = false -> primary_key c = false -> table_ok n s rs ixs ->
  (forall id, match rs !! id, rs' !! id with Some row, Some row' => exists v, row' = row ++ [v] | None, None => True | _, _ => False end) ->
  table_ok n (with_columns (columns s ++ [c]) s) rs' ixs.
Proof.
  intros Hnew Hc [] Hrows. apply not_true_iff_false in Hnew. rewrite has_column_In in Hnew.
  assert (Hold : forall id row', rs' !! id = Some row' -> exists row v, rs !! id = Some row /\ row' = row ++ [v] /\ length row = length (columns s)).
  { intros id row' Hid. specialize (Hrows id). rewrite Hid in Hrows. destruct (rs !! id) as [row|] eqn:E; [|done]. destruct Hrows as [v ->].
    exists row, v. split_and!; [done..|by apply (ok_rows id)]. }
  split; try done.
  - cbn. rewrite fmap_app. apply NoDup_app. split_and!; [done| |apply NoDup_singleton]. intros x Hx Hx2. apply list_elem_of_singleton in Hx2. by subst.
  - intros pk Epk. destruct (ok_flagged pk Epk) as [(c0 & Hin & Hf) Hall]. cbn. split; [exists c0; split; [apply elem_of_app; by left|done]|].
    intros c2 [Hin2|Hin2]%elem_of_app Hf2; [by apply Hall|]. apply list_elem_of_singleton in Hin2. congruence.
  - intros id row' (row & v & Hid & _)%Hold. by apply (ok_ids id row).
  - intros id row' (row & v & _ & -> & Hl)%Hold. cbn. rewrite !length_app. cbn. lia.
  - intros i Hi id row' (row & v & Hid & -> & Hl)%Hold. rewrite rowid_extend in Hi by done. specialize (ok_rowids i Hi id row Hid). cbn in ok_rowids.
    cbn. by apply lookup_app_l_Some.
  - intros name ix Hix. specialize (ok_indexes name ix Hix). apply (index_ok_keyed (columns s) _ rs); [|intros key|done]; destruct ok_indexes as [Hp _ _].
    + by apply (key_at_extend (columns s) c _ (map (fun _ => Null) (columns s)) Null Hp), length_map.
    + apply keyed_ext. intros id. specialize (Hrows id). destruct (rs !! id) as [row|] eqn:E, (rs' !! id) as [row'|]; try done.
      destruct Hrows as [v ->]. cbn. symmetry. apply key_at_extend; [done|by apply (ok_rows id)].
Qed.

Lemma add_column_recorded t n column m :
  good m -> (forall s rs, schemas m !! n = Some s -> rows m !! n = Some rs -> extends_table s rs column) ->
  recorded m (add_column now t n column m).
Proof.
  intros Hg Hext. unfold add_column. apply recorded_get; [done|intros [] _]. apply recorded_get; [done|intros s Hs%ok_or_Ok_inv].
  destruct (has_column s (column_name column)) eqn:Hnew; [by apply recorded_same|].
  apply recorded_get; [done|intros value _]. apply recorded_get; [done|intros [] _]. apply recorded_get; [done|intros l Hl].
  destruct (good_table m n s Hg Hs) as (rs & ixs & Hr & Hix & Ht & Hc). destruct (Hext s rs Hs Hr) as [Hp Hnorm].
  assert (Hrows : table_rows n m = rs) by (unfold table_rows; by rewrite Hr). rewrite Hrows in Hl.
  apply mapped_rows in Hl as [Hnd Hl]; [|intros id row x Hx; unfold extend_row in Hx; inv_res; done].
  unfold st_bind at 1. rewrite record_table_run. unfold put_schema, st_bind, st_mod.
  match goal with |- recorded _ (_, ?x) => set (m' := x) end. set (rs' := insert_rows l rs). set (s' := with_columns (columns s ++ [column]) s) in *.
  assert (Hm : data m = put_table n s rs ixs (data m)) by (by rewrite put_same).
  assert (Hd : data m' = put_table n s' rs' ixs (data m)).
  { unfold data, m', put_table. cbn. rewrite (alter_rows m n s rs ixs (data m)) by done. by rewrite (insert_id (indexes m)). }
  assert (Hrs' : forall id, match rs !! id, rs' !! id with Some row, Some row' => exists v, row' = row ++ [v] | None, None => True | _, _ => False end).
  { intros id. subst rs'. rewrite insert_rows_lookup by done. specialize (Hl id).
    destruct (rs !! id) as [row|] eqn:E, (list_to_map l !! id) as [row'|]; try done.
    unfold extend_row in Hl. apply bind_Ok_inv in Hl as (r & Hr' & Hl). inv_res. by apply (Hnorm id row value row'). }
  apply (recorded_tables _ _ _ [RestoreTable s (table_rows n m) (table_indexes n m) (next_row_ids m !! n)] [n]); [|done| |].
  - apply (good_put m m' n s' rs' ixs); [done|done|by apply (table_ok_extend n s column rs)|done|].
    apply (counts_dom s' rs); [|apply (counts_rowid s); [unfold s'; by rewrite (rowid_extend s column)|done]].
    intros id [row' Hid]. specialize (Hrs' id). rewrite Hid in Hrs'. by destruct (rs !! id).
  - constructor; [by apply restores_recorded|constructor].
  - intros n' Hn'. rewrite Hd. apply table_at_off. intros ->. apply Hn'. by left.
Qed.
End ColumnCalls.
