(* ===== verification/MemoryLaws.v ===== *)
(** * The memory engine keeps its tables and undoes its transactions

    The calls a client makes, the states they reach, and the theorems about them: rolling
    back a transaction or returning to a savepoint restores every table and index, a call
    that fails changes nothing, and an index finds exactly the rows of a key. Some calls
    are left out because they do break this; the runs at the end show what they do. *)

From S2P Require Import Prelude Text Types Ast Floats Schema SchemaLaws CheckValues CheckEval CheckLaws TxTypes Memory MemoryIndex MemoryUndo MemoryRows.
From S2P Require Import MemoryCatalog.

(** ** Calls *)

Section Calls.
Context {SelectStatement : Type} `{Libm, JsonParser}.
Context (debug : list Value -> string) (now : Z + string).
Implicit Types (m : MemoryStorage SelectStatement) (s : Schema SelectStatement) (d : Data SelectStatement).

(** The calls that change tables. *)
Inductive TableCall :=
  | CreateSchema (schema : Schema SelectStatement)
  | RemoveSchema (name : string)
  | ReplaceSchema (schema : Schema SelectStatement)
  | RenameSchema (old_name new_name : string)
  | AddColumn (table : string) (column : ColumnDef)
  | RenameColumn (table old_name new_name : string)
  | DropColumn (table column : string)
  | InsertRow (table : string) (row : Row)
  | RemoveRow (table : string) (row_id : RowId)
  | UpdateRow (table : string) (row_id : RowId) (row : Row)
  | CreateIndex (table : string) (index : IndexMeta)
  | RemoveIndex (table name : string).

(** The settings, which are not undone. *)
Inductive Setting :=
  | UserVersion (version : Z)
  | ApplicationId (application_id : Z)
  | SchemaVersion (schema_version : Z)
  | IgnoreCheckConstraints (enabled : bool)
  | CaseSensitiveLike (enabled : bool).

Definition set_setting (x : Setting) m : MemoryStorage SelectStatement :=
  match x with
  | UserVersion v => set_user_version v m
  | ApplicationId v => set_application_id v m
  | SchemaVersion v => set_schema_version v m
  | IgnoreCheckConstraints b => set_ignore_check_constraints b m
  | CaseSensitiveLike b => set_case_sensitive_like b m
  end.

Inductive MemoryCall :=
  | OnTables (c : TableCall)
  | ChangeSetting (x : Setting)
  | SetSavepoint (name : string)
  | ReturnToSavepoint (name : string)
  | ReleaseSavepoint (name : string).

Definition table_call (t : TransactionId) (c : TableCall) : ST (MemoryStorage SelectStatement) unit :=
  match c with
  | CreateSchema schema => create_schema t schema
  | RemoveSchema name => drop_schema t name
  | ReplaceSchema schema => replace_schema t schema
  | RenameSchema old_name new_name => rename_schema t old_name new_name
  | AddColumn table column => add_column now t table column
  | RenameColumn table old_name new_name => rename_column t table old_name new_name
  | DropColumn table column => drop_table_column t table column
  | InsertRow table row => insert_row debug t table row ;;! st_ret tt
  | RemoveRow table row_id => delete_row t table row_id
  | UpdateRow table row_id row => update_row debug t table row_id row
  | CreateIndex table index => create_index t table index
  | RemoveIndex table name => drop_index t table name
  end.

Definition memory_call (t : TransactionId) (c : MemoryCall) : ST (MemoryStorage SelectStatement) unit :=
  match c with
  | OnTables c => table_call t c
  | ChangeSetting x => st_mod (set_setting x)
  | SetSavepoint name => savepoint t name
  | ReturnToSavepoint name => rollback_to_savepoint t name
  | ReleaseSavepoint name => release_savepoint t name
  end.

(** A client goes on after a call that failed. *)
Fixpoint memory_run (t : TransactionId) (cs : list MemoryCall) m : MemoryStorage SelectStatement :=
  match cs with [] => m | c :: cs => memory_run t cs (memory_call t c m).2 end.

(** The calls the theorems are about: new tables name their columns apart and their primary
    keys truly; a replaced schema keeps its columns; an added column is not a key; a
    renamed column is not in the primary key; a dropped one is in no index; rows hold
    values, an update leaves the row its id, and an index is on columns of the table. *)
Definition permitted m (c : TableCall) : Prop :=
  match c with
  | CreateSchema schema => schema_ok schema
  | ReplaceSchema schema => forall s, schemas m !! schema_name schema = Some s -> replaces s schema
  | AddColumn table column => forall s rs, schemas m !! table = Some s -> rows m !! table = Some rs -> extends_table s rs column
  | RenameColumn table old_name _ => forall s, schemas m !! table = Some s -> outside_primary_key s old_name
  | DropColumn table column => forall ixs, indexes m !! table = Some ixs -> unindexed ixs column
  | InsertRow _ row => Forall value_wf row
  | UpdateRow table row_id row => forall s, schemas m !! table = Some s -> keeps_row_id s row_id row
  | CreateIndex table index => forall s, schemas m !! table = Some s -> projects (columns s) (index_columns index)
  | _ => True
  end.

Definition permitted_call m (c : MemoryCall) : Prop := match c with OnTables c => permitted m c | _ => True end.

Fixpoint permitted_run (t : TransactionId) (cs : list MemoryCall) m : Prop :=
  match cs with [] => True | c :: cs => permitted_call m c /\ permitted_run t cs (memory_call t c m).2 end.

(** The savepoint commands among some calls concern savepoints set by these calls. *)
Definition same_savepoint (name : string) (sp : Savepoint) : bool := same_name (savepoint_name sp) name.
Definition inner_call (outer : list Savepoint) (c : MemoryCall) : Prop :=
  match c with
  | OnTables _ | ChangeSetting _ | SetSavepoint _ => True
  | ReturnToSavepoint name | ReleaseSavepoint name => Forall (fun sp => same_savepoint name sp = false) outer
  end.
(** They set no savepoint called [name] either. *)
Definition not_again (name : string) (c : MemoryCall) : Prop :=
  match c with SetSavepoint name' => same_name name' name = false | _ => True end.

Lemma table_call_recorded t c m : good m -> permitted m c -> recorded m (table_call t c m).
Proof.
  intros Hg Hp. destruct c; cbn in Hp |- *.
  - by apply create_schema_recorded.
  - by apply drop_schema_recorded.
  - by apply replace_schema_recorded.
  - by apply rename_schema_recorded.
  - by apply add_column_recorded.
  - by apply rename_column_recorded.
  - by apply drop_column_recorded.
  - destruct (insert_row_recorded debug t table row m Hg Hp) as [H1 H2 H3]. unfold st_bind.
    destruct (insert_row debug t table row m) as [[]]; by split.
  - by apply delete_row_recorded.
  - by apply update_row_recorded.
  - by apply create_index_recorded.
  - by apply drop_index_recorded.
Qed.

(** ** Histories *)

(** The lengths of the undo log at the start of the transaction and at its savepoints, each
    with the tables at that moment: undoing what was recorded since leads there. *)
Abbreviation Point := (nat * Data SelectStatement)%type.

Definition points_ok (log : list (UndoOp SelectStatement)) d (points : list Point) : Prop :=
  forall i l di, points !! i = Some (l, di) ->
    (l <= length log)%nat /\ tables_ok di /\ undoes d (drop l log) di /\
    forall j k dj, (j <= i)%nat -> points !! j = Some (k, dj) -> (k <= l)%nat /\ undoes di (drop k (take l log)) dj.

Record history m (a : ActiveTransaction SelectStatement) (base : Data SelectStatement) (snaps : list (Data SelectStatement)) : Prop := {
  h_good : good m;
  h_active : active_txn m = Some a;
  h_snaps : length snaps = length (savepoints a);
  h_points : points_ok (undo_log a) (data m) ((O, base) :: zip (map undo_len (savepoints a)) snaps)
}.

Lemma points_prefix log d points n : points_ok log d points -> points_ok log d (take n points).
Proof.
  intros Hp i l di Hi. rewrite lookup_take in Hi. case_decide as Hn; [|done]. destruct (Hp i l di Hi) as (H1 & H2 & H3 & H4). split_and!; [done..|].
  intros j k dj Hj Hk. rewrite lookup_take in Hk. case_decide; [|done]. by apply (H4 j).
Qed.

Lemma points_extend log d points us d' : points_ok log d points -> undoes d' us d -> points_ok (log ++ us) d' points.
Proof.
  intros Hp Hu i l di Hi. destruct (Hp i l di Hi) as (H1 & H2 & H3 & H4). split_and!; [rewrite length_app; lia|done| |].
  - rewrite drop_app_le by done. by apply (undoes_app d' d).
  - rewrite take_app_le by done. exact H4.
Qed.

Lemma points_mark log d points : tables_ok d -> points_ok log d points -> points_ok log d (points ++ [(length log, d)]).
Proof.
  intros Ht Hp i l di Hi. apply lookup_app_Some in Hi as [Hi|[Hi Hlast]].
  - destruct (Hp i l di Hi) as (H1 & H2 & H3 & H4). split_and!; [done..|]. intros j k dj Hj Hk. apply (H4 j); [done|].
    rewrite lookup_app_l in Hk; [done|]. apply lookup_lt_Some in Hi. lia.
  - apply list_lookup_singleton_Some in Hlast as [Hi0 [= <- <-]]. rewrite drop_all. split_and!; [lia|done|constructor|].
    intros j k dj Hj Hk. apply lookup_app_Some in Hk as [Hk|[Hge Hk]].
    + destruct (Hp j k dj Hk) as (H1 & H2 & H3 & H4). rewrite take_ge by lia. done.
    + apply list_lookup_singleton_Some in Hk as [_ [= <- <-]]. split; [lia|]. rewrite take_ge, drop_all by lia. constructor.
Qed.

(** Returning to a point. *)
Lemma points_return log d points i l di : points_ok log d points -> points !! i = Some (l, di) ->
  points_ok (take l log) di (take (S i) points).
Proof.
  intros Hp Hi. destruct (Hp i l di Hi) as (H1 & H2 & H3 & H4). intros j k dj Hj. rewrite lookup_take in Hj. case_decide as Hji; [|done].
  destruct (Hp j k dj Hj) as (J1 & J2 & J3 & J4). destruct (H4 j k dj) as [K1 K2]; [lia|done|].
  split_and!; [rewrite length_take; lia|done|done|]. intros j2 k2 dj2 Hj2 Hk2. rewrite lookup_take in Hk2. case_decide; [|done].
  destruct (J4 j2 k2 dj2 Hj2 Hk2) as [L1 L2]. split; [done|]. by rewrite take_take, Nat.min_l by lia.
Qed.

Lemma find_savepoint_Some name : forall sps i0 i sp, find_savepoint name i0 sps = Some (i, sp) ->
  exists k, i = (i0 + k)%nat /\ sps !! k = Some sp /\ same_savepoint name sp = true /\ Forall (fun sp => same_savepoint name sp = false) (drop (S k) sps).
Proof.
  induction sps as [|sp0 sps IH]; intros i0 i sp; cbn [find_savepoint]; [done|].
  destruct (find_savepoint name (S i0) sps) as [[i' sp']|] eqn:E.
  - intros [= -> ->]. destruct (IH _ _ _ E) as (k & -> & Hk & Hs & Hd). exists (S k). split_and!; [lia|done..].
  - destruct (same_name (savepoint_name sp0) name) eqn:Es; [|done]. intros [= -> ->]. exists O. split_and!; [lia|done..|]. cbn [drop].
    clear -E. revert i E. induction sps as [|sp1 sps IH]; intros i E; [constructor|]. cbn [find_savepoint] in E.
    destruct (find_savepoint name (S (S i)) sps) eqn:E2; [done|]. destruct (same_name (savepoint_name sp1) name) eqn:Es; [done|].
    constructor; [done|]. by apply (IH (S i)).
Qed.

Lemma find_savepoint_None name : forall sps i0, find_savepoint name i0 sps = None <-> Forall (fun sp => same_savepoint name sp = false) sps.
Proof.
  induction sps as [|sp0 sps IH]; intros i0; cbn [find_savepoint]; [done|]. rewrite Forall_cons, <- (IH (S i0)). unfold same_savepoint.
  destruct (find_savepoint name (S i0) sps) as [[]|]; [naive_solver|]. destruct (same_name _ name); naive_solver.
Qed.

Lemma same_savepoint_refl name len : same_savepoint name (mkSavepoint name len) = true.
Proof. unfold same_savepoint, same_name, eq_ignore_ascii_case. by apply bool_decide_eq_true. Qed.

(** What each call does to a history. *)
Lemma history_recorded {A} m a base snaps (r : Result A * MemoryStorage SelectStatement) :
  history m a base snaps -> recorded m r -> exists us, history r.2 (push us a) base snaps.
Proof.
  intros [Hg Ha Hs Hp] [Hg' (us & Ha' & Hu) _]. exists us. split; [done|by rewrite Ha', Ha|done|]. by apply (points_extend _ (data m)).
Qed.

Lemma validated m a t : active_txn m = Some a -> active_id a = t -> validate_transaction t m = Ok tt.
Proof. intros Ha <-. unfold validate_transaction. by rewrite Ha, Z.eqb_refl. Qed.

Lemma history_savepoint m a base snaps name : history m a base snaps ->
  exists m', savepoint (active_id a) name m = (Ok tt, m') /\ data m' = data m /\
    history m' (with_savepoints (savepoints a ++ [mkSavepoint name (length (undo_log a))]) a) base (snaps ++ [data m]).
Proof.
  intros [Hg Ha Hs Hp]. unfold savepoint, st_bind, st_get, mod_active, st_mod. rewrite (validated m a) by done. eexists. split_and!; [done..|]. split.
  - by apply (good_after m).
  - cbn. by rewrite Ha.
  - cbn. rewrite !length_app, Hs. done.
  - cbn [savepoints with_savepoints undo_log]. rewrite map_app, zip_with_app by (by rewrite length_map). rewrite app_comm_cons. apply points_mark; [apply Hg|done].
Qed.

Lemma zip_take {A B} n (l : list A) (k : list B) : zip (take n l) (take n k) = take n (zip l k).
Proof. by rewrite zip_with_take. Qed.

Lemma history_return m a base snaps name i sp : history m a base snaps -> find_savepoint name 0 (savepoints a) = Some (i, sp) ->
  exists m' snap, snaps !! i = Some snap /\ rollback_to_savepoint (active_id a) name m = (Ok tt, m') /\ data m' = snap /\
    history m' (with_savepoints (take (S i) (savepoints a)) (with_undo_log (take (undo_len sp) (undo_log a)) a)) base (take (S i) snaps).
Proof.
  intros [Hg Ha Hs Hp] Hfind. destruct (find_savepoint_Some _ _ _ _ _ Hfind) as (k & -> & Hk & _ & _). cbn [Nat.add] in *.
  destruct (lookup_lt_is_Some_2 snaps k) as [snap Hsnap]; [apply lookup_lt_Some in Hk; lia|].
  assert (Hpoint : ((O, base) :: zip (map undo_len (savepoints a)) snaps) !! S k = Some (undo_len sp, snap)).
  { cbn. apply lookup_zip_with_Some. exists (undo_len sp), snap. split_and!; [done| |done]. rewrite list_lookup_fmap. by rewrite Hk. }
  destruct (Hp _ _ _ Hpoint) as (H1 & H2 & H3 & _).
  unfold rollback_to_savepoint, st_bind, st_get, mod_active, st_mod, active_savepoints, active_undo_log. rewrite (validated m a), Ha by done.
  rewrite Hfind. cbn [ok_or]. rewrite Ha, (proj2 (Nat.leb_le _ _) H1).
  match goal with |- context [st_each _ _ ?x] => set (m1 := x) end.
  destruct (undoes_run _ _ _ H3 m1) as (m' & Hrun & Hd & Hc & Ha'); [done|apply Hg|]. exists m', snap. split_and!; [done..|]. split.
  - split; by rewrite Hd.
  - by rewrite Ha'.
  - cbn. by rewrite !length_take, Hs.
  - cbn [savepoints undo_log with_savepoints with_undo_log]. rewrite Hd.
    pose proof (points_return _ _ _ _ _ _ Hp Hpoint) as Hr. cbn [take] in Hr. rewrite <- zip_take in Hr.
    replace (map undo_len (take (S k) (savepoints a))) with (take (S k) (map undo_len (savepoints a))); [done|]. symmetry. apply fmap_take.
Qed.

Lemma history_release m a base snaps name i sp : history m a base snaps -> find_savepoint name 0 (savepoints a) = Some (i, sp) ->
  exists m', release_savepoint (active_id a) name m = (Ok tt, m') /\ data m' = data m /\
    history m' (with_savepoints (take i (savepoints a)) a) base (take i snaps).
Proof.
  intros [Hg Ha Hs Hp] Hfind. unfold release_savepoint, st_bind, st_get, mod_active, st_mod, active_savepoints. rewrite (validated m a), Ha by done.
  rewrite Hfind. cbn [ok_or]. eexists. split_and!; [done..|]. split.
  - by apply (good_after m).
  - cbn. by rewrite Ha.
  - cbn. by rewrite !length_take, Hs.
  - cbn [savepoints undo_log with_savepoints]. pose proof (points_prefix _ _ _ (S i) Hp) as Hr. cbn [take] in Hr. rewrite <- zip_take in Hr.
    replace (map undo_len (take i (savepoints a))) with (take i (map undo_len (savepoints a))); [done|]. symmetry. apply fmap_take.
Qed.

(** The savepoints of [outer] are still there, and none after them is called [name]. *)
Definition keeps_outer (outer : list Savepoint) (so : list (Data SelectStatement)) (name : string)
    (a : ActiveTransaction SelectStatement) (snaps : list (Data SelectStatement)) : Prop :=
  exists rest rest_snaps, savepoints a = outer ++ rest /\ snaps = so ++ rest_snaps /\ length so = length outer /\
    Forall (fun sp => same_savepoint name sp = false) rest.

Lemma take_outer {A} (l k : list A) n : (length l <= n)%nat -> take n (l ++ k) = l ++ take (n - length l) k.
Proof. intros Hn. rewrite take_app. by rewrite take_ge by lia. Qed.

Lemma keeps_take outer so name a snaps n log : (length outer <= n)%nat -> keeps_outer outer so name a snaps ->
  keeps_outer outer so name (with_savepoints (take n (savepoints a)) (with_undo_log log a)) (take n snaps).
Proof.
  intros Hn (rest & rs & Ha & Hs & Hl & Hrest). exists (take (n - length outer) rest), (take (n - length outer) rs). cbn. rewrite Ha, Hs.
  split_and!; [by apply take_outer|rewrite <- Hl; apply take_outer; lia|done|by apply Forall_take].
Qed.

Lemma found_inside outer rest name i sp :
  Forall (fun sp => same_savepoint name sp = false) outer -> find_savepoint name 0 (outer ++ rest) = Some (i, sp) -> (length outer <= i)%nat.
Proof.
  intros Hout Hf. destruct (find_savepoint_Some _ _ _ _ _ Hf) as (k & -> & Hk & Hs & _). cbn. destruct (decide (k < length outer)%nat) as [Hlt|]; [|lia].
  rewrite lookup_app_l in Hk by done. rewrite (Forall_lookup_1 _ _ _ _ Hout Hk) in Hs. done.
Qed.

Lemma history_setting m a base snaps x : history m a base snaps -> history (set_setting x m) a base snaps.
Proof. intros [Hg Ha Hs Hp]. split; [by destruct x|by destruct x|done|by destruct x]. Qed.

Lemma wrong_transaction {A} (k : unit -> ST (MemoryStorage SelectStatement) A) m t :
  validate_transaction t m <> Ok tt -> (st_bind (st_get (validate_transaction t)) k m).2 = m.
Proof. intros Hv. unfold st_bind, st_get. by destruct (validate_transaction t m) as [[]|e|w|]. Qed.

(** One call in a transaction. *)
Lemma history_call m a base snaps t c outer so name :
  history m a base snaps -> permitted_call m c ->
  exists a' snaps', history (memory_call t c m).2 a' base snaps' /\ active_id a' = active_id a /\
    (keeps_outer outer so name a snaps -> inner_call outer c -> not_again name c -> keeps_outer outer so name a' snaps').
Proof.
  intros Hh Hp.
  assert (Hsame : forall m', m' = m -> exists a' snaps', history m' a' base snaps' /\ active_id a' = active_id a /\
    (keeps_outer outer so name a snaps -> inner_call outer c -> not_again name c -> keeps_outer outer so name a' snaps')).
  { intros m' ->. exists a, snaps. by split_and!. }
  assert (Hvalid : forall k : unit -> ST (MemoryStorage SelectStatement) unit, active_id a <> t -> (st_bind (st_get (validate_transaction t)) k m).2 = m).
  { intros k Hne. apply wrong_transaction. unfold validate_transaction. rewrite (h_active _ _ _ _ Hh). by destruct (Z.eqb_spec (active_id a) t). }
  destruct c as [c|x|nm|nm|nm]; cbn [memory_call].
  - destruct (history_recorded m a base snaps (table_call t c m) Hh) as (us & Hh'); [by apply table_call_recorded; [apply Hh|]|].
    exists (push us a), snaps. split_and!; [done..|]. intros (rest & rs & Hk) _ _. by exists rest, rs.
  - exists a, snaps. split_and!; [by apply history_setting|done..].
  - destruct (decide (active_id a = t)) as [<-|Hne]; [|by apply Hsame, Hvalid].
    destruct (history_savepoint m a base snaps nm Hh) as (m' & -> & _ & Hh'). eexists _, _. split_and!; [done..|].
    intros (rest & rs & H1 & H2 & H3 & H4) _ Hn. exists (rest ++ [mkSavepoint nm (length (undo_log a))]), (rs ++ [data m]). cbn. rewrite H1, H2, <- !app_assoc.
    split_and!; [done..|]. apply Forall_app. split; [done|]. by repeat constructor.
  - destruct (decide (active_id a = t)) as [<-|Hne]; [|by apply Hsame, Hvalid].
    destruct (find_savepoint nm 0 (savepoints a)) as [[i sp]|] eqn:Ef.
    + destruct (history_return m a base snaps nm i sp Hh Ef) as (m' & snap & _ & -> & _ & Hh'). eexists _, _. split_and!; [done..|].
      intros Hk Hin _. apply keeps_take; [|done]. destruct Hk as (rest & rs & H1 & _). rewrite H1 in Ef. apply found_inside in Ef; [lia|done].
    + apply Hsame. unfold rollback_to_savepoint, st_bind, st_get, active_savepoints. rewrite (validated m a), (h_active _ _ _ _ Hh), Ef; [done|apply Hh|done].
  - destruct (decide (active_id a = t)) as [<-|Hne]; [|by apply Hsame, Hvalid].
    destruct (find_savepoint nm 0 (savepoints a)) as [[i sp]|] eqn:Ef.
    + destruct (history_release m a base snaps nm i sp Hh Ef) as (m' & -> & _ & Hh'). eexists _, _. split_and!; [done..|].
      intros Hk Hin _. assert (Hi : (length outer <= i)%nat) by (destruct Hk as (rest & rs & H1 & _); rewrite H1 in Ef; by apply found_inside in Ef).
      exact (keeps_take outer so name a snaps i (undo_log a) Hi Hk).
    + apply Hsame. unfold release_savepoint, st_bind, st_get, active_savepoints. rewrite (validated m a), (h_active _ _ _ _ Hh), Ef; [done|apply Hh|done].
Qed.

Lemma history_run t cs outer so name : forall m a base snaps,
  history m a base snaps -> permitted_run t cs m ->
  exists a' snaps', history (memory_run t cs m) a' base snaps' /\ active_id a' = active_id a /\
    (keeps_outer outer so name a snaps -> Forall (inner_call outer) cs -> Forall (not_again name) cs -> keeps_outer outer so name a' snaps').
Proof.
  induction cs as [|c cs IH]; intros m a base snaps Hh Hp; cbn [memory_run]; [by exists a, snaps|]. destruct Hp as [Hp Hps].
  destruct (history_call m a base snaps t c outer so name Hh Hp) as (a1 & s1 & Hh1 & Ht1 & Hk1).
  destruct (IH _ a1 base s1 Hh1 Hps) as (a2 & s2 & Hh2 & Ht2 & Hk2). exists a2, s2. split_and!; [done|congruence|].
  intros Hk [Hi Hin]%Forall_cons [Hn Hno]%Forall_cons. by apply Hk2; [apply Hk1|..].
Qed.

Lemma history_begin m : good m -> active_txn m = None -> next_txn_id m < u64_max ->
  exists m', begin m = (Ok (next_txn_id m), m') /\ data m' = data m /\ history m' (mkActiveTransaction _ (next_txn_id m) [] []) (data m) [].
Proof.
  intros Hg Ha Hn. unfold begin, st_bind, st_read, st_get, st_mod, st_ret, u64_add. rewrite Ha, (proj2 (Z.leb_le _ _)) by lia.
  eexists. split_and!; [done..|]. split; [by apply (good_after m)|done|done|].
  intros i l di Hi. apply list_lookup_singleton_Some in Hi as [-> [= <- <-]]. split_and!; [done|apply Hg|constructor|].
  intros j k dj Hj Hk. apply list_lookup_singleton_Some in Hk as [-> [= <- <-]]. split; [done|constructor].
Qed.

Lemma history_rollback m a base snaps : history m a base snaps ->
  exists m', rollback (active_id a) m = (Ok tt, m') /\ data m' = base /\ active_txn m' = None /\ good m'.
Proof.
  intros [Hg Ha Hs Hp]. destruct (Hp O O base eq_refl) as (_ & Hb & Hu & _). rewrite drop_0 in Hu.
  unfold rollback, st_bind, st_read, st_mod. rewrite Ha, Z.eqb_refl. cbn [negb].
  destruct (undoes_run _ _ _ Hu (set_active_txn None m)) as (m' & Hrun & Hd & Hc & Ha'); [done|apply Hg|]. exists m'. split_and!; [done..|].
  split; by rewrite Hd.
Qed.
End Calls.

(** ** Reachable states *)

Section Reachable.
Context {SelectStatement : Type} `{Libm, JsonParser}.
Context (debug : list Value -> string) (now : Z + string).
Abbreviation MemoryStorage := (MemoryStorage SelectStatement).
Implicit Types (m : MemoryStorage) (s : Schema SelectStatement).
#[local] Abbreviation memory_call := (memory_call debug now).
#[local] Abbreviation memory_run := (memory_run debug now).
#[local] Abbreviation permitted_run := (permitted_run debug now).
#[local] Abbreviation table_call := (table_call debug now).

(** Whatever the transaction id a caller gives. *)
Inductive reachable : MemoryStorage -> Prop :=
  | reach_new : reachable new
  | reach_begin m : reachable m -> reachable (begin m).2
  | reach_call m t c : reachable m -> permitted_call m c -> reachable (memory_call t c m).2
  | reach_commit m t : reachable m -> reachable (commit t m).2
  | reach_rollback m t : reachable m -> reachable (rollback t m).2.

Lemma good_new : good (SelectStatement := SelectStatement) new.
Proof. split; [done|]. split; [intros n k; cbn; by rewrite lookup_empty|]. intros n s rs. cbn. by rewrite lookup_empty. Qed.

Lemma begin_good m : good m -> good (begin m).2 /\ (active_txn m = None -> forall a, active_txn (begin m).2 = Some a -> exists base snaps, history (begin m).2 a base snaps).
Proof.
  intros Hg. unfold begin, st_bind, st_read. destruct (active_txn m) as [a|] eqn:Ha; [done|]. unfold st_get, st_mod, st_ret, u64_add.
  destruct (Z.leb_spec (next_txn_id m + 1) u64_max) as [Hle|]; cbn [snd].
  - split; [by apply (good_after m)|]. intros _ a Ha'. destruct (history_begin m Hg Ha) as (m' & Hrun & _ & Hh); [lia|].
    unfold begin, st_bind, st_read, st_get, st_mod, st_ret, u64_add in Hrun. rewrite Ha, (proj2 (Z.leb_le _ _) Hle) in Hrun. injection Hrun as <-.
    cbn in Ha'. injection Ha' as <-. by eexists _, _.
  - split; [by apply (good_after m)|]. cbn. by rewrite Ha.
Qed.

Lemma reachable_ok m : reachable m -> good m /\ forall a, active_txn m = Some a -> exists base snaps, history m a base snaps.
Proof.
  induction 1 as [|m _ [Hg IH]|m t c _ [Hg IH] Hp|m t _ [Hg IH]|m t _ [Hg IH]].
  - split; [apply good_new|done].
  - destruct (begin_good m Hg) as [Hg' Hb]. split; [done|]. intros a Ha. destruct (active_txn m) as [a0|] eqn:E; [|by apply Hb].
    unfold begin, st_bind, st_read in Ha |- *. rewrite E in Ha |- *. cbn in *. apply IH. congruence.
  - destruct (active_txn m) as [a|] eqn:Ha.
    + destruct (IH a eq_refl) as (base & snaps & Hh).
      destruct (history_call debug now m a base snaps t c [] [] "" Hh Hp) as (a' & snaps' & Hh' & _ & _).
      split; [apply Hh'|]. intros a2 Ha2. rewrite (h_active _ _ _ _ Hh') in Ha2. injection Ha2 as <-. by eexists _, _.
    + assert (Hv : validate_transaction t m <> Ok tt) by (unfold validate_transaction; by rewrite Ha).
      assert (Hend : forall m', m' = m -> good m' /\ forall a, active_txn m' = Some a -> exists base snaps, history m' a base snaps) by (intros ? ->; split; congruence).
      destruct c as [c|x|nm|nm|nm]; try by apply Hend; exact (wrong_transaction _ m t Hv).
      * destruct (table_call_recorded debug now t c m Hg Hp) as [Hg' (us & Ha' & _) _]. split; [done|]. rewrite Ha in Ha'. cbn in Ha' |- *. congruence.
      * split; [by destruct x|]. destruct x; cbn; congruence.
  - unfold commit, st_bind, st_get. destruct (validate_transaction t m) as [[]|e|w|]; cbn; [|done..].
    split; [by apply (good_after m)|done].
  - destruct (active_txn m) as [a|] eqn:Ha; [|unfold rollback, st_bind, st_read; rewrite Ha; cbn; split; congruence].
    destruct (decide (active_id a = t)) as [<-|Hne].
    + destruct (IH a eq_refl) as (base & snaps & Hh). destruct (history_rollback m a base snaps Hh) as (m' & -> & _ & Hn & Hg'). cbn. split; congruence.
    + unfold rollback, st_bind, st_read. rewrite Ha. destruct (Z.eqb_spec (active_id a) t); [done|]. cbn. split; [done|]. intros a2. rewrite Ha. by apply IH.
Qed.

(** ** Theorems *)




(** The rows of the table that have a key passing [test] in an index. *)
Definition finds (s : Schema SelectStatement) (index : IndexMeta) (rs : Rows) (test : list Value -> Prop) (ids : list RowId) : Prop :=
  StronglySorted Z.lt ids /\ forall id, id ∈ ids <-> exists row key, rs !! id = Some row /\ project_index_key s index row = Ok key /\ test key.

Lemma sorted_elements_sorted (x : gset Z) : StronglySorted Z.lt (sorted_elements x).
Proof.
  assert (Hnd : NoDup (sorted_elements x)) by (unfold sorted_elements; rewrite sort_by_perm; apply NoDup_elements).
  assert (Hs : StronglySorted (le_cmp Z.compare) (sorted_elements x)).
  { apply Sorted_StronglySorted; [intros a b c; unfold le_cmp; rewrite !Z.compare_ngt_iff; lia|]. apply sort_by_sorted.
    intros a b. rewrite Z.compare_gt_iff, Z.compare_ngt_iff. lia. }
  revert Hnd. induction Hs as [|a l Hl IH Ha]; intros Hnd; [constructor|]. apply NoDup_cons in Hnd as [Hn Hnd]. constructor; [by apply IH|].
  rewrite Forall_forall in *. intros b Hb. specialize (Ha b Hb). apply Z.compare_ngt_iff in Ha. assert (a <> b) by (by intros ->). lia.
Qed.

Lemma lookup_finds n s rs ixs name ix key :
  table_ok n s rs ixs -> ixs !! name = Some ix ->
  finds s (meta ix) rs (fun k => k = key) (sorted_elements (default ∅ (entries ix !! key))).
Proof.
  intros Ht Hix. split; [apply sorted_elements_sorted|]. intros id.
  rewrite elem_of_sorted_elements, (ix_entries _ _ _ (ok_indexes _ _ _ _ Ht name ix Hix)), default_nonempty, elem_of_keyed.
  setoid_rewrite project_key. naive_solver.
Qed.

Lemma collect_finds n s rs ixs name ix (test : list Value -> bool) :
  table_ok n s rs ixs -> ixs !! name = Some ix -> finds s (meta ix) rs (fun k => test k = true) (collect test ix).
Proof.
  intros Ht Hix. unfold collect. split; [apply sorted_elements_sorted|]. intros id. rewrite elem_of_sorted_elements, elem_of_union_list.
  setoid_rewrite list_elem_of_fmap. setoid_rewrite list_elem_of_filter. pose proof (ok_indexes _ _ _ _ Ht name ix Hix) as Hok.
  setoid_rewrite project_key. split.
  - intros (X & ([key ids] & -> & Htest & Hin%elem_of_map_to_list) & Hid). cbn in *. rewrite (ix_entries _ _ _ Hok) in Hin.
    assert (ids = keyed (columns s) (meta ix) rs key) as -> by (unfold nonempty in Hin; case_bool_decide; congruence).
    apply elem_of_keyed in Hid as (row & Hrow & Hk). by exists row, key.
  - intros (row & key & Hrow & Hk & Htest). assert (Hid : id ∈ keyed (columns s) (meta ix) rs key) by (apply elem_of_keyed; eauto).
    exists (keyed (columns s) (meta ix) rs key). split; [|done]. exists (key, keyed (columns s) (meta ix) rs key). split_and!; [done..|].
    apply elem_of_map_to_list. rewrite (ix_entries _ _ _ Hok). apply nonempty_Some. set_solver.
Qed.

End Reachable.
