(* ===== verification/MemoryScenarios.v ===== *)
(** * Runs of the memory engine

    The theorems of [MemoryLaws] on a small table, and four runs of calls that are not
    permitted there: what goes wrong is computed from the definitions. *)

From S2P Require Import Prelude Text Types Ast Schema SchemaLaws CheckValues CheckEval CheckLaws TxTypes Memory MemoryIndex MemoryUndo MemoryRows MemoryCatalog MemoryLaws.

#[local] Existing Instances sample_libm CheckLaws.sample_json.

Definition undisplayed (_ : list Value) : string := "".
Abbreviation Engine := (MemoryStorage unit).
Definition call (t : TransactionId) (c : @MemoryCall unit) : ST Engine unit := memory_call undisplayed (inl 0) t c.
Definition calls (t : TransactionId) (cs : list (@MemoryCall unit)) (m : Engine) : Engine := memory_run undisplayed (inl 0) t cs m.

(** A table with an INTEGER PRIMARY KEY, and an index on its other column. *)
Definition pets : Schema unit :=
  mkSchema unit "pets" [sample_column "id" CtInteger true; sample_column "name" CtText false] ObjTable None None None [] [] None [] [] false false.
Definition by_name : IndexMeta := mkIndexMeta "by_name" ["name"] None true None.

Definition filling : list (@MemoryCall unit) :=
  [ OnTables (CreateSchema pets);
    OnTables (CreateIndex "pets" by_name);
    OnTables (InsertRow "pets" [Null; Text "rex"]);
    OnTables (InsertRow "pets" [Null; Text "tom"]) ].

(** The table was filled and committed, and transaction 2 has begun. *)
Definition filled_engine : Engine := (commit 1 (calls 1 filling (begin new).2)).2.
Definition changing : Engine := (begin filled_engine).2.

Example filled_rows :
  scan_rows 2 "pets" changing = Ok [(1, [Integer 1; Text "rex"]); (2, [Integer 2; Text "tom"])] /\
  lookup_index 2 "pets" "by_name" [Text "tom"] changing = Ok [2] /\ validate_transaction 2 changing = Ok tt.
Proof. vm_compute. repeat split. Qed.

Ltac permit := cbn [permitted_run permitted_call permitted]; repeat split; vm_compute; try done.

Lemma pets_ok : schema_ok pets.
Proof. split; [|vm_compute; done]. vm_compute. repeat constructor; set_solver. Qed.

Lemma filling_permitted : permitted_run undisplayed (inl 0) 1 filling (begin new).2.
Proof.
  split; [apply pets_ok|]. split; [|split; [|split; [|done]]].
  - intros s Hs. vm_compute in Hs. injection Hs as <-. by repeat constructor.
  - by repeat constructor.
  - by repeat constructor.
Qed.

Lemma run_reachable t cs : forall m : Engine, reachable undisplayed (inl 0) m -> permitted_run undisplayed (inl 0) t cs m ->
  reachable undisplayed (inl 0) (calls t cs m).
Proof. induction cs as [|c cs IH]; intros m Hm Hp; [done|]. destruct Hp as [Hp Hps]. by apply IH; [apply reach_call|]. Qed.

Lemma filled_reachable : reachable undisplayed (inl 0) filled_engine.
Proof. apply reach_commit, run_reachable; [apply reach_begin, reach_new|apply filling_permitted]. Qed.

Lemma changing_reachable : reachable undisplayed (inl 0) changing.
Proof. apply reach_begin, filled_reachable. Qed.

(** Rows come and go, a unique index refuses one, and a column gets another name. *)
Definition changes : list (@MemoryCall unit) :=
  [ OnTables (InsertRow "pets" [Integer 7; Text "kit"]);
    OnTables (RemoveRow "pets" 1);
    OnTables (InsertRow "pets" [Null; Text "tom"]);
    SetSavepoint "inner";
    OnTables (UpdateRow "pets" 2 [Integer 2; Text "rex"]);
    ReturnToSavepoint "INNER";
    OnTables (RenameColumn "pets" "name" "called");
    OnTables (RemoveSchema "pets") ].

Lemma changes_permitted (m : Engine) : m = changing -> permitted_run undisplayed (inl 0) 2 changes m.
Proof.
  intros ->. split; [by repeat constructor|]. split; [done|]. split; [by repeat constructor|]. split; [done|].
  split; [|split; [done|split; [|by split]]].
  - intros s Hs i z Hi Hz. vm_compute in Hs. injection Hs as <-. vm_compute in Hi. injection Hi as <-. by injection Hz.
  - intros s Hs. vm_compute in Hs. injection Hs as <-. vm_compute. repeat split; try set_solver.
Qed.

(** ** The theorems at work *)


(** What the transaction changed before it was rolled back. *)
Example changes_change :
  (calls 2 changes changing).(schemas) !! "pets" = None /\ (rollback 2 (calls 2 changes changing)).1 = Ok tt /\
  scan_rows 2 "pets" (calls 2 (take 3 changes) changing) = Ok [(2, [Integer 2; Text "tom"]); (7, [Integer 7; Text "kit"])].
Proof. vm_compute. repeat split. Qed.

(** The calls between a savepoint and the return to it. *)
Definition after_savepoint : list (@MemoryCall unit) :=
  [ OnTables (RemoveRow "pets" 2); SetSavepoint "inner"; OnTables (InsertRow "pets" [Null; Text "kit"]); ReleaseSavepoint "inner" ].


(** Its premises hold there too. *)
Example after_savepoint_premises :
  let m1 := (savepoint 2 "outer" changing).2 in
  permitted_run undisplayed (inl 0) 2 after_savepoint m1 /\ Forall (inner_call (active_savepoints m1)) after_savepoint /\
  Forall (not_again "outer") after_savepoint.
Proof.
  split; [|split].
  - split; [done|]. split; [done|]. split; [by repeat constructor|]. by split.
  - change (active_savepoints (savepoint 2 "outer" changing).2) with [mkSavepoint "outer" 0]. repeat constructor.
  - repeat constructor.
Qed.


Definition pets_rows : Rows := table_rows "pets" changing.
Definition by_name_entries : IndexState := default (mkIndexState by_name ∅) (table_indexes "pets" changing !! "by_name").


(** ** What the theorems leave out *)

Definition rows_of (t : TransactionId) (m : Engine) : Result (list (RowId * Row)) := scan_rows t "pets" m.

(** An update that gives a row another id is not undone: [RestoreRow] puts the old row back
    and keeps the new one, so that after a rollback the table has both; and where the new
    row still holds the old one's unique key, the rollback itself fails. *)
Theorem moved_row_survives_rollback :
  let moved := call 2 (OnTables (UpdateRow "pets" 2 [Integer 9; Text "tim"])) changing in
  let kept_name := call 2 (OnTables (UpdateRow "pets" 2 [Integer 9; Text "tom"])) changing in
  moved.1 = Ok tt /\ (rollback 2 moved.2).1 = Ok tt /\
  rows_of 3 (begin (rollback 2 moved.2).2).2 = Ok [(1, [Integer 1; Text "rex"]); (2, [Integer 2; Text "tom"]); (9, [Integer 9; Text "tim"])] /\
  kept_name.1 = Ok tt /\ (rollback 2 kept_name.2).1 = Err (Storage "unique index by_name constraint failed").
Proof. vm_compute. repeat split. Qed.

(** An insertion that names its id does not move the counter: the next one that leaves the
    id open is given the same and fails. *)
Theorem named_id_not_reserved :
  let named := call 2 (OnTables (InsertRow "pets" [Integer 3; Text "kit"])) changing in
  let failed := call 2 (OnTables (InsertRow "pets" [Null; Text "zoe"])) named.2 in
  named.1 = Ok tt /\ is_err failed.1 = true /\
  (call 2 (OnTables (InsertRow "pets" [Null; Text "zoe"])) failed.2).1 = Ok tt.
Proof. vm_compute. repeat split. Qed.

(** Dropping a column that is in an index fails when the schema and the rows have already
    been changed, and the table is left with an index no row can be added to. *)
Theorem failed_drop_column_changes :
  let failed := call 2 (OnTables (DropColumn "pets" "name")) changing in
  failed.1 = Err (Storage "unknown column name on table pets") /\
  rows_of 2 failed.2 = Ok [(1, [Integer 1]); (2, [Integer 2])] /\
  (call 2 (OnTables (InsertRow "pets" [Integer 5])) failed.2).1 = Err (Storage "unknown column name on table pets").
Proof. vm_compute. repeat split. Qed.

(** A table with the primary key [a], a unique column [c], and their indexes. *)
Definition keyed_table : Schema unit :=
  mkSchema unit "k" [sample_column "a" CtText true; sample_column "c" CtText false] ObjTable None None None [] []
    (Some (mkPrimaryKeyConstraint None ["a"] None None)) [] [] false false.
Definition renaming : list (@MemoryCall unit) :=
  [ OnTables (CreateSchema keyed_table);
    OnTables (CreateIndex "k" (mkIndexMeta "sqlite_autoindex_k_1" ["a"] None true None));
    OnTables (CreateIndex "k" (mkIndexMeta "sqlite_autoindex_k_2" ["c"] None true None));
    OnTables (InsertRow "k" [Text "x"; Text "one"]);
    OnTables (RenameColumn "k" "a" "b");
    OnTables (RenameColumn "k" "c" "a") ].

(** A table's primary key keeps the old names of its columns. When another unique column
    takes such a name, its index passes for the primary key's and is not checked before
    the row is stored: the insertion fails and leaves the row in the table. *)
Theorem failed_insert_leaves_row :
  let m := calls 2 renaming changing in
  let failed := call 2 (OnTables (InsertRow "k" [Text "y"; Text "one"])) m in
  scan_rows 2 "k" m = Ok [(1, [Text "x"; Text "one"])] /\
  failed.1 = Err (Storage "unique index sqlite_autoindex_k_2 constraint failed") /\
  scan_rows 2 "k" failed.2 = Ok [(1, [Text "x"; Text "one"]); (2, [Text "y"; Text "one"])].
Proof. vm_compute. repeat split. Qed.
