(* ===== verification/V1Files.v ===== *)
(** * The files of the v1 engine: [src/storage/v1/{catalog,table,index,txn}.rs]

    The v1 engine keeps a directory of JSON files: [catalog.json], a file per table, a file
    per index and, while a transaction is open, [txn/active.json]. The part of [std::fs] it
    uses is modelled on a map from paths to nodes, each step of which can be the last one:
    [allowed] says how many more changes reach the disk, so that a failing or interrupted
    commit is a run with a smaller number. *)

From S2P Require Import Prelude Text Types Ast Floats Schema CheckValues CheckEval TxTypes Memory.

(** ** [std::path] *)

Abbreviation Path := (list string).

(** The names between the slashes. *)
Fixpoint split_slash (s : string) : list string :=
  match s with
  | EmptyString => [""%string]
  | String c s =>
      match split_slash s with
      | [] => []
      | name :: names => if (c =? "/")%char then ""%string :: name :: names else String c name :: names
      end
  end.

Definition push_name (p : Path) (name : string) : Path :=
  if String.eqb name "" || String.eqb name "." then p else if String.eqb name ".." then removelast p else p ++ [name].

(** [Path::join], as the system resolves it where no symbolic links are involved. *)
Definition join (p : Path) (s : string) : Path :=
  fold_left push_name (split_slash s) (if String.prefix "/" s then [] else p).

Definition parent (p : Path) : Path := removelast p.

(** What stands before and after the last dot. *)
Fixpoint rsplit_dot (s : string) : option (string * string) :=
  match s with
  | EmptyString => None
  | String c s =>
      match rsplit_dot s with
      | Some (before, after) => Some (String c before, after)
      | None => if (c =? ".")%char then Some (EmptyString, s) else None
      end
  end.

(** [file_stem] and [extension] of a file name. *)
Definition stem_and_extension (name : string) : string * option string :=
  if String.eqb name ".." then (name, None)
  else match rsplit_dot name with
       | None | Some (EmptyString, _) => (name, None)
       | Some (before, after) => (before, Some after)
       end.

Definition with_extension (p : Path) (ext : string) : Path :=
  match last p with
  | Some name => removelast p ++ [((stem_and_extension name).1 ++ "." ++ ext)%string]
  | None => p
  end.

(** [OsStr::to_str] *)
Definition to_str (s : string) : option string := if utf8_valid (string_bytes s) then Some s else None.

(** ** [std::fs] *)

Inductive Node := File (contents : bytes) | Directory.

Record Disk := mkDisk {
  nodes : gmap Path Node;
  allowed : option nat
}.

Definition node_at (p : Path) (d : Disk) : option Node := if bool_decide (p = []) then Some Directory else nodes d !! p.
Definition path_exists (p : Path) (d : Disk) : bool := bool_decide (is_Some (node_at p d)).
Definition is_dir (p : Path) (d : Disk) : bool := match node_at p d with Some Directory => true | _ => false end.

Definition not_found : DbError := Io "No such file or directory (os error 2)".
Definition already_exists : DbError := Io "File exists (os error 17)".
Definition not_a_directory : DbError := Io "Not a directory (os error 20)".
Definition is_a_directory : DbError := Io "Is a directory (os error 21)".
Definition interrupted : DbError := Io "Input/output error (os error 5)".

(** A change of the disk. *)
Definition change (f : gmap Path Node -> gmap Path Node) : ST Disk unit := fun d =>
  match allowed d with
  | Some O => (Err interrupted, d)
  | Some (S n) => (Ok tt, mkDisk (f (nodes d)) (Some n))
  | None => (Ok tt, mkDisk (f (nodes d)) None)
  end.

Definition require_dir (p : Path) (d : Disk) : Result unit :=
  match node_at p d with Some Directory => Ok tt | Some (File _) => Err not_a_directory | None => Err not_found end.

Definition create_dir (p : Path) : ST Disk unit :=
  let! node := st_read (node_at p) in
  match node with
  | Some Directory => st_ret tt
  | Some (File _) => st_err already_exists
  | None => st_get (require_dir (parent p)) ;;! change <[p := Directory]>
  end.

(** The directories on the way to [p], and [p]. *)
Definition ancestors (p : Path) : list Path := map (fun n => take n p) (seq 1 (length p)).
Definition create_dir_all (p : Path) : ST Disk unit := st_each create_dir (ancestors p).

(** The directory with all it holds, the deepest first. *)
Definition inside (p : Path) (d : Disk) : list Path :=
  sort_by (fun a b : Path => Nat.compare (length b) (length a))
    (filter (fun q => p `prefix_of` q) (map fst (map_to_list (nodes d)))).
Definition remove_dir_all (p : Path) : ST Disk unit :=
  st_get (require_dir p) ;;!
  let! paths := st_read (inside p) in
  st_each (fun q => change (delete q)) paths.

Definition remove_file (p : Path) : ST Disk unit :=
  let! node := st_read (node_at p) in
  match node with
  | Some (File _) => change (delete p)
  | Some Directory => st_err is_a_directory
  | None => st_err not_found
  end.

Definition append_byte (b : Z) (n : Node) : Node := match n with File c => File (c ++ [b]) | Directory => Directory end.

(** [fs::write] truncates the file and then fills it. *)
Definition write_file (p : Path) (contents : bytes) : ST Disk unit :=
  st_get (require_dir (parent p)) ;;!
  let! node := st_read (node_at p) in
  match node with
  | Some Directory => st_err is_a_directory
  | _ => change <[p := File []]> ;;! st_each (fun b => change (alter (append_byte b) p)) contents
  end.

(** [fs::rename] of a file, the only use of it. *)
Definition rename_file (from to : Path) : ST Disk unit :=
  let! source := st_read (node_at from) in
  match source with
  | None => st_err not_found
  | Some source =>
      st_get (require_dir (parent to)) ;;!
      let! target := st_read (node_at to) in
      match target with
      | Some Directory => st_err is_a_directory
      | _ => change (fun ns => <[to := source]> (delete from ns))
      end
  end.

Definition read_file (p : Path) (d : Disk) : Result bytes :=
  match node_at p d with Some (File contents) => Ok contents | Some Directory => Err is_a_directory | None => Err not_found end.

(** The names in a directory; the system promises no order. *)
Definition names_in (p : Path) (d : Disk) : list string :=
  sort_by str_cmp (flat_map (fun q : Path => match last q with Some name => if bool_decide (removelast q = p) then [name] else [] | None => [] end)
    (map fst (map_to_list (nodes d)))).
Definition read_dir (p : Path) (d : Disk) : Result (list string) := require_dir p d ;;? Ok (names_in p d).

(** ** JSON files: the helpers at the end of [v1/mod.rs] *)

Definition write_json_pretty {T} (to_vec_pretty : T -> Result bytes) (path : Path) (value : T) : ST Disk unit :=
  create_dir_all (parent path) ;;!
  let! json := st_get (fun _ => to_vec_pretty value) in
  write_file (with_extension path "tmp") json ;;!
  rename_file (with_extension path "tmp") path.

Definition read_json_if_exists {T} (from_slice : bytes -> Result T) (path : Path) (d : Disk) : Result (option T) :=
  if negb (path_exists path d) then Ok None
  else let? contents := read_file path d in let? value := from_slice contents in Ok (Some value).

Definition remove_file_if_exists (path : Path) : ST Disk unit := fun d =>
  match remove_file path d with
  | (Err e, d) => (if bool_decide (e = not_found) then Ok tt else Err e, d)
  | result => result
  end.

(** ** The files *)

(** [TableRowRecord] is a pair. *)
Record TableFile := mkTableFile { file_next_row_id : Z; file_rows : list (RowId * Row) }.
Definition table_file_default : TableFile := mkTableFile 1 [].

Record IndexEntryFile := mkIndexEntryFile { entry_key : list Value; entry_row_ids : list RowId }.
Record IndexFile := mkIndexFile { file_meta : IndexMeta; file_entries : list IndexEntryFile }.

(** [serde_json] on the types the engine stores; [CatalogFile] is its map of schemas, and
    [ActiveTransactionFile] its id. *)
Class JsonFiles (SelectStatement : Type) := {
  catalog_to_json : gmap string (Schema SelectStatement) -> Result bytes;
  catalog_of_json : bytes -> Result (gmap string (Schema SelectStatement));
  table_to_json : TableFile -> Result bytes;
  table_of_json : bytes -> Result TableFile;
  index_to_json : IndexFile -> Result bytes;
  index_of_json : bytes -> Result IndexFile;
  active_to_json : TransactionId -> Result bytes
}.

Definition json_name (name : string) : string := (name ++ ".json")%string.

Definition catalog_path (base : Path) : Path := join base "catalog.json".
Definition tables_dir (base : Path) : Path := join base "tables".
Definition table_path (base : Path) (table : string) : Path := join (tables_dir base) (json_name table).
Definition indexes_dir (base : Path) : Path := join base "indexes".
Definition table_indexes_dir (base : Path) (table : string) : Path := join (indexes_dir base) table.
Definition index_path (base : Path) (table index : string) : Path := join (table_indexes_dir base table) (json_name index).
Definition txn_dir (base : Path) : Path := join base "txn".
Definition active_txn_path (base : Path) : Path := join (txn_dir base) "active.json".

(** [PersistedState] *)
Record PersistedState {SelectStatement : Type} := mkPersistedState {
  schemas : gmap string (Schema SelectStatement);
  rows : gmap string Rows;
  indexes : gmap string Indexes;
  next_row_ids : gmap string Z
}.
Arguments PersistedState : clear implicits.

(** Collecting pairs into a [BTreeMap]: the last of a key stays. *)
Definition collect_map {K A} `{Countable K} (l : list (K * A)) : gmap K A := fold_left (fun m ka => <[ka.1 := ka.2]> m) l ∅.

(** The entries of an index in the order of their keys. *)
Definition sorted_entries (es : gmap (list Value) (gset RowId)) : list (list Value * gset RowId) :=
  sort_by (fun a b => row_cmp a.1 b.1) (map_to_list es).

Section Files.
Context {SelectStatement : Type} `{!JsonFiles SelectStatement} (base : Path).
Abbreviation PersistedState := (PersistedState SelectStatement).
Abbreviation Schemas := (gmap string (Schema SelectStatement)).

Definition load_catalog (d : Disk) : Result Schemas :=
  let? value := read_json_if_exists catalog_of_json (catalog_path base) d in Ok (default ∅ value).
Definition save_catalog (catalog : Schemas) : ST Disk unit := write_json_pretty catalog_to_json (catalog_path base) catalog.

Definition load_table (table : string) (d : Disk) : Result TableFile :=
  let? value := read_json_if_exists table_of_json (table_path base table) d in Ok (default table_file_default value).
Definition save_table (table : string) (data : TableFile) : ST Disk unit :=
  write_json_pretty table_to_json (table_path base table) data.

Definition load_index (table index : string) (d : Disk) : Result (option IndexFile) :=
  read_json_if_exists index_of_json (index_path base table index) d.
Definition save_index (table index : string) (data : IndexFile) : ST Disk unit :=
  write_json_pretty index_to_json (index_path base table index) data.

Definition write_active_txn (transaction_id : TransactionId) : ST Disk unit :=
  write_json_pretty active_to_json (active_txn_path base) transaction_id.
Definition clear_active_txn : ST Disk unit := remove_file_if_exists (active_txn_path base).

Definition ensure_layout : ST Disk unit :=
  let! misplaced := st_read (fun d => path_exists base d && negb (is_dir base d)) in
  if (misplaced : bool) then st_err (Storage ("database path must be a directory: " ++ str_join "/" base)%string)
  else
    create_dir_all base ;;!
    create_dir_all (tables_dir base) ;;!
    create_dir_all (indexes_dir base) ;;!
    create_dir_all (txn_dir base).

(** ** [load_state] *)

Definition index_of_file (f : IndexFile) : IndexState :=
  mkIndexState (file_meta f) (collect_map (map (fun e => (entry_key e, list_to_set (entry_row_ids e))) (file_entries f))).

(** The round of the loop over the directory of the indexes of a table. *)
Definition load_entry (table : string) (d : Disk) (ixs : Indexes) (name : string) : Result Indexes :=
  let (stem, extension) := stem_and_extension name in
  match extension ≫= to_str with
  | Some "json"%string =>
      match to_str stem with
      | None => Ok ixs
      | Some index_name =>
          let? index_file := load_index table index_name d in
          Ok (match index_file with Some f => <[Schema.index_name (file_meta f) := index_of_file f]> ixs | None => ixs end)
      end
  | _ => Ok ixs
  end.

Definition load_indexes (table : string) (d : Disk) : Result Indexes :=
  if is_dir (table_indexes_dir base table) d then
    let? names := read_dir (table_indexes_dir base table) d in fold_res (load_entry table d) names ∅
  else Ok ∅.

(** The round of the loop over the tables of the catalog. *)
Definition load_one (d : Disk) (state : PersistedState) (table : string) : Result PersistedState :=
  let? file := load_table table d in
  let? ixs := load_indexes table d in
  Ok (mkPersistedState _ (schemas state) (<[table := collect_map (file_rows file)]> (rows state))
        (<[table := ixs]> (indexes state)) (<[table := file_next_row_id file]> (next_row_ids state))).

Definition load_state (d : Disk) : Result PersistedState :=
  let? catalog := load_catalog d in
  fold_res (load_one d) (map fst (sorted_by_name catalog)) (mkPersistedState _ catalog ∅ ∅ ∅).

(** ** [persist_state] *)

Definition table_file (state : PersistedState) (table : string) : TableFile :=
  mkTableFile (default 1 (next_row_ids state !! table)) (sorted_items (default ∅ (rows state !! table))).

Definition index_file (ix : IndexState) : IndexFile :=
  mkIndexFile (meta ix) (map (fun e => mkIndexEntryFile e.1 (sorted_elements e.2)) (sorted_entries (entries ix))).

Definition save_indexes (table : string) (ixs : Indexes) : ST Disk unit :=
  st_each (fun nx : string * IndexState => save_index table (index_name (meta nx.2)) (index_file nx.2)) (sorted_by_name ixs).

Definition save_one (state : PersistedState) (table : string) : ST Disk unit :=
  save_table table (table_file state table) ;;!
  save_indexes table (default ∅ (indexes state !! table)).

(** [if dir.exists() { fs::remove_dir_all(&dir)?; } fs::create_dir_all(&dir)?] *)
Definition renew_dir (dir : Path) : ST Disk unit :=
  let! known := st_read (path_exists dir) in
  (if (known : bool) then remove_dir_all dir else st_ret tt) ;;!
  create_dir_all dir.

Definition persist_state (state : PersistedState) : ST Disk unit :=
  renew_dir (tables_dir base) ;;!
  renew_dir (indexes_dir base) ;;!
  save_catalog (schemas state) ;;!
  st_each (save_one state) (map fst (sorted_by_name (schemas state))).
End Files.
