(* ===== verification/V1Engine.v ===== *)
(** * The v1 engine: [src/storage/v1/mod.rs]

    [FileStorage] keeps the whole database in memory, in a [PersistedState] with the maps of
    the memory engine; a transaction remembers the state it began with and one per
    savepoint, and its commit writes every file anew. One definition per function; the
    helpers on one row, key or index, which the file has in common with [memory.rs] word
    for word, are those of Memory.v. *)

From S2P Require Import Prelude Text Types Ast Floats Schema CheckValues CheckEval TxTypes Memory V1Files.

(** ** State *)

Record Savepoint {SelectStatement : Type} := mkSavepoint {
  savepoint_name : string;
  savepoint_snapshot : PersistedState SelectStatement
}.
Arguments Savepoint : clear implicits.

Record ActiveTransaction {SelectStatement : Type} := mkActiveTransaction {
  active_id : TransactionId;
  snapshot : PersistedState SelectStatement;
  savepoints : list (Savepoint SelectStatement)
}.
Arguments ActiveTransaction : clear implicits.

(** [FileStorageInner], with the disk the engine writes to. *)
Record FileStorage {SelectStatement : Type} := mkFileStorage {
  state : PersistedState SelectStatement;
  next_txn_id : Z;
  active_txn : option (ActiveTransaction SelectStatement);
  disk : Disk
}.
Arguments FileStorage : clear implicits.

Section Engine.
Context {SelectStatement : Type} `{!JsonFiles SelectStatement, Libm, JsonParser}.
Context (base : Path) (debug : list Value -> string) (now : Z + string).
Abbreviation Schema := (Schema SelectStatement).
Abbreviation PersistedState := (PersistedState SelectStatement).
Abbreviation ActiveTransaction := (ActiveTransaction SelectStatement).
Abbreviation FileStorage := (FileStorage SelectStatement).
Implicit Types (p : PersistedState) (e : FileStorage).

Definition set_schemas x p : PersistedState := mkPersistedState _ x (rows p) (indexes p) (next_row_ids p).
Definition set_rows x p : PersistedState := mkPersistedState _ (schemas p) x (indexes p) (next_row_ids p).
Definition set_indexes x p : PersistedState := mkPersistedState _ (schemas p) (rows p) x (next_row_ids p).
Definition set_next_row_ids x p : PersistedState := mkPersistedState _ (schemas p) (rows p) (indexes p) x.
Definition empty_state : PersistedState := mkPersistedState _ ∅ ∅ ∅ ∅.

Definition set_state x e : FileStorage := mkFileStorage _ x (next_txn_id e) (active_txn e) (disk e).
Definition set_next_txn_id x e : FileStorage := mkFileStorage _ (state e) x (active_txn e) (disk e).
Definition set_active_txn x e : FileStorage := mkFileStorage _ (state e) (next_txn_id e) x (disk e).
Definition set_disk x e : FileStorage := mkFileStorage _ (state e) (next_txn_id e) (active_txn e) x.

Definition on_state {A} (body : ST PersistedState A) : ST FileStorage A := fun e =>
  let (r, p) := body (state e) in (r, set_state p e).
Definition on_disk {A} (body : ST Disk A) : ST FileStorage A := fun e =>
  let (r, d) := body (disk e) in (r, set_disk d e).

Definition open : ST Disk FileStorage :=
  ensure_layout base ;;!
  st_ignore (clear_active_txn base) ;;!
  let! state := st_get (load_state base) in
  let! d := st_read (fun d : Disk => d) in
  st_ret (mkFileStorage _ state 1 None d).

(** ** Helpers of [FileStorageInner] *)

Definition validate_transaction (txn_id : TransactionId) e : Result unit :=
  match active_txn e with
  | Some active =>
      if active_id active =? txn_id then Ok tt
      else Err (Txn ("transaction " ++ pretty txn_id ++ " is not active; current transaction is " ++ pretty (active_id active))%string)
  | None => Err (Txn "no active transaction")
  end.

Definition validate_snapshot_transaction (txn_id : option TransactionId) e : Result unit :=
  match txn_id, active_txn e with
  | Some id, Some active =>
      if id =? active_id active then Ok tt
      else Err (Txn ("transaction " ++ pretty id ++ " is not active; current transaction is " ++ pretty (active_id active))%string)
  | Some id, None => Err (Txn ("transaction " ++ pretty id ++ " is not active")%string)
  | None, Some _ => Err (Txn "metadata snapshot requires the active transaction id while a transaction is open")
  | None, None => Ok tt
  end.

Definition planning_context (txn_id : option TransactionId) e : Result (gmap string Schema * gmap string (list IndexMeta)) :=
  validate_snapshot_transaction txn_id e ;;?
  Ok (schemas (state e), (fun by_name => map (fun nx => meta nx.2) (sorted_by_name by_name)) <$> indexes (state e)).

(** The operations: a check of the transaction, then a body on the state. *)
Definition in_transaction {A} (txn_id : TransactionId) (body : ST PersistedState A) : ST FileStorage A :=
  st_get (validate_transaction txn_id) ;;! on_state body.
Definition query {A} (txn_id : TransactionId) (f : PersistedState -> Result A) e : Result A :=
  validate_transaction txn_id e ;;? f (state e).

Definition require_schema (table : string) p : Result Schema := ok_or (schemas p !! table) (unknown_table table).

Definition table_rows (table : string) p : Rows := default ∅ (rows p !! table).
Definition table_indexes (table : string) p : Indexes := default ∅ (indexes p !! table).

(** [*next += 1] panics on overflow; the entry has been created by then. *)
Definition next_row_id (table : string) : ST PersistedState RowId :=
  st_mod (fun p => set_next_row_ids (<[table := default 1 (next_row_ids p !! table)]> (next_row_ids p)) p) ;;!
  let! row_id := st_read (fun p => default 1 (next_row_ids p !! table)) in
  let! next := st_get (fun _ => u64_add row_id 1) in
  st_mod (fun p => set_next_row_ids (<[table := next]> (next_row_ids p)) p) ;;!
  st_ret row_id.

(** [let Some(indexes) = self.state.indexes.get_mut(table) else { return Ok(()) }] and the
    loop over [indexes.values_mut()]. *)
Definition for_indexes (table : string) (body : ST IndexState unit) : ST PersistedState unit := fun p =>
  match indexes p !! table with
  | Some ixs => let (r, ixs) := each_index body ixs in (r, set_indexes (<[table := ixs]> (indexes p)) p)
  | None => (Ok tt, p)
  end.

Definition add_row_to_indexes (table : string) (row_id : RowId) (row : Row) : ST PersistedState unit :=
  let! schema := st_get (require_schema table) in
  for_indexes table (index_row schema row_id row).

Definition remove_row_from_indexes (table : string) (row_id : RowId) (row : Row) : ST PersistedState unit :=
  let! schema := st_get (require_schema table) in
  for_indexes table (unindex_row schema row_id row).

Definition rebuild_indexes_for_schema (table : string) (schema : Schema) (table_rows : Rows) : ST PersistedState unit :=
  for_indexes table (rebuild_index schema table_rows).

Definition validate_unique_index_constraints (table : string) (row : Row) p : Result unit :=
  let? schema := require_schema table p in
  each_res (fun nx : string * IndexState => check_index_unique schema row nx.2) (sorted_by_name (table_indexes table p)).

(** ** [CatalogStore] *)

Definition create_schema (txn_id : TransactionId) (schema : Schema) : ST FileStorage unit :=
  let table := schema_name schema in
  in_transaction txn_id (
    let! known := st_read (fun p => schemas p !! table) in
    match known with
    | Some _ => st_err (Storage ("table already exists: " ++ table)%string)
    | None =>
        st_mod (fun p => set_schemas (<[table := schema]> (schemas p)) p) ;;!
        st_mod (fun p => set_rows (<[table := table_rows table p]> (rows p)) p) ;;!
        st_mod (fun p => set_indexes (<[table := table_indexes table p]> (indexes p)) p) ;;!
        st_mod (fun p => set_next_row_ids (<[table := default 1 (next_row_ids p !! table)]> (next_row_ids p)) p)
    end).

Definition drop_schema (txn_id : TransactionId) (name : string) : ST FileStorage unit :=
  in_transaction txn_id (
    let! _ := st_get (require_schema name) in
    st_mod (fun p => set_schemas (delete name (schemas p)) p) ;;!
    st_mod (fun p => set_rows (delete name (rows p)) p) ;;!
    st_mod (fun p => set_indexes (delete name (indexes p)) p) ;;!
    st_mod (fun p => set_next_row_ids (delete name (next_row_ids p)) p)).

Definition replace_schema (txn_id : TransactionId) (schema : Schema) : ST FileStorage unit :=
  in_transaction txn_id (
    let! _ := st_get (require_schema (schema_name schema)) in
    st_mod (fun p => set_schemas (<[schema_name schema := schema]> (schemas p)) p)).

(** [if let Some(value) = map.remove(old) { map.insert(new, value); }] *)
Definition move_key {A} (old_name new_name : string) (m : gmap string A) : gmap string A :=
  match m !! old_name with Some value => <[new_name := value]> (delete old_name m) | None => m end.

Definition rename_schema (txn_id : TransactionId) (old_name new_name : string) : ST FileStorage unit :=
  in_transaction txn_id (
    let! known := st_read (fun p => schemas p !! new_name) in
    match known with
    | Some _ => st_err (Storage ("table already exists: " ++ new_name)%string)
    | None =>
        let! schema := st_get (require_schema old_name) in
        st_mod (fun p => set_schemas (<[new_name := with_schema_name new_name schema]> (delete old_name (schemas p))) p) ;;!
        st_mod (fun p => set_rows (move_key old_name new_name (rows p)) p) ;;!
        st_mod (fun p => set_indexes (move_key old_name new_name (indexes p)) p) ;;!
        st_mod (fun p => set_next_row_ids (move_key old_name new_name (next_row_ids p)) p) ;;!
        st_mod (fun p => set_schemas (rename_foreign_key_ref_table old_name new_name <$> schemas p) p)
    end).

(** The round of the loop that checks the rows of [add_column]. *)
Definition check_extended (updated : Schema) (value : Value) (ir : RowId * Row) : Result unit :=
  let? candidate := normalize_strict_row_values updated (ir.2 ++ [value]) in
  validate_row_values updated candidate ;;?
  validate_check_constraints updated candidate.

(** The round of the loop that extends them, in place. *)
Definition extend_stored (updated : Schema) (value : Value) (table : string) (ir : RowId * Row) : ST PersistedState unit :=
  let! row := st_get (fun _ => normalize_strict_row_values updated (ir.2 ++ [value])) in
  st_mod (fun p => set_rows (alter <[ir.1 := row]> table (rows p)) p).

Definition add_column (txn_id : TransactionId) (table : string) (column : ColumnDef) : ST FileStorage unit :=
  in_transaction txn_id (
    let! schema := st_get (require_schema table) in
    if has_column schema (column_name column) then
      st_err (Storage ("column already exists on table " ++ table ++ ": " ++ column_name column)%string)
    else
      let! value := st_get (fun _ => match default_value column with Some d => evaluate now d | None => Ok Null end) in
      let updated := with_columns (columns schema ++ [column]) schema in
      st_get (fun _ => validate_constraints_metadata updated) ;;!
      st_get (fun p => each_res (check_extended updated value) (sorted_items (table_rows table p))) ;;!
      st_mod (fun p => set_schemas (<[table := updated]> (schemas p)) p) ;;!
      let! stored := st_read (fun p => sorted_items (table_rows table p)) in
      st_each (extend_stored updated value table) stored).

Definition rename_column (txn_id : TransactionId) (table old_name new_name : string) : ST FileStorage unit :=
  in_transaction txn_id (
    let! schema := st_get (require_schema table) in
    if negb (has_column schema old_name) then st_err (Storage ("unknown column " ++ old_name ++ " on table " ++ table)%string)
    else if has_column schema new_name then
      st_err (Storage ("column already exists on table " ++ table ++ ": " ++ new_name)%string)
    else
      let updated := rename_foreign_key_ref_column table old_name new_name (rename_column_references old_name new_name schema) in
      st_get (fun _ => validate_constraints_metadata updated) ;;!
      st_mod (fun p => set_schemas (<[table := updated]> (schemas p)) p) ;;!
      st_mod (fun p => set_indexes (alter (fmap (rename_index_column old_name new_name)) table (indexes p)) p) ;;!
      st_mod (fun p => set_schemas (map_imap (fun name schema =>
        Some (if String.eqb name table then schema else rename_foreign_key_ref_column table old_name new_name schema)) (schemas p)) p)).

Definition drop_table_column (txn_id : TransactionId) (table old_name : string) : ST FileStorage unit :=
  in_transaction txn_id (
    let! schema := st_get (require_schema table) in
    let! (updated, removed_index) := st_get (fun _ => drop_column old_name schema) in
    let! updated_rows := st_get (fun p => mapM_res (drop_row_value removed_index) (sorted_items (table_rows table p))) in
    st_mod (fun p => set_schemas (<[table := updated]> (schemas p)) p) ;;!
    st_mod (fun p => set_rows (<[table := list_to_map updated_rows]> (rows p)) p) ;;!
    rebuild_indexes_for_schema table updated (list_to_map updated_rows)).

Definition get_schema (txn_id : TransactionId) (name : string) : FileStorage -> Result (option Schema) :=
  query txn_id (fun p => Ok (schemas p !! name)).

Definition list_schemas (txn_id : TransactionId) : FileStorage -> Result (list Schema) :=
  query txn_id (fun p => Ok (map snd (sorted_by_name (schemas p)))).

(** ** [TableStore] *)

(** The checks of a row; [others] are the rows its primary key is compared with. *)
Definition check_row (schema : Schema) (row : Row) (others : list Row) : Result unit :=
  validate_row_values schema row ;;?
  validate_check_constraints schema row ;;?
  validate_primary_key_uniqueness value_display debug schema row others.

(** [rows.entry(table).or_default().insert(row_id, row)] *)
Definition store_row (table : string) (row_id : RowId) (row : Row) : ST PersistedState unit :=
  st_mod (fun p => set_rows (<[table := <[row_id := row]> (table_rows table p)]> (rows p)) p).

Definition insert_row (txn_id : TransactionId) (table : string) (row : Row) : ST FileStorage RowId :=
  in_transaction txn_id (
    let! schema := st_get (require_schema table) in
    if negb (length row =? length (columns schema))%nat then st_err (missing_values "insert into " table schema row)
    else
      st_get (fun p => check_row schema row (map snd (sorted_items (table_rows table p)))) ;;!
      st_get (validate_unique_index_constraints table row) ;;!
      let! row_id := next_row_id table in
      store_row table row_id row ;;!
      add_row_to_indexes table row_id row ;;!
      st_ret row_id).

Definition get_row (txn_id : TransactionId) (table : string) (row_id : RowId) : FileStorage -> Result (option Row) :=
  query txn_id (fun p => Ok (table_rows table p !! row_id)).

Definition scan_rows (txn_id : TransactionId) (table : string) : FileStorage -> Result (list (RowId * Row)) :=
  query txn_id (fun p => Ok (sorted_items (table_rows table p))).

Definition delete_row (txn_id : TransactionId) (table : string) (row_id : RowId) : ST FileStorage unit :=
  in_transaction txn_id (
    let! removed := st_read (fun p => table_rows table p !! row_id) in
    st_mod (fun p => set_rows (alter (delete row_id) table (rows p)) p) ;;!
    match removed with
    | Some row => remove_row_from_indexes table row_id row
    | None => st_ret tt
    end).

Definition update_row (txn_id : TransactionId) (table : string) (row_id : RowId) (row : Row) : ST FileStorage unit :=
  in_transaction txn_id (
    let! schema := st_get (require_schema table) in
    if negb (length row =? length (columns schema))%nat then st_err (missing_values "update " table schema row)
    else
      let! found := st_read (fun p => table_rows table p !! row_id) in
      match found with
      | None => st_ret tt
      | Some existing_row =>
          if bool_decide (existing_row = row) then st_ret tt
          else
            st_get (fun p => check_row schema row (map snd (filter (fun ir : RowId * Row => ir.1 <> row_id) (sorted_items (table_rows table p))))) ;;!
            st_get (fun p => each_res (fun nx : string * IndexState => check_update_unique schema row_id row nx.2)
                               (sorted_by_name (table_indexes table p))) ;;!
            remove_row_from_indexes table row_id existing_row ;;!
            store_row table row_id row ;;!
            add_row_to_indexes table row_id row
      end).

(** ** [IndexStore] *)

Definition create_index (txn_id : TransactionId) (table : string) (index : IndexMeta) : ST FileStorage unit :=
  in_transaction txn_id (
    let! schema := st_get (require_schema table) in
    let! known := st_read (fun p => table_indexes table p !! index_name index) in
    match known with
    | Some _ => st_err (Storage ("index already exists: " ++ index_name index)%string)
    | None =>
        if bool_decide (index_columns index = []) then st_err (Storage ("index " ++ index_name index ++ " has no columns")%string)
        else
          let! es := st_get (fun p => build_entries schema index (sorted_items (table_rows table p)) ∅) in
          st_mod (fun p => set_indexes (<[table := <[index_name index := mkIndexState index es]> (table_indexes table p)]> (indexes p)) p)
    end).

Definition require_index (table name : string) p : Result IndexState := ok_or (table_indexes table p !! name) (unknown_index name table).

Definition drop_index (txn_id : TransactionId) (table name : string) : ST FileStorage unit :=
  in_transaction txn_id (
    let! _ := st_get (require_index table name) in
    st_mod (fun p => set_indexes (alter (delete name) table (indexes p)) p)).

Definition get_index (txn_id : TransactionId) (table name : string) : FileStorage -> Result (option IndexMeta) :=
  query txn_id (fun p => Ok (meta <$> table_indexes table p !! name)).

Definition list_indexes (txn_id : TransactionId) (table : string) : FileStorage -> Result (list IndexMeta) :=
  query txn_id (fun p => Ok (map (fun nx => meta nx.2) (sorted_by_name (table_indexes table p)))).

Definition lookup_index (txn_id : TransactionId) (table name : string) (key : list Value) : FileStorage -> Result (list RowId) :=
  query txn_id (fun p => let? index := require_index table name p in Ok (sorted_elements (default ∅ (entries index !! key)))).

Definition scan_index_prefix (txn_id : TransactionId) (table name : string) (key_prefix : list Value) : FileStorage -> Result (list RowId) :=
  query txn_id (fun p =>
    let? index := require_index table name p in
    if (length (index_columns (meta index)) <? length key_prefix)%nat then
      Err (Storage ("index " ++ index_name (meta index) ++ " expected at most " ++ pretty (length (index_columns (meta index)))
                    ++ " key values but got " ++ pretty (length key_prefix))%string)
    else Ok (collect (fun key => bool_decide (key_prefix `prefix_of` key)) index)).

Definition scan_index_range (txn_id : TransactionId) (table name : string) (key_prefix : list Value)
    (lower upper : option (CompareOp * Value)) : FileStorage -> Result (list RowId) :=
  query txn_id (fun p =>
    let? index := require_index table name p in
    if (length (index_columns (meta index)) <=? length key_prefix)%nat then
      Err (Storage ("index " ++ index_name (meta index) ++ " has no range column after prefix of length " ++ pretty (length key_prefix))%string)
    else Ok (collect (fun key =>
           bool_decide (key_prefix `prefix_of` key) &&
           match key !! length key_prefix with Some candidate => matches_bounds candidate lower upper | None => false end) index)).

(** ** [TransactionManager] *)

Definition begin : ST FileStorage TransactionId :=
  let! active := st_read active_txn in
  match active with
  | Some active => st_err (Txn ("transaction " ++ pretty (active_id active) ++ " is already active")%string)
  | None =>
      let! txn_id := st_read next_txn_id in
      on_disk (write_active_txn base txn_id) ;;!
      let! next := st_get (fun _ => u64_add txn_id 1) in
      st_mod (set_next_txn_id next) ;;!
      st_mod (fun e => set_active_txn (Some (mkActiveTransaction _ txn_id (state e) [])) e) ;;!
      st_ret txn_id
  end.

Definition commit (txn_id : TransactionId) : ST FileStorage unit :=
  st_get (validate_transaction txn_id) ;;!
  let! p := st_read state in
  on_disk (persist_state base p) ;;!
  st_mod (set_active_txn None) ;;!
  on_disk (st_ignore (clear_active_txn base)).

Definition rollback (txn_id : TransactionId) : ST FileStorage unit :=
  let! active := st_read active_txn in
  match active with
  | None => st_err (Txn "no active transaction")
  | Some active =>
      if negb (active_id active =? txn_id) then st_err (Txn ("transaction " ++ pretty txn_id ++ " is not active")%string)
      else
        st_mod (set_active_txn None) ;;!
        st_mod (set_state (snapshot active)) ;;!
        on_disk (st_ignore (clear_active_txn base))
  end.

Definition with_savepoints sps (a : ActiveTransaction) : ActiveTransaction := mkActiveTransaction _ (active_id a) (snapshot a) sps.
Definition mod_active (f : ActiveTransaction -> ActiveTransaction) : ST FileStorage unit :=
  st_mod (fun e => set_active_txn (f <$> active_txn e) e).
Definition active_savepoints e : list (Savepoint SelectStatement) := match active_txn e with Some a => savepoints a | None => [] end.

(** The last savepoint of a name, and its position: [rposition]. *)
Fixpoint find_savepoint (name : string) (i : nat) (sps : list (Savepoint SelectStatement)) : option (nat * Savepoint SelectStatement) :=
  match sps with
  | [] => None
  | sp :: sps =>
      match find_savepoint name (S i) sps with
      | Some found => Some found
      | None => if same_name (savepoint_name sp) name then Some (i, sp) else None
      end
  end.

Definition savepoint (txn_id : TransactionId) (name : string) : ST FileStorage unit :=
  st_get (validate_transaction txn_id) ;;!
  let! p := st_read state in
  mod_active (fun a => with_savepoints (savepoints a ++ [mkSavepoint _ name p]) a).

Definition rollback_to_savepoint (txn_id : TransactionId) (name : string) : ST FileStorage unit :=
  st_get (validate_transaction txn_id) ;;!
  let! (savepoint_index, sp) := st_get (fun e => ok_or (find_savepoint name 0 (active_savepoints e)) (no_such_savepoint name)) in
  st_mod (set_state (savepoint_snapshot sp)) ;;!
  mod_active (fun a => with_savepoints (take (S savepoint_index) (savepoints a)) a).

Definition release_savepoint (txn_id : TransactionId) (name : string) : ST FileStorage unit :=
  st_get (validate_transaction txn_id) ;;!
  let! (savepoint_index, _) := st_get (fun e => ok_or (find_savepoint name 0 (active_savepoints e)) (no_such_savepoint name)) in
  mod_active (fun a => with_savepoints (take savepoint_index (savepoints a)) a).
End Engine.
