(* ===== verification/V1Persist.v ===== *)
(** * The files of the v1 engine: what the operations on files do

    On a disk that works each operation of V1Files.v has a plain effect on the map of
    nodes; with them, writing a state and loading it gives the state back. *)

From S2P Require Import Prelude Text Types Ast Floats Schema CheckValues CheckEval TxTypes Memory V1Files.



Abbreviation Nodes := (gmap Path Node).

(** ** Paths *)

(** The names [Path::join] takes as they are. *)
Definition path_name (s : string) : bool := negb (existsb (String.eqb s) [""; "."; ".."]%string) && negb (str_contains s "/").
Definition plain_name (s : string) : bool := path_name s && utf8_valid (string_bytes s).

Lemma slash_prefix c s : String.prefix "/" (String c s) = bool_decide (c = "/"%char).
Proof.
  change (String.prefix "/" (String c s)) with (if ascii_dec "/" c then String.prefix "" s else false).
  destruct (ascii_dec "/" c) as [<-|Hc]; [by destruct s|]. rewrite bool_decide_eq_false_2; congruence.
Qed.

Lemma no_slash_cons c s : str_contains (String c s) "/" = false <-> c <> "/"%char /\ str_contains s "/" = false.
Proof.
  change (str_contains (String c s) "/") with (if String.prefix "/" (String c s) then true else str_contains s "/").
  rewrite slash_prefix. case_bool_decide; naive_solver.
Qed.

Lemma split_slash_plain s : str_contains s "/" = false -> split_slash s = [s].
Proof.
  induction s as [|c s IH]; [done|]. intros [Hc Hs]%no_slash_cons. cbn [split_slash]. rewrite IH by done.
  by rewrite (proj2 (Ascii.eqb_neq _ _) Hc).
Qed.

Lemma no_slash_prefix s : str_contains s "/" = false -> String.prefix "/" s = false.
Proof. destruct s as [|c s]; [done|]. intros [Hc _]%no_slash_cons. by rewrite slash_prefix, bool_decide_eq_false_2. Qed.

Lemma path_name_spec s : path_name s = true <-> (s <> "" /\ s <> "." /\ s <> ".." /\ str_contains s "/" = false)%string.
Proof.
  unfold path_name. cbn [existsb]. rewrite andb_true_iff, !negb_true_iff, !orb_false_iff, !String.eqb_neq. tauto.
Qed.

Lemma join_plain p s : path_name s = true -> join p s = p ++ [s].
Proof.
  intros (H1 & H2 & H3 & Hs)%path_name_spec. unfold join. rewrite no_slash_prefix, split_slash_plain by done. cbn. unfold push_name.
  by rewrite (proj2 (String.eqb_neq _ _) H1), (proj2 (String.eqb_neq _ _) H2), (proj2 (String.eqb_neq _ _) H3).
Qed.

Lemma no_slash_app s t : str_contains s "/" = false -> str_contains t "/" = false -> str_contains (s ++ t) "/" = false.
Proof. intros Hs Ht. induction s as [|c s IH]; [done|]. apply no_slash_cons in Hs as [Hc Hs]. apply no_slash_cons. auto. Qed.

Lemma json_path_name s : path_name s = true -> path_name (json_name s) = true.
Proof.
  intros (H1 & H2 & H3 & Hs)%path_name_spec. apply path_name_spec. unfold json_name.
  split_and!; [by destruct s|by destruct s as [|? []]|by destruct s as [|? [|? []]]|by apply no_slash_app].
Qed.

Lemma rsplit_json s : rsplit_dot (json_name s) = Some (s, "json"%string).
Proof. induction s as [|c s IH]; [done|]. change (json_name (String c s)) with (String c (json_name s)). cbn [rsplit_dot]. by rewrite IH. Qed.

Lemma stem_json s : s <> ""%string -> stem_and_extension (json_name s) = (s, Some "json"%string).
Proof.
  intros Hs. unfold stem_and_extension. rewrite rsplit_json.
  destruct (String.eqb_spec (json_name s) "..") as [E|_]; [by destruct s as [|? [|? []]]|]. by destruct s.
Qed.

Definition tmp_name (s : string) : string := (s ++ "." ++ "tmp")%string.

Lemma with_extension_json p s : s <> ""%string -> with_extension (p ++ [json_name s]) "tmp" = p ++ [tmp_name s].
Proof. intros Hs. unfold with_extension. by rewrite last_snoc, removelast_last, stem_json. Qed.

Lemma json_name_inj s t : json_name s = json_name t -> s = t.
Proof. intros H. pose proof (rsplit_json s) as Hs. rewrite H, rsplit_json in Hs. congruence. Qed.

Lemma tmp_json s t : tmp_name s <> json_name t.
Proof.
  intros H. assert (Hs : rsplit_dot (tmp_name s) = Some (s, "tmp"%string)).
  { clear. induction s as [|c s IH]; [done|]. change (tmp_name (String c s)) with (String c (tmp_name s)). cbn [rsplit_dot]. by rewrite IH. }
  rewrite H, rsplit_json in Hs. congruence.
Qed.

Lemma elem_of_ancestors q p : q ∈ ancestors p <-> q <> [] /\ q `prefix_of` p.
Proof.
  unfold ancestors. rewrite list_elem_of_fmap. setoid_rewrite elem_of_seq. split.
  - intros (n & -> & Hn). split; [|exists (drop n p); by rewrite take_drop]. destruct n, p; cbn in *; try lia; done.
  - intros [Hq [k ->]]. exists (length q). rewrite take_app_length, length_app. destruct q; [done|]. cbn. split; [done|lia].
Qed.

Lemma ancestors_snoc p x : ancestors (p ++ [x]) = ancestors p ++ [p ++ [x]].
Proof.
  unfold ancestors. rewrite length_app, seq_app, map_app. cbn. rewrite firstn_all2 by (rewrite length_app; cbn; lia). f_equal.
  apply map_ext_in. intros n [_ Hn]%in_seq. by rewrite take_app_le by lia.
Qed.

(** ** Changes of a disk that works *)

Lemma st_each_app {S A} (f : A -> ST S unit) l k s : st_each f (l ++ k) s = (st_each f l ;;! st_each f k) s.
Proof.
  revert s. induction l as [|a l IH]; intros s; [done|]. cbn [app st_each]. unfold st_bind at 1. unfold st_bind at 1. unfold st_bind at 1.
  destruct (f a s) as [[] s']; [apply IH|done..].
Qed.

(** No file stands where [p] and its ancestors should be directories. *)
Definition way_free (p : Path) (ns : Nodes) : Prop := forall q, q ∈ ancestors p -> ns !! q = None \/ ns !! q = Some Directory.

(** The nodes with [p] and its ancestors. *)
Definition with_dirs (p : Path) (ns : Nodes) : Nodes := list_to_map (map (fun q => (q, Directory)) (ancestors p)) ∪ ns.

Lemma lookup_with_dirs p ns q : with_dirs p ns !! q = if bool_decide (q ∈ ancestors p) then Some Directory else ns !! q.
Proof.
  unfold with_dirs. induction (ancestors p) as [|a l IH].
  - cbn. by rewrite (left_id_L ∅ (∪)).
  - cbn [map list_to_map foldr fst snd]. rewrite <- insert_union_l. destruct (decide (a = q)) as [->|Hq].
    + by rewrite lookup_insert_eq, bool_decide_eq_true_2 by by left.
    + rewrite lookup_insert_ne by done. change (foldr _ ∅ ?l) with (list_to_map l : Nodes). rewrite IH. erewrite bool_decide_ext; [done|].
      rewrite elem_of_cons. naive_solver.
Qed.

Lemma with_dirs_same p ns : (forall q, q ∈ ancestors p -> ns !! q = Some Directory) -> with_dirs p ns = ns.
Proof. intros H. apply map_eq. intros q. rewrite lookup_with_dirs. case_bool_decide; [by rewrite H|done]. Qed.

Lemma node_at_nodes p ns n : node_at p (mkDisk ns n) = if bool_decide (p = []) then Some Directory else ns !! p.
Proof. done. Qed.

Lemma create_dir_all_run p ns : way_free p ns -> create_dir_all p (mkDisk ns None) = (Ok tt, mkDisk (with_dirs p ns) None).
Proof.
  unfold create_dir_all. revert ns. induction p as [|x p IH] using rev_ind; intros ns Hf.
  - cbn. unfold st_ret. by rewrite (left_id_L ∅ (∪)).
  - rewrite ancestors_snoc, st_each_app. unfold st_bind. rewrite IH.
    2:{ intros q Hq. apply Hf. rewrite ancestors_snoc. set_solver. }
    assert (Hw : with_dirs (p ++ [x]) ns = <[p ++ [x] := Directory]> (with_dirs p ns)).
    { apply map_eq. intros q. rewrite lookup_with_dirs, ancestors_snoc. destruct (decide (q = p ++ [x])) as [->|Hq].
      - rewrite lookup_insert_eq, bool_decide_eq_true_2; [done|set_solver].
      - rewrite lookup_insert_ne, lookup_with_dirs by done. erewrite bool_decide_ext; [done|]. set_solver. }
    assert (Hx : with_dirs p ns !! (p ++ [x]) = ns !! (p ++ [x])).
    { rewrite lookup_with_dirs, bool_decide_eq_false_2; [done|]. rewrite elem_of_ancestors. intros [_ Hp].
      apply prefix_length in Hp. rewrite length_app in Hp. cbn in Hp. lia. }
    cbn [st_each]. unfold create_dir, st_bind, st_read. rewrite node_at_nodes, bool_decide_eq_false_2, Hx by by destruct p.
    destruct (Hf (p ++ [x])) as [E|E]; [rewrite ancestors_snoc; set_solver|rewrite E..].
    + unfold st_get, require_dir, parent. rewrite removelast_last, node_at_nodes, lookup_with_dirs.
      rewrite Hw. case_bool_decide as Hp; [done|]. rewrite bool_decide_eq_true_2; [done|]. by apply elem_of_ancestors.
    + cbn. rewrite Hw, insert_id; [done|]. by rewrite Hx.
Qed.

Lemma write_file_run p c ns : node_at (parent p) (mkDisk ns None) = Some Directory -> p <> [] -> ns !! p <> Some Directory ->
  write_file p c (mkDisk ns None) = (Ok tt, mkDisk (<[p := File c]> ns) None).
Proof.
  intros Hp Hne Hd. unfold write_file, st_bind, st_get, st_read, require_dir. rewrite Hp, node_at_nodes, bool_decide_eq_false_2 by done.
  assert (Hfill : forall l done, st_each (fun b => change (alter (append_byte b) p)) l (mkDisk (<[p := File done]> ns) None)
    = (Ok tt, mkDisk (<[p := File (done ++ l)]> ns) None)).
  { induction l as [|b l IH]; intros done; cbn [st_each]; [by rewrite app_nil_r|]. unfold st_bind, change. cbn. rewrite alter_insert_eq. cbn.
    rewrite IH. by rewrite <- app_assoc. }
  destruct (ns !! p) as [[]|]; [|done|]; unfold change; cbn; apply Hfill.
Qed.

Lemma rename_file_run from to c ns : node_at (parent to) (mkDisk ns None) = Some Directory -> from <> [] -> to <> [] ->
  ns !! from = Some (File c) -> ns !! to <> Some Directory ->
  rename_file from to (mkDisk ns None) = (Ok tt, mkDisk (<[to := File c]> (delete from ns)) None).
Proof.
  intros Hp Hf Ht Hc Hd. unfold rename_file, st_bind, st_get, st_read, require_dir.
  rewrite (node_at_nodes from), bool_decide_eq_false_2, Hc, Hp by done. rewrite node_at_nodes, bool_decide_eq_false_2 by done.
  by destruct (ns !! to) as [[]|].
Qed.

Lemma remove_dir_all_run p ns : ns !! p = Some Directory ->
  remove_dir_all p (mkDisk ns None) = (Ok tt, mkDisk (filter (fun qn => ~ p `prefix_of` qn.1) ns) None).
Proof.
  intros Hp. unfold remove_dir_all, st_bind, st_get, st_read, require_dir. rewrite node_at_nodes, Hp.
  replace (if bool_decide (p = []) then Some Directory else Some Directory) with (Some Directory) by by case_bool_decide.
  assert (Hrun : forall l ms, st_each (fun q => change (delete q)) l (mkDisk ms None) = (Ok tt, mkDisk (foldl (fun ms q => delete q ms) ms l) None)).
  { induction l as [|q l IH]; intros ms; [done|]. cbn. apply IH. }
  rewrite Hrun. do 2 f_equal. apply map_eq. intros q.
  assert (Hat : forall l ms, foldl (fun (ms : Nodes) q => delete q ms) ms l !! q = if bool_decide (q ∈ l) then None else ms !! q).
  { induction l as [|a l IH]; intros ms; cbn; [done|]. rewrite IH. destruct (decide (q = a)) as [->|Hq].
    - rewrite lookup_delete_eq. case_bool_decide; by rewrite bool_decide_eq_true_2 by by left.
    - rewrite lookup_delete_ne by done. erewrite bool_decide_ext; [done|]. rewrite elem_of_cons. naive_solver. }
  rewrite Hat. unfold inside. cbn. rewrite map_lookup_filter. destruct (ns !! q) as [n|] eqn:E; [|by case_bool_decide].
  cbn. case_bool_decide as Hq; rewrite elem_of_sort_by, list_elem_of_filter, list_elem_of_fmap in Hq.
  - destruct Hq as [Hq _]. by rewrite option_guard_False by tauto.
  - rewrite option_guard_True; [done|]. intros Hpq. apply Hq. split; [done|]. exists (q, n). split; [done|]. by apply elem_of_map_to_list.
Qed.

(** Writing a JSON file puts it in place; the temporary file is gone. *)
Lemma write_json_run {T} (to_json : T -> Result bytes) (x : T) c dir s ns : s <> ""%string -> to_json x = Ok c -> way_free dir ns ->
  ns !! (dir ++ [json_name s]) <> Some Directory -> ns !! (dir ++ [tmp_name s]) <> Some Directory ->
  write_json_pretty to_json (dir ++ [json_name s]) x (mkDisk ns None) =
  (Ok tt, mkDisk (<[dir ++ [json_name s] := File c]> (delete (dir ++ [tmp_name s]) (with_dirs dir ns))) None).
Proof.
  intros Hs Hx Hw Hj Ht. unfold write_json_pretty, st_bind, st_get. rewrite with_extension_json by done.
  unfold parent. rewrite removelast_last, create_dir_all_run, Hx by done.
  assert (Hne : forall n : string, dir ++ [n] <> []) by (intros ? E; by apply app_eq_nil in E as [_ ?]).
  assert (Hout : forall n ms, bool_decide (dir ++ [n] ∈ ancestors dir) = false /\ (with_dirs dir ms !! (dir ++ [n]) = ms !! (dir ++ [n]))).
  { intros n ms. assert (Hn : dir ++ [n] ∉ ancestors dir).
    { rewrite elem_of_ancestors. intros [_ Hp]. apply prefix_length in Hp. rewrite length_app in Hp. cbn in Hp. lia. }
    split; [by apply bool_decide_eq_false_2|]. by rewrite lookup_with_dirs, bool_decide_eq_false_2. }
  assert (Hdir : node_at dir (mkDisk (with_dirs dir ns) None) = Some Directory).
  { rewrite node_at_nodes, lookup_with_dirs. case_bool_decide; [done|]. rewrite bool_decide_eq_true_2; [done|]. by apply elem_of_ancestors. }
  assert (Htj : dir ++ [tmp_name s] <> dir ++ [json_name s]) by (intros [= E]%app_inv_head; by apply tmp_json in E).
  rewrite write_file_run; [|unfold parent; by rewrite removelast_last|done|by rewrite (proj2 (Hout _ _))].
  rewrite (rename_file_run _ _ c); [|unfold parent; rewrite removelast_last|done|done|by rewrite lookup_insert_eq|].
  - by rewrite delete_insert_eq.
  - rewrite node_at_nodes, lookup_insert_ne by (intros E; apply (f_equal length) in E; rewrite length_app in E; cbn in E; lia).
    rewrite node_at_nodes in Hdir. done.
  - by rewrite lookup_insert_ne, (proj2 (Hout _ _)) by done.
Qed.

(** A directory with nothing in it. *)
Definition emptied (dir : Path) (ns : Nodes) : Nodes := <[dir := Directory]> (filter (fun qn => ~ dir `prefix_of` qn.1) ns).

Lemma renew_dir_run dir x ns : (forall q, q ∈ ancestors (dir ++ [x]) -> ns !! q = Some Directory) ->
  renew_dir (dir ++ [x]) (mkDisk ns None) = (Ok tt, mkDisk (emptied (dir ++ [x]) ns) None).
Proof.
  intros Hd. assert (Hx : ns !! (dir ++ [x]) = Some Directory) by (apply Hd, elem_of_ancestors; by destruct dir).
  unfold renew_dir, st_bind, st_read, path_exists. rewrite node_at_nodes, Hx.
  replace (if bool_decide (dir ++ [x] = []) then Some Directory else Some Directory) with (Some Directory) by by case_bool_decide.
  rewrite bool_decide_eq_true_2 by done. rewrite remove_dir_all_run by done.
  assert (Hat : forall q, filter (fun qn => ~ (dir ++ [x]) `prefix_of` qn.1) ns !! q = if bool_decide ((dir ++ [x]) `prefix_of` q) then None else ns !! q).
  { intros q. rewrite map_lookup_filter. destruct (ns !! q) as [n|]; cbn; case_bool_decide; by rewrite ?option_guard_False, ?option_guard_True by tauto. }
  rewrite create_dir_all_run.
  - do 2 f_equal. apply map_eq. intros q. rewrite lookup_with_dirs. unfold emptied. case_bool_decide as Hq.
    + destruct (decide (q = dir ++ [x])) as [->|Hne]; [by rewrite lookup_insert_eq|]. rewrite lookup_insert_ne, Hat, bool_decide_eq_false_2; [by rewrite Hd| |done].
      intros Hp. apply Hne. apply elem_of_ancestors in Hq as [_ Hq]. by apply (anti_symm prefix).
    + rewrite lookup_insert_ne; [done|]. intros <-. apply Hq, elem_of_ancestors. by destruct dir.
  - intros q Hq. rewrite Hat. case_bool_decide; [by left|right; by apply Hd].
Qed.

(** ** What the commit writes *)

Definition exact {T} (to_json : T -> Result bytes) (of_json : bytes -> Result T) (x : T) : Prop :=
  exists c, to_json x = Ok c /\ of_json c = Ok x.

Definition written (r : Result bytes) : bytes := match r with Ok c => c | _ => [] end.
Lemma exact_written {T} to_json of_json (x : T) : exact to_json of_json x -> to_json x = Ok (written (to_json x)) /\ of_json (written (to_json x)) = Ok x.
Proof. by intros (c & -> & Hc). Qed.

Definition json_of (n : string) : option string := match rsplit_dot n with Some (s, ext) => if String.eqb ext "json" then Some s else None | None => None end.
Lemma json_of_name s : json_of (json_name s) = Some s.
Proof. unfold json_of. by rewrite rsplit_json. Qed.
Lemma json_of_tmp s : json_of (tmp_name s) = None.
Proof.
  unfold json_of. replace (rsplit_dot (tmp_name s)) with (Some (s, "tmp"%string)); [done|].
  induction s as [|c s IH]; [done|]. change (tmp_name (String c s)) with (String c (tmp_name s)). cbn [rsplit_dot]. by rewrite <- IH.
Qed.
Lemma rsplit_dot_app n a b : rsplit_dot n = Some (a, b) -> n = (a ++ "." ++ b)%string.
Proof.
  revert a b. induction n as [|c n IH]; [done|]. cbn [rsplit_dot]. intros a b. destruct (rsplit_dot n) as [[a' b']|].
  - intros [= <- <-]. by rewrite (IH a' b' eq_refl).
  - destruct (Ascii.eqb_spec c ".") as [->|]; [|done]. by intros [= <- <-].
Qed.
Lemma json_of_Some n s : json_of n = Some s <-> n = json_name s.
Proof.
  split; [|intros ->; apply json_of_name]. unfold json_of. destruct (rsplit_dot n) as [[a b]|] eqn:E; [|done].
  apply rsplit_dot_app in E. destruct (String.eqb_spec b "json") as [->|]; [|done]. by intros [= ->].
Qed.

(** * The files of the v1 engine: a state written is the state loaded

    A commit empties the directories of the tables and the indexes and writes the catalog,
    a file per table and a file per index; loading them gives the same state, whatever the
    directories held before. *)


(** ** Maps and sets through lists *)

Lemma collect_fold_lookup {K A} `{Countable K} (l : list (K * A)) (k : K) (m : gmap K A) :
  NoDup (map fst l) -> fold_left (fun m ka => <[ka.1 := ka.2]> m) l m !! k =
  match (list_to_map l : gmap K A) !! k with Some a => Some a | None => m !! k end.
Proof.
  revert m. induction l as [|[k' a] l IH]; intros m Hnd; cbn; [by rewrite lookup_empty|].
  cbn in Hnd. apply NoDup_cons in Hnd as [Hk Hnd]. rewrite IH by done. destruct (decide (k' = k)) as [->|Hne].
  - rewrite lookup_insert_eq, not_elem_of_list_to_map_1 by done. by rewrite lookup_insert_eq.
  - by rewrite !lookup_insert_ne by done.
Qed.

Lemma collect_map_items {K A} `{Countable K} (l : list (K * A)) (m : gmap K A) : l ≡ₚ map_to_list m -> collect_map l = m.
Proof.
  intros Hl. assert (Hnd : NoDup (map fst l)) by (rewrite Hl; apply NoDup_fst_map_to_list).
  apply map_eq. intros k. unfold collect_map. rewrite collect_fold_lookup, lookup_empty by done.
  rewrite (list_to_map_proper l (map_to_list m)) by done. rewrite list_to_map_to_list. by destruct (m !! k).
Qed.

Lemma list_to_set_sorted (s : gset Z) : list_to_set (sorted_elements s) = s.
Proof. apply set_eq. intros x. by rewrite elem_of_list_to_set, elem_of_sorted_elements. Qed.

Lemma index_file_read ix : index_of_file (index_file ix) = ix.
Proof.
  destruct ix as [mt es]. unfold index_of_file, index_file. cbn. f_equal. apply collect_map_items. rewrite map_map. cbn.
  transitivity (map (fun e : list Value * gset RowId => e) (sorted_entries es)).
  - apply Permutation_refl'. apply map_ext. intros [k s]. by rewrite list_to_set_sorted.
  - rewrite map_id. apply sort_by_perm.
Qed.

Lemma table_rows_read (rs : Rows) : collect_map (sorted_items rs) = rs.
Proof. apply collect_map_items, sort_by_perm. Qed.

(** ** The disk after saving some items *)

(** An item is a table, or an index of a table. *)
Abbreviation Item := (string * option string)%type.

Section Persist.
Context {SelectStatement : Type} `{!JsonFiles SelectStatement} (base : Path) (p : PersistedState SelectStatement).

Definition table_bytes (table : string) : bytes := written (table_to_json (table_file p table)).
Definition index_bytes (table index : string) : bytes :=
  match indexes p !! table ≫= (.!! index) with Some ix => written (index_to_json (index_file ix)) | None => [] end.

(** What stands at a path below the base, under [tables] or [indexes]. *)
Definition want (D : list Item) (s : list string) : option Node :=
  match s with
  | [dir] => if String.eqb dir "tables" || String.eqb dir "indexes" then Some Directory else None
  | [dir; n] =>
      if String.eqb dir "tables" then
        table ← json_of n; if bool_decide ((table, None) ∈ D) then Some (File (table_bytes table)) else None
      else if String.eqb dir "indexes" then
        if existsb (fun x : Item => String.eqb x.1 n && bool_decide (is_Some x.2)) D then Some Directory else None
      else None
  | [dir; table; n] =>
      if String.eqb dir "indexes" then
        index ← json_of n; if bool_decide ((table, Some index) ∈ D) then Some (File (index_bytes table index)) else None
      else None
  | _ => None
  end.

Definition managed (s : list string) : bool :=
  match s with dir :: _ => String.eqb dir "tables" || String.eqb dir "indexes" | [] => false end.

Record shape (D : list Item) (ns : Nodes) : Prop := {
  sh_base q : q ∈ ancestors base -> ns !! q = Some Directory;
  sh_below s : managed s = true -> ns !! (base ++ s) = want D s
}.

Lemma ancestors_below s q : q ∈ ancestors (base ++ s) <-> q ∈ ancestors base \/ exists s', q = base ++ s' /\ s' ∈ ancestors s.
Proof.
  setoid_rewrite elem_of_ancestors. split.
  - intros [Hq [k Hk]]. apply app_eq_inv in Hk as [(l & -> & ->)|(l & -> & ->)].
    + left. split; [done|]. by exists l.
    + destruct l as [|x l]; [left; rewrite app_nil_r in *; by split|right]. exists (x :: l). split_and!; [done..|]. by exists k.
  - intros [[Hq Hp]|(s' & -> & Hs & [k ->])]; [split; [done|by apply prefix_app_r]|]. split; [by destruct base, s'|].
    exists k. by rewrite app_assoc.
Qed.

(** Saving an item, whose directory [sd] is below the base. *)
Definition after_write (sd : Path) (name : string) (c : bytes) (ns : Nodes) : Nodes :=
  <[base ++ sd ++ [json_name name] := File c]> (delete (base ++ sd ++ [tmp_name name]) (with_dirs (base ++ sd) ns)).

Lemma after_write_base sd name c ns q : sd <> [] -> (forall q, q ∈ ancestors base -> ns !! q = Some Directory) -> q ∈ ancestors base ->
  after_write sd name c ns !! q = Some Directory.
Proof.
  intros Hsd Hb Hq. unfold after_write. pose proof Hq as [_ Hp]%elem_of_ancestors. apply prefix_length in Hp.
  assert (forall n, base ++ sd ++ [n] <> q) by (intros n <-; rewrite !length_app in Hp; cbn in Hp; lia).
  rewrite lookup_insert_ne, lookup_delete_ne, lookup_with_dirs by done. case_bool_decide; [done|by apply Hb].
Qed.

Lemma after_write_below sd name c ns s : sd <> [] ->
  after_write sd name c ns !! (base ++ s) =
  if decide (s = sd ++ [json_name name]) then Some (File c) else if decide (s = sd ++ [tmp_name name]) then None
  else if decide (s ∈ ancestors sd) then Some Directory else with_dirs base ns !! (base ++ s).
Proof.
  intros Hsd. unfold after_write. destruct (decide (s = sd ++ [json_name name])) as [->|H1]; [by rewrite lookup_insert_eq|].
  rewrite lookup_insert_ne by (by intros ?%app_inv_head). destruct (decide (s = sd ++ [tmp_name name])) as [->|H2]; [by rewrite lookup_delete_eq|].
  rewrite lookup_delete_ne by (by intros ?%app_inv_head). rewrite !lookup_with_dirs. destruct (decide (s ∈ ancestors sd)) as [H3|H3].
  - rewrite bool_decide_eq_true_2; [done|]. apply ancestors_below. eauto.
  - erewrite bool_decide_ext; [done|]. rewrite ancestors_below. split; [|by left]. intros [?|(s' & E%app_inv_head & Hs')]; [done|by subst].
Qed.

Lemma below_base (s : list string) : s <> [] -> base ++ s ∉ ancestors base.
Proof. intros Hs [_ Hp%prefix_length]%elem_of_ancestors. rewrite length_app in Hp. destruct s; [done|cbn in Hp; lia]. Qed.

Lemma save_run {T} (to_json : T -> Result bytes) (x : T) c D sd name ns : shape D ns -> managed sd = true -> name <> ""%string -> to_json x = Ok c ->
  (forall s, s ∈ ancestors sd -> want D s = None \/ want D s = Some Directory) ->
  want D (sd ++ [json_name name]) <> Some Directory -> want D (sd ++ [tmp_name name]) <> Some Directory ->
  write_json_pretty to_json (base ++ sd ++ [json_name name]) x (mkDisk ns None) = (Ok tt, mkDisk (after_write sd name c ns) None).
Proof.
  intros [Hb Hs] Hm Hn Hx Hf Hj Ht. unfold after_write. rewrite !app_assoc. apply write_json_run; [done..| | |].
  - intros q [Hq|(s & -> & Hin)]%ancestors_below; [right; by apply Hb|]. rewrite Hs; [by apply Hf|].
    apply elem_of_ancestors in Hin as [Hne [k ->]]. by destruct s.
  - rewrite <- app_assoc, Hs; [done|by destruct sd].
  - rewrite <- app_assoc, Hs; [done|by destruct sd].
Qed.

Lemma want_tables D n : want D ["tables"; n] = (table ← json_of n; if bool_decide ((table, None) ∈ D) then Some (File (table_bytes table)) else None).
Proof. done. Qed.
Lemma want_indexes D n : want D ["indexes"; n] = if existsb (fun x : Item => String.eqb x.1 n && bool_decide (is_Some x.2)) D then Some Directory else None.
Proof. done. Qed.
Lemma want_index D table n : want D ["indexes"; table; n] =
  (index ← json_of n; if bool_decide ((table, Some index) ∈ D) then Some (File (index_bytes table index)) else None).
Proof. done. Qed.

Lemma managed_inv s : managed s = true -> exists dir rest, s = dir :: rest /\ (dir = "tables" \/ dir = "indexes")%string.
Proof. destruct s as [|dir rest]; [done|]. cbn. rewrite orb_true_iff, !String.eqb_eq. eauto. Qed.

Lemma with_dirs_base D ns : shape D ns -> with_dirs base ns = ns.
Proof. intros [Hb _]. by apply with_dirs_same. Qed.

Lemma json_of_ne n name : n <> json_name name -> json_of n = Some name -> False.
Proof. intros Hn Hj. by apply Hn, json_of_Some. Qed.

Lemma shape_save_table D ns table : shape D ns -> shape ((table, None) :: D) (after_write ["tables"%string] table (table_bytes table) ns).
Proof.
  intros Hsh. pose proof Hsh as [Hb Hs]. split; [intros q Hq; by apply after_write_base|]. intros s Hm.
  rewrite after_write_below by done. cbn [app]. destruct (decide (s = ["tables"%string; json_name table])) as [->|H1].
  { rewrite want_tables, json_of_name. cbn [mbind option_bind]. rewrite bool_decide_eq_true_2; [done|by left]. }
  destruct (decide (s = ["tables"%string; tmp_name table])) as [->|H2]; [by rewrite want_tables, json_of_tmp|].
  case_decide as H3.
  { apply elem_of_ancestors in H3 as [Hne [k Hk]]. destruct s as [|x s]; [done|]. injection Hk as <- Hk. symmetry in Hk. by apply app_eq_nil in Hk as [-> _]. }
  rewrite (with_dirs_base D), Hs by done.
  destruct (managed_inv s Hm) as (dir & rest & -> & Hdir). destruct rest as [|a [|b [|]]]; [done| | |done].
  - destruct Hdir as [->| ->].
    2:{ rewrite !want_indexes. cbn [existsb fst snd]. rewrite (bool_decide_eq_false_2 (is_Some None)), andb_false_r by by intros []. done. }
    rewrite !want_tables. destruct (json_of a) as [t|] eqn:E; [|done]. cbn [mbind option_bind].
    erewrite bool_decide_ext; [done|]. rewrite elem_of_cons. split; [by right|]. intros [Ei|?]; [injection Ei as ->|done].
    apply json_of_Some in E. by subst a.
  - destruct Hdir as [->| ->]; [done|]. rewrite !want_index. destruct (json_of b) as [i|]; [|done]. cbn [mbind option_bind].
    erewrite bool_decide_ext; [done|]. rewrite elem_of_cons. naive_solver.
Qed.

Lemma shape_save_index D ns table index : shape D ns ->
  shape ((table, Some index) :: D) (after_write ["indexes"%string; table] index (index_bytes table index) ns).
Proof.
  intros Hsh. pose proof Hsh as [Hb Hs]. split; [intros q Hq; by apply after_write_base|]. intros s Hm.
  rewrite after_write_below by done. cbn [app]. destruct (decide (s = ["indexes"%string; table; json_name index])) as [->|H1].
  { rewrite want_index, json_of_name. cbn [mbind option_bind]. rewrite bool_decide_eq_true_2; [done|by left]. }
  destruct (decide (s = ["indexes"%string; table; tmp_name index])) as [->|H2]; [by rewrite want_index, json_of_tmp|].
  case_decide as H3.
  { apply elem_of_ancestors in H3 as [Hne [k Hk]]. destruct s as [|x s]; [done|]. injection Hk as <- Hk.
    destruct s as [|y s]; [done|]. injection Hk as <- Hk. symmetry in Hk. apply app_eq_nil in Hk as [-> _].
    rewrite want_indexes. cbn [existsb fst snd]. by rewrite String.eqb_refl. }
  rewrite (with_dirs_base D), Hs by done.
  destruct (managed_inv s Hm) as (dir & rest & -> & Hdir). destruct rest as [|a [|b [|]]]; [done| | |done].
  - destruct Hdir as [->| ->].
    + rewrite !want_tables. destruct (json_of a) as [t|]; [|done]. cbn [mbind option_bind].
      erewrite bool_decide_ext; [done|]. rewrite elem_of_cons. naive_solver.
    + rewrite !want_indexes. cbn [existsb fst snd]. destruct (String.eqb_spec table a) as [->|]; [|done].
      exfalso. apply H3. apply elem_of_ancestors. split; [done|]. by exists [].
  - destruct Hdir as [->| ->]; [done|]. rewrite !want_index. destruct (json_of b) as [i|] eqn:E; [|done]. cbn [mbind option_bind].
    erewrite bool_decide_ext; [done|]. rewrite elem_of_cons. split; [by right|]. intros [Ei|?]; [injection Ei as -> ->|done].
    apply json_of_Some in E. by subst b.
Qed.

(** Nothing else changes. *)
Definition outside (ns ns' : Nodes) : Prop := forall s, s <> [] -> managed s = false -> ns' !! (base ++ s) = ns !! (base ++ s).

Lemma managed_prefix s s' : s <> [] -> s `prefix_of` s' -> managed s' = true -> managed s = true.
Proof. intros Hs [k ->]. by destruct s. Qed.

Lemma after_write_outside D sd name c ns : shape D ns -> managed sd = true -> outside ns (after_write sd name c ns).
Proof.
  intros Hsh Hm s Hs Hu. assert (Hsd : sd <> []) by by destruct sd. rewrite after_write_below by done.
  assert (Hno : forall n, s <> sd ++ [n]) by (intros n ->; destruct sd; [done|]; cbn in Hu, Hm; congruence).
  rewrite !decide_False; [by rewrite (with_dirs_base D)| |apply Hno|apply Hno].
  intros [Hne Hp]%elem_of_ancestors. rewrite (managed_prefix s sd) in Hu; done.
Qed.

Lemma outside_trans ns1 ns2 ns3 : outside ns1 ns2 -> outside ns2 ns3 -> outside ns1 ns3.
Proof. intros H1 H2 s Hs Hu. by rewrite H2, H1. Qed.

(** What the files of the state need: plain names, and that JSON gives the values back. *)
Record restorable : Prop := {
  re_catalog : exact catalog_to_json catalog_of_json (schemas p);
  re_table table : table ∈ dom (schemas p) -> plain_name table = true /\ exact table_to_json table_of_json (table_file p table);
  re_index table index ix : indexes p !! table ≫= (.!! index) = Some ix ->
    plain_name index = true /\ index_name (meta ix) = index /\ exact index_to_json index_of_json (index_file ix)
}.

Lemma plain_path s : plain_name s = true -> path_name s = true /\ s <> ""%string.
Proof. unfold plain_name. intros [Hp _]%andb_true_iff. split; [done|]. intros ->. done. Qed.

Lemma table_path_plain table : plain_name table = true -> table_path base table = base ++ ["tables"%string] ++ [json_name table].
Proof. intros [Hp _]%plain_path. unfold table_path, tables_dir. by rewrite (join_plain _ (json_name table)), (join_plain base), app_assoc by by try apply json_path_name. Qed.

Lemma table_indexes_plain table : plain_name table = true -> table_indexes_dir base table = base ++ ["indexes"%string; table].
Proof. intros [Hp _]%plain_path. unfold table_indexes_dir, indexes_dir. by rewrite (join_plain _ table), (join_plain base), <- app_assoc. Qed.

Lemma index_path_plain table index : plain_name table = true -> plain_name index = true ->
  index_path base table index = base ++ ["indexes"%string; table] ++ [json_name index].
Proof. intros Ht [Hi _]%plain_path. unfold index_path. by rewrite join_plain, table_indexes_plain, app_assoc by by try apply json_path_name. Qed.

Lemma want_no_dir D n : want D (["tables"%string] ++ [n]) <> Some Directory.
Proof. cbn [app]. rewrite want_tables. destruct (json_of n); [cbn|done]. by case_bool_decide. Qed.
Lemma want_index_no_dir D table n : want D (["indexes"%string; table] ++ [n]) <> Some Directory.
Proof. cbn [app]. rewrite want_index. destruct (json_of n); [cbn|done]. by case_bool_decide. Qed.

Lemma ancestors_one (x : string) q : q ∈ ancestors [x] <-> q = [x].
Proof. cbn. by rewrite list_elem_of_singleton. Qed.
Lemma ancestors_two (x y : string) q : q ∈ ancestors [x; y] <-> q = [x] \/ q = [x; y].
Proof. cbn. rewrite elem_of_cons, list_elem_of_singleton. done. Qed.

Lemma save_table_run D ns table : restorable -> table ∈ dom (schemas p) -> shape D ns ->
  exists ns', save_table base table (table_file p table) (mkDisk ns None) = (Ok tt, mkDisk ns' None) /\
    shape ((table, None) :: D) ns' /\ outside ns ns'.
Proof.
  intros Hr Ht Hsh. destruct (re_table Hr table Ht) as [Hp [Hc _]%exact_written].
  exists (after_write ["tables"%string] table (table_bytes table) ns). split_and!.
  - unfold save_table. rewrite table_path_plain by done. apply (save_run _ _ _ D); [done|done|by apply plain_path|done| |apply want_no_dir..].
    intros s ->%ancestors_one. by right.
  - by apply shape_save_table.
  - by eapply after_write_outside.
Qed.

Lemma save_index_run D ns table index ix : restorable -> table ∈ dom (schemas p) -> indexes p !! table ≫= (.!! index) = Some ix -> shape D ns ->
  exists ns', save_index base table (index_name (meta ix)) (index_file ix) (mkDisk ns None) = (Ok tt, mkDisk ns' None) /\
    shape ((table, Some index) :: D) ns' /\ outside ns ns'.
Proof.
  intros Hr Ht Hix Hsh. destruct (re_table Hr table Ht) as [Hp _]. destruct (re_index Hr table index ix Hix) as (Hi & Hn & [Hc _]%exact_written).
  exists (after_write ["indexes"%string; table] index (index_bytes table index) ns). split_and!.
  - unfold save_index. rewrite Hn, index_path_plain by done.
    apply (save_run _ _ _ D); [done|done|by apply plain_path|unfold index_bytes; by rewrite Hix| |apply want_index_no_dir..].
    intros s [->| ->]%ancestors_two; [by right|]. rewrite want_indexes. case_match; auto.
  - by apply shape_save_index.
  - by eapply after_write_outside.
Qed.

Lemma save_indexes_run ns table ixs l : restorable -> table ∈ dom (schemas p) -> indexes p !! table = Some ixs ->
  (forall nx, nx ∈ l -> ixs !! nx.1 = Some nx.2) -> forall D, shape D ns ->
  exists ns' D', st_each (fun nx : string * IndexState => save_index base table (index_name (meta nx.2)) (index_file nx.2)) l (mkDisk ns None)
      = (Ok tt, mkDisk ns' None) /\
    shape D' ns' /\ outside ns ns' /\ forall x, x ∈ D' <-> x ∈ D \/ exists nx, nx ∈ l /\ x = (table, Some nx.1).
Proof.
  intros Hr Ht Hixs. revert ns. induction l as [|[index ix] l IH]; intros ns Hl D Hsh.
  - exists ns, D. split_and!; [done..|]. intros x. setoid_rewrite elem_of_nil. naive_solver.
  - destruct (save_index_run D ns table index ix) as (ns1 & Hrun & Hsh1 & Ho1); [done..|rewrite Hixs; by apply (Hl (index, ix)); left|done|].
    destruct (IH ns1 (fun nx Hnx => Hl nx (list_elem_of_further _ _ _ Hnx)) _ Hsh1) as (ns2 & D2 & Hrun2 & Hsh2 & Ho2 & HD2).
    exists ns2, D2. split_and!; [|done|by eapply outside_trans|].
    + cbn [st_each]. unfold st_bind. cbn [snd]. by rewrite Hrun.
    + intros x. rewrite HD2, elem_of_cons. setoid_rewrite elem_of_cons. naive_solver.
Qed.

(** The items of the tables [l]. *)
Definition items_of (l : list string) (x : Item) : Prop :=
  x.1 ∈ l /\ match x.2 with None => True | Some index => is_Some (indexes p !! x.1 ≫= (.!! index)) end.

Lemma save_tables_run l : restorable -> (forall table, table ∈ l -> table ∈ dom (schemas p)) -> forall ns D, shape D ns ->
  exists ns' D', st_each (save_one base p) l (mkDisk ns None) = (Ok tt, mkDisk ns' None) /\
    shape D' ns' /\ outside ns ns' /\ forall x, x ∈ D' <-> x ∈ D \/ items_of l x.
Proof.
  intros Hr. induction l as [|table l IH]; intros Hl ns D Hsh.
  - exists ns, D. split_and!; [done..|]. unfold items_of. intros x. rewrite elem_of_nil. naive_solver.
  - assert (Ht : table ∈ dom (schemas p)) by (apply Hl; left).
    destruct (save_table_run D ns table) as (ns1 & Hrun1 & Hsh1 & Ho1); [done..|].
    assert (exists ns2 D2, save_indexes base table (default ∅ (indexes p !! table)) (mkDisk ns1 None) = (Ok tt, mkDisk ns2 None) /\
      shape D2 ns2 /\ outside ns1 ns2 /\ forall x, x ∈ D2 <-> x ∈ (table, None) :: D \/ exists index, is_Some (indexes p !! table ≫= (.!! index)) /\ x = (table, Some index))
      as (ns2 & D2 & Hrun2 & Hsh2 & Ho2 & HD2).
    { unfold save_indexes. destruct (indexes p !! table) as [ixs|] eqn:Ei.
      - destruct (save_indexes_run ns1 table ixs (sorted_by_name ixs) Hr Ht Ei) with (D := (table, None) :: D)
          as (ns2 & D2 & H1 & H2 & H3 & H4); [|done|].
        + intros [index ix]. apply sorted_by_name_elem.
        + exists ns2, D2. split_and!; [done..|]. intros x. rewrite H4. split; (intros [?|H]; [by left|right]).
          * destruct H as ([index ix] & Hin%sorted_by_name_elem & ->). exists index. cbn. rewrite Hin. by split.
          * destruct H as (index & [ix Hix] & ->). exists (index, ix). by rewrite sorted_by_name_elem.
      - exists ns1, ((table, None) :: D). split_and!; [done..|]. intros x. split; [by left|]. intros [?|(? & [? ?] & _)]; done. }
    destruct (IH (fun t Hin => Hl t (list_elem_of_further _ _ _ Hin)) ns2 D2 Hsh2) as (ns3 & D3 & Hrun3 & Hsh3 & Ho3 & HD3).
    exists ns3, D3. split_and!; [|done|by do 2 (eapply outside_trans; [done|])|].
    + cbn [st_each]. unfold save_one at 1, st_bind. by rewrite Hrun1, Hrun2.
    + intros [t [i|]]; rewrite HD3, HD2, elem_of_cons; unfold items_of; cbn [fst snd]; rewrite elem_of_cons; naive_solver.
Qed.
End Persist.

(** * The files of the v1 engine: loading what a commit wrote *)


Section Reload.
Context {SelectStatement : Type} `{!JsonFiles SelectStatement} (base : Path) (p : PersistedState SelectStatement).

(** The layout of a database directory, as [ensure_layout] makes it, with nothing in the
    way of the files. *)
Definition engine_files : list Path :=
  [["catalog.json"]; ["catalog.tmp"]; ["txn"; "active.json"]; ["txn"; "active.tmp"]]%string.

Record usable (ns : Nodes) : Prop := {
  us_base q : q ∈ ancestors base -> ns !! q = Some Directory;
  us_dirs x : x ∈ ["tables"; "indexes"; "txn"]%string -> ns !! (base ++ [x]) = Some Directory;
  us_files s : s ∈ engine_files -> ns !! (base ++ s) <> Some Directory
}.

Lemma usable_dir ns x q : usable ns -> x ∈ ["tables"; "indexes"; "txn"]%string -> q ∈ ancestors (base ++ [x]) -> ns !! q = Some Directory.
Proof. intros Hu Hx [Hq|(s & -> & ->%ancestors_one)]%ancestors_below; [by apply (us_base _ Hu)|by apply (us_dirs _ Hu)]. Qed.

Lemma lookup_emptied dir ns q : emptied dir ns !! q = if decide (q = dir) then Some Directory else if decide (dir `prefix_of` q) then None else ns !! q.
Proof.
  unfold emptied. destruct (decide (q = dir)) as [->|Hq]; [by rewrite lookup_insert_eq|]. rewrite lookup_insert_ne, map_lookup_filter by done.
  destruct (ns !! q) as [n|]; cbn; [|by case_decide]. destruct (decide (dir `prefix_of` q)); [by rewrite option_guard_False by tauto|by rewrite option_guard_True].
Qed.

Lemma prefix_below x s : (base ++ [x]) `prefix_of` (base ++ s) <-> exists k, s = x :: k.
Proof.
  split.
  - intros Hp%prefix_app_inv. destruct Hp as [k ->]. by exists k.
  - intros [k ->]. apply prefix_app. by exists k.
Qed.

(** Emptying the two directories. *)
Lemma renewed ns : usable ns ->
  exists ns', (renew_dir (tables_dir base) ;;! renew_dir (indexes_dir base)) (mkDisk ns None) = (Ok tt, mkDisk ns' None) /\
    shape base p [] ns' /\ outside base ns ns'.
Proof.
  intros Hu. unfold tables_dir, indexes_dir. rewrite !join_plain by done. unfold st_bind.
  rewrite renew_dir_run by (intros q Hq; eapply usable_dir; [done| |done]; set_solver).
  assert (Hbelow : forall x q, q ∈ ancestors base -> ~ (base ++ [x]) `prefix_of` q).
  { intros x q [_ Hq%prefix_length]%elem_of_ancestors Hp%prefix_length. rewrite length_app in Hp. cbn in Hp. lia. }
  assert (Hroot : forall x q, q ∈ ancestors base -> emptied (base ++ [x]) ns !! q = Some Directory).
  { intros x q Hq. rewrite lookup_emptied. case_decide; [done|]. rewrite decide_False by by apply Hbelow. by apply (us_base _ Hu). }
  rewrite renew_dir_run.
  2:{ intros q [Hq|(s & -> & ->%ancestors_one)]%ancestors_below; [by apply Hroot|]. rewrite lookup_emptied. case_decide; [done|].
      rewrite decide_False; [apply (us_dirs _ Hu); set_solver|]. rewrite prefix_below. by intros [? ?]. }
  eexists. split; [done|]. split.
  - split.
    + intros q Hq. rewrite lookup_emptied. case_decide; [done|]. rewrite decide_False by by apply Hbelow. by apply Hroot.
    + intros s Hm. destruct (managed_inv s Hm) as (dir & rest & -> & Hdir). rewrite !lookup_emptied.
      destruct Hdir as [->| ->].
      * rewrite decide_False by by intros [=]%app_inv_head. rewrite decide_False by (rewrite prefix_below; by intros [? ?]).
        case_decide as H1; [by injection (app_inv_head _ _ _ H1) as ->|]. rewrite decide_True by (apply prefix_below; eauto).
        destruct rest as [|a [|b rest]]; [done|..]; [|by destruct rest].
        rewrite want_tables. destruct (json_of a); [cbn|done]. by rewrite bool_decide_eq_false_2 by apply not_elem_of_nil.
      * case_decide as H1; [by injection (app_inv_head _ _ _ H1) as ->|]. rewrite decide_True by (apply prefix_below; eauto).
        destruct rest as [|a [|b [|]]]; [done|done| |done].
        rewrite want_index. destruct (json_of b); [cbn|done]. by rewrite bool_decide_eq_false_2 by apply not_elem_of_nil.
  - intros s Hs Hm. rewrite !lookup_emptied. destruct s as [|x s]; [done|]. cbn in Hm. apply orb_false_iff in Hm as [H1%String.eqb_neq H2%String.eqb_neq].
    rewrite !decide_False; [done|..]; rewrite ?prefix_below; try (intros E%app_inv_head; congruence); intros [? ?]; congruence.
Qed.

(** The catalog and the files of the tables and the indexes. *)
Lemma persist_run ns : restorable p -> usable ns ->
  exists ns' D, persist_state base p (mkDisk ns None) = (Ok tt, mkDisk ns' None) /\ shape base p D ns' /\ usable ns' /\
    ns' !! (base ++ ["catalog.json"%string]) = Some (File (written (catalog_to_json (schemas p)))) /\
    (forall s, managed s = false -> s ∉ [[]; ["catalog.json"]; ["catalog.tmp"]]%string -> ns' !! (base ++ s) = ns !! (base ++ s)) /\
    forall x, x ∈ D <-> items_of p (map fst (sorted_by_name (schemas p))) x.
Proof.
  intros Hr Hu. destruct (renewed ns Hu) as (ns1 & Hrun1 & Hsh1 & Ho1).
  pose proof (exact_written _ _ _ (re_catalog p Hr)) as [Hc _].
  set (ns2 := <[base ++ ["catalog.json"%string] := File (written (catalog_to_json (schemas p)))]> (delete (base ++ ["catalog.tmp"%string]) ns1)).
  assert (Hrun2 : save_catalog base (schemas p) (mkDisk ns1 None) = (Ok tt, mkDisk ns2 None)).
  { unfold save_catalog, catalog_path. rewrite join_plain by done. change "catalog.json"%string with (json_name "catalog").
    rewrite (write_json_run _ _ (written (catalog_to_json (schemas p)))); [by rewrite (with_dirs_base base p [])|done|done| | |].
    - intros q Hq. right. by apply (sh_base _ _ _ _ Hsh1).
    - rewrite (Ho1 [json_name "catalog"]) by done. apply (us_files _ Hu). set_solver.
    - rewrite (Ho1 [tmp_name "catalog"]) by done. apply (us_files _ Hu). set_solver. }
  assert (Hat2 : forall s, s <> ["catalog.json"%string] -> s <> ["catalog.tmp"%string] -> ns2 !! (base ++ s) = ns1 !! (base ++ s)).
  { intros s H1 H2. unfold ns2. rewrite lookup_insert_ne, lookup_delete_ne; [done|..]; by intros E%app_inv_head. }
  assert (Hsh2 : shape base p [] ns2).
  { split; [|intros s Hm; rewrite Hat2; [by apply Hsh1|by intros ->..]]. intros q Hq. unfold ns2.
    rewrite lookup_insert_ne, lookup_delete_ne; [by apply Hsh1|..]; intros <-; by apply below_base in Hq. }
  destruct (save_tables_run base p (map fst (sorted_by_name (schemas p))) Hr) with (ns := ns2) (D := [] : list Item)
    as (ns3 & D & Hrun3 & Hsh3 & Ho3 & HD); [|done|].
  { intros t ([n s] & -> & Hin%sorted_by_name_elem)%list_elem_of_fmap. by apply elem_of_dom_2 in Hin. }
  assert (Hframe : forall s, managed s = false -> s ∉ [[]; ["catalog.json"]; ["catalog.tmp"]]%string -> ns3 !! (base ++ s) = ns !! (base ++ s)).
  { intros s Hm Hs. rewrite !not_elem_of_cons in Hs. destruct Hs as (H1 & H2 & H3 & _). by rewrite Ho3, Hat2, Ho1. }
  exists ns3, D. split_and!; [|done| | |done|].
  - unfold persist_state. unfold st_bind in Hrun1 |- *. destruct (renew_dir (tables_dir base) (mkDisk ns None)) as [[] d]; try done.
    rewrite Hrun1. by rewrite Hrun2.
  - split; [apply Hsh3| |].
    + intros x Hx. assert (x = "tables" \/ x = "indexes" \/ x = "txn")%string as [->|[->| ->]] by set_solver.
      * by rewrite (sh_below _ _ _ _ Hsh3).
      * by rewrite (sh_below _ _ _ _ Hsh3).
      * rewrite Hframe; [apply (us_dirs _ Hu); set_solver|done|by_compute].
    + intros s Hs. assert (s = ["catalog.json"] \/ s = ["catalog.tmp"] \/ s = ["txn"; "active.json"] \/ s = ["txn"; "active.tmp"])%string
        as [->|[->|[->| ->]]] by set_solver.
      * rewrite Ho3 by done. unfold ns2. by rewrite lookup_insert_eq.
      * rewrite Ho3 by done. unfold ns2. rewrite lookup_insert_ne, lookup_delete_eq; [done|]. by intros [=]%app_inv_head.
      * rewrite Hframe; [apply (us_files _ Hu); set_solver|done|by_compute].
      * rewrite Hframe; [apply (us_files _ Hu); set_solver|done|by_compute].
  - rewrite Ho3 by done. unfold ns2. by rewrite lookup_insert_eq.
  - intros x. rewrite HD, elem_of_nil. naive_solver.
Qed.

(** ** Loading *)

(** Every table has its rows, its indexes and its counter, and nothing else has. *)
Record whole : Prop := {
  wh_rows : dom (rows p) = dom (schemas p);
  wh_indexes : dom (indexes p) = dom (schemas p);
  wh_next : dom (next_row_ids p) = dom (schemas p)
}.

Lemma state_ext (q : PersistedState SelectStatement) : schemas q = schemas p -> rows q = rows p -> indexes q = indexes p ->
  next_row_ids q = next_row_ids p -> q = p.
Proof. destruct q, p. cbn. by intros -> -> -> ->. Qed.

Lemma read_json_file {T} (of_json : bytes -> Result T) (x : T) c path d : path <> [] -> nodes d !! path = Some (File c) -> of_json c = Ok x ->
  read_json_if_exists of_json path d = Ok (Some x).
Proof.
  intros Hp Hc Hx. unfold read_json_if_exists, path_exists, read_file, node_at. rewrite (bool_decide_eq_false_2 (path = [])) by done.
  rewrite Hc, bool_decide_eq_true_2 by done. cbn. by rewrite Hx.
Qed.

Lemma elem_of_names_in q d n : n ∈ names_in q d <-> is_Some (nodes d !! (q ++ [n])).
Proof.
  unfold names_in. rewrite elem_of_sort_by, list_elem_of_In, in_flat_map. split.
  - intros (r & Hr%list_elem_of_In%list_elem_of_fmap & Hn). destruct Hr as ([r' nd] & -> & Hr%elem_of_map_to_list). cbn in Hn.
    destruct r' as [|x r' _] using rev_ind; [done|]. rewrite last_snoc, removelast_last in Hn. case_bool_decide; [|done].
    destruct Hn as [->|[]]. subst q. by exists nd.
  - intros [nd Hn]. exists (q ++ [n]). split.
    + apply list_elem_of_In, list_elem_of_fmap. exists (q ++ [n], nd). split; [done|]. by apply elem_of_map_to_list.
    + rewrite last_snoc, removelast_last, bool_decide_eq_true_2 by done. by left.
Qed.

Section Stored.
Context (ns : Nodes) (n : option nat) (D : list Item).
Hypothesis (Hr : restorable p) (Hw : whole) (Hsh : shape base p D ns).
Hypothesis (Hcat : ns !! (base ++ ["catalog.json"%string]) = Some (File (written (catalog_to_json (schemas p))))).
Hypothesis (HD : forall x, x ∈ D <-> items_of p (map fst (sorted_by_name (schemas p))) x).

Lemma elem_of_tables t : t ∈ map fst (sorted_by_name (schemas p)) <-> t ∈ dom (schemas p).
Proof.
  rewrite list_elem_of_fmap, elem_of_dom. split.
  - intros ([? s] & -> & Hin%sorted_by_name_elem). by exists s.
  - intros [s Hin]. exists (t, s). by rewrite sorted_by_name_elem.
Qed.

Lemma load_catalog_stored : load_catalog base (mkDisk ns n) = Ok (schemas p).
Proof.
  unfold load_catalog, catalog_path. rewrite join_plain by done. destruct (exact_written _ _ _ (re_catalog p Hr)) as [_ Hc].
  by erewrite read_json_file; [|by destruct base|exact Hcat|exact Hc].
Qed.

Lemma load_table_stored t : t ∈ dom (schemas p) -> load_table base t (mkDisk ns n) = Ok (table_file p t).
Proof.
  intros Ht. destruct (re_table p Hr t Ht) as [Hp [_ Hc]%exact_written]. unfold load_table. rewrite table_path_plain by done.
  erewrite read_json_file; [done|by destruct base| |exact Hc]. cbn. rewrite (sh_below _ _ _ _ Hsh) by done. cbn [app].
  rewrite want_tables, json_of_name. cbn. rewrite bool_decide_eq_true_2; [done|]. apply HD. split; [by apply elem_of_tables|done].
Qed.

Lemma load_index_stored t i ix : t ∈ dom (schemas p) -> indexes p !! t ≫= (.!! i) = Some ix ->
  load_index base t i (mkDisk ns n) = Ok (Some (index_file ix)).
Proof.
  intros Ht Hix. destruct (re_table p Hr t Ht) as [Hp _]. destruct (re_index p Hr t i ix Hix) as (Hi & _ & [_ Hc]%exact_written).
  unfold load_index. rewrite index_path_plain by done. apply (read_json_file _ _ (index_bytes p t i)); [by destruct base| |unfold index_bytes; by rewrite Hix].
  cbn. rewrite (sh_below _ _ _ _ Hsh) by done. cbn [app]. rewrite want_index, json_of_name. cbn. rewrite bool_decide_eq_true_2; [done|].
  apply HD. split; [by apply elem_of_tables|]. cbn. by exists ix.
Qed.

(** The loop over the files of the indexes of a table. *)
Lemma load_entries_stored t names ixs : t ∈ dom (schemas p) -> indexes p !! t = Some ixs ->
  (forall name, name ∈ names -> exists i, name = json_name i /\ is_Some (ixs !! i)) ->
  forall acc, exists loaded, fold_res (load_entry base t (mkDisk ns n)) names acc = Ok loaded /\
    forall i, loaded !! i = if bool_decide (json_name i ∈ names) then ixs !! i else acc !! i.
Proof.
  intros Ht Hixs. induction names as [|name names IH]; intros Hnames acc.
  - exists acc. split; [done|]. intros i. by rewrite bool_decide_eq_false_2 by apply not_elem_of_nil.
  - destruct (Hnames name) as (i & -> & [ix Hix]); [left|]. assert (Hl : indexes p !! t ≫= (.!! i) = Some ix) by by rewrite Hixs.
    destruct (re_index p Hr t i ix Hl) as (Hi & Hn & _). destruct (plain_path i Hi) as [_ Hne].
    destruct (IH (fun x Hx => Hnames x (list_elem_of_further _ _ _ Hx)) (<[i := ix]> acc)) as (loaded & Hrun & Hat).
    exists loaded. split.
    + cbn [fold_res]. unfold load_entry at 1. rewrite stem_json by done. cbn [mbind option_bind].
      change (to_str "json") with (Some "json"%string). cbn iota. unfold to_str, plain_name in *.
      apply andb_true_iff in Hi as [_ Hv]. rewrite Hv, (load_index_stored t i ix) by done. cbn [bind].
      rewrite index_file_read. cbn. by rewrite Hn.
    + intros j. rewrite Hat. destruct (decide (json_name j ∈ names)) as [Hj|Hj].
      * by rewrite !bool_decide_eq_true_2 by (done || by right).
      * rewrite bool_decide_eq_false_2 by done. destruct (decide (i = j)) as [->|Hij].
        -- by rewrite lookup_insert_eq, bool_decide_eq_true_2 by left.
        -- rewrite lookup_insert_ne, bool_decide_eq_false_2; [done| |done]. intros [E%json_name_inj|?]%elem_of_cons; congruence.
Qed.

Lemma load_indexes_stored t : t ∈ dom (schemas p) -> load_indexes base t (mkDisk ns n) = Ok (default ∅ (indexes p !! t)).
Proof.
  intros Ht. destruct (re_table p Hr t Ht) as [Hp _]. unfold load_indexes. rewrite table_indexes_plain by done.
  assert (exists ixs, indexes p !! t = Some ixs) as [ixs Hixs] by (apply elem_of_dom; by rewrite (wh_indexes Hw)).
  rewrite Hixs. cbn [default]. unfold is_dir. rewrite node_at_nodes, bool_decide_eq_false_2 by by destruct base.
  rewrite (sh_below _ _ _ _ Hsh), want_indexes by done. destruct (existsb _ D) eqn:Ed.
  - unfold read_dir, require_dir. rewrite node_at_nodes, bool_decide_eq_false_2 by by destruct base.
    rewrite (sh_below _ _ _ _ Hsh), want_indexes, Ed by done. cbn [bind].
    assert (Hnames : forall name, name ∈ names_in (base ++ ["indexes"%string; t]) (mkDisk ns n) <-> exists i, name = json_name i /\ is_Some (ixs !! i)).
    { intros name. rewrite elem_of_names_in. cbn [nodes]. rewrite <- app_assoc. cbn [app]. rewrite (sh_below _ _ _ _ Hsh), want_index by done. split.
      - destruct (json_of name) as [i|] eqn:E; [|by intros [? ?]]. cbn. case_bool_decide as Hin; [|by intros [? ?]]. intros _.
        exists i. apply json_of_Some in E as ->. split; [done|]. apply HD in Hin as [_ Hin]. cbn in Hin. by rewrite Hixs in Hin.
      - intros (i & -> & Hi). rewrite json_of_name. cbn. rewrite bool_decide_eq_true_2; [done|]. apply HD. split; [by apply elem_of_tables|].
        cbn. by rewrite Hixs. }
    destruct (load_entries_stored t (names_in (base ++ ["indexes"%string; t]) (mkDisk ns n)) ixs Ht Hixs) with (acc := ∅ : Indexes) as (loaded & -> & Hat).
    { intros name Hn. by apply Hnames. }
    f_equal. apply map_eq. intros i. rewrite Hat, lookup_empty. case_bool_decide as Hi; [done|].
    destruct (ixs !! i) as [ix|] eqn:E; [|done]. exfalso. apply Hi, Hnames. exists i. by rewrite E.
  - f_equal. symmetry. apply map_empty. intros i. destruct (ixs !! i) as [ix|] eqn:E; [|done]. exfalso.
    pose proof (proj1 (existsb_none _ _) Ed (t, Some i)) as Hno. cbn in Hno. rewrite String.eqb_refl in Hno. assert (true = false) as [=]. apply Hno, HD.
    split; [by apply elem_of_tables|]. cbn. rewrite Hixs. cbn. by rewrite E.
Qed.

Lemma load_tables_stored l : (forall t, t ∈ l -> t ∈ dom (schemas p)) -> forall acc, exists q,
  fold_res (load_one base (mkDisk ns n)) l acc = Ok q /\ schemas q = schemas acc /\
  forall t, rows q !! t = (if bool_decide (t ∈ l) then rows p !! t else rows acc !! t) /\
    indexes q !! t = (if bool_decide (t ∈ l) then indexes p !! t else indexes acc !! t) /\
    next_row_ids q !! t = (if bool_decide (t ∈ l) then next_row_ids p !! t else next_row_ids acc !! t).
Proof.
  induction l as [|t l IH]; intros Hl acc.
  - exists acc. split_and!; [done..|]. intros t. by rewrite bool_decide_eq_false_2 by apply not_elem_of_nil.
  - assert (Ht : t ∈ dom (schemas p)) by (apply Hl; left). cbn [fold_res]. unfold load_one at 1.
    rewrite load_table_stored, load_indexes_stored by done. cbn [bind].
    edestruct (IH (fun x Hx => Hl x (list_elem_of_further _ _ _ Hx))) as (q & -> & Hs & Hat). exists q. split_and!; [done..|].
    intros u. rewrite !(proj1 (Hat u)), !(proj1 (proj2 (Hat u))), !(proj2 (proj2 (Hat u))). cbn [rows indexes next_row_ids].
    destruct (decide (u ∈ l)) as [Hu|Hu]; [by rewrite !bool_decide_eq_true_2 by (done || by right)|].
    rewrite (bool_decide_eq_false_2 (u ∈ l)) by done. destruct (decide (t = u)) as [->|Htu].
    + rewrite !lookup_insert_eq, bool_decide_eq_true_2 by left.
      assert (is_Some (rows p !! u) /\ is_Some (indexes p !! u) /\ is_Some (next_row_ids p !! u)) as ([rs Hrs] & [ixs Hixs] & [k Hk]).
      { rewrite <- !elem_of_dom, (wh_rows Hw), (wh_indexes Hw), (wh_next Hw). done. }
      unfold table_file. cbn [file_rows file_next_row_id]. rewrite Hrs, Hixs, Hk. cbn [default]. by rewrite table_rows_read.
    + rewrite !lookup_insert_ne, bool_decide_eq_false_2; [done| |done..]. intros [?|?]%elem_of_cons; congruence.
Qed.

Lemma load_state_stored : load_state base (mkDisk ns n) = Ok p.
Proof.
  unfold load_state. rewrite load_catalog_stored. cbn [bind].
  edestruct (load_tables_stored (map fst (sorted_by_name (schemas p)))) as (q & -> & Hs & Hat); [intros t; by apply elem_of_tables|].
  assert (Hnone : forall t, t ∉ map fst (sorted_by_name (schemas p)) -> rows p !! t = None /\ indexes p !! t = None /\ next_row_ids p !! t = None).
  { intros t Hn. rewrite elem_of_tables in Hn. by rewrite <- !not_elem_of_dom, (wh_rows Hw), (wh_indexes Hw), (wh_next Hw). }
  f_equal. apply state_ext; [done|..]; apply map_eq; intros t; destruct (Hat t) as (H1 & H2 & H3); rewrite ?H1, ?H2, ?H3;
    (case_bool_decide as Hin; [done|]); cbn; rewrite lookup_empty; symmetry; by apply Hnone.
Qed.
End Stored.
End Reload.
