(* ===== verification/V1Laws.v ===== *)
(** * The v1 engine: the states its operations reach

    Every operation on a state keeps it whole: each table has its rows, its indexes and its
    counter, and each index is stored under its name. Most operations change only what a
    table holds; those that make or remove tables and indexes are treated one by one. *)

From S2P Require Import Prelude Text Types Ast Floats Schema SchemaLaws CheckValues CheckEval CheckLaws TxTypes Memory MemoryIndex MemoryUndo MemoryRows MemoryCatalog MemoryLaws V1Files V1Engine V1Persist.



Section States.
Context {SelectStatement : Type} `{!JsonFiles SelectStatement, Libm, JsonParser}.
Context (debug : list Value -> string) (now : Z + string).
Abbreviation PersistedState := (PersistedState SelectStatement).
Implicit Types p : PersistedState.

Definition index_names (ixs : Indexes) : gmap string string := (fun ix => index_name (meta ix)) <$> ixs.

Record sound p : Prop := {
  so_whole : whole p;
  so_named table index ix : indexes p !! table ≫= (.!! index) = Some ix -> index_name (meta ix) = index
}.

(** The tables and the names of the indexes are the same. *)
Record keeps p0 p : Prop := {
  kp_schemas : dom (schemas p) = dom (schemas p0);
  kp_rows : dom (rows p) = dom (rows p0);
  kp_indexes : index_names <$> indexes p = index_names <$> indexes p0;
  kp_next : dom (next_row_ids p) = dom (next_row_ids p0)
}.

Lemma keeps_self p : keeps p p.
Proof. done. Qed.

Lemma keeps_sound p0 p : sound p0 -> keeps p0 p -> sound p.
Proof.
  intros [[H1 H2 H3] Hn] [K1 K2 K3 K4]. assert (K5 : dom (indexes p) = dom (indexes p0)) by by rewrite <- (dom_fmap_L index_names), K3, dom_fmap_L.
  split; [split; congruence|]. intros t i ix Hix. apply bind_Some in Hix as (ixs & Ht & Hi).
  pose proof (f_equal (fun x => x !! t) K3) as Kt. cbn in Kt. rewrite !lookup_fmap, Ht in Kt. cbn in Kt.
  destruct (indexes p0 !! t) as [ixs0|] eqn:E0; [|done]. injection Kt as Kt. pose proof (f_equal (fun x => x !! i) Kt) as Ki. cbn in Ki.
  unfold index_names in Ki. rewrite !lookup_fmap, Hi in Ki. cbn in Ki. destruct (ixs0 !! i) as [ix0|] eqn:E1; [|done]. injection Ki as ->.
  apply (Hn t). by rewrite E0.
Qed.

Lemma sound_table p t s : sound p -> schemas p !! t = Some s -> t ∈ dom (rows p) /\ t ∈ dom (indexes p) /\ t ∈ dom (next_row_ids p).
Proof. intros [[H1 H2 H3] _] Ht%elem_of_dom_2. by rewrite H1, H2, H3. Qed.

(** ** Changes inside tables *)

Lemma keeps_set_schemas p0 p x : keeps p0 p -> dom x = dom (schemas p) -> keeps p0 (set_schemas x p).
Proof. intros [] Hx. split; cbn; congruence. Qed.
Lemma keeps_set_rows p0 p x : keeps p0 p -> dom x = dom (rows p) -> keeps p0 (set_rows x p).
Proof. intros [] Hx. split; cbn; congruence. Qed.
Lemma keeps_set_next p0 p x : keeps p0 p -> dom x = dom (next_row_ids p) -> keeps p0 (set_next_row_ids x p).
Proof. intros [] Hx. split; cbn; congruence. Qed.
Lemma keeps_set_indexes p0 p x : keeps p0 p -> index_names <$> x = index_names <$> indexes p -> keeps p0 (set_indexes x p).
Proof. intros [] Hx. split; cbn; congruence. Qed.

Lemma dom_insert_same {A} (m : gmap string A) t a : t ∈ dom m -> dom (<[t := a]> m) = dom m.
Proof. set_solver. Qed.

Lemma store_row_keeps p0 t id row : t ∈ dom (rows p0) -> preserves (keeps p0) (store_row t id row).
Proof. intros Ht. apply preserves_mod. intros p Hp. apply keeps_set_rows; [done|]. apply dom_insert_same. by rewrite (kp_rows _ _ Hp). Qed.

Lemma alter_rows_keeps p0 t f : preserves (keeps p0) (st_mod (fun p => set_rows (alter f t (rows p)) p)).
Proof. apply preserves_mod. intros p Hp. apply keeps_set_rows; [done|]. apply dom_alter_L. Qed.

Lemma put_schema_keeps p0 t s : t ∈ dom (schemas p0) -> preserves (keeps p0) (st_mod (fun p => set_schemas (<[t := s]> (schemas p)) p)).
Proof. intros Ht. apply preserves_mod. intros p Hp. apply keeps_set_schemas; [done|]. apply dom_insert_same. by rewrite (kp_schemas _ _ Hp). Qed.

Lemma put_rows_keeps p0 t rs : t ∈ dom (rows p0) -> preserves (keeps p0) (st_mod (fun p => set_rows (<[t := rs]> (rows p)) p)).
Proof. intros Ht. apply preserves_mod. intros p Hp. apply keeps_set_rows; [done|]. apply dom_insert_same. by rewrite (kp_rows _ _ Hp). Qed.

Lemma next_row_id_keeps p0 t : t ∈ dom (next_row_ids p0) -> preserves (keeps p0) (next_row_id t).
Proof.
  intros Ht. assert (Hput : forall f, preserves (keeps p0) (st_mod (fun p => set_next_row_ids (<[t := f p]> (next_row_ids p)) p))).
  { intros f. apply preserves_mod. intros p Hp. apply keeps_set_next; [done|]. apply dom_insert_same. by rewrite (kp_next _ _ Hp). }
  unfold next_row_id. preserve; apply Hput.
Qed.

(** A loop over indexes that changes what they hold. *)
Lemma each_index_names body ixs : (forall ix, meta (body ix).2 = meta ix) -> index_names (each_index body ixs).2 = index_names ixs.
Proof.
  intros Hb. assert (Hp : preserves (fun ixs' => index_names ixs' = index_names ixs) (each_index body)); [|by apply Hp].
  unfold each_index. apply preserves_bind; [apply preserves_read|]. intros l. apply preserves_each. intros [name ix] ixs' Hn. unfold on_index. cbn [fst].
  destruct (ixs' !! name) as [ix0|] eqn:E; [|done]. destruct (body ix0) as [r ix1] eqn:Eb. cbn. rewrite <- Hn. unfold index_names.
  rewrite fmap_insert. apply insert_id. rewrite lookup_fmap, E. cbn. by rewrite <- (Hb ix0), Eb.
Qed.

Lemma for_indexes_keeps p0 t body : (forall ix, meta (body ix).2 = meta ix) -> preserves (keeps p0) (for_indexes t body).
Proof.
  intros Hb p Hp. unfold for_indexes. destruct (indexes p !! t) as [ixs|] eqn:E; [|done].
  pose proof (each_index_names body ixs Hb) as Hn. destruct (each_index body ixs) as [r ixs']. cbn [fst snd] in Hn |- *.
  apply keeps_set_indexes; [done|]. rewrite fmap_insert, Hn. apply insert_id. by rewrite lookup_fmap, E.
Qed.

Lemma index_row_meta (s : Schema SelectStatement) id row ix : meta (index_row s id row ix).2 = meta ix.
Proof.
  assert (Hp : preserves (fun x => meta x = meta ix) (index_row s id row)); [|by apply Hp]. unfold index_row. preserve.
Qed.
Lemma unindex_row_meta (s : Schema SelectStatement) id row ix : meta (unindex_row s id row ix).2 = meta ix.
Proof.
  assert (Hp : preserves (fun x => meta x = meta ix) (unindex_row s id row)); [|by apply Hp]. unfold unindex_row. preserve.
  apply preserves_mod. intros x Hx. by case_match.
Qed.
Lemma rebuild_index_meta (s : Schema SelectStatement) rs ix : meta (rebuild_index s rs ix).2 = meta ix.
Proof.
  assert (Hp : preserves (fun x => meta x = meta ix) (rebuild_index s rs)); [|by apply Hp]. unfold rebuild_index. preserve.
Qed.

Lemma add_row_keeps p0 t id row : preserves (keeps p0) (add_row_to_indexes t id row).
Proof. unfold add_row_to_indexes. preserve. apply for_indexes_keeps. intros ix. apply index_row_meta. Qed.
Lemma remove_row_keeps p0 t id row : preserves (keeps p0) (remove_row_from_indexes t id row).
Proof. unfold remove_row_from_indexes. preserve. apply for_indexes_keeps. intros ix. apply unindex_row_meta. Qed.
Lemma rebuild_keeps p0 t (s : Schema SelectStatement) rs : preserves (keeps p0) (rebuild_indexes_for_schema t s rs).
Proof. apply for_indexes_keeps. intros ix. apply rebuild_index_meta. Qed.
End States.

#[export] Hint Resolve store_row_keeps put_schema_keeps put_rows_keeps next_row_id_keeps alter_rows_keeps add_row_keeps remove_row_keeps rebuild_keeps : preserves_db.

(** ** The operations *)

Section Operations.
Context {SelectStatement : Type} `{!JsonFiles SelectStatement, Libm, JsonParser}.
Context (base : Path) (debug : list Value -> string) (now : Z + string).
Abbreviation PersistedState := (PersistedState SelectStatement).
Abbreviation FileStorage := (FileStorage SelectStatement).
Implicit Types (p : PersistedState) (e : FileStorage).

(** The calls that change tables are those of the memory engine. *)
Definition table_call (t : TransactionId) (c : TableCall) : ST FileStorage unit :=
  match c with
  | CreateSchema schema => create_schema t schema
  | RemoveSchema name => drop_schema t name
  | ReplaceSchema schema => replace_schema t schema
  | RenameSchema old_name new_name => rename_schema t old_name new_name
  | AddColumn table column => add_column now t table column
  | RenameColumn table old_name new_name => rename_column t table old_name new_name
  | DropColumn table column => drop_table_column t table column
  | InsertRow table row => insert_row debug t table row ;;! st_ret tt
  | RemoveRow table row_id => delete_row t table row_id
  | UpdateRow table row_id row => update_row debug t table row_id row
  | CreateIndex table index => create_index t table index
  | RemoveIndex table name => drop_index t table name
  end.

(** What a call on tables leaves: the transaction, its savepoints and the disk are as they
    were. *)
Record on_tables e e' : Prop := {
  ot_sound : sound (state e) -> sound (state e');
  ot_active : active_txn e' = active_txn e;
  ot_next : next_txn_id e' = next_txn_id e;
  ot_disk : disk e' = disk e
}.

Lemma in_transaction_on_tables {A} t (body : ST PersistedState A) e : preserves sound body -> on_tables e (in_transaction t body e).2.
Proof.
  intros Hb. unfold in_transaction, st_bind, st_get. destruct (validate_transaction t e) as [[]|err|w|]; cbn; [|by split..].
  unfold on_state. specialize (Hb (state e)). destruct (body (state e)) as [r p]. by split.
Qed.

Lemma keeps_preserves {A} (body : ST PersistedState A) : (forall p0, sound p0 -> keeps p0 (body p0).2) -> preserves sound body.
Proof. intros Hb p Hp. eapply keeps_sound; [done|by apply Hb]. Qed.

Lemma keeping {A} (body : ST PersistedState A) : (forall p0, preserves (keeps p0) body) -> preserves sound body.
Proof. intros Hb. apply keeps_preserves. intros p0 _. by apply Hb. Qed.

Lemma require_keeps {A} t (k : Schema SelectStatement -> ST PersistedState A) :
  (forall p0 s, t ∈ dom (schemas p0) -> t ∈ dom (rows p0) -> t ∈ dom (next_row_ids p0) -> preserves (keeps p0) (k s)) ->
  preserves sound (let! s := st_get (require_schema t) in k s).
Proof.
  intros Hk. apply keeps_preserves. intros p0 Hp. unfold st_bind, st_get, require_schema. destruct (schemas p0 !! t) as [s|] eqn:Es; cbn; [|apply keeps_self].
  destruct (sound_table p0 t s Hp Es) as (H1 & H2 & H3). apply Hk; [by apply elem_of_dom_2 in Es|done..|apply keeps_self].
Qed.

Lemma sound_at p : sound p <->
  (forall t, (is_Some (rows p !! t) <-> is_Some (schemas p !! t)) /\ (is_Some (indexes p !! t) <-> is_Some (schemas p !! t)) /\
    (is_Some (next_row_ids p !! t) <-> is_Some (schemas p !! t))) /\
  forall t ixs i ix, indexes p !! t = Some ixs -> ixs !! i = Some ix -> index_name (meta ix) = i.
Proof.
  split.
  - intros [[H1 H2 H3] Hn]. split; [intros t; rewrite <- !elem_of_dom, H1, H2, H3; tauto|]. intros t ixs i ix Ht Hi. apply (Hn t). by rewrite Ht.
  - intros [Ht Hn]. split; [split; apply set_eq; intros t; rewrite !elem_of_dom; apply Ht|]. intros t i ix (ixs & H1 & H2)%bind_Some. by eapply Hn.
Qed.

Ltac at_name := repeat match goal with
  | |- context [<[?n := _]> _ !! ?t] => destruct (decide (n = t)) as [<-|]; rewrite ?lookup_insert_eq, ?lookup_insert_ne by done
  | |- context [delete ?n _ !! ?t] => destruct (decide (n = t)) as [<-|]; rewrite ?lookup_delete_eq, ?lookup_delete_ne by done
  end.

Lemma create_schema_tables t s e : on_tables e (create_schema t s e).2.
Proof.
  apply in_transaction_on_tables. intros p [Hd Hn]%sound_at. unfold st_bind, st_read, st_mod. cbn.
  destruct (schemas p !! schema_name s) as [s0|] eqn:Es; cbn; apply sound_at; [done|]. split.
  - intros t'. destruct (Hd t') as (H1 & H2 & H3). cbn. at_name; naive_solver.
  - intros t' ixs i ix. cbn. at_name; [|apply Hn]. intros [= <-]. unfold table_indexes. cbn. intros Hi.
    destruct (indexes p !! schema_name s) as [ixs|] eqn:Ei; [by eapply Hn|done].
Qed.

Lemma drop_schema_tables t n e : on_tables e (drop_schema t n e).2.
Proof.
  apply in_transaction_on_tables. intros p [Hd Hn]%sound_at. unfold st_bind, st_get, st_mod. cbn.
  unfold require_schema. destruct (schemas p !! n) as [s0|] eqn:Es; cbn; apply sound_at; [|done]. split.
  - intros t'. destruct (Hd t') as (H1 & H2 & H3). cbn. at_name; naive_solver.
  - intros t' ixs i ix. cbn. at_name; [done|apply Hn].
Qed.

Lemma replace_schema_tables t s e : on_tables e (replace_schema t s e).2.
Proof. apply in_transaction_on_tables, require_keeps. intros. preserve. Qed.

Lemma lookup_move_key {A} (m : gmap string A) n n' t : n <> n' -> is_Some (m !! n) ->
  move_key n n' m !! t = if decide (t = n') then m !! n else if decide (t = n) then None else m !! t.
Proof.
  intros Hne [a Ha]. unfold move_key. rewrite Ha. destruct (decide (t = n')) as [->|H1]; [by rewrite lookup_insert_eq|].
  rewrite lookup_insert_ne by done. destruct (decide (t = n)) as [->|H2]; [by rewrite lookup_delete_eq|by rewrite lookup_delete_ne].
Qed.

Lemma rename_schema_tables t n n' e : on_tables e (rename_schema t n n' e).2.
Proof.
  apply in_transaction_on_tables. intros p Hp. pose proof Hp as [Hd Hn]%sound_at. unfold st_bind, st_read, st_get, st_mod. cbn.
  unfold require_schema. destruct (schemas p !! n') as [s0|] eqn:Es'; cbn; [done|]. destruct (schemas p !! n) as [s|] eqn:Es; cbn; [|done].
  assert (Hne : n <> n') by congruence. destruct (Hd n) as (Hr & Hi & Hk). rewrite Es in Hr, Hi, Hk.
  assert (is_Some (rows p !! n) /\ is_Some (indexes p !! n) /\ is_Some (next_row_ids p !! n)) as (Hr' & Hi' & Hk') by naive_solver.
  apply sound_at. split.
  - intros t'. destruct (Hd t') as (H1 & H2 & H3). cbn. rewrite !lookup_move_key, lookup_fmap, fmap_is_Some by done.
    destruct (decide (t' = n')) as [->|]; [rewrite lookup_insert_eq; naive_solver|]. rewrite lookup_insert_ne by done.
    destruct (decide (t' = n)) as [->|]; [by rewrite lookup_delete_eq|by rewrite lookup_delete_ne].
  - intros t' ixs i ix. cbn. rewrite lookup_move_key by done. destruct (decide (t' = n')); [apply Hn|]. destruct (decide (t' = n)); [done|apply Hn].
Qed.

Lemma add_column_tables t n c e : on_tables e (add_column now t n c e).2.
Proof.
  apply in_transaction_on_tables, require_keeps. intros p0 s Hs Hr _. preserve.
Qed.

Lemma rename_column_tables t n a b e : on_tables e (rename_column t n a b e).2.
Proof.
  apply in_transaction_on_tables, require_keeps. intros p0 s Hs _ _. preserve; apply preserves_mod; intros p Hp.
  - apply keeps_set_indexes; [done|]. apply map_eq. intros t'. rewrite !lookup_fmap. destruct (decide (t' = n)) as [->|Ht].
    + rewrite lookup_alter_eq. destruct (indexes p !! n) as [ixs|]; [|done]. cbn. f_equal. unfold index_names. by rewrite <- map_fmap_compose.
    + by rewrite lookup_alter_ne.
  - apply keeps_set_schemas; [done|]. apply set_eq. intros t'. rewrite !elem_of_dom, map_lookup_imap. destruct (schemas p !! t'); [|done].
    split; intros _; by eexists.
Qed.

Lemma drop_column_tables t n c e : on_tables e (drop_table_column t n c e).2.
Proof.
  apply in_transaction_on_tables, require_keeps. intros p0 s Hs Hr _. preserve.
Qed.

Lemma insert_row_tables t n row e : on_tables e (insert_row debug t n row e).2.
Proof.
  apply in_transaction_on_tables, require_keeps. intros p0 s Hs Hr Hk. preserve.
Qed.

Lemma delete_row_tables t n id e : on_tables e (delete_row t n id e).2.
Proof. apply in_transaction_on_tables, keeping. intros p0. preserve. Qed.

Lemma update_row_tables t n id row e : on_tables e (update_row debug t n id row e).2.
Proof. apply in_transaction_on_tables, require_keeps. intros p0 s Hs Hr Hk. preserve. Qed.

Lemma create_index_tables t n index e : on_tables e (create_index t n index e).2.
Proof.
  apply in_transaction_on_tables. intros p [Hd Hn]%sound_at. unfold st_bind, st_read, st_get, st_mod. cbn.
  unfold require_schema. destruct (schemas p !! n) as [s|] eqn:Es; cbn; [|by apply sound_at].
  destruct (table_indexes n p !! index_name index); cbn; [by apply sound_at|]. case_bool_decide; cbn; [by apply sound_at|].
  destruct (build_entries s index _ _) as [es|err|w|]; cbn; [|by apply sound_at..]. apply sound_at. split.
  - intros t'. destruct (Hd t') as (K1 & K2 & K3). destruct (Hd n) as (_ & K2' & _). cbn. rewrite Es in K2'. at_name; naive_solver.
  - intros t' ixs i ix. cbn. at_name; [|apply Hn]. intros [= <-]. at_name; [by intros [= <-]|]. unfold table_indexes.
    destruct (indexes p !! n) as [ixs|] eqn:Ei; [by apply (Hn n)|done].
Qed.

Lemma drop_index_tables t n name e : on_tables e (drop_index t n name e).2.
Proof.
  apply in_transaction_on_tables. intros p Hp. pose proof Hp as [Hd Hn]%sound_at. unfold st_bind, st_get, st_mod. cbn.
  destruct (require_index n name p) as [ix0|err|w|]; cbn; [|done..]. apply sound_at. split.
  - intros t'. destruct (Hd t') as (H1 & H2 & H3). cbn. rewrite lookup_alter. case_decide; rewrite ?fmap_is_Some; subst; naive_solver.
  - intros t' ixs i ix. cbn. rewrite lookup_alter. case_decide as E; [subst t'|apply Hn]. intros (ixs0 & Hi & ->)%fmap_Some.
    intros [_ Hix]%lookup_delete_Some. by eapply Hn.
Qed.

Lemma table_call_tables t c e : on_tables e (table_call t c e).2.
Proof.
  destruct c; cbn [table_call]; auto using create_schema_tables, drop_schema_tables, replace_schema_tables, rename_schema_tables,
    add_column_tables, rename_column_tables, drop_column_tables, delete_row_tables, update_row_tables, create_index_tables, drop_index_tables.
  pose proof (insert_row_tables t table row e) as Hi. unfold st_bind. by destruct (insert_row debug t table row e) as [[] ?].
Qed.
End Operations.

(** * The v1 engine: what a commit leaves on disk

    Between two commits the engine writes only [txn/active.json], which it does not read.
    So once a commit has succeeded, and whatever is done afterwards short of another
    commit, at whatever change of the disk it stops, the directory opens with the state that
    was committed. *)


(** ** Changes of [active.json] only *)

Section Active.
Context {SelectStatement : Type} `{!JsonFiles SelectStatement} (base : Path).

Definition txn_files : list Path := [base ++ ["txn"%string; "active.json"%string]; base ++ ["txn"%string; "active.tmp"%string]].

(** The nodes are those of [ns], but for the files of the open transaction. *)
Record unchanged (ns : Nodes) (d : Disk) : Prop := {
  un_nodes q : q ∉ txn_files -> nodes d !! q = ns !! q;
  un_files q : q ∈ txn_files -> nodes d !! q <> Some Directory
}.

Lemma txn_file_ne q : q ∈ txn_files -> q <> [].
Proof. intros [->|Hq%list_elem_of_singleton]%elem_of_cons; [|subst q]; by destruct base. Qed.

Lemma usable_unchanged ns : usable base ns -> unchanged ns (mkDisk ns None).
Proof.
  intros Hu. split; [done|]. intros q Hq. apply elem_of_cons in Hq as [->|Hq%list_elem_of_singleton]; [|subst q]; apply (us_files _ _ Hu); set_solver.
Qed.

Lemma not_txn_file s : s <> ["txn"; "active.json"]%string -> s <> ["txn"; "active.tmp"]%string -> base ++ s ∉ txn_files.
Proof. intros H1 H2 [E|E%list_elem_of_singleton]%elem_of_cons; by apply app_inv_head in E. Qed.

Lemma base_not_txn q : q ∈ ancestors base -> q ∉ txn_files.
Proof.
  intros [_ Hq%prefix_length]%elem_of_ancestors [E|E%list_elem_of_singleton]%elem_of_cons; subst q; rewrite length_app in Hq; cbn in Hq; lia.
Qed.

Lemma unchanged_usable ns d : usable base ns -> unchanged ns d -> usable base (nodes d).
Proof.
  intros [H1 H2 H3] [Hn Hf]. split.
  - intros q Hq. rewrite Hn; [by apply H1|by apply base_not_txn].
  - intros x Hx. rewrite Hn; [by apply H2|by apply not_txn_file].
  - intros s Hs. destruct (decide (base ++ s ∈ txn_files)) as [Hin|Hin]; [by apply Hf|]. rewrite Hn by done. by apply H3.
Qed.

Lemma unchanged_shape p D ns d : shape base p D ns -> unchanged ns d -> shape base p D (nodes d).
Proof.
  intros [H1 H2] [Hn _]. split.
  - intros q Hq. rewrite Hn; [by apply H1|by apply base_not_txn].
  - intros s Hm. rewrite Hn; [by apply H2|]. by apply not_txn_file; intros ->.
Qed.

Lemma change_unchanged ns f : (forall d, unchanged ns d -> unchanged ns (mkDisk (f (nodes d)) (allowed d))) -> preserves (unchanged ns) (change f).
Proof. intros Hf d Hd. unfold change. destruct (allowed d) as [[|n]|]; cbn; [done|..]; apply Hf in Hd as [? ?]; by split. Qed.

Lemma unchanged_insert ns d q c : unchanged ns d -> q ∈ txn_files -> unchanged ns (mkDisk (<[q := File c]> (nodes d)) (allowed d)).
Proof.
  intros [Hn Hf] Hq. split; cbn.
  - intros r Hr. rewrite lookup_insert_ne; [by apply Hn|]. by intros ->.
  - intros r Hr. destruct (decide (q = r)) as [->|]; [by rewrite lookup_insert_eq|]. rewrite lookup_insert_ne by done. by apply Hf.
Qed.

Lemma unchanged_delete ns d q : unchanged ns d -> q ∈ txn_files -> unchanged ns (mkDisk (delete q (nodes d)) (allowed d)).
Proof.
  intros [Hn Hf] Hq. split; cbn.
  - intros r Hr. rewrite lookup_delete_ne; [by apply Hn|]. by intros ->.
  - intros r Hr. destruct (decide (q = r)) as [->|]; [by rewrite lookup_delete_eq|]. rewrite lookup_delete_ne by done. by apply Hf.
Qed.

Lemma write_file_unchanged ns q c : q ∈ txn_files -> preserves (unchanged ns) (write_file q c).
Proof.
  intros Hq. assert (Hfill : preserves (unchanged ns) (change <[q := File []]> ;;! st_each (fun b => change (alter (append_byte b) q)) c)).
  { apply preserves_bind; [apply change_unchanged; intros d Hd; by apply unchanged_insert|]. intros _. apply preserves_each. intros b.
    apply change_unchanged. intros d Hd. pose proof Hd as [Hn Hf]. split; cbn.
    - intros r Hr. rewrite lookup_alter_ne; [by apply Hn|]. by intros ->.
    - intros r Hr. rewrite lookup_alter. case_decide; [subst r|by apply Hf]. specialize (Hf q Hq). by destruct (nodes d !! q) as [[]|]. }
  unfold write_file. apply preserves_bind; [apply preserves_get|]. intros _. apply preserves_bind; [apply preserves_read|].
  intros [[]|]; [exact Hfill|apply preserves_err|exact Hfill].
Qed.

Lemma rename_file_unchanged ns q r : q ∈ txn_files -> r ∈ txn_files -> preserves (unchanged ns) (rename_file q r).
Proof.
  intros Hq Hr d Hd. unfold rename_file, st_bind, st_read, st_get, node_at. rewrite (bool_decide_eq_false_2 (q = [])), (bool_decide_eq_false_2 (r = [])) by by apply txn_file_ne.
  destruct (nodes d !! q) as [source|] eqn:Es; [|done]. pose proof (un_files _ _ Hd q Hq) as Hs. rewrite Es in Hs.
  destruct source as [c|]; [|done]. destruct (require_dir (parent r) d) as [[]|err|w|]; cbn [fst snd]; [|done..].
  assert (Hc : preserves (unchanged ns) (change (fun ns => <[r := File c]> (delete q ns)))).
  { apply change_unchanged. intros d' Hd'. pose proof (unchanged_delete ns d' q Hd' Hq) as H1.
    exact (unchanged_insert ns _ r c H1 Hr). }
  destruct (nodes d !! r) as [[]|]; [by apply Hc|done|by apply Hc].
Qed.

Lemma create_dirs_idle l d : (forall q, q ∈ l -> nodes d !! q = Some Directory) -> st_each create_dir l d = (Ok tt, d).
Proof.
  induction l as [|q l IH]; intros Hl; [done|]. cbn [st_each]. unfold st_bind at 1. unfold create_dir at 1, st_bind, st_read, node_at.
  rewrite (Hl q) by left. replace (if bool_decide (q = []) then Some Directory else Some Directory) with (Some Directory) by by case_bool_decide.
  cbn. apply IH. intros r Hr. apply Hl. by right.
Qed.

Lemma write_active_unchanged ns t : usable base ns -> preserves (unchanged ns) (write_active_txn base t).
Proof.
  intros Hu d Hd. unfold write_active_txn, write_json_pretty, active_txn_path, txn_dir. rewrite !join_plain by done.
  rewrite st_bind_run. unfold parent. rewrite removelast_last. pose proof (unchanged_usable ns d Hu Hd) as Hu'. unfold create_dir_all.
  rewrite create_dirs_idle by (intros q Hq; eapply (usable_dir base _ "txn"); [exact Hu'|set_solver|done]). cbn [fst snd].
  change "active.json"%string with (json_name "active"). rewrite with_extension_json by done.
  revert d Hd Hu'. intros d Hd _. revert d Hd. apply preserves_bind; [apply preserves_get|]. intros c. rewrite <- !app_assoc.
  apply preserves_bind; [apply write_file_unchanged|intros _; apply rename_file_unchanged]; unfold txn_files; set_solver.
Qed.

Lemma clear_active_unchanged ns : preserves (unchanged ns) (clear_active_txn base).
Proof.
  intros d Hd. unfold clear_active_txn, remove_file_if_exists, remove_file, active_txn_path, txn_dir. rewrite !join_plain by done.
  rewrite <- app_assoc. cbn [app]. set (q := base ++ _). assert (Hq : q ∈ txn_files) by (unfold txn_files; set_solver).
  unfold st_bind, st_read, node_at. rewrite bool_decide_eq_false_2 by (subst q; by destruct base).
  destruct (nodes d !! q) as [[]|]; [|by destruct d..]. pose proof (change_unchanged ns (delete q)) as Hc.
  specialize (Hc (fun d Hd => unchanged_delete ns d q Hd Hq) d Hd). by destruct (change (delete q) d) as [[] d'].
Qed.
End Active.

(** ** Sessions *)

Section Sessions.
Context {SelectStatement : Type} `{!JsonFiles SelectStatement, Libm, JsonParser}.
Context (base : Path) (debug : list Value -> string) (now : Z + string).
Abbreviation PersistedState := (PersistedState SelectStatement).
Abbreviation FileStorage := (FileStorage SelectStatement).
Implicit Types (p : PersistedState) (e : FileStorage).

(** The calls of a client but for the commit, each with a transaction id. *)
Inductive Call :=
  | CallTables (t : TransactionId) (c : @TableCall SelectStatement)
  | CallBegin
  | CallRollback (t : TransactionId)
  | CallSavepoint (t : TransactionId) (name : string)
  | CallReturn (t : TransactionId) (name : string)
  | CallRelease (t : TransactionId) (name : string).

Definition call (c : Call) : ST FileStorage unit :=
  match c with
  | CallTables t c => table_call debug now t c
  | CallBegin => begin base ;;! st_ret tt
  | CallRollback t => rollback base t
  | CallSavepoint t name => savepoint t name
  | CallReturn t name => rollback_to_savepoint t name
  | CallRelease t name => release_savepoint t name
  end.

(** A client goes on after a call that failed. *)
Fixpoint run (cs : list Call) e : FileStorage := match cs with [] => e | c :: cs => run cs (call c e).2 end.

(** The disk with all it holds, of which [n] more changes will be made. *)
Definition limit (n : option nat) e : FileStorage := set_disk (mkDisk (nodes (disk e)) n) e.

(** The states a rollback or a savepoint can bring back. *)
Definition remembered e : list PersistedState :=
  match active_txn e with Some a => snapshot a :: map savepoint_snapshot (savepoints a) | None => [] end.

Record session_ok e : Prop := {
  se_state : sound (state e);
  se_remembered : Forall sound (remembered e);
  se_usable : usable base (nodes (disk e));
  se_works : allowed (disk e) = None
}.

Lemma savepoint_run t name e : savepoint t name e =
  match validate_transaction t e with
  | Ok _ => (Ok tt, set_active_txn ((fun a => with_savepoints (savepoints a ++ [mkSavepoint _ name (state e)]) a) <$> active_txn e) e)
  | Err err => (Err err, e)
  | Panic w => (Panic w, e)
  | OutOfFuel => (OutOfFuel, e)
  end.
Proof. unfold savepoint, st_bind, st_get. by destruct (validate_transaction t e) as [[]|err|w|]. Qed.

(** What the calls other than [begin] and [rollback] leave alone. *)
Record inside_txn e e' : Prop := {
  in_state : sound (state e) -> Forall sound (remembered e) -> sound (state e');
  in_remembered : sound (state e) -> Forall sound (remembered e) -> Forall sound (remembered e');
  in_active : (fun a => (active_id a, snapshot a)) <$> active_txn e' = (fun a => (active_id a, snapshot a)) <$> active_txn e;
  in_disk : disk e' = disk e
}.

Lemma on_tables_inside e e' : on_tables e e' -> inside_txn e e'.
Proof. intros [H1 H2 _ H4]. split; [auto| |by rewrite H2|done]. intros _. unfold remembered. by rewrite H2. Qed.

Lemma inside_same e : inside_txn e e.
Proof. by split. Qed.


Lemma inside_savepoints e p sps a : active_txn e = Some a ->
  (sound (state e) -> Forall sound (remembered e) -> sound p /\ Forall sound (map savepoint_snapshot sps)) ->
  inside_txn e (set_active_txn (Some (with_savepoints sps a)) (set_state p e)).
Proof.
  intros Ha Hs. split; cbn; [intros H1 H2; by apply Hs| |by rewrite Ha|done].
  intros H1 H2. unfold remembered in *. cbn. rewrite Ha in H2. apply Forall_cons in H2 as [H2 H3]. apply Forall_cons. split; [done|].
  apply Hs; [done|]. rewrite Ha. by apply Forall_cons.
Qed.

Lemma find_savepoint_elem name (sps : list (Savepoint SelectStatement)) : forall i j sp, find_savepoint name i sps = Some (j, sp) -> sp ∈ sps.
Proof.
  induction sps as [|sp0 sps IH]; intros i j sp; [done|]. cbn. destruct (find_savepoint name (S i) sps) as [[j' sp']|] eqn:E.
  - intros [= <- <-]. right. by eapply IH.
  - destruct (same_name _ _); [|done]. intros [= <- <-]. left.
Qed.

Lemma savepoint_inside c e : (match c with CallSavepoint _ _ | CallReturn _ _ | CallRelease _ _ => True | _ => False end) -> inside_txn e (call c e).2.
Proof.
  intros Hc. destruct c as [| | |t name|t name|t name]; try done; cbn [call].
  - rewrite savepoint_run. destruct (validate_transaction t e) as [[]|err|w|] eqn:Ev; try apply inside_same.
    destruct (active_txn e) as [a|] eqn:Ha; [|unfold validate_transaction in Ev; by rewrite Ha in Ev]. cbn [fst snd fmap option_fmap option_map].
    destruct (inside_savepoints e (state e) (savepoints a ++ [mkSavepoint _ name (state e)]) a Ha) as [H1 H2 H3 H4]; [|by destruct e].
    intros Hs Hr. split; [done|]. rewrite map_app, Forall_app. split; [|by apply Forall_cons; split; [|apply Forall_nil]]. unfold remembered in Hr. rewrite Ha in Hr. by apply Forall_cons in Hr as [_ Hr].
  - unfold rollback_to_savepoint, st_bind, st_get, st_mod, mod_active. destruct (validate_transaction t e) as [[]|err|w|] eqn:Ev; try apply inside_same.
    destruct (active_txn e) as [a|] eqn:Ha; [|unfold validate_transaction in Ev; by rewrite Ha in Ev]. unfold active_savepoints. rewrite Ha.
    destruct (find_savepoint name 0 (savepoints a)) as [[i sp]|] eqn:Ef; [|apply inside_same]. cbn. rewrite Ha. cbn.
    apply (inside_savepoints e _ _ a Ha). intros _ Hr. unfold remembered in Hr. rewrite Ha in Hr. apply Forall_cons in Hr as [_ Hr].
    split; [|rewrite <- firstn_map; by apply Forall_take]. rewrite Forall_forall in Hr. apply Hr. apply list_elem_of_fmap. exists sp. split; [done|]. by apply find_savepoint_elem in Ef.
  - unfold release_savepoint, st_bind, st_get, mod_active, st_mod. destruct (validate_transaction t e) as [[]|err|w|] eqn:Ev; try apply inside_same.
    destruct (active_txn e) as [a|] eqn:Ha; [|unfold validate_transaction in Ev; by rewrite Ha in Ev]. unfold active_savepoints. rewrite Ha.
    destruct (find_savepoint name 0 (savepoints a)) as [[i sp]|] eqn:Ef; [|apply inside_same]. cbn. rewrite Ha. cbn.
    destruct (inside_savepoints e (state e) (take i (savepoints a)) a Ha) as [H1 H2 H3 H4]; [|by destruct e].
    intros Hs Hr. split; [done|]. unfold remembered in Hr. rewrite Ha in Hr. apply Forall_cons in Hr as [_ Hr]. rewrite <- firstn_map. by apply Forall_take.
Qed.
(** ** Beginning, rolling back and opening *)

Lemma begin_effect ns e : usable base ns -> unchanged base ns (disk e) -> Forall sound (remembered e) -> sound (state e) ->
  unchanged base ns (disk (begin base e).2) /\ state (begin base e).2 = state e /\ Forall sound (remembered (begin base e).2).
Proof.
  intros Hu Hd Hr Hs. unfold begin, st_bind, st_read, st_get, st_mod, st_ret, on_disk. destruct (active_txn e) as [a|] eqn:Ha; [done|].
  pose proof (write_active_unchanged base ns (next_txn_id e) Hu (disk e) Hd) as Hw. destruct (write_active_txn base (next_txn_id e) (disk e)) as [[[]|err|w|] d'];
    cbn in Hw |- *; try (split_and!; [done..|]; unfold remembered; cbn; by rewrite Ha).
  destruct (u64_add (next_txn_id e) 1) as [n|err|w|]; cbn; try (split_and!; [done..|]; unfold remembered; cbn; by rewrite Ha).
  split_and!; [done..|]. unfold remembered. cbn. by apply Forall_cons.
Qed.

Lemma ignored_clear_unchanged ns d : unchanged base ns d -> unchanged base ns (st_ignore (clear_active_txn base) d).2.
Proof. apply (preserves_ignore (unchanged base ns)), clear_active_unchanged. Qed.

Lemma rollback_effect ns t e : unchanged base ns (disk e) -> Forall sound (remembered e) -> sound (state e) ->
  unchanged base ns (disk (rollback base t e).2) /\ sound (state (rollback base t e).2) /\ Forall sound (remembered (rollback base t e).2).
Proof.
  intros Hd Hr Hs. unfold rollback, st_bind, st_read, st_mod, on_disk. destruct (active_txn e) as [a|] eqn:Ha; [|done].
  destruct (negb (active_id a =? t)); [done|]. cbn. pose proof (ignored_clear_unchanged ns (disk e) Hd) as Hc.
  destruct (st_ignore (clear_active_txn base) (disk e)) as [r d']. cbn in *. split_and!; [done| |apply Forall_nil; done].
  unfold remembered in Hr. rewrite Ha in Hr. by apply Forall_cons in Hr as [Hr _].
Qed.

(** A call changes no file that is read again. *)
Lemma call_effect ns c e : usable base ns -> unchanged base ns (disk e) -> Forall sound (remembered e) -> sound (state e) ->
  unchanged base ns (disk (call c e).2) /\ sound (state (call c e).2) /\ Forall sound (remembered (call c e).2).
Proof.
  intros Hu Hd Hr Hs. assert (Hin : forall e', inside_txn e e' -> unchanged base ns (disk e') /\ sound (state e') /\ Forall sound (remembered e')).
  { intros e' [H1 H2 _ H4]. rewrite H4. auto. }
  destruct c as [t c| |t|t name|t name|t name]; try by apply Hin, savepoint_inside.
  - apply Hin, on_tables_inside, table_call_tables.
  - pose proof (begin_effect ns e Hu Hd Hr Hs) as (H1 & H2 & H3). cbn [call]. rewrite st_bind_run. unfold st_ret.
    destruct (begin base e) as [[] e']; cbn in *; by rewrite H2.
  - by apply rollback_effect.
Qed.

Lemma run_unchanged ns cs : usable base ns -> forall e, unchanged base ns (disk e) -> Forall sound (remembered e) -> sound (state e) ->
  unchanged base ns (disk (run cs e)).
Proof.
  intros Hu. induction cs as [|c cs IH]; intros e Hd Hr Hs; [done|]. cbn [run].
  destruct (call_effect ns c e Hu Hd Hr Hs) as (H1 & H2 & H3). by apply IH.
Qed.

Lemma ensure_layout_idle d : usable base (nodes d) -> ensure_layout base d = (Ok tt, d).
Proof.
  intros Hu. unfold ensure_layout, tables_dir, indexes_dir, txn_dir. rewrite !join_plain by done. unfold st_bind at 1. unfold st_read.
  assert (Hb : is_dir base d = true).
  { unfold is_dir, node_at. case_bool_decide as Hb; [done|]. rewrite (us_base _ _ Hu); [done|]. by apply elem_of_ancestors. }
  rewrite Hb, andb_false_r. unfold st_bind, create_dir_all. rewrite create_dirs_idle by by apply Hu.
  rewrite !create_dirs_idle by (intros q Hq; eapply usable_dir; [done| |done]; set_solver). done.
Qed.

Lemma ignored_clear d : exists d', st_ignore (clear_active_txn base) d = (Ok tt, d') /\ (allowed d = None -> allowed d' = None).
Proof.
  unfold clear_active_txn, remove_file_if_exists, remove_file, st_read, change, st_ignore, st_catch, st_bind, st_ret.
  destruct (node_at (active_txn_path base) d) as [[]|]; cbn; [|by eexists..].
  destruct (allowed d) as [[]|] eqn:E; cbn; eexists; (split; [done|]); cbn; congruence.
Qed.

(** A directory whose files hold a state opens with it. *)
Lemma open_stored ns p d : usable base ns -> (forall d', unchanged base ns d' -> load_state base d' = Ok p) -> unchanged base ns d ->
  exists d', open base d = (Ok (mkFileStorage _ p 1 None d'), d') /\ unchanged base ns d'.
Proof.
  intros Hu Hl Hd. unfold open. rewrite st_bind_run, ensure_layout_idle by by eapply unchanged_usable. cbn [fst snd].
  pose proof (ignored_clear_unchanged ns d Hd) as Hc. destruct (ignored_clear d) as (d' & Hrun & _). rewrite Hrun in Hc.
  exists d'. split; [|done]. unfold st_bind. rewrite Hrun. unfold st_get, st_read, st_ret. by rewrite Hl.
Qed.

(** ** Commits *)

Lemma commit_run t a e : active_txn e = Some a -> active_id a = t -> restorable (state e) -> sound (state e) -> usable base (nodes (disk e)) ->
  allowed (disk e) = None ->
  exists ns d, commit base t e = (Ok tt, mkFileStorage _ (state e) (next_txn_id e) None d) /\ usable base ns /\ unchanged base ns d /\
    allowed d = None /\ forall d', unchanged base ns d' -> load_state base d' = Ok (state e).
Proof.
  intros Ha Ht Hr Hs Hu Hw. destruct (disk e) as [ns0 al] eqn:Ed. cbn in Hu, Hw. subst al.
  destruct (persist_run base (state e) ns0 Hr Hu) as (ns & D & Hp & Hsh & Hu' & Hcat & _ & HD).
  destruct (ignored_clear (mkDisk ns None)) as (d & Hc & Hal). specialize (Hal eq_refl). exists ns, d. split_and!; [|done| |done|].
  - unfold commit, st_bind, st_get, st_read, st_mod, on_disk, validate_transaction. rewrite Ha, Ht, Z.eqb_refl, Ed, Hp. cbn. by rewrite Hc.
  - pose proof (ignored_clear_unchanged ns (mkDisk ns None)) as H1. rewrite Hc in H1. apply H1. by apply usable_unchanged.
  - intros d' Hd'. destruct d' as [ns' n]. pose proof (unchanged_shape base _ _ _ _ Hsh Hd') as Hsh'. cbn in Hsh'.
    apply load_state_stored with (D := D); try done; [by apply Hs|]. rewrite <- Hcat. apply (un_nodes _ _ _ Hd'). by apply not_txn_file.
Qed.

(** The states a client reaches that opens a directory nothing but the engine writes to, and
    commits only what can be restored. *)
Inductive session : FileStorage -> Prop :=
  | session_new d d' e : usable base (nodes d) -> allowed d = None -> open base d = (Ok e, d') -> session e
  | session_call c e : session e -> session (call c e).2
  | session_commit t e : session e -> restorable (state e) -> session (commit base t e).2.

Lemma preserves_works_change f : preserves (fun d => allowed d = None) (change f).
Proof. intros d Hd. unfold change. by rewrite Hd. Qed.

Lemma write_active_works t : preserves (fun d => allowed d = None) (write_active_txn base t).
Proof.
  unfold write_active_txn, write_json_pretty, create_dir_all, write_file, rename_file.
  assert (Hd : forall q, preserves (fun d => allowed d = None) (create_dir q)).
  { intros q. unfold create_dir. preserve. apply preserves_works_change. }
  preserve; try apply preserves_works_change; try (apply preserves_each; intros ?; apply preserves_works_change).
Qed.

(** ** Loading anything gives a whole state *)

Lemma load_entries_named t d names : forall acc ixs, fold_res (load_entry base t d) names acc = Ok ixs ->
  map_Forall (fun i ix => index_name (meta ix) = i) acc -> map_Forall (fun i ix => index_name (meta ix) = i) ixs.
Proof.
  induction names as [|name names IH]; intros acc ixs; [by intros [= <-]|]. cbn [fold_res].
  intros (acc' & Hl & Hrest)%bind_Ok_inv Ha. apply (IH acc' ixs Hrest). unfold load_entry in Hl.
  destruct (stem_and_extension name) as [stem ext]. destruct (ext ≫= to_str) as [x|]; [|by injection Hl as <-].
  assert (Hcase : forall r, (match to_str stem with None => Ok acc | Some index_name => let? index_file := load_index base t index_name d in
    Ok (match index_file with Some f => <[Schema.index_name (file_meta f) := index_of_file f]> acc | None => acc end) end) = Ok r ->
    map_Forall (fun i ix => index_name (meta ix) = i) r).
  { intros r. destruct (to_str stem); [|by intros [= <-]]. intros ([f|] & _ & [= <-])%bind_Ok_inv; [|done]. by apply map_Forall_insert_2. }
  repeat (case_match; try (by injection Hl as <-)); by apply Hcase.
Qed.

Lemma load_tables_sound d l : forall acc q, fold_res (load_one base d) l acc = Ok q ->
  dom (rows acc) = dom (indexes acc) -> dom (next_row_ids acc) = dom (indexes acc) ->
  map_Forall (fun _ => map_Forall (fun i ix => index_name (meta ix) = i)) (indexes acc) ->
  schemas q = schemas acc /\ dom (rows q) = dom (indexes q) /\ dom (next_row_ids q) = dom (indexes q) /\
  dom (indexes q) = list_to_set l ∪ dom (indexes acc) /\ map_Forall (fun _ => map_Forall (fun i ix => index_name (meta ix) = i)) (indexes q).
Proof.
  induction l as [|t l IH]; intros acc q; cbn [fold_res].
  - intros [= <-] H1 H2 H3. split_and!; [done..| |done]. set_solver.
  - intros (acc' & Hl & Hrest)%bind_Ok_inv H1 H2 H3. unfold load_one in Hl. apply bind_Ok_inv in Hl as (file & _ & Hl). apply bind_Ok_inv in Hl as (ixs & Hi & [= <-]).
    apply IH in Hrest; cbn in *; [|by rewrite !dom_insert_L, H1|by rewrite !dom_insert_L, H2|].
    + destruct Hrest as (K1 & K2 & K3 & K4 & K5). split_and!; try done. rewrite K4, dom_insert_L. set_solver.
    + apply map_Forall_insert_2; [|done]. unfold load_indexes in Hi. destruct (is_dir _ d); [|injection Hi as <-; done].
      apply bind_Ok_inv in Hi as (names & _ & Hi). by eapply load_entries_named.
Qed.

Lemma load_state_sound d p : load_state base d = Ok p -> sound p.
Proof.
  unfold load_state. intros (catalog & _ & Hl)%bind_Ok_inv. apply load_tables_sound in Hl; [|done..].
  destruct Hl as (H1 & H2 & H3 & H4 & H5). cbn in *.
  assert (Hd : dom (indexes p) = dom (schemas p)).
  { rewrite H4, H1, dom_empty_L. apply set_eq. intros t. rewrite elem_of_union, elem_of_list_to_set, elem_of_empty, list_elem_of_fmap, elem_of_dom. split.
    - intros [([t' s] & -> & Hin%sorted_by_name_elem)|[]]. by exists s.
    - intros [s Hin]. left. exists (t, s). by rewrite sorted_by_name_elem. }
  split; [split; congruence|]. intros t i ix (ixs & Ht & Hi)%bind_Some. by apply (H5 t ixs Ht).
Qed.

Lemma works_unchanged e : session_ok e -> unchanged base (nodes (disk e)) (disk e).
Proof. intros [_ _ Hu Hw]. destruct (disk e) as [ns n]. cbn in *. subst n. by apply usable_unchanged. Qed.

Lemma call_works c e : allowed (disk e) = None -> allowed (disk (call c e).2) = None.
Proof.
  intros Hw. assert (Hin : forall e', inside_txn e e' -> allowed (disk e') = None) by (intros e' []; congruence).
  destruct c as [t c| |t|t name|t name|t name]; try by apply Hin, savepoint_inside.
  - apply Hin, on_tables_inside, table_call_tables.
  - cbn [call]. unfold begin, st_bind, st_read, st_get, st_mod, st_ret, on_disk. destruct (active_txn e); [done|].
    pose proof (write_active_works (next_txn_id e) (disk e) Hw) as Hd. destruct (write_active_txn base _ (disk e)) as [[] d']; try done.
    cbn in Hd |- *. by destruct (u64_add _ 1).
  - cbn [call]. unfold rollback, st_bind, st_read, st_mod, on_disk. destruct (active_txn e); [|done]. destruct (negb _); [done|]. cbn.
    destruct (ignored_clear (disk e)) as (d' & -> & Hd). by apply Hd.
Qed.

Lemma session_works e : session e -> session_ok e.
Proof.
  induction 1 as [d d' e Hu Hw Ho|c e _ IH|t e _ IH Hr].
  - unfold open in Ho. rewrite st_bind_run, ensure_layout_idle in Ho by done. cbn [fst snd] in Ho. rewrite st_bind_run in Ho.
    destruct (ignored_clear d) as (d1 & Hc & Hw1). pose proof (ignored_clear_unchanged (nodes d) d) as Hd1. rewrite Hc in Ho, Hd1. cbn [fst snd] in Ho, Hd1.
    unfold st_bind, st_get, st_read, st_ret in Ho. destruct (load_state base d1) as [p|err|w|] eqn:El; [|done..]. injection Ho as <- <-.
    split; cbn; [by apply load_state_sound in El|done| |by apply Hw1]. apply (unchanged_usable base (nodes d)), Hd1; [done|].
    destruct d as [ns n]. cbn in *. subst n. by apply usable_unchanged.
  - pose proof (works_unchanged e IH) as Hun. destruct IH as [H1 H2 H3 H4].
    destruct (call_effect (nodes (disk e)) c e H3 Hun H2 H1) as (K1 & K2 & K3).
    split; [done|done|by eapply unchanged_usable|by apply call_works].
  - destruct IH as [H1 H2 H3 H4]. destruct (active_txn e) as [a|] eqn:Ha; [|by unfold commit, st_bind, st_get, validate_transaction; rewrite Ha].
    destruct (decide (active_id a = t)) as [Ht|Ht].
    + destruct (commit_run t a e Ha Ht Hr H1 H3 H4) as (ns & d & -> & Hu & Hd & Hal & _). cbn.
      split; cbn; [done|done| |done]. by eapply unchanged_usable.
    + unfold commit, st_bind, st_get, validate_transaction. rewrite Ha. destruct (Z.eqb_spec (active_id a) t); [done|]. by split.
Qed.

(** ** Theorems *)

(** C14: durability of the v1 engine. Let a client have opened a directory of the engine
    and made any calls and commits. When it commits a transaction whose state can be
    written (plain names, and values JSON gives back), the commit succeeds, keeps the state
    and ends the transaction. From then on, whatever it calls short of another commit, and
    even if the disk stops after any number of changes, opening the directory gives exactly
    the state committed. *)
Theorem v1_commit_survives e a cs n :
  session e -> active_txn e = Some a -> restorable (state e) ->
  exists e1, commit base (active_id a) e = (Ok tt, e1) /\ state e1 = state e /\ active_txn e1 = None /\
    exists d, open base (mkDisk (nodes (disk (run cs (limit n e1)))) None) = (Ok (mkFileStorage _ (state e) 1 None d), d).
Proof.
  intros Hs Ha Hr. destruct (session_works e Hs) as [H1 H2 H3 H4].
  destruct (commit_run (active_id a) a e Ha eq_refl Hr H1 H3 H4) as (ns & d & Hc & Hu & Hd & _ & Hl).
  eexists. split_and!; [exact Hc|done|done|].
  set (e1 := limit n _). assert (Hrun : unchanged base ns (disk (run cs e1))).
  { apply run_unchanged; [done| |done|done]. subst e1. cbn. destruct Hd. by split. }
  destruct (open_stored ns (state e) (mkDisk (nodes (disk (run cs e1))) None) Hu Hl) as (d' & Ho & _); [destruct Hrun; by split|]. by exists d'.
Qed.

(** The calls of a transaction up to its rollback. *)
Definition within (t : TransactionId) (c : Call) : Prop := match c with CallRollback t' => t' <> t | _ => True end.

Lemma within_active t c e a : active_txn e = Some a -> active_id a = t -> within t c ->
  (fun a => (active_id a, snapshot a)) <$> active_txn (call c e).2 = Some (active_id a, snapshot a).
Proof.
  intros Ha Ht Hw. assert (Hin : forall e', inside_txn e e' -> (fun a => (active_id a, snapshot a)) <$> active_txn e' = Some (active_id a, snapshot a)).
  { intros e' [_ _ H3 _]. by rewrite H3, Ha. }
  destruct c as [t' c| |t'|t' name|t' name|t' name]; try by apply Hin, savepoint_inside.
  - apply Hin, on_tables_inside, table_call_tables.
  - cbn [call]. unfold begin, st_bind, st_read. rewrite Ha. cbn. by rewrite Ha.
  - cbn in Hw |- *. unfold rollback, st_bind, st_read. rewrite Ha. destruct (Z.eqb_spec (active_id a) t'); [congruence|]. cbn. by rewrite Ha.
Qed.

Lemma within_run t cs p : forall e a, active_txn e = Some a -> active_id a = t -> snapshot a = p -> Forall (within t) cs ->
  exists a', active_txn (run cs e) = Some a' /\ active_id a' = t /\ snapshot a' = p.
Proof.
  induction cs as [|c cs IH]; intros e a Ha Ht Hp Hw; [by exists a|]. apply Forall_cons in Hw as [Hc Hw]. cbn [run].
  pose proof (within_active t c e a Ha Ht Hc) as H1. destruct (active_txn (call c e).2) as [a1|] eqn:E; [|done]. injection H1 as H1 H2.
  apply (IH _ a1); congruence.
Qed.

(** Rolling back in the v1 engine. Whatever is called between the beginning of a
    transaction and its rollback, savepoints, returns to them and failing calls included,
    the rollback succeeds and the state is the one the transaction began with. *)
Theorem v1_rollback_restores e cs t e1 :
  begin base e = (Ok t, e1) -> Forall (within t) cs ->
  exists e2, rollback base t (run cs e1) = (Ok tt, e2) /\ state e2 = state e /\ active_txn e2 = None.
Proof.
  unfold begin, st_bind, st_read, st_get, st_mod, st_ret, on_disk. destruct (active_txn e) as [a|] eqn:Ha; [done|].
  destruct (write_active_txn base (next_txn_id e) (disk e)) as [[[]|err|w|] d']; try done.
  destruct (u64_add (next_txn_id e) 1) as [next|err|w|]; try done. intros [= <- <-] Hw.
  match goal with |- context [run cs ?x] => set (e1 := x) end.
  destruct (within_run (next_txn_id e) cs (state e) e1 (mkActiveTransaction _ (next_txn_id e) (state e) [])) as (a' & Ha' & Ht & Hp); [done..|].
  unfold rollback, st_bind, st_read, st_mod, on_disk. rewrite Ha', Ht, Z.eqb_refl. cbn [negb].
  destruct (ignored_clear (disk (run cs e1))) as (d & Hd & _). cbn [disk set_state set_active_txn]. rewrite Hd.
  eexists. split_and!; [done|cbn; congruence|done].
Qed.
End Sessions.
