(* ===== verification/V1Scenarios.v ===== *)
(** * Runs of the v1 engine

    The theorems of V1Laws.v on a directory with one table, and two runs that show what goes
    wrong: a commit interrupted after it has emptied the directory of the tables, and a
    column dropped although an index is on it. *)

From S2P Require Import Prelude Text Types Ast Schema SchemaLaws CheckValues CheckEval CheckLaws TxTypes Memory MemoryIndex MemoryLaws MemoryScenarios V1Files V1Persist V1Engine V1Laws.

#[local] Existing Instances sample_libm CheckLaws.sample_json.

(** The values the files hold, as nested pairs. *)
Abbreviation IndexCode := (string * list string * option (list string) * bool * option string * list (list Value * list Z))%type.
Definition index_code (f : IndexFile) : IndexCode :=
  let m := file_meta f in
  (index_name m, index_columns m, decorated_columns m, index_unique m, predicate m, map (fun e => (entry_key e, entry_row_ids e)) (file_entries f)).
Definition index_decode (c : IndexCode) : IndexFile :=
  let '(name, cols, decorated, unique, pred, es) := c in
  mkIndexFile (mkIndexMeta name cols decorated unique pred) (map (fun e => mkIndexEntryFile e.1 e.2) es).

#[local] Instance sample_files : JsonFiles unit := {|
  catalog_to_json := fun c => Ok (if bool_decide (c = ∅) then [0] else [1]);
  catalog_of_json := fun b => Ok (if bool_decide (b = [0]) then ∅ else {["pets"%string := pets]});
  table_to_json := fun f => Ok (bits_of (encode (file_next_row_id f, file_rows f)));
  table_of_json := fun b => ok_or ((fun nr => mkTableFile nr.1 nr.2) <$> decode (of_bits b)) (Serde "invalid table");
  index_to_json := fun f => Ok (bits_of (encode (index_code f)));
  index_of_json := fun b => ok_or (index_decode <$> decode (of_bits b)) (Serde "invalid index");
  active_to_json := fun t => Ok (bits_of (encode t))
|}.

Definition base : Path := ["db"].
Abbreviation Storage1 := (FileStorage unit).

Definition engine_call (c : Call) : ST Storage1 unit := V1Laws.call base undisplayed (inl 0) c.
Definition engine_run (cs : list Call) (e : Storage1) : Storage1 := V1Laws.run base undisplayed (inl 0) cs e.

Definition fresh_disk : Disk :=
  mkDisk (list_to_map (map (fun p => (p, Directory)) [["db"]; ["db"; "tables"]; ["db"; "indexes"]; ["db"; "txn"]]%string)) None.

Definition opened : Storage1 :=
  match open base fresh_disk with (Ok e, _) => e | _ => mkFileStorage _ empty_state 1 None fresh_disk end.

Definition fill : list (@Call unit) :=
  [ CallBegin; CallTables 1 (CreateSchema pets); CallTables 1 (CreateIndex "pets" by_name);
    CallTables 1 (InsertRow "pets" [Integer 5; Text "rex"]) ].

(** One row has been inserted by transaction 1, which is still open. *)
Definition filled1 : Storage1 := engine_run fill opened.

Example filled1_rows : scan_rows 1 "pets" filled1 = Ok [(1, [Integer 5; Text "rex"])] /\
  lookup_index 1 "pets" "by_name" [Text "rex"] filled1 = Ok [1].
Proof. vm_compute. by split. Qed.

(** ** The theorems at this state *)

Lemma fresh_usable : usable base (nodes fresh_disk).
Proof.
  split.
  - intros q [Hq [k Hk]]%elem_of_ancestors. destruct q as [|x [|]]; [done| |done]. by injection Hk as <- _.
  - intros x Hx. repeat (apply elem_of_cons in Hx as [->|Hx]; [done|]). by apply not_elem_of_nil in Hx.
  - intros s Hs. repeat (apply elem_of_cons in Hs as [->|Hs]; [done|]). by apply not_elem_of_nil in Hs.
Qed.

Lemma opened_session : session base undisplayed (inl 0) opened.
Proof. apply (session_new _ _ _ fresh_disk (open base fresh_disk).2); [apply fresh_usable|done|]. by vm_compute. Qed.

Lemma run_session cs : forall e, session base undisplayed (inl 0) e -> session base undisplayed (inl 0) (engine_run cs e).
Proof. induction cs as [|c cs IH]; intros e He; [done|]. by apply IH, session_call. Qed.

Definition rex_entries : IndexState := mkIndexState by_name {[ [Text "rex"] := {[1]} ]}.

Lemma filled1_restorable : restorable (state filled1).
Proof.
  assert (Hs : schemas (state filled1) = {["pets"%string := pets]}) by by vm_compute.
  assert (Hi : indexes (state filled1) = {["pets"%string := {["by_name"%string := rex_entries]}]}) by by vm_compute.
  split.
  - rewrite Hs. exists [1]. split; by vm_compute.
  - intros t Ht. rewrite Hs, dom_singleton_L in Ht. apply elem_of_singleton in Ht as ->. split; [done|]. eexists. split; [reflexivity|]. by vm_compute.
  - intros t i ix (ixs & Ht & Hix)%bind_Some. rewrite Hi in Ht. apply lookup_singleton_Some in Ht as [<- <-].
    apply lookup_singleton_Some in Hix as [<- <-]. split_and!; [done|done|]. eexists. split; [reflexivity|]. by vm_compute.
Qed.

(** The transaction that inserted the row commits; another one inserts a second row, drops
    the index and never commits. The disk stops somewhere; the directory opens with the
    first row. *)
Definition afterwards : list (@Call unit) :=
  [ CallBegin; CallTables 2 (InsertRow "pets" [Integer 6; Text "tom"]); CallTables 2 (RemoveIndex "pets" "by_name"); CallRollback 1 ].

Lemma v1_commit_survives_witness :
  exists e1 d, commit base 1 filled1 = (Ok tt, e1) /\
    open base (mkDisk (nodes (disk (engine_run afterwards (limit (Some 3%nat) e1)))) None) =
      (Ok (mkFileStorage _ (state filled1) 1 None d), d).
Proof.
  destruct (v1_commit_survives base undisplayed (inl 0) filled1 (mkActiveTransaction _ 1 (state opened) []) afterwards (Some 3%nat))
    as (e1 & Hc & _ & _ & d & Ho).
  - apply run_session, opened_session.
  - by vm_compute.
  - apply filled1_restorable.
  - exists e1, d. by split.
Defined.

(** A transaction that inserts, sets a savepoint, returns to it and fails to begin another
    transaction is rolled back. *)
Definition undone : list (@Call unit) :=
  [ CallTables 1 (CreateSchema pets); CallSavepoint 1 "sp"; CallTables 1 (InsertRow "pets" [Integer 5; Text "rex"]);
    CallBegin; CallReturn 1 "SP"; CallRelease 1 "sp"; CallRollback 9 ].

Lemma v1_rollback_restores_witness :
  exists e2, rollback base 1 (engine_run undone (begin base opened).2) = (Ok tt, e2) /\ state e2 = state opened /\ active_txn e2 = None.
Proof.
  apply (v1_rollback_restores base undisplayed (inl 0) opened undone 1); [by vm_compute|]. repeat constructor; discriminate.
Defined.

(** ** Surprising runs *)

(** The rows of the table in the directory as it is. *)
Definition rows_on_disk (d : Disk) : Result (list (RowId * Row)) :=
  match open base (mkDisk (nodes d) None) with
  | (Ok e, _) => match begin base e with (Ok t, e) => scan_rows t "pets" e | _ => OutOfFuel end
  | (Err err, _) => Err err
  | (Panic w, _) => Panic w
  | (OutOfFuel, _) => OutOfFuel
  end.

(** One row is committed, and a transaction that inserts another one is about to commit. *)
Definition second : Storage1 :=
  engine_run [CallBegin; CallTables 2 (InsertRow "pets" [Integer 6; Text "tom"])] (commit base 1 filled1).2.

(** A commit that stops after it has removed the file of the table loses the row that was
    committed before: the table opens, and it is empty. *)
Theorem interrupted_commit_loses_rows :
  rows_on_disk (disk second) = Ok [(1, [Integer 5; Text "rex"])] /\
  (commit base 2 (limit (Some 2%nat) second)).1 = Err interrupted /\
  rows_on_disk (disk (commit base 2 (limit (Some 2%nat) second)).2) = Ok [].
Proof. split_and!; by vm_compute. Qed.

(** Dropping a column that an index is on fails, and drops it all the same. *)
Theorem v1_failed_drop_column_changes :
  exists err, (table_call undisplayed (inl 0) 2 (DropColumn "pets" "name") second).1 = Err err /\
    scan_rows 2 "pets" (table_call undisplayed (inl 0) 2 (DropColumn "pets" "name") second).2 = Ok [(1, [Integer 5]); (2, [Integer 6])] /\
    lookup_index 2 "pets" "by_name" [Text "rex"] (table_call undisplayed (inl 0) 2 (DropColumn "pets" "name") second).2 = Ok [].
Proof. eexists. split; [by vm_compute|]. by vm_compute. Qed.
