(* ===== verification/TxnManager.v ===== *)
(** * The transaction manager of the v2 engine: [src/storage/v2/txn_manager.rs]

    One definition per method of [TxnManager]. A method with [&mut self] that returns a
    [Result] is an [ST] action: the state it leaves is kept on the error paths too (a
    refused lock request leaves the requester queued and its wait edges set). The
    [HashMap]s and [BTreeSet]s are [gmap]s and [gset]s; where the code iterates over a
    [BTreeSet], the model iterates over its sorted elements. The condition variable of
    [lock_wait_notifier] is represented by its epoch counter. Error messages are kept,
    because callers classify errors by their text.

    Two kinds of recursion carry fuel: the depth-first searches of the waits-for graph
    (bounded by the number of its nodes) and the lock requests that start over after a
    deadlock was resolved (bounded by the number of waiting transactions).
    TxnManagerFacts.v and TxnLocks.v prove that the fuel given is enough. *)

From S2P Require Import Prelude Types Ast V2Page TxTypes.

Inductive PredicateLockKind :=
  | PTable
  | PRecord (key : list Value)
  | PGap (prefix : list Value) (lower upper : option (CompareOp * Value))
  | PNextKey (prefix : list Value) (lower upper : option (CompareOp * Value)).

#[export] Instance PredicateLockKind_eq_dec : EqDecision PredicateLockKind.
Proof. solve_decision. Defined.

Record PredicateLock := mkPredicateLock {
  pl_txn_id : TransactionId;
  pl_table : string;
  pl_index : option string;
  pl_kind : PredicateLockKind
}.

#[export] Instance PredicateLock_eq_dec : EqDecision PredicateLock.
Proof. solve_decision. Defined.

Inductive TableLockMode := IntentionRead | IntentionWrite | Exclusive.

#[export] Instance TableLockMode_eq_dec : EqDecision TableLockMode.
Proof. solve_decision. Defined.

(** The derived [Ord]: declaration order. *)
Definition mode_rank (m : TableLockMode) : Z :=
  match m with IntentionRead => 0 | IntentionWrite => 1 | Exclusive => 2 end.

Record TableLock := mkTableLock {
  tl_txn_id : TransactionId;
  tl_table : string;
  tl_mode : TableLockMode
}.

#[export] Instance TableLock_eq_dec : EqDecision TableLock.
Proof. solve_decision. Defined.

(** [PredicateWriteKey { table, index_keys }] *)
Abbreviation PredicateWriteKey := (string * list (string * list Value))%type (only parsing).

Abbreviation WaitGraph := (gmap TransactionId (gset TransactionId)) (only parsing).
Abbreviation Queues K := (gmap K (list TransactionId)) (only parsing).

Record TxnManager := mkTxnManager {
  next_txn_id : Z;
  next_commit_ts : Z;
  next_row_ids : gmap string Z;
  txns : gmap TransactionId TxnState;
  table_locks : list TableLock;
  predicate_locks : list PredicateLock;
  table_wait_queues : Queues string;
  page_write_owners : gmap PageId TransactionId;
  page_write_wait_queues : Queues PageId;
  table_wait_blockers : WaitGraph;
  predicate_write_wait_queues : Queues PredicateWriteKey;
  page_wait_blockers : WaitGraph;
  predicate_wait_blockers : WaitGraph;
  waits_for : WaitGraph;
  lock_wait_epoch : Z
}.

(** Field updates. *)
Definition set_next_txn_id x s := mkTxnManager x (next_commit_ts s) (next_row_ids s) (txns s) (table_locks s)
  (predicate_locks s) (table_wait_queues s) (page_write_owners s) (page_write_wait_queues s) (table_wait_blockers s)
  (predicate_write_wait_queues s) (page_wait_blockers s) (predicate_wait_blockers s) (waits_for s) (lock_wait_epoch s).
Definition set_next_commit_ts x s := mkTxnManager (next_txn_id s) x (next_row_ids s) (txns s) (table_locks s)
  (predicate_locks s) (table_wait_queues s) (page_write_owners s) (page_write_wait_queues s) (table_wait_blockers s)
  (predicate_write_wait_queues s) (page_wait_blockers s) (predicate_wait_blockers s) (waits_for s) (lock_wait_epoch s).
Definition set_next_row_ids x s := mkTxnManager (next_txn_id s) (next_commit_ts s) x (txns s) (table_locks s)
  (predicate_locks s) (table_wait_queues s) (page_write_owners s) (page_write_wait_queues s) (table_wait_blockers s)
  (predicate_write_wait_queues s) (page_wait_blockers s) (predicate_wait_blockers s) (waits_for s) (lock_wait_epoch s).
Definition set_txns x s := mkTxnManager (next_txn_id s) (next_commit_ts s) (next_row_ids s) x (table_locks s)
  (predicate_locks s) (table_wait_queues s) (page_write_owners s) (page_write_wait_queues s) (table_wait_blockers s)
  (predicate_write_wait_queues s) (page_wait_blockers s) (predicate_wait_blockers s) (waits_for s) (lock_wait_epoch s).
Definition set_table_locks x s := mkTxnManager (next_txn_id s) (next_commit_ts s) (next_row_ids s) (txns s) x
  (predicate_locks s) (table_wait_queues s) (page_write_owners s) (page_write_wait_queues s) (table_wait_blockers s)
  (predicate_write_wait_queues s) (page_wait_blockers s) (predicate_wait_blockers s) (waits_for s) (lock_wait_epoch s).
Definition set_predicate_locks x s := mkTxnManager (next_txn_id s) (next_commit_ts s) (next_row_ids s) (txns s)
  (table_locks s) x (table_wait_queues s) (page_write_owners s) (page_write_wait_queues s) (table_wait_blockers s)
  (predicate_write_wait_queues s) (page_wait_blockers s) (predicate_wait_blockers s) (waits_for s) (lock_wait_epoch s).
Definition set_table_wait_queues x s := mkTxnManager (next_txn_id s) (next_commit_ts s) (next_row_ids s) (txns s)
  (table_locks s) (predicate_locks s) x (page_write_owners s) (page_write_wait_queues s) (table_wait_blockers s)
  (predicate_write_wait_queues s) (page_wait_blockers s) (predicate_wait_blockers s) (waits_for s) (lock_wait_epoch s).
Definition set_page_write_owners x s := mkTxnManager (next_txn_id s) (next_commit_ts s) (next_row_ids s) (txns s)
  (table_locks s) (predicate_locks s) (table_wait_queues s) x (page_write_wait_queues s) (table_wait_blockers s)
  (predicate_write_wait_queues s) (page_wait_blockers s) (predicate_wait_blockers s) (waits_for s) (lock_wait_epoch s).
Definition set_page_write_wait_queues x s := mkTxnManager (next_txn_id s) (next_commit_ts s) (next_row_ids s) (txns s)
  (table_locks s) (predicate_locks s) (table_wait_queues s) (page_write_owners s) x (table_wait_blockers s)
  (predicate_write_wait_queues s) (page_wait_blockers s) (predicate_wait_blockers s) (waits_for s) (lock_wait_epoch s).
Definition set_table_wait_blockers x s := mkTxnManager (next_txn_id s) (next_commit_ts s) (next_row_ids s) (txns s)
  (table_locks s) (predicate_locks s) (table_wait_queues s) (page_write_owners s) (page_write_wait_queues s) x
  (predicate_write_wait_queues s) (page_wait_blockers s) (predicate_wait_blockers s) (waits_for s) (lock_wait_epoch s).
Definition set_predicate_write_wait_queues x s := mkTxnManager (next_txn_id s) (next_commit_ts s) (next_row_ids s)
  (txns s) (table_locks s) (predicate_locks s) (table_wait_queues s) (page_write_owners s) (page_write_wait_queues s)
  (table_wait_blockers s) x (page_wait_blockers s) (predicate_wait_blockers s) (waits_for s) (lock_wait_epoch s).
Definition set_page_wait_blockers x s := mkTxnManager (next_txn_id s) (next_commit_ts s) (next_row_ids s) (txns s)
  (table_locks s) (predicate_locks s) (table_wait_queues s) (page_write_owners s) (page_write_wait_queues s)
  (table_wait_blockers s) (predicate_write_wait_queues s) x (predicate_wait_blockers s) (waits_for s) (lock_wait_epoch s).
Definition set_predicate_wait_blockers x s := mkTxnManager (next_txn_id s) (next_commit_ts s) (next_row_ids s) (txns s)
  (table_locks s) (predicate_locks s) (table_wait_queues s) (page_write_owners s) (page_write_wait_queues s)
  (table_wait_blockers s) (predicate_write_wait_queues s) (page_wait_blockers s) x (waits_for s) (lock_wait_epoch s).
Definition set_waits_for x s := mkTxnManager (next_txn_id s) (next_commit_ts s) (next_row_ids s) (txns s)
  (table_locks s) (predicate_locks s) (table_wait_queues s) (page_write_owners s) (page_write_wait_queues s)
  (table_wait_blockers s) (predicate_write_wait_queues s) (page_wait_blockers s) (predicate_wait_blockers s) x
  (lock_wait_epoch s).
Definition set_lock_wait_epoch x s := mkTxnManager (next_txn_id s) (next_commit_ts s) (next_row_ids s) (txns s)
  (table_locks s) (predicate_locks s) (table_wait_queues s) (page_write_owners s) (page_write_wait_queues s)
  (table_wait_blockers s) (predicate_write_wait_queues s) (page_wait_blockers s) (predicate_wait_blockers s)
  (waits_for s) x.

(** ** Transactions and snapshots *)

Definition with_next_txn_id (next_txn_id : Z) : TxnManager :=
  mkTxnManager next_txn_id (saturating_sub next_txn_id 1) ∅ ∅ [] [] ∅ ∅ ∅ ∅ ∅ ∅ ∅ ∅ 0.

Definition new : TxnManager := with_next_txn_id 1.

Definition not_active (txn_id : TransactionId) : DbError :=
  Txn ("transaction " ++ pretty txn_id ++ " is not active").

Definition get (self : TxnManager) (txn_id : TransactionId) : Result TxnState :=
  ok_or (txns self !! txn_id) (not_active txn_id).

(** An update through [get_mut]. *)
Definition update_txn (txn_id : TransactionId) (f : TxnState -> TxnState) : ST TxnManager unit :=
  let! txn := st_get (fun s => get s txn_id) in
  st_mod (fun s => set_txns (<[txn_id := f txn]> (txns s)) s).

Definition is_active (txn : TxnState) : bool := bool_decide (status txn = Active).

(** The ids of the active transactions. *)
Definition active_ids (self : TxnManager) : gset TransactionId :=
  list_to_set (map (fun txn => id txn) (filter (fun txn => is_active txn) (map snd (map_to_list (txns self))))).

(** [entry(txn_id).or_default()] *)
Definition or_default (txn_id : TransactionId) (m : WaitGraph) : WaitGraph :=
  match m !! txn_id with Some _ => m | None => <[txn_id := ∅]> m end.

Definition insert_txn (txn_id : TransactionId) (level : IsolationLevel) : ST TxnManager unit :=
  let! snapshot := st_read (fun s => mkTxnSnapshot (next_commit_ts s) (active_ids s)) in
  st_mod (fun s => set_txns (<[txn_id := {|
    id := txn_id; isolation_level := level; status := Active; terminal_error := None;
    start_ts := txn_id; commit_ts := None; snapshot := snapshot;
    write_set := write_set_default; undo_records := []; purge_records := [] |}]> (txns s)) s) ;;!
  st_mod (fun s => set_table_wait_blockers (or_default txn_id (table_wait_blockers s)) s) ;;!
  st_mod (fun s => set_page_wait_blockers (or_default txn_id (page_wait_blockers s)) s) ;;!
  st_mod (fun s => set_predicate_wait_blockers (or_default txn_id (predicate_wait_blockers s)) s) ;;!
  st_mod (fun s => set_waits_for (or_default txn_id (waits_for s)) s).

Definition begin (level : IsolationLevel) : ST TxnManager TransactionId :=
  let! id := st_read (fun s => Z.max (next_txn_id s) 1) in
  let! next := st_get (fun _ => u64_add id 1) in
  st_mod (set_next_txn_id next) ;;!
  insert_txn id level ;;!
  st_ret id.

Definition begin_with_id (txn_id : TransactionId) (level : IsolationLevel) : ST TxnManager unit :=
  let! registered := st_read (fun s => bool_decide (is_Some (txns s !! txn_id))) in
  if registered : bool then
    st_err (Txn ("transaction " ++ pretty txn_id ++ " is already registered"))
  else
    st_mod (fun s => set_next_txn_id (Z.max (Z.max (next_txn_id s) (saturating_add64 txn_id 1)) 1) s) ;;!
    insert_txn txn_id level.

Definition ensure_active (self : TxnManager) (txn_id : TransactionId) : Result unit :=
  let? txn := get self txn_id in
  if is_active txn then Ok tt
  else Err (Txn (default ("transaction " ++ pretty txn_id ++ " is not active")%string (terminal_error txn))).

Definition reserve_commit_ts (txn_id : TransactionId) : ST TxnManager Z :=
  st_get (fun s => ensure_active s txn_id) ;;!
  let! commit_ts := st_get (fun s => u64_add (next_commit_ts s) 1) in
  st_mod (set_next_commit_ts commit_ts) ;;!
  st_ret commit_ts.

Definition is_delete_row (record : UndoRecord) : bool :=
  match record with UDeleteRow _ _ _ => true | _ => false end.

Definition finalize_commit (txn_id : TransactionId) (commit_ts : Z) : ST TxnManager unit :=
  let! txn := st_get (fun s => get s txn_id) in
  if negb (is_active txn) then st_err (not_active txn_id)
  else update_txn txn_id (fun txn =>
    let txn := with_status Committed txn in
    let txn := with_terminal_error None txn in
    let txn := with_commit_ts (Some commit_ts) txn in
    with_purge_records (List.filter is_delete_row (undo_records txn)) txn).

Definition commit (txn_id : TransactionId) : ST TxnManager Z :=
  let! commit_ts := reserve_commit_ts txn_id in
  finalize_commit txn_id commit_ts ;;!
  st_ret commit_ts.

Definition abort (txn_id : TransactionId) : ST TxnManager unit :=
  let! txn := st_get (fun s => get s txn_id) in
  if negb (is_active txn) then st_err (not_active txn_id)
  else update_txn txn_id (fun txn => with_terminal_error None (with_status Aborted txn)).

Definition has_active_transactions (self : TxnManager) : bool :=
  existsb is_active (map snd (map_to_list (txns self))).

Definition refresh_snapshot (txn_id : TransactionId) : ST TxnManager TxnSnapshot :=
  let! snapshot := st_read (fun s => mkTxnSnapshot (next_commit_ts s)
    (list_to_set (map (fun txn => id txn)
       (filter (fun txn => is_active txn && negb (id txn =? txn_id)) (map snd (map_to_list (txns s))))))) in
  update_txn txn_id (with_snapshot snapshot) ;;!
  st_ret snapshot.

Definition get_snapshot (self : TxnManager) (txn_id : TransactionId) : Result TxnSnapshot :=
  let? txn := get self txn_id in Ok (snapshot txn).

(** [min] of an iterator. *)
Definition min_or (l : list Z) (d : Z) : Z :=
  match l with [] => d | x :: l => fold_left Z.min l x end.

Definition purge_horizon (self : TxnManager) : Z :=
  min_or (map (fun txn => visible_up_to (snapshot txn))
            (filter (fun txn => is_active txn) (map snd (map_to_list (txns self)))))
         (next_commit_ts self).

Definition retained_at (purge_horizon : Z) (txn : TxnState) : bool :=
  match status txn with
  | Active => true
  | Committed =>
      (match commit_ts txn with None => true | Some ts => purge_horizon <? ts end)
      || negb (bool_decide (purge_records txn = []))
  | Aborted => negb (bool_decide (undo_records txn = []))
      || (match terminal_error txn with Some _ => true | None => false end)
  end.

Definition purge_finished_transactions_up_to (purge_horizon : Z) : ST TxnManager unit :=
  st_mod (fun s => set_txns (filter (fun kv => retained_at purge_horizon kv.2 = true) (txns s)) s).

Definition purge_finished_transactions : ST TxnManager unit :=
  let! purge_horizon := st_read purge_horizon in
  purge_finished_transactions_up_to purge_horizon.

Definition history_list_length (self : TxnManager) : Z :=
  foldr Z.add 0 (map (fun txn => Zlen (purge_records txn))
    (filter (fun txn => status txn = Committed) (map snd (map_to_list (txns self))))).

Definition get_isolation_level (self : TxnManager) (txn_id : TransactionId) : Result IsolationLevel :=
  let? txn := get self txn_id in Ok (isolation_level txn).

(** ** Row identifiers *)

Definition sync_next_row_ids (next_row_ids' : gmap string Z) : ST TxnManager unit :=
  st_mod (fun s => set_next_row_ids
    (map_fold (fun table next_row_id ids =>
       <[table := match ids !! table with
                  | Some existing => Z.max existing next_row_id
                  | None => next_row_id
                  end]> ids) (next_row_ids s) next_row_ids') s).

Definition allocate_row_id (txn_id : TransactionId) (table : string) (fallback_next_row_id : Z)
    : ST TxnManager RowId :=
  st_get (fun s => ensure_active s txn_id) ;;!
  let! row_id := st_read (fun s =>
    Z.max (default (Z.max fallback_next_row_id 1) (next_row_ids s !! table)) (Z.max fallback_next_row_id 1)) in
  st_mod (fun s => set_next_row_ids (<[table := row_id]> (next_row_ids s)) s) ;;!
  let! next := st_get (fun _ => u64_add row_id 1) in
  st_mod (fun s => set_next_row_ids (<[table := next]> (next_row_ids s)) s) ;;!
  st_ret row_id.

(** ** The waits-for graph *)

(** [self.waits_for.get(&current).into_iter().flatten()], in the set's order. *)
Definition successors (g : WaitGraph) (current : TransactionId) : list TransactionId :=
  sorted_elements (default ∅ (g !! current)).

(** [wait_path_with_visited]; the inner loop is the [for next in ...] loop. *)
Fixpoint wait_path_with_visited (fuel : nat) (g : WaitGraph) (current target : TransactionId)
    (visited : gset TransactionId) : Result (option (list TransactionId) * gset TransactionId) :=
  match fuel with
  | O => OutOfFuel
  | S fuel =>
    if current =? target then Ok (Some [current], visited)
    else if bool_decide (current ∈ visited) then Ok (None, visited)
    else
      (fix loop (nexts : list TransactionId) (visited : gset TransactionId) :=
         match nexts with
         | [] => Ok (None, visited)
         | next :: nexts =>
             let? (found, visited) := wait_path_with_visited fuel g next target visited in
             match found with
             | Some path => Ok (Some (current :: path), visited)
             | None => loop nexts visited
             end
         end) (successors g current) ({[current]} ∪ visited)
  end.

(** [has_wait_path]; the inner loop is [Iterator::any]. *)
Fixpoint has_wait_path (fuel : nat) (g : WaitGraph) (current target : TransactionId)
    (visited : gset TransactionId) : Result (bool * gset TransactionId) :=
  match fuel with
  | O => OutOfFuel
  | S fuel =>
    if current =? target then Ok (true, visited)
    else if bool_decide (current ∈ visited) then Ok (false, visited)
    else
      (fix any (nexts : list TransactionId) (visited : gset TransactionId) :=
         match nexts with
         | [] => Ok (false, visited)
         | next :: nexts =>
             let? (found, visited) := has_wait_path fuel g next target visited in
             if found : bool then Ok (true, visited) else any nexts visited
         end) (successors g current) ({[current]} ∪ visited)
  end.

(** A search visits each transaction that waits at most once. *)
Definition search_fuel (g : WaitGraph) : nat := S (S (size (dom g))).

Definition wait_path (self : TxnManager) (current target : TransactionId)
    : Result (option (list TransactionId)) :=
  let? (path, _) := wait_path_with_visited (search_fuel (waits_for self)) (waits_for self) current target ∅ in
  Ok path.

(** [self.has_wait_path(current, target, &mut BTreeSet::new())] *)
Definition waits (self : TxnManager) (current target : TransactionId) : Result bool :=
  let? (found, _) := has_wait_path (search_fuel (waits_for self)) (waits_for self) current target ∅ in
  Ok found.

Definition edges_of (m : WaitGraph) (txn_id : TransactionId) : gset TransactionId :=
  default ∅ (m !! txn_id).

Definition refresh_waits_for (txn_id : TransactionId) (self : TxnManager) : TxnManager :=
  set_waits_for (<[txn_id := edges_of (table_wait_blockers self) txn_id ∪
                             edges_of (page_wait_blockers self) txn_id ∪
                             edges_of (predicate_wait_blockers self) txn_id]> (waits_for self)) self.

Definition set_table_wait_edges (txn_id : TransactionId) (blockers : gset TransactionId) (self : TxnManager) :=
  refresh_waits_for txn_id (set_table_wait_blockers (<[txn_id := blockers]> (table_wait_blockers self)) self).
Definition clear_table_wait_edges (txn_id : TransactionId) (self : TxnManager) :=
  refresh_waits_for txn_id (set_table_wait_blockers (<[txn_id := ∅]> (table_wait_blockers self)) self).
Definition set_page_wait_edges (txn_id : TransactionId) (blockers : gset TransactionId) (self : TxnManager) :=
  refresh_waits_for txn_id (set_page_wait_blockers (<[txn_id := blockers]> (page_wait_blockers self)) self).
Definition clear_page_wait_edges (txn_id : TransactionId) (self : TxnManager) :=
  refresh_waits_for txn_id (set_page_wait_blockers (<[txn_id := ∅]> (page_wait_blockers self)) self).
Definition set_predicate_wait_edges (txn_id : TransactionId) (blockers : gset TransactionId) (self : TxnManager) :=
  refresh_waits_for txn_id (set_predicate_wait_blockers (<[txn_id := blockers]> (predicate_wait_blockers self)) self).
Definition clear_predicate_wait_edges (txn_id : TransactionId) (self : TxnManager) :=
  refresh_waits_for txn_id (set_predicate_wait_blockers (<[txn_id := ∅]> (predicate_wait_blockers self)) self).

(** [if let Some(blockers) = map.get_mut(&txn_id) { blockers.remove(&blocker); }] *)
Definition remove_edge (txn_id blocker : TransactionId) (m : WaitGraph) : WaitGraph :=
  match m !! txn_id with
  | Some blockers => <[txn_id := blockers ∖ {[blocker]}]> m
  | None => m
  end.

(** The body of the [for txn_id in txns] loop. *)
Definition drop_dependency (blocker : TransactionId) (s : TxnManager) (txn_id : TransactionId) : TxnManager :=
  let s := set_table_wait_blockers (remove_edge txn_id blocker (table_wait_blockers s)) s in
  let s := set_page_wait_blockers (remove_edge txn_id blocker (page_wait_blockers s)) s in
  let s := set_predicate_wait_blockers (remove_edge txn_id blocker (predicate_wait_blockers s)) s in
  refresh_waits_for txn_id s.

Definition remove_wait_dependency_on (blocker : TransactionId) (self : TxnManager) : TxnManager :=
  fold_left (drop_dependency blocker) (filter (fun txn_id => txn_id <> blocker) (elements (dom (txns self)))) self.

(** ** Wait queues *)

Section Queues.
Context {K : Type} `{Countable K}.

(** [entry(key).or_default()] then [push_back] unless queued already. *)
Definition enqueue (key : K) (txn_id : TransactionId) (queues : Queues K) : Queues K :=
  let queue := default [] (queues !! key) in
  <[key := if bool_decide (txn_id ∈ queue) then queue else queue ++ [txn_id]]> queues.

(** [pop_front] if [txn_id] is in front; a queue left empty is removed. *)
Definition dequeue_front (key : K) (txn_id : TransactionId) (queues : Queues K) : Queues K :=
  match queues !! key with
  | Some queue =>
      let queue := if bool_decide (head queue = Some txn_id) then tail queue else queue in
      if bool_decide (queue = []) then delete key queues else <[key := queue]> queues
  | None => queues
  end.

(** [retain] in each queue that holds [txn_id]; a queue left empty is removed. *)
Definition remove_from_queues (txn_id : TransactionId) (queues : Queues K) : Queues K :=
  let keys := map fst (filter (fun kv : K * list TransactionId => txn_id ∈ kv.2) (map_to_list queues)) in
  fold_left (fun queues key =>
    match queues !! key with
    | Some queue =>
        let queue := filter (fun queued => queued <> txn_id) queue in
        if bool_decide (queue = []) then delete key queues else <[key := queue]> queues
    | None => queues
    end) keys queues.

(** [queues.get(&key).and_then(|queue| queue.front().copied())] *)
Definition front (key : K) (queues : Queues K) : option TransactionId :=
  match queues !! key with Some queue => head queue | None => None end.
End Queues.

Definition enqueue_table_waiter table txn_id self :=
  set_table_wait_queues (enqueue table txn_id (table_wait_queues self)) self.
Definition dequeue_table_waiter table txn_id self :=
  set_table_wait_queues (dequeue_front table txn_id (table_wait_queues self)) self.
Definition remove_txn_from_table_wait_queues txn_id self :=
  set_table_wait_queues (remove_from_queues txn_id (table_wait_queues self)) self.
Definition enqueue_page_waiter page_id txn_id self :=
  set_page_write_wait_queues (enqueue page_id txn_id (page_write_wait_queues self)) self.
Definition dequeue_front_waiter page_id txn_id self :=
  set_page_write_wait_queues (dequeue_front page_id txn_id (page_write_wait_queues self)) self.
Definition remove_txn_from_wait_queues txn_id self :=
  set_page_write_wait_queues (remove_from_queues txn_id (page_write_wait_queues self)) self.
Definition enqueue_predicate_waiter wait_key txn_id self :=
  set_predicate_write_wait_queues (enqueue wait_key txn_id (predicate_write_wait_queues self)) self.
Definition dequeue_predicate_waiter wait_key txn_id self :=
  set_predicate_write_wait_queues (dequeue_front wait_key txn_id (predicate_write_wait_queues self)) self.
Definition remove_txn_from_predicate_wait_queues txn_id self :=
  set_predicate_write_wait_queues (remove_from_queues txn_id (predicate_write_wait_queues self)) self.

(** ** Releasing and deadlock victims *)

(** [bump_lock_wait_epoch]: the notifier's counter, then [notify_all]. *)
Definition bump_lock_wait_epoch : ST TxnManager unit :=
  let! epoch := st_get (fun s => u64_add (lock_wait_epoch s) 1) in
  st_mod (set_lock_wait_epoch epoch).

Definition release_transaction_resources (txn_id : TransactionId) : ST TxnManager unit :=
  let! _ := st_get (fun s => get s txn_id) in
  st_mod (fun s => set_table_locks (List.filter (fun lock => negb (tl_txn_id lock =? txn_id)) (table_locks s)) s) ;;!
  st_mod (fun s => set_page_write_owners (filter (fun kv => kv.2 <> txn_id) (page_write_owners s)) s) ;;!
  st_mod (remove_txn_from_table_wait_queues txn_id) ;;!
  st_mod (remove_txn_from_wait_queues txn_id) ;;!
  st_mod (remove_txn_from_predicate_wait_queues txn_id) ;;!
  st_mod (fun s => set_predicate_locks (List.filter (fun lock => negb (pl_txn_id lock =? txn_id)) (predicate_locks s)) s) ;;!
  st_mod (fun s => set_table_wait_blockers (delete txn_id (table_wait_blockers s)) s) ;;!
  st_mod (fun s => set_page_wait_blockers (delete txn_id (page_wait_blockers s)) s) ;;!
  st_mod (fun s => set_predicate_wait_blockers (delete txn_id (predicate_wait_blockers s)) s) ;;!
  st_mod (fun s => set_waits_for (delete txn_id (waits_for s)) s) ;;!
  st_mod (remove_wait_dependency_on txn_id) ;;!
  bump_lock_wait_epoch.

Definition abort_deadlock_victim (txn_id : TransactionId) (message : string) : ST TxnManager unit :=
  let! txn := st_get (fun s => get s txn_id) in
  (if is_active txn
   then update_txn txn_id (fun txn => with_terminal_error (Some message) (with_status Aborted txn))
   else st_ret tt) ;;!
  release_transaction_resources txn_id.

(** The key [(rollback_cost, Reverse(start_ts), is_requester ? 0 : 1)] of a victim. *)
Definition victim_key (self : TxnManager) (requester txn_id : TransactionId) : Result (Z * Z * Z) :=
  match txns self !! txn_id with
  | None => Panic "cycle members must exist"
  | Some txn =>
      let page_lock_count := Zlen (filter (fun owner => owner = txn_id) (map snd (map_to_list (page_write_owners self)))) in
      let predicate_lock_count := Zlen (filter (fun lock => pl_txn_id lock = txn_id) (predicate_locks self)) in
      let table_lock_count := Zlen (filter (fun lock => tl_txn_id lock = txn_id) (table_locks self)) in
      let rollback_cost := Zlen (undo_records txn) + Zlen (page_writes (write_set txn))
        + page_lock_count + table_lock_count + predicate_lock_count in
      Ok (rollback_cost, start_ts txn, if txn_id =? requester then 0 else 1)
  end.

(** The derived order of the key tuple, [Reverse] on its second component. *)
Definition victim_key_cmp (a b : Z * Z * Z) : comparison :=
  match a.1.1 ?= b.1.1 with
  | Eq => match b.1.2 ?= a.1.2 with
          | Eq => a.2 ?= b.2
          | c => c
          end
  | c => c
  end.

(** [min_by_key]: the first of the minimal elements. *)
Definition min_by_key {A K} (cmp : K -> K -> comparison) (l : list (A * K)) : option A :=
  match l with
  | [] => None
  | x :: l => Some (fold_left (fun best y => match cmp y.2 best.2 with Lt => y | _ => best end) l x).1
  end.

(** [Vec::dedup]: consecutive duplicates. *)
Fixpoint dedup (l : list Z) : list Z :=
  match l with
  | [] => []
  | x :: l' => match dedup l' with
               | [] => [x]
               | (y :: _) as r => if x =? y then r else x :: r
               end
  end.

Definition choose_deadlock_victim (self : TxnManager) (requester blocker : TransactionId)
    : Result (option TransactionId) :=
  let? path := wait_path self blocker requester in
  match path with
  | None => Ok None
  | Some cycle =>
      let cycle := cycle ++ [requester] in
      let cycle := sort_by Z.compare cycle in
      let cycle := dedup cycle in
      let? keyed := mapM_res (fun txn_id => let? key := victim_key self requester txn_id in Ok (txn_id, key)) cycle in
      Ok (min_by_key victim_key_cmp keyed)
  end.

Definition resolve_deadlock (requester blocker : TransactionId) (context : TransactionId -> string)
    : ST TxnManager bool :=
  let! victim := st_get (fun s => choose_deadlock_victim s requester blocker) in
  match victim with
  | None => st_ret false
  | Some victim =>
      let message := context victim in
      abort_deadlock_victim victim message ;;!
      if victim =? requester then st_err (Txn message) else st_ret true
  end.

(** [if self.has_wait_path(blocker, txn_id, ..) { if self.resolve_deadlock(..)? { return retry } }]:
    whether the request starts over. *)
Definition break_cycle (txn_id blocker : TransactionId) (context : TransactionId -> string)
    : ST TxnManager bool :=
  let! path := st_get (fun s => waits s blocker txn_id) in
  if path : bool then resolve_deadlock txn_id blocker context else st_ret false.

(** The [for blocker in &blockers] loop around it. *)
Fixpoint break_cycles (txn_id : TransactionId) (blockers : list TransactionId)
    (context : TransactionId -> string) : ST TxnManager bool :=
  match blockers with
  | [] => st_ret false
  | blocker :: blockers =>
      let! retry := break_cycle txn_id blocker context in
      if retry : bool then st_ret true else break_cycles txn_id blockers context
  end.

(** How often a request can start over: each time, one other waiting transaction is
    aborted. *)
Definition retry_fuel (self : TxnManager) : nat := S (size (dom (waits_for self))).

(** ** Predicate locks *)

(** [compare_values] and [matches_compare] of this file: values of different types, reals
    and blobs do not compare. *)
Definition compare_values (lhs rhs : Value) : option comparison :=
  match lhs, rhs with
  | Null, Null => Some Eq
  | Boolean lhs, Boolean rhs => Some (bool_cmp lhs rhs)
  | Integer lhs, Integer rhs => Some (lhs ?= rhs)
  | Text lhs, Text rhs => Some (str_cmp lhs rhs)
  | _, _ => None
  end.

Definition matches_compare (lhs : Value) (op : CompareOp) (rhs : Value) : bool :=
  match op with
  | OpEq => value_eqb lhs rhs
  | OpNe => negb (value_eqb lhs rhs)
  | OpGt => match compare_values lhs rhs with Some Gt => true | _ => false end
  | OpGte => match compare_values lhs rhs with Some (Gt | Eq) => true | _ => false end
  | OpLt => match compare_values lhs rhs with Some Lt => true | _ => false end
  | OpLte => match compare_values lhs rhs with Some (Lt | Eq) => true | _ => false end
  end.

(** [Vec<Value> == Vec<Value>] and [starts_with]. *)
Fixpoint row_eqb (l1 l2 : list Value) : bool :=
  match l1, l2 with
  | [], [] => true
  | a :: l1, b :: l2 => value_eqb a b && row_eqb l1 l2
  | _, _ => false
  end.

Fixpoint starts_with (key prefix : list Value) : bool :=
  match prefix, key with
  | [], _ => true
  | b :: prefix, a :: key => value_eqb a b && starts_with key prefix
  | _ :: _, [] => false
  end.

Definition none_or {A} (f : A -> bool) (o : option A) : bool :=
  match o with None => true | Some a => f a end.

(** The closure of the [Gap] and [NextKey] arm. *)
Definition range_matches (prefix : list Value) (lower upper : option (CompareOp * Value)) (key : list Value) : bool :=
  if negb (starts_with key prefix) then false
  else match key !! length prefix with
       | None => false
       | Some candidate =>
           none_or (fun ov => matches_compare candidate ov.1 ov.2) lower
           && none_or (fun ov => matches_compare candidate ov.1 ov.2) upper
       end.

Definition predicate_lock_conflicts (lock : PredicateLock) (index_keys : list (string * list Value)) : bool :=
  match pl_kind lock with
  | PTable => true
  | PRecord locked_key =>
      existsb (fun ik => bool_decide (pl_index lock = Some ik.1) && row_eqb ik.2 locked_key) index_keys
  | PGap prefix lower upper | PNextKey prefix lower upper =>
      existsb (fun ik => if negb (bool_decide (pl_index lock = Some ik.1)) then false
                         else range_matches prefix lower upper ik.2) index_keys
  end.

Definition predicate_write_key (table : string) (index_keys : list (string * list Value))
    : string * list (string * list Value) :=
  (table, sort_by (fun lhs rhs => match str_cmp lhs.1 rhs.1 with
                                  | Eq => row_cmp lhs.2 rhs.2
                                  | c => c
                                  end) index_keys).

Definition acquire_predicate_lock (txn_id : TransactionId) (lock : PredicateLock) : ST TxnManager unit :=
  let! level := st_get (fun s => get_isolation_level s txn_id) in
  if negb (bool_decide (level = Serializable)) then st_ret tt
  else
    let! held := st_read (fun s => existsb (fun existing => bool_decide (existing = lock)) (predicate_locks s)) in
    if negb held then st_mod (fun s => set_predicate_locks (predicate_locks s ++ [lock]) s)
    else st_ret tt.

Definition acquire_record_lock txn_id table index key : ST TxnManager unit :=
  acquire_predicate_lock txn_id (mkPredicateLock txn_id table (Some index) (PRecord key)).
Definition acquire_exact_key_lock txn_id table index key : ST TxnManager unit :=
  acquire_record_lock txn_id table index key.
Definition acquire_gap_lock txn_id table index key_prefix lower upper : ST TxnManager unit :=
  acquire_predicate_lock txn_id (mkPredicateLock txn_id table (Some index) (PGap key_prefix lower upper)).
Definition acquire_next_key_lock txn_id table index key_prefix lower upper : ST TxnManager unit :=
  acquire_predicate_lock txn_id (mkPredicateLock txn_id table (Some index) (PNextKey key_prefix lower upper)).
Definition acquire_prefix_lock txn_id table index key_prefix : ST TxnManager unit :=
  acquire_next_key_lock txn_id table index key_prefix None None.
Definition acquire_range_lock txn_id table index key_prefix lower upper : ST TxnManager unit :=
  acquire_next_key_lock txn_id table index key_prefix lower upper.

(** The loop shared by the two [conflicting_*_lock_txns]: the active holders, other than
    the requester, of the locks on [table] that conflict. *)
Fixpoint conflicting_predicate_loop (self : TxnManager) (txn_id : TransactionId) (table : string)
    (index_keys : list (string * list Value)) (locks : list PredicateLock) (blockers : gset TransactionId)
    : Result (gset TransactionId) :=
  match locks with
  | [] => Ok blockers
  | lock :: locks =>
      if (pl_txn_id lock =? txn_id) || negb (String.eqb (pl_table lock) table) then
        conflicting_predicate_loop self txn_id table index_keys locks blockers
      else
        let? txn := get self (pl_txn_id lock) in
        if negb (is_active txn) then conflicting_predicate_loop self txn_id table index_keys locks blockers
        else conflicting_predicate_loop self txn_id table index_keys locks
               (if predicate_lock_conflicts lock index_keys then {[pl_txn_id lock]} ∪ blockers else blockers)
  end.

Definition conflicting_predicate_lock_txns (self : TxnManager) txn_id table index_keys :=
  conflicting_predicate_loop self txn_id table index_keys (predicate_locks self) ∅.

(** [blockers.iter().map(to_string).collect::<Vec<_>>().join(",")] *)
Definition txn_list (blockers : gset TransactionId) : string :=
  str_join "," (map (fun txn : Z => pretty txn) (sorted_elements blockers)).

Fixpoint check_write_conflicts_fuel (fuel : nat) (txn_id : TransactionId) (table : string)
    (index_keys : list (string * list Value)) : ST TxnManager unit :=
  match fuel with
  | O => st_fuel
  | S fuel =>
    st_get (fun s => ensure_active s txn_id) ;;!
    let wait_key := predicate_write_key table index_keys in
    let! blockers := st_get (fun s => conflicting_predicate_lock_txns s txn_id table index_keys) in
    let grant :=
      st_mod (dequeue_predicate_waiter wait_key txn_id) ;;!
      st_mod (clear_predicate_wait_edges txn_id) in
    if bool_decide (blockers = ∅) then
      let! front_waiter := st_read (fun s => front wait_key (predicate_write_wait_queues s)) in
      match front_waiter with
      | Some front_waiter =>
          if negb (front_waiter =? txn_id) then
            st_mod (enqueue_predicate_waiter wait_key txn_id) ;;!
            st_mod (set_predicate_wait_edges txn_id {[front_waiter]}) ;;!
            let! retry := break_cycle txn_id front_waiter (fun victim =>
              ("deadlock detected while waiting for predicate write on table " ++ table
              ++ "; victim transaction " ++ pretty victim ++ " aborted")%string) in
            if retry : bool then check_write_conflicts_fuel fuel txn_id table index_keys
            else st_err (Txn ("predicate write wait on table " ++ table ++ "; transaction "
                              ++ pretty front_waiter ++ " is ahead in queue"))
          else grant
      | None => grant
      end
    else
      st_mod (enqueue_predicate_waiter wait_key txn_id) ;;!
      st_mod (set_predicate_wait_edges txn_id blockers) ;;!
      let! retry := break_cycles txn_id (sorted_elements blockers) (fun victim =>
        ("deadlock detected while writing table " ++ table ++ "; victim transaction " ++ pretty victim ++ " aborted")%string) in
      if retry : bool then check_write_conflicts_fuel fuel txn_id table index_keys
      else st_err (Txn ("serializable conflict on table " ++ table ++ "; waiting on transactions "
                        ++ txn_list blockers))
  end.

Definition check_write_conflicts txn_id table index_keys : ST TxnManager unit :=
  fun s => check_write_conflicts_fuel (retry_fuel s) txn_id table index_keys s.

(** ** Table locks *)

Definition table_lock_modes_conflict (existing requested : TableLockMode) : bool :=
  negb match existing, requested with
       | IntentionRead, IntentionRead
       | IntentionRead, IntentionWrite
       | IntentionWrite, IntentionRead
       | IntentionWrite, IntentionWrite => true
       | _, _ => false
       end.

Fixpoint conflicting_table_loop (self : TxnManager) (txn_id : TransactionId) (table : string)
    (requested_mode : TableLockMode) (locks : list TableLock) (blockers : gset TransactionId)
    : Result (gset TransactionId) :=
  match locks with
  | [] => Ok blockers
  | lock :: locks =>
      if (tl_txn_id lock =? txn_id) || negb (String.eqb (tl_table lock) table) then
        conflicting_table_loop self txn_id table requested_mode locks blockers
      else
        let? txn := get self (tl_txn_id lock) in
        if negb (is_active txn) then conflicting_table_loop self txn_id table requested_mode locks blockers
        else conflicting_table_loop self txn_id table requested_mode locks
               (if table_lock_modes_conflict (tl_mode lock) requested_mode
                then {[tl_txn_id lock]} ∪ blockers else blockers)
  end.

Definition conflicting_table_lock_txns (self : TxnManager) txn_id table requested_mode :=
  conflicting_table_loop self txn_id table requested_mode (table_locks self) ∅.

(** [iter_mut().find(..)], raising the mode found, or [push]. *)
Fixpoint upsert_lock (txn_id : TransactionId) (table : string) (mode : TableLockMode) (locks : list TableLock)
    : list TableLock :=
  match locks with
  | [] => [mkTableLock txn_id table mode]
  | lock :: locks =>
      if (tl_txn_id lock =? txn_id) && String.eqb (tl_table lock) table then
        (if mode_rank (tl_mode lock) <? mode_rank mode then mkTableLock (tl_txn_id lock) (tl_table lock) mode
         else lock) :: locks
      else lock :: upsert_lock txn_id table mode locks
  end.

Definition upsert_table_lock txn_id table mode (self : TxnManager) : TxnManager :=
  set_table_locks (upsert_lock txn_id table mode (table_locks self)) self.

Fixpoint acquire_table_lock_fuel (fuel : nat) (txn_id : TransactionId) (table : string) (mode : TableLockMode)
    : ST TxnManager unit :=
  match fuel with
  | O => st_fuel
  | S fuel =>
    st_get (fun s => ensure_active s txn_id) ;;!
    let! blockers := st_get (fun s => conflicting_table_lock_txns s txn_id table mode) in
    let grant :=
      st_mod (dequeue_table_waiter table txn_id) ;;!
      st_mod (clear_table_wait_edges txn_id) ;;!
      st_mod (upsert_table_lock txn_id table mode) in
    if bool_decide (blockers = ∅) then
      let! front_waiter := st_read (fun s => front table (table_wait_queues s)) in
      match front_waiter with
      | Some front_waiter =>
          if negb (front_waiter =? txn_id) then
            st_mod (enqueue_table_waiter table txn_id) ;;!
            st_mod (set_table_wait_edges txn_id {[front_waiter]}) ;;!
            let! retry := break_cycle txn_id front_waiter (fun victim =>
              ("deadlock detected while waiting for table lock on " ++ table
              ++ "; victim transaction " ++ pretty victim ++ " aborted")%string) in
            if retry : bool then acquire_table_lock_fuel fuel txn_id table mode
            else st_err (Txn ("table lock wait on " ++ table ++ "; transaction "
                              ++ pretty front_waiter ++ " is ahead in queue"))
          else grant
      | None => grant
      end
    else
      st_mod (enqueue_table_waiter table txn_id) ;;!
      st_mod (set_table_wait_edges txn_id blockers) ;;!
      let! retry := break_cycles txn_id (sorted_elements blockers) (fun victim =>
        ("deadlock detected while acquiring table lock on " ++ table
        ++ "; victim transaction " ++ pretty victim ++ " aborted")%string) in
      if retry : bool then acquire_table_lock_fuel fuel txn_id table mode
      else st_err (Txn ("table lock wait on " ++ table ++ "; waiting on transactions " ++ txn_list blockers))
  end.

Definition acquire_table_lock txn_id table mode : ST TxnManager unit :=
  fun s => acquire_table_lock_fuel (retry_fuel s) txn_id table mode s.

Definition acquire_table_intention_read txn_id table := acquire_table_lock txn_id table IntentionRead.
Definition acquire_table_intention_write txn_id table := acquire_table_lock txn_id table IntentionWrite.
Definition acquire_table_exclusive txn_id table := acquire_table_lock txn_id table Exclusive.

Definition acquire_table_read_lock (txn_id : TransactionId) (table : string) : ST TxnManager unit :=
  acquire_table_intention_read txn_id table ;;!
  acquire_predicate_lock txn_id (mkPredicateLock txn_id table None PTable).

(** ** Page write locks *)

Fixpoint acquire_page_write_fuel (fuel : nat) (txn_id : TransactionId) (page_id : PageId) : ST TxnManager unit :=
  match fuel with
  | O => st_fuel
  | S fuel =>
    let context (other : TransactionId) (victim : TransactionId) : string :=
      ("deadlock detected between transactions " ++ pretty txn_id ++ " and " ++ pretty other ++ " on page "
       ++ pretty page_id ++ "; victim transaction " ++ pretty victim ++ " aborted")%string in
    let! owner := st_read (fun s => page_write_owners s !! page_id) in
    match owner with
    | None =>
        let grant :=
          st_mod (dequeue_front_waiter page_id txn_id) ;;!
          st_mod (fun s => set_page_write_owners (<[page_id := txn_id]> (page_write_owners s)) s) ;;!
          st_mod (clear_page_wait_edges txn_id) in
        st_get (fun s => ensure_active s txn_id) ;;!
        let! front_waiter := st_read (fun s => front page_id (page_write_wait_queues s)) in
        match front_waiter with
        | Some front_waiter =>
            if negb (front_waiter =? txn_id) then
              st_mod (enqueue_page_waiter page_id txn_id) ;;!
              st_mod (set_page_wait_edges txn_id {[front_waiter]}) ;;!
              let! retry := break_cycle txn_id front_waiter (context front_waiter) in
              if retry : bool then acquire_page_write_fuel fuel txn_id page_id
              else st_err (Txn ("page write wait on page " ++ pretty page_id ++ "; transaction "
                                ++ pretty front_waiter ++ " is ahead in queue"))
            else grant
        | None => grant
        end
    | Some owner =>
        if owner =? txn_id then
          st_mod (dequeue_front_waiter page_id txn_id) ;;!
          st_mod (clear_page_wait_edges txn_id)
        else
          st_get (fun s => ensure_active s txn_id) ;;!
          let! _ := st_get (fun s => get s owner) in
          st_mod (enqueue_page_waiter page_id txn_id) ;;!
          st_mod (set_page_wait_edges txn_id {[owner]}) ;;!
          let! retry := break_cycle txn_id owner (context owner) in
          if retry : bool then acquire_page_write_fuel fuel txn_id page_id
          else st_err (Txn ("page write conflict on page " ++ pretty page_id ++ " held by transaction "
                            ++ pretty owner))
    end
  end.

Definition acquire_page_write txn_id page_id : ST TxnManager unit :=
  fun s => acquire_page_write_fuel (retry_fuel s) txn_id page_id s.

(** ** Write sets, undo and purge records *)

Definition replace_page_write_set (txn_id : TransactionId) (writes : list PageWriteSetEntry) : ST TxnManager unit :=
  update_txn txn_id (with_write_set (mkTxnWriteSet (list_to_set (map entry_page_id writes)) writes)).

Definition page_write_set (self : TxnManager) (txn_id : TransactionId) : Result TxnWriteSet :=
  let? txn := get self txn_id in Ok (write_set txn).

Definition get_status (self : TxnManager) (txn_id : TransactionId) : Result TxnStatus :=
  let? txn := get self txn_id in Ok (status txn).

Definition record_undo (txn_id : TransactionId) (record : UndoRecord) : ST TxnManager unit :=
  update_txn txn_id (fun txn => with_undo_records (undo_records txn ++ [record]) txn).

Definition get_undo_records (self : TxnManager) (txn_id : TransactionId) : Result (list UndoRecord) :=
  let? txn := get self txn_id in Ok (undo_records txn).

Definition take_undo_records (txn_id : TransactionId) : ST TxnManager (list UndoRecord) :=
  let! txn := st_get (fun s => get s txn_id) in
  update_txn txn_id (with_undo_records []) ;;!
  st_ret (rev (undo_records txn)).

Definition clear_terminal_error (txn_id : TransactionId) : ST TxnManager unit :=
  update_txn txn_id (with_terminal_error None).

Definition purgeable (purge_horizon : Z) (txn : TxnState) : bool :=
  bool_decide (status txn = Committed)
  && (match commit_ts txn with Some ts => ts <=? purge_horizon | None => false end)
  && negb (bool_decide (purge_records txn = [])).

(** The records of the purgeable transactions by commit timestamp, at most [limit]. *)
Definition planned_purge_batch (self : TxnManager) (purge_horizon : Z) (limit : nat)
    : list (TransactionId * UndoRecord) :=
  if Nat.eqb limit 0 then []
  else
    let committed_txns := filter (fun txn => purgeable purge_horizon txn) (map snd (map_to_list (txns self))) in
    let committed_txns := sort_by (fun lhs rhs => default u64_max (commit_ts lhs) ?= default u64_max (commit_ts rhs))
                            committed_txns in
    take limit (flat_map (fun txn => map (fun record => (id txn, record)) (purge_records txn)) committed_txns).

Fixpoint complete_purge_batch (purged_records : list (TransactionId * UndoRecord)) : ST TxnManager unit :=
  match purged_records with
  | [] => st_ret tt
  | (txn_id, record) :: purged_records =>
      let! txn := st_get (fun s => get s txn_id) in
      match purge_records txn with
      | [] => st_err (Storage ("missing purge record for transaction " ++ pretty txn_id))
      | front :: rest =>
          update_txn txn_id (with_purge_records rest) ;;!
          if negb (bool_decide (front = record)) then
            st_err (Storage ("purge record order mismatch for transaction " ++ pretty txn_id))
          else complete_purge_batch purged_records
      end
  end.
