(* ===== verification/WaitGraph.v ===== *)
(** * Deadlock searches: [has_wait_path] and [wait_path] of
    [src/storage/v2/txn_manager.rs]

    The two depth-first searches of the waits-for graph decide reachability, and the path
    one of them returns is a chain of waits. *)

From S2P Require Import Prelude Types Ast TxTypes TxnManager.

(** [a] waits for [b]. *)
Definition edge (g : gmap Z (gset Z)) (a b : Z) : Prop := b ∈ edges_of g a.

(** [a] waits for [b], directly or through others, or is [b]. *)
Definition reaches (g : gmap Z (gset Z)) : Z -> Z -> Prop := rtc (edge g).

(** Nobody waits for itself through a chain of waits. *)
Definition acyclic (g : gmap Z (gset Z)) : Prop := forall a, ~ tc (edge g) a a.

Lemma elem_of_successors g a b : b ∈ successors g a <-> edge g a b.
Proof. unfold successors, edge, edges_of. by rewrite elem_of_sorted_elements. Qed.

(** A list of transactions each waiting for the next one. *)
Fixpoint wait_chain (g : gmap Z (gset Z)) (cur tgt : Z) (path : list Z) : Prop :=
  match path with
  | [] => False
  | x :: rest =>
      x = cur /\
      match rest with
      | [] => cur = tgt
      | y :: _ => cur <> tgt /\ edge g cur y /\ wait_chain g y tgt rest
      end
  end.

Lemma wait_chain_reaches g path : forall cur tgt, wait_chain g cur tgt path -> reaches g cur tgt.
Proof.
  induction path as [|x [|y rest] IH]; intros cur tgt; simpl; [done| |].
  - intros [_ ->]. apply rtc_refl.
  - intros (_ & _ & He & Hc). eapply rtc_l; [exact He|]. by apply IH.
Qed.

Lemma wait_chain_cons g cur tgt next path :
  cur <> tgt -> edge g cur next -> wait_chain g next tgt path -> wait_chain g cur tgt (cur :: path).
Proof.
  intros Hne He Hc. destruct path as [|y rest]; [done|].
  assert (y = next) as -> by by destruct Hc. simpl. auto.
Qed.

(** Everybody on a chain, the target apart, waits for somebody. *)
Lemma wait_chain_waits g path cur tgt x :
  wait_chain g cur tgt path -> x ∈ path -> x = tgt \/ (x <> tgt /\ exists y, edge g x y).
Proof.
  revert cur. induction path as [|z [|y rest] IH]; intros cur; [done| |].
  - intros [-> ->] Hx. apply list_elem_of_singleton in Hx as ->. by left.
  - intros (-> & Hne & He & Hc). rewrite elem_of_cons. intros [->|Hx]; [right; eauto|].
    by apply (IH y).
Qed.

Lemma wait_chain_last g path cur tgt : wait_chain g cur tgt path -> tgt ∈ path.
Proof.
  revert cur. induction path as [|z [|y rest] IH]; intros cur; [done| |].
  - intros [-> ->]. set_solver.
  - intros (-> & _ & _ & Hc). apply IH in Hc. set_solver.
Qed.

(** ** The search *)

Section Search.
Context (g : gmap Z (gset Z)) (tgt : Z).

(** The nodes a failed search has added to [vis] are not the target and lead nowhere
    else. *)
Definition closed_part (vis vis' : gset Z) : Prop :=
  forall n, n ∈ vis' -> n ∉ vis -> n <> tgt /\ forall m, edge g n m -> m ∈ vis'.

Lemma closed_part_trans v1 v2 v3 :
  v2 ⊆ v3 -> closed_part v1 v2 -> closed_part v2 v3 -> closed_part v1 v3.
Proof.
  intros Hsub H12 H23 n Hn Hn1. destruct (decide (n ∈ v2)) as [H2|H2].
  - destruct (H12 n H2 Hn1) as [Ht Hm]. split; [done|]. intros m He. apply Hsub, Hm, He.
  - by apply H23.
Qed.

(** The outcome of a search that starts at the nodes of [starts]. *)
Definition search_ok (starts : list Z) (vis : gset Z) (found : option (list Z)) (vis' : gset Z) : Prop :=
  vis ⊆ vis' /\
  match found with
  | Some path => exists cur, cur ∈ starts /\ wait_chain g cur tgt path
  | None => Forall (fun cur => cur <> tgt /\ cur ∈ vis') starts /\ closed_part vis vis'
  end.

Lemma wait_path_search fuel : forall cur vis,
  tgt ∉ vis -> (size (dom g ∖ vis) < fuel)%nat ->
  exists found vis', wait_path_with_visited fuel g cur tgt vis = Ok (found, vis') /\
    search_ok [cur] vis found vis'.
Proof.
  induction fuel as [|fuel IH]; intros cur vis Ht Hf; [lia|]. cbn [wait_path_with_visited].
  destruct (Z.eqb_spec cur tgt) as [->|Hne].
  { do 2 eexists. split; [done|]. split; [done|]. exists tgt. split; [set_solver|]. done. }
  case_bool_decide as Hv.
  { do 2 eexists. split; [done|]. split; [done|]. split; [by apply Forall_singleton|].
    intros n Hn Hn'. done. }
  match goal with |- context [?f (successors g cur) ({[cur]} ∪ vis)] => set (loop := f) end.
  assert (Hloop : forall nexts vis1, {[cur]} ∪ vis ⊆ vis1 -> tgt ∉ vis1 ->
    (forall n, n ∈ nexts -> edge g cur n) ->
    exists found vis', loop nexts vis1 = Ok (found, vis') /\ vis1 ⊆ vis' /\
      match found with
      | Some path => wait_chain g cur tgt path
      | None => tgt ∉ vis' /\ (forall n, n ∈ nexts -> n ∈ vis') /\ closed_part vis1 vis'
      end).
  { induction nexts as [|next nexts IHl]; intros vis1 Hsub Ht1 Hed; simpl.
    - do 2 eexists. split; [done|]. split; [done|]. split; [done|]. split; [set_solver|]. by intros n ? ?.
    - assert (Hce : edge g cur next) by (apply Hed; set_solver).
      assert (Hcd : cur ∈ dom g ∖ vis).
      { apply elem_of_difference. split; [|done]. apply elem_of_dom.
        unfold edge, edges_of in Hce. destruct (g !! cur) eqn:E; [done|]. simpl in Hce. set_solver. }
      assert (Hlt : (size (dom g ∖ vis1) < size (dom g ∖ vis))%nat).
      { apply subset_size. split; [set_solver|]. intros Hc. apply Hc in Hcd. set_solver. }
      destruct (IH next vis1) as (found & vis2 & -> & Hs1 & Hs2); [done|lia|]. cbn [bind].
      destruct found as [path|].
      + do 2 eexists. split; [done|]. split; [set_solver|].
        destruct Hs2 as (c & ->%list_elem_of_singleton & Hc). by eapply wait_chain_cons.
      + destruct Hs2 as [Hs2 Hcl]. apply Forall_cons in Hs2 as [[Hnt Hn2] _].
        assert (Ht2 : tgt ∉ vis2).
        { intros Hc. destruct (decide (tgt ∈ vis1)); [done|]. by destruct (Hcl tgt) as [? _]. }
        destruct (IHl vis2) as (found & vis3 & -> & Hs3 & Hs4); [set_solver|done|set_solver|].
        do 2 eexists. split; [done|]. split; [set_solver|]. destruct found as [path|]; [done|].
        destruct Hs4 as (Ht3 & Hall & Hcl3). split; [done|]. split; [set_solver|].
        by eapply closed_part_trans. }
  destruct (Hloop (successors g cur) ({[cur]} ∪ vis)) as (found & vis' & -> & Hs1 & Hs2);
    [done|set_solver|by intros n Hn%elem_of_successors|].
  do 2 eexists. split; [done|]. split; [set_solver|]. destruct found as [path|].
  - exists cur. split; [set_solver|done].
  - destruct Hs2 as (Ht' & Hall & Hcl). split; [apply Forall_singleton; set_solver|].
    intros n Hn Hn'. destruct (decide (n = cur)) as [->|Hnc].
    + split; [done|]. intros m He. by apply Hall, elem_of_successors.
    + apply Hcl; set_solver.
Qed.

(** Both searches make the same decision. *)
Lemma has_wait_path_wait_path fuel : forall cur vis,
  has_wait_path fuel g cur tgt vis =
  bind (wait_path_with_visited fuel g cur tgt vis)
    (fun r => Ok (match r.1 with Some _ => true | None => false end, r.2)).
Proof.
  induction fuel as [|fuel IH]; intros cur vis; [done|]. cbn [has_wait_path wait_path_with_visited].
  destruct (cur =? tgt); [done|]. case_bool_decide; [done|].
  generalize ({[cur]} ∪ vis). generalize (successors g cur).
  induction l as [|next nexts IHl]; intros vis1; simpl; [done|].
  rewrite IH. destruct (wait_path_with_visited fuel g next tgt vis1) as [[found vis2]| | |]; simpl; try done.
  destruct found as [path|]; [done|]. apply IHl.
Qed.
End Search.

(** What a complete search finds. *)
Lemma wait_path_search_fuel g cur tgt :
  exists found vis, wait_path_with_visited (search_fuel g) g cur tgt ∅ = Ok (found, vis) /\
    match found with
    | Some path => wait_chain g cur tgt path
    | None => ~ reaches g cur tgt
    end.
Proof.
  destruct (wait_path_search g tgt (search_fuel g) cur ∅) as (found & vis & Hr & _ & Hs).
  { set_solver. }
  { unfold search_fuel. rewrite difference_empty_L. lia. }
  exists found, vis. split; [done|]. destruct found as [path|].
  - destruct Hs as (c & ->%list_elem_of_singleton & Hc). done.
  - destruct Hs as [Hs Hcl]. apply Forall_cons in Hs as [[Hne Hin] _]. intros Hr'.
    assert (Hall : forall n, reaches g cur n -> n ∈ vis).
    { intros n Hn. clear Hr' Hne Hr. unfold reaches in Hn. induction Hn as [|x y z He Hyz IH]; [done|].
      apply IH. destruct (Hcl x Hin) as [_ Hm]; [set_solver|by apply Hm]. }
    destruct (Hcl tgt (Hall _ Hr')) as [? _]; [set_solver|done].
Qed.

Lemma wait_path_total s cur tgt :
  exists found, wait_path s cur tgt = Ok found /\
    match found with
    | Some path => wait_chain (waits_for s) cur tgt path
    | None => ~ reaches (waits_for s) cur tgt
    end.
Proof.
  destruct (wait_path_search_fuel (waits_for s) cur tgt) as (found & vis & Hr & Hs).
  exists found. unfold wait_path. by rewrite Hr.
Qed.

Lemma waits_wait_path s cur tgt :
  waits s cur tgt = bind (wait_path s cur tgt) (fun p => Ok (match p with Some _ => true | None => false end)).
Proof.
  unfold waits, wait_path. rewrite has_wait_path_wait_path.
  by destruct (wait_path_with_visited _ _ _ _ _) as [[[] ?]| | |].
Qed.

(** [waits] is reachability. *)
Lemma waits_reaches s cur tgt :
  exists b : bool, waits s cur tgt = Ok b /\ (b = true <-> reaches (waits_for s) cur tgt).
Proof.
  destruct (wait_path_total s cur tgt) as (found & Hp & Hs). rewrite waits_wait_path, Hp. cbn [bind].
  eexists. split; [done|]. destruct found; split; try done. intros _. by eapply wait_chain_reaches.
Qed.

(** C25: deadlock detection is exact. On any waits-for graph both searches end (the fuel
    given always suffices): [has_wait_path] answers whether [cur] waits, directly or
    through other transactions, for [tgt], and [wait_path] returns a chain of waits from
    [cur] to [tgt] exactly in that case. *)
Theorem has_wait_path_correct (s : TxnManager) (cur tgt : Z) :
  exists b path, waits s cur tgt = Ok b /\ wait_path s cur tgt = Ok path /\
    (b = true <-> reaches (waits_for s) cur tgt) /\
    match path with
    | Some chain => b = true /\ wait_chain (waits_for s) cur tgt chain
    | None => b = false
    end.
Proof.
  destruct (wait_path_total s cur tgt) as (found & Hp & Hs).
  destruct (waits_reaches s cur tgt) as (b & Hw & Hb). exists b, found.
  split; [done|]. split; [done|]. split; [done|].
  rewrite waits_wait_path, Hp in Hw. cbn [bind] in Hw. apply Ok_inj in Hw. by destruct found.
Qed.

(** In a graph without circles every way out of a node ends. *)
Lemma acyclic_ends g a b : acyclic g -> edge g a b -> exists r, tc (edge g) a r /\ edges_of g r = ∅.
Proof.
  intros Hg. cut (forall n (seen : gset Z) a b, (size (dom g ∖ seen) < n)%nat -> (forall v, v ∈ seen -> tc (edge g) v a) -> edge g a b ->
    exists r, tc (edge g) a r /\ edges_of g r = ∅).
  { intros H Hab. apply (H (S (size (dom g ∖ ∅))) ∅ a b); [lia|set_solver|done]. }
  clear a b. induction n as [|n IH]; intros seen a b Hn Hseen Hab; [lia|].
  destruct (decide (edges_of g b = ∅)) as [Hb|Hb]; [exists b; split; [by apply tc_once|done]|].
  apply set_choose_L in Hb as [c Hc]. destruct (IH ({[a]} ∪ seen) b c) as (r & Hr & He).
  - assert (Ha : a ∈ dom g). { apply elem_of_dom. unfold edge, edges_of in Hab. destruct (g !! a); [by eexists|set_solver]. }
    assert (Hns : a ∉ seen) by (intros Hin; by apply (Hg a), Hseen).
    assert (dom g ∖ ({[a]} ∪ seen) ⊂ dom g ∖ seen) as Hsub by set_solver. apply subset_size in Hsub. lia.
  - intros v [->%elem_of_singleton|Hv]%elem_of_union; [by apply tc_once|]. eapply tc_r; [by apply Hseen|done].
  - done.
  - exists r. split; [|done]. by eapply tc_l.
Qed.
