(* ===== verification/TxnRelease.v ===== *)
(** * Releasing transactions

    Proofs about TxnManager.v: the three families of wait edges, what releasing a
    transaction and aborting a deadlock victim do to them and to the locks, and the
    invariant [Inv] of the lock structures. *)

From S2P Require Import Prelude Types Ast TxTypes TxnManager WaitGraph.

(** ** The three families of wait edges *)

Inductive WaitKind := KTable | KPage | KPredicate.

#[export] Instance WaitKind_eq_dec : EqDecision WaitKind.
Proof. solve_decision. Defined.

Definition blockers_of (k : WaitKind) (s : TxnManager) : gmap Z (gset Z) :=
  match k with
  | KTable => table_wait_blockers s
  | KPage => page_wait_blockers s
  | KPredicate => predicate_wait_blockers s
  end.

(** The edges [u] has in [k]'s family, in the others, and in the whole graph. *)
Definition kind_edges (k : WaitKind) (s : TxnManager) (u : Z) : gset Z := edges_of (blockers_of k s) u.
Definition all_kinds (s : TxnManager) (u : Z) : gset Z :=
  kind_edges KTable s u ∪ kind_edges KPage s u ∪ kind_edges KPredicate s u.
Definition other_kinds (k : WaitKind) (s : TxnManager) (u : Z) : gset Z :=
  match k with
  | KTable => kind_edges KPage s u ∪ kind_edges KPredicate s u
  | KPage => kind_edges KTable s u ∪ kind_edges KPredicate s u
  | KPredicate => kind_edges KTable s u ∪ kind_edges KPage s u
  end.
Definition graph_edges (s : TxnManager) (u : Z) : gset Z := edges_of (waits_for s) u.

Definition set_wait_edges (k : WaitKind) : Z -> gset Z -> TxnManager -> TxnManager :=
  match k with
  | KTable => set_table_wait_edges
  | KPage => set_page_wait_edges
  | KPredicate => set_predicate_wait_edges
  end.

Lemma all_kinds_split k s u : all_kinds s u = kind_edges k s u ∪ other_kinds k s u.
Proof. unfold all_kinds. destruct k; simpl; set_solver. Qed.

Lemma edges_of_insert g t bl u :
  edges_of (<[t := bl]> g) u = if bool_decide (u = t) then bl else edges_of g u.
Proof.
  unfold edges_of. case_bool_decide as H.
  - subst. by rewrite lookup_insert_eq.
  - by rewrite lookup_insert_ne.
Qed.

Lemma edges_of_delete g t u :
  edges_of (delete t g) u = if bool_decide (u = t) then ∅ else edges_of g u.
Proof.
  unfold edges_of. case_bool_decide as H.
  - subst. by rewrite lookup_delete_eq.
  - by rewrite lookup_delete_ne.
Qed.

Lemma edges_of_or_default g t u : edges_of (or_default t g) u = edges_of g u.
Proof.
  unfold or_default. destruct (g !! t) eqn:E; [done|]. rewrite edges_of_insert.
  case_bool_decide as H; [|done]. subst. unfold edges_of. by rewrite E.
Qed.

Lemma edges_of_remove g t b u :
  edges_of (remove_edge t b g) u = if bool_decide (u = t) then edges_of g u ∖ {[b]} else edges_of g u.
Proof.
  unfold remove_edge. destruct (g !! t) as [bl|] eqn:E.
  - rewrite edges_of_insert. case_bool_decide as H; [|done]. subst. unfold edges_of. by rewrite E.
  - case_bool_decide as H; [|done]. subst. unfold edges_of. rewrite E. simpl. set_solver.
Qed.

#[export] Hint Rewrite edges_of_insert edges_of_delete edges_of_or_default edges_of_remove : edges.

(** Setting [t]'s edges of one family. *)
Lemma set_wait_edges_spec k t bl s :
  exists tb pb prb w,
    set_wait_edges k t bl s =
      set_waits_for w (set_predicate_wait_blockers prb (set_page_wait_blockers pb (set_table_wait_blockers tb s))) /\
    (forall k' u, edges_of (match k' with KTable => tb | KPage => pb | KPredicate => prb end) u =
       if bool_decide (k' = k /\ u = t) then bl else kind_edges k' s u) /\
    (forall u, edges_of w u = if bool_decide (u = t) then bl ∪ other_kinds k s t else graph_edges s u).
Proof.
  destruct k; simpl; unfold set_table_wait_edges, set_page_wait_edges, set_predicate_wait_edges, refresh_waits_for; simpl.
  - exists (<[t:=bl]> (table_wait_blockers s)), (page_wait_blockers s), (predicate_wait_blockers s). eexists.
    split; [by destruct s|]. split.
    + intros [] u; simpl; autorewrite with edges; repeat case_bool_decide; naive_solver.
    + intros u. autorewrite with edges. rewrite (bool_decide_true (t = t)) by done. case_bool_decide; [|done].
      unfold kind_edges. simpl. set_solver.
  - exists (table_wait_blockers s), (<[t:=bl]> (page_wait_blockers s)), (predicate_wait_blockers s). eexists.
    split; [by destruct s|]. split.
    + intros [] u; simpl; autorewrite with edges; repeat case_bool_decide; naive_solver.
    + intros u. autorewrite with edges. rewrite (bool_decide_true (t = t)) by done. case_bool_decide; [|done].
      unfold kind_edges. simpl. set_solver.
  - exists (table_wait_blockers s), (page_wait_blockers s), (<[t:=bl]> (predicate_wait_blockers s)). eexists.
    split; [by destruct s|]. split.
    + intros [] u; simpl; autorewrite with edges; repeat case_bool_decide; naive_solver.
    + intros u. autorewrite with edges. rewrite (bool_decide_true (t = t)) by done. case_bool_decide; [|done].
      unfold kind_edges. simpl. set_solver.
Qed.

(** ** Releasing a transaction *)

(** The state with [v]'s wait edges, and the edges to [v] of the transactions in [us],
    removed. *)
Lemma remove_wait_dependency_fold b us s :
  exists tb pb prb w,
    fold_left (drop_dependency b) us s =
      set_waits_for w (set_predicate_wait_blockers prb (set_page_wait_blockers pb (set_table_wait_blockers tb s))) /\
    (forall k' u, edges_of (match k' with KTable => tb | KPage => pb | KPredicate => prb end) u =
       if bool_decide (u ∈ us) then kind_edges k' s u ∖ {[b]} else kind_edges k' s u) /\
    (forall u, edges_of w u = if bool_decide (u ∈ us) then all_kinds s u ∖ {[b]} else graph_edges s u).
Proof.
  revert s. induction us as [|v us IH]; intros s; simpl.
  - exists (table_wait_blockers s), (page_wait_blockers s), (predicate_wait_blockers s), (waits_for s).
    split; [by destruct s|]. split; [by intros [] u|done].
  - destruct (IH (drop_dependency b s v)) as (tb & pb & prb & w & Hr & Hk & Hw).
    exists tb, pb, prb, w. split; [rewrite Hr; by destruct s|]. split.
    + intros k' u. rewrite Hk. destruct k'; unfold kind_edges; simpl; autorewrite with edges;
        repeat case_bool_decide; set_solver.
    + intros u. rewrite Hw. unfold all_kinds, graph_edges, kind_edges. simpl. autorewrite with edges.
      repeat case_bool_decide; set_solver.
Qed.

(** Everything of a released transaction is gone. *)
Record released (v : Z) (s s' : TxnManager) : Prop := {
  rel_next_txn_id : next_txn_id s' = next_txn_id s;
  rel_next_commit_ts : next_commit_ts s' = next_commit_ts s;
  rel_next_row_ids : next_row_ids s' = next_row_ids s;
  rel_txns : txns s' = txns s;
  rel_table_locks : table_locks s' = List.filter (fun lock => negb (tl_txn_id lock =? v)) (table_locks s);
  rel_predicate_locks : predicate_locks s' = List.filter (fun lock => negb (pl_txn_id lock =? v)) (predicate_locks s);
  rel_owners : page_write_owners s' = filter (fun kv => kv.2 <> v) (page_write_owners s);
  rel_table_queues : table_wait_queues s' = remove_from_queues v (table_wait_queues s);
  rel_page_queues : page_write_wait_queues s' = remove_from_queues v (page_write_wait_queues s);
  rel_predicate_queues : predicate_write_wait_queues s' = remove_from_queues v (predicate_write_wait_queues s);
  rel_kinds k u : kind_edges k s' u =
    if bool_decide (u = v) then ∅
    else if bool_decide (is_Some (txns s !! u)) then kind_edges k s u ∖ {[v]} else kind_edges k s u;
  rel_graph u : graph_edges s' u =
    if bool_decide (u = v) then ∅
    else if bool_decide (is_Some (txns s !! u)) then all_kinds s u ∖ {[v]} else graph_edges s u;
  rel_epoch : lock_wait_epoch s' = lock_wait_epoch s + 1
}.

Lemma release_run v s :
  is_Some (txns s !! v) -> lock_wait_epoch s + 1 <= u64_max ->
  exists s', release_transaction_resources v s = (Ok tt, s') /\ released v s s'.
Proof.
  intros [x Hx] He. unfold release_transaction_resources.
  rewrite st_bind_run. cbn [st_get fst snd]. unfold get at 1. rewrite Hx. cbn [ok_or].
  repeat (rewrite st_bind_run; cbn [st_mod fst snd]).
  match goal with |- context [remove_wait_dependency_on v ?s1] => set (s0 := s1) end.
  unfold remove_wait_dependency_on.
  destruct (remove_wait_dependency_fold v (filter (fun txn_id => txn_id <> v) (elements (dom (txns s0)))) s0)
    as (tb & pb & prb & w & -> & Hk & Hw).
  unfold bump_lock_wait_epoch. rewrite st_bind_run. cbn [st_get fst snd].
  unfold u64_add. cbn [lock_wait_epoch]. 
  match goal with |- context [?a <=? u64_max] => change a with (lock_wait_epoch s + 1) end.
  destruct (Z.leb_spec (lock_wait_epoch s + 1) u64_max) as [_|]; [|lia]. cbn [st_mod].
  eexists. split; [done|].
  assert (Hmem : forall u, u ∈ filter (fun txn_id => txn_id <> v) (elements (dom (txns s0))) <->
    u <> v /\ is_Some (txns s !! u)).
  { intros u. rewrite list_elem_of_filter, elem_of_elements, elem_of_dom. done. }
  split; try (by destruct s).
  - intros k u. specialize (Hk k u). unfold kind_edges at 1.
    transitivity (edges_of (match k with KTable => tb | KPage => pb | KPredicate => prb end) u);
      [by destruct k|].
    rewrite Hk.
    assert (Hs0 : kind_edges k s0 u = if bool_decide (u = v) then ∅ else kind_edges k s u).
    { destruct k; unfold kind_edges, s0; simpl; by autorewrite with edges. }
    rewrite Hs0, (bool_decide_ext _ _ (Hmem u)). repeat case_bool_decide; set_solver.
  - intros u. unfold graph_edges at 1. transitivity (edges_of w u); [done|]. rewrite Hw.
    assert (Hs0 : graph_edges s0 u = if bool_decide (u = v) then ∅ else graph_edges s u).
    { unfold graph_edges, s0; simpl. by autorewrite with edges. }
    assert (Hs1 : all_kinds s0 u = if bool_decide (u = v) then ∅ else all_kinds s u).
    { unfold all_kinds, kind_edges, s0; simpl. autorewrite with edges. case_bool_decide; set_solver. }
    rewrite Hs0, Hs1, (bool_decide_ext _ _ (Hmem u)). repeat case_bool_decide; set_solver.
Qed.

(** ** The invariant of the manager *)

Definition registered (s : TxnManager) (u : Z) : Prop := is_Some (txns s !! u).
Definition active (s : TxnManager) (u : Z) : Prop :=
  exists x, txns s !! u = Some x /\ status x = Active.

(** Every structure names registered transactions only, the graph is the union of the
    three families, and no two active transactions hold conflicting table locks. *)
Record Base (s : TxnManager) : Prop := {
  base_ids u x : txns s !! u = Some x -> id x = u /\ u < next_txn_id s;
  base_edges u : graph_edges s u = all_kinds s u;
  base_waiting u : graph_edges s u <> ∅ -> registered s u;
  base_table_holders l : l ∈ table_locks s -> registered s (tl_txn_id l);
  base_predicate_holders l : l ∈ predicate_locks s -> registered s (pl_txn_id l);
  base_owners p o : page_write_owners s !! p = Some o -> registered s o;
  base_compatible l1 l2 : l1 ∈ table_locks s -> l2 ∈ table_locks s ->
    tl_txn_id l1 <> tl_txn_id l2 -> tl_table l1 = tl_table l2 ->
    active s (tl_txn_id l1) -> active s (tl_txn_id l2) ->
    table_lock_modes_conflict (tl_mode l1) (tl_mode l2) = false
}.

(** Besides, no set of transactions waits in a circle. *)
Definition Inv (s : TxnManager) : Prop := Base s /\ acyclic (waits_for s).

Lemma graph_edge s a b : edge (waits_for s) a b <-> b ∈ graph_edges s a.
Proof. done. Qed.

(** Fewer edges, fewer cycles. *)
Lemma acyclic_mono g g' :
  (forall a b, edge g' a b -> edge g a b) -> acyclic g -> acyclic g'.
Proof. intros Hsub Hg a Ha. apply (Hg a). by apply (tc_congruence (fun x => x) (edge g)) in Ha. Qed.

(** What aborting [v] as a deadlock victim leaves. *)
Record victimised (v : Z) (message : string) (s s' : TxnManager) : Prop := {
  vic_released : exists s1, released v s1 s' /\
    s1 = set_txns (txns s1) s /\
    (forall u, u <> v -> txns s1 !! u = txns s !! u) /\
    (forall x, txns s !! v = Some x -> txns s1 !! v =
       Some (if is_active x then with_terminal_error (Some message) (with_status Aborted x) else x))
}.

Lemma is_active_true x : is_active x = true <-> status x = Active.
Proof. unfold is_active. apply bool_decide_eq_true. Qed.

Lemma abort_deadlock_victim_run v message s :
  registered s v -> lock_wait_epoch s + 1 <= u64_max ->
  exists s', abort_deadlock_victim v message s = (Ok tt, s') /\ victimised v message s s'.
Proof.
  intros [x Hx] He. unfold abort_deadlock_victim. rewrite st_bind_run. cbn [st_get fst snd].
  unfold get. rewrite Hx. cbn [ok_or]. rewrite st_bind_run.
  destruct (is_active x) eqn:Ea.
  - unfold update_txn at 1 2. rewrite !st_bind_run. cbn [st_get fst snd]. unfold get. rewrite Hx. cbn [ok_or st_mod fst snd].
    set (x' := with_terminal_error (Some message) (with_status Aborted x)).
    set (s1 := set_txns (<[v := x']> (txns s)) s).
    destruct (release_run v s1) as (s' & Hr & Hrel); [by eexists; apply lookup_insert_eq|done|].
    exists s'. split; [done|]. split. exists s1. split; [done|]. split; [done|]. split.
    + intros u Hu. by apply lookup_insert_ne.
    + intros y Hy. rewrite Hx in Hy. injection Hy as <-. rewrite Ea. apply lookup_insert_eq.
  - cbn [st_ret fst snd]. destruct (release_run v s) as (s' & Hr & Hrel); [by eexists|done|].
    exists s'. split; [done|]. split. exists s. split; [done|]. split; [by destruct s|]. split; [done|].
    intros y Hy. rewrite Hx in Hy. injection Hy as <-. by rewrite Ea.
Qed.

Section Victim.
Context (v : Z) (message : string) (s s' : TxnManager) (Hv : victimised v message s s').

Lemma vic_txns : (forall u, u <> v -> txns s' !! u = txns s !! u) /\
  forall x, txns s !! v = Some x -> txns s' !! v =
    Some (if is_active x then with_terminal_error (Some message) (with_status Aborted x) else x).
Proof. destruct Hv as [(s1 & Hr & _ & H1 & H2)]. by rewrite (rel_txns _ _ _ Hr). Qed.

Lemma vic_registered u : registered s v -> registered s' u <-> registered s u.
Proof.
  intros [x Hx]. destruct vic_txns as [H1 H2]. unfold registered.
  destruct (decide (u = v)) as [->|Hne]; [|by rewrite H1].
  rewrite (H2 _ Hx), Hx. split; intros _; eauto.
Qed.

Lemma vic_active u : registered s v -> active s' u -> active s u /\ u <> v.
Proof.
  intros [x Hx] (y & Hy & Ha). destruct vic_txns as [H1 H2].
  destruct (decide (u = v)) as [->|Hne].
  - rewrite (H2 _ Hx) in Hy. injection Hy as <-. exfalso.
    destruct (is_active x) eqn:E; [done|]. apply is_active_true in Ha. congruence.
  - split; [|done]. exists y. by rewrite <- (H1 u Hne).
Qed.

Lemma vic_still_active u : u <> v -> active s u -> active s' u.
Proof. intros Hne (y & Hy & Ha). exists y. destruct vic_txns as [H1 _]. by rewrite H1. Qed.

Lemma vic_fields :
  next_txn_id s' = next_txn_id s /\ next_commit_ts s' = next_commit_ts s /\
  next_row_ids s' = next_row_ids s /\ lock_wait_epoch s' = lock_wait_epoch s + 1 /\
  table_locks s' = List.filter (fun lock => negb (tl_txn_id lock =? v)) (table_locks s) /\
  predicate_locks s' = List.filter (fun lock => negb (pl_txn_id lock =? v)) (predicate_locks s) /\
  page_write_owners s' = filter (fun kv => kv.2 <> v) (page_write_owners s).
Proof.
  destruct Hv as [(s1 & Hr & He & _)]. destruct Hr as [R1 R2 R3 _ R5 R6 R7 _ _ _ _ _ R13].
  rewrite R1, R2, R3, R5, R6, R7, R13. by rewrite He.
Qed.

(** The victim's edges and the edges to it are gone, the others are as before. *)
Lemma vic_edges : registered s v -> Base s ->
  (forall k u, kind_edges k s' u = if bool_decide (u = v) then ∅ else kind_edges k s u ∖ {[v]}) /\
  (forall u, graph_edges s' u = if bool_decide (u = v) then ∅ else graph_edges s u ∖ {[v]}).
Proof.
  intros Hreg HB. destruct Hv as [(s1 & Hr & He & H1 & H2)].
  assert (Hk : forall k u, kind_edges k s1 u = kind_edges k s u) by (intros [] u; by rewrite He).
  assert (Hg : forall u, graph_edges s1 u = graph_edges s u) by (intros u; by rewrite He).
  assert (Ha : forall u, all_kinds s1 u = graph_edges s u).
  { intros u. rewrite base_edges by done. unfold all_kinds. by rewrite !Hk. }
  assert (Hsome : forall u, u <> v -> is_Some (txns s1 !! u) <-> registered s u).
  { intros u Hu. unfold registered. by rewrite H1. }
  assert (Hnone : forall k u, u <> v -> ~ registered s u -> kind_edges k s u = ∅ /\ graph_edges s u = ∅).
  { intros k u Hu Hn. assert (Hg0 : graph_edges s u = ∅).
    { destruct (decide (graph_edges s u = ∅)); [done|]. destruct Hn. by apply base_waiting. }
    split; [|done]. rewrite base_edges, (all_kinds_split k) in Hg0 by done. set_solver. }
  split.
  - intros k u. rewrite (rel_kinds _ _ _ Hr), Hk. case_bool_decide as Hu; [done|].
    case_bool_decide as Hs; [done|]. rewrite Hsome in Hs by done.
    destruct (Hnone k u Hu Hs) as [-> _]. set_solver.
  - intros u. rewrite (rel_graph _ _ _ Hr), Ha, Hg. case_bool_decide as Hu; [done|].
    case_bool_decide as Hs; [done|]. rewrite Hsome in Hs by done.
    destruct (Hnone KTable u Hu Hs) as [_ ->]. set_solver.
Qed.

Lemma vic_Base : registered s v -> Base s -> Base s'.
Proof.
  intros Hreg HB. destruct (vic_edges Hreg HB) as [Hk Hg]. pose proof vic_fields as Hf.
  destruct Hf as (F1 & F2 & F3 & F4 & F5 & F6 & F7). pose proof vic_txns as [H1 H2].
  assert (HR : forall u, registered s u -> registered s' u) by (intros u; by apply vic_registered).
  split.
  - intros u x Hx. rewrite F1. destruct (decide (u = v)) as [->|Hne].
    + destruct Hreg as [y Hy]. rewrite (H2 _ Hy) in Hx. injection Hx as <-.
      destruct (base_ids _ HB _ _ Hy). by destruct (is_active y).
    + rewrite H1 in Hx by done. by apply (base_ids _ HB).
  - intros u. unfold all_kinds. rewrite !Hk, Hg, base_edges by done. unfold all_kinds.
    case_bool_decide; set_solver.
  - intros u Hu. apply HR. apply base_waiting; [done|]. rewrite Hg in Hu. case_bool_decide; set_solver.
  - intros l. rewrite F5. rewrite list_elem_of_In, List.filter_In, <- list_elem_of_In.
    intros [Hl _]. by apply HR, base_table_holders.
  - intros l. rewrite F6. rewrite list_elem_of_In, List.filter_In, <- list_elem_of_In.
    intros [Hl _]. by apply HR, base_predicate_holders.
  - intros p o. rewrite F7, map_lookup_filter_Some. intros [Hp _]. by eapply HR, base_owners.
  - intros l1 l2. rewrite F5. rewrite !list_elem_of_In, !List.filter_In, <- !list_elem_of_In.
    intros [Hl1 _] [Hl2 _] Hne Ht Ha1 Ha2. apply (base_compatible _ HB); try done; by apply vic_active.
Qed.
End Victim.
