(* ===== verification/TxnLocks.v ===== *)
(** * Lock requests of the transaction manager

    Proofs about TxnManager.v: how a lock request breaks the deadlocks it would close,
    that it ends, and that it keeps the invariant [Inv] of TxnRelease.v. *)

From S2P Require Import Prelude Types Ast TxTypes TxnManager WaitGraph TxnRelease.

(** ** Choosing a victim *)

Lemma dedup_subset l x : x ∈ dedup l -> x ∈ l.
Proof.
  induction l as [|y l IH]; [done|]. cbn [dedup]. destruct (dedup l) as [|z r] eqn:E.
  - set_solver.
  - destruct (Z.eqb_spec y z); set_solver.
Qed.

Lemma dedup_nonempty l : l <> [] -> dedup l <> [].
Proof.
  destruct l as [|y l]; [done|]. intros _. cbn [dedup]. destruct (dedup l) as [|z r]; [done|].
  by destruct (y =? z).
Qed.

Lemma min_by_key_elem {A K} (cmp : K -> K -> comparison) (l : list (A * K)) :
  l <> [] -> exists a, min_by_key cmp l = Some a /\ a ∈ map fst l.
Proof.
  destruct l as [|x l]; [done|]. intros _. cbn [min_by_key]. eexists. split; [done|].
  assert (H : forall best, (fold_left (fun best y => match cmp y.2 best.2 with Lt => y | _ => best end) l best).1
    ∈ map fst (best :: l)).
  { induction l as [|y l IH]; intros best; simpl; [set_solver|].
    pose proof (IH y). pose proof (IH best). simpl in *. destruct (cmp y.2 best.2); set_solver. }
  apply H.
Qed.

Lemma victim_key_total s requester u : registered s u -> exists key, victim_key s requester u = Ok key.
Proof. intros [x Hx]. unfold victim_key. rewrite Hx. eauto. Qed.

(** A victim is chosen among the transactions of the cycle. *)
Lemma choose_deadlock_victim_spec s requester blocker :
  Base s -> registered s requester ->
  (~ reaches (waits_for s) blocker requester /\ choose_deadlock_victim s requester blocker = Ok None) \/
  (reaches (waits_for s) blocker requester /\
   exists v, choose_deadlock_victim s requester blocker = Ok (Some v) /\ registered s v /\
     (v = requester \/ graph_edges s v <> ∅)).
Proof.
  intros HB Hreg. unfold choose_deadlock_victim.
  destruct (wait_path_total s blocker requester) as (found & -> & Hs). cbn [bind].
  destruct found as [path|]; [right|by left].
  split; [by eapply wait_chain_reaches|]. set (cycle := dedup (sort_by Z.compare (path ++ [requester]))).
  assert (Hin : forall x, x ∈ cycle -> x = requester \/ graph_edges s x <> ∅).
  { intros x Hx%dedup_subset. rewrite elem_of_sort_by, elem_of_app, list_elem_of_singleton in Hx.
    destruct Hx as [Hx|]; [|by left]. destruct (wait_chain_waits _ _ _ _ _ Hs Hx) as [|[_ [y Hy]]]; [by left|].
    right. rewrite graph_edge in Hy. set_solver. }
  assert (Hreg' : forall x, x ∈ cycle -> registered s x).
  { intros x Hx. destruct (Hin x Hx) as [->|]; [done|by apply base_waiting]. }
  assert (Hkeys : exists keyed, mapM_res (fun txn_id =>
      let? key := victim_key s requester txn_id in Ok (txn_id, key)) cycle = Ok keyed /\ map fst keyed = cycle).
  { clear Hin. induction cycle as [|x l IH]; simpl; [by exists []|].
    destruct (victim_key_total s requester x) as [key ->]; [apply Hreg'; set_solver|]. cbn [bind].
    destruct IH as (keyed & -> & Hm); [set_solver|]. cbn [bind]. eexists. split; [done|]. simpl. by rewrite Hm. }
  destruct Hkeys as (keyed & -> & Hm). cbn [bind].
  destruct (min_by_key_elem victim_key_cmp keyed) as (v & Hv & Hel).
  { intros ->. assert (Hne : cycle <> []); [|by rewrite <- Hm in Hne].
    apply dedup_nonempty. intros Hnil. pose proof (sort_by_perm Z.compare (path ++ [requester])) as Hp.
    rewrite Hnil in Hp. apply Permutation_nil_l in Hp. by destruct path. }
  rewrite Hm in Hel. exists v. split; [by rewrite Hv|]. auto.
Qed.

(** ** Breaking the cycles a request would close *)

(** Nothing happens when the blocker does not wait for the requester; otherwise a victim
    of the cycle is aborted, and the request fails if it is the requester itself. *)
Definition cycle_outcome (t : Z) (s : TxnManager) (r : Result bool) (s' : TxnManager) : Prop :=
  exists v message, victimised v message s s' /\ registered s v /\
    ((v = t /\ r = Err (Txn message)) \/ (v <> t /\ graph_edges s v <> ∅ /\ r = Ok true)).

Lemma break_cycle_run t b ctx s :
  Base s -> registered s t -> lock_wait_epoch s + 1 <= u64_max ->
  (~ reaches (waits_for s) b t /\ break_cycle t b ctx s = (Ok false, s)) \/
  (reaches (waits_for s) b t /\ cycle_outcome t s (break_cycle t b ctx s).1 (break_cycle t b ctx s).2).
Proof.
  intros HB Hreg He. unfold break_cycle. rewrite st_bind_run. cbn [st_get fst snd].
  destruct (waits_reaches s b t) as (w & -> & Hw).
  destruct w; [right|left; split; [|done]; intros Hc; by apply Hw in Hc].
  split; [by apply Hw|]. assert (Hr : reaches (waits_for s) b t) by by apply Hw.
  unfold resolve_deadlock. rewrite st_bind_run. cbn [st_get fst snd].
  destruct (choose_deadlock_victim_spec s t b HB Hreg) as [[? _]|(_ & v & -> & Hvr & Hvw)]; [done|].
  rewrite st_bind_run. destruct (abort_deadlock_victim_run v (ctx v) s Hvr He) as (s' & -> & Hv). cbn [fst snd].
  exists v, (ctx v). destruct (Z.eqb_spec v t) as [->|Hne].
  - cbn. split; [done|]. split; [done|]. by left.
  - cbn. split; [done|]. split; [done|]. right. split_and!; [done| |done]. destruct Hvw; [done|]. done.
Qed.

Lemma break_cycles_run t l ctx s :
  Base s -> registered s t -> lock_wait_epoch s + 1 <= u64_max ->
  ((forall b, b ∈ l -> ~ reaches (waits_for s) b t) /\ break_cycles t l ctx s = (Ok false, s)) \/
  cycle_outcome t s (break_cycles t l ctx s).1 (break_cycles t l ctx s).2.
Proof.
  intros HB Hreg He. induction l as [|b l IH]; cbn [break_cycles].
  - left. split; [set_solver|done].
  - rewrite st_bind_run.
    destruct (break_cycle_run t b ctx s HB Hreg He) as [[Hn Hr]|[_ Ho]].
    + rewrite Hr. cbn [fst snd]. destruct IH as [[Hl IH]|IH]; [|by right].
      left. split; [set_solver|done].
    + right. destruct Ho as (v & msg & Hv & Hvr & Ho). exists v, msg.
      destruct (break_cycle t b ctx s) as [r s']; cbn [fst snd] in *.
      destruct Ho as [[-> ->]|(Hne & Hvw & ->)]; cbn; naive_solver.
Qed.

(** ** The state of a request in progress *)

(** What the invariants read: everything but the wait queues and the two counters. *)
Definition core (s : TxnManager) :=
  (next_txn_id s, txns s, (table_locks s, predicate_locks s, page_write_owners s),
   (table_wait_blockers s, page_wait_blockers s, predicate_wait_blockers s, waits_for s), lock_wait_epoch s).

Lemma core_Base s s' : core s = core s' -> Base s -> Base s'.
Proof. destruct s, s'. unfold core. simpl. intros [= <- <- <- <- <- <- <- <- <- <-] []. by split. Qed.

(** While [t] asks for a lock its edges of family [k] may close cycles; no other cycle
    exists. *)
Definition pending (k : WaitKind) (t : Z) (s : TxnManager) : Prop :=
  Base s /\ registered s t /\ acyclic (<[t := other_kinds k s t]> (waits_for s)).

(** The transactions besides [t] that wait: each retry aborts one of them. *)
Definition waiters (t : Z) (s : TxnManager) : gset Z :=
  filter (fun u => u <> t /\ graph_edges s u <> ∅) (dom (waits_for s)).

Lemma elem_of_waiters t s u : u ∈ waiters t s <-> u <> t /\ graph_edges s u <> ∅.
Proof.
  unfold waiters. rewrite elem_of_filter, elem_of_dom. split; [naive_solver|]. intros [Hne Hg].
  split; [done|]. unfold graph_edges, edges_of in Hg. by destruct (waits_for s !! u).
Qed.

(** The notifier's counter does not overflow during the request. *)
Definition epoch_ok (t : Z) (s : TxnManager) : Prop :=
  lock_wait_epoch s + Z.of_nat (S (size (waiters t s))) <= u64_max.

Lemma core_pending k t s s' : core s = core s' -> pending k t s -> pending k t s'.
Proof.
  intros Hc (HB & Hr & Ha). split; [by eapply core_Base|].
  destruct s, s'. unfold core in Hc. simpl in Hc. injection Hc as <- <- <- <- <- <- <- <- <- <-.
  split; [done|]. by destruct k.
Qed.

Lemma core_waiters t s s' : core s = core s' -> waiters t s = waiters t s'.
Proof. destruct s, s'. unfold core. simpl. by intros [= <- <- <- <- <- <- <- <- <- <-]. Qed.

Lemma core_epoch_ok t s s' : core s = core s' -> epoch_ok t s -> epoch_ok t s'.
Proof.
  intros Hc. unfold epoch_ok. rewrite <- (core_waiters t _ _ Hc).
  destruct s, s'. unfold core in Hc. simpl in *. by injection Hc as <- <- <- <- <- <- <- <- <- <-.
Qed.

Lemma pending_intro k t s : Inv s -> registered s t -> pending k t s.
Proof.
  intros [HB Ha] Hr. split; [done|]. split; [done|]. eapply acyclic_mono; [|exact Ha].
  intros a b. unfold edge. rewrite edges_of_insert. case_bool_decide as Hat; [|done]. subst a.
  intros Hb. change (b ∈ graph_edges s t). rewrite base_edges, (all_kinds_split k) by done. set_solver.
Qed.

Section SetEdges.
Context (k : WaitKind) (t : Z) (bl : gset Z) (s : TxnManager).

Lemma set_wait_edges_graph u :
  graph_edges (set_wait_edges k t bl s) u = if bool_decide (u = t) then bl ∪ other_kinds k s t else graph_edges s u.
Proof. destruct (set_wait_edges_spec k t bl s) as (tb & pb & prb & w & -> & _ & Hw). apply Hw. Qed.

Lemma set_wait_edges_kind k' u :
  kind_edges k' (set_wait_edges k t bl s) u = if bool_decide (k' = k /\ u = t) then bl else kind_edges k' s u.
Proof.
  destruct (set_wait_edges_spec k t bl s) as (tb & pb & prb & w & -> & Hk & _).
  rewrite <- Hk. by destruct k'.
Qed.

Lemma set_wait_edges_other u : other_kinds k (set_wait_edges k t bl s) u = other_kinds k s u.
Proof.
  unfold other_kinds. destruct k eqn:E; rewrite <- E, !set_wait_edges_kind, !bool_decide_false by (rewrite E; naive_solver); done.
Qed.

Lemma set_wait_edges_rest :
  next_txn_id (set_wait_edges k t bl s) = next_txn_id s /\ txns (set_wait_edges k t bl s) = txns s /\
  table_locks (set_wait_edges k t bl s) = table_locks s /\
  predicate_locks (set_wait_edges k t bl s) = predicate_locks s /\
  page_write_owners (set_wait_edges k t bl s) = page_write_owners s /\
  lock_wait_epoch (set_wait_edges k t bl s) = lock_wait_epoch s /\
  next_commit_ts (set_wait_edges k t bl s) = next_commit_ts s /\
  table_wait_queues (set_wait_edges k t bl s) = table_wait_queues s /\
  page_write_wait_queues (set_wait_edges k t bl s) = page_write_wait_queues s /\
  predicate_write_wait_queues (set_wait_edges k t bl s) = predicate_write_wait_queues s.
Proof. destruct (set_wait_edges_spec k t bl s) as (tb & pb & prb & w & -> & _). by split_and!. Qed.

Lemma set_wait_edges_Base : Base s -> registered s t -> Base (set_wait_edges k t bl s).
Proof.
  intros HB Hr. destruct set_wait_edges_rest as (E1 & E2 & E3 & E4 & E5 & _).
  split; unfold registered, active; rewrite ?E1, ?E2, ?E3, ?E4, ?E5; try apply HB.
  - intros u. rewrite set_wait_edges_graph, (all_kinds_split k), set_wait_edges_kind, set_wait_edges_other.
    repeat case_bool_decide; try naive_solver.
    + rewrite base_edges, (all_kinds_split k) by done. done.
  - intros u. rewrite set_wait_edges_graph. case_bool_decide as Hu; [by subst|]. by apply base_waiting.
Qed.

Lemma set_wait_edges_pending : pending k t s -> pending k t (set_wait_edges k t bl s).
Proof.
  intros (HB & Hr & Ha). split; [by apply set_wait_edges_Base|]. split.
  { unfold registered. by destruct set_wait_edges_rest as (_ & -> & _). }
  eapply acyclic_mono; [|exact Ha]. intros a b. unfold edge. rewrite !edges_of_insert, set_wait_edges_other.
  case_bool_decide as Hat; [done|]. change (edges_of (waits_for ?s1) a) with (graph_edges s1 a).
  by rewrite set_wait_edges_graph, bool_decide_false.
Qed.

Lemma set_wait_edges_waiters : waiters t (set_wait_edges k t bl s) = waiters t s.
Proof.
  apply set_eq. intros u. rewrite !elem_of_waiters, set_wait_edges_graph.
  case_bool_decide; naive_solver.
Qed.

(** Clearing the edges of a granted request. *)
Lemma pending_granted : bl = ∅ -> pending k t s -> Inv (set_wait_edges k t bl s).
Proof.
  intros Hbl (HB & Hr & Ha). split; [by apply set_wait_edges_Base|].
  eapply acyclic_mono; [|exact Ha]. intros a b. unfold edge at 2. rewrite edges_of_insert.
  rewrite graph_edge, set_wait_edges_graph. rewrite Hbl. case_bool_decide; set_solver.
Qed.

(** A cycle through one of [t]'s new edges goes from a blocker back to [t]. *)
Lemma pending_waiting :
  pending k t s -> (forall b, b ∈ bl -> ~ reaches (waits_for (set_wait_edges k t bl s)) b t) ->
  Inv (set_wait_edges k t bl s).
Proof.
  intros (HB & Hr & Ha) Hn. split; [by apply set_wait_edges_Base|]. set (s1 := set_wait_edges k t bl s) in *.
  assert (Hsub : forall a b, edge (<[t := other_kinds k s t]> (waits_for s)) a b -> edge (waits_for s1) a b).
  { intros a b. unfold edge at 1. rewrite edges_of_insert, graph_edge. unfold s1. rewrite set_wait_edges_graph.
    case_bool_decide; set_solver. }
  assert (Hedge : forall a b, edge (waits_for s1) a b ->
    edge (<[t := other_kinds k s t]> (waits_for s)) a b \/ (a = t /\ b ∈ bl)).
  { intros a b. rewrite graph_edge. unfold s1, edge. rewrite set_wait_edges_graph, edges_of_insert.
    case_bool_decide; set_solver. }
  assert (Htc : forall a b, tc (edge (<[t := other_kinds k s t]> (waits_for s))) a b -> tc (edge (waits_for s1)) a b).
  { intros a b Hab. by apply (tc_congruence (fun x => x) (edge (waits_for s1))) in Hab. }
  assert (Hcut : forall x y, tc (edge (waits_for s1)) x y ->
    tc (edge (<[t := other_kinds k s t]> (waits_for s))) x y \/
    (reaches (waits_for s1) x t /\ exists b, b ∈ bl /\ reaches (waits_for s1) b y)).
  { intros x y Hxy. induction Hxy as [x y Hxy|x z y Hxz Hzy IH].
    - destruct (Hedge _ _ Hxy) as [He|[-> Hb]]; [left; by apply tc_once|right].
      split; [apply rtc_refl|]. exists y. split; [done|apply rtc_refl].
    - destruct IH as [IH|(Hz & b & Hb & Hby)].
      + destruct (Hedge _ _ Hxz) as [He|[-> Hb]]; [left; by eapply tc_l|right].
        split; [apply rtc_refl|]. exists z. split; [done|]. by apply tc_rtc, Htc.
      + right. split; [by eapply rtc_l|]. by exists b. }
  intros a Hc. destruct (Hcut a a Hc) as [Hc0|(Hat & b & Hb & Hba)]; [by apply (Ha a)|].
  apply (Hn b Hb). by eapply rtc_trans.
Qed.
End SetEdges.

(** ** After a victim was aborted *)

Lemma victim_requester_Inv k t msg s s' :
  pending k t s -> victimised t msg s s' -> Inv s'.
Proof.
  intros (HB & Hr & Ha) Hv. split; [by eapply vic_Base|].
  destruct (vic_edges _ _ _ _ Hv Hr HB) as [_ Hg].
  eapply acyclic_mono; [|exact Ha]. intros a b. unfold edge at 2. rewrite edges_of_insert, graph_edge, Hg.
  repeat case_bool_decide; set_solver.
Qed.

Lemma victim_other_pending k t v msg s s' :
  pending k t s -> registered s v -> v <> t -> victimised v msg s s' -> pending k t s'.
Proof.
  intros (HB & Hr & Ha) Hvr Hne Hv. destruct (vic_edges _ _ _ _ Hv Hvr HB) as [Hk Hg].
  split; [by eapply vic_Base|]. split; [by eapply vic_registered|].
  eapply acyclic_mono; [|exact Ha]. intros a b. unfold edge. rewrite !edges_of_insert.
  case_bool_decide as Hat.
  - unfold other_kinds. destruct k; rewrite !Hk, bool_decide_false by done; set_solver.
  - change (b ∈ graph_edges s' a -> b ∈ graph_edges s a). rewrite Hg. case_bool_decide; set_solver.
Qed.

Lemma victim_waiters t v msg s s' :
  Base s -> registered s v -> v <> t -> graph_edges s v <> ∅ -> victimised v msg s s' ->
  (size (waiters t s') < size (waiters t s))%nat.
Proof.
  intros HB Hvr Hne Hvw Hv. destruct (vic_edges _ _ _ _ Hv Hvr HB) as [_ Hg].
  apply subset_size. split.
  - intros u. rewrite !elem_of_waiters, Hg. intros [Hu Hu']. split; [done|].
    case_bool_decide; [done|]. set_solver.
  - intros Hsub. assert (Hin : v ∈ waiters t s') by by apply Hsub, elem_of_waiters.
    apply elem_of_waiters in Hin as [_ Hin]. rewrite Hg, bool_decide_true in Hin by done. done.
Qed.

(** The error of a deadlock victim: it is aborted with that message, and has let go of
    everything. *)
Definition deadlock_victim (t : Z) (e : DbError) (s' : TxnManager) : Prop :=
  exists message x, e = Txn message /\ txns s' !! t = Some x /\ status x = Aborted /\
    terminal_error x = Some message /\ graph_edges s' t = ∅ /\
    (forall l, l ∈ table_locks s' -> tl_txn_id l <> t) /\
    (forall l, l ∈ predicate_locks s' -> pl_txn_id l <> t) /\
    (forall p, page_write_owners s' !! p <> Some t).

Lemma victim_requester_error k t msg s s' :
  pending k t s -> active s t -> victimised t msg s s' -> deadlock_victim t (Txn msg) s'.
Proof.
  intros (HB & Hr & _) (x & Hx & Ha) Hv.
  destruct (vic_txns _ _ _ _ Hv) as [_ Ht]. destruct (vic_edges _ _ _ _ Hv Hr HB) as [_ Hg].
  destruct (vic_fields _ _ _ _ Hv) as (_ & _ & _ & _ & F5 & F6 & F7).
  pose proof (Ht _ Hx) as Hx'. apply is_active_true in Ha. rewrite Ha in Hx'.
  exists msg. eexists. split; [done|]. split; [exact Hx'|]. split; [done|]. split; [done|].
  split; [rewrite Hg; by rewrite bool_decide_true|].
  rewrite F5, F6, F7. split_and!.
  - intros l. rewrite list_elem_of_In, List.filter_In. intros [_ Hn]. by apply negb_true_iff, Z.eqb_neq in Hn.
  - intros l. rewrite list_elem_of_In, List.filter_In. intros [_ Hn]. by apply negb_true_iff, Z.eqb_neq in Hn.
  - intros p. rewrite map_lookup_filter_Some. by intros [_ ?].
Qed.

(** No other transaction that is still active lost a lock, and nobody became active. *)
Record keeps (t : Z) (s s' : TxnManager) : Prop := {
  keeps_active u : active s' u -> active s u;
  keeps_owners p o : o <> t -> active s' o -> page_write_owners s !! p = Some o -> page_write_owners s' !! p = Some o;
  keeps_table_locks l : tl_txn_id l <> t -> active s' (tl_txn_id l) -> l ∈ table_locks s -> l ∈ table_locks s';
  keeps_predicate_locks l :
    pl_txn_id l <> t -> active s' (pl_txn_id l) -> l ∈ predicate_locks s -> l ∈ predicate_locks s'
}.

Lemma keeps_refl t s : keeps t s s.
Proof. by split. Qed.

Lemma keeps_trans t s1 s2 s3 : keeps t s1 s2 -> keeps t s2 s3 -> keeps t s1 s3.
Proof. intros [] []. split; naive_solver. Qed.

Lemma keeps_same t s s' :
  txns s' = txns s -> table_locks s' = table_locks s -> predicate_locks s' = predicate_locks s ->
  page_write_owners s' = page_write_owners s -> keeps t s s'.
Proof. intros H1 H2 H3 H4. split; unfold active; rewrite ?H1, ?H2, ?H3, ?H4; auto. Qed.

Lemma core_keeps t s s' : core s' = core s -> keeps t s s'.
Proof. unfold core. intros H. by apply keeps_same; congruence. Qed.

Lemma set_wait_edges_keeps k t bl s : keeps t s (set_wait_edges k t bl s).
Proof. destruct (set_wait_edges_rest k t bl s) as (_ & H1 & H2 & H3 & H4 & _). by apply keeps_same. Qed.

Lemma victimised_keeps t v msg s s' : registered s v -> victimised v msg s s' -> keeps t s s'.
Proof.
  intros Hr Hv. destruct (vic_fields _ _ _ _ Hv) as (_ & _ & _ & _ & F5 & F6 & F7).
  assert (Ha : forall u, active s' u -> active s u /\ u <> v) by (intros u; by eapply vic_active).
  split; rewrite ?F5, ?F6, ?F7.
  - intros u Hu. by apply Ha.
  - intros p o _ Ho Hp. apply map_lookup_filter_Some. split; [done|]. by apply Ha in Ho as [_ ?].
  - intros l _ Hl. rewrite !list_elem_of_In, List.filter_In. intros Hin. split; [done|].
    apply negb_true_iff, Z.eqb_neq. by apply Ha in Hl as [_ ?].
  - intros l _ Hl. rewrite !list_elem_of_In, List.filter_In. intros Hin. split; [done|].
    apply negb_true_iff, Z.eqb_neq. by apply Ha in Hl as [_ ?].
Qed.

(** One attempt that queues the requester behind [bl] and looks for cycles. *)
Definition attempt (k : WaitKind) (t : Z) (bl : gset Z) (enq : TxnManager -> TxnManager) (l : list Z)
    (ctx : Z -> string) : ST TxnManager bool :=
  st_mod enq ;;! st_mod (set_wait_edges k t bl) ;;! break_cycles t l ctx.

Lemma attempt_run k t bl enq l ctx s :
  pending k t s -> active s t -> epoch_ok t s -> (forall s, core (enq s) = core s) ->
  (forall b, b ∈ bl -> b ∈ l) ->
  let s1 := set_wait_edges k t bl (enq s) in
  (attempt k t bl enq l ctx s = (Ok false, s1) /\ Inv s1) \/
  (exists e s', attempt k t bl enq l ctx s = (Err e, s') /\ Inv s' /\ deadlock_victim t e s' /\ keeps t s s') \/
  (exists s', attempt k t bl enq l ctx s = (Ok true, s') /\ keeps t s s' /\
     pending k t s' /\ active s' t /\ epoch_ok t s' /\ (size (waiters t s') < size (waiters t s))%nat).
Proof.
  intros Hp Ha He Hc Hl s1. unfold attempt. rewrite st_bind_run. cbn [st_mod fst snd].
  rewrite st_bind_run. cbn [st_mod fst snd]. fold s1.
  assert (Hp1 : pending k t s1).
  { apply set_wait_edges_pending. eapply core_pending; [symmetry; apply Hc|done]. }
  assert (Hw1 : waiters t s1 = waiters t s).
  { unfold s1. rewrite set_wait_edges_waiters. by apply core_waiters. }
  assert (Hx1 : txns s1 = txns s).
  { unfold s1. destruct (set_wait_edges_rest k t bl (enq s)) as (_ & -> & _).
    pose proof (Hc s) as Hcs. unfold core in Hcs. congruence. }
  assert (He1 : lock_wait_epoch s1 = lock_wait_epoch s).
  { unfold s1. destruct (set_wait_edges_rest k t bl (enq s)) as (_ & _ & _ & _ & _ & -> & _).
    pose proof (Hc s) as Hcs. unfold core in Hcs. congruence. }
  assert (Ha1 : active s1 t) by (unfold active; by rewrite Hx1).
  assert (Hk1 : keeps t s s1).
  { eapply keeps_trans; [apply core_keeps, Hc|apply set_wait_edges_keeps]. }
  unfold epoch_ok in He.
  destruct (break_cycles_run t l ctx s1) as [[Hn Hr]|(v & msg & Hv & Hvr & Ho)];
    [apply Hp1|apply Hp1|lia| |].
  - left. split; [done|]. unfold s1. apply pending_waiting; [|by auto].
    eapply core_pending; [symmetry; apply Hc|done].
  - right. destruct (break_cycles t l ctx s1) as [r s'] eqn:Eb. cbn [fst snd] in *.
    destruct Ho as [[-> ->]|(Hne & Hvw & ->)].
    + left. do 2 eexists. split; [done|]. split; [by eapply victim_requester_Inv|].
      split; [by eapply victim_requester_error|]. eapply keeps_trans; [exact Hk1|by eapply victimised_keeps].
    + right. exists s'. split; [done|]. split; [eapply keeps_trans; [exact Hk1|by eapply victimised_keeps]|].
      destruct (vic_fields _ _ _ _ Hv) as (_ & _ & _ & Fe & _).
      assert (Hlt : (size (waiters t s') < size (waiters t s))%nat).
      { rewrite <- Hw1. by eapply victim_waiters; [apply Hp1|..]. }
      split; [by eapply victim_other_pending|]. split; [by eapply vic_still_active|].
      split; [|done]. unfold epoch_ok. lia.
Qed.
