(* ===== verification/TxnRequests.v ===== *)
(** * The three lock requests: table locks, page write locks, predicate writes

    For each request of [src/storage/v2/txn_manager.rs]: it ends (the retries run out),
    keeps the invariant (no circular wait, compatible table locks), takes nothing from an
    active transaction, and its outcome is one of: granted; refused because the requester
    is not active; refused because the requester was the deadlock victim; or queued. *)

From S2P Require Import Prelude Types Ast TxTypes TxnManager WaitGraph TxnRelease TxnLocks.



(** ** Outcomes *)

(** How a request of an active transaction ends. *)
Definition outcome (t : Z) (granted queued : TxnManager -> Prop) (s : TxnManager)
    (rs : Result unit * TxnManager) : Prop :=
  Inv rs.2 /\ keeps t s rs.2 /\
  match rs.1 with
  | Ok _ => granted rs.2
  | Err e => deadlock_victim t e rs.2 \/ (active rs.2 t /\ queued rs.2 /\ graph_edges rs.2 t <> ∅)
  | Panic _ | OutOfFuel => False
  end.

(** ** The shape the three requests share *)

Lemma attempt_seq {B} k t bl enq l ctx (K : bool -> ST TxnManager B) s :
  (st_mod enq ;;! st_mod (set_wait_edges k t bl) ;;! let! r := break_cycles t l ctx in K r) s =
  st_bind (attempt k t bl enq l ctx) K s.
Proof. done. Qed.

Lemma attempt_seq1 {B} k t bl enq b ctx (K : bool -> ST TxnManager B) s :
  (st_mod enq ;;! st_mod (set_wait_edges k t bl) ;;! let! r := break_cycle t b ctx in K r) s =
  st_bind (attempt k t bl enq [b] ctx) K s.
Proof.
  unfold attempt. rewrite !st_bind_run. cbn [st_mod fst snd break_cycles].
  rewrite !st_bind_run. destruct (break_cycle t b ctx _) as [[[]| | |] s']; done.
Qed.

Lemma elem_of_one (x b : Z) : b ∈ ({[x]} : gset Z) -> b ∈ [x].
Proof. rewrite elem_of_singleton. intros ->. apply list_elem_of_here. Qed.

Lemma request_wait k t bl enq l ctx (rec : ST TxnManager unit) err granted queued s :
  pending k t s -> active s t -> epoch_ok t s -> (forall s, core (enq s) = core s) ->
  (forall b, b ∈ bl -> b ∈ l) -> bl <> ∅ ->
  queued (set_wait_edges k t bl (enq s)) ->
  (forall s', pending k t s' -> active s' t -> epoch_ok t s' -> (size (waiters t s') < size (waiters t s))%nat ->
     outcome t granted queued s' (rec s')) ->
  outcome t granted queued s
    (st_bind (attempt k t bl enq l ctx) (fun retry : bool => if retry then rec else st_err err) s).
Proof.
  intros Hp Ha He Hc Hl Hbl Hq Hrec. rewrite st_bind_run.
  set (s1 := set_wait_edges k t bl (enq s)).
  assert (Hk1 : keeps t s s1).
  { eapply keeps_trans; [apply core_keeps, Hc|apply set_wait_edges_keeps]. }
  destruct (attempt_run k t bl enq l ctx s Hp Ha He Hc Hl)
    as [[-> HI]|[(e & s' & Hr & HI & Hd & Hks)|(s' & Hr & Hks & Hp' & Ha' & He' & Hlt)]].
  - unfold outcome. cbn [fst snd st_err]. split; [done|]. split; [done|]. right. split.
    + destruct Ha as (x & Hx & Hx'). exists x. split; [|done].
      destruct (set_wait_edges_rest k t bl (enq s)) as (_ & -> & _).
      pose proof (Hc s) as Hcs. unfold core in Hcs. congruence.
    + split; [done|]. rewrite set_wait_edges_graph, bool_decide_true by done. set_solver.
  - rewrite Hr. split; [done|]. split; [done|by left].
  - rewrite Hr. cbn [fst snd]. destruct (Hrec s' Hp' Ha' He' Hlt) as (HI & Hkp & Ho).
    split; [done|]. split; [by eapply keeps_trans|done].
Qed.

(** ** Table locks *)

Lemma modes_conflict_sym a b : table_lock_modes_conflict a b = table_lock_modes_conflict b a.
Proof. by destruct a, b. Qed.

Lemma modes_conflict_mono a b c :
  mode_rank a <= mode_rank b -> table_lock_modes_conflict a c = true -> table_lock_modes_conflict b c = true.
Proof. by destruct a, b, c. Qed.

Lemma active_dec_registered s u x : txns s !! u = Some x -> is_active x = true <-> active s u.
Proof.
  intros Hx. rewrite is_active_true. split; [by exists x|]. intros (y & Hy & Ha). congruence.
Qed.

Lemma exists_cons {A} (P : A -> Prop) a l : (exists x, x ∈ a :: l /\ P x) <-> P a \/ exists x, x ∈ l /\ P x.
Proof. setoid_rewrite elem_of_cons. naive_solver. Qed.

(** Transaction [u]'s lock [l] makes [t] wait. *)
Definition table_blocks (s : TxnManager) (t : Z) (table : string) (mode : TableLockMode) (u : Z) (l : TableLock) : Prop :=
  tl_txn_id l = u /\ u <> t /\ tl_table l = table /\ active s u /\ table_lock_modes_conflict (tl_mode l) mode = true.

Lemma conflicting_table_loop_spec s t table mode locks : forall bl,
  (forall l, l ∈ locks -> registered s (tl_txn_id l)) ->
  exists bl', conflicting_table_loop s t table mode locks bl = Ok bl' /\
    forall u, u ∈ bl' <-> u ∈ bl \/ exists l, l ∈ locks /\ table_blocks s t table mode u l.
Proof.
  induction locks as [|l locks IH]; intros bl Hreg; cbn [conflicting_table_loop].
  { exists bl. split; [done|]. set_solver. }
  assert (Hstep : forall bl1, (forall u, u ∈ bl1 <-> u ∈ bl \/ table_blocks s t table mode u l) ->
    exists bl', conflicting_table_loop s t table mode locks bl1 = Ok bl' /\
      forall u, u ∈ bl' <-> u ∈ bl \/ exists l0, l0 ∈ l :: locks /\ table_blocks s t table mode u l0).
  { intros bl1 Hbl1. destruct (IH bl1) as (bl' & Hr & H); [set_solver|]. exists bl'. split; [done|].
    intros u. rewrite H, Hbl1, exists_cons. tauto. }
  destruct (Z.eqb_spec (tl_txn_id l) t) as [Ht|Ht]; cbn [orb].
  { apply Hstep. unfold table_blocks. naive_solver. }
  destruct (String.eqb_spec (tl_table l) table) as [Hb|Hb]; cbn [negb].
  2:{ apply Hstep. unfold table_blocks. naive_solver. }
  destruct (Hreg l) as [x Hx]; [set_solver|]. unfold get. rewrite Hx. cbn [ok_or bind].
  pose proof (active_dec_registered _ _ _ Hx) as Hact.
  destruct (is_active x) eqn:Ea; cbn [negb]; apply Hstep; unfold table_blocks; intros u.
  - assert (active s (tl_txn_id l)) by by apply Hact.
    destruct (table_lock_modes_conflict (tl_mode l) mode) eqn:Ec; [|naive_solver].
    rewrite elem_of_union, elem_of_singleton. naive_solver.
  - assert (~ active s (tl_txn_id l)) by (rewrite <- Hact; done). naive_solver.
Qed.

Lemma conflicting_table_lock_txns_spec s t table mode :
  Base s ->
  exists bl, conflicting_table_lock_txns s t table mode = Ok bl /\
    forall u, u ∈ bl <-> exists l, l ∈ table_locks s /\ table_blocks s t table mode u l.
Proof.
  intros HB. destruct (conflicting_table_loop_spec s t table mode (table_locks s) ∅) as (bl & Hr & H).
  { apply (base_table_holders _ HB). }
  exists bl. split; [done|]. intros u. rewrite H, elem_of_empty. tauto.
Qed.

(** [t] holds a lock on [table] at least as strong as [mode]. *)
Definition holds_table (t : Z) (table : string) (mode : TableLockMode) (s : TxnManager) : Prop :=
  exists l, l ∈ table_locks s /\ tl_txn_id l = t /\ tl_table l = table /\ mode_rank mode <= mode_rank (tl_mode l).

Lemma upsert_lock_elem t table mode locks l :
  l ∈ upsert_lock t table mode locks -> l ∈ locks \/ l = mkTableLock t table mode.
Proof.
  induction locks as [|l0 locks IH]; cbn [upsert_lock]; [set_solver|].
  destruct (Z.eqb_spec (tl_txn_id l0) t) as [<-|]; cbn [andb]; [|set_solver].
  destruct (String.eqb_spec (tl_table l0) table) as [<-|]; [|set_solver].
  destruct (_ <? _); set_solver.
Qed.

Lemma upsert_lock_keeps t table mode locks l :
  l ∈ locks -> tl_txn_id l <> t -> l ∈ upsert_lock t table mode locks.
Proof.
  induction locks as [|l0 locks IH]; cbn [upsert_lock]; [set_solver|].
  destruct (Z.eqb_spec (tl_txn_id l0) t) as [<-|]; cbn [andb]; [|set_solver].
  destruct (String.eqb_spec (tl_table l0) table) as [<-|]; [|set_solver].
  destruct (_ <? _); set_solver.
Qed.

Lemma upsert_lock_holds t table mode locks :
  exists l, l ∈ upsert_lock t table mode locks /\ tl_txn_id l = t /\ tl_table l = table /\
    mode_rank mode <= mode_rank (tl_mode l).
Proof.
  induction locks as [|l0 locks IH]; cbn [upsert_lock].
  { exists (mkTableLock t table mode). split; [set_solver|]. simpl. split_and!; done || lia. }
  destruct (Z.eqb_spec (tl_txn_id l0) t) as [<-|]; cbn [andb]; [|set_solver].
  destruct (String.eqb_spec (tl_table l0) table) as [<-|]; [|set_solver].
  eexists. split; [apply list_elem_of_here|]. destruct (Z.ltb_spec (mode_rank (tl_mode l0)) (mode_rank mode)); simpl;
    split_and!; done || lia.
Qed.

(** Granting a table lock that conflicts with no active holder. *)
Lemma upsert_table_lock_Inv t table mode s :
  Inv s -> registered s t ->
  (forall l, l ∈ table_locks s -> tl_txn_id l <> t -> tl_table l = table -> active s (tl_txn_id l) ->
     table_lock_modes_conflict (tl_mode l) mode = false) ->
  Inv (upsert_table_lock t table mode s).
Proof.
  intros [HB Ha] Hr Hc. split; [|done]. split; try apply HB.
  - intros l [Hl|Hl]%upsert_lock_elem; [by apply (base_table_holders _ HB)|]. by subst.
  - intros l1 l2 [H1|H1]%upsert_lock_elem [H2|H2]%upsert_lock_elem Hne Ht Ha1 Ha2.
    + by apply (base_compatible _ HB).
    + subst l2. by apply Hc.
    + subst l1. simpl in *. rewrite modes_conflict_sym. apply Hc; [done|congruence|done|done].
    + subst. done.
Qed.

Definition queued_for_table (t : Z) (table : string) (s : TxnManager) : Prop :=
  t ∈ default [] (table_wait_queues s !! table).

Lemma enqueue_elem {K} `{Countable K} (key : K) t queues : t ∈ default [] (enqueue key t queues !! key).
Proof. unfold enqueue. rewrite lookup_insert_eq. simpl. case_bool_decide; set_solver. Qed.

Lemma acquire_table_lock_loop t table mode fuel : forall s,
  pending KTable t s -> active s t -> epoch_ok t s -> (size (waiters t s) < fuel)%nat ->
  outcome t (fun s' => active s' t /\ holds_table t table mode s') (queued_for_table t table) s
    (acquire_table_lock_fuel fuel t table mode s).
Proof.
  induction fuel as [|fuel IH]; intros s Hp Ha He Hf; [lia|]. cbn [acquire_table_lock_fuel].
  destruct Ha as (x & Hx & Hax). pose proof Hax as Hax'. apply is_active_true in Hax'.
  rewrite st_bind_run. cbn [st_get fst snd]. unfold ensure_active, get. rewrite Hx. cbn [ok_or bind]. rewrite Hax'.
  assert (Ha : active s t) by by exists x.
  destruct (conflicting_table_lock_txns_spec s t table mode (proj1 Hp)) as (bl & Hbl & Hspec).
  rewrite st_bind_run. cbn [st_get fst snd]. rewrite Hbl.
  assert (Hrec : forall s', pending KTable t s' -> active s' t -> epoch_ok t s' ->
    (size (waiters t s') < size (waiters t s))%nat ->
    outcome t (fun s' => active s' t /\ holds_table t table mode s') (queued_for_table t table) s'
      (acquire_table_lock_fuel fuel t table mode s')) by (intros; apply IH; [done..|lia]).
  case_bool_decide as Hempty.
  - assert (Hgrant : outcome t (fun s' => active s' t /\ holds_table t table mode s') (queued_for_table t table) s
      ((st_mod (dequeue_table_waiter table t) ;;! st_mod (clear_table_wait_edges t) ;;!
        st_mod (upsert_table_lock t table mode)) s)).
    { repeat (rewrite st_bind_run; cbn [st_mod fst snd]). unfold outcome. cbn [st_mod fst snd].
      change (clear_table_wait_edges t) with (set_wait_edges KTable t ∅).
      set (s1 := set_wait_edges KTable t ∅ (dequeue_table_waiter table t s)).
      destruct (set_wait_edges_rest KTable t ∅ (dequeue_table_waiter table t s)) as (_ & Et & El & Ep & Eo & _).
      fold s1 in Et, El, Ep, Eo.
      assert (HI : Inv s1).
      { apply pending_granted; [done|]. by eapply core_pending; [|exact Hp]. }
      split.
      - apply upsert_table_lock_Inv; [done|unfold registered; by rewrite Et; apply Hp|].
        intros l Hl Hne Hlt Hla. rewrite El in Hl. unfold active in Hla. rewrite Et in Hla.
        destruct (table_lock_modes_conflict (tl_mode l) mode) eqn:Ec; [|done]. exfalso.
        assert (Hin : tl_txn_id l ∈ bl) by (apply Hspec; exists l; done). rewrite Hempty in Hin. set_solver.
      - split.
        + split; unfold active; cbn; rewrite ?Et, ?Ep, ?Eo; auto. intros l Hne _ Hl.
          by apply upsert_lock_keeps.
        + split; [|apply upsert_lock_holds]. by exists x. }
    rewrite st_bind_run. cbn [st_read fst snd].
    destruct (front table (table_wait_queues s)) as [fw|]; [|exact Hgrant].
    destruct (Z.eqb_spec fw t) as [|Hne]; cbn [negb]; [exact Hgrant|].
    change (set_table_wait_edges t {[fw]}) with (set_wait_edges KTable t {[fw]}). rewrite attempt_seq1.
    apply request_wait; try done; [apply elem_of_one|].
    unfold queued_for_table. destruct (set_wait_edges_rest KTable t {[fw]} (enqueue_table_waiter table t s))
      as (_ & _ & _ & _ & _ & _ & _ & -> & _). apply enqueue_elem.
  - change (set_table_wait_edges t bl) with (set_wait_edges KTable t bl). rewrite attempt_seq.
    apply request_wait; try done; [intros b; by rewrite elem_of_sorted_elements|].
    unfold queued_for_table. destruct (set_wait_edges_rest KTable t bl (enqueue_table_waiter table t s))
      as (_ & _ & _ & _ & _ & _ & _ & -> & _). apply enqueue_elem.
Qed.

(** ** Page write locks *)

Definition queued_for_page (t : Z) (p : Z) (s : TxnManager) : Prop :=
  t ∈ default [] (page_write_wait_queues s !! p).

(** Giving a free page to [t]. *)
Lemma insert_owner_Inv t p s :
  Inv s -> registered s t -> Inv (set_page_write_owners (<[p := t]> (page_write_owners s)) s).
Proof.
  intros [HB Ha] Hr. split; [|done]. split; try apply HB.
  intros q o. cbn. rewrite lookup_insert_Some. intros [[_ <-]|[_ Hq]]; [done|by eapply (base_owners _ HB)].
Qed.

(** The owner asks again. *)
Lemma acquire_page_write_owned t p fuel s :
  Inv s -> registered s t -> page_write_owners s !! p = Some t ->
  exists s', acquire_page_write_fuel (S fuel) t p s = (Ok tt, s') /\ Inv s' /\ keeps t s s' /\
    page_write_owners s' !! p = Some t.
Proof.
  intros HI Hr Hp. cbn [acquire_page_write_fuel]. rewrite st_bind_run. cbn [st_read fst snd]. rewrite Hp, Z.eqb_refl.
  rewrite st_bind_run. cbn [st_mod fst snd].
  change (clear_page_wait_edges t) with (set_wait_edges KPage t ∅).
  destruct (set_wait_edges_rest KPage t ∅ (dequeue_front_waiter p t s)) as (_ & Et & El & Ep & Eo & _).
  eexists. split; [done|]. split; [|split].
  - apply pending_granted; [done|]. eapply core_pending; [|by apply pending_intro]. done.
  - by apply keeps_same.
  - by rewrite Eo.
Qed.

Lemma ensure_active_Ok s t : active s t -> ensure_active s t = Ok tt.
Proof.
  intros (x & Hx & Hax). unfold ensure_active, get. rewrite Hx. cbn [ok_or bind].
  apply is_active_true in Hax. by rewrite Hax.
Qed.

Lemma keeps_still_active s s' u : txns s' = txns s -> active s u -> active s' u.
Proof. intros He. unfold active. by rewrite He. Qed.

Lemma acquire_page_write_loop t p fuel : forall s,
  pending KPage t s -> active s t -> epoch_ok t s -> (size (waiters t s) < fuel)%nat ->
  outcome t (fun s' => active s' t /\ page_write_owners s' !! p = Some t) (queued_for_page t p) s
    (acquire_page_write_fuel fuel t p s).
Proof.
  induction fuel as [|fuel IH]; intros s Hp Ha He Hf; [lia|]. cbn [acquire_page_write_fuel].
  assert (Hrec : forall s', pending KPage t s' -> active s' t -> epoch_ok t s' ->
    (size (waiters t s') < size (waiters t s))%nat ->
    outcome t (fun s' => active s' t /\ page_write_owners s' !! p = Some t) (queued_for_page t p) s'
      (acquire_page_write_fuel fuel t p s')) by (intros; apply IH; [done..|lia]).
  assert (Hq : forall bl, queued_for_page t p (set_wait_edges KPage t bl (enqueue_page_waiter p t s))).
  { intros bl. unfold queued_for_page. destruct (set_wait_edges_rest KPage t bl (enqueue_page_waiter p t s))
      as (_ & _ & _ & _ & _ & _ & _ & _ & -> & _). apply enqueue_elem. }
  rewrite st_bind_run. cbn [st_read fst snd]. destruct (page_write_owners s !! p) as [owner|] eqn:Eown.
  - destruct (Z.eqb_spec owner t) as [->|Hne].
    + (* already the owner *)
      rewrite st_bind_run. cbn [st_mod fst snd].
      change (clear_page_wait_edges t) with (set_wait_edges KPage t ∅).
      destruct (set_wait_edges_rest KPage t ∅ (dequeue_front_waiter p t s)) as (_ & Et & El & Ep & Eo & _).
      unfold outcome. cbn [st_mod fst snd]. split; [|split; [by apply keeps_same|split; [by eapply keeps_still_active|by rewrite Eo]]].
      apply pending_granted; [done|]. by eapply core_pending; [|exact Hp].
    + rewrite st_bind_run. cbn [st_get fst snd]. rewrite ensure_active_Ok by done.
      rewrite st_bind_run. cbn [st_get fst snd].
      destruct (base_owners _ (proj1 Hp) _ _ Eown) as [y Hy]. unfold get. rewrite Hy. cbn [ok_or].
      change (set_page_wait_edges t {[owner]}) with (set_wait_edges KPage t {[owner]}). rewrite attempt_seq1.
      apply request_wait; try done; apply elem_of_one.
  - rewrite st_bind_run. cbn [st_get fst snd]. rewrite ensure_active_Ok by done.
    assert (Hgrant : outcome t (fun s' => active s' t /\ page_write_owners s' !! p = Some t) (queued_for_page t p) s
      ((st_mod (dequeue_front_waiter p t) ;;!
        st_mod (fun s => set_page_write_owners (<[p := t]> (page_write_owners s)) s) ;;!
        st_mod (clear_page_wait_edges t)) s)).
    { repeat (rewrite st_bind_run; cbn [st_mod fst snd]). unfold outcome. cbn [st_mod fst snd].
      change (clear_page_wait_edges t) with (set_wait_edges KPage t ∅).
      set (s1 := set_page_write_owners _ _).
      destruct (set_wait_edges_rest KPage t ∅ s1) as (_ & Et & El & Ep & Eo & _).
      assert (Hp1 : pending KPage t s1).
      { destruct Hp as (HB & Hr & Hac). split; [|done]. split; try apply HB.
        intros q o. cbn. rewrite lookup_insert_Some. intros [[_ <-]|[_ Hq']]; [done|by eapply (base_owners _ HB)]. }
      split; [by apply pending_granted|]. split.
      - split; unfold active; rewrite ?Et, ?El, ?Ep, ?Eo; auto. cbn. intros q o Hne _ Hq'.
        rewrite lookup_insert_ne; [done|]. congruence.
      - split; [by eapply keeps_still_active|]. rewrite Eo. apply lookup_insert_eq. }
    rewrite st_bind_run. cbn [st_read fst snd].
    destruct (front p (page_write_wait_queues s)) as [fw|]; [|exact Hgrant].
    destruct (Z.eqb_spec fw t) as [|Hne]; cbn [negb]; [exact Hgrant|].
    change (set_page_wait_edges t {[fw]}) with (set_wait_edges KPage t {[fw]}). rewrite attempt_seq1.
    apply request_wait; try done; apply elem_of_one.
Qed.

(** ** Predicate writes *)

Definition predicate_blocks (s : TxnManager) (t : Z) (table : string) (keys : list (string * list Value))
    (u : Z) (l : PredicateLock) : Prop :=
  pl_txn_id l = u /\ u <> t /\ pl_table l = table /\ active s u /\ predicate_lock_conflicts l keys = true.

Lemma conflicting_predicate_loop_spec s t table keys locks : forall bl,
  (forall l, l ∈ locks -> registered s (pl_txn_id l)) ->
  exists bl', conflicting_predicate_loop s t table keys locks bl = Ok bl' /\
    forall u, u ∈ bl' <-> u ∈ bl \/ exists l, l ∈ locks /\ predicate_blocks s t table keys u l.
Proof.
  induction locks as [|l locks IH]; intros bl Hreg; cbn [conflicting_predicate_loop].
  { exists bl. split; [done|]. set_solver. }
  assert (Hstep : forall bl1, (forall u, u ∈ bl1 <-> u ∈ bl \/ predicate_blocks s t table keys u l) ->
    exists bl', conflicting_predicate_loop s t table keys locks bl1 = Ok bl' /\
      forall u, u ∈ bl' <-> u ∈ bl \/ exists l0, l0 ∈ l :: locks /\ predicate_blocks s t table keys u l0).
  { intros bl1 Hbl1. destruct (IH bl1) as (bl' & Hr & H); [set_solver|]. exists bl'. split; [done|].
    intros u. rewrite H, Hbl1, exists_cons. tauto. }
  destruct (Z.eqb_spec (pl_txn_id l) t) as [Ht|Ht]; cbn [orb].
  { apply Hstep. unfold predicate_blocks. naive_solver. }
  destruct (String.eqb_spec (pl_table l) table) as [Hb|Hb]; cbn [negb].
  2:{ apply Hstep. unfold predicate_blocks. naive_solver. }
  destruct (Hreg l) as [x Hx]; [set_solver|]. unfold get. rewrite Hx. cbn [ok_or bind].
  pose proof (active_dec_registered _ _ _ Hx) as Hact.
  destruct (is_active x) eqn:Ea; cbn [negb]; apply Hstep; unfold predicate_blocks; intros u.
  - assert (active s (pl_txn_id l)) by by apply Hact.
    destruct (predicate_lock_conflicts l keys) eqn:Ec; [|naive_solver].
    rewrite elem_of_union, elem_of_singleton. naive_solver.
  - assert (~ active s (pl_txn_id l)) by (rewrite <- Hact; done). naive_solver.
Qed.

Definition queued_for_predicate (t : Z) (table : string) (keys : list (string * list Value)) (s : TxnManager) : Prop :=
  t ∈ default [] (predicate_write_wait_queues s !! predicate_write_key table keys).

(** The write is not covered by another active transaction's predicate lock. *)
Definition write_allowed (t : Z) (table : string) (keys : list (string * list Value)) (s : TxnManager) : Prop :=
  active s t /\ forall l, l ∈ predicate_locks s -> pl_txn_id l <> t -> pl_table l = table ->
    active s (pl_txn_id l) -> predicate_lock_conflicts l keys = false.

Lemma check_write_conflicts_loop t table keys fuel : forall s,
  pending KPredicate t s -> active s t -> epoch_ok t s -> (size (waiters t s) < fuel)%nat ->
  outcome t (write_allowed t table keys) (queued_for_predicate t table keys) s
    (check_write_conflicts_fuel fuel t table keys s).
Proof.
  induction fuel as [|fuel IH]; intros s Hp Ha He Hf; [lia|]. cbn [check_write_conflicts_fuel].
  rewrite st_bind_run. cbn [st_get fst snd]. rewrite ensure_active_Ok by done.
  destruct (conflicting_predicate_loop_spec s t table keys (predicate_locks s) ∅) as (bl & Hbl & Hspec).
  { apply (base_predicate_holders _ (proj1 Hp)). }
  rewrite st_bind_run. cbn [st_get fst snd]. unfold conflicting_predicate_lock_txns. rewrite Hbl.
  assert (Hrec : forall s', pending KPredicate t s' -> active s' t -> epoch_ok t s' ->
    (size (waiters t s') < size (waiters t s))%nat ->
    outcome t (write_allowed t table keys) (queued_for_predicate t table keys) s'
      (check_write_conflicts_fuel fuel t table keys s')) by (intros; apply IH; [done..|lia]).
  set (key := predicate_write_key table keys).
  assert (Hq : forall bl, queued_for_predicate t table keys
    (set_wait_edges KPredicate t bl (enqueue_predicate_waiter key t s))).
  { intros bl'. unfold queued_for_predicate.
    destruct (set_wait_edges_rest KPredicate t bl' (enqueue_predicate_waiter key t s))
      as (_ & _ & _ & _ & _ & _ & _ & _ & _ & ->). apply enqueue_elem. }
  case_bool_decide as Hempty.
  - assert (Hgrant : outcome t (write_allowed t table keys) (queued_for_predicate t table keys) s
      ((st_mod (dequeue_predicate_waiter key t) ;;! st_mod (clear_predicate_wait_edges t)) s)).
    { rewrite st_bind_run. cbn [st_mod fst snd]. unfold outcome. cbn [st_mod fst snd].
      change (clear_predicate_wait_edges t) with (set_wait_edges KPredicate t ∅).
      destruct (set_wait_edges_rest KPredicate t ∅ (dequeue_predicate_waiter key t s)) as (_ & Et & El & Ep & Eo & _).
      split; [|split; [by apply keeps_same|]].
      - apply pending_granted; [done|]. by eapply core_pending; [|exact Hp].
      - split; [by eapply keeps_still_active|]. unfold active. rewrite Ep, Et. cbn. intros l Hl Hne Hlt Hla.
        destruct (predicate_lock_conflicts l keys) eqn:Ec; [|done]. exfalso.
        assert (Hin : pl_txn_id l ∈ bl) by (apply Hspec; right; by exists l). rewrite Hempty in Hin. set_solver. }
    rewrite st_bind_run. cbn [st_read fst snd].
    destruct (front key (predicate_write_wait_queues s)) as [fw|]; [|exact Hgrant].
    destruct (Z.eqb_spec fw t) as [|Hne]; cbn [negb]; [exact Hgrant|].
    change (set_predicate_wait_edges t {[fw]}) with (set_wait_edges KPredicate t {[fw]}). rewrite attempt_seq1.
    apply request_wait; try done; apply elem_of_one.
  - change (set_predicate_wait_edges t bl) with (set_wait_edges KPredicate t bl). rewrite attempt_seq.
    apply request_wait; try done. intros b. by rewrite elem_of_sorted_elements.
Qed.

(** * Requests nobody stands in the way of

    When no other transaction locks a table exclusively, holds a predicate lock or a page,
    or waits for any of them, the requests a write makes of the manager are granted at
    once and leave the way clear. *)


Record unhindered (t : TransactionId) (m : TxnManager) : Prop := {
  way_active : active m t;
  way_tables l : l ∈ table_locks m -> tl_txn_id l = t \/ (tl_mode l <> Exclusive /\ registered m (tl_txn_id l));
  way_predicates l : l ∈ predicate_locks m -> pl_txn_id l = t;
  way_pages q o : page_write_owners m !! q = Some o -> o = t;
  way_table_queues : table_wait_queues m = ∅;
  way_page_queues : page_write_wait_queues m = ∅;
  way_predicate_queues : predicate_write_wait_queues m = ∅
}.

(** What no request changes: the transactions, the clock and the row ids. *)
Definition same_clock (m m' : TxnManager) : Prop :=
  txns m' = txns m /\ next_commit_ts m' = next_commit_ts m /\ next_row_ids m' = next_row_ids m.

Lemma conflicting_table_none t table m locks :
  (forall l, l ∈ locks -> tl_txn_id l = t \/ (tl_mode l <> Exclusive /\ registered m (tl_txn_id l))) ->
  conflicting_table_loop m t table IntentionWrite locks ∅ = Ok ∅.
Proof.
  induction locks as [|l locks IH]; intros Hl; [done|]. cbn [conflicting_table_loop].
  assert (IH' : conflicting_table_loop m t table IntentionWrite locks ∅ = Ok ∅) by (apply IH; intros l' Hin; apply Hl; by right).
  destruct (Hl l) as [->|[Hm [x Hx]]]; [by left|by rewrite Z.eqb_refl|].
  destruct (_ || _); [done|]. unfold get. rewrite Hx. cbn [ok_or bind]. destruct (negb (is_active x)); [done|].
  by destruct (tl_mode l).
Qed.

Lemma conflicting_predicate_none t table keys m locks :
  (forall l, l ∈ locks -> pl_txn_id l = t) -> conflicting_predicate_loop m t table keys locks ∅ = Ok ∅.
Proof.
  induction locks as [|l locks IH]; intros Hl; [done|]. cbn [conflicting_predicate_loop].
  rewrite (Hl l) by (by left). rewrite Z.eqb_refl. cbn. apply IH. intros l' Hin. apply Hl. by right.
Qed.

(** A table lock for writing rows. *)
Lemma table_write_granted t table m :
  unhindered t m -> exists m', acquire_table_intention_write t table m = (Ok tt, m') /\ unhindered t m' /\ same_clock m m'.
Proof.
  intros Hu. unfold acquire_table_intention_write, acquire_table_lock. set (fuel := retry_fuel m).
  assert (Hf : exists f, fuel = S f) by (unfold fuel, retry_fuel; by eexists). destruct Hf as [f ->].
  cbn [acquire_table_lock_fuel]. rewrite st_bind_run. cbn [st_get fst snd]. rewrite (ensure_active_Ok _ _ (way_active _ _ Hu)).
  rewrite st_bind_run. cbn [st_get fst snd]. unfold conflicting_table_lock_txns. rewrite conflicting_table_none by apply Hu.
  rewrite bool_decide_true by done. rewrite st_bind_run. cbn [st_read fst snd]. unfold front.
  rewrite (way_table_queues _ _ Hu), lookup_empty. eexists. split; [reflexivity|]. split; [|done]. destruct Hu as [H1 H2 H3 H4 H5 H6 H7].
  split; cbn; try done.
  - intros l [Hin|Hin]%upsert_lock_elem; [by apply H2|]. left. by subst l.
  - unfold dequeue_front. by rewrite H5, lookup_empty.
Qed.

(** The check against predicate locks. *)
Lemma write_conflicts_granted t table keys m :
  unhindered t m -> exists m', check_write_conflicts t table keys m = (Ok tt, m') /\ unhindered t m' /\ same_clock m m'.
Proof.
  intros Hu. unfold check_write_conflicts. set (fuel := retry_fuel m).
  assert (Hf : exists f, fuel = S f) by (unfold fuel, retry_fuel; by eexists). destruct Hf as [f ->].
  cbn [check_write_conflicts_fuel]. rewrite st_bind_run. cbn [st_get fst snd]. rewrite (ensure_active_Ok _ _ (way_active _ _ Hu)).
  rewrite st_bind_run. cbn [st_get fst snd]. unfold conflicting_predicate_lock_txns. rewrite conflicting_predicate_none by apply Hu.
  rewrite bool_decide_true by done. rewrite st_bind_run. cbn [st_read fst snd]. unfold front.
  rewrite (way_predicate_queues _ _ Hu), lookup_empty. eexists. split; [reflexivity|]. split; [|done]. destruct Hu as [H1 H2 H3 H4 H5 H6 H7].
  split; cbn; try done. unfold dequeue_front. by rewrite H7, lookup_empty.
Qed.

(** Updates of the transaction's own entry. *)
Lemma unhindered_update t f m x :
  unhindered t m -> txns m !! t = Some x -> status (f x) = status x ->
  unhindered t (set_txns (<[t := f x]> (txns m)) m).
Proof.
  intros [(y & Hy & Hay) H2 H3 H4 H5 H6 H7] Hx Hs. split; cbn; try done.
  - exists (f x). cbn. rewrite lookup_insert_eq. split; [done|]. congruence.
  - intros l Hl. destruct (H2 l Hl) as [?|[? Hreg]]; [by left|right]. split; [done|]. unfold registered in *. cbn.
    destruct (decide (tl_txn_id l = t)) as [->|]; [rewrite lookup_insert_eq; by eexists|by rewrite lookup_insert_ne].
Qed.

Lemma own_update_granted t f m :
  unhindered t m -> (forall x, status (f x) = status x) ->
  exists m', update_txn t f m = (Ok tt, m') /\ unhindered t m' /\ next_row_ids m' = next_row_ids m.
Proof.
  intros Hu Hs. destruct (way_active _ _ Hu) as (x & Hx & Hax). unfold update_txn. rewrite st_bind_run. cbn [st_get fst snd].
  unfold get. rewrite Hx. cbn [ok_or st_mod]. eexists. split; [reflexivity|]. split; [by apply unhindered_update|done].
Qed.

Lemma record_undo_granted t record m :
  unhindered t m -> exists m', record_undo t record m = (Ok tt, m') /\ unhindered t m' /\ next_row_ids m' = next_row_ids m.
Proof. intros Hu. by apply own_update_granted. Qed.

(** The row id a transaction gets for a table. *)
Definition fresh_row_id (m : TxnManager) (table : string) (fallback : Z) : RowId :=
  Z.max (default (Z.max fallback 1) (next_row_ids m !! table)) (Z.max fallback 1).

Lemma row_id_granted t table fallback m :
  unhindered t m -> fresh_row_id m table fallback < u64_max ->
  exists m', allocate_row_id t table fallback m = (Ok (fresh_row_id m table fallback), m') /\ unhindered t m'.
Proof.
  intros Hu Hmax. unfold allocate_row_id. rewrite st_bind_run. cbn [st_get fst snd]. rewrite (ensure_active_Ok _ _ (way_active _ _ Hu)).
  rewrite st_bind_run. cbn [st_read fst snd]. fold (fresh_row_id m table fallback). rewrite st_bind_run. cbn [st_mod fst snd].
  rewrite st_bind_run. cbn [st_get fst snd].
  assert (Hadd : u64_add (fresh_row_id m table fallback) 1 = Ok (fresh_row_id m table fallback + 1)).
  { unfold u64_add. destruct (Z.leb_spec (fresh_row_id m table fallback + 1) u64_max); [done|lia]. }
  rewrite Hadd. eexists. split; [reflexivity|]. by destruct Hu.
Qed.
