(* ===== verification/TxnSteps.v ===== *)
(** * The transaction manager as a state machine

    The calls a client makes on a [TxnManager], the states they reach, and the theorems
    about every reachable state: no circular wait, compatible table locks, exclusive page
    writes, and lock requests that always end. *)

From S2P Require Import Prelude Types Ast TxTypes TxnManager WaitGraph TxnRelease TxnLocks TxnRequests.

(** ** Calls *)

Inductive Call :=
  | CBegin (level : IsolationLevel)
  | CBeginWithId (t : Z) (level : IsolationLevel)
  | CReserve (t : Z)
  | CFinalize (t ts : Z)
  | CAbort (t : Z)
  | CRefresh (t : Z)
  | CPurge (horizon : Z)
  | CSyncRowIds (ids : gmap string Z)
  | CAllocRowId (t : Z) (table : string) (fallback : Z)
  | CTableLock (t : Z) (table : string) (mode : TableLockMode)
  | CTableReadLock (t : Z) (table : string)
  | CPredicateLock (t : Z) (table : string) (index : option string) (kind : PredicateLockKind)
  | CWriteConflicts (t : Z) (table : string) (keys : list (string * list Value))
  | CPageWrite (t p : Z)
  | CRelease (t : Z)
  | CReplaceWrites (t : Z) (writes : list PageWriteSetEntry)
  | CRecordUndo (t : Z) (record : UndoRecord)
  | CTakeUndo (t : Z)
  | CClearError (t : Z)
  | CCompletePurge (batch : list (Z * UndoRecord)).

(** Forget the value a call returns. *)
Definition ignore {A} (m : ST TxnManager A) : ST TxnManager unit := let! _ := m in st_ret tt.

Definition perform (c : Call) : ST TxnManager unit :=
  match c with
  | CBegin level => ignore (begin level)
  | CBeginWithId t level => begin_with_id t level
  | CReserve t => ignore (reserve_commit_ts t)
  | CFinalize t ts => finalize_commit t ts
  | CAbort t => abort t
  | CRefresh t => ignore (refresh_snapshot t)
  | CPurge horizon => purge_finished_transactions_up_to horizon
  | CSyncRowIds ids => sync_next_row_ids ids
  | CAllocRowId t table fallback => ignore (allocate_row_id t table fallback)
  | CTableLock t table mode => acquire_table_lock t table mode
  | CTableReadLock t table => acquire_table_read_lock t table
  | CPredicateLock t table index kind => acquire_predicate_lock t (mkPredicateLock t table index kind)
  | CWriteConflicts t table keys => check_write_conflicts t table keys
  | CPageWrite t p => acquire_page_write t p
  | CRelease t => release_transaction_resources t
  | CReplaceWrites t writes => replace_page_write_set t writes
  | CRecordUndo t record => record_undo t record
  | CTakeUndo t => ignore (take_undo_records t)
  | CClearError t => clear_terminal_error t
  | CCompletePurge batch => complete_purge_batch batch
  end.

(** A transaction that holds no lock and waits for nobody. *)
Definition idle (s : TxnManager) (t : Z) : Prop :=
  (forall l, l ∈ table_locks s -> tl_txn_id l <> t) /\
  (forall l, l ∈ predicate_locks s -> pl_txn_id l <> t) /\
  (forall p, page_write_owners s !! p <> Some t) /\
  graph_edges s t = ∅.

(** When a call is made: the counters are short of [u64::MAX], and finished transactions
    are purged after their resources were released, as [FileStorage] does. *)
Definition enabled (c : Call) (s : TxnManager) : Prop :=
  match c with
  | CBeginWithId t _ => t < u64_max
  | CTableLock t _ _ | CTableReadLock t _ | CWriteConflicts t _ _ | CPageWrite t _ => epoch_ok t s
  | CRelease _ => lock_wait_epoch s + 1 <= u64_max
  | CPurge horizon => forall t x, txns s !! t = Some x -> retained_at horizon x = false -> idle s t
  | _ => True
  end.

Inductive reachable : TxnManager -> Prop :=
  | reach_open n : 0 <= n <= u64_max -> reachable (with_next_txn_id n)
  | reach_call s c : reachable s -> enabled c s -> reachable (perform c s).2.

(** ** The invariant is kept *)

Lemma acyclic_no_edges g : (forall u, edges_of g u = ∅) -> acyclic g.
Proof.
  intros Hg a Ha. assert (Hno : forall x y, edge g x y -> False).
  { intros x y. unfold edge. rewrite Hg. set_solver. }
  destruct Ha; eauto.
Qed.

Lemma Inv_open n : Inv (with_next_txn_id n).
Proof.
  split; [|apply acyclic_no_edges; intros u; done].
  split; cbn; try (intros; set_solver).
Qed.

(** An update of a transaction that does not make it active. *)
Lemma update_txn_Inv t f :
  (forall x, id (f x) = id x) -> (forall x, status (f x) = Active -> status x = Active) ->
  preserves Inv (update_txn t f).
Proof.
  intros Hid Hst s HI. unfold update_txn. rewrite st_bind_run. cbn [st_get fst snd]. unfold get.
  destruct (txns s !! t) as [x|] eqn:Hx; [|done]. cbn [ok_or st_mod fst snd]. destruct HI as [HB Ha].
  split; [|done]. set (s1 := set_txns _ s).
  assert (Hreg : forall u, registered s1 u <-> registered s u).
  { intros u. unfold registered. cbn. rewrite lookup_insert_is_Some.
    destruct (decide (t = u)) as [->|]; [|naive_solver]. rewrite Hx. naive_solver. }
  assert (Hact : forall u, active s1 u -> active s u).
  { intros u (y & Hy & Hay). cbn in Hy. apply lookup_insert_Some in Hy as [[<- <-]|[_ Hy]]; [|by exists y].
    exists x. auto. }
  split.
  - intros u y. cbn. rewrite lookup_insert_Some. intros [[<- <-]|[_ Hy]]; [|by apply (base_ids _ HB)].
    rewrite Hid. by apply (base_ids _ HB).
  - apply (base_edges _ HB).
  - intros u Hu. apply Hreg. by apply (base_waiting _ HB).
  - intros l Hl. apply Hreg. by apply (base_table_holders _ HB).
  - intros l Hl. apply Hreg. by apply (base_predicate_holders _ HB).
  - intros p o Hp. apply Hreg. by eapply (base_owners _ HB).
  - intros l1 l2 H1 H2 Hne Ht Ha1 Ha2. apply (base_compatible _ HB); auto.
Qed.

(** A new transaction. *)
Lemma insert_txn_Inv t level s :
  Inv s -> txns s !! t = None -> t < next_txn_id s ->
  Inv (insert_txn t level s).2 /\ (insert_txn t level s).1 = Ok tt.
Proof.
  intros [HB Ha] Hnone Hlt. unfold insert_txn. repeat (rewrite st_bind_run; cbn [st_read st_mod fst snd]).
  split; [|done]. set (s1 := set_waits_for _ _).
  assert (Hk : forall k u, kind_edges k s1 u = kind_edges k s u).
  { intros [] u; unfold kind_edges; simpl; by rewrite edges_of_or_default. }
  assert (Hg : forall u, graph_edges s1 u = graph_edges s u).
  { intros u. unfold graph_edges. simpl. by rewrite edges_of_or_default. }
  assert (Hreg : forall u, registered s u -> registered s1 u).
  { intros u Hu. unfold registered. cbn. rewrite lookup_insert_is_Some. destruct (decide (t = u)); auto. }
  assert (Hact : forall u, registered s u -> active s1 u -> active s u).
  { intros u Hu (y & Hy & Hay). cbn in Hy. apply lookup_insert_Some in Hy as [[<- <-]|[_ Hy]]; [|by exists y].
    unfold registered in Hu. rewrite Hnone in Hu. by destruct Hu. }
  split.
  - split.
    + intros u x. cbn. rewrite lookup_insert_Some. intros [[<- <-]|[_ Hx]]; [done|by apply (base_ids _ HB)].
    + intros u. rewrite Hg, base_edges by done. unfold all_kinds. by rewrite !Hk.
    + intros u. rewrite Hg. intros Hu. by apply Hreg, base_waiting.
    + intros l Hl. by apply Hreg, (base_table_holders _ HB).
    + intros l Hl. by apply Hreg, (base_predicate_holders _ HB).
    + intros p o Hp. by eapply Hreg, (base_owners _ HB).
    + intros l1 l2 H1 H2 Hne Ht Ha1 Ha2.
      apply (base_compatible _ HB); [done..| |]; apply Hact; auto; by apply (base_table_holders _ HB).
  - eapply acyclic_mono; [|exact Ha]. intros a b. rewrite !graph_edge. by rewrite Hg.
Qed.

Lemma set_next_txn_id_Inv n s : Inv s -> next_txn_id s <= n -> Inv (set_next_txn_id n s).
Proof.
  intros [HB Ha] Hn. split; [|done]. split; try apply HB.
  intros u x Hx. destruct (base_ids _ HB u x Hx). split; [done|]. cbn. lia.
Qed.

Lemma fresh_txn s n : Inv s -> next_txn_id s <= n -> txns s !! n = None.
Proof.
  intros [HB _] Hn. destruct (txns s !! n) as [x|] eqn:Hx; [|done].
  destruct (base_ids _ HB _ _ Hx). lia.
Qed.

Lemma begin_Inv level : preserves Inv (begin level).
Proof.
  intros s HI. unfold begin. rewrite st_bind_run. cbn [st_read fst snd].
  rewrite st_bind_run. cbn [st_get fst snd]. unfold u64_add.
  destruct (_ <=? _); [|done]. rewrite st_bind_run. cbn [st_mod fst snd]. rewrite st_bind_run.
  set (n := Z.max (next_txn_id s) 1).
  destruct (insert_txn_Inv n level (set_next_txn_id (n + 1) s)) as [HI' ->].
  - apply set_next_txn_id_Inv; [done|lia].
  - change (txns s !! n = None). apply fresh_txn; [done|lia].
  - cbn. lia.
  - exact HI'.
Qed.

Lemma begin_with_id_Inv t level s : t < u64_max -> Inv s -> Inv (begin_with_id t level s).2.
Proof.
  intros Ht HI. unfold begin_with_id. rewrite st_bind_run. cbn [st_read fst snd].
  case_bool_decide as Hr; [done|]. rewrite st_bind_run. cbn [st_mod fst snd].
  apply insert_txn_Inv.
  - apply set_next_txn_id_Inv; [done|lia].
  - cbn. by apply eq_None_not_Some.
  - cbn. unfold saturating_add64. lia.
Qed.

(** Updates the invariant does not look at. *)
Lemma core_Inv s s' : core s = core s' -> Inv s -> Inv s'.
Proof.
  intros Hc [HB Ha]. split; [by eapply core_Base|].
  unfold core in Hc. by replace (waits_for s') with (waits_for s) by congruence.
Qed.

Lemma update_get_Inv {A} t f (k : unit -> ST TxnManager A) :
  (forall x, id (f x) = id x) -> (forall x, status (f x) = Active -> status x = Active) ->
  (forall u, preserves Inv (k u)) -> preserves Inv (st_bind (update_txn t f) k).
Proof. intros. apply preserves_bind; [by apply update_txn_Inv|done]. Qed.

#[export] Hint Resolve update_txn_Inv update_get_Inv begin_Inv : preserves_db.

Lemma reserve_Inv t : preserves Inv (reserve_commit_ts t).
Proof. unfold reserve_commit_ts. preserve. apply preserves_mod. intros s. by apply core_Inv. Qed.

Lemma finalize_Inv t ts : preserves Inv (finalize_commit t ts).
Proof. unfold finalize_commit. preserve; apply update_txn_Inv; done. Qed.

Lemma abort_Inv t : preserves Inv (abort t).
Proof. unfold abort. preserve; apply update_txn_Inv; done. Qed.

Lemma refresh_Inv t : preserves Inv (refresh_snapshot t).
Proof. unfold refresh_snapshot. preserve; apply update_txn_Inv; done. Qed.

Lemma allocate_row_id_Inv t table fallback : preserves Inv (allocate_row_id t table fallback).
Proof. unfold allocate_row_id. preserve; apply preserves_mod; intros s; by apply core_Inv. Qed.

Lemma sync_Inv ids : preserves Inv (sync_next_row_ids ids).
Proof. unfold sync_next_row_ids. apply preserves_mod. intros s. by apply core_Inv. Qed.

Lemma complete_purge_Inv batch : preserves Inv (complete_purge_batch batch).
Proof.
  induction batch as [|[t r] batch IH]; cbn [complete_purge_batch]; [apply preserves_ret|].
  preserve. all: try apply update_txn_Inv; try done.
Qed.

(** A finished, idle transaction is forgotten. *)
Lemma purge_Inv horizon s :
  (forall t x, txns s !! t = Some x -> retained_at horizon x = false -> idle s t) ->
  Inv s -> Inv (purge_finished_transactions_up_to horizon s).2.
Proof.
  intros Hidle [HB Ha]. split; [|done]. cbn [purge_finished_transactions_up_to st_mod fst snd].
  set (s1 := set_txns _ s).
  assert (Hreg : forall u, registered s u -> ~ idle s u -> registered s1 u).
  { intros u [x Hx] Hn. exists x. cbn. apply map_lookup_filter_Some. split; [done|].
    destruct (retained_at horizon x) eqn:E; [done|]. destruct Hn. by eapply Hidle. }
  assert (Hact : forall u, active s1 u -> active s u).
  { intros u (x & Hx & Hax). cbn in Hx. apply map_lookup_filter_Some in Hx as [Hx _]. by exists x. }
  split; try apply HB.
  - intros u x. cbn. rewrite map_lookup_filter_Some. intros [Hx _]. by apply (base_ids _ HB).
  - intros u Hu. apply Hreg; [by apply base_waiting|]. by intros (_ & _ & _ & Hg).
  - intros l Hl. apply Hreg; [by apply (base_table_holders _ HB)|]. intros (Hi & _). by apply (Hi l).
  - intros l Hl. apply Hreg; [by apply (base_predicate_holders _ HB)|]. intros (_ & Hi & _). by apply (Hi l).
  - intros p o Hp. apply Hreg; [by eapply (base_owners _ HB)|]. intros (_ & _ & Hi & _). by apply (Hi p).
  - intros l1 l2 H1 H2 Hne Ht Ha1 Ha2. apply (base_compatible _ HB); auto.
Qed.

(** ** Lock requests keep it *)

Lemma ensure_active_Err s t : ~ active s t -> exists e, ensure_active s t = Err e.
Proof.
  intros Hn. unfold ensure_active, get. destruct (txns s !! t) as [x|] eqn:Hx; cbn [ok_or bind]; [|by eexists].
  destruct (is_active x) eqn:Ea; [|by eexists]. destruct Hn. exists x. split; [done|by apply is_active_true].
Qed.

Lemma active_registered s t : active s t -> registered s t.
Proof. intros (x & Hx & _). by exists x. Qed.

#[export] Instance active_dec s t : Decision (active s t).
Proof.
  destruct (txns s !! t) as [x|] eqn:Hx.
  - destruct (decide (status x = Active)) as [Ha|Ha]; [left; by exists x|right].
    intros (y & Hy & Hay). congruence.
  - right. intros (y & Hy & _). congruence.
Defined.

(** What the outcome of a request is, the inactive requester included. *)
Definition request_outcome (t : Z) (granted queued : TxnManager -> Prop) (s : TxnManager)
    (rs : Result unit * TxnManager) : Prop :=
  Inv rs.2 /\ keeps t s rs.2 /\
  match rs.1 with
  | Ok _ => granted rs.2
  | Err e => (~ active s t /\ rs.2 = s) \/ deadlock_victim t e rs.2 \/
             (active rs.2 t /\ queued rs.2 /\ graph_edges rs.2 t <> ∅)
  | Panic _ | OutOfFuel => False
  end.

Lemma outcome_request t granted queued s rs :
  outcome t granted queued s rs -> request_outcome t granted queued s rs.
Proof. intros (HI & Hk & Ho). split; [done|]. split; [done|]. destruct rs.1; tauto. Qed.

Lemma retry_fuel_ok t s : (size (waiters t s) < retry_fuel s)%nat.
Proof.
  unfold retry_fuel, waiters. apply Nat.lt_succ_r. apply subseteq_size. intros u Hu.
  by apply elem_of_filter in Hu as [_ ?].
Qed.

Lemma table_request t table mode s :
  Inv s -> epoch_ok t s ->
  request_outcome t (fun s' => active s' t /\ holds_table t table mode s') (queued_for_table t table) s
    (acquire_table_lock t table mode s).
Proof.
  intros HI He. unfold acquire_table_lock. destruct (decide (active s t)) as [Ha|Hn].
  - apply outcome_request, acquire_table_lock_loop; [|done..|apply retry_fuel_ok].
    apply pending_intro; [done|by apply active_registered].
  - destruct (ensure_active_Err s t Hn) as [e Hr]. unfold retry_fuel. cbn [acquire_table_lock_fuel].
    rewrite st_bind_run. cbn [st_get fst snd]. rewrite Hr. split; [done|]. split; [apply keeps_refl|by left].
Qed.

Lemma predicate_request t table keys s :
  Inv s -> epoch_ok t s ->
  request_outcome t (write_allowed t table keys) (queued_for_predicate t table keys) s
    (check_write_conflicts t table keys s).
Proof.
  intros HI He. unfold check_write_conflicts. destruct (decide (active s t)) as [Ha|Hn].
  - apply outcome_request, check_write_conflicts_loop; [|done..|apply retry_fuel_ok].
    apply pending_intro; [done|by apply active_registered].
  - destruct (ensure_active_Err s t Hn) as [e Hr]. unfold retry_fuel. cbn [check_write_conflicts_fuel].
    rewrite st_bind_run. cbn [st_get fst snd]. rewrite Hr. split; [done|]. split; [apply keeps_refl|by left].
Qed.

Lemma page_request t p s :
  Inv s -> epoch_ok t s ->
  request_outcome t (fun s' => page_write_owners s' !! p = Some t) (queued_for_page t p) s
    (acquire_page_write t p s).
Proof.
  intros HI He. unfold acquire_page_write. destruct (decide (active s t)) as [Ha|Hn].
  - destruct (acquire_page_write_loop t p (retry_fuel s) s) as (H1 & H2 & H3); [|done..|apply retry_fuel_ok|].
    + apply pending_intro; [done|by apply active_registered].
    + split; [done|]. split; [done|]. destruct (acquire_page_write_fuel _ _ _ _).1; tauto.
  - destruct (decide (page_write_owners s !! p = Some t)) as [Hown|Hown].
    + destruct (acquire_page_write_owned t p (size (dom (waits_for s))) s) as (s' & Hr & H1 & H2 & H3);
        [done|by eapply (base_owners _ (proj1 HI))|done|].
      unfold retry_fuel. rewrite Hr. by split.
    + destruct (ensure_active_Err s t Hn) as [e Hr]. unfold retry_fuel. cbn [acquire_page_write_fuel].
      rewrite st_bind_run. cbn [st_read fst snd]. destruct (page_write_owners s !! p) as [o|] eqn:Eo.
      * destruct (Z.eqb_spec o t) as [->|Hne]; [done|]. rewrite st_bind_run. cbn [st_get fst snd].
        rewrite Hr. split; [done|]. split; [apply keeps_refl|by left].
      * rewrite st_bind_run. cbn [st_get fst snd]. rewrite Hr. split; [done|]. split; [apply keeps_refl|by left].
Qed.

Lemma predicate_lock_Inv t table index kind :
  preserves Inv (acquire_predicate_lock t (mkPredicateLock t table index kind)).
Proof.
  intros s HI. unfold acquire_predicate_lock. rewrite st_bind_run. cbn [st_get fst snd].
  unfold get_isolation_level, get. destruct (txns s !! t) as [x|] eqn:Hx; [|done]. cbn [ok_or bind].
  case_bool_decide; cbn [negb]; [|done]. rewrite st_bind_run. cbn [st_read fst snd].
  destruct (existsb _ _); cbn [negb]; [done|]. cbn [st_mod fst snd]. destruct HI as [HB Ha].
  split; [|done]. split; try apply HB.
  intros l. cbn. rewrite elem_of_app, list_elem_of_singleton. intros [Hl| ->]; [by apply (base_predicate_holders _ HB)|].
  by exists x.
Qed.

Lemma release_Inv t s : Inv s -> lock_wait_epoch s + 1 <= u64_max -> Inv (release_transaction_resources t s).2.
Proof.
  intros HI He. destruct (txns s !! t) as [x|] eqn:Hx.
  - destruct (release_run t s) as (s' & -> & Hrel); [by eexists|done|]. cbn [snd].
    assert (Hr : registered s t) by by exists x.
    assert (Hg : forall u, graph_edges s' u = if bool_decide (u = t) then ∅ else graph_edges s u ∖ {[t]}).
    { intros u. rewrite (rel_graph _ _ _ Hrel). case_bool_decide; [done|]. rewrite <- (base_edges _ (proj1 HI)).
      case_bool_decide as Hs; [done|]. destruct (decide (graph_edges s u = ∅)) as [->|Hne]; [set_solver|].
      destruct Hs. by apply (base_waiting _ (proj1 HI)). }
    split.
    + (* the base invariant, as for a deadlock victim *)
      destruct HI as [HB _]. pose proof (rel_txns _ _ _ Hrel) as Et.
      split; unfold registered, active; rewrite ?Et, ?(rel_table_locks _ _ _ Hrel), ?(rel_predicate_locks _ _ _ Hrel),
        ?(rel_owners _ _ _ Hrel), ?(rel_next_txn_id _ _ _ Hrel).
      * apply (base_ids _ HB).
      * intros u. unfold all_kinds. rewrite Hg, !(rel_kinds _ _ _ Hrel), base_edges by done. unfold all_kinds.
        case_bool_decide; [set_solver|]. case_bool_decide as Hs; [set_solver|].
        assert (Hz : graph_edges s u = ∅).
        { destruct (decide (graph_edges s u = ∅)); [done|]. destruct Hs. by apply base_waiting. }
        rewrite base_edges in Hz by done. unfold all_kinds in Hz. set_solver.
      * intros u. rewrite Hg. case_bool_decide; [done|]. intros Hu. apply (base_waiting _ HB). set_solver.
      * intros l. rewrite list_elem_of_In, List.filter_In, <- list_elem_of_In. intros [Hl _].
        by apply (base_table_holders _ HB).
      * intros l. rewrite list_elem_of_In, List.filter_In, <- list_elem_of_In. intros [Hl _].
        by apply (base_predicate_holders _ HB).
      * intros p o. rewrite map_lookup_filter_Some. intros [Hp _]. by eapply (base_owners _ HB).
      * intros l1 l2. rewrite !list_elem_of_In, !List.filter_In, <- !list_elem_of_In. intros [H1 _] [H2 _].
        by apply (base_compatible _ HB).
    + eapply acyclic_mono; [|apply HI]. intros a b. rewrite !graph_edge, Hg. case_bool_decide; set_solver.
  - unfold release_transaction_resources. rewrite st_bind_run. cbn [st_get fst snd]. unfold get. by rewrite Hx.
Qed.

Lemma ignore_Inv {A} (m : ST TxnManager A) : preserves Inv m -> preserves Inv (ignore m).
Proof. intros Hm. unfold ignore. by preserve. Qed.

Lemma perform_Inv c s : Inv s -> enabled c s -> Inv (perform c s).2.
Proof.
  intros HI He. destruct c; cbn [perform enabled] in *.
  - by apply ignore_Inv; [apply begin_Inv|].
  - by apply begin_with_id_Inv.
  - by apply ignore_Inv; [apply reserve_Inv|].
  - by apply finalize_Inv.
  - by apply abort_Inv.
  - by apply ignore_Inv; [apply refresh_Inv|].
  - by apply purge_Inv.
  - by apply sync_Inv.
  - by apply ignore_Inv; [apply allocate_row_id_Inv|].
  - by apply table_request.
  - unfold acquire_table_read_lock, acquire_table_intention_read. rewrite st_bind_run.
    destruct (table_request t table IntentionRead s HI He) as (HI' & _).
    destruct (acquire_table_lock t table IntentionRead s) as [[[]| | |] s']; try done. by apply predicate_lock_Inv.
  - by apply predicate_lock_Inv.
  - by apply predicate_request.
  - by apply page_request.
  - by apply release_Inv.
  - by apply update_txn_Inv.
  - by apply update_txn_Inv.
  - unfold take_undo_records. apply ignore_Inv; [|done]. preserve.
  - by apply update_txn_Inv.
  - by apply complete_purge_Inv.
Qed.

Lemma reachable_Inv s : reachable s -> Inv s.
Proof. induction 1; [apply Inv_open|by apply perform_Inv]. Qed.

(** ** Queues after a release *)

Section RemoveQueues.
Context {K : Type} `{Countable K} (t : Z).

Definition drop_waiter (queue : list Z) : option (list Z) :=
  let queue := filter (fun queued => queued <> t) queue in
  if bool_decide (queue = []) then None else Some queue.

Lemma remove_fold_lookup keys (queues : gmap K (list Z)) k :
  NoDup keys ->
  fold_left (fun queues key =>
    match queues !! key with
    | Some queue =>
        let queue := filter (fun queued => queued <> t) queue in
        if bool_decide (queue = []) then delete key queues else <[key := queue]> queues
    | None => queues
    end) keys queues !! k =
  if bool_decide (k ∈ keys) then queues !! k ≫= drop_waiter else queues !! k.
Proof.
  intros Hnd. revert queues. induction Hnd as [|key keys Hk Hnd IH]; intros queues; [done|].
  cbn [fold_left]. rewrite IH. clear IH. unfold drop_waiter.
  destruct (decide (k = key)) as [->|Hne].
  - rewrite bool_decide_false by done. rewrite (bool_decide_true (key ∈ key :: keys)) by apply list_elem_of_here.
    destruct (queues !! key) as [q|] eqn:E; cbn; [|by rewrite E].
    case_bool_decide; [by rewrite lookup_delete_eq|by rewrite lookup_insert_eq].
  - assert (Hiff : k ∈ key :: keys <-> k ∈ keys) by (rewrite elem_of_cons; naive_solver).
    rewrite (bool_decide_ext _ _ Hiff). destruct (queues !! key) as [q|]; [|done].
    cbv zeta. destruct (bool_decide (filter _ q = [])); [by rewrite !lookup_delete_ne by done|by rewrite !lookup_insert_ne by done].
Qed.

Lemma remove_from_queues_lookup (queues : gmap K (list Z)) k :
  remove_from_queues t queues !! k =
  match queues !! k with
  | Some queue => if bool_decide (t ∈ queue) then drop_waiter queue else Some queue
  | None => None
  end.
Proof.
  unfold remove_from_queues. rewrite remove_fold_lookup.
  2:{ pose proof (NoDup_fst_map_to_list queues) as Hnd. revert Hnd. generalize (map_to_list queues). intros l.
      induction l as [|a l IH]; [done|]. rewrite filter_cons. rewrite fmap_cons, NoDup_cons. intros [Hn Hd].
      case_decide; [|by apply IH]. cbn [map]. apply NoDup_cons. split; [|by apply IH].
      intros Hin. apply Hn. apply list_elem_of_In, in_map_iff in Hin as (b & <- & Hb).
      apply list_elem_of_fmap. exists b. split; [done|].
      by apply list_elem_of_In, list_elem_of_filter in Hb as [_ Hb]. }
  set (ks := map fst _).
  assert (Hk : k ∈ ks <-> exists q, queues !! k = Some q /\ t ∈ q).
  { unfold ks. rewrite list_elem_of_fmap. split.
    - intros ([k' q] & -> & [Hq Hin]%list_elem_of_filter). apply elem_of_map_to_list in Hin.
      by exists q.
    - intros (q & Hq & Ht). exists (k, q). split; [done|]. apply list_elem_of_filter. split; [done|].
      by apply elem_of_map_to_list. }
  destruct (queues !! k) as [q|] eqn:Eq; case_bool_decide as H1; rewrite Hk in H1; [| |done|done].
  - destruct H1 as (q' & [= <-] & Ht). by rewrite bool_decide_true.
  - rewrite bool_decide_false; [done|]. intros Ht. apply H1. by exists q.
Qed.

(** Nobody else moves, and [t] is in no queue. *)
Lemma remove_from_queues_spec (queues : gmap K (list Z)) k u :
  u ∈ default [] (remove_from_queues t queues !! k) <-> u <> t /\ u ∈ default [] (queues !! k).
Proof.
  rewrite remove_from_queues_lookup. destruct (queues !! k) as [q|]; [|set_solver].
  case_bool_decide as Ht; cbn [default].
  - unfold drop_waiter. case_bool_decide as He; cbn [default].
    + assert (Hn : u ∉ filter (fun queued => queued <> t) q) by (rewrite He; set_solver).
      rewrite list_elem_of_filter in Hn. set_solver.
    + unfold Datatypes.id. by rewrite list_elem_of_filter.
  - cbn. split; [|tauto]. intros Hu. split; [|done]. by intros ->.
Qed.
End RemoveQueues.

(** ** Theorems *)

(** Two transactions under way, used by the examples below. *)
Definition two_txns : TxnManager :=
  (perform (CBegin RepeatableRead) (perform (CBegin ReadCommitted) new).2).2.

(** The first writes page 5, the second waits for it. *)
Definition one_waits : TxnManager :=
  (perform (CPageWrite 2 5) (perform (CPageWrite 1 5) two_txns).2).2.

Lemma two_txns_reachable : reachable two_txns.
Proof. do 2 (apply reach_call; [|exact I]). by apply (reach_open 1). Qed.

Lemma one_waits_reachable : reachable one_waits.
Proof.
  do 2 (apply reach_call; [|vm_compute; discriminate]). apply two_txns_reachable.
Qed.

(** C19: no deadlock is ever left standing. In every reachable state the waits-for graph is
    acyclic, it is exactly the union of the table, page and predicate wait edges, and only
    registered transactions wait. *)
Theorem no_circular_wait (s : TxnManager) :
  reachable s ->
  acyclic (waits_for s) /\ (forall u, graph_edges s u = all_kinds s u) /\
  (forall u, graph_edges s u <> ∅ -> registered s u).
Proof.
  intros Hr. destruct (reachable_Inv s Hr) as [HB Ha]. split; [done|]. split; apply HB.
Qed.

Lemma no_circular_wait_witness :
  graph_edges one_waits 2 = {[1]} /\
  acyclic (waits_for one_waits) /\ (forall u, graph_edges one_waits u = all_kinds one_waits u) /\
  (forall u, graph_edges one_waits u <> ∅ -> registered one_waits u).
Proof. split; [by vm_compute|]. apply (no_circular_wait one_waits one_waits_reachable). Defined.



(** C24: table locks are mutually compatible. In every reachable state, two active
    transactions holding locks on the same table hold intention locks both: an exclusive
    lock excludes every other active holder. *)
Theorem table_locks_exclude (s : TxnManager) (l1 l2 : TableLock) :
  reachable s -> l1 ∈ table_locks s -> l2 ∈ table_locks s ->
  tl_txn_id l1 <> tl_txn_id l2 -> tl_table l1 = tl_table l2 ->
  active s (tl_txn_id l1) -> active s (tl_txn_id l2) ->
  tl_mode l1 <> Exclusive /\ tl_mode l2 <> Exclusive.
Proof.
  intros Hr H1 H2 Hne Ht Ha1 Ha2.
  pose proof (base_compatible _ (proj1 (reachable_Inv s Hr)) l1 l2 H1 H2 Hne Ht Ha1 Ha2) as Hc.
  by destruct (tl_mode l1), (tl_mode l2).
Qed.

Definition two_readers : TxnManager :=
  (perform (CTableLock 2 "t" IntentionWrite) (perform (CTableLock 1 "t" IntentionRead) two_txns).2).2.

Lemma two_readers_reachable : reachable two_readers.
Proof. do 2 (apply reach_call; [|vm_compute; discriminate]). apply two_txns_reachable. Qed.

Lemma table_locks_exclude_witness :
  table_locks two_readers = [mkTableLock 1 "t" IntentionRead; mkTableLock 2 "t" IntentionWrite] /\
  IntentionRead <> Exclusive /\ IntentionWrite <> Exclusive.
Proof.
  split; [by vm_compute|].
  apply (table_locks_exclude two_readers (mkTableLock 1 "t" IntentionRead) (mkTableLock 2 "t" IntentionWrite)).
  - apply two_readers_reachable.
  - by_compute.
  - by_compute.
  - done.
  - done.
  - by_compute.
  - by_compute.
Defined.

(** C22: table lock requests. In any reachable state a request ends (it neither panics nor
    retries for ever), takes no lock away from a transaction that stays active, and: on
    success the requester holds the table at least in the mode asked for and every other
    active holder's lock is compatible with it; on failure it was not active and nothing
    changed, or it was chosen as deadlock victim, is aborted with that error and holds
    nothing any more, or it is queued for the table and waits for somebody. *)
Theorem acquire_table_lock_correct (s : TxnManager) (t : Z) (table : string) (mode : TableLockMode) :
  reachable s -> epoch_ok t s ->
  let rs := acquire_table_lock t table mode s in
  keeps t s rs.2 /\ acyclic (waits_for rs.2) /\
  match rs.1 with
  | Ok _ =>
      active rs.2 t /\ holds_table t table mode rs.2 /\
      forall l, l ∈ table_locks rs.2 -> tl_txn_id l <> t -> tl_table l = table -> active rs.2 (tl_txn_id l) ->
        table_lock_modes_conflict (tl_mode l) mode = false
  | Err e => (~ active s t /\ rs.2 = s) \/ deadlock_victim t e rs.2 \/
             (active rs.2 t /\ queued_for_table t table rs.2 /\ graph_edges rs.2 t <> ∅)
  | _ => False
  end.
Proof.
  intros Hr He rs. destruct (table_request t table mode s (reachable_Inv s Hr) He) as (HI & Hk & Ho). fold rs in HI, Hk, Ho.
  split; [done|]. split; [apply HI|]. destruct rs.1; try done. destruct Ho as [Ha Hh]. split; [done|]. split; [done|].
  intros l Hl Hne Ht Hla. destruct Hh as (l0 & Hl0 & H1 & H2 & H3).
  destruct (table_lock_modes_conflict (tl_mode l) mode) eqn:Ec; [|done].
  pose proof (base_compatible _ (proj1 HI) l0 l Hl0 Hl) as Hc. rewrite H1 in Hc.
  rewrite modes_conflict_sym in Ec. rewrite (modes_conflict_mono _ _ _ H3 Ec) in Hc.
  exfalso. discriminate Hc; congruence || done.
Qed.

Lemma acquire_table_lock_correct_witness :
  let rs := acquire_table_lock 2 "t" Exclusive two_readers in
  keeps 2 two_readers rs.2 /\ acyclic (waits_for rs.2) /\
  match rs.1 with
  | Ok _ =>
      active rs.2 2 /\ holds_table 2 "t" Exclusive rs.2 /\
      forall l, l ∈ table_locks rs.2 -> tl_txn_id l <> 2 -> tl_table l = "t"%string -> active rs.2 (tl_txn_id l) ->
        table_lock_modes_conflict (tl_mode l) Exclusive = false
  | Err e => (~ active two_readers 2 /\ rs.2 = two_readers) \/ deadlock_victim 2 e rs.2 \/
             (active rs.2 2 /\ queued_for_table 2 "t" rs.2 /\ graph_edges rs.2 2 <> ∅)
  | _ => False
  end.
Proof. apply (acquire_table_lock_correct two_readers 2 "t" Exclusive two_readers_reachable). vm_compute. discriminate. Defined.

(** C21: page write locks. A request ends; a page has one owner, and the request takes no
    page from an owner that stays active; on success the requester owns the page; on
    failure it was not active and nothing changed, or it was the deadlock victim and owns
    nothing any more, or it is queued for the page and waits for somebody. *)
Theorem acquire_page_write_correct (s : TxnManager) (t p : Z) :
  reachable s -> epoch_ok t s ->
  let rs := acquire_page_write t p s in
  (forall q o, o <> t -> active rs.2 o -> page_write_owners s !! q = Some o -> page_write_owners rs.2 !! q = Some o) /\
  acyclic (waits_for rs.2) /\
  match rs.1 with
  | Ok _ => page_write_owners rs.2 !! p = Some t
  | Err e => (~ active s t /\ rs.2 = s) \/ deadlock_victim t e rs.2 \/
             (active rs.2 t /\ queued_for_page t p rs.2 /\ graph_edges rs.2 t <> ∅)
  | _ => False
  end.
Proof.
  intros Hr He rs. destruct (page_request t p s (reachable_Inv s Hr) He) as (HI & Hk & Ho). fold rs in HI, Hk, Ho.
  split; [apply (keeps_owners _ _ _ Hk)|]. split; [apply HI|done].
Qed.

(** The first transaction owns page 5, and the second, which owns page 6, waits for it;
    the first then asks for page 6. *)
Definition crossing : TxnManager :=
  (perform (CPageWrite 2 5) (perform (CPageWrite 2 6) (perform (CPageWrite 1 5) two_txns).2).2).2.

Lemma crossing_reachable : reachable crossing.
Proof. do 3 (apply reach_call; [|vm_compute; discriminate]). apply two_txns_reachable. Qed.

Lemma acquire_page_write_correct_witness :
  let rs := acquire_page_write 1 6 crossing in
  rs.1 = Ok tt /\
  (forall q o, o <> 1 -> active rs.2 o -> page_write_owners crossing !! q = Some o -> page_write_owners rs.2 !! q = Some o) /\
  acyclic (waits_for rs.2) /\
  match rs.1 with
  | Ok _ => page_write_owners rs.2 !! 6 = Some 1
  | Err e => (~ active crossing 1 /\ rs.2 = crossing) \/ deadlock_victim 1 e rs.2 \/
             (active rs.2 1 /\ queued_for_page 1 6 rs.2 /\ graph_edges rs.2 1 <> ∅)
  | _ => False
  end.
Proof.
  split; [by vm_compute|]. apply (acquire_page_write_correct crossing 1 6 crossing_reachable). vm_compute. discriminate.
Defined.

(** C23: serializable writes. The check ends; it lets an active transaction write only
    where no other active transaction holds a predicate lock covering the write; on
    failure the requester was not active and nothing changed, or it was the deadlock
    victim, or it is queued behind the write and waits for somebody. *)
Theorem check_write_conflicts_correct (s : TxnManager) (t : Z) (table : string)
    (keys : list (string * list Value)) :
  reachable s -> epoch_ok t s ->
  let rs := check_write_conflicts t table keys s in
  keeps t s rs.2 /\ acyclic (waits_for rs.2) /\
  match rs.1 with
  | Ok _ => write_allowed t table keys rs.2
  | Err e => (~ active s t /\ rs.2 = s) \/ deadlock_victim t e rs.2 \/
             (active rs.2 t /\ queued_for_predicate t table keys rs.2 /\ graph_edges rs.2 t <> ∅)
  | _ => False
  end.
Proof.
  intros Hr He rs. destruct (predicate_request t table keys s (reachable_Inv s Hr) He) as (HI & Hk & Ho).
  fold rs in HI, Hk, Ho. split; [done|]. split; [apply HI|done].
Qed.

(** A serializable transaction has locked the keys of index [i] from 3 on. *)
Definition range_locked : TxnManager :=
  (perform (CPredicateLock 3 "t" (Some "i"%string) (PNextKey [] (Some (OpGte, Integer 3)) None))
     (perform (CBegin Serializable) two_txns).2).2.

Lemma range_locked_reachable : reachable range_locked.
Proof. do 2 (apply reach_call; [|exact I]). apply two_txns_reachable. Qed.

Lemma check_write_conflicts_correct_witness :
  let rs := check_write_conflicts 1 "t" [("i"%string, [Integer 5])] range_locked in
  is_err rs.1 = true /\
  keeps 1 range_locked rs.2 /\ acyclic (waits_for rs.2) /\
  match rs.1 with
  | Ok _ => write_allowed 1 "t" [("i"%string, [Integer 5])] rs.2
  | Err e => (~ active range_locked 1 /\ rs.2 = range_locked) \/ deadlock_victim 1 e rs.2 \/
             (active rs.2 1 /\ queued_for_predicate 1 "t" [("i"%string, [Integer 5])] rs.2 /\ graph_edges rs.2 1 <> ∅)
  | _ => False
  end.
Proof.
  split; [by vm_compute|].
  apply (check_write_conflicts_correct range_locked 1 "t" [("i"%string, [Integer 5])] range_locked_reachable). vm_compute. discriminate.
Defined.

(** Releasing a transaction. Its locks, page ownerships, queue entries and wait edges
    are gone, nobody waits for it any more, the locks, queue entries and waits of the
    others are untouched, and the waiters are notified (the epoch advances). *)
Theorem release_transaction_resources_correct (s : TxnManager) (t : Z) :
  reachable s -> registered s t -> lock_wait_epoch s < u64_max ->
  exists s', release_transaction_resources t s = (Ok tt, s') /\ idle s' t /\
    (forall l, l ∈ table_locks s' <-> l ∈ table_locks s /\ tl_txn_id l <> t) /\
    (forall l, l ∈ predicate_locks s' <-> l ∈ predicate_locks s /\ pl_txn_id l <> t) /\
    (forall p o, page_write_owners s' !! p = Some o <-> page_write_owners s !! p = Some o /\ o <> t) /\
    (forall table u, queued_for_table u table s' <-> u <> t /\ queued_for_table u table s) /\
    (forall p u, queued_for_page u p s' <-> u <> t /\ queued_for_page u p s) /\
    (forall u, u <> t -> graph_edges s' u = graph_edges s u ∖ {[t]}) /\
    txns s' = txns s /\ lock_wait_epoch s' = lock_wait_epoch s + 1.
Proof.
  intros Hr Hreg He. destruct (reachable_Inv s Hr) as [HB _].
  destruct (release_run t s Hreg) as (s' & Hrun & Hrel); [lia|]. exists s'. split; [done|].
  assert (Hg : forall u, graph_edges s' u = if bool_decide (u = t) then ∅ else graph_edges s u ∖ {[t]}).
  { intros u. rewrite (rel_graph _ _ _ Hrel). case_bool_decide; [done|]. rewrite <- (base_edges _ HB).
    case_bool_decide as Hs; [done|]. destruct (decide (graph_edges s u = ∅)) as [->|Hne]; [set_solver|].
    destruct Hs. by apply (base_waiting _ HB). }
  assert (Htl : forall l, l ∈ table_locks s' <-> l ∈ table_locks s /\ tl_txn_id l <> t).
  { intros l. rewrite (rel_table_locks _ _ _ Hrel), list_elem_of_In, List.filter_In, <- list_elem_of_In.
    by rewrite negb_true_iff, Z.eqb_neq. }
  assert (Hpl : forall l, l ∈ predicate_locks s' <-> l ∈ predicate_locks s /\ pl_txn_id l <> t).
  { intros l. rewrite (rel_predicate_locks _ _ _ Hrel), list_elem_of_In, List.filter_In, <- list_elem_of_In.
    by rewrite negb_true_iff, Z.eqb_neq. }
  assert (Hpo : forall p o, page_write_owners s' !! p = Some o <-> page_write_owners s !! p = Some o /\ o <> t).
  { intros p o. by rewrite (rel_owners _ _ _ Hrel), map_lookup_filter_Some. }
  split.
  { split_and!.
    - intros l Hl. by apply Htl in Hl as [_ ?].
    - intros l Hl. by apply Hpl in Hl as [_ ?].
    - intros p Hp. by apply Hpo in Hp as [_ ?].
    - by rewrite Hg, bool_decide_true. }
  split; [done|]. split; [done|]. split; [done|]. split.
  { intros table u. unfold queued_for_table. rewrite (rel_table_queues _ _ _ Hrel). apply remove_from_queues_spec. }
  split.
  { intros p u. unfold queued_for_page. rewrite (rel_page_queues _ _ _ Hrel). apply remove_from_queues_spec. }
  split; [intros u Hu; by rewrite Hg, bool_decide_false|]. split; apply Hrel.
Qed.

Lemma release_transaction_resources_correct_witness :
  exists s', release_transaction_resources 1 one_waits = (Ok tt, s') /\ idle s' 1 /\
    (forall l, l ∈ table_locks s' <-> l ∈ table_locks one_waits /\ tl_txn_id l <> 1) /\
    (forall l, l ∈ predicate_locks s' <-> l ∈ predicate_locks one_waits /\ pl_txn_id l <> 1) /\
    (forall p o, page_write_owners s' !! p = Some o <-> page_write_owners one_waits !! p = Some o /\ o <> 1) /\
    (forall table u, queued_for_table u table s' <-> u <> 1 /\ queued_for_table u table one_waits) /\
    (forall p u, queued_for_page u p s' <-> u <> 1 /\ queued_for_page u p one_waits) /\
    (forall u, u <> 1 -> graph_edges s' u = graph_edges one_waits u ∖ {[1]}) /\
    txns s' = txns one_waits /\ lock_wait_epoch s' = lock_wait_epoch one_waits + 1.
Proof.
  apply (release_transaction_resources_correct one_waits 1 one_waits_reachable); [by_compute|by vm_compute].
Defined.
