(* ===== verification/V2Codec.v ===== *)
(** * Row versions: [src/storage/v2/codec.rs]

    A stored row is a list of versions, newest first; a version carries the transaction
    that created it, the one that deleted it, and their commit timestamps once they have
    committed. The bytes are JSON: [serde_json::to_vec] and [from_slice] are parameters,
    with the round trip of [serde_json] on rows without reals as hypothesis
    ([serde_json] writes NaN and the infinities as [null], and reads other reals back
    only to the nearest unit without its [float_roundtrip] feature, so reals are left out). *)

From S2P Require Import Prelude Types Ast TxTypes.

Record RowVersion := mkRowVersion {
  row : Row;
  created_by_txn : Z;
  created_commit_ts : option Z;
  deleted_by_txn : option Z;
  deleted_commit_ts : option Z
}.

#[export] Instance RowVersion_eq_dec : EqDecision RowVersion.
Proof. solve_decision. Defined.

(** [VersionedRow { versions }] *)
Record VersionedRow := mkVersionedRow { versions : list RowVersion }.

Inductive StoredRow :=
  | Legacy (row : Row)
  | Versioned (versioned : VersionedRow).

Definition with_row (x : Row) (v : RowVersion) : RowVersion :=
  mkRowVersion x (created_by_txn v) (created_commit_ts v) (deleted_by_txn v) (deleted_commit_ts v).
Definition with_created_commit_ts (x : option Z) (v : RowVersion) : RowVersion :=
  mkRowVersion (row v) (created_by_txn v) x (deleted_by_txn v) (deleted_commit_ts v).
Definition with_deleted (by_txn commit_ts : option Z) (v : RowVersion) : RowVersion :=
  mkRowVersion (row v) (created_by_txn v) (created_commit_ts v) by_txn commit_ts.

Definition version_visible_to_snapshot (version_txn_id : Z) (commit_ts : option Z) (current_txn_id : Z)
    (snapshot : TxnSnapshot) : bool :=
  match commit_ts with
  | Some commit_ts =>
      (commit_ts <=? visible_up_to snapshot) && negb (bool_decide (version_txn_id ∈ active_txns snapshot))
  | None => version_txn_id =? current_txn_id
  end.

(** [version.deleted_by_txn.zip(version.deleted_commit_ts).is_some_and(..)] *)
Definition deletion_visible (version : RowVersion) (txn_id : Z) (snapshot : TxnSnapshot) : bool :=
  match deleted_by_txn version, deleted_commit_ts version with
  | Some deleted_by_txn, Some commit_ts =>
      version_visible_to_snapshot deleted_by_txn (Some commit_ts) txn_id snapshot
  | _, _ => false
  end.

(** The test the three loops make on a version: the creation is visible, and neither the
    reader's own deletion nor a visible one hides it. *)
Definition version_visible (txn_id : Z) (snapshot : TxnSnapshot) (version : RowVersion) : bool :=
  if negb (version_visible_to_snapshot (created_by_txn version) (created_commit_ts version) txn_id snapshot) then false
  else if bool_decide (deleted_by_txn version = Some txn_id) then false
  else negb (deletion_visible version txn_id snapshot).

(** The [for version in versioned.versions] loop of [visible_row]. *)
Fixpoint visible_loop (txn_id : Z) (snapshot : TxnSnapshot) (versions : list RowVersion) : option Row :=
  match versions with
  | [] => None
  | version :: versions =>
      if version_visible txn_id snapshot version then Some (row version)
      else visible_loop txn_id snapshot versions
  end.

(** The loop of [mark_row_deleted] over [&mut versioned.versions]. *)
Fixpoint mark_loop (txn_id : Z) (snapshot : TxnSnapshot) (versions : list RowVersion) : option (list RowVersion) :=
  match versions with
  | [] => None
  | version :: versions =>
      if version_visible txn_id snapshot version then Some (with_deleted (Some txn_id) None version :: versions)
      else match mark_loop txn_id snapshot versions with
           | Some versions => Some (version :: versions)
           | None => None
           end
  end.

(** [versions.iter().position(..)] *)
Fixpoint position {A} (f : A -> bool) (l : list A) : option nat :=
  match l with
  | [] => None
  | a :: l => if f a then Some O else match position f l with Some i => Some (S i) | None => None end
  end.

(** The body of [append_row_version] once decoded. *)
Definition append_versions (new_row : Row) (txn_id : Z) (snapshot : TxnSnapshot) (versions : list RowVersion)
    : option (list RowVersion) :=
  match position (version_visible txn_id snapshot) versions with
  | None => None
  | Some visible_index =>
      match versions !! visible_index with
      | None => None
      | Some version =>
          if (created_by_txn version =? txn_id) && bool_decide (created_commit_ts version = None) then
            Some (<[visible_index := with_row new_row version]> versions)
          else
            Some (mkRowVersion new_row txn_id None None None ::
                  <[visible_index := with_deleted (Some txn_id) None version]> versions)
      end
  end.

(** The loop body of [finalize_row_versions]. *)
Definition finalize_version (txn_id commit_ts : Z) (version : RowVersion) : RowVersion :=
  let version :=
    if (created_by_txn version =? txn_id) && bool_decide (created_commit_ts version = None)
    then with_created_commit_ts (Some commit_ts) version else version in
  if bool_decide (deleted_by_txn version = Some txn_id) && bool_decide (deleted_commit_ts version = None)
  then with_deleted (deleted_by_txn version) (Some commit_ts) version else version.

(** ** Encoded rows *)

Section Codec.
Context (to_vec : StoredRow -> Result bytes) (from_slice : bytes -> Result StoredRow).

Definition encode_row (row : Row) : Result bytes := to_vec (Legacy row).

Definition encode_uncommitted_row_version (row : Row) (txn_id : Z) : Result bytes :=
  to_vec (Versioned (mkVersionedRow [mkRowVersion row txn_id None None None])).

Definition decode_versioned_row (bytes : bytes) : Result VersionedRow :=
  let? stored := from_slice bytes in
  Ok (match stored with
      | Legacy row => mkVersionedRow [mkRowVersion row 0 (Some 0) None None]
      | Versioned versioned => versioned
      end).

Definition decode_row (bytes : bytes) : Result Row :=
  let? versioned := decode_versioned_row bytes in
  Ok (match versions versioned with [] => [] | version :: _ => row version end).

Definition visible_row (bytes : bytes) (txn_id : Z) (snapshot : TxnSnapshot) : Result (option Row) :=
  let? versioned := decode_versioned_row bytes in
  Ok (visible_loop txn_id snapshot (versions versioned)).

Definition mark_row_deleted (bytes : bytes) (txn_id : Z) (snapshot : TxnSnapshot) : Result (option Prelude.bytes) :=
  let? versioned := decode_versioned_row bytes in
  match mark_loop txn_id snapshot (versions versioned) with
  | Some versions => let? encoded := to_vec (Versioned (mkVersionedRow versions)) in Ok (Some encoded)
  | None => Ok None
  end.

Definition append_row_version (bytes : bytes) (new_row : Row) (txn_id : Z) (snapshot : TxnSnapshot)
    : Result (option Prelude.bytes) :=
  let? versioned := decode_versioned_row bytes in
  match append_versions new_row txn_id snapshot (versions versioned) with
  | Some versions => let? encoded := to_vec (Versioned (mkVersionedRow versions)) in Ok (Some encoded)
  | None => Ok None
  end.

Definition finalize_row_versions (bytes : bytes) (txn_id commit_ts : Z) : Result Prelude.bytes :=
  let? versioned := decode_versioned_row bytes in
  to_vec (Versioned (mkVersionedRow (map (finalize_version txn_id commit_ts) (versions versioned)))).
End Codec.
