(* ===== verification/V2Mvcc.v ===== *)
(** * Multi-version reads and writes of a row

    Proofs about V2Codec.v: what a transaction and the others see of a row while it
    updates or deletes it and after it commits, and which versions may be purged. The
    filter of [purge_deleted_row] in [src/storage/v2/mod.rs] is defined here. *)

From S2P Require Import Prelude Types Ast TxTypes V2Codec.

(** The [filter] of [FileStorage::purge_deleted_row]: what is kept at a purge horizon. *)
Definition retained_versions (purge_horizon : Z) (versions : list RowVersion) : list RowVersion :=
  List.filter (fun version =>
    negb match deleted_commit_ts version with
         | Some commit_ts => commit_ts <=? purge_horizon
         | None => false
         end) versions.

(** ** Loops *)

Lemma visible_loop_app u snap vs1 vs2 :
  visible_loop u snap (vs1 ++ vs2) =
  match visible_loop u snap vs1 with Some r => Some r | None => visible_loop u snap vs2 end.
Proof. induction vs1 as [|v vs1 IH]; simpl; [done|]. by destruct (version_visible u snap v). Qed.

Lemma visible_loop_ext u snap u' snap' vs vs' :
  Forall2 (fun v v' => version_visible u snap v = version_visible u' snap' v' /\ row v = row v') vs vs' ->
  visible_loop u snap vs = visible_loop u' snap' vs'.
Proof. induction 1 as [|v v' vs vs' [Hv Hr] Hvs IH]; simpl; [done|]. by rewrite Hv, Hr, IH. Qed.

(** The version a transaction reads, and those before it. *)
Lemma position_split {A} (f : A -> bool) l i :
  position f l = Some i <->
  exists l1 a l2, l = l1 ++ a :: l2 /\ length l1 = i /\ f a = true /\ Forall (fun x => f x = false) l1.
Proof.
  revert i. induction l as [|b l IH]; intros i; cbn [position].
  - split; [done|]. intros ([|] & ? & ? & ? & _); done.
  - destruct (f b) eqn:E.
    + split.
      * intros [= <-]. by exists [], b, l.
      * intros (l1 & a & l2 & Heq & <- & Ha & Hf). destruct l1 as [|c l1]; [done|].
        injection Heq as -> ->. apply Forall_cons in Hf as [Hc _]. congruence.
    + destruct (position f l) as [j|] eqn:Ej.
      * split.
        -- intros [= <-]. destruct (proj1 (IH j) eq_refl) as (l1 & a & l2 & -> & <- & Ha & Hf).
           exists (b :: l1), a, l2. split_and!; [done|done|done|by constructor].
        -- intros (l1 & a & l2 & Heq & <- & Ha & Hf). destruct l1 as [|c l1]; [injection Heq as -> ->; congruence|].
           injection Heq as <- ->. apply Forall_cons in Hf as [_ Hf]. f_equal. cbn.
           assert (H : Some j = Some (length l1)); [|congruence]. apply IH. by exists l1, a, l2.
      * split; [done|]. intros (l1 & a & l2 & Heq & <- & Ha & Hf).
        destruct l1 as [|c l1]; [injection Heq as -> ->; congruence|]. injection Heq as <- ->.
        apply Forall_cons in Hf as [_ Hf].
        assert (H : None = Some (length l1)); [|done]. apply IH. by exists l1, a, l2.
Qed.

Lemma visible_loop_none u snap vs : Forall (fun v => version_visible u snap v = false) vs -> visible_loop u snap vs = None.
Proof. induction 1 as [|v vs Hv Hvs IH]; simpl; [done|]. by rewrite Hv. Qed.

Lemma mark_loop_split u snap vs vs' :
  mark_loop u snap vs = Some vs' <->
  exists l1 v l2, vs = l1 ++ v :: l2 /\ version_visible u snap v = true /\
    Forall (fun x => version_visible u snap x = false) l1 /\ vs' = l1 ++ with_deleted (Some u) None v :: l2.
Proof.
  revert vs'. induction vs as [|b vs IH]; intros vs'; cbn [mark_loop].
  - split; [done|]. intros ([|] & ? & ? & ? & _); done.
  - destruct (version_visible u snap b) eqn:E.
    + split.
      * intros [= <-]. by exists [], b, vs.
      * intros (l1 & v & l2 & Heq & Hv & Hf & ->). destruct l1 as [|c l1]; [by injection Heq as -> ->|].
        injection Heq as -> ->. apply Forall_cons in Hf as [Hc _]. congruence.
    + destruct (mark_loop u snap vs) as [ws|] eqn:Ew.
      * split.
        -- intros [= <-]. destruct (proj1 (IH ws) eq_refl) as (l1 & v & l2 & -> & Hv & Hf & ->).
           exists (b :: l1), v, l2. split_and!; [done|done|by constructor|done].
        -- intros (l1 & v & l2 & Heq & Hv & Hf & ->). destruct l1 as [|c l1]; [injection Heq as -> ->; congruence|].
           injection Heq as <- ->. apply Forall_cons in Hf as [_ Hf]. f_equal. cbn.
           assert (H : Some ws = Some (l1 ++ with_deleted (Some u) None v :: l2)); [|congruence].
           apply IH. by exists l1, v, l2.
      * split; [done|]. intros (l1 & v & l2 & Heq & Hv & Hf & ->).
        destruct l1 as [|c l1]; [injection Heq as -> ->; congruence|]. injection Heq as <- ->.
        apply Forall_cons in Hf as [_ Hf].
        assert (H : None = Some (l1 ++ with_deleted (Some u) None v :: l2)); [|done]. apply IH. by exists l1, v, l2.
Qed.

(** ** What each transaction sees of a version *)

(** The snapshot contains transaction [t], committed at [ts]. *)
Definition includes (snap : TxnSnapshot) (t ts : Z) : bool :=
  (ts <=? visible_up_to snap) && negb (bool_decide (t ∈ active_txns snap)).

Section Version.
Context (t : Z).

(** [t]'s new version is seen by [t] alone, until it is finalized. *)
Lemma own_version_visible r snap : version_visible t snap (mkRowVersion r t None None None) = true.
Proof.
  unfold version_visible, version_visible_to_snapshot, deletion_visible. cbn. rewrite Z.eqb_refl. cbn.
  by rewrite bool_decide_false.
Qed.

Lemma others_version_hidden u r snap d : u <> t -> version_visible u snap (mkRowVersion r t None d None) = false.
Proof.
  intros Hu. unfold version_visible, version_visible_to_snapshot. cbn.
  destruct (Z.eqb_spec t u); [congruence|done].
Qed.

Lemma finalized_version u r snap ts :
  version_visible u snap (mkRowVersion r t (Some ts) None None) = includes snap t ts.
Proof.
  unfold version_visible, version_visible_to_snapshot, deletion_visible, includes. cbn.
  rewrite (bool_decide_false (None = Some u)) by done. by destruct (_ && _).
Qed.

(** Marking a version nobody has deleted: only [t] stops seeing it. *)
Lemma own_deletion snap v : version_visible t snap (with_deleted (Some t) None v) = false.
Proof. unfold version_visible. cbn. destruct (version_visible_to_snapshot _ _ _ _); [|done]. by rewrite bool_decide_true. Qed.

Lemma others_deletion u snap v :
  u <> t -> deleted_by_txn v = None ->
  version_visible u snap (with_deleted (Some t) None v) = version_visible u snap v.
Proof.
  intros Hu Hd. unfold version_visible, deletion_visible. cbn. rewrite Hd.
  rewrite !bool_decide_false by congruence. by destruct (version_visible_to_snapshot _ _ _ _).
Qed.

(** Once finalized, the deletion is seen by the snapshots that contain [t]. *)
Lemma finalized_deletion u snap v ts :
  u <> t -> deleted_by_txn v = None ->
  version_visible u snap (with_deleted (Some t) (Some ts) v) =
  version_visible u snap v && negb (includes snap t ts).
Proof.
  intros Hu Hd. unfold version_visible, deletion_visible. cbn. rewrite Hd.
  rewrite !bool_decide_false by congruence. fold (includes snap t ts).
  by destruct (version_visible_to_snapshot _ _ _ _).
Qed.

(** A version [t] has nothing pending on is not changed by [t]'s commit. *)
Definition settled (v : RowVersion) : Prop :=
  ~ (created_by_txn v = t /\ created_commit_ts v = None) /\
  ~ (deleted_by_txn v = Some t /\ deleted_commit_ts v = None).

Lemma finalize_settled ts v : settled v -> finalize_version t ts v = v.
Proof.
  intros [Hc Hd]. unfold finalize_version.
  assert (E1 : (created_by_txn v =? t) && bool_decide (created_commit_ts v = None) = false).
  { destruct (Z.eqb_spec (created_by_txn v) t); [|done]. cbn. apply bool_decide_false. tauto. }
  rewrite E1.
  assert (E2 : bool_decide (deleted_by_txn v = Some t) && bool_decide (deleted_commit_ts v = None) = false).
  { destruct (bool_decide_reflect (deleted_by_txn v = Some t)); [|done]. cbn. apply bool_decide_false. tauto. }
  by rewrite E2.
Qed.

Lemma map_finalize_settled ts vs : Forall settled vs -> map (finalize_version t ts) vs = vs.
Proof. induction 1 as [|v vs Hv Hvs IH]; simpl; [done|]. by rewrite finalize_settled, IH. Qed.

Lemma finalize_new ts r : finalize_version t ts (mkRowVersion r t None None None) = mkRowVersion r t (Some ts) None None.
Proof. unfold finalize_version. cbn. by rewrite Z.eqb_refl. Qed.

Lemma finalize_deleted ts v :
  settled v -> finalize_version t ts (with_deleted (Some t) None v) = with_deleted (Some t) (Some ts) v.
Proof.
  intros [Hc _]. unfold finalize_version. cbn.
  assert (E1 : (created_by_txn v =? t) && bool_decide (created_commit_ts v = None) = false).
  { destruct (Z.eqb_spec (created_by_txn v) t); [|done]. cbn. apply bool_decide_false. tauto. }
  rewrite E1. cbn. rewrite !bool_decide_true by done. done.
Qed.
End Version.

(** ** Rows *)

Section Rows.
Context (to_vec : StoredRow -> Result bytes) (from_slice : bytes -> Result StoredRow).

(** Without reals, [serde_json] writes any row and reads it back. *)
Definition json_safe (stored : StoredRow) : Prop :=
  let safe_row := Forall (fun v => match v with Real _ => False | _ => True end) in
  match stored with
  | Legacy row => safe_row row
  | Versioned versioned => Forall (fun v => safe_row (row v)) (versions versioned)
  end.

Definition json_roundtrip : Prop :=
  forall stored, json_safe stored -> exists b, to_vec stored = Ok b /\ from_slice b = Ok stored.

Context (Hjson : json_roundtrip).

(** [b] holds the versions [vs]. *)
Definition row_holds (b : bytes) (vs : list RowVersion) : Prop :=
  decode_versioned_row from_slice b = Ok (mkVersionedRow vs) /\ json_safe (Versioned (mkVersionedRow vs)).

Lemma row_holds_visible b vs u snap : row_holds b vs -> visible_row from_slice b u snap = Ok (visible_loop u snap vs).
Proof. intros [Hd _]. unfold visible_row. by rewrite Hd. Qed.

Lemma row_holds_encode vs :
  json_safe (Versioned (mkVersionedRow vs)) ->
  exists b, to_vec (Versioned (mkVersionedRow vs)) = Ok b /\ row_holds b vs.
Proof.
  intros Hs. destruct (Hjson _ Hs) as (b & Hb & Hf). exists b. split; [done|].
  split; [|done]. unfold decode_versioned_row. by rewrite Hf.
Qed.

Lemma row_holds_finalize b vs t ts :
  row_holds b vs -> exists b', finalize_row_versions to_vec from_slice b t ts = Ok b' /\
    row_holds b' (map (finalize_version t ts) vs).
Proof.
  intros [Hd Hs]. unfold finalize_row_versions. rewrite Hd. cbn [bind versions].
  apply row_holds_encode. cbn in *. apply Forall_map. eapply Forall_impl; [exact Hs|].
  intros v Hv. cbn. unfold finalize_version. by repeat case_match.
Qed.

Lemma append_run b vs l1 v l2 new_row t snap :
  row_holds b vs -> vs = l1 ++ v :: l2 -> Forall (fun x => version_visible t snap x = false) l1 ->
  version_visible t snap v = true -> settled t v ->
  Forall (fun v => match v with Real _ => False | _ => True end) new_row ->
  exists b', append_row_version to_vec from_slice b new_row t snap = Ok (Some b') /\
    row_holds b' (mkRowVersion new_row t None None None :: l1 ++ with_deleted (Some t) None v :: l2).
Proof.
  intros [Hd Hs] -> Hl1 Hv [Hc _] Hrow. unfold append_row_version. rewrite Hd. cbn [bind versions].
  unfold append_versions.
  assert (Hp : position (version_visible t snap) (l1 ++ v :: l2) = Some (length l1)).
  { apply position_split. by exists l1, v, l2. }
  rewrite Hp, list_lookup_middle by done.
  assert (E1 : (created_by_txn v =? t) && bool_decide (created_commit_ts v = None) = false).
  { destruct (Z.eqb_spec (created_by_txn v) t); [|done]. cbn. apply bool_decide_false. tauto. }
  rewrite E1. replace (<[length l1:=with_deleted (Some t) None v]> (l1 ++ v :: l2))
    with (l1 ++ with_deleted (Some t) None v :: l2).
  2:{ rewrite insert_app_r_alt by lia. by rewrite Nat.sub_diag. }
  destruct (row_holds_encode (mkRowVersion new_row t None None None :: l1 ++ with_deleted (Some t) None v :: l2))
    as (b' & -> & Hb'); [|by exists b'].
  cbn in *. apply Forall_app in Hs as [Hs1 Hs2]. apply Forall_cons in Hs2 as [Hsv Hs2].
  constructor; [done|]. apply Forall_app. split; [done|]. by constructor.
Qed.

Lemma mark_run b vs l1 v l2 t snap :
  row_holds b vs -> vs = l1 ++ v :: l2 -> Forall (fun x => version_visible t snap x = false) l1 ->
  version_visible t snap v = true ->
  exists b', mark_row_deleted to_vec from_slice b t snap = Ok (Some b') /\
    row_holds b' (l1 ++ with_deleted (Some t) None v :: l2).
Proof.
  intros [Hd Hs] -> Hl1 Hv. unfold mark_row_deleted. rewrite Hd. cbn [bind versions].
  assert (Hm : mark_loop t snap (l1 ++ v :: l2) = Some (l1 ++ with_deleted (Some t) None v :: l2)).
  { apply mark_loop_split. by exists l1, v, l2. }
  rewrite Hm. destruct (row_holds_encode (l1 ++ with_deleted (Some t) None v :: l2)) as (b' & -> & Hb'); [|by exists b'].
  cbn in *. apply Forall_app in Hs as [Hs1 Hs2]. apply Forall_cons in Hs2 as [Hsv Hs2].
  apply Forall_app. split; [done|]. by constructor.
Qed.
End Rows.

(** ** A concrete codec with the round trip *)

Section SampleCodec.
#[local] Instance RowVersion_countable : Countable RowVersion.
Proof.
  refine (inj_countable' (fun v => (row v, created_by_txn v, created_commit_ts v, deleted_by_txn v, deleted_commit_ts v))
    (fun '(a, b, c, d, e) => mkRowVersion a b c d e) _). by intros [].
Defined.

#[local] Instance StoredRow_eq_dec : EqDecision StoredRow.
Proof. intros [r1|[v1]] [r2|[v2]]; first [by right | destruct (decide (r1 = r2)) || destruct (decide (v1 = v2))];
  (left; congruence) || (right; congruence). Defined.

#[local] Instance StoredRow_countable : Countable StoredRow.
Proof.
  refine (inj_countable' (fun s => match s with Legacy r => inl r | Versioned v => inr (versions v) end)
    (fun x : Row + list RowVersion => match x with inl r => Legacy r | inr v => Versioned (mkVersionedRow v) end) _).
  by intros [|[]].
Defined.

Definition sample_to_vec (s : StoredRow) : Result bytes := Ok (bits_of (encode s)).
Definition sample_from_slice (b : bytes) : Result StoredRow :=
  ok_or (decode (of_bits b)) (Serde "invalid row").

Lemma sample_json : json_roundtrip sample_to_vec sample_from_slice.
Proof.
  intros s _. exists (bits_of (encode s)). split; [done|]. unfold sample_from_slice.
  by rewrite of_bits_of, decode_encode.
Qed.
End SampleCodec.

(** ** Theorems *)

(** Updating a row. When a transaction updates the version it reads, it reads its own
    row back; no other transaction sees the difference; and once the update is finalized
    with a commit timestamp, exactly the snapshots that contain that commit see the new
    row, every other reader what it saw before the update. *)
Theorem row_update_isolated to_vec from_slice (b : bytes) (l1 : list RowVersion) (v : RowVersion)
    (l2 : list RowVersion) (new_row : Row) (t : Z) (snap : TxnSnapshot) :
  json_roundtrip to_vec from_slice -> row_holds from_slice b (l1 ++ v :: l2) ->
  Forall (fun x => version_visible t snap x = false) l1 -> version_visible t snap v = true ->
  deleted_by_txn v = None -> Forall (settled t) (l1 ++ v :: l2) ->
  Forall (fun v => match v with Real _ => False | _ => True end) new_row ->
  exists b1, append_row_version to_vec from_slice b new_row t snap = Ok (Some b1) /\
    visible_row from_slice b1 t snap = Ok (Some new_row) /\
    (forall u usnap, u <> t -> visible_row from_slice b1 u usnap = visible_row from_slice b u usnap) /\
    forall ts, exists b2, finalize_row_versions to_vec from_slice b1 t ts = Ok b2 /\
      forall u usnap, u <> t ->
        visible_row from_slice b2 u usnap =
        if includes usnap t ts then Ok (Some new_row) else visible_row from_slice b u usnap.
Proof.
  intros Hjson Hb Hl1 Hv Hd Hset Hrow.
  pose proof Hset as Hset'. apply Forall_app in Hset' as [Hs1 Hs2]. apply Forall_cons in Hs2 as [Hsv Hs2].
  destruct (append_run _ _ Hjson b _ l1 v l2 new_row t snap Hb eq_refl Hl1 Hv Hsv Hrow) as (b1 & Ha & Hb1).
  exists b1. split; [done|]. split.
  { rewrite (row_holds_visible _ _ _ _ _ Hb1). cbn [visible_loop]. by rewrite own_version_visible. }
  split.
  { intros u usnap Hu. rewrite (row_holds_visible _ _ _ _ _ Hb1), (row_holds_visible _ _ _ _ _ Hb).
    cbn [visible_loop]. rewrite others_version_hidden by done. rewrite !visible_loop_app. cbn [visible_loop].
    by rewrite others_deletion by done. }
  intros ts. destruct (row_holds_finalize _ _ Hjson b1 _ t ts Hb1) as (b2 & Hf & Hb2). exists b2. split; [done|].
  intros u usnap Hu. rewrite (row_holds_visible _ _ _ _ _ Hb2), (row_holds_visible _ _ _ _ _ Hb).
  cbn [map]. rewrite finalize_new, map_app. cbn [map]. rewrite !map_finalize_settled, finalize_deleted by done.
  cbn [visible_loop row]. rewrite finalized_version. rewrite !visible_loop_app. cbn [visible_loop].
  rewrite finalized_deletion by done. destruct (includes usnap t ts); [done|]. by rewrite andb_true_r.
Qed.

Definition sample_row : list RowVersion := [mkRowVersion [Integer 1; Text "a"] 1 (Some 1) None None].
Definition sample_snapshot : TxnSnapshot := mkTxnSnapshot 1 ∅.

Lemma row_update_isolated_witness :
  exists b, row_holds sample_from_slice b sample_row /\
  exists b1, append_row_version sample_to_vec sample_from_slice b [Integer 2] 5 sample_snapshot = Ok (Some b1) /\
    visible_row sample_from_slice b1 5 sample_snapshot = Ok (Some [Integer 2]) /\
    (forall u usnap, u <> 5 -> visible_row sample_from_slice b1 u usnap = visible_row sample_from_slice b u usnap) /\
    forall ts, exists b2, finalize_row_versions sample_to_vec sample_from_slice b1 5 ts = Ok b2 /\
      forall u usnap, u <> 5 ->
        visible_row sample_from_slice b2 u usnap =
        if includes usnap 5 ts then Ok (Some [Integer 2]) else visible_row sample_from_slice b u usnap.
Proof.
  destruct (row_holds_encode _ _ sample_json sample_row) as (b & _ & Hb).
  { repeat constructor. }
  exists b. split; [exact Hb|].
  apply (row_update_isolated sample_to_vec sample_from_slice b [] (mkRowVersion [Integer 1; Text "a"] 1 (Some 1) None None) []).
  - apply sample_json.
  - exact Hb.
  - constructor.
  - reflexivity.
  - reflexivity.
  - constructor; [|constructor]. split; intros [H1 H2]; discriminate.
  - repeat constructor.
Defined.

(** Deleting a row. When a transaction deletes the version it reads, it no longer sees
    that version; no other transaction sees the difference; and once finalized, exactly
    the snapshots that contain the commit no longer see it. *)
Theorem row_delete_isolated to_vec from_slice (b : bytes) (l1 : list RowVersion) (v : RowVersion)
    (l2 : list RowVersion) (t : Z) (snap : TxnSnapshot) :
  json_roundtrip to_vec from_slice -> row_holds from_slice b (l1 ++ v :: l2) ->
  Forall (fun x => version_visible t snap x = false) l1 -> version_visible t snap v = true ->
  deleted_by_txn v = None -> Forall (settled t) (l1 ++ v :: l2) ->
  exists b1, mark_row_deleted to_vec from_slice b t snap = Ok (Some b1) /\
    visible_row from_slice b1 t snap = Ok (visible_loop t snap l2) /\
    (forall u usnap, u <> t -> visible_row from_slice b1 u usnap = visible_row from_slice b u usnap) /\
    forall ts, exists b2, finalize_row_versions to_vec from_slice b1 t ts = Ok b2 /\
      forall u usnap, u <> t ->
        visible_row from_slice b2 u usnap =
        if includes usnap t ts then Ok (visible_loop u usnap (l1 ++ l2)) else visible_row from_slice b u usnap.
Proof.
  intros Hjson Hb Hl1 Hv Hd Hset.
  pose proof Hset as Hset'. apply Forall_app in Hset' as [Hs1 Hs2]. apply Forall_cons in Hs2 as [Hsv Hs2].
  destruct (mark_run _ _ Hjson b _ l1 v l2 t snap Hb eq_refl Hl1 Hv) as (b1 & Ha & Hb1).
  exists b1. split; [done|]. split.
  { rewrite (row_holds_visible _ _ _ _ _ Hb1), visible_loop_app, (visible_loop_none t snap l1) by done.
    cbn [visible_loop]. by rewrite own_deletion. }
  split.
  { intros u usnap Hu. rewrite (row_holds_visible _ _ _ _ _ Hb1), (row_holds_visible _ _ _ _ _ Hb).
    rewrite !visible_loop_app. cbn [visible_loop]. by rewrite others_deletion by done. }
  intros ts. destruct (row_holds_finalize _ _ Hjson b1 _ t ts Hb1) as (b2 & Hf & Hb2). exists b2. split; [done|].
  intros u usnap Hu. rewrite (row_holds_visible _ _ _ _ _ Hb2), (row_holds_visible _ _ _ _ _ Hb).
  rewrite map_app. cbn [map]. rewrite !map_finalize_settled, finalize_deleted by done.
  rewrite !visible_loop_app. cbn [visible_loop]. rewrite finalized_deletion by done.
  destruct (includes usnap t ts); cbn [negb]; [by rewrite andb_false_r|by rewrite andb_true_r].
Qed.

Lemma row_delete_isolated_witness :
  exists b, row_holds sample_from_slice b sample_row /\
  exists b1, mark_row_deleted sample_to_vec sample_from_slice b 5 sample_snapshot = Ok (Some b1) /\
    visible_row sample_from_slice b1 5 sample_snapshot = Ok None /\
    (forall u usnap, u <> 5 -> visible_row sample_from_slice b1 u usnap = visible_row sample_from_slice b u usnap) /\
    forall ts, exists b2, finalize_row_versions sample_to_vec sample_from_slice b1 5 ts = Ok b2 /\
      forall u usnap, u <> 5 ->
        visible_row sample_from_slice b2 u usnap =
        if includes usnap 5 ts then Ok None else visible_row sample_from_slice b u usnap.
Proof.
  destruct (row_holds_encode _ _ sample_json sample_row) as (b & _ & Hb).
  { repeat constructor. }
  exists b. split; [exact Hb|].
  apply (row_delete_isolated sample_to_vec sample_from_slice b [] (mkRowVersion [Integer 1; Text "a"] 1 (Some 1) None None) []).
  - apply sample_json.
  - exact Hb.
  - constructor.
  - reflexivity.
  - reflexivity.
  - constructor; [|constructor]. split; intros [H1 H2]; discriminate.
Defined.

(** C26: what may be purged. Dropping the versions whose deletion committed by the purge
    horizon changes no reader's view, provided the reader's snapshot reaches the horizon
    and none of those deletions was made by a transaction active in the snapshot (the
    code checks only the first, see [purge_loses_visible_row]). *)
Theorem purge_preserves_view (u horizon : Z) (snap : TxnSnapshot) (vs : list RowVersion) :
  horizon <= visible_up_to snap ->
  (forall v ts, v ∈ vs -> deleted_commit_ts v = Some ts -> ts <= horizon ->
     exists d, deleted_by_txn v = Some d /\ d ∉ active_txns snap) ->
  visible_loop u snap (retained_versions horizon vs) = visible_loop u snap vs.
Proof.
  intros Hh Hd. induction vs as [|v vs IH]; [done|].
  assert (IH' : visible_loop u snap (retained_versions horizon vs) = visible_loop u snap vs) by (apply IH; set_solver).
  unfold retained_versions in *. cbn [List.filter]. destruct (deleted_commit_ts v) as [ts|] eqn:Ets.
  - destruct (Z.leb_spec ts horizon) as [Hle|Hgt]; cbn [negb].
    + rewrite IH'. cbn [visible_loop]. destruct (Hd v ts) as (d & Hdv & Hact); [set_solver|done|done|].
      assert (Hv : version_visible u snap v = false).
      { unfold version_visible. destruct (version_visible_to_snapshot (created_by_txn v) _ _ _); [|done]. cbn.
        case_bool_decide; [done|]. unfold deletion_visible, version_visible_to_snapshot. rewrite Hdv, Ets.
        destruct (Z.leb_spec ts (visible_up_to snap)); [|lia]. by rewrite bool_decide_false. }
      by rewrite Hv.
    + cbn [visible_loop]. by rewrite IH'.
  - cbn [negb visible_loop]. by rewrite IH'.
Qed.

Lemma purge_preserves_view_witness :
  visible_loop 9 (mkTxnSnapshot 4 {[8]})
    (retained_versions 4 [mkRowVersion [Integer 2] 6 (Some 3) None None; mkRowVersion [Integer 1] 5 (Some 2) (Some 6) (Some 3)]) =
  visible_loop 9 (mkTxnSnapshot 4 {[8]})
    [mkRowVersion [Integer 2] 6 (Some 3) None None; mkRowVersion [Integer 1] 5 (Some 2) (Some 6) (Some 3)].
Proof.
  apply (purge_preserves_view 9 4).
  - done.
  - intros v ts Hv. rewrite !elem_of_cons in Hv. destruct Hv as [->|[->|Hv]]; [done| |by apply not_elem_of_nil in Hv].
    intros _ _. exists 6. split; [reflexivity|]. by_compute.
Defined.
