(* ===== verification/TxnSnapshots.v ===== *)
(** * Snapshots

    What a transaction's snapshot contains, along every run of the transaction manager:
    the transactions that had committed when it was taken, whatever the others did since;
    and the purge horizon against the snapshots in use. *)

From S2P Require Import Prelude Types Ast TxTypes TxnManager TxnRelease TxnLocks TxnRequests TxnSteps V2Codec V2Mvcc.

(** ** Runs with reserved commit timestamps *)

(** A manager with the timestamps [reserve_commit_ts] has handed out: a client finalizes
    a commit with the timestamp it reserved, as [FileStorage::commit] and
    [TxnManager::commit] do. *)
Abbreviation History := (TxnManager * gmap Z Z)%type (only parsing).

Definition other_call (c : Call) (s : TxnManager) : Prop :=
  match c with
  | CReserve _ | CFinalize _ _ => False
  | CBeginWithId t _ => next_txn_id s <= t < u64_max
  | _ => True
  end.

Inductive hstep : History -> History -> Prop :=
  | hs_reserve t ts s s' R :
      reserve_commit_ts t s = (Ok ts, s') -> hstep (s, R) (s', <[t := ts]> R)
  | hs_finalize t ts s R : R !! t = Some ts -> hstep (s, R) ((finalize_commit t ts s).2, R)
  | hs_call c s R : other_call c s -> hstep (s, R) ((perform c s).2, R).

Definition history (h : History) : Prop :=
  exists n, 0 <= n <= u64_max /\ rtc hstep (with_next_txn_id n, ∅) h.

Definition committed_at (s : TxnManager) (t ts : Z) : Prop :=
  exists x, txns s !! t = Some x /\ status x = Committed /\ commit_ts x = Some ts.

(** ** What has happened since an earlier state *)

Definition txn_since (s0 s : TxnManager) (t : Z) (x : TxnState) : Prop :=
  match status x with
  | Committed => exists ts, commit_ts x = Some ts /\ ts <= next_commit_ts s /\
      (committed_at s0 t ts \/ active s0 t \/ (next_txn_id s0 <= t /\ next_commit_ts s0 < ts))
  | Active => active s0 t \/ next_txn_id s0 <= t
  | Aborted => True
  end.

Record Since (s0 s : TxnManager) : Prop := {
  since_next : next_txn_id s0 <= next_txn_id s;
  since_ts : next_commit_ts s0 <= next_commit_ts s;
  since_ids t x : txns s !! t = Some x -> id x = t /\ t < next_txn_id s;
  since_txns t x : txns s !! t = Some x -> txn_since s0 s t x
}.

(** What is read off a state. *)
Definition counters (s : TxnManager) := (next_txn_id s, next_commit_ts s, txns s).

Lemma Since_counters s0 s s' : counters s' = counters s -> Since s0 s -> Since s0 s'.
Proof.
  unfold counters. intros [= E1 E2 E3] []. split; unfold txn_since in *; by rewrite ?E1, ?E2, ?E3.
Qed.

Lemma Since_mod s0 f : (forall s, counters (f s) = counters s) -> preserves (Since s0) (st_mod f).
Proof. intros Hf. apply preserves_mod. intros s. by apply Since_counters. Qed.

Lemma Since_update s0 t f :
  (forall x, id (f x) = id x) ->
  (forall x, (status (f x) = status x /\ commit_ts (f x) = commit_ts x) \/ status (f x) = Aborted) ->
  preserves (Since s0) (update_txn t f).
Proof.
  intros Hid Hst s [H1 H2 H3 H4]. unfold update_txn. rewrite st_bind_run. cbn [st_get fst snd]. unfold get.
  destruct (txns s !! t) as [x|] eqn:Hx; [|done]. cbn [ok_or st_mod fst snd]. split; cbn; [done|done| |].
  - intros u y. rewrite lookup_insert_Some. intros [[<- <-]|[_ Hy]]; [|by apply H3]. rewrite Hid. by apply H3.
  - intros u y. rewrite lookup_insert_Some. intros [[<- <-]|[_ Hy]]; [|exact (H4 _ _ Hy)].
    pose proof (H4 _ _ Hx) as Ht. unfold txn_since in *. destruct (Hst x) as [[-> ->]| ->]; done.
Qed.

Lemma remove_wait_dependency_counters b s : counters (remove_wait_dependency_on b s) = counters s.
Proof.
  unfold remove_wait_dependency_on. generalize (filter (fun txn_id => txn_id <> b) (elements (dom (txns s)))).
  intros l. revert s. induction l as [|u l IH]; intros s; [done|]. cbn [fold_left]. by rewrite IH.
Qed.

Section Preserved.
Context (s0 : TxnManager).
#[local] Notation P := (preserves (Since s0)).

#[local] Hint Extern 1 (preserves _ (st_mod _)) =>
  (apply Since_mod; intros ?; first [reflexivity | apply remove_wait_dependency_counters]) : preserves_db.
#[local] Hint Extern 1 (preserves _ (update_txn _ _)) =>
  (apply Since_update; [intros ?; reflexivity | intros ?; first [by left | by right]]) : preserves_db.

Lemma release_since t : P (release_transaction_resources t).
Proof. unfold release_transaction_resources, bump_lock_wait_epoch. preserve. Qed.
#[local] Hint Resolve release_since : preserves_db.

Lemma abort_victim_since t msg : P (abort_deadlock_victim t msg).
Proof. unfold abort_deadlock_victim. preserve. Qed.
#[local] Hint Resolve abort_victim_since : preserves_db.

Lemma break_cycle_since t b ctx : P (break_cycle t b ctx).
Proof. unfold break_cycle, resolve_deadlock. preserve. Qed.
#[local] Hint Resolve break_cycle_since : preserves_db.

Lemma break_cycles_since t l ctx : P (break_cycles t l ctx).
Proof. induction l; cbn [break_cycles]; preserve. Qed.
#[local] Hint Resolve break_cycles_since : preserves_db.

Lemma table_lock_since t table mode : P (acquire_table_lock t table mode).
Proof.
  intros s. unfold acquire_table_lock. generalize (retry_fuel s). intros fuel. revert s. change (P (acquire_table_lock_fuel fuel t table mode)).
  induction fuel as [|fuel IH]; cbn [acquire_table_lock_fuel]; preserve.
Qed.

Lemma write_conflicts_since t table keys : P (check_write_conflicts t table keys).
Proof.
  intros s. unfold check_write_conflicts. generalize (retry_fuel s). intros fuel. revert s.
  change (P (check_write_conflicts_fuel fuel t table keys)).
  induction fuel as [|fuel IH]; cbn [check_write_conflicts_fuel]; preserve.
Qed.

Lemma page_write_since t p : P (acquire_page_write t p).
Proof.
  intros s. unfold acquire_page_write. generalize (retry_fuel s). intros fuel. revert s.
  change (P (acquire_page_write_fuel fuel t p)).
  induction fuel as [|fuel IH]; cbn [acquire_page_write_fuel]; preserve.
Qed.
#[local] Hint Resolve table_lock_since write_conflicts_since page_write_since : preserves_db.

Lemma complete_purge_since batch : P (complete_purge_batch batch).
Proof. induction batch as [|[t r] batch IH]; cbn [complete_purge_batch]; preserve. Qed.

Lemma insert_since t level s :
  Since s0 s -> next_txn_id s0 <= t < next_txn_id s -> Since s0 (insert_txn t level s).2.
Proof.
  intros [H1 H2 H3 H4] Ht. unfold insert_txn. repeat (rewrite st_bind_run; cbn [st_read st_mod fst snd]).
  split; cbn; [done|done| |].
  - intros u x. rewrite lookup_insert_Some. intros [[<- <-]|[_ Hx]]; [cbn; lia|by apply H3].
  - intros u x. rewrite lookup_insert_Some. intros [[<- <-]|[_ Hx]]; [right; cbn; lia|exact (H4 _ _ Hx)].
Qed.

Lemma next_since n s : Since s0 s -> next_txn_id s <= n -> Since s0 (set_next_txn_id n s).
Proof.
  intros [H1 H2 H3 H4] Hn. split; cbn; [lia|done| |exact H4].
  intros u x Hx. destruct (H3 _ _ Hx). lia.
Qed.

Lemma begin_since level : P (begin level).
Proof.
  intros s HS. unfold begin. rewrite st_bind_run. cbn [st_read fst snd].
  rewrite st_bind_run. cbn [st_get fst snd]. unfold u64_add.
  destruct (_ <=? _); [|done]. rewrite st_bind_run. cbn [st_mod fst snd]. rewrite st_bind_run.
  set (n := Z.max (next_txn_id s) 1). pose proof (since_next _ _ HS).
  assert (HS' : Since s0 (insert_txn n level (set_next_txn_id (n + 1) s)).2).
  { apply insert_since; [apply next_since; [done|lia]|cbn; lia]. }
  by destruct (insert_txn n level (set_next_txn_id (n + 1) s)) as [[]].
Qed.

Lemma perform_since c s : Since s0 s -> other_call c s -> Since s0 (perform c s).2.
Proof.
  intros HS Hc. revert HS. destruct c; cbn [perform other_call] in *; try done.
  - intros HS. unfold ignore. apply preserves_bind; [apply begin_since|intros; apply preserves_ret|done].
  - intros HS. unfold begin_with_id. rewrite st_bind_run. cbn [st_read fst snd]. case_bool_decide; [done|].
    rewrite st_bind_run. cbn [st_mod fst snd]. pose proof (since_next _ _ HS).
    apply insert_since; [apply next_since; [done|lia]|]. cbn. unfold saturating_add64. lia.
  - revert s Hc. intros s _. revert s. change (P (abort t)). unfold abort. preserve.
  - revert s Hc. intros s _. revert s. change (P (ignore (refresh_snapshot t))). unfold ignore, refresh_snapshot. preserve.
  - intros [H1 H2 H3 H4]. cbn [purge_finished_transactions_up_to st_mod fst snd]. split; cbn; [done|done| |].
    + intros u x. rewrite map_lookup_filter_Some. intros [Hx _]. by apply H3.
    + intros u x. rewrite map_lookup_filter_Some. intros [Hx _]. exact (H4 _ _ Hx).
  - apply Since_mod. done.
  - revert s Hc. intros s _. revert s. change (P (ignore (allocate_row_id t table fallback))).
    unfold ignore, allocate_row_id. preserve.
  - apply table_lock_since.
  - revert s Hc. intros s _. revert s. change (P (acquire_table_read_lock t table)).
    unfold acquire_table_read_lock, acquire_table_intention_read, acquire_predicate_lock. preserve.
  - revert s Hc. intros s _. revert s. change (P (acquire_predicate_lock t (mkPredicateLock t table index kind))).
    unfold acquire_predicate_lock. preserve.
  - apply write_conflicts_since.
  - apply page_write_since.
  - apply release_since.
  - apply Since_update; [done|by left].
  - apply Since_update; [done|by left].
  - revert s Hc. intros s _. revert s. change (P (ignore (take_undo_records t))). unfold ignore, take_undo_records. preserve.
  - apply Since_update; [done|by left].
  - apply complete_purge_since.
Qed.
End Preserved.

(** ** The invariant of a run *)

Record RunInv (s0 : TxnManager) (h : History) : Prop := {
  run_since : Since s0 h.1;
  run_reserved t ts : h.2 !! t = Some ts ->
    t < next_txn_id h.1 /\ ts <= next_commit_ts h.1 /\ (next_txn_id s0 <= t -> next_commit_ts s0 < ts)
}.

Lemma Since_refl s0 s : Since s0 s -> Since s s.
Proof.
  intros [H1 H2 H3 H4]. split; [done|done|done|]. intros t x Hx. pose proof (H4 _ _ Hx) as Ht.
  unfold txn_since in *. destruct (status x) eqn:Es.
  - left. by exists x.
  - destruct Ht as (ts & Hts & Hle & _). exists ts. split; [done|]. split; [done|]. left. by exists x.
  - done.
Qed.

Lemma hstep_inv s0 h h' : hstep h h' -> RunInv s0 h -> RunInv s0 h'.
Proof.
  intros Hst [HS HR]. destruct Hst as [t ts s s' R Hres|t ts s R Hts|c s R Hc]; cbn [fst snd] in *.
  - unfold reserve_commit_ts in Hres. rewrite st_bind_run in Hres. cbn [st_get fst snd] in Hres.
    unfold ensure_active, get in Hres. destruct (txns s !! t) as [x|] eqn:Hx; [|done]. cbn [ok_or bind] in Hres.
    destruct (is_active x) eqn:Ea; [|done]. rewrite st_bind_run in Hres. cbn [st_get fst snd] in Hres.
    unfold u64_add in Hres. destruct (_ <=? _); [|done]. rewrite st_bind_run in Hres. cbn [st_mod st_ret fst snd] in Hres.
    injection Hres as <- <-. destruct HS as [H1 H2 H3 H4]. split; cbn.
    + split; cbn; [done|lia|done|]. intros u y Hy. pose proof (H4 _ _ Hy) as Hu. unfold txn_since in *.
      destruct (status y); [done| |done]. destruct Hu as (ts & Hts & Hle & Hu). exists ts. split; [done|]. cbn. split; [lia|done].
    + intros u ts. rewrite lookup_insert_Some. intros [[<- <-]|[_ Hu]].
      * destruct (H3 _ _ Hx). lia.
      * destruct (HR _ _ Hu) as (? & ? & ?). split; [done|]. split; [lia|done].
  - split; cbn [fst snd].
    + unfold finalize_commit. rewrite st_bind_run. cbn [st_get fst snd]. unfold get.
      destruct (txns s !! t) as [x|] eqn:Hx; [|done]. cbn [ok_or]. destruct (is_active x) eqn:Ea; [|done]. cbn [negb].
      unfold update_txn. rewrite st_bind_run. cbn [st_get fst snd]. unfold get. rewrite Hx. cbn [ok_or st_mod fst snd].
      destruct HS as [H1 H2 H3 H4]. split; cbn; [done|done| |].
      * intros u y. rewrite lookup_insert_Some. intros [[<- <-]|[_ Hy]]; [|by apply H3]. cbn. by apply H3.
      * intros u y. rewrite lookup_insert_Some. intros [[<- <-]|[_ Hy]]; [|exact (H4 _ _ Hy)].
        unfold txn_since. cbn. exists ts. split; [done|]. destruct (HR _ _ Hts) as (Hlt & Hle & Hnew). split; [done|].
        pose proof (H4 _ _ Hx) as Ht. unfold txn_since in Ht. apply is_active_true in Ea. rewrite Ea in Ht.
        destruct Ht as [Ht|Ht]; [by right; left|]. right. right. auto.
    + intros u ts' Hu. destruct (HR _ _ Hu) as (? & ? & ?).
      unfold finalize_commit. rewrite st_bind_run. cbn [st_get fst snd]. unfold get.
      destruct (txns s !! t) as [x|] eqn:Hx; [|done]. cbn [ok_or]. destruct (is_active x); [|done]. cbn [negb].
      unfold update_txn. rewrite st_bind_run. cbn [st_get fst snd]. unfold get. by rewrite Hx.
  - split; cbn; [by apply perform_since|]. intros u ts Hu. destruct (HR _ _ Hu) as (? & ? & ?).
    destruct (perform_since s c s (Since_refl _ _ HS) Hc) as [? ? _ _]. split; [lia|]. split; [lia|done].
Qed.

Lemma rtc_hstep_inv s0 h h' : rtc hstep h h' -> RunInv s0 h -> RunInv s0 h'.
Proof. induction 1; [done|]. intros. by eauto using hstep_inv. Qed.

Lemma history_inv s R : history (s, R) -> RunInv s (s, R).
Proof.
  intros (n & Hn & Hrun).
  assert (H0 : RunInv (with_next_txn_id n) (with_next_txn_id n, ∅)).
  { split; [split|]; cbn; try done. }
  pose proof (rtc_hstep_inv _ _ _ Hrun H0) as [HS HR]. split; [by eapply Since_refl|].
  intros t ts Ht. destruct (HR _ _ Ht) as (? & ? & _). cbn in *. split; [done|]. split; [done|]. lia.
Qed.

Lemma elem_of_active_ids s u :
  (forall t x, txns s !! t = Some x -> id x = t) -> u ∈ active_ids s <-> active s u.
Proof.
  intros Hid. unfold active_ids. rewrite elem_of_list_to_set, list_elem_of_In, in_map_iff. split.
  - intros (x & <- & Hx). apply list_elem_of_In, list_elem_of_filter in Hx as [Ha Hx].
    apply list_elem_of_In, in_map_iff in Hx as ([t y] & Hty & Hx). cbn in Hty. subst y.
    apply list_elem_of_In, elem_of_map_to_list in Hx. rewrite (Hid _ _ Hx). exists x. split; [done|].
    apply is_active_true. by apply Is_true_true.
  - intros (x & Hx & Ha). exists x. split; [by apply Hid|]. apply list_elem_of_In, list_elem_of_filter.
    split; [by apply Is_true_true, is_active_true|]. apply list_elem_of_In, in_map_iff. exists (u, x). split; [done|].
    by apply list_elem_of_In, elem_of_map_to_list.
Qed.

(** ** Theorems *)

(** Transaction [t] takes [snap] as its snapshot: it begins, or, at the read committed
    level, refreshes it for a statement. *)
Definition takes_snapshot (s0 : TxnManager) (t : Z) (snap : TxnSnapshot) (s1 : TxnManager) : Prop :=
  (exists level, begin level s0 = (Ok t, s1) /\ get_snapshot s1 t = Ok snap) \/
  refresh_snapshot t s0 = (Ok snap, s1).

Lemma takes_snapshot_contents s0 t snap s1 R :
  Since s0 s0 -> takes_snapshot s0 t snap s1 ->
  hstep (s0, R) (s1, R) /\ visible_up_to snap = next_commit_ts s0 /\
  (forall u, u <> t -> u ∈ active_txns snap <-> active s0 u).
Proof.
  intros HS [(level & Hb & Hg)|Hr].
  - split.
    { replace s1 with (perform (CBegin level) s0).2; [by apply hs_call|]. cbn [perform]. unfold ignore.
      rewrite st_bind_run, Hb. done. }
    unfold begin in Hb. rewrite st_bind_run in Hb. cbn [st_read fst snd] in Hb.
    rewrite st_bind_run in Hb. cbn [st_get fst snd] in Hb. unfold u64_add in Hb. destruct (_ <=? _); [|done].
    unfold insert_txn in Hb. repeat (rewrite st_bind_run in Hb; cbn [st_mod st_read st_ret fst snd] in Hb).
    injection Hb as <- <-. unfold get_snapshot, get in Hg. cbn in Hg. rewrite lookup_insert_eq in Hg. cbn in Hg.
    injection Hg as <-. split; [done|]. intros u _. cbn [active_txns].
    change (u ∈ active_ids s0 <-> active s0 u). apply elem_of_active_ids.
    intros v x Hx. by apply (since_ids _ _ HS).
  - split.
    { replace s1 with (perform (CRefresh t) s0).2; [by apply hs_call|]. cbn [perform]. unfold ignore.
      rewrite st_bind_run, Hr. done. }
    unfold refresh_snapshot in Hr. rewrite st_bind_run in Hr. cbn [st_read fst snd] in Hr.
    rewrite st_bind_run in Hr. destruct (update_txn _ _ _) as [[]]; try done. cbn [st_ret fst snd] in Hr.
    injection Hr as <- <-. split; [done|]. intros u Hu. cbn. rewrite <- elem_of_active_ids.
    2:{ intros v x Hx. by apply (since_ids _ _ HS). }
    unfold active_ids. rewrite !elem_of_list_to_set, !list_elem_of_In, !in_map_iff.
    split; intros (x & <- & Hx); exists x; (split; [done|]); revert Hx; rewrite <- !list_elem_of_In, !list_elem_of_filter;
      rewrite ?andb_True; [tauto|]. intros [Ha Hx]. split; [|done]. split; [done|].
    destruct (Z.eqb_spec (id x) t); [done|done].
Qed.

(** C1: snapshot isolation. Take any run of the manager in which transaction [t] takes a
    snapshot at state [s0] and the run goes on to any state [s]. A version written by
    another transaction [c] that has committed by then is visible in the snapshot exactly
    if [c] had already committed at [s0]: whatever commits later stays invisible. *)
Theorem snapshot_isolation (s0 s1 s : TxnManager) (R R' : gmap Z Z) (t c ts : Z) (snap : TxnSnapshot) :
  history (s0, R) -> takes_snapshot s0 t snap s1 -> rtc hstep (s1, R) (s, R') -> c <> t -> committed_at s c ts ->
  version_visible_to_snapshot c (Some ts) t snap = true <-> committed_at s0 c ts.
Proof.
  intros Hh Ht Hrun Hne (x & Hx & Hst & Hts). pose proof (history_inv _ _ Hh) as HI.
  pose proof (run_since _ _ HI) as HS0. cbn [fst] in HS0.
  destruct (takes_snapshot_contents s0 t snap s1 R HS0 Ht) as (Hstep & Hup & Hact).
  pose proof (rtc_hstep_inv _ _ _ Hrun (hstep_inv _ _ _ Hstep HI)) as HI'.
  pose proof (since_txns _ _ (run_since _ _ HI') c x Hx) as Hc. unfold txn_since in Hc. rewrite Hst in Hc.
  destruct Hc as (ts' & Hts' & _ & Hc). replace ts' with ts in Hc by congruence.
  unfold version_visible_to_snapshot. rewrite Hup, andb_true_iff, Z.leb_le, negb_true_iff, bool_decide_eq_false, Hact by done.
  split.
  - intros [Hle Hn]. destruct Hc as [Hc|[Hc|[_ Hc]]]; [done|done|lia].
  - intros (y & Hy & Hyst & Hyts). pose proof (since_txns _ _ HS0 c y Hy) as Hy'. unfold txn_since in Hy'. rewrite Hyst in Hy'.
    destruct Hy' as (ts2 & Hts2 & Hle & _). replace ts2 with ts in Hle by congruence. split; [done|].
    intros (z & Hz & Hza). congruence.
Qed.

(** One more step of a run. *)
Lemma rtc_snoc h1 h2 h3 : rtc hstep h1 h2 -> hstep h2 h3 -> rtc hstep h1 h3.
Proof. intros H12 H23. eapply rtc_r; eassumption. Qed.

Definition run_state (c : Call) (s : TxnManager) : TxnManager := (perform c s).2.

Lemma reserve_step t ts s R : (reserve_commit_ts t s).1 = Ok ts -> hstep (s, R) (run_state (CReserve t) s, <[t := ts]> R).
Proof.
  intros Hr. apply hs_reserve. unfold run_state. cbn [perform]. unfold ignore. rewrite st_bind_run, Hr.
  destruct (reserve_commit_ts t s) as [r s']. cbn in *. by rewrite Hr.
Qed.

Lemma finalize_step t ts s R : R !! t = Some ts -> hstep (s, R) (run_state (CFinalize t ts) s, R).
Proof. apply hs_finalize. Qed.

Lemma call_step c s R : other_call c s -> hstep (s, R) (run_state c s, R).
Proof. apply hs_call. Qed.

(** Transactions 1 and 2 begin; 1 commits; 3 begins; then 2 commits. *)
Definition before_begin_1 : TxnManager := run_state (CBegin RepeatableRead) (run_state (CBegin RepeatableRead) new).
Definition before_begin_2 : TxnManager := run_state (CReserve 1) before_begin_1.
Definition before_begin : TxnManager := run_state (CFinalize 1 1) before_begin_2.
Definition after_begin : TxnManager := run_state (CBegin RepeatableRead) before_begin.
Definition after_reserve : TxnManager := run_state (CReserve 2) after_begin.
Definition after_commit : TxnManager := run_state (CFinalize 2 2) after_reserve.

Lemma before_begin_history : history (before_begin, <[1 := 1]> ∅).
Proof.
  exists 1. split; [done|].
  eapply rtc_snoc; [|apply (finalize_step 1 1 before_begin_2); by vm_compute].
  eapply rtc_snoc; [|apply (reserve_step 1 1 before_begin_1); by vm_compute].
  eapply rtc_snoc; [|by apply call_step].
  eapply rtc_snoc; [|by apply call_step]. apply rtc_refl.
Qed.

Lemma snapshot_isolation_witness :
  let snap := mkTxnSnapshot 1 {[2]} in
  get_snapshot after_begin 3 = Ok snap /\
  (version_visible_to_snapshot 2 (Some 2) 3 snap = true <-> committed_at before_begin 2 2).
Proof.
  split; [vm_compute; reflexivity|].
  apply (snapshot_isolation before_begin after_begin after_commit (<[1 := 1]> ∅) (<[2 := 2]> (<[1 := 1]> ∅)) 3 2 2).
  - exact before_begin_history.
  - left. exists RepeatableRead. split; vm_compute; reflexivity.
  - eapply rtc_snoc; [|apply (finalize_step 2 2 after_reserve); vm_compute; reflexivity].
    eapply rtc_snoc; [|apply (reserve_step 2 2 after_begin); vm_compute; reflexivity]. apply rtc_refl.
  - discriminate.
  - eexists. split; [vm_compute; reflexivity|]. split; reflexivity.
Defined.

(** A purge can take a row away from a reader. The purge horizon is the least
    [visible_up_to] of the active snapshots and ignores their sets of active transactions:
    when a transaction reserves its commit timestamp, a reader begins, and the commit is
    finalized, the reader's snapshot excludes the deletion but reaches its timestamp. The
    deletion is then planned for purging at the current horizon, and purging the version
    makes the row the reader sees disappear. *)
Theorem purge_loses_visible_row :
  exists s R t x record vs the_row,
    history (s, R) /\ txns s !! t = Some x /\ status x = Active /\
    planned_purge_batch s (purge_horizon s) 1 = [record] /\
    (forall v d, v ∈ vs -> deleted_by_txn v = Some d -> exists ts, deleted_commit_ts v = Some ts /\ committed_at s d ts) /\
    visible_loop t (snapshot x) vs = Some the_row /\
    visible_loop t (snapshot x) (retained_versions (purge_horizon s) vs) = None.
Proof.
  set (a := run_state (CRecordUndo 1 (UDeleteRow "t" 7 [])) (run_state (CBegin RepeatableRead) new)).
  set (b := run_state (CReserve 1) a).
  set (c := run_state (CBegin RepeatableRead) b).
  set (d := run_state (CFinalize 1 1) c).
  exists d, (<[1 := 1]> ∅), 2. eexists. exists (1, UDeleteRow "t" 7 []).
  exists [mkRowVersion [Integer 7] 0 (Some 0) (Some 1) (Some 1)], [Integer 7].
  split.
  { exists 1. split; [done|].
    eapply rtc_snoc; [|apply (finalize_step 1 1 c); by vm_compute].
    eapply rtc_snoc; [|by apply call_step].
    eapply rtc_snoc; [|apply (reserve_step 1 1 a); by vm_compute].
    eapply rtc_snoc; [|by apply call_step].
    eapply rtc_snoc; [|by apply call_step]. apply rtc_refl. }
  split; [by vm_compute|]. split; [done|]. split; [by vm_compute|]. split.
  { intros v e [->|Hv%not_elem_of_nil]%elem_of_cons; [|done]. cbn. intros [= <-]. exists 1. split; [done|].
    eexists. split; [by vm_compute|]. done. }
  split; by vm_compute.
Qed.
