(* ===== verification/V2Pager.v ===== *)
(** * The pager of the v2 engine: [src/storage/v2/pager.rs]

    A [Pager] reads and writes 4096-byte pages through a page cache, keeps each
    transaction's page writes with their before-images, and commits them through the
    write-ahead log. The cache, the transaction manager and the two files are shared with
    the other handles on the same path; the meta page, the page count and the write sets
    belong to the handle.

    Files are byte lists: a write at an offset extends the file (with zeros up to the
    offset). Failures of the operating system other than a short read are not modelled.
    [wait_for_page_write_lock] blocks until another thread changes the lock epoch; the
    parameter [others] is what the other threads do to the shared part meanwhile, and the
    fuel bounds the number of such waits. *)

From S2P Require Import Prelude Types Ast V2Page Wal TxTypes TxnManager.

(** ** Files *)

Record Files := mkFiles { db_file : option bytes; wal_file : option bytes }.

(** [seek(SeekFrom::Start(offset))] and [write_all(data)]. *)
Definition write_at (file : bytes) (offset : nat) (data : bytes) : bytes :=
  let file := file ++ replicate (offset - length file) 0 in
  take offset file ++ data ++ drop (offset + length data) file.

(** [read_exact] of [len] bytes at an offset: an error past the end. *)
Definition read_at (file : bytes) (offset len : nat) : Result bytes :=
  if (offset + len <=? length file)%nat then Ok (take len (drop offset file))
  else Err (Io "failed to fill whole buffer").

Definition page_offset (page_id : PageId) : nat := Z.to_nat (page_id * PAGE_SIZE).

(** The file operations of a commit and of a recovery, in the order they are made. *)
Inductive DiskOp :=
  | WalTruncate
  | WalAppend (data : bytes)
  | DbWrite (page_id : PageId) (page : bytes).

Definition apply_op (op : DiskOp) (d : Files) : Files :=
  match op with
  | WalTruncate => mkFiles (db_file d) (Some [])
  | WalAppend data => mkFiles (db_file d) (Some (default [] (wal_file d) ++ data))
  | DbWrite page_id page => mkFiles (Some (write_at (default [] (db_file d)) (page_offset page_id) page)) (wal_file d)
  end.

Definition apply_ops (ops : list DiskOp) (d : Files) : Files := fold_left (fun d op => apply_op op d) ops d.

(** The files, and the operations made on them so far: what a crash can interrupt. *)
Record Disk := mkDisk { files : Files; journal : list DiskOp }.

Definition run_op (op : DiskOp) (d : Disk) : Disk := mkDisk (apply_op op (files d)) (journal d ++ [op]).

Definition page_size_error : DbError := Storage "storage_v2 page writes require exactly 4096 bytes".

Definition write_raw_page (page_id : PageId) (page : bytes) : ST Disk unit :=
  if negb (Zlen page =? PAGE_SIZE) then st_err page_size_error
  else st_mod (run_op (DbWrite page_id page)).

Definition read_raw_page (d : Disk) (page_id : PageId) : Result bytes :=
  match db_file (files d) with
  | None => Err (Io "No such file or directory")
  | Some file => read_at file (page_offset page_id) PAGE_SIZE_nat
  end.

(** ** State *)

Record PageWrite := mkPageWrite { pw_before_image : option bytes; pw_after_image : bytes }.

(** [TxnPageState { page_writes: BTreeMap<PageId, PageWrite> }] *)
Abbreviation TxnPageState := (gmap PageId PageWrite) (only parsing).

Record Shared := mkShared { disk : Disk; page_cache : gmap PageId bytes; txn_manager : TxnManager }.

Record Pager := mkPager {
  shared : Shared;
  meta : MetaPage;
  committed_page_count : Z;
  txn_page_states : gmap Z TxnPageState
}.

Definition set_disk (x : Disk) (p : Pager) : Pager :=
  mkPager (mkShared x (page_cache (shared p)) (txn_manager (shared p))) (meta p) (committed_page_count p) (txn_page_states p).
Definition set_page_cache (x : gmap PageId bytes) (p : Pager) : Pager :=
  mkPager (mkShared (disk (shared p)) x (txn_manager (shared p))) (meta p) (committed_page_count p) (txn_page_states p).
Definition set_txn_manager (x : TxnManager) (p : Pager) : Pager :=
  mkPager (mkShared (disk (shared p)) (page_cache (shared p)) x) (meta p) (committed_page_count p) (txn_page_states p).
Definition set_shared (x : Shared) (p : Pager) : Pager :=
  mkPager x (meta p) (committed_page_count p) (txn_page_states p).
Definition set_meta (x : MetaPage) (p : Pager) : Pager :=
  mkPager (shared p) x (committed_page_count p) (txn_page_states p).
Definition set_committed_page_count (x : Z) (p : Pager) : Pager :=
  mkPager (shared p) (meta p) x (txn_page_states p).
Definition set_txn_page_states (x : gmap Z TxnPageState) (p : Pager) : Pager :=
  mkPager (shared p) (meta p) (committed_page_count p) x.

Definition set_page_count (x : Z) (p : Pager) : Pager :=
  set_meta (mkMetaPage (page_size (meta p)) x (catalog_page_id (meta p)) (V2Page.next_txn_id (meta p))) p.

(** A call on the locked transaction manager. *)
Definition on_manager {A} (m : ST TxnManager A) : ST Pager A := fun p =>
  let (r, manager) := m (txn_manager (shared p)) in (r, set_txn_manager manager p).

(** ** Errors by their text *)

(** [Display for DbError] *)
Definition error_to_string (e : DbError) : string :=
  match e with
  | Sql message => "sql error: " ++ message
  | Plan message => "plan error: " ++ message
  | Storage message => "storage error: " ++ message
  | Txn message => "transaction error: " ++ message
  | Io message => "io error: " ++ message
  | Serde message => "serde error: " ++ message
  end.

Definition is_deadlock_error (e : DbError) : bool := str_contains (error_to_string e) "deadlock".

Definition is_waitable_lock_error (e : DbError) : bool :=
  let message := error_to_string e in
  str_contains message "page write conflict"
  || str_contains message "page write wait"
  || str_contains message "serializable conflict"
  || str_contains message "predicate write wait".

(** ** Opening *)

Definition bootstrap_new_file : ST Disk MetaPage :=
  let meta := mkMetaPage PAGE_SIZE 2 1 1 in
  write_raw_page 0 (meta_encode meta) ;;!
  let! catalog_page := st_get (fun _ => encode_payload_page Catalog []) in
  write_raw_page 1 catalog_page ;;!
  st_mod (run_op WalTruncate) ;;!
  st_ret meta.

(** The [for frame in frames] loop of [load_meta_and_recover]. *)
Fixpoint apply_frames (frames : list WalFrame) : ST Disk unit :=
  match frames with
  | [] => st_ret tt
  | frame :: frames => write_raw_page (page_id frame) (page_bytes frame) ;;! apply_frames frames
  end.

Definition load_meta_and_recover : ST Disk MetaPage :=
  let! wal := st_read (fun d => wal_file (files d)) in
  (match wal with
   | Some wal_bytes =>
       let! frames := st_get (fun _ => recover_frames wal_bytes) in
       apply_frames frames ;;!
       st_mod (run_op WalTruncate)
   | None => st_ret tt
   end) ;;!
  let! meta_page := st_get (fun d => read_raw_page d 0) in
  st_get (fun _ => meta_decode meta_page).

(** [Pager::open] on files [d], joining a page cache that exists already for the path. *)
Definition open_pager (cache : gmap PageId bytes) : ST Disk Pager :=
  let! db := st_read (fun d => db_file (files d)) in
  let! meta := match db with Some _ => load_meta_and_recover | None => bootstrap_new_file end in
  let! d := st_read (fun d => d) in
  st_ret (mkPager (mkShared d cache (with_next_txn_id (V2Page.next_txn_id meta))) meta (page_count meta) ∅).

(** [attach_txn_manager] *)
Definition attach_txn_manager (manager : TxnManager) : ST Pager unit := st_mod (set_txn_manager manager).

(** ** Transactions *)

Definition txn_not_active (txn_id : Z) : DbError := Txn ("transaction " ++ pretty txn_id ++ " is not active").

Definition validate_transaction (self : Pager) (txn_id : Z) : Result TxnPageState :=
  ok_or (txn_page_states self !! txn_id) (txn_not_active txn_id).

Definition begin_with_txn_id (txn_id : Z) : ST Pager unit :=
  let! known := st_read (fun p => bool_decide (is_Some (txn_page_states p !! txn_id))) in
  if known : bool then st_err (Txn ("transaction " ++ pretty txn_id ++ " is already active"))
  else
    st_mod (fun p => set_meta (mkMetaPage (page_size (meta p)) (page_count (meta p)) (catalog_page_id (meta p))
      (Z.max (V2Page.next_txn_id (meta p)) (saturating_add64 txn_id 1))) p) ;;!
    st_mod (fun p => set_txn_page_states (<[txn_id := ∅]> (txn_page_states p)) p).

Definition begin_pager : ST Pager Z :=
  let! txn_id := on_manager (begin ReadCommitted) in
  fun p =>
    match begin_with_txn_id txn_id p with
    | (Err error, p) => (Err error, (on_manager (abort txn_id) p).2)
    | (Ok tt, p) => (Ok txn_id, p)
    | (Panic w, p) => (Panic w, p)
    | (OutOfFuel, p) => (OutOfFuel, p)
    end.

Definition max_list (l : list Z) (d : Z) : Z := fold_left Z.max l d.

Definition committed_page_count_after_commit (self : Pager) (pages_to_commit : gmap PageId bytes) : Z :=
  max_list (map (fun kv => saturating_add32 kv.1 1) (map_to_list pages_to_commit)) (committed_page_count self).

Definition effective_page_count (self : Pager) (committed : Z) : Z :=
  max_list (flat_map (fun state => map (fun kv : Z * PageWrite => saturating_add32 kv.1 1) (map_to_list state))
              (map snd (map_to_list (txn_page_states self)))) committed.

(** The [for (page_id, page) in &pages_to_commit { write_frame(..)?; }] loop. *)
Fixpoint write_frames (out : bytes) (txn_id : Z) (pages : list (PageId * bytes)) : Result bytes :=
  match pages with
  | [] => Ok out
  | (page_id, page) :: pages =>
      let? out := write_frame out txn_id page_id page in
      write_frames out txn_id pages
  end.

(** A call on the database file. *)
Definition on_disk {A} (m : ST Disk A) : ST Pager A := fun p =>
  let (r, d) := m (disk (shared p)) in (r, set_disk d p).

(** The loop that writes the pages in place and caches them. *)
Fixpoint install_pages (pages : list (PageId * bytes)) : ST Pager unit :=
  match pages with
  | [] => st_ret tt
  | (page_id, page) :: pages =>
      on_disk (write_raw_page page_id page) ;;!
      st_mod (fun p => set_page_cache (<[page_id := page]> (page_cache (shared p))) p) ;;!
      install_pages pages
  end.

Definition commit_pager (txn_id : Z) : ST Pager unit :=
  let! txn_state := st_get (fun p => ok_or (txn_page_states p !! txn_id) (txn_not_active txn_id)) in
  st_mod (fun p => set_txn_page_states (delete txn_id (txn_page_states p)) p) ;;!
  let pages_to_commit := pw_after_image <$> txn_state in
  let! committed_page_count := st_read (fun p => committed_page_count_after_commit p pages_to_commit) in
  let! committed_meta := st_read (fun p => mkMetaPage (page_size (meta p)) committed_page_count
    (catalog_page_id (meta p)) (V2Page.next_txn_id (meta p))) in
  let pages_to_commit := <[0 := meta_encode committed_meta]> pages_to_commit in
  let pages := sorted_items pages_to_commit in
  let! wal_bytes := st_get (fun _ => write_frames [] txn_id pages) in
  let! wal_bytes := st_get (fun _ => write_commit wal_bytes txn_id (Zlen pages)) in
  on_disk (st_mod (run_op WalTruncate)) ;;!
  on_disk (st_mod (run_op (WalAppend wal_bytes))) ;;!
  install_pages pages ;;!
  on_disk (st_mod (run_op WalTruncate)) ;;!
  st_mod (set_committed_page_count committed_page_count) ;;!
  st_mod (fun p => set_page_count (effective_page_count p committed_page_count) p) ;;!
  on_manager (release_transaction_resources txn_id).

(** The loop over [page_writes.into_iter().rev()] shared by [rollback] and
    [cleanup_aborted_transaction_state]. *)
Definition restore_image (cache : gmap PageId bytes) (kv : PageId * PageWrite) : gmap PageId bytes :=
  match pw_before_image kv.2 with
  | Some before_image => <[kv.1 := before_image]> cache
  | None => delete kv.1 cache
  end.

Definition restore_images (writes : TxnPageState) (cache : gmap PageId bytes) : gmap PageId bytes :=
  fold_left restore_image (rev (sorted_items writes)) cache.

Definition drop_txn_state (txn_id : Z) : ST Pager unit :=
  let! txn_state := st_read (fun p => txn_page_states p !! txn_id) in
  (match txn_state with
   | Some writes =>
       st_mod (fun p => set_txn_page_states (delete txn_id (txn_page_states p)) p) ;;!
       st_mod (fun p => set_page_cache (restore_images writes (page_cache (shared p))) p)
   | None => st_ret tt
   end) ;;!
  st_mod (fun p => set_page_count (effective_page_count p (committed_page_count p)) p).

Definition rollback (txn_id : Z) : ST Pager unit :=
  let! _ := st_get (fun p => validate_transaction p txn_id) in
  drop_txn_state txn_id ;;!
  on_manager (release_transaction_resources txn_id).

Definition cleanup_aborted_transaction_state (txn_id : Z) : ST Pager unit :=
  let! status := st_read (fun p => get_status (txn_manager (shared p)) txn_id) in
  match status with
  | Ok Aborted => drop_txn_state txn_id
  | _ => st_ret tt
  end.

(** ** Pages *)

Definition page_out_of_bounds (page_id count : Z) : DbError :=
  Storage ("page " ++ pretty page_id ++ " is out of bounds for database with " ++ pretty count ++ " pages").

Definition read_page (self : Pager) (page_id : PageId) : Result bytes :=
  match page_cache (shared self) !! page_id with
  | Some page => Ok page
  | None =>
      if committed_page_count self <=? page_id then
        Err (page_out_of_bounds page_id (committed_page_count self))
      else read_raw_page (disk (shared self)) page_id
  end.

Definition current_before_image (self : Pager) (page_id : PageId) : Result (option bytes) :=
  match page_cache (shared self) !! page_id with
  | Some page => Ok (Some page)
  | None =>
      if page_id <? committed_page_count self then
        let? page := read_raw_page (disk (shared self)) page_id in Ok (Some page)
      else Ok None
  end.

(** [PageWriteSnapshot]s in page order. *)
Definition pending_page_writes (self : Pager) (txn_id : Z) : Result (list PageWriteSetEntry) :=
  let? page_writes := validate_transaction self txn_id in
  Ok (map (fun kv => mkPageWriteSetEntry kv.1 (pw_before_image kv.2) (pw_after_image kv.2)) (sorted_items page_writes)).

Section Waiting.
Context (others : Shared -> Shared).

Fixpoint wait_for_page_write_lock (fuel : nat) (txn_id : Z) (page_id : PageId) : ST Pager unit :=
  match fuel with
  | O => st_fuel
  | S fuel => fun p =>
      match on_manager (acquire_page_write txn_id page_id) p with
      | (Ok tt, p) => (Ok tt, p)
      | (Err error, p) =>
          (cleanup_aborted_transaction_state txn_id ;;!
           if is_deadlock_error error then st_err error
           else if is_waitable_lock_error error then
             st_mod (fun p => set_shared (others (shared p)) p) ;;!
             wait_for_page_write_lock fuel txn_id page_id
           else st_err error) p
      | (Panic w, p) => (Panic w, p)
      | (OutOfFuel, p) => (OutOfFuel, p)
      end
  end.

Definition acquire_page_write_lock (fuel : nat) (txn_id : Z) (page_id : PageId) : ST Pager unit :=
  let! _ := st_get (fun p => validate_transaction p txn_id) in
  wait_for_page_write_lock fuel txn_id page_id.

(** The write set of a transaction that was validated. *)
Definition expect_state (self : Pager) (txn_id : Z) : Result TxnPageState :=
  match txn_page_states self !! txn_id with
  | Some state => Ok state
  | None => Panic "validated transaction must have a page-write state"
  end.

Definition write_page (fuel : nat) (txn_id : Z) (page_id : PageId) (page : bytes) : ST Pager unit :=
  let! _ := st_get (fun p => validate_transaction p txn_id) in
  if negb (Zlen page =? PAGE_SIZE) then st_err page_size_error
  else
    let! count := st_read (fun p => page_count (meta p)) in
    if count <=? page_id then st_err (page_out_of_bounds page_id count)
    else
      wait_for_page_write_lock fuel txn_id page_id ;;!
      let! page_writes := st_get (fun p => expect_state p txn_id) in
      st_mod (fun p => set_txn_page_states (<[txn_id := delete page_id page_writes]> (txn_page_states p)) p) ;;!
      let! before_image := st_get (fun p =>
        match page_writes !! page_id with
        | Some page_write => Ok (pw_before_image page_write)
        | None => current_before_image p page_id
        end) in
      st_mod (fun p => set_txn_page_states
        (<[txn_id := <[page_id := mkPageWrite before_image page]> (delete page_id page_writes)]> (txn_page_states p)) p) ;;!
      st_mod (fun p => set_page_cache (<[page_id := page]> (page_cache (shared p))) p).

Definition allocate_page_with_kind (fuel : nat) (txn_id : Z) (kind : PageKind) : ST Pager PageId :=
  let! _ := st_get (fun p => validate_transaction p txn_id) in
  let! page_id := st_read (fun p => page_count (meta p)) in
  let! count := st_get (fun _ => if page_id <? u32_max then Ok (page_id + 1) else Panic "attempt to add with overflow") in
  st_mod (set_page_count count) ;;!
  fun p =>
    match wait_for_page_write_lock fuel txn_id page_id p with
    | (Err error, p) => (Err error, set_page_count (saturating_sub (page_count (meta p)) 1) p)
    | (Panic w, p) => (Panic w, p)
    | (OutOfFuel, p) => (OutOfFuel, p)
    | (Ok tt, p) =>
        (let page := empty_page kind in
         let! page_writes := st_get (fun p => expect_state p txn_id) in
         st_mod (fun p => set_txn_page_states
           (<[txn_id := <[page_id := mkPageWrite None page]> page_writes]> (txn_page_states p)) p) ;;!
         st_mod (fun p => set_page_cache (<[page_id := page]> (page_cache (shared p))) p) ;;!
         st_ret page_id) p
    end.

Definition allocate_page (fuel : nat) (txn_id : Z) := allocate_page_with_kind fuel txn_id Leaf.
Definition allocate_leaf_page (fuel : nat) (txn_id : Z) := allocate_page_with_kind fuel txn_id Leaf.
Definition allocate_internal_page (fuel : nat) (txn_id : Z) := allocate_page_with_kind fuel txn_id Internal.
End Waiting.

(** ** Lemmas on sorted entries *)

