(* ===== verification/V2Recovery.v ===== *)
(** * Crash recovery of the v2 engine

    Proofs about V2Pager.v and Wal.v: wherever a crash interrupts a commit's file
    operations, reopening the files yields the database from before the commit or the
    database after it, and a commit that has returned is on disk. *)

From S2P Require Import Prelude Types Ast V2Page Wal TxTypes TxnManager V2Pager.

(** ** Files as functions of the offset *)

(** The byte at an offset, [0] past the end. *)
Definition view (f : bytes) (i : nat) : Z := default 0 (f !! i).

Lemma view_ext f g : length f = length g -> (forall i, view f i = view g i) -> f = g.
Proof.
  intros Hl Hv. apply list_eq. intros i. specialize (Hv i). unfold view in Hv.
  destruct (f !! i) as [x|] eqn:Ef, (g !! i) as [y|] eqn:Eg; simpl in Hv; [congruence| | |done].
  - apply lookup_lt_Some in Ef. apply lookup_ge_None in Eg. lia.
  - apply lookup_lt_Some in Eg. apply lookup_ge_None in Ef. lia.
Qed.

Lemma length_write_at f o d : length (write_at f o d) = (length f `max` (o + length d))%nat.
Proof. unfold write_at. rewrite !length_app, length_take, length_drop, length_app, length_replicate. lia. Qed.

Lemma view_app f g i : view (f ++ g) i = if (i <? length f)%nat then view f i else view g (i - length f).
Proof.
  unfold view. destruct (Nat.ltb_spec i (length f)).
  - by rewrite lookup_app_l.
  - by rewrite lookup_app_r.
Qed.

Lemma view_replicate n i : view (replicate n 0) i = 0.
Proof.
  unfold view. destruct (decide (i < n)%nat); [by rewrite lookup_replicate_2|].
  replace (replicate n 0 !! i) with (@None Z); [done|]. symmetry. apply lookup_ge_None. rewrite length_replicate. lia.
Qed.

Lemma view_ge f i : (length f <= i)%nat -> view f i = 0.
Proof. intros H. unfold view. apply lookup_ge_None in H. by rewrite H. Qed.

Lemma view_write_at f o d i :
  view (write_at f o d) i = if ((o <=? i) && (i <? o + length d))%nat then view d (i - o) else view f i.
Proof.
  unfold write_at. set (f' := f ++ replicate (o - length f) 0).
  assert (Hl : (o <= length f')%nat) by (unfold f'; rewrite length_app, length_replicate; lia).
  assert (Hf : forall j, view f' j = view f j).
  { intros j. unfold f'. rewrite view_app. destruct (Nat.ltb_spec j (length f)); [done|].
    rewrite view_replicate. by rewrite view_ge. }
  rewrite view_app, length_take, Nat.min_l by lia. destruct (Nat.ltb_spec i o) as [Hi|Hi].
  - destruct (Nat.leb_spec o i); [lia|]. cbn [andb]. rewrite <- Hf. unfold view. by rewrite lookup_take_lt.
  - destruct (Nat.leb_spec o i); [|lia]. cbn [andb]. rewrite view_app.
    destruct (Nat.ltb_spec (i - o) (length d)), (Nat.ltb_spec i (o + length d)); try lia.
    rewrite <- Hf. unfold view. rewrite lookup_drop. do 2 f_equal. lia.
Qed.

(** ** Writing a list of pages *)

Definition write_pages (pages : list (Z * bytes)) (f : bytes) : bytes :=
  fold_left (fun f kv => write_at f (page_offset kv.1) kv.2) pages f.

Definition covered (pages : list (Z * bytes)) (i : nat) : Prop :=
  exists kv, kv ∈ pages /\ (page_offset kv.1 <= i < page_offset kv.1 + length kv.2)%nat.

Lemma view_write_pages pages : forall f g i,
  (covered pages i \/ view f i = view g i) -> view (write_pages pages f) i = view (write_pages pages g) i.
Proof.
  induction pages as [|kv pages IH]; intros f g i Hc.
  - destruct Hc as [(kv & Hkv & _)|Hc]; [set_solver|done].
  - cbn [write_pages fold_left]. apply IH. rewrite !view_write_at.
    destruct (Nat.leb_spec (page_offset kv.1) i), (Nat.ltb_spec i (page_offset kv.1 + length kv.2)); cbn [andb];
      [by right|..]; (destruct Hc as [(kv' & [->|Hkv]%elem_of_cons & Hi)|Hc]; [lia| |by right]; left; by exists kv').
Qed.

Lemma view_write_pages_uncovered pages : forall f i,
  ~ covered pages i -> view (write_pages pages f) i = view f i.
Proof.
  induction pages as [|kv pages IH]; intros f i Hn; [done|]. cbn [write_pages fold_left].
  etrans; [apply IH|].
  - intros (kv' & Hkv & Hi). apply Hn. exists kv'. split; [by apply list_elem_of_further|done].
  - rewrite view_write_at. destruct (Nat.leb_spec (page_offset kv.1) i), (Nat.ltb_spec i (page_offset kv.1 + length kv.2));
      cbn [andb]; try done. destruct Hn. exists kv. split; [apply list_elem_of_here|lia].
Qed.

Definition pages_end (pages : list (Z * bytes)) : nat :=
  foldr (fun kv n => (page_offset kv.1 + length kv.2) `max` n)%nat 0%nat pages.

Lemma length_write_pages pages f : length (write_pages pages f) = (length f `max` pages_end pages)%nat.
Proof.
  revert f. induction pages as [|kv pages IH]; intros f; simpl; [lia|].
  unfold write_pages in IH. rewrite IH, length_write_at. lia.
Qed.

(** What interrupted writes of [pages] leave of a file. *)
Definition partly_written (pages : list (Z * bytes)) (f f' : bytes) : Prop :=
  (length f <= length f' <= length f `max` pages_end pages)%nat /\
  forall i, ~ covered pages i -> view f' i = view f i.

(** Writing them all again repairs it. *)
Lemma rewrite_partly_written pages f f' :
  partly_written pages f f' -> write_pages pages f' = write_pages pages f.
Proof.
  intros [Hl Hv]. apply view_ext.
  - rewrite !length_write_pages. lia.
  - intros i. apply view_write_pages. destruct (decide (Exists (fun kv =>
      page_offset kv.1 <= i < page_offset kv.1 + length kv.2)%nat pages)) as [He|He].
    + left. by apply Exists_exists in He.
    + right. apply Hv. intros Hc. by apply He, Exists_exists.
Qed.

Lemma pages_end_elem pages kv : kv ∈ pages -> (page_offset kv.1 + length kv.2 <= pages_end pages)%nat.
Proof. induction 1; simpl; lia. Qed.

Lemma partly_written_refl pages f : partly_written pages f f.
Proof. split; [lia|done]. Qed.

(** One more write, possibly torn. *)
Lemma partly_written_step pages f f' kv k :
  kv ∈ pages -> partly_written pages f f' ->
  partly_written pages f (write_at f' (page_offset kv.1) (take k kv.2)).
Proof.
  intros Hkv [Hl Hv]. pose proof (pages_end_elem _ _ Hkv). split.
  - rewrite length_write_at, length_take. lia.
  - intros i Hn. rewrite view_write_at, length_take.
    destruct (Nat.leb_spec (page_offset kv.1) i), (Nat.ltb_spec i (page_offset kv.1 + Nat.min k (length kv.2)));
      cbn [andb]; [|by apply Hv..]. destruct Hn. exists kv. split; [done|lia].
Qed.

Lemma partly_written_prefix pages pages1 pages2 f :
  pages = pages1 ++ pages2 -> partly_written pages f (write_pages pages1 f).
Proof.
  intros Heq. assert (Hin : forall kv, kv ∈ pages1 -> kv ∈ pages) by set_solver. clear Heq.
  assert (H : forall g, partly_written pages f g -> partly_written pages f (write_pages pages1 g)).
  { induction pages1 as [|kv pages1 IH]; intros g Hg; [done|]. cbn [write_pages fold_left]. apply IH; [set_solver|].
    rewrite <- (firstn_all kv.2). apply partly_written_step; [set_solver|done]. }
  apply H, partly_written_refl.
Qed.

(** Reading back a page that was written. *)
Lemma read_written pages f q page :
  NoDup (map fst pages) -> (q, page) ∈ pages -> Forall (fun kv => 0 <= kv.1 /\ Zlen kv.2 = PAGE_SIZE) pages ->
  read_at (write_pages pages f) (page_offset q) PAGE_SIZE_nat = Ok page.
Proof.
  intros Hnd Hin Hall.
  assert (Hlen : forall kv, kv ∈ pages -> 0 <= kv.1 /\ length kv.2 = PAGE_SIZE_nat).
  { intros kv Hkv. rewrite Forall_forall in Hall. destruct (Hall kv Hkv) as [H1 H2]. split; [done|].
    rewrite PAGE_SIZE_nat_eq. unfold Zlen, PAGE_SIZE in H2. lia. }
  destruct (Hlen _ Hin) as [Hq Hp]. cbn [fst snd] in Hq, Hp.
  unfold read_at. pose proof (pages_end_elem _ _ Hin) as Hend. cbn [fst snd] in Hend. rewrite Hp in Hend.
  destruct (Nat.leb_spec (page_offset q + PAGE_SIZE_nat) (length (write_pages pages f))) as [_|Hlt].
  2:{ rewrite length_write_pages in Hlt. lia. }
  f_equal. apply view_ext.
  - rewrite length_take, length_drop, length_write_pages, Hp. lia.
  - intros i. destruct (decide (i < PAGE_SIZE_nat)%nat) as [Hi|Hi].
    2:{ rewrite !view_ge; [done|lia|]. rewrite length_take. lia. }
    transitivity (view (write_pages pages f) (page_offset q + i)).
    { unfold view. by rewrite lookup_take_lt, lookup_drop. }
    clear Hall Hend. revert f. induction pages as [|kv pages IH]; intros f; [set_solver|].
    cbn [map] in Hnd. apply NoDup_cons in Hnd as [Hn Hnd].
    cbn [write_pages fold_left]. apply elem_of_cons in Hin as [<-|Hin].
    + etrans; [apply view_write_pages_uncovered|].
      * intros ([q' page'] & Hkv & Hi'). cbn [fst snd] in Hi'. destruct (Hlen (q', page')) as [Hq' Hp']; [set_solver|].
        cbn [fst snd] in Hq', Hp'. rewrite Hp' in Hi'.
        assert (q' <> q). { intros ->. apply Hn. apply list_elem_of_In, in_map_iff. exists (q, page'). split; [done|by apply list_elem_of_In]. }
        rewrite PAGE_SIZE_nat_eq in *. unfold page_offset, PAGE_SIZE in Hi'. lia.
      * cbn [fst snd]. rewrite view_write_at, Hp. destruct (Nat.leb_spec (page_offset q) (page_offset q + i)); [|lia].
        destruct (Nat.ltb_spec (page_offset q + i) (page_offset q + PAGE_SIZE_nat)); [|lia]. cbn [andb]. f_equal. lia.
    + apply IH; [done|done|set_solver].
Qed.

(** ** Crashes *)

(** What an operation that was under way leaves: a prefix of its bytes. *)
Inductive torn : DiskOp -> Files -> Files -> Prop :=
  | torn_append data d k : torn (WalAppend data) d (apply_op (WalAppend (take k data)) d)
  | torn_write q page d k : torn (DbWrite q page) d (apply_op (DbWrite q (take k page)) d).

(** The files after a crash in the middle of [ops]. *)
Definition crashed (ops : list DiskOp) (d d' : Files) : Prop :=
  exists done rest, ops = done ++ rest /\
    (d' = apply_ops done d \/ exists op rest', rest = op :: rest' /\ torn op (apply_ops done d) d').

(** The file operations of [commit_pager]. *)
Definition page_ops (pages : list (Z * bytes)) : list DiskOp := map (fun kv => DbWrite kv.1 kv.2) pages.
Definition commit_ops (wal : bytes) (pages : list (Z * bytes)) : list DiskOp :=
  WalTruncate :: WalAppend wal :: page_ops pages ++ [WalTruncate].

Lemma apply_page_ops pages f w :
  apply_ops (page_ops pages) (mkFiles (Some f) w) = mkFiles (Some (write_pages pages f)) w.
Proof.
  revert f. induction pages as [|kv pages IH]; intros f; [done|]. cbn [page_ops map apply_ops fold_left].
  cbn [apply_op db_file default wal_file]. unfold apply_ops, page_ops in IH. by rewrite IH.
Qed.

Lemma apply_ops_app l1 l2 d : apply_ops (l1 ++ l2) d = apply_ops l2 (apply_ops l1 d).
Proof. apply fold_left_app. Qed.

Lemma commit_ops_final wal pages f w :
  apply_ops (commit_ops wal pages) (mkFiles (Some f) w) = mkFiles (Some (write_pages pages f)) (Some []).
Proof.
  unfold commit_ops. change (WalTruncate :: WalAppend wal :: page_ops pages ++ [WalTruncate])
    with ([WalTruncate; WalAppend wal] ++ page_ops pages ++ [WalTruncate]).
  rewrite !apply_ops_app. cbn [apply_ops fold_left apply_op db_file wal_file default].
  change (fold_left (fun d op => apply_op op d) (page_ops pages)) with (apply_ops (page_ops pages)).
  by rewrite apply_page_ops.
Qed.

(** The three situations a crash can leave. *)
Lemma crashed_commit wal pages f d' :
  crashed (commit_ops wal pages) (mkFiles (Some f) (Some [])) d' ->
  (exists k, d' = mkFiles (Some f) (Some (take k wal))) \/
  (exists f', d' = mkFiles (Some f') (Some wal) /\ partly_written pages f f') \/
  d' = mkFiles (Some (write_pages pages f)) (Some []).
Proof.
  intros (done & rest & Heq & Hd). unfold commit_ops in Heq.
  destruct done as [|o1 [|o2 done]].
  - (* nothing done *)
    left. exists 0%nat. cbn [app] in Heq. subst rest. destruct Hd as [->|(op & rest' & [= <- <-] & Ht)]; [done|by inversion Ht].
  - injection Heq as <- Heq. subst rest. left. destruct Hd as [->|(op & rest' & [= <- <-] & Ht)]; [by exists 0%nat|].
    inversion Ht; subst. eexists. done.
  - injection Heq as <- <- Heq.
    assert (Hstart : apply_ops (WalTruncate :: WalAppend wal :: done) (mkFiles (Some f) (Some [])) =
      apply_ops done (mkFiles (Some f) (Some wal))) by done.
    rewrite Hstart in Hd. clear Hstart.
    destruct (app_eq_inv _ _ _ _ Heq) as [(l & H1 & H2)|(l & H1 & H2)].
    + (* inside the page writes *)
      destruct (map_eq_app _ _ _ _ H1) as (pages1 & pages2 & -> & <- & <-).
      change (map (fun kv : Z * bytes => DbWrite kv.1 kv.2) pages1) with (page_ops pages1) in *.
      rewrite apply_page_ops in Hd. right. left. destruct Hd as [->|(op & rest' & -> & Ht)].
      * eexists. split; [done|]. by eapply partly_written_prefix.
      * destruct pages2 as [|kv pages2]; cbn [map app] in H2.
        -- injection H2 as -> ->. inversion Ht.
        -- injection H2 as -> _. inversion Ht; subst. eexists. split; [done|].
           apply partly_written_step; [set_solver|]. by eapply partly_written_prefix.
    + (* the log has been truncated, or is about to be *)
      destruct l as [|op l].
      * rewrite app_nil_r in H1. subst done. rewrite apply_page_ops in Hd. cbn [app] in H2. subst rest.
        destruct Hd as [->|(op & rest' & [= <- <-] & Ht)]; [|by inversion Ht].
        right. left. eexists. split; [done|]. apply (partly_written_prefix pages pages []). by rewrite app_nil_r.
      * cbn [app] in H2. injection H2 as <- H2. symmetry in H2. apply app_eq_nil in H2 as [-> ->].
        destruct Hd as [->|(op & rest' & Hno & _)]; [|done]. subst done. right. right.
        rewrite apply_ops_app, apply_page_ops. done.
Qed.

(** ** The log of a commit *)

Definition frames_of (t : Z) (pages : list (Z * bytes)) : list WalFrame :=
  map (fun kv => mkWalFrame t kv.1 kv.2) pages.

Definition pages_ok (pages : list (Z * bytes)) : Prop :=
  Forall (fun kv => is_u32 kv.1 /\ Zlen kv.2 = PAGE_SIZE) pages.

Lemma write_frames_log pages t out :
  pages_ok pages -> write_frames out t pages = Ok (out ++ log_bytes (map Frame (frames_of t pages))).
Proof.
  intros Hp. revert out. induction Hp as [|[q page] pages [Hq Hs] Hp IH]; intros out; cbn [write_frames].
  - cbn. by rewrite app_nil_r.
  - cbn [fst snd] in Hs. unfold write_frame. rewrite Hs, Z.eqb_refl. cbn [negb bind]. rewrite IH. f_equal.
    by rewrite <- Hs, <- !app_assoc.
Qed.

Lemma commit_log pages t :
  pages_ok pages ->
  (let? wal := write_frames [] t pages in write_commit wal t (Zlen pages)) = Ok (log_bytes (txn_log t (frames_of t pages))).
Proof.
  intros Hp. rewrite write_frames_log by done. cbn [bind app]. unfold write_commit. f_equal.
  unfold txn_log. rewrite log_bytes_app, <- !app_assoc. f_equal. unfold log_bytes. cbn [flat_map record_bytes].
  rewrite app_nil_r. unfold Zlen, frames_of. by rewrite length_map.
Qed.

Lemma frames_of_wf t pages :
  pages_ok pages ->
  Forall (fun f => txn_id f = t /\ is_u32 (page_id f) /\ Zlen (page_bytes f) = PAGE_SIZE) (frames_of t pages).
Proof. intros Hp. apply Forall_map. eapply Forall_impl; [exact Hp|]. intros kv [H1 H2]. by split_and!. Qed.

(** Replaying the frames writes the pages. *)
Lemma apply_frames_run t pages f w j :
  pages_ok pages ->
  apply_frames (frames_of t pages) (mkDisk (mkFiles (Some f) w) j) =
  (Ok tt, mkDisk (mkFiles (Some (write_pages pages f)) w) (j ++ page_ops pages)).
Proof.
  intros Hp. revert f j. induction Hp as [|kv pages [H1 H2] Hp IH]; intros f j.
  { cbn. by rewrite app_nil_r. }
  cbn [frames_of map apply_frames page_id page_bytes]. rewrite st_bind_run. unfold write_raw_page at 1 2.
  rewrite H2, Z.eqb_refl. cbn [negb st_mod fst snd]. unfold run_op at 1. cbn [apply_op files journal db_file wal_file default].
  unfold frames_of in IH. rewrite IH. cbn [page_ops map]. by rewrite <- app_assoc.
Qed.

(** Recovery when the log holds the frames of [pages], or nothing. *)
Lemma recover_run t pages f wal d frames :
  files d = mkFiles (Some f) (Some wal) ->
  pages_ok pages -> recover_frames wal = Ok frames -> (frames = [] \/ frames = frames_of t pages) ->
  files (load_meta_and_recover d).2 =
  mkFiles (Some (if bool_decide (frames = []) then f else write_pages pages f)) (Some []).
Proof.
  destruct d as [fs j]. cbn [files]. intros -> Hp Hr Hfr. unfold load_meta_and_recover. rewrite st_bind_run.
  cbn [st_read fst snd files wal_file].
  assert (Hrun : exists j', (let! frames := st_get (fun _ => recover_frames wal) in
      apply_frames frames ;;! st_mod (run_op WalTruncate)) (mkDisk (mkFiles (Some f) (Some wal)) j) =
    (Ok tt, mkDisk (mkFiles (Some (if bool_decide (frames = []) then f else write_pages pages f)) (Some [])) j')).
  { rewrite st_bind_run. cbn [st_get fst snd]. rewrite Hr, st_bind_run.
    destruct Hfr as [->| ->].
    - rewrite bool_decide_true by done. by eexists.
    - rewrite apply_frames_run by done. cbn [fst snd st_mod]. unfold run_op. cbn [apply_op files db_file].
      eexists. do 4 f_equal. case_bool_decide as Hn; [|done]. by destruct pages. }
  destruct Hrun as [j' Hrun].
  rewrite st_bind_run, Hrun. cbn [fst snd]. rewrite st_bind_run. cbn [st_get fst snd].
  by destruct (read_raw_page _ _).
Qed.

(** ** A commit's file operations *)

Lemma install_pages_run pages : forall p f w j,
  pages_ok pages -> disk (shared p) = mkDisk (mkFiles (Some f) w) j ->
  exists p', install_pages pages p = (Ok tt, p') /\
    disk (shared p') = mkDisk (mkFiles (Some (write_pages pages f)) w) (j ++ page_ops pages) /\
    txn_page_states p' = txn_page_states p /\
    page_cache (shared p') = fold_left (fun c kv => <[kv.1 := kv.2]> c) pages (page_cache (shared p)) /\
    txn_manager (shared p') = txn_manager (shared p) /\ meta p' = meta p.
Proof.
  induction pages as [|[q page] pages IH]; intros p f w j Hp Hd.
  { exists p. rewrite Hd. cbn. by rewrite app_nil_r. }
  apply Forall_cons in Hp as [[_ Hs] Hp]. cbn [snd] in Hs. cbn [install_pages].
  rewrite st_bind_run. unfold on_disk at 1 2. unfold write_raw_page. rewrite Hs, Z.eqb_refl. cbn [negb st_mod].
  rewrite Hd. unfold run_op at 1. cbn [apply_op files journal db_file wal_file default fst snd]. rewrite st_bind_run. cbn [st_mod fst snd].
  match goal with |- context [install_pages pages ?p1] =>
    destruct (IH p1 (write_at f (page_offset q) page) w (j ++ [DbWrite q page])) as (p' & Hr & Hd' & Ht & Hc & Hm & Hme); [done|done|] end.
  exists p'. split; [done|]. split; [by rewrite Hd', <- app_assoc|]. split; [done|]. split; [done|]. split; done.
Qed.

(** The pages a commit of [writes] installs: the after-images and the meta page. *)
Definition committed_pages (p : Pager) (writes : gmap Z PageWrite) : list (Z * bytes) :=
  let after := pw_after_image <$> writes in
  let meta := mkMetaPage (page_size (meta p)) (committed_page_count_after_commit p after)
    (catalog_page_id (meta p)) (V2Page.next_txn_id (meta p)) in
  sorted_items (<[0 := meta_encode meta]> after).

Definition writes_ok (writes : gmap Z PageWrite) : Prop :=
  map_Forall (fun q w => is_u32 q /\ Zlen (pw_after_image w) = PAGE_SIZE) writes.

Lemma committed_pages_ok p writes : writes_ok writes -> pages_ok (committed_pages p writes).
Proof.
  intros Hw. apply Forall_forall. intros [q page] Hin. apply elem_of_sorted_items in Hin.
  apply lookup_insert_Some in Hin as [[<- <-]|[_ Hin]].
  - split; [done|]. match goal with |- Zlen (_, meta_encode ?m).2 = _ => destruct (meta_encode_wf m) as [Hl _] end.
    cbn [snd]. unfold Zlen. rewrite Hl, PAGE_SIZE_nat_eq. done.
  - rewrite lookup_fmap in Hin. destruct (writes !! q) as [w|] eqn:Eq; [|done]. injection Hin as <-. by apply (Hw q w).
Qed.

Lemma commit_pager_disk p t writes f :
  txn_page_states p !! t = Some writes -> writes_ok writes -> files (disk (shared p)) = mkFiles (Some f) (Some []) ->
  let pages := committed_pages p writes in
  let ops := commit_ops (log_bytes (txn_log t (frames_of t pages))) pages in
  let after := disk (shared (commit_pager t p).2) in
  journal after = journal (disk (shared p)) ++ ops /\ files after = mkFiles (Some (write_pages pages f)) (Some []).
Proof.
  intros Ht Hw Hd pages ops. pose proof (committed_pages_ok p writes Hw) as Hp. fold pages in Hp. cbv zeta.
  enough (H : disk (shared (commit_pager t p).2) =
    mkDisk (mkFiles (Some (write_pages pages f)) (Some [])) (journal (disk (shared p)) ++ ops)) by by rewrite H.
  unfold commit_pager. rewrite st_bind_run. cbn [st_get fst snd]. rewrite Ht. cbn [ok_or].
  rewrite st_bind_run. cbn [st_mod fst snd]. rewrite st_bind_run. cbn [st_read fst snd].
  rewrite st_bind_run. cbn [st_read fst snd].
  match goal with |- context [write_frames [] t ?l] => change l with pages end.
  rewrite st_bind_run. cbn [st_get fst snd]. pose proof (commit_log pages t Hp) as Hlog.
  destruct (write_frames [] t pages) as [wal0| | |]; try done. cbn [bind] in Hlog.
  rewrite st_bind_run. cbn [st_get fst snd]. rewrite Hlog.
  rewrite st_bind_run. unfold on_disk at 1 2. cbn [st_mod fst snd]. rewrite st_bind_run. unfold on_disk at 1 2. cbn [st_mod fst snd].
  rewrite st_bind_run.
  match goal with |- context [install_pages pages ?p1] =>
    destruct (install_pages_run pages p1 f (Some (log_bytes (txn_log t (frames_of t pages))))
      (journal (disk (shared p)) ++ [WalTruncate; WalAppend (log_bytes (txn_log t (frames_of t pages)))]))
      as (p2 & -> & Hd2 & _); [done| |] end.
  { cbn. unfold run_op. cbn [files journal]. by rewrite Hd, <- app_assoc. }
  cbn [fst snd]. rewrite st_bind_run. unfold on_disk. cbn [st_mod fst snd]. rewrite Hd2.
  rewrite st_bind_run. cbn [st_mod fst snd]. rewrite st_bind_run. cbn [st_mod fst snd].
  unfold on_manager. destruct (release_transaction_resources _ _). cbn. unfold run_op. cbn. by rewrite <- !app_assoc.
Qed.

(** The log of a commit, cut anywhere, commits nothing or the commit's pages. *)
Lemma commit_frames_wf p t writes :
  writes_ok writes -> Z.of_nat (S (size writes)) <= u32_max ->
  let frames := frames_of t (committed_pages p writes) in
  Zlen frames <= u32_max /\
  Forall (fun f => txn_id f = t /\ is_u32 (page_id f) /\ Zlen (page_bytes f) = PAGE_SIZE) frames.
Proof.
  intros Hw Hn. split; [|by apply frames_of_wf, committed_pages_ok].
  unfold frames_of, committed_pages, Zlen. rewrite length_map, length_sorted_items.
  rewrite map_size_insert, map_size_fmap. case_match; unfold Datatypes.id; lia.
Qed.

Lemma commit_log_whole p t writes :
  writes_ok writes -> is_u64 t -> Z.of_nat (S (size writes)) <= u32_max ->
  let frames := frames_of t (committed_pages p writes) in
  recover_frames (log_bytes (txn_log t frames)) = Ok frames.
Proof. intros Hw Hu Hn. destruct (commit_frames_wf p t writes Hw Hn). by apply recover_txn. Qed.

Lemma commit_log_prefix p t writes k :
  writes_ok writes -> is_u64 t -> Z.of_nat (S (size writes)) <= u32_max ->
  let frames := frames_of t (committed_pages p writes) in
  let cut := recover_frames (take k (log_bytes (txn_log t frames))) in
  cut = Ok [] \/ cut = Ok frames.
Proof.
  intros Hw Hu Hn frames cut. unfold cut. destruct (commit_frames_wf p t writes Hw Hn) as [H1 H2].
  destruct (decide (k < length (log_bytes (txn_log t frames)))%nat).
  - left. by apply recover_txn.
  - right. rewrite take_ge by lia. by apply recover_txn.
Qed.

(** A page the transaction wrote, read back. *)
Lemma read_committed_page p writes f q w :
  writes_ok writes -> q <> 0 -> writes !! q = Some w ->
  read_at (write_pages (committed_pages p writes) f) (page_offset q) PAGE_SIZE_nat = Ok (pw_after_image w).
Proof.
  intros Hw Hq Hqw. apply read_written.
  - apply sorted_items_NoDup.
  - apply elem_of_sorted_items. rewrite lookup_insert_ne by done. by rewrite lookup_fmap, Hqw.
  - eapply Forall_impl; [by apply committed_pages_ok|]. intros kv [H1 H2]. split; [width|done].
Qed.

(** ** Theorem *)

(** C2: commits survive crashes. A commit makes a sequence of operations on the two
    files; a crash after any number of them, with the one under way torn at any byte,
    leaves files from which reopening recovers, with an empty log, either the database
    file as it was before the commit or the one after it. The latter holds every page the
    transaction wrote, and recovering it changes nothing. *)
Theorem commit_crash_safe (p : Pager) (t : Z) (writes : gmap Z PageWrite) (f : bytes) :
  txn_page_states p !! t = Some writes -> writes_ok writes -> is_u64 t ->
  Z.of_nat (S (size writes)) <= u32_max -> files (disk (shared p)) = mkFiles (Some f) (Some []) ->
  let after := disk (shared (commit_pager t p).2) in
  exists ops f', journal after = journal (disk (shared p)) ++ ops /\
    files after = apply_ops ops (files (disk (shared p))) /\ files after = mkFiles (Some f') (Some []) /\
    (forall q w, q <> 0 -> writes !! q = Some w -> read_raw_page after q = Ok (pw_after_image w)) /\
    (forall d', crashed ops (files (disk (shared p))) (files d') ->
       exists g, files (load_meta_and_recover d').2 = mkFiles (Some g) (Some []) /\ (g = f \/ g = f')) /\
    files (load_meta_and_recover after).2 = files after.
Proof.
  intros Ht Hw Hu Hn Hd after. set (pages := committed_pages p writes).
  pose proof (committed_pages_ok p writes Hw) as Hp. fold pages in Hp.
  set (wal := log_bytes (txn_log t (frames_of t pages))).
  destruct (commit_pager_disk p t writes f Ht Hw Hd) as [Hj Hafter]. fold after pages wal in Hj, Hafter.
  assert (Hr : forall k, exists frames, recover_frames (take k wal) = Ok frames /\ (frames = [] \/ frames = frames_of t pages)).
  { intros k. destruct (commit_log_prefix p t writes k Hw Hu Hn); eauto. }
  exists (commit_ops wal pages), (write_pages pages f).
  split; [done|]. rewrite Hd. split; [by rewrite commit_ops_final|]. split; [done|]. split.
  { intros q w Hq Hqw. unfold read_raw_page. rewrite Hafter. cbn [db_file]. by apply read_committed_page. }
  split.
  - intros d' Hc. destruct (crashed_commit _ _ _ _ Hc) as [[k Hd']|[(f1 & Hd' & Hpart)|Hd']].
    + destruct (Hr k) as (frames & Hrk & Hfr). eexists. split; [by apply (recover_run t pages _ _ _ _ Hd' Hp Hrk)|].
      case_bool_decide; auto.
    + pose proof (commit_log_whole p t writes Hw Hu Hn) as Hall.
      eexists. split; [by apply (recover_run t pages _ _ _ _ Hd' Hp Hall); right|]. right.
      case_bool_decide as Hnil; [|by apply rewrite_partly_written].
      rewrite <- (rewrite_partly_written _ _ _ Hpart). apply map_eq_nil in Hnil. fold pages in Hnil. by rewrite Hnil.
    + eexists. split; [by apply (recover_run t pages _ _ _ [] Hd'); [| |left]|]. rewrite bool_decide_true by done. auto.
  - rewrite (recover_run t pages _ _ _ [] Hafter); [|done|done|by left]. by rewrite bool_decide_true.
Qed.

(** A handle on a one-page database whose transaction 3 has written page 1. *)
Definition sample_pager : Pager :=
  mkPager (mkShared (mkDisk (mkFiles (Some (sample_page 0)) (Some [])) []) ∅ (with_next_txn_id 4)) (mkMetaPage PAGE_SIZE 2 1 4) 2
    {[ 3 := {[ 1 := mkPageWrite None (sample_page 6) ]} ]}.

Lemma commit_crash_safe_witness :
  let after := disk (shared (commit_pager 3 sample_pager).2) in
  exists ops f', journal after = ops /\
    files after = apply_ops ops (files (disk (shared sample_pager))) /\ files after = mkFiles (Some f') (Some []) /\
    (forall q w, q <> 0 -> ({[ 1 := mkPageWrite None (sample_page 6) ]} : gmap Z PageWrite) !! q = Some w ->
       read_raw_page after q = Ok (pw_after_image w)) /\
    (forall d', crashed ops (files (disk (shared sample_pager))) (files d') ->
       exists g, files (load_meta_and_recover d').2 = mkFiles (Some g) (Some []) /\ (g = sample_page 0 \/ g = f')) /\
    files (load_meta_and_recover after).2 = files after.
Proof.
  apply (commit_crash_safe sample_pager 3 {[ 1 := mkPageWrite None (sample_page 6) ]} (sample_page 0)).
  - reflexivity.
  - apply map_Forall_singleton. split; by_compute.
  - by_compute.
  - vm_compute. discriminate.
  - reflexivity.
Defined.
