(* ===== verification/PageStore.v ===== *)
(** * The page store: what the trees of the v2 engine ask of the pager

    The B+ trees reach pages only through [read_page], [acquire_page_write_lock],
    [write_page] and [allocate_page]. [PageStore] collects these operations for one
    transaction, and [PageStoreLaws] the promises the trees rely on when no other
    transaction stands in the way; PagerStore.v proves them of the pager. *)

From S2P Require Import Prelude V2Page.

Class PageStore (S : Type) := {
  ps_read : S -> PageId -> Result bytes;
  ps_lock : PageId -> ST S unit;
  ps_write : PageId -> bytes -> ST S unit;
  ps_alloc : PageKind -> ST S PageId
}.

(** [ps_ready] describes the states in which the transaction can write, and [ps_room] is
    the number of pages that can still be allocated. *)
Class PageStoreLaws (S : Type) `{PageStore S} (ps_ready : S -> Prop) (ps_room : S -> Z) : Prop := {
  ps_lock_law s q page :
    ps_ready s -> ps_read s q = Ok page ->
    exists s', ps_lock q s = (Ok tt, s') /\ ps_ready s' /\ ps_room s' = ps_room s /\
      (forall r, ps_read s' r = ps_read s r);
  ps_write_law s q page old :
    ps_ready s -> ps_read s q = Ok old -> Zlen page = PAGE_SIZE ->
    exists s', ps_write q page s = (Ok tt, s') /\ ps_ready s' /\ ps_room s' = ps_room s /\
      (forall r, ps_read s' r = if r =? q then Ok page else ps_read s r);
  ps_alloc_law s kind :
    ps_ready s -> 0 < ps_room s ->
    exists q s', ps_alloc kind s = (Ok q, s') /\ ps_ready s' /\ ps_room s' = ps_room s - 1 /\
      is_ok (ps_read s q) = false /\
      (forall r, ps_read s' r = if r =? q then Ok (empty_page kind) else ps_read s r)
}.
