(* ===== verification/PagerStore.v ===== *)
(** * The pager as a page store

    Where no other transaction holds or waits for pages, the pager keeps the promises of
    PageStore.v: its locks are granted at once, a write is read back and changes nothing
    else, and an allocated page is fresh. *)

From S2P Require Import Prelude Types Ast V2Page Wal TxTypes TxnManager WaitGraph TxnRelease TxnLocks TxnRequests V2Pager PageStore.

Definition pager_store (others : Shared -> Shared) (fuel : nat) (txn_id : Z) : PageStore Pager := {|
  ps_read := read_page;
  ps_lock := acquire_page_write_lock others fuel txn_id;
  ps_write := write_page others fuel txn_id;
  ps_alloc := allocate_page_with_kind others fuel txn_id
|}.

(** Nobody but [t] owns a page or waits for one. *)
Definition undisturbed (t : Z) (m : TxnManager) : Prop :=
  active m t /\ page_write_wait_queues m = ∅ /\ forall q o, page_write_owners m !! q = Some o -> o = t.

Lemma acquire_undisturbed t q m :
  undisturbed t m -> exists m', acquire_page_write t q m = (Ok tt, m') /\ undisturbed t m' /\
    page_write_owners m' !! q = Some t.
Proof.
  intros (Ha & Hq & Ho). unfold acquire_page_write. set (fuel := retry_fuel m).
  assert (Hf : exists f, fuel = S f) by (unfold fuel, retry_fuel; by eexists). destruct Hf as [f ->].
  cbn [acquire_page_write_fuel]. rewrite st_bind_run. cbn [st_read fst snd].
  destruct (page_write_owners m !! q) as [o|] eqn:Eo.
  - apply Ho in Eo as Hot. subst o. rewrite Z.eqb_refl. rewrite st_bind_run. cbn [st_mod fst snd].
    eexists. split; [done|]. unfold dequeue_front_waiter, dequeue_front. rewrite Hq, lookup_empty. by split.
  - rewrite st_bind_run. cbn [st_get fst snd]. rewrite (ensure_active_Ok _ _ Ha). rewrite st_bind_run. cbn [st_read fst snd].
    unfold front. rewrite Hq, lookup_empty. cbn [default head]. rewrite st_bind_run. cbn [st_mod fst snd]. rewrite st_bind_run. cbn [st_mod fst snd].
    eexists. split; [done|]. unfold dequeue_front_waiter, dequeue_front. rewrite Hq, lookup_empty. cbn. split; [|apply lookup_insert_eq].
    split; [done|]. split; [done|]. cbn. intros q' o [[_ <-]|[_ Hl]]%lookup_insert_Some; [done|by eapply Ho].
Qed.

Definition pager_room (p : Pager) : Z := u32_max - page_count (meta p).

Record pager_ready (t : Z) (p : Pager) : Prop := {
  ready_alone : undisturbed t (txn_manager (shared p));
  ready_state : is_Some (txn_page_states p !! t);
  ready_count : committed_page_count p <= page_count (meta p);
  ready_cache q : is_Some (page_cache (shared p) !! q) -> q < page_count (meta p)
}.

Lemma lock_step others fuel t q p :
  pager_ready t p -> (0 < fuel)%nat ->
  exists m, wait_for_page_write_lock others fuel t q p = (Ok tt, set_txn_manager m p) /\ undisturbed t m /\
    page_write_owners m !! q = Some t.
Proof.
  intros Hr Hf. destruct fuel as [|fuel]; [lia|]. destruct (acquire_undisturbed t q _ (ready_alone _ _ Hr)) as (m & Hm & Hu & Ho).
  exists m. split; [|done]. cbn [wait_for_page_write_lock]. unfold on_manager. by rewrite Hm.
Qed.

Lemma ready_set_manager t p m : pager_ready t p -> undisturbed t m -> pager_ready t (set_txn_manager m p).
Proof. intros Hr Hu. split; [done|apply Hr..]. Qed.

Lemma validate_ready t p : pager_ready t p -> exists writes, validate_transaction p t = Ok writes /\ txn_page_states p !! t = Some writes.
Proof. intros Hr. destruct (ready_state _ _ Hr) as [w Hw]. exists w. unfold validate_transaction. by rewrite Hw. Qed.

Lemma read_page_bound t p q page : pager_ready t p -> read_page p q = Ok page -> q < page_count (meta p).
Proof.
  intros Hr. unfold read_page. destruct (page_cache (shared p) !! q) eqn:E.
  - intros _. by apply (ready_cache _ _ Hr).
  - destruct (Z.leb_spec (committed_page_count p) q); [done|]. pose proof (ready_count _ _ Hr). lia.
Qed.

(** Putting a page into the cache. *)
Lemma cached_ready t p p' q page :
  pager_ready t p -> undisturbed t (txn_manager (shared p')) -> is_Some (txn_page_states p' !! t) ->
  committed_page_count p' = committed_page_count p -> page_count (meta p) <= page_count (meta p') ->
  page_cache (shared p') = <[q := page]> (page_cache (shared p)) -> q < page_count (meta p') -> pager_ready t p'.
Proof.
  intros Hr Hu Hs Hc Hm Hcache Hq. pose proof (ready_count _ _ Hr). split; [done|done|lia|].
  rewrite Hcache. intros r [x [[<- _]|[_ Hx]]%lookup_insert_Some]; [done|].
  assert (r < page_count (meta p)); [|lia]. apply (ready_cache _ _ Hr). by eexists.
Qed.

Lemma cached_read p p' q page :
  page_cache (shared p') = <[q := page]> (page_cache (shared p)) ->
  committed_page_count p' = committed_page_count p -> disk (shared p') = disk (shared p) ->
  forall r, read_page p' r = if r =? q then Ok page else read_page p r.
Proof.
  intros Hcache Hc Hd r. unfold read_page. rewrite Hcache, Hc, Hd. destruct (Z.eqb_spec r q) as [->|Hne].
  - by rewrite lookup_insert_eq.
  - by rewrite lookup_insert_ne.
Qed.

Lemma current_before_image_readable p q old :
  read_page p q = Ok old -> exists before, current_before_image p q = Ok before.
Proof.
  unfold read_page, current_before_image. destruct (page_cache (shared p) !! q); [eauto|].
  destruct (Z.leb_spec (committed_page_count p) q), (Z.ltb_spec q (committed_page_count p)); try lia; [done|].
  intros ->. eauto.
Qed.

Lemma write_step others fuel t q page old p :
  (0 < fuel)%nat -> pager_ready t p -> read_page p q = Ok old -> Zlen page = PAGE_SIZE ->
  exists p', write_page others fuel t q page p = (Ok tt, p') /\ pager_ready t p' /\ pager_room p' = pager_room p /\
    (forall r, read_page p' r = if r =? q then Ok page else read_page p r).
Proof.
  intros Hf Hr Hold Hl. destruct (validate_ready _ _ Hr) as (writes & Hv & Hw).
  destruct (lock_step others fuel t q p Hr Hf) as (m & Hm & Hu & _).
  destruct (current_before_image_readable _ _ _ Hold) as [before Hb].
  pose proof (read_page_bound _ _ _ _ Hr Hold) as Hq. unfold write_page. rewrite st_bind_run. cbn [st_get fst snd]. rewrite Hv.
  rewrite Hl, Z.eqb_refl. cbn [negb]. rewrite st_bind_run. cbn [st_read fst snd].
  destruct (Z.leb_spec (page_count (meta p)) q); [lia|]. rewrite st_bind_run, Hm. cbn [fst snd].
  rewrite st_bind_run. cbn [st_get fst snd]. unfold expect_state. cbn [txn_page_states set_txn_manager]. rewrite Hw.
  rewrite st_bind_run. cbn [st_mod fst snd]. rewrite st_bind_run. cbn [st_get fst snd].
  assert (Hbefore : exists image, (match writes !! q with
    | Some page_write => Ok (pw_before_image page_write)
    | None => current_before_image (set_txn_page_states (<[t:=delete q writes]> (txn_page_states (set_txn_manager m p))) (set_txn_manager m p)) q
    end) = Ok image).
  { destruct (writes !! q); [eauto|]. exists before. exact Hb. }
  destruct Hbefore as [image ->]. rewrite st_bind_run. cbn [st_mod fst snd]. eexists. split; [done|]. split.
  - apply (cached_ready t p _ q page); try done; cbn; try lia. rewrite lookup_insert_eq. by eexists.
  - split; [done|]. by apply cached_read.
Qed.

Lemma alloc_step others fuel t kind p :
  (0 < fuel)%nat -> pager_ready t p -> 0 < pager_room p ->
  exists q p', allocate_page_with_kind others fuel t kind p = (Ok q, p') /\ pager_ready t p' /\
    pager_room p' = pager_room p - 1 /\ is_ok (read_page p q) = false /\
    (forall r, read_page p' r = if r =? q then Ok (empty_page kind) else read_page p r).
Proof.
  intros Hf Hr Hroom. destruct (validate_ready _ _ Hr) as (writes & Hv & Hw). set (q := page_count (meta p)).
  unfold allocate_page_with_kind. rewrite st_bind_run. cbn [st_get fst snd]. rewrite Hv.
  rewrite st_bind_run. cbn [st_read fst snd]. fold q. rewrite st_bind_run. cbn [st_get fst snd].
  unfold pager_room in Hroom. destruct (Z.ltb_spec q u32_max); [|unfold q in *; lia].
  rewrite st_bind_run. cbn [st_mod fst snd]. set (p1 := set_page_count (q + 1) p).
  assert (Hr1 : pager_ready t p1).
  { pose proof (ready_count _ _ Hr). split; cbn; [apply Hr|apply Hr|lia|].
    intros r Hc. apply (ready_cache _ _ Hr) in Hc. unfold q. lia. }
  destruct (lock_step others fuel t q p1 Hr1 Hf) as (m & Hm & Hu & _). rewrite Hm.
  rewrite st_bind_run. cbn [st_get fst snd]. unfold expect_state. cbn [txn_page_states set_txn_manager].
  replace (txn_page_states p1) with (txn_page_states p) by done. rewrite Hw.
  rewrite st_bind_run. cbn [st_mod fst snd]. rewrite st_bind_run. cbn [st_mod fst snd].
  exists q. eexists. split; [done|]. split; [|split; [|split]].
  - apply (cached_ready t p1 _ q (empty_page kind)); try done; cbn; try lia. rewrite lookup_insert_eq. by eexists.
  - unfold pager_room, q. cbn. lia.
  - destruct (read_page p q) eqn:E; try done. apply (read_page_bound t) in E; [unfold q in *; lia|done].
  - by apply cached_read.
Qed.

Lemma pager_store_laws others fuel t :
  (0 < fuel)%nat -> @PageStoreLaws Pager (pager_store others fuel t) (pager_ready t) pager_room.
Proof.
  intros Hf. split; cbn [ps_read ps_lock ps_write ps_alloc pager_store].
  - intros p q page Hr Hp. destruct (validate_ready _ _ Hr) as (writes & Hv & Hw).
    destruct (lock_step others fuel t q p Hr Hf) as (m & Hm & Hu & _).
    unfold acquire_page_write_lock. rewrite st_bind_run. cbn [st_get fst snd]. rewrite Hv, Hm.
    eexists. split; [done|]. split; [by apply ready_set_manager|done].
  - intros p q page old. by apply write_step.
  - intros p kind. by apply alloc_step.
Qed.

(** C29: the pager is a page store. For a transaction that is active on the handle while
    nobody else owns a page or waits for one, locking a page it can read is granted and
    changes no page; a write of 4096 bytes to such a page succeeds, is read back, and
    changes no other page; an allocation succeeds while page numbers are left, returns a
    page that could not be read before and now reads as an empty page of its kind, and
    changes no other page; and the transaction stays in that position. *)
Theorem pager_page_store (others : Shared -> Shared) (fuel : nat) (t : Z) :
  (0 < fuel)%nat -> @PageStoreLaws Pager (pager_store others fuel t) (pager_ready t) pager_room.
Proof. apply pager_store_laws. Qed.

Lemma pager_page_store_witness :
  @PageStoreLaws Pager (pager_store (fun sh => sh) 1 3) (pager_ready 3) pager_room.
Proof. apply (pager_page_store (fun sh => sh) 1 3). apply Nat.lt_0_1. Defined.
