(* ===== verification/V2Rollback.v ===== *)
(** * Rolling back page writes

    The before-images a transaction collects undo its page writes and allocations; and
    what two handles on one database do to each other's page counts. *)

From S2P Require Import Prelude Types Ast V2Page Wal TxTypes TxnManager V2Pager PagerStore.

(** ** What a transaction does to pages *)

Inductive PageCall :=
  | WritePage (page_id : PageId) (page : bytes)
  | AllocatePage (kind : PageKind).

(** A call whose page lock is granted without waiting: the wait loop has fuel for one
    attempt, and [others] never runs. *)
Definition page_call (others : Shared -> Shared) (t : Z) (c : PageCall) : ST Pager unit :=
  match c with
  | WritePage q page => write_page others 1 t q page
  | AllocatePage kind => let! _ := allocate_page_with_kind others 1 t kind in st_ret tt
  end.

Fixpoint page_calls (others : Shared -> Shared) (t : Z) (calls : list PageCall) : ST Pager unit :=
  match calls with
  | [] => st_ret tt
  | c :: calls => page_call others t c ;;! page_calls others t calls
  end.

(** ** Restoring the cache *)

Lemma lookup_restore_images_list items : forall cache q,
  NoDup (map fst items) ->
  fold_left restore_image items cache !! q =
  match (list_to_map items : gmap Z PageWrite) !! q with
  | Some w => pw_before_image w
  | None => cache !! q
  end.
Proof.
  induction items as [|[r w] items IH]; intros cache q Hnd; [by rewrite list_to_map_nil, lookup_empty|].
  apply NoDup_cons in Hnd as [Hn Hnd]. cbn [fold_left]. rewrite IH by done.
  change (list_to_map ((r, w) :: items)) with (<[r := w]> (list_to_map items) : gmap Z PageWrite).
  destruct (decide (q = r)) as [->|Hne].
  - rewrite lookup_insert_eq. rewrite (not_elem_of_list_to_map_1 items) by done.
    unfold restore_image. cbn [fst snd]. destruct (pw_before_image w); [by rewrite lookup_insert_eq|by rewrite lookup_delete_eq].
  - rewrite lookup_insert_ne by done. destruct ((list_to_map items : gmap Z PageWrite) !! q); [done|].
    unfold restore_image. cbn [fst snd]. destruct (pw_before_image w); [by rewrite lookup_insert_ne|by rewrite lookup_delete_ne].
Qed.

Lemma lookup_restore_images (writes : gmap Z PageWrite) cache q :
  restore_images writes cache !! q =
  match writes !! q with Some w => pw_before_image w | None => cache !! q end.
Proof.
  unfold restore_images. assert (Hp : rev (sorted_items writes) ≡ₚ map_to_list writes).
  { rewrite <- Permutation_rev. apply sort_by_perm. }
  rewrite lookup_restore_images_list.
  - by rewrite (list_to_map_proper _ (map_to_list writes)), list_to_map_to_list;
      [|rewrite Hp; apply NoDup_fst_map_to_list|].
  - rewrite Hp. apply NoDup_fst_map_to_list.
Qed.

(** ** The undo invariant *)

(** What restoring a before-image gives back. *)
Definition restored (p0 : Pager) (q : PageId) (before : option bytes) : Prop :=
  match before with
  | Some page => read_page p0 q = Ok page
  | None => page_cache (shared p0) !! q = None /\ committed_page_count p0 <= q
  end.

Definition pages_below (p : Pager) : Prop :=
  committed_page_count p <= page_count (meta p) /\
  forall q, is_Some (page_cache (shared p) !! q) -> q < page_count (meta p).

Record undoable (t : Z) (p0 p : Pager) (writes : gmap Z PageWrite) : Prop := {
  undo_state : txn_page_states p !! t = Some writes;
  undo_committed : committed_page_count p = committed_page_count p0;
  undo_disk : disk (shared p) = disk (shared p0);
  undo_below : pages_below p;
  undo_writes q : is_Some (writes !! q) -> q < page_count (meta p);
  undo_pages q : match writes !! q with
                 | Some w => restored p0 q (pw_before_image w)
                 | None => page_cache (shared p) !! q = page_cache (shared p0) !! q
                 end
}.

(** The wait for a page lock, when the first attempt succeeds. *)
Lemma wait_once others t q p p' :
  wait_for_page_write_lock others 1 t q p = (Ok tt, p') -> exists m, p' = set_txn_manager m p.
Proof.
  cbn [wait_for_page_write_lock]. unfold on_manager. destruct (acquire_page_write t q (txn_manager (shared p))) as [[[]|e| |] m];
    [by intros [= <-]; eexists| |done..].
  rewrite st_bind_run. destruct (cleanup_aborted_transaction_state t (set_txn_manager m p)) as [[] p1]; cbn [fst snd]; try done.
  destruct (is_deadlock_error e); [done|]. by destruct (is_waitable_lock_error e).
Qed.

(** A page that is not in the write set yet: its before-image. *)
Lemma before_image_restored p0 p q before :
  committed_page_count p = committed_page_count p0 -> disk (shared p) = disk (shared p0) ->
  page_cache (shared p) !! q = page_cache (shared p0) !! q ->
  current_before_image p q = Ok before -> restored p0 q before.
Proof.
  unfold current_before_image, restored, read_page. intros -> -> ->. destruct (page_cache (shared p0) !! q) as [page|].
  - by intros [= <-].
  - destruct (Z.ltb_spec q (committed_page_count p0)), (Z.leb_spec (committed_page_count p0) q); try lia.
    + destruct (read_raw_page (disk (shared p0)) q); cbn [bind]; try done. by intros [= <-].
    + by intros [= <-].
Qed.

(** Recording a write keeps the transaction undoable. *)
Lemma undoable_write t p0 p p' writes q before page :
  undoable t p0 p writes -> restored p0 q before ->
  txn_page_states p' !! t = Some (<[q := mkPageWrite before page]> writes) ->
  committed_page_count p' = committed_page_count p -> disk (shared p') = disk (shared p) ->
  page_cache (shared p') = <[q := page]> (page_cache (shared p)) ->
  page_count (meta p) <= page_count (meta p') -> q < page_count (meta p') ->
  undoable t p0 p' (<[q := mkPageWrite before page]> writes).
Proof.
  intros [U1 U2 U3 [U4 U4'] U5 U6] Hb Hs Hc Hd Hcache Hm Hq. split; [done|congruence|congruence|..].
  - split; [lia|]. rewrite Hcache. intros r [x [[<- _]|[_ Hx]]%lookup_insert_Some]; [done|].
    assert (r < page_count (meta p)); [|lia]. apply U4'. by eexists.
  - intros r [x [[<- _]|[_ Hx]]%lookup_insert_Some]; [done|].
    assert (r < page_count (meta p)); [|lia]. apply U5. by eexists.
  - intros r. destruct (decide (r = q)) as [->|Hne]; [by rewrite lookup_insert_eq|].
    rewrite lookup_insert_ne, Hcache, lookup_insert_ne by done. apply U6.
Qed.

Lemma set_page_write_undoable t p0 p m writes q page before :
  undoable t p0 p writes -> restored p0 q before -> q < page_count (meta p) ->
  let p1 := set_txn_manager m p in
  let p2 := set_txn_page_states (<[t := delete q writes]> (txn_page_states p1)) p1 in
  let p3 := set_txn_page_states (<[t := <[q := mkPageWrite before page]> (delete q writes)]> (txn_page_states p2)) p2 in
  undoable t p0 (set_page_cache (<[q := page]> (page_cache (shared p3))) p3) (<[q := mkPageWrite before page]> writes).
Proof.
  intros Hu Hb Hq p1 p2 p3. apply (undoable_write t p0 p); try done; cbn.
  by rewrite insert_insert_eq, insert_delete_eq, lookup_insert_eq.
Qed.

Lemma write_page_undoable others t p0 p p' writes q page :
  undoable t p0 p writes -> write_page others 1 t q page p = (Ok tt, p') -> exists writes', undoable t p0 p' writes'.
Proof.
  intros Hu. pose proof Hu as [U1 U2 U3 [U4 U4'] U5 U6]. unfold write_page. rewrite st_bind_run. cbn [st_get fst snd].
  unfold validate_transaction. rewrite U1. cbn [ok_or]. destruct (negb (Zlen page =? PAGE_SIZE)); [done|].
  rewrite st_bind_run. cbn [st_read fst snd]. destruct (Z.leb_spec (page_count (meta p)) q) as [|Hq]; [done|].
  rewrite st_bind_run. destruct (wait_for_page_write_lock others 1 t q p) as [[[]| | |] p1] eqn:Hwait; cbn [fst snd]; try done.
  apply wait_once in Hwait as [m ->]. rewrite st_bind_run. cbn [st_get fst snd]. unfold expect_state.
  cbn [txn_page_states set_txn_manager]. rewrite U1. rewrite st_bind_run. cbn [st_mod fst snd].
  rewrite st_bind_run. cbn [st_get fst snd].
  destruct (writes !! q) as [w|] eqn:Ew.
  - rewrite st_bind_run. cbn [st_mod fst snd]. intros [= <-]. eexists. apply set_page_write_undoable; [done| |done].
    specialize (U6 q). by rewrite Ew in U6.
  - match goal with |- context [current_before_image ?p2 q] => destruct (current_before_image p2 q) as [before| | |] eqn:Eb end; try done.
    rewrite st_bind_run. cbn [st_mod fst snd]. intros [= <-]. eexists. apply set_page_write_undoable; [done| |done].
    eapply (before_image_restored p0 p); [done|done| |exact Eb]. specialize (U6 q). by rewrite Ew in U6.
Qed.

Lemma allocate_page_undoable others t p0 p p' writes kind q :
  undoable t p0 p writes -> allocate_page_with_kind others 1 t kind p = (Ok q, p') -> exists writes', undoable t p0 p' writes'.
Proof.
  intros Hu. pose proof Hu as [U1 U2 U3 [U4 U4'] U5 U6]. set (c := page_count (meta p)).
  unfold allocate_page_with_kind. rewrite st_bind_run. cbn [st_get fst snd].
  unfold validate_transaction. rewrite U1. cbn [ok_or]. rewrite st_bind_run. cbn [st_read fst snd]. fold c.
  rewrite st_bind_run. cbn [st_get fst snd]. destruct (Z.ltb_spec c u32_max) as [Hc|]; [|done].
  rewrite st_bind_run. cbn [st_mod fst snd]. set (p1 := set_page_count (c + 1) p).
  destruct (wait_for_page_write_lock others 1 t c p1) as [[[]| | |] p2] eqn:Hwait; try done.
  apply wait_once in Hwait as [m ->]. rewrite st_bind_run. cbn [st_get fst snd]. unfold expect_state.
  cbn [txn_page_states set_txn_manager]. replace (txn_page_states p1) with (txn_page_states p) by done. rewrite U1.
  rewrite st_bind_run. cbn [st_mod fst snd]. rewrite st_bind_run. cbn [st_mod fst snd st_ret]. intros [= <- <-].
  assert (Hfresh : writes !! c = None).
  { destruct (writes !! c) eqn:E; [|done]. assert (c < c); [|lia]. apply U5. by eexists. }
  assert (Hcache : page_cache (shared p) !! c = None).
  { destruct (page_cache (shared p) !! c) eqn:E; [|done]. assert (c < c); [|lia]. apply U4'. by eexists. }
  eexists. apply (undoable_write t p0 p _ writes c None (empty_page kind)); try done; unfold c; cbn; [|by rewrite lookup_insert_eq|lia..].
  specialize (U6 c). rewrite Hfresh in U6. unfold c in *. split; [congruence|]. rewrite <- U2. lia.
Qed.

Lemma page_calls_undoable others t calls : forall p0 p p' writes,
  undoable t p0 p writes -> page_calls others t calls p = (Ok tt, p') -> exists writes', undoable t p0 p' writes'.
Proof.
  induction calls as [|c calls IH]; intros p0 p p' writes Hu; cbn [page_calls].
  - intros [= <-]. by eexists.
  - rewrite st_bind_run. destruct (page_call others t c p) as [[[]| | |] p1] eqn:Ec; cbn [fst snd]; try done.
    assert (Hu1 : exists writes', undoable t p0 p1 writes').
    { destruct c as [q page|kind]; cbn [page_call] in Ec; [by eapply write_page_undoable|].
      rewrite st_bind_run in Ec. destruct (allocate_page_with_kind others 1 t kind p) as [[q| | |] p2] eqn:Ea; cbn in Ec; try done.
      injection Ec as <-. by eapply allocate_page_undoable. }
    destruct Hu1 as [writes' Hu1]. by apply (IH _ _ _ writes').
Qed.

Lemma undoable_start t p :
  txn_page_states p !! t = Some ∅ -> pages_below p -> undoable t p p ∅.
Proof.
  intros Ht Hp. split; try done. intros q [x Hx]. done.
Qed.

(** Restoring the images gives every page back. *)
Lemma restore_reads t p0 p writes p' q :
  undoable t p0 p writes -> page_cache (shared p') = restore_images writes (page_cache (shared p)) ->
  committed_page_count p' = committed_page_count p -> disk (shared p') = disk (shared p) ->
  read_page p' q = read_page p0 q.
Proof.
  intros [U1 U2 U3 U4 U5 U6] Hcache Hc Hd. unfold read_page at 1. rewrite Hcache, lookup_restore_images, Hc, Hd, U2, U3.
  specialize (U6 q). destruct (writes !! q) as [w|].
  - unfold restored in U6. destruct (pw_before_image w) as [page|]; [done|]. destruct U6 as [Hn Hle]. unfold read_page. rewrite Hn.
    by destruct (Z.leb_spec (committed_page_count p0) q); [|lia].
  - by rewrite U6.
Qed.

Lemma drop_txn_state_run t p writes :
  txn_page_states p !! t = Some writes ->
  drop_txn_state t p =
  (Ok tt, let p1 := set_txn_page_states (delete t (txn_page_states p)) p in
          let p2 := set_page_cache (restore_images writes (page_cache (shared p))) p1 in
          set_page_count (effective_page_count p2 (committed_page_count p)) p2).
Proof. intros Ht. unfold drop_txn_state. rewrite st_bind_run. cbn [st_read fst snd]. by rewrite Ht. Qed.

(** ** Theorems *)

(** C27: rollback undoes. Take a handle on which a transaction has written nothing, and
    whose cached pages are below its page count. After any page writes and allocations
    that succeed without waiting for a lock, rolling back gives every page number the
    content (or the error) it had before, makes no operation on the files, and forgets
    the transaction; the page count is again that of the committed pages and the pages
    other transactions of the handle have written. *)
Theorem rollback_undoes (others : Shared -> Shared) (t : Z) (calls : list PageCall) (p p1 : Pager) :
  txn_page_states p !! t = Some ∅ -> pages_below p ->
  page_calls others t calls p = (Ok tt, p1) ->
  let p2 := (rollback t p1).2 in
  (forall q, read_page p2 q = read_page p q) /\ disk (shared p2) = disk (shared p) /\
  txn_page_states p2 !! t = None /\ page_count (meta p2) = effective_page_count p2 (committed_page_count p).
Proof.
  intros Ht Hp Hcalls. cbv zeta. destruct (page_calls_undoable _ _ _ _ _ _ _ (undoable_start t p Ht Hp) Hcalls) as [writes Hu].
  pose proof Hu as [U1 U2 U3 _ _ _]. unfold rollback. rewrite st_bind_run. cbn [st_get fst snd]. unfold validate_transaction. rewrite U1.
  cbn [ok_or]. rewrite st_bind_run, (drop_txn_state_run _ _ _ U1). unfold on_manager. cbn [fst snd].
  match goal with |- context [release_transaction_resources t ?m] => destruct (release_transaction_resources t m) as [r m'] end.
  cbn [fst snd]. split; [|split; [|split]].
  - intros q. by apply (restore_reads t p p1 writes).
  - done.
  - apply lookup_delete_eq.
  - by rewrite <- U2.
Qed.

(** A handle on a fresh database in which transactions 3 and 4 are active. *)
Definition handle (t : Z) : Pager :=
  mkPager (mkShared (mkDisk (mkFiles (Some []) (Some [])) []) ∅
      (begin ReadCommitted (begin ReadCommitted (with_next_txn_id 3)).2).2)
    (mkMetaPage PAGE_SIZE 2 1 5) 2 {[ t := ∅ ]}.

Lemma handle_below t : pages_below (handle t).
Proof. split; [done|]. intros q [x Hx]. done. Qed.

Lemma rollback_undoes_witness :
  let p2 := (rollback 3 (page_calls (fun sh => sh) 3 [AllocatePage Leaf] (handle 3)).2).2 in
  (forall q, read_page p2 q = read_page (handle 3) q) /\ disk (shared p2) = disk (shared (handle 3)) /\
  txn_page_states p2 !! 3 = None /\ page_count (meta p2) = effective_page_count p2 (committed_page_count (handle 3)).
Proof.
  apply (rollback_undoes (fun sh => sh) 3 [AllocatePage Leaf] (handle 3)); [reflexivity|apply handle_below|vm_compute; reflexivity].
Defined.

(** ** Two handles on one database *)

Lemma allocate_page_id others fuel t kind p q p' :
  allocate_page_with_kind others fuel t kind p = (Ok q, p') ->
  q = page_count (meta p) /\ read_page p' q = Ok (empty_page kind) /\ page_cache (shared p') !! q = Some (empty_page kind).
Proof.
  unfold allocate_page_with_kind. rewrite st_bind_run. cbn [st_get fst snd]. destruct (validate_transaction p t); try done.
  rewrite st_bind_run. cbn [st_read fst snd]. rewrite st_bind_run. cbn [st_get fst snd].
  destruct (page_count (meta p) <? u32_max); [|done]. rewrite st_bind_run. cbn [st_mod fst snd].
  destruct (wait_for_page_write_lock _ _ _ _ _) as [[[]| | |] p1]; try done.
  rewrite st_bind_run. cbn [st_get fst snd]. destruct (expect_state p1 t); try done.
  rewrite st_bind_run. cbn [st_mod fst snd]. rewrite st_bind_run. cbn [st_mod fst snd st_ret]. intros [= <- <-].
  unfold read_page. cbn. by rewrite lookup_insert_eq.
Qed.

(** A stale handle allocates a committed page again. Each handle counts pages for
    itself. Let two handles with the same page count share the files, the cache and the
    transaction manager; a transaction of the first allocates a page and commits. When a
    transaction of the second then allocates a page and is granted its lock, it gets the
    same page number, and the page, committed by the first, now reads as empty. *)
Theorem stale_handle_reallocates (others : Shared -> Shared) (fuel : nat) (t u : Z) (kind kind' : PageKind)
    (a a1 b b1 : Pager) (q r : PageId) :
  page_count (meta b) = page_count (meta a) ->
  allocate_page_with_kind others fuel t kind a = (Ok q, a1) ->
  let a2 := (commit_pager t a1).2 in
  allocate_page_with_kind others fuel u kind' (set_shared (shared a2) b) = (Ok r, b1) ->
  r = q /\ read_page a1 q = Ok (empty_page kind) /\ read_page b1 q = Ok (empty_page kind') /\
  read_page (set_shared (shared b1) a2) q = Ok (empty_page kind').
Proof.
  intros Hc Ha a2 Hb. destruct (allocate_page_id _ _ _ _ _ _ _ Ha) as (Hq & Hra & _).
  destruct (allocate_page_id _ _ _ _ _ _ _ Hb) as (Hr & Hrb & Hcb). cbn [meta set_shared] in Hr.
  assert (r = q) as -> by congruence. split; [done|]. split; [done|]. split; [done|].
  unfold read_page. cbn [shared set_shared]. by rewrite Hcb.
Qed.

Definition first_allocates : Pager := (allocate_page_with_kind (fun sh => sh) 1 3 Leaf (handle 3)).2.
Definition first_committed : Pager := (commit_pager 3 first_allocates).2.
Definition second_allocates : Result PageId * Pager :=
  allocate_page_with_kind (fun sh => sh) 1 4 Internal (set_shared (shared first_committed) (handle 4)).

Lemma pair_of {A B} (x : A * B) a : x.1 = a -> x = (a, x.2).
Proof. destruct x. by intros <-. Qed.

Lemma first_granted : allocate_page_with_kind (fun sh => sh) 1 3 Leaf (handle 3) = (Ok 2, first_allocates).
Proof. unfold first_allocates. apply pair_of. vm_compute. reflexivity. Qed.

Lemma second_granted :
  allocate_page_with_kind (fun sh => sh) 1 4 Internal (set_shared (shared first_committed) (handle 4)) = (Ok 2, second_allocates.2).
Proof. unfold second_allocates. apply pair_of. vm_compute. reflexivity. Qed.

Lemma stale_handle_reallocates_witness :
  2 = 2 /\ read_page first_allocates 2 = Ok (empty_page Leaf) /\ read_page second_allocates.2 2 = Ok (empty_page Internal) /\
  read_page (set_shared (shared second_allocates.2) first_committed) 2 = Ok (empty_page Internal).
Proof.
  exact (stale_handle_reallocates (fun sh => sh) 1 3 4 Leaf Internal (handle 3) first_allocates (handle 4) second_allocates.2 2 2
    eq_refl first_granted second_granted).
Defined.
