(* ===== verification/V2BTree.v ===== *)
(** * The B+ trees of the v2 engine: [src/storage/v2/btree.rs] and [index_tree.rs]

    The table trees (keys [u64]) and the index trees (keys [Vec<u8>]) are the same code
    at two key types, so the definitions are made once, for keys with a comparison, and
    instantiated in the Modules [BTree] and [IndexTree] at the end. Nodes are stored as
    JSON in payload pages: [to_vec] and [from_slice] stand for [serde_json]. Recursion
    goes down the tree: the fuel bounds the height; [scan_all] follows the leaf chain and
    its fuel bounds the number of leaves. *)

From S2P Require Import Prelude V2Page PageStore.

Definition LEAF_MAX_ENTRIES : nat := 16.
Definition INTERNAL_MAX_KEYS : nat := 16.

(** ** Vectors *)

(** [Vec::insert] and [Vec::split_off], which panic out of range. *)
Definition vec_insert {A} (l : list A) (i : nat) (x : A) : Result (list A) :=
  if (i <=? length l)%nat then Ok (take i l ++ x :: drop i l) else Panic "insertion index out of range".

Definition split_off {A} (l : list A) (i : nat) : Result (list A * list A) :=
  if (i <=? length l)%nat then Ok (take i l, drop i l) else Panic "`at` split index out of range".

(** ** Nodes *)

Section Nodes.
Context {K : Type}.

Record LeafEntry := mkLeafEntry { key : K; value : bytes }.
Record LeafNode := mkLeafNode { entries : list LeafEntry; next : option PageId }.
Record InternalNode := mkInternalNode { separators : list K; children : list PageId }.
Inductive Node := NLeaf (leaf : LeafNode) | NInternal (internal : InternalNode).
Record SplitResult := mkSplitResult { separator_key : K; right_page_id : PageId }.

Context (kcmp : K -> K -> comparison).

Definition leaf_empty : LeafNode := mkLeafNode [] None.

(** The number of leading elements below [k]. *)
Fixpoint lower_bound (k : K) (l : list LeafEntry) : nat :=
  match l with
  | [] => O
  | e :: l => match kcmp (key e) k with Lt => S (lower_bound k l) | _ => O end
  end.

(** [binary_search_by] on a sorted slice of distinct keys: the index of the entry with
    the key ([Ok]), or the index where it belongs ([Err]). *)
Definition binary_search (l : list LeafEntry) (k : K) : nat + nat :=
  let i := lower_bound k l in
  match l !! i with
  | Some e => match kcmp (key e) k with Eq => inl i | _ => inr i end
  | None => inr i
  end.

(** [entries.iter().find(|entry| entry.key == key)] *)
Definition lookup_find (self : LeafNode) (k : K) : option bytes :=
  value <$> List.find (fun e => match kcmp (key e) k with Eq => true | _ => false end) (entries self).

Definition lookup_search (self : LeafNode) (k : K) : option bytes :=
  match binary_search (entries self) k with
  | inl i => value <$> entries self !! i
  | inr _ => None
  end.

(** [partition_point(|separator| key >= *separator)] *)
Fixpoint partition_point (k : K) (l : list K) : nat :=
  match l with
  | [] => O
  | s :: l => match kcmp k s with Lt => O | _ => S (partition_point k l) end
  end.

Definition child_index (self : InternalNode) (k : K) : nat := partition_point k (separators self).

Definition from_split (left_child : PageId) (separator_key : K) (right_child : PageId) : InternalNode :=
  mkInternalNode [separator_key] [left_child; right_child].
End Nodes.

Arguments LeafEntry : clear implicits.
Arguments LeafNode : clear implicits.
Arguments InternalNode : clear implicits.
Arguments Node : clear implicits.
Arguments SplitResult : clear implicits.

(** ** The trees *)

Section Trees.
Context {S : Type} `{PageStore S} {K : Type} (kcmp : K -> K -> comparison).
Context (to_vec : Node K -> Result bytes) (from_slice : bytes -> Result (Node K)).
Context (leaf_lookup : LeafNode K -> K -> option bytes) (chain : string).

Definition read_node (pager : S) (page_id : PageId) : Result (Node K) :=
  let? page := ps_read pager page_id in
  let? kind := page_kind page in
  match kind with
  | Leaf => let? payload := decode_payload page Leaf in from_slice payload
  | Internal => let? payload := decode_payload page Internal in from_slice payload
  | other => Err (Storage ("page " ++ pretty page_id ++ " has non-tree page kind " ++ kind_debug other))
  end.

Definition node_kind (node : Node K) : PageKind :=
  match node with NLeaf _ => Leaf | NInternal _ => Internal end.

Definition write_node (page_id : PageId) (node : Node K) : ST S unit :=
  let! payload := st_get (fun _ => to_vec node) in
  let! page := st_get (fun _ => encode_payload_page (node_kind node) payload) in
  ps_write page_id page.

Fixpoint find_leaf (fuel : nat) (pager : S) (page_id : PageId) (k : K) : Result (LeafNode K) :=
  match fuel with
  | O => OutOfFuel
  | Datatypes.S fuel =>
      let? node := read_node pager page_id in
      match node with
      | NLeaf leaf => Ok leaf
      | NInternal internal =>
          let? child := vec_index (children internal) (child_index kcmp internal k) in
          find_leaf fuel pager child k
      end
  end.

Definition tree_get (fuel : nat) (root : PageId) (pager : S) (k : K) : Result (option bytes) :=
  let? leaf := find_leaf fuel pager root k in
  Ok (leaf_lookup leaf k).

Fixpoint leftmost_leaf_page (fuel : nat) (pager : S) (page_id : PageId) : Result PageId :=
  match fuel with
  | O => OutOfFuel
  | Datatypes.S fuel =>
      let? node := read_node pager page_id in
      match node with
      | NLeaf _ => Ok page_id
      | NInternal internal =>
          let? child := vec_index (children internal) 0 in
          leftmost_leaf_page fuel pager child
      end
  end.

(** The [while let Some(page_id) = current] loop. *)
Fixpoint scan_loop (fuel : nat) (pager : S) (current : option PageId) (rows : list (K * bytes))
    : Result (list (K * bytes)) :=
  match fuel with
  | O => OutOfFuel
  | Datatypes.S fuel =>
      match current with
      | None => Ok rows
      | Some page_id =>
          let? node := read_node pager page_id in
          match node with
          | NLeaf leaf => scan_loop fuel pager (next leaf) (rows ++ map (fun e => (key e, value e)) (entries leaf))
          | NInternal _ => Err (Storage ("expected leaf page " ++ pretty page_id ++ " while scanning " ++ chain ++ " leaf chain"))
          end
      end
  end.

Definition tree_scan_all (fuel : nat) (root : PageId) (pager : S) : Result (list (K * bytes)) :=
  let? first := leftmost_leaf_page fuel pager root in
  scan_loop fuel pager (Some first) [].

Definition tree_create : ST S PageId :=
  let! root_page_id := ps_alloc Leaf in
  write_node root_page_id (NLeaf leaf_empty) ;;!
  st_ret root_page_id.

(** The leaf arm of [insert_into_page]. *)
Definition insert_into_leaf (page_id : PageId) (leaf : LeafNode K) (k : K) (v : bytes) : ST S (option (SplitResult K)) :=
  let! entries := st_get (fun _ =>
    match binary_search kcmp (entries leaf) k with
    | inl index => Ok (alter (fun e => mkLeafEntry (key e) v) index (entries leaf))
    | inr index => vec_insert (entries leaf) index (mkLeafEntry k v)
    end) in
  if (length entries <=? LEAF_MAX_ENTRIES)%nat then
    write_node page_id (NLeaf (mkLeafNode entries (next leaf))) ;;!
    st_ret None
  else
    let split_at := (length entries / 2)%nat in
    let! (left_entries, right_entries) := st_get (fun _ => split_off entries split_at) in
    let! first := st_get (fun _ => vec_index right_entries 0) in
    let! new_page_id := ps_alloc Leaf in
    let old_next := next leaf in
    write_node page_id (NLeaf (mkLeafNode left_entries (Some new_page_id))) ;;!
    write_node new_page_id (NLeaf (mkLeafNode right_entries old_next)) ;;!
    st_ret (Some (mkSplitResult (key first) new_page_id)).

(** What the internal arm does with the split of its child. *)
Definition insert_split (page_id : PageId) (internal : InternalNode K) (child_index : nat) (split : SplitResult K)
    : ST S (option (SplitResult K)) :=
  let! separators := st_get (fun _ => vec_insert (separators internal) child_index (separator_key split)) in
  let! children := st_get (fun _ => vec_insert (children internal) (child_index + 1) (right_page_id split)) in
  if (length separators <=? INTERNAL_MAX_KEYS)%nat then
    write_node page_id (NInternal (mkInternalNode separators children)) ;;!
    st_ret None
  else
    let mid := (length separators / 2)%nat in
    let! promoted_key := st_get (fun _ => vec_index separators mid) in
    let! (separators, right_separators) := st_get (fun _ => split_off separators (mid + 1)) in
    let separators := removelast separators in
    let! (children, right_children) := st_get (fun _ => split_off children (mid + 1)) in
    let! new_page_id := ps_alloc Internal in
    write_node page_id (NInternal (mkInternalNode separators children)) ;;!
    write_node new_page_id (NInternal (mkInternalNode right_separators right_children)) ;;!
    st_ret (Some (mkSplitResult promoted_key new_page_id)).

Fixpoint insert_into_page (fuel : nat) (page_id : PageId) (k : K) (v : bytes) : ST S (option (SplitResult K)) :=
  match fuel with
  | O => st_fuel
  | Datatypes.S fuel =>
      ps_lock page_id ;;!
      let! node := st_get (fun pager => read_node pager page_id) in
      match node with
      | NLeaf leaf => insert_into_leaf page_id leaf k v
      | NInternal internal =>
          let child_index := child_index kcmp internal k in
          let! child_page_id := st_get (fun _ => vec_index (children internal) child_index) in
          let! child_split := insert_into_page fuel child_page_id k v in
          match child_split with
          | None => st_ret None
          | Some split => insert_split page_id internal child_index split
          end
      end
  end.

(** [insert], returning the root page the tree has afterwards. *)
Definition tree_insert (fuel : nat) (root : PageId) (k : K) (v : bytes) : ST S PageId :=
  let! split := insert_into_page fuel root k v in
  match split with
  | Some split =>
      let! new_root := ps_alloc Internal in
      write_node new_root (NInternal (from_split root (separator_key split) (right_page_id split))) ;;!
      st_ret new_root
  | None => st_ret root
  end.

Fixpoint delete_from_page (fuel : nat) (page_id : PageId) (k : K) : ST S unit :=
  match fuel with
  | O => st_fuel
  | Datatypes.S fuel =>
      ps_lock page_id ;;!
      let! node := st_get (fun pager => read_node pager page_id) in
      match node with
      | NLeaf leaf =>
          match binary_search kcmp (entries leaf) k with
          | inl index =>
              let! entries := st_get (fun _ => vec_remove (entries leaf) index) in
              write_node page_id (NLeaf (mkLeafNode entries (next leaf)))
          | inr _ => st_ret tt
          end
      | NInternal internal =>
          let! child_page_id := st_get (fun _ => vec_index (children internal) (child_index kcmp internal k)) in
          delete_from_page fuel child_page_id k
      end
  end.

Definition tree_delete (fuel : nat) (root : PageId) (k : K) : ST S unit := delete_from_page fuel root k.
End Trees.

(** ** [btree.rs]: keys are row ids *)

Module BTree.
Section BTree.
Context {S : Type} `{PageStore S} (to_vec : Node Z -> Result bytes) (from_slice : bytes -> Result (Node Z)).

Definition create : ST S PageId := tree_create to_vec.
Definition get := tree_get Z.compare from_slice (lookup_find Z.compare).
Definition insert := tree_insert Z.compare to_vec from_slice.
Definition scan_all := tree_scan_all from_slice "B+Tree".
Definition delete := tree_delete Z.compare to_vec from_slice.
End BTree.
End BTree.

(** ** [index_tree.rs]: keys are byte strings in lexicographic order *)

Module IndexTree.
Definition bytes_cmp : bytes -> bytes -> comparison := lex_cmp Z.compare.

Definition lookup : LeafNode bytes -> bytes -> option bytes := lookup_search bytes_cmp.
Definition child_index : InternalNode bytes -> bytes -> nat := child_index bytes_cmp.
Definition from_split : PageId -> bytes -> PageId -> InternalNode bytes := from_split.

Section IndexTree.
Context {S : Type} `{PageStore S} (to_vec : Node bytes -> Result bytes) (from_slice : bytes -> Result (Node bytes)).

Definition read_node : S -> PageId -> Result (Node bytes) := read_node from_slice.
Definition write_node : PageId -> Node bytes -> ST S unit := write_node to_vec.
Definition find_leaf := find_leaf bytes_cmp from_slice.
Definition leftmost_leaf_page := leftmost_leaf_page from_slice.
Definition insert_into_page := insert_into_page bytes_cmp to_vec from_slice.
Definition delete_from_page := delete_from_page bytes_cmp to_vec from_slice.
Definition create : ST S PageId := tree_create to_vec.
Definition get := tree_get bytes_cmp from_slice lookup.
Definition insert := tree_insert bytes_cmp to_vec from_slice.
Definition scan_all := tree_scan_all from_slice "index".
Definition delete := tree_delete bytes_cmp to_vec from_slice.
End IndexTree.
End IndexTree.
