(* ===== verification/V2BTreeShape.v ===== *)
(** * The shape of the B+ trees

    What pages make up a well-formed tree (sorted leaves within their separators, full
    nodes at most 16 long, all leaves at one depth, the leaf chain in key order, no page
    used twice), and how a subtree is found and replaced. *)

From S2P Require Import Prelude V2Page PageStore V2BTree.

(** Predicates on a subtree: bounds, root page, first leaf, the leaf after its last one,
    contents and pages. *)
Definition treeP (K : Type) : Type :=
  option K -> option K -> PageId -> PageId -> option PageId -> list (LeafEntry K) -> gset PageId -> Prop.

(** ** Ordered keys *)

Section Keys.
Context {K : Type} (kcmp : K -> K -> comparison) `{!CmpLaws (fun _ => True) kcmp}.

Definition klt (a b : K) : Prop := kcmp a b = Lt.
Definition kle (a b : K) : Prop := kcmp b a <> Lt.

Lemma kcmp_Eq a b : kcmp a b = Eq <-> a = b.
Proof. split; [by apply (cmp_eq (cmp := kcmp))|intros ->; apply (cmp_refl (cmp := kcmp))]. Qed.
Lemma kcmp_Gt a b : kcmp a b = Gt <-> klt b a.
Proof. unfold klt. rewrite (cmp_antisym (cmp := kcmp) a b). destruct (kcmp a b); simpl; split; congruence. Qed.
Lemma klt_trans a b c : klt a b -> klt b c -> klt a c.
Proof. by apply (cmp_trans (cmp := kcmp)). Qed.
Lemma klt_irrefl a : ~ klt a a.
Proof. unfold klt. by rewrite (proj2 (kcmp_Eq a a) eq_refl). Qed.
Lemma kle_cases a b : kle a b <-> klt a b \/ a = b.
Proof.
  unfold kle. rewrite <- (kcmp_Eq a b). unfold klt. rewrite (cmp_antisym (cmp := kcmp) a b).
  destruct (kcmp a b); simpl; split; try (intros [?|?]); auto; congruence.
Qed.
Lemma kle_refl a : kle a a.
Proof. apply kle_cases. by right. Qed.
Lemma klt_kle a b : klt a b -> kle a b.
Proof. intros. apply kle_cases. by left. Qed.
Lemma kle_klt_trans a b c : kle a b -> klt b c -> klt a c.
Proof. rewrite kle_cases. intros [H| ->]; [by apply klt_trans|done]. Qed.
Lemma klt_kle_trans a b c : klt a b -> kle b c -> klt a c.
Proof. rewrite kle_cases. intros H1 [H2|<-]; [by apply (klt_trans _ b)|done]. Qed.
Lemma kle_trans a b c : kle a b -> kle b c -> kle a c.
Proof. rewrite (kle_cases a b). intros [H| ->] Hbc; [|done]. by apply klt_kle, (klt_kle_trans _ b). Qed.
Lemma klt_or_kle a b : klt a b \/ kle b a.
Proof. unfold klt, kle. destruct (kcmp a b); auto; right; congruence. Qed.

(** A key within [lo <= k < hi], where an absent bound is none. *)
Definition in_range (lo hi : option K) (k : K) : Prop :=
  match lo with Some l => kle l k | None => True end /\
  match hi with Some h => klt k h | None => True end.

(** A separator strictly between the bounds. *)
Definition between (lo hi : option K) (s : K) : Prop :=
  match lo with Some l => klt l s | None => True end /\
  match hi with Some h => klt s h | None => True end.

Lemma in_range_below lo hi s k : between lo hi s -> in_range lo (Some s) k -> in_range lo hi k.
Proof. intros [_ H1] [H2 H3]. split; [done|]. destruct hi; [|done]. by apply (klt_trans _ s). Qed.
Lemma in_range_above lo hi s k : between lo hi s -> in_range (Some s) hi k -> in_range lo hi k.
Proof. intros [H1 _] [H2 H3]. split; [|done]. destruct lo; [|done]. by apply (kle_trans _ s), H2; apply klt_kle. Qed.
Lemma between_below lo hi s s' : between lo hi s -> between lo (Some s) s' -> between lo hi s'.
Proof. intros [_ H1] [H2 H3]. split; [done|]. destruct hi; [|done]. by apply (klt_trans _ s). Qed.
Lemma between_above lo hi s s' : between lo hi s -> between (Some s) hi s' -> between lo hi s'.
Proof. intros [H1 _] [H2 H3]. split; [|done]. destruct lo; [|done]. by apply (klt_trans _ s). Qed.

(** ** Sorted entries *)

Abbreviation entry := (LeafEntry K).

Definition sorted_entries (es : list entry) : Prop := StronglySorted (fun a b => klt (key a) (key b)) es.

Lemma sorted_app es1 es2 :
  sorted_entries (es1 ++ es2) <->
  sorted_entries es1 /\ sorted_entries es2 /\ forall a b, a ∈ es1 -> b ∈ es2 -> klt (key a) (key b).
Proof.
  unfold sorted_entries. induction es1 as [|e es1 IH]; simpl.
  - split; [|by intros (_ & H & _)]. intros H. split_and!; [constructor|done|by intros a b ?%not_elem_of_nil].
  - split.
    + intros [Hs Hf]%StronglySorted_inv. apply IH in Hs as (H1 & H2 & H3). apply Forall_app in Hf as [Hf1 Hf2].
      split_and!; [by constructor|done|]. rewrite Forall_forall in Hf2. intros a b [->|Ha]%elem_of_cons Hb; auto.
    + intros ([H1 Hf]%StronglySorted_inv & H2 & H3). constructor.
      * apply IH. split_and!; [done..|]. intros a b Ha Hb. apply H3; [by apply list_elem_of_further|done].
      * apply Forall_app. split; [done|]. apply Forall_forall. intros b Hb. apply H3; [apply list_elem_of_here|done].
Qed.

(** The specification of the three operations on a list of entries. *)
Definition assoc_lookup (k : K) (es : list entry) : option bytes :=
  value <$> List.find (fun e => match kcmp (key e) k with Eq => true | _ => false end) es.

Fixpoint assoc_insert (k : K) (v : bytes) (es : list entry) : list entry :=
  match es with
  | [] => [mkLeafEntry k v]
  | e :: es => match kcmp (key e) k with
               | Lt => e :: assoc_insert k v es
               | Eq => mkLeafEntry (key e) v :: es
               | Gt => mkLeafEntry k v :: e :: es
               end
  end.

Fixpoint assoc_delete (k : K) (es : list entry) : list entry :=
  match es with
  | [] => []
  | e :: es => match kcmp (key e) k with
               | Lt => e :: assoc_delete k es
               | Eq => es
               | Gt => e :: es
               end
  end.

(** Below and above all entries of a list. *)
Definition all_below (es : list entry) (k : K) : Prop := Forall (fun e => klt (key e) k) es.
Definition all_above (es : list entry) (k : K) : Prop := Forall (fun e => klt k (key e)) es.

Lemma assoc_insert_app k v es0 es es2 :
  all_below es0 k -> all_above es2 k ->
  assoc_insert k v (es0 ++ es ++ es2) = es0 ++ assoc_insert k v es ++ es2.
Proof.
  intros H0 H2. induction H0 as [|e es0 He H0 IH]; simpl.
  - induction es as [|e es IH]; simpl.
    + destruct H2 as [|e es2 He H2]; simpl; [done|]. by apply kcmp_Gt in He as ->.
    + destruct (kcmp (key e) k); simpl; [done| |done]. by rewrite IH.
  - rewrite He. by rewrite IH.
Qed.

Lemma assoc_delete_app k es0 es es2 :
  all_below es0 k -> all_above es2 k ->
  assoc_delete k (es0 ++ es ++ es2) = es0 ++ assoc_delete k es ++ es2.
Proof.
  intros H0 H2. induction H0 as [|e es0 He H0 IH]; simpl.
  - induction es as [|e es IH]; simpl.
    + destruct H2 as [|e es2 He H2]; simpl; [done|]. by apply kcmp_Gt in He as ->.
    + destruct (kcmp (key e) k); simpl; [done| |done]. by rewrite IH.
  - rewrite He. by rewrite IH.
Qed.

Lemma assoc_lookup_app k es0 es es2 :
  all_below es0 k -> all_above es2 k -> assoc_lookup k (es0 ++ es ++ es2) = assoc_lookup k es.
Proof.
  intros H0 H2. unfold assoc_lookup. induction H0 as [|e es0 He H0 IH]; simpl.
  - induction es as [|e es IH]; simpl.
    + induction H2 as [|e es2 He H2 IH]; simpl; [done|]. by apply kcmp_Gt in He as ->.
    + by destruct (kcmp (key e) k).
  - by rewrite He.
Qed.

(** The operations keep what holds of all keys, and the order. *)
Lemma assoc_insert_Forall (P : K -> Prop) k v es :
  P k -> Forall (fun e => P (key e)) es -> Forall (fun e => P (key e)) (assoc_insert k v es).
Proof.
  intros Hk. induction 1 as [|e es He Hes IH]; simpl; [by constructor|]. destruct (kcmp (key e) k); by repeat constructor.
Qed.

Lemma assoc_delete_Forall (P : K -> Prop) k es :
  Forall (fun e => P (key e)) es -> Forall (fun e => P (key e)) (assoc_delete k es).
Proof. induction 1 as [|e es He Hes IH]; simpl; [constructor|]. destruct (kcmp (key e) k); by repeat constructor. Qed.

Lemma assoc_insert_sorted k v es : sorted_entries es -> sorted_entries (assoc_insert k v es).
Proof.
  induction 1 as [|e es Hes IH He]; simpl; [by repeat constructor|]. destruct (kcmp (key e) k) eqn:E.
  - by constructor.
  - constructor; [done|]. by apply (assoc_insert_Forall (klt (key e))).
  - apply kcmp_Gt in E. constructor; [by constructor|]. constructor; [done|].
    eapply Forall_impl; [exact He|]. intros e' Hlt. by apply (klt_trans _ (key e)).
Qed.

Lemma assoc_delete_sorted k es : sorted_entries es -> sorted_entries (assoc_delete k es).
Proof.
  induction 1 as [|e es Hes IH He]; simpl; [constructor|]. destruct (kcmp (key e) k) eqn:E; [done| |by constructor].
  constructor; [done|]. by apply (assoc_delete_Forall (klt (key e))).
Qed.

Lemma length_assoc_insert k v es : (length (assoc_insert k v es) <= Datatypes.S (length es))%nat.
Proof. induction es as [|e es IH]; simpl; [lia|]. destruct (kcmp (key e) k); simpl; lia. Qed.

Lemma length_assoc_delete k es : (length (assoc_delete k es) <= length es)%nat.
Proof. induction es as [|e es IH]; simpl; [lia|]. destruct (kcmp (key e) k); simpl; lia. Qed.

(** The specification as a finite map. *)
Lemma assoc_lookup_below k es : all_above es k -> assoc_lookup k es = None.
Proof. induction 1 as [|e es He H IH]; [done|]. unfold assoc_lookup. simpl. by apply kcmp_Gt in He as ->. Qed.

Lemma assoc_lookup_cons k e es :
  assoc_lookup k (e :: es) = match kcmp (key e) k with Eq => Some (value e) | _ => assoc_lookup k es end.
Proof. unfold assoc_lookup. simpl. by destruct (kcmp (key e) k). Qed.

Lemma assoc_lookup_insert k v es k' :
  sorted_entries es ->
  assoc_lookup k' (assoc_insert k v es) = match kcmp k' k with Eq => Some v | _ => assoc_lookup k' es end.
Proof.
  intros Hs. assert (Hrefl : forall x, kcmp x x = Eq) by (intros; by apply kcmp_Eq).
  induction Hs as [|e es Hes IH He]; simpl.
  - rewrite assoc_lookup_cons. cbn [key value]. rewrite (cmp_antisym (cmp := kcmp) k' k). by destruct (kcmp k' k).
  - destruct (kcmp (key e) k) eqn:E; rewrite !assoc_lookup_cons; cbn [key value].
    + apply kcmp_Eq in E as ->. rewrite (cmp_antisym (cmp := kcmp) k' k). by destruct (kcmp k' k).
    + rewrite IH. destruct (kcmp (key e) k') eqn:E', (kcmp k' k) eqn:E2; try done.
      apply kcmp_Eq in E', E2. subst. by rewrite Hrefl in E.
    + rewrite (cmp_antisym (cmp := kcmp) k' k). destruct (kcmp k' k); done.
Qed.

Lemma assoc_lookup_delete k es k' :
  sorted_entries es ->
  assoc_lookup k' (assoc_delete k es) = match kcmp k' k with Eq => None | _ => assoc_lookup k' es end.
Proof.
  induction 1 as [|e es Hes IH He]; simpl; [by destruct (kcmp k' k)|]. destruct (kcmp (key e) k) eqn:E.
  - apply kcmp_Eq in E. subst k. rewrite assoc_lookup_cons, (cmp_antisym (cmp := kcmp) k' (key e)).
    destruct (kcmp k' (key e)) eqn:E'; simpl; [|done..]. apply kcmp_Eq in E'. subst. by apply assoc_lookup_below.
  - rewrite !assoc_lookup_cons, IH. destruct (kcmp (key e) k') eqn:E'; [|done..].
    apply kcmp_Eq in E'. subst. by rewrite E.
  - destruct (kcmp k' k) eqn:E'; [|done..]. apply kcmp_Eq in E'. subst. apply assoc_lookup_below. apply kcmp_Gt in E.
    constructor; [done|]. eapply Forall_impl; [exact He|]. intros e' Hlt. by apply (klt_trans _ (key e)).
Qed.

(** The index operations of the code are the specification's. *)
Lemma insert_by_index k v es :
  (match binary_search kcmp es k with
   | inl index => Ok (alter (fun e => mkLeafEntry (key e) v) index es)
   | inr index => vec_insert es index (mkLeafEntry k v)
   end) = Ok (assoc_insert k v es).
Proof.
  unfold binary_search, vec_insert. induction es as [|e es IH]; [done|]. cbn [lower_bound assoc_insert].
  destruct (kcmp (key e) k) eqn:E; cbn [lookup list_lookup]; rewrite ?E; [done| |done].
  change ((e :: es) !! S (lower_bound kcmp k es)) with (es !! lower_bound kcmp k es).
  destruct (es !! lower_bound kcmp k es) as [e'|]; [destruct (kcmp (key e') k)|];
    cbn [length Nat.leb take drop app] in *; try (apply Ok_inj in IH; cbn; by rewrite IH);
    (destruct (lower_bound kcmp k es <=? length es)%nat; [|done]); apply Ok_inj in IH; by rewrite <- IH.
Qed.

(** [delete] at the index found, when the key is there. *)
Lemma delete_by_index k es :
  match binary_search kcmp es k with
  | inl index => vec_remove es index = Ok (assoc_delete k es)
  | inr _ => assoc_delete k es = es
  end.
Proof.
  unfold binary_search, vec_remove. induction es as [|e es IH]; [done|]. cbn [lower_bound assoc_delete].
  destruct (kcmp (key e) k) eqn:E; cbn [lookup list_lookup]; rewrite ?E; [done| |done].
  change ((e :: es) !! S (lower_bound kcmp k es)) with (es !! lower_bound kcmp k es).
  destruct (es !! lower_bound kcmp k es) as [e'|]; [destruct (kcmp (key e') k)|]; try by rewrite IH.
  change (S (lower_bound kcmp k es) <? length (e :: es))%nat with (lower_bound kcmp k es <? length es)%nat.
  destruct (lower_bound kcmp k es <? length es)%nat; [|done]. apply Ok_inj in IH. by rewrite <- IH.
Qed.

Lemma lookup_by_index k leaf :
  sorted_entries (entries leaf) -> lookup_search kcmp leaf k = assoc_lookup k (entries leaf).
Proof.
  unfold lookup_search, binary_search. destruct leaf as [es nx]. cbn [entries].
  induction 1 as [|e es Hes IH He]; [done|]. cbn [lower_bound]. rewrite assoc_lookup_cons.
  destruct (kcmp (key e) k) eqn:E; cbn [lookup list_lookup]; rewrite ?E; [done| |].
  - change ((e :: es) !! S (lower_bound kcmp k es)) with (es !! lower_bound kcmp k es). rewrite <- IH.
    by destruct (es !! lower_bound kcmp k es) as [e'|]; [destruct (kcmp (key e') k)|].
  - symmetry. apply assoc_lookup_below. apply kcmp_Gt in E. eapply Forall_impl; [exact He|].
    intros e' Hlt. by apply (klt_trans _ (key e)).
Qed.

(** ** Trees *)

Definition bounded_entries (lo hi : option K) (es : list entry) : Prop := Forall (fun e => in_range lo hi (key e)) es.

(** The children of an internal node. *)
Inductive forest (T : treeP K) : option K -> option K -> list K -> list PageId -> PageId -> option PageId ->
    list entry -> gset PageId -> Prop :=
  | forest_one lo hi c first nxt es foot :
      T lo hi c first nxt es foot -> forest T lo hi [] [c] first nxt es foot
  | forest_cons lo hi s seps c cs first mid nxt es1 es2 foot1 foot2 :
      T lo (Some s) c first (Some mid) es1 foot1 -> between lo hi s ->
      forest T (Some s) hi seps cs mid nxt es2 foot2 -> foot1 ## foot2 ->
      forest T lo hi (s :: seps) (c :: cs) first nxt (es1 ++ es2) (foot1 ∪ foot2).

Fixpoint tree (rd : PageId -> option (Node K)) (h : nat) : treeP K := fun lo hi id first nxt es foot =>
  match h with
  | O => first = id /\ foot = {[id]} /\ rd id = Some (NLeaf (mkLeafNode es nxt)) /\
         sorted_entries es /\ bounded_entries lo hi es /\ (length es <= LEAF_MAX_ENTRIES)%nat
  | Datatypes.S h => exists seps cs foot',
      rd id = Some (NInternal (mkInternalNode seps cs)) /\ (length seps <= INTERNAL_MAX_KEYS)%nat /\
      forest (tree rd h) lo hi seps cs first nxt es foot' /\ id ∉ foot' /\ foot = {[id]} ∪ foot'
  end.

Lemma forest_impl (T T' : treeP K) lo hi seps cs first nxt es foot :
  (forall lo hi id first nxt es f, f ⊆ foot -> T lo hi id first nxt es f -> T' lo hi id first nxt es f) ->
  forest T lo hi seps cs first nxt es foot -> forest T' lo hi seps cs first nxt es foot.
Proof.
  intros Himp Hf. induction Hf as [|lo hi s seps c cs first mid nxt es1 es2 foot1 foot2 Ht Hs Hf IH Hd].
  - constructor. by apply Himp.
  - econstructor; [apply Himp; [apply union_subseteq_l|done]|done| |done].
    apply IH. intros. apply Himp; [|done]. etrans; [done|apply union_subseteq_r].
Qed.

(** A tree depends on its own pages only. *)
Lemma tree_frame rd rd' h : forall lo hi id first nxt es foot,
  (forall q, q ∈ foot -> rd' q = rd q) -> tree rd h lo hi id first nxt es foot -> tree rd' h lo hi id first nxt es foot.
Proof.
  induction h as [|h IH]; intros lo hi id first nxt es foot Hrd; cbn [tree].
  - intros (-> & -> & Hr & H). split; [done|]. split; [done|]. by rewrite Hrd by set_solver.
  - intros (seps & cs & foot' & Hr & Hl & Hf & Hn & ->). exists seps, cs, foot'. rewrite Hrd by set_solver.
    split; [done|]. split; [done|]. split; [|done]. eapply forest_impl; [|exact Hf].
    intros. apply IH; [|done]. intros q Hq. apply Hrd. set_solver.
Qed.

Lemma forest_length T lo hi seps cs first nxt es foot :
  forest T lo hi seps cs first nxt es foot -> length cs = Datatypes.S (length seps).
Proof. induction 1; simpl; congruence. Qed.

(** Two neighbouring forests and the separator between them. *)
Lemma forest_app T lo hi s seps1 seps2 cs1 cs2 first mid nxt es1 es2 foot1 foot2 :
  forest T lo (Some s) seps1 cs1 first (Some mid) es1 foot1 -> between lo hi s ->
  forest T (Some s) hi seps2 cs2 mid nxt es2 foot2 -> foot1 ## foot2 ->
  forest T lo hi (seps1 ++ s :: seps2) (cs1 ++ cs2) first nxt (es1 ++ es2) (foot1 ∪ foot2).
Proof.
  intros H1. remember (Some s) as hi1 eqn:Ehi. remember (Some mid) as nxt1 eqn:En.
  induction H1 as [lo hi1 c first nxt1 es foot Ht|lo hi1 s1 seps1 c cs1 first mid1 nxt1 es1 es1' foot1 foot1' Ht Hs1 Hf IH Hd];
    intros Hs H2 Hd2; subst.
  - by eapply forest_cons.
  - cbn [app]. rewrite <- app_assoc, <- (assoc_L (∪)). eapply forest_cons; [done| | |set_solver].
    + by apply (between_below _ _ s).
    + apply IH; [done|done| |done|set_solver]. split; [apply Hs1|apply Hs].
Qed.

Lemma forest_split T hi s seps1 : forall lo seps2 cs1 cs2 first nxt es foot,
  forest T lo hi (seps1 ++ s :: seps2) (cs1 ++ cs2) first nxt es foot -> length cs1 = Datatypes.S (length seps1) ->
  exists mid es1 es2 foot1 foot2,
    forest T lo (Some s) seps1 cs1 first (Some mid) es1 foot1 /\ between lo hi s /\
    forest T (Some s) hi seps2 cs2 mid nxt es2 foot2 /\ foot1 ## foot2 /\ es = es1 ++ es2 /\ foot = foot1 ∪ foot2.
Proof.
  induction seps1 as [|s1 seps1 IH]; intros lo seps2 cs1 cs2 first nxt es foot Hf Hl.
  - destruct cs1 as [|c [|]]; [done| |done]. inversion Hf; subst.
    eexists _, es1, es2, foot1, foot2. split; [by constructor|]. by split_and!.
  - destruct cs1 as [|c cs1]; [done|]. cbn [app] in Hf. inversion Hf as [|? ? ? ? ? ? ? mid ? es1 es2 foot1 foot2 Ht Hs1 Hf2 Hd]; subst.
    apply IH in Hf2 as (mid' & es1' & es2' & foot1' & foot2' & H1 & Hs & H2 & Hd' & -> & ->); [|simpl in Hl; lia].
    exists mid', (es1 ++ es1'), es2', (foot1 ∪ foot1'), foot2'. split.
    { eapply forest_cons; [done| |done|set_solver]. split; [apply Hs1|apply Hs]. }
    split; [by apply (between_above _ _ s1)|]. split; [done|]. split; [set_solver|].
    by rewrite <- app_assoc, <- (assoc_L (∪)).
Qed.

(** The contents are sorted and within the bounds. *)
Definition orderly (T : treeP K) : Prop := forall lo hi id first nxt es foot,
  T lo hi id first nxt es foot -> sorted_entries es /\ bounded_entries lo hi es.

Lemma bounded_below lo hi s es : between lo hi s -> bounded_entries lo (Some s) es -> bounded_entries lo hi es.
Proof. intros Hs Hb. eapply Forall_impl; [exact Hb|]. intros e. by apply in_range_below. Qed.
Lemma bounded_above lo hi s es : between lo hi s -> bounded_entries (Some s) hi es -> bounded_entries lo hi es.
Proof. intros Hs Hb. eapply Forall_impl; [exact Hb|]. intros e. by apply in_range_above. Qed.
Lemma bounded_all_below lo s es k : bounded_entries lo (Some s) es -> kle s k -> all_below es k.
Proof. intros Hb Hk. eapply Forall_impl; [exact Hb|]. intros e [_ He]. by apply (klt_kle_trans _ s). Qed.
Lemma bounded_all_above hi s es k : bounded_entries (Some s) hi es -> klt k s -> all_above es k.
Proof. intros Hb Hk. eapply Forall_impl; [exact Hb|]. intros e [He _]. by apply (klt_kle_trans _ s). Qed.

Lemma forest_orderly T lo hi seps cs first nxt es foot :
  orderly T -> forest T lo hi seps cs first nxt es foot -> sorted_entries es /\ bounded_entries lo hi es.
Proof.
  intros HT. induction 1 as [lo hi c first nxt es foot Ht|lo hi s seps c cs first mid nxt es1 es2 foot1 foot2 Ht Hs Hf [IHs IHb] Hd].
  - by eapply HT.
  - apply HT in Ht as [Hs1 Hb1]. split.
    + apply sorted_app. split_and!; [done..|]. intros a b Ha Hb. unfold bounded_entries in *. rewrite Forall_forall in Hb1, IHb.
      destruct (Hb1 a Ha) as [_ H1]. destruct (IHb b Hb) as [H2 _]. by apply (klt_kle_trans _ s).
    + apply Forall_app. split; [by eapply bounded_below|by eapply bounded_above].
Qed.

Lemma tree_orderly rd h : orderly (tree rd h).
Proof.
  induction h as [|h IH]; intros lo hi id first nxt es foot; cbn [tree].
  - tauto.
  - intros (seps & cs & foot' & _ & _ & Hf & _). by eapply forest_orderly.
Qed.

(** ** The child that holds a key *)

Lemma forest_focus T lo hi seps cs first nxt es foot k :
  orderly T -> forest T lo hi seps cs first nxt es foot -> in_range lo hi k ->
  let i := partition_point kcmp k seps in
  exists c lo' hi' first' nxt' es0 es1 es2 foot0 foot1,
    cs !! i = Some c /\ T lo' hi' c first' nxt' es1 foot1 /\ in_range lo' hi' k /\
    foot = foot0 ∪ foot1 /\ foot0 ## foot1 /\ es = es0 ++ es1 ++ es2 /\ all_below es0 k /\ all_above es2 k /\
    (i <= length seps)%nat /\
    forall (T' : treeP K) seps' cs' es1' foot1',
      (forall lo hi id first nxt es f, f ⊆ foot0 -> T lo hi id first nxt es f -> T' lo hi id first nxt es f) ->
      forest T' lo' hi' seps' cs' first' nxt' es1' foot1' -> foot0 ## foot1' ->
      forest T' lo hi (take i seps ++ seps' ++ drop i seps) (take i cs ++ cs' ++ drop (Datatypes.S i) cs) first nxt
        (es0 ++ es1' ++ es2) (foot0 ∪ foot1').
Proof.
  intros HT Hf. induction Hf as [lo hi c first nxt es foot Ht|lo hi s seps c cs first mid nxt es1 es2 foot1 foot2 Ht Hs Hf IH Hd]; intros Hk i.
  - exists c, lo, hi, first, nxt, [], es, [], ∅, foot. rewrite app_nil_r, union_empty_l_L.
    split_and!; [done|done|done|done|apply disjoint_empty_l|done|constructor|constructor|done|]. intros T' seps' cs' es1' foot1' _ Hf' _.
    cbn. by rewrite !app_nil_r, union_empty_l_L.
  - unfold i. cbn [partition_point]. destruct (kcmp k s) eqn:E.
    1,3: (assert (Hks : kle s k) by (unfold kle; rewrite E; congruence));
      destruct IH as (c' & lo' & hi' & first' & nxt' & es0' & es1' & es2' & foot0' & foot1' & H1 & H2 & H3 & -> & H5 & -> & H7 & H8 & H9 & Hclose);
      [split; [done|apply Hk]|]; destruct (HT _ _ _ _ _ _ _ Ht) as [_ Hb1];
      exists c', lo', hi', first', nxt', (es1 ++ es0'), es1', es2', (foot1 ∪ foot0'), foot1';
      (split_and!; [done|done|done|by rewrite (assoc_L (∪))|set_solver|by rewrite <- app_assoc| |done|simpl; lia|]);
      [apply Forall_app; split; [by eapply bounded_all_below|done]|];
      intros T' seps' cs' es1'' foot1'' Himp Hf' Hd'; rewrite <- app_assoc, <- (assoc_L (∪));
      (eapply forest_cons; [apply Himp; [apply union_subseteq_l|done]|done| |set_solver]); apply Hclose; [|done|set_solver];
      intros; apply Himp; [etrans; [done|apply union_subseteq_r]|done].
    destruct (forest_orderly _ _ _ _ _ _ _ _ _ HT Hf) as [_ Hb2].
    exists c, lo, (Some s), first, (Some mid), [], es1, es2, foot2, foot1.
    split_and!; [done|done|by split; [apply Hk|]|by rewrite (comm_L (∪))|set_solver|done|constructor|by eapply bounded_all_above|simpl; lia|].
    intros T' seps' cs' es1' foot1' Himp Hf' Hd'. cbn [take drop app]. rewrite (comm_L (∪) foot2).
    eapply forest_app; [done|done| |set_solver]. eapply forest_impl; [|exact Hf]. done.
Qed.

(** ** Splitting an overfull node *)

Lemma split_entries lo hi es :
  sorted_entries es -> bounded_entries lo hi es -> length es = Datatypes.S LEAF_MAX_ENTRIES ->
  exists left e right, split_off es (length es / 2) = Ok (left, e :: right) /\ es = left ++ e :: right /\
    sorted_entries left /\ sorted_entries (e :: right) /\ bounded_entries lo (Some (key e)) left /\
    bounded_entries (Some (key e)) hi (e :: right) /\ between lo hi (key e) /\
    (length left <= LEAF_MAX_ENTRIES)%nat /\ (length (e :: right) <= LEAF_MAX_ENTRIES)%nat.
Proof.
  unfold LEAF_MAX_ENTRIES. intros Hs Hb Hl. rewrite Hl. change (17 / 2)%nat with 8%nat. unfold split_off. rewrite Hl.
  cbn [Nat.leb].
  pose proof (length_drop es 8) as Hd. rewrite Hl in Hd. pose proof (length_take es 8) as Ht. rewrite Hl in Ht. pose proof (take_drop 8 es) as Heq.
  destruct (drop 8 es) as [|e right] eqn:Ed; [done|]. destruct (take 8 es) as [|a left] eqn:Et; [done|].
  exists (a :: left), e, right. rewrite <- Heq in Hs, Hb |- *.
  apply sorted_app in Hs as (Hs1 & Hs2 & Hlt). apply Forall_app in Hb as [Hb1 Hb2].
  assert (Hle : forall x, x ∈ a :: left -> klt (key x) (key e)) by (intros; apply Hlt; [done|apply list_elem_of_here]).
  split_and!; [done..| | | | |].
  - apply Forall_forall. intros x Hx. rewrite Forall_forall in Hb1. split; [apply (Hb1 x Hx)|by apply Hle].
  - apply Forall_forall. intros x Hx. rewrite Forall_forall in Hb2. split; [|by apply (Hb2 x Hx)].
    apply elem_of_cons in Hx as [->|Hx]; [apply kle_refl|]. apply StronglySorted_inv in Hs2 as [_ Hf].
    rewrite Forall_forall in Hf. by apply klt_kle, Hf.
  - split.
    + apply Forall_cons in Hb1 as [[Ha _] _]. destruct lo; [|done].
      apply (kle_klt_trans _ (key a)); [done|]. apply Hle, list_elem_of_here.
    + apply Forall_cons in Hb2 as [[_ He] _]. by destruct hi.
  - simpl in Ht |- *. lia.
  - simpl in Hd |- *. lia.
Qed.

(** Inserting at an index of a vector, and splitting an internal node. *)
Lemma vec_insert_Ok {A} (l : list A) i x : (i <= length l)%nat -> vec_insert l i x = Ok (take i l ++ x :: drop i l).
Proof. intros Hi. unfold vec_insert. by apply Nat.leb_le in Hi as ->. Qed.

Lemma vec_insert_after {A} (l : list A) i c x :
  l !! i = Some c -> vec_insert l (i + 1) x = Ok (take i l ++ [c; x] ++ drop (Datatypes.S i) l).
Proof.
  intros Hc. pose proof (lookup_lt_Some _ _ _ Hc). rewrite vec_insert_Ok by lia. rewrite Nat.add_1_r.
  rewrite (take_S_r _ _ _ Hc), <- app_assoc. done.
Qed.

Lemma split_internal T lo hi seps cs first nxt es foot :
  forest T lo hi seps cs first nxt es foot -> length seps = Datatypes.S INTERNAL_MAX_KEYS ->
  let mid := (length seps / 2)%nat in
  exists p seps1 seps2 cs1 cs2 m es1 es2 foot1 foot2,
    vec_index seps mid = Ok p /\ split_off seps (mid + 1) = Ok (seps1 ++ [p], seps2) /\ split_off cs (mid + 1) = Ok (cs1, cs2) /\
    forest T lo (Some p) seps1 cs1 first (Some m) es1 foot1 /\ between lo hi p /\
    forest T (Some p) hi seps2 cs2 m nxt es2 foot2 /\ foot1 ## foot2 /\ es = es1 ++ es2 /\ foot = foot1 ∪ foot2 /\
    (length seps1 <= INTERNAL_MAX_KEYS)%nat /\ (length seps2 <= INTERNAL_MAX_KEYS)%nat.
Proof.
  intros Hf Hl mid. unfold mid, INTERNAL_MAX_KEYS in *. rewrite Hl. change (17 / 2)%nat with 8%nat.
  pose proof (forest_length _ _ _ _ _ _ _ _ _ Hf) as Hcs. rewrite Hl in Hcs.
  destruct (lookup_lt_is_Some_2 seps 8) as [p Hp]; [lia|].
  assert (Hs : seps = take 8 seps ++ p :: drop 9 seps) by (by rewrite take_drop_middle).
  rewrite Hs, <- (take_drop 9 cs) in Hf.
  apply forest_split in Hf as (m & es1 & es2 & foot1 & foot2 & H1 & H2 & H3 & H4 & H5 & H6).
  2:{ rewrite !length_take. lia. }
  exists p, (take 8 seps), (drop 9 seps), (take 9 cs), (drop 9 cs), m, es1, es2, foot1, foot2.
  unfold vec_index, split_off. rewrite Hp, Hl, Hcs. cbn [Nat.leb Nat.add].
  split; [done|]. split; [by rewrite (take_S_r _ _ _ Hp)|]. split; [done|].
  split_and!; try done; rewrite ?length_take, ?length_drop; lia.
Qed.

End Keys.
