(* ===== verification/V2BTreeOps.v ===== *)
(** * The operations of the B+ trees

    On a well-formed tree (V2BTreeShape.v), over any page store that keeps the promises
    of PageStore.v, [get], [insert], [delete] and [scan_all] do what the same operations
    do on a sorted association list. *)

From S2P Require Import Prelude V2Page PageStore V2BTree V2BTreeShape.

Section Reading.
Context {S : Type} `{PageStore S} {K : Type} (kcmp : K -> K -> comparison) `{!CmpLaws (fun _ => True) kcmp}.
Context (from_slice : bytes -> Result (Node K)).

(** The tree nodes that a state holds. *)
Definition nodes (s : S) (q : PageId) : option (Node K) :=
  match read_node from_slice s q with Ok node => Some node | _ => None end.

Abbreviation tree_in s := (tree kcmp (nodes s)).

Lemma nodes_ext s s' q : ps_read s' q = ps_read s q -> nodes s' q = nodes s q.
Proof. unfold nodes, read_node. by intros ->. Qed.

Lemma nodes_Some s q node : nodes s q = Some node -> read_node from_slice s q = Ok node.
Proof. unfold nodes. destruct (read_node _ s q); congruence. Qed.

Lemma nodes_readable s q node : nodes s q = Some node -> exists page, ps_read s q = Ok page.
Proof. unfold nodes, read_node. destruct (ps_read s q); [eauto|done..]. Qed.

Lemma read_payload s q node payload page :
  from_slice payload = Ok node -> encode_payload_page (node_kind node) payload = Ok page ->
  ps_read s q = Ok page -> nodes s q = Some node.
Proof.
  intros Hf He Hr. unfold nodes, read_node. rewrite Hr. cbn [bind].
  destruct (payload_page_wf _ _ _ He) as [Hw _]. rewrite (page_kind_wf _ _ Hw). cbn [bind].
  apply decode_encode_payload in He. destruct node; cbn [node_kind] in *; rewrite He; cbn [bind]; by rewrite Hf.
Qed.

(** A tree is left alone by what happens elsewhere. *)
Lemma tree_frame_in s s' h lo hi id first nxt es foot :
  (forall q, q ∈ foot -> ps_read s' q = ps_read s q) ->
  tree_in s h lo hi id first nxt es foot -> tree_in s' h lo hi id first nxt es foot.
Proof. intros Hq. apply (tree_frame kcmp). intros q Hin. by apply nodes_ext, Hq. Qed.

Lemma forest_frame_in s s' h lo hi seps cs first nxt es foot :
  (forall q, q ∈ foot -> ps_read s' q = ps_read s q) ->
  forest kcmp (tree_in s h) lo hi seps cs first nxt es foot ->
  forest kcmp (tree_in s' h) lo hi seps cs first nxt es foot.
Proof. intros Hq. apply (forest_impl kcmp). intros. eapply tree_frame_in; [|done]. intros. apply Hq. set_solver. Qed.

(** Its pages can be read. *)
Definition readable (s : S) (foot : gset PageId) : Prop := forall q, q ∈ foot -> is_ok (ps_read s q) = true.

Lemma forest_readable (T : treeP K) s lo hi seps cs first nxt es foot :
  (forall lo hi id first nxt es foot, T lo hi id first nxt es foot -> readable s foot) ->
  forest kcmp T lo hi seps cs first nxt es foot -> readable s foot.
Proof.
  intros HT. induction 1 as [lo hi c first nxt es foot Ht|lo hi sep seps c cs first mid nxt es1 es2 foot1 foot2 Ht Hs Hf IH Hd].
  - by eapply HT.
  - apply HT in Ht. intros q [Hq|Hq]%elem_of_union; auto.
Qed.

Lemma tree_readable s h lo hi id first nxt es foot :
  tree_in s h lo hi id first nxt es foot -> readable s foot.
Proof.
  revert lo hi id first nxt es foot. induction h as [|h IH]; intros lo hi id first nxt es foot; cbn [tree].
  - intros (_ & -> & Hn & _) q ->%elem_of_singleton. apply nodes_readable in Hn as [page ->]. done.
  - intros (seps & cs & foot' & Hn & _ & Hf & _ & ->) q [->%elem_of_singleton|Hq]%elem_of_union.
    + apply nodes_readable in Hn as [page ->]. done.
    + by eapply forest_readable.
Qed.
(** ** Reading *)

Lemma find_leaf_correct h : forall fuel s lo hi id first nxt es foot k,
  (h < fuel)%nat -> tree_in s h lo hi id first nxt es foot -> in_range kcmp lo hi k ->
  exists leaf, find_leaf kcmp from_slice fuel s id k = Ok leaf /\ sorted_entries kcmp (entries leaf) /\
    assoc_lookup kcmp k (entries leaf) = assoc_lookup kcmp k es.
Proof.
  induction h as [|h IH]; intros [|fuel] s lo hi id first nxt es foot k Hfuel Ht Hk; [lia| |lia|]; cbn [find_leaf].
  - destruct Ht as (-> & -> & Hn & Hs & _). rewrite (nodes_Some _ _ _ Hn). cbn [bind]. by eexists.
  - destruct Ht as (seps & cs & foot' & Hn & _ & Hf & _ & ->). rewrite (nodes_Some _ _ _ Hn). cbn [bind children].
    destruct (forest_focus kcmp _ _ _ _ _ _ _ _ _ k (tree_orderly kcmp _ h) Hf Hk)
      as (c & lo' & hi' & first' & nxt' & es0 & es1 & es2 & foot0 & foot1 & Hc & Ht & Hk' & _ & _ & -> & Hb & Ha & _).
    unfold vec_index, child_index. cbn [separators]. rewrite Hc. cbn [bind].
    destruct (IH fuel s lo' hi' c first' nxt' es1 foot1 k) as (leaf & Hleaf & Hs & Hlk); [lia|done..|].
    exists leaf. rewrite assoc_lookup_app by done. done.
Qed.

Lemma leftmost_leaf_page_correct h : forall fuel s lo hi id first nxt es foot,
  (h < fuel)%nat -> tree_in s h lo hi id first nxt es foot ->
  leftmost_leaf_page from_slice fuel s id = Ok first.
Proof.
  induction h as [|h IH]; intros [|fuel] s lo hi id first nxt es foot Hfuel Ht; [lia| |lia|]; cbn [leftmost_leaf_page].
  - destruct Ht as (-> & -> & Hn & _). by rewrite (nodes_Some _ _ _ Hn).
  - destruct Ht as (seps & cs & foot' & Hn & _ & Hf & _). rewrite (nodes_Some _ _ _ Hn). cbn [bind children].
    assert (Hfst : exists c cs' hi' nxt' es' foot'', cs = c :: cs' /\ tree_in s h lo hi' c first nxt' es' foot'').
    { inversion Hf; subst; [by repeat eexists|]. do 6 eexists. by split. }
    destruct Hfst as (c & cs' & hi' & nxt' & es' & foot'' & -> & Ht). cbn [vec_index lookup list_lookup bind].
    eapply IH; [lia|done].
Qed.

(** The leaf chain from the first leaf of a tree to the leaf after its last one. *)
Definition rows_of (es : list (LeafEntry K)) : list (K * bytes) := map (fun e => (key e, value e)) es.

Definition scans (chain : string) (s : S) (foot : gset PageId) (first : PageId) (nxt : option PageId)
    (es : list (LeafEntry K)) : Prop :=
  exists n, (n <= size foot)%nat /\ forall fuel rows,
    scan_loop from_slice chain (n + fuel) s (Some first) rows = scan_loop from_slice chain fuel s nxt (rows ++ rows_of es).

Lemma forest_scans chain (T : treeP K) s lo hi seps cs first nxt es foot :
  (forall lo hi id first nxt es foot, T lo hi id first nxt es foot -> scans chain s foot first nxt es) ->
  forest kcmp T lo hi seps cs first nxt es foot -> scans chain s foot first nxt es.
Proof.
  intros HT. induction 1 as [lo hi c first nxt es foot Ht|lo hi sep seps c cs first mid nxt es1 es2 foot1 foot2 Ht Hs Hf IH Hd].
  - by eapply HT.
  - apply HT in Ht as (n1 & Hn1 & H1). destruct IH as (n2 & Hn2 & H2). exists (n1 + n2)%nat. split.
    + rewrite size_union by done. lia.
    + intros fuel rows. rewrite <- Nat.add_assoc, H1, H2. unfold rows_of. by rewrite map_app, app_assoc.
Qed.

Lemma tree_scans chain s h : forall lo hi id first nxt es foot,
  tree_in s h lo hi id first nxt es foot -> scans chain s foot first nxt es.
Proof.
  induction h as [|h IH]; intros lo hi id first nxt es foot; cbn [tree].
  - intros (-> & -> & Hn & _). exists 1%nat. split; [by rewrite size_singleton|]. intros fuel rows. cbn [Nat.add scan_loop].
    by rewrite (nodes_Some _ _ _ Hn).
  - intros (seps & cs & foot' & _ & _ & Hf & Hid & ->).
    destruct (forest_scans chain _ _ _ _ _ _ _ _ _ _ IH Hf) as (n & Hn & H1). exists n. split; [|done].
    rewrite size_union by set_solver. lia.
Qed.

(** A tree has more pages than levels. *)
Lemma tree_height s h : forall lo hi id first nxt es foot,
  tree_in s h lo hi id first nxt es foot -> (h < size foot)%nat.
Proof.
  induction h as [|h IH]; intros lo hi id first nxt es foot; cbn [tree].
  - intros (_ & -> & _). rewrite size_singleton. lia.
  - intros (seps & cs & foot' & _ & _ & Hf & Hid & ->). rewrite size_union, size_singleton by set_solver.
    inversion Hf as [? ? ? ? ? ? ? Ht|? ? ? ? ? ? ? ? ? ? ? ? ? Ht]; subst; apply IH in Ht; [lia|].
    rewrite size_union by done. lia.
Qed.

(** The tree rooted at a page: its height, contents and pages. *)
Definition tree_at (s : S) (root : PageId) (h : nat) (es : list (LeafEntry K)) (foot : gset PageId) : Prop :=
  exists first, tree_in s h None None root first None es foot.

Lemma tree_at_frame s s' root h es foot :
  (forall q, q ∈ foot -> ps_read s' q = ps_read s q) -> tree_at s root h es foot -> tree_at s' root h es foot.
Proof. intros Hq [first Ht]. exists first. by eapply tree_frame_in. Qed.

Lemma in_range_all k : in_range kcmp None None k.
Proof. done. Qed.

End Reading.

Section Ops.
Context {S : Type} `{PageStore S} (ps_ready : S -> Prop) (ps_room : S -> Z) `{!PageStoreLaws S ps_ready ps_room}.
Context {K : Type} (kcmp : K -> K -> comparison) `{!CmpLaws (fun _ => True) kcmp}.
Context (to_vec : Node K -> Result bytes) (from_slice : bytes -> Result (Node K)).
Context (node_json : forall node, exists payload, to_vec node = Ok payload /\ from_slice payload = Ok node).

Abbreviation nodes := (nodes from_slice).
Abbreviation tree_in s := (tree kcmp (nodes s)).
Abbreviation tree_at := (tree_at kcmp from_slice).

(** The only error an undisturbed operation returns: a node that does not fit its page. *)
Definition too_big (e : DbError) : Prop :=
  exists n, 4080 < n /\ e = Storage ("payload of " ++ pretty n ++ " bytes exceeds page capacity 4080").

(** What an operation guarantees: [Q] of its result, or that error with the transaction
    still able to go on (to its rollback). *)
Definition outcome {A} (rs : Result A * S) (Q : A -> S -> Prop) : Prop :=
  match rs.1 with
  | Ok a => Q a rs.2
  | Err e => too_big e /\ ps_ready rs.2
  | _ => False
  end.

Lemma outcome_bind {A B} (m : ST S A) (k : A -> ST S B) s (Q : A -> S -> Prop) R :
  outcome (m s) Q -> (forall a s', Q a s' -> outcome (k a s') R) -> outcome (st_bind m k s) R.
Proof. unfold outcome. rewrite st_bind_run. intros HQ Hk. destruct (m s) as [[] s']; cbn [fst snd] in *; auto. by apply Hk. Qed.

Lemma outcome_ret {A} (a : A) s (Q : A -> S -> Prop) : Q a s -> outcome (st_ret a s) Q.
Proof. done. Qed.

Lemma outcome_get {A B} (f : S -> Result A) (a : A) (k : A -> ST S B) s R :
  f s = Ok a -> outcome (k a s) R -> outcome (st_bind (st_get f) k s) R.
Proof. intros Hf Hk. rewrite st_bind_run. cbn [st_get fst snd]. by rewrite Hf. Qed.

(** What writing a node changes. *)
Definition wrote (q : PageId) (node : Node K) (s s' : S) : Prop :=
  ps_ready s' /\ ps_room s' = ps_room s /\ nodes s' q = Some node /\ (forall r, r <> q -> ps_read s' r = ps_read s r).

Lemma write_node_outcome q node old s :
  ps_ready s -> ps_read s q = Ok old -> outcome (write_node to_vec q node s) (fun _ s' => wrote q node s s').
Proof.
  intros Hr Hold. destruct (node_json node) as (payload & Hv & Hf). unfold write_node. eapply outcome_get; [done|].
  rewrite st_bind_run. cbn [st_get fst snd].
  destruct (encode_payload_page (node_kind node) payload) as [page|e| |] eqn:He.
  - destruct (payload_page_wf _ _ _ He) as [[Hl _] _].
    destruct (ps_write_law s q page old) as (s' & Hw & Hr' & Hroom & Hread); [done|done| |].
    { unfold Zlen. rewrite Hl, PAGE_SIZE_nat_eq. done. }
    rewrite Hw. cbn. split; [done|]. split; [done|]. split.
    + apply (read_payload from_slice s' q node payload page); [done|done|]. by rewrite Hread, Z.eqb_refl.
    + intros r Hne. rewrite Hread. by apply Z.eqb_neq in Hne as ->.
  - cbn. split; [|done]. unfold encode_payload_page in He.
    destruct (Z.ltb_spec (PAGE_SIZE - Z.of_nat PAYLOAD_OFFSET) (Zlen payload)) as [Hlt|]; [|done].
    injection He as <-. exists (Zlen payload). split; [|done]. exact Hlt.
  - exfalso. unfold encode_payload_page in He. by destruct (_ <? _).
  - exfalso. unfold encode_payload_page in He. by destruct (_ <? _).
Qed.

(** ** Steps *)

(** What an operation did to the pages of a tree: it kept them, took fresh ones, used at
    most [n] of the room and changed no other page. *)
Definition extended (n : Z) (s s' : S) (foot foot' : gset PageId) : Prop :=
  ps_ready s' /\ ps_room s - n <= ps_room s' /\ foot ⊆ foot' /\
  (forall q, q ∈ foot' -> q ∈ foot \/ is_ok (ps_read s q) = false) /\
  (forall q, q ∉ foot' -> ps_read s' q = ps_read s q).

Definition same_reads (s s' : S) : Prop := forall q, ps_read s' q = ps_read s q.

Lemma outcome_weaken {A} (rs : Result A * S) (Q R : A -> S -> Prop) :
  outcome rs Q -> (forall a s', Q a s' -> R a s') -> outcome rs R.
Proof. unfold outcome. destruct rs.1; auto. Qed.

Lemma lock_outcome q page s :
  ps_ready s -> ps_read s q = Ok page ->
  outcome (ps_lock q s) (fun _ s' => ps_ready s' /\ ps_room s' = ps_room s /\ same_reads s s').
Proof. intros Hr Hp. destruct (ps_lock_law s q page Hr Hp) as (s' & -> & H'). done. Qed.

Lemma alloc_outcome kind s :
  ps_ready s -> 0 < ps_room s ->
  outcome (ps_alloc kind s) (fun q s' => ps_ready s' /\ ps_room s' = ps_room s - 1 /\ is_ok (ps_read s q) = false /\
    ps_read s' q = Ok (empty_page kind) /\ (forall r, r <> q -> ps_read s' r = ps_read s r)).
Proof.
  intros Hr Hp. destruct (ps_alloc_law s kind Hr Hp) as (q & s' & -> & Hr' & Hroom & Hf & Hread).
  split; [done|]. split; [done|]. split; [done|]. cbn [fst snd]. split.
  - by rewrite Hread, Z.eqb_refl.
  - intros r Hne. rewrite Hread. by apply Z.eqb_neq in Hne as ->.
Qed.

(** ** Insertion *)

(** The tree after an insertion below a node: one tree, or two and their separator. *)
Definition inserted (n : Z) (s : S) (h : nat) (lo hi : option K) (id first : PageId) (nxt : option PageId)
    (es : list (LeafEntry K)) (foot : gset PageId) (split : option (SplitResult K)) (s' : S) : Prop :=
  match split with
  | None => exists foot', tree_in s' h lo hi id first nxt es foot' /\ extended n s s' foot foot'
  | Some split => exists es1 es2 mid foot1 foot2,
      tree_in s' h lo (Some (separator_key split)) id first (Some mid) es1 foot1 /\
      tree_in s' h (Some (separator_key split)) hi (right_page_id split) mid nxt es2 foot2 /\
      foot1 ## foot2 /\ between kcmp lo hi (separator_key split) /\ es = es1 ++ es2 /\
      extended n s s' foot (foot1 ∪ foot2)
  end.

Lemma insert_into_leaf_outcome s lo hi id es nxt k v :
  ps_ready s -> 0 < ps_room s -> nodes s id = Some (NLeaf (mkLeafNode es nxt)) ->
  sorted_entries kcmp es -> bounded_entries kcmp lo hi es -> (length es <= LEAF_MAX_ENTRIES)%nat -> in_range kcmp lo hi k ->
  outcome (insert_into_leaf kcmp to_vec id (mkLeafNode es nxt) k v s)
    (inserted 1 s 0 lo hi id id nxt (assoc_insert kcmp k v es) {[id]}).
Proof.
  intros Hr Hroom Hn Hs Hb Hl Hk. destruct (nodes_readable from_slice _ _ _ Hn) as [page Hpage].
  pose proof (assoc_insert_sorted kcmp k v es Hs) as Hs'.
  pose proof (assoc_insert_Forall kcmp (in_range kcmp lo hi) k v es Hk Hb) as Hb'.
  pose proof (length_assoc_insert kcmp k v es) as Hl'.
  unfold insert_into_leaf. eapply outcome_get; [apply insert_by_index|]. cbn [next entries].
  set (es' := assoc_insert kcmp k v es) in *. destruct (Nat.leb_spec (length es') LEAF_MAX_ENTRIES) as [Hle|Hgt].
  - eapply outcome_bind; [by eapply write_node_outcome|]. intros _ s' (Hr' & Hroom' & Hn' & Hrest). apply outcome_ret.
    exists {[id]}. cbn [tree]. split; [by split_and!|]. split_and!; [done|lia|done|by left|].
    intros q Hq. apply Hrest. set_solver.
  - destruct (split_entries kcmp lo hi es' Hs' Hb') as (left & e & right & Hsplit & Heq & Hs1 & Hs2 & Hb1 & Hb2 & Hbt & Hl1 & Hl2); [lia|].
    eapply outcome_get; [exact Hsplit|]. eapply outcome_get; [reflexivity|].
    eapply outcome_bind; [by apply alloc_outcome|]. intros q s1 (Hr1 & Hroom1 & Hfresh & Hnew & Hold1).
    assert (Hne : q <> id). { intros ->. by rewrite Hpage in Hfresh. }
    eapply outcome_bind; [eapply (write_node_outcome _ _ page); [done|by rewrite Hold1]|].
    intros _ s2 (Hr2 & Hroom2 & Hn2 & Hold2).
    eapply outcome_bind; [eapply (write_node_outcome _ _ (empty_page Leaf)); [done|by rewrite Hold2]|].
    intros _ s3 (Hr3 & Hroom3 & Hn3 & Hold3). apply outcome_ret. cbn [inserted separator_key right_page_id].
    exists left, (e :: right), q, {[id]}, {[q]}. cbn [tree].
    split. { split_and!; try done. rewrite (nodes_ext from_slice s2); [done|]. by apply Hold3. }
    split; [by split_and!|]. split; [set_solver|]. split; [done|]. split; [done|].
    split_and!; [done|lia|set_solver| |].
    + intros r [Hr'| ->%elem_of_singleton]%elem_of_union; [by left|by right].
    + intros r Hr'. rewrite Hold3, Hold2, Hold1 by set_solver. done.
Qed.

Lemma extended_trans n m s s1 s2 f f1 f2 :
  extended n s s1 f f1 -> extended m s1 s2 f1 f2 -> extended (n + m) s s2 f f2.
Proof.
  intros (_ & Hroom1 & Hsub1 & Hnew1 & Hold1) (Hr & Hroom2 & Hsub2 & Hnew2 & Hold2).
  split_and!; [done|lia|by etrans| |].
  - intros q Hq. destruct (decide (q ∈ f1)) as [Hq1|Hq1]; [by apply Hnew1|]. right. rewrite <- Hold1 by done.
    destruct (Hnew2 q Hq); [done|done].
  - intros q Hq. rewrite Hold2, Hold1; [done| |done]. intros Hq1. by apply Hq, Hsub2.
Qed.

Lemma extended_grow n s s' g f f' : extended n s s' f f' -> extended n s s' (g ∪ f) (g ∪ f').
Proof.
  intros (Hr & Hroom & Hsub & Hnew & Hold). split_and!; [done|done|set_solver| |].
  - intros q [Hq|Hq]%elem_of_union; [left; set_solver|]. destruct (Hnew q Hq); [left; set_solver|by right].
  - intros q Hq. apply Hold. set_solver.
Qed.

Lemma extended_same s s' f : ps_ready s' -> ps_room s' = ps_room s -> same_reads s s' -> extended 0 s s' f f.
Proof. intros Hr Hroom Hsame. split_and!; [done|lia|done|by left|]. intros q _. apply Hsame. Qed.

Lemma inserted_after n m s s1 h lo hi id first nxt es foot foot1 split s' :
  extended n s s1 foot foot1 -> inserted m s1 h lo hi id first nxt es foot1 split s' ->
  inserted (n + m) s h lo hi id first nxt es foot split s'.
Proof.
  intros He. destruct split as [sp|]; cbn [inserted].
  - intros (es1 & es2 & mid & f1 & f2 & H1 & H2 & H3 & H4 & H5 & H6). exists es1, es2, mid, f1, f2.
    split_and!; [done..|]. by eapply extended_trans.
  - intros (foot' & H1 & H2). exists foot'. split; [done|]. by eapply extended_trans.
Qed.

(** Pages taken fresh are not pages of a tree that was there. *)
Lemma extended_disjoint n s s' f f' g : extended n s s' f f' -> readable s g -> f ## g -> f' ## g.
Proof.
  intros (_ & _ & _ & Hnew & _) Hg Hd q Hq1 Hq2. destruct (Hnew q Hq1) as [Hq|Hq]; [by apply (Hd q)|].
  by rewrite Hg in Hq.
Qed.

(** An internal node takes in the split of a child. *)
Lemma insert_split_outcome s h lo hi id old seps cs i c sep right first nxt es foot :
  ps_ready s -> 0 < ps_room s -> ps_read s id = Ok old -> (length seps <= INTERNAL_MAX_KEYS)%nat ->
  (i <= length seps)%nat -> cs !! i = Some c -> id ∉ foot ->
  forest kcmp (tree_in s h) lo hi (take i seps ++ [sep] ++ drop i seps) (take i cs ++ [c; right] ++ drop (Datatypes.S i) cs)
    first nxt es foot ->
  outcome (insert_split to_vec id (mkInternalNode seps cs) i (mkSplitResult sep right) s)
    (inserted 1 s (Datatypes.S h) lo hi id first nxt es ({[id]} ∪ foot)).
Proof.
  intros Hr Hroom Hold Hl Hi Hc Hid Hf. unfold insert_split. cbn [separators children separator_key right_page_id].
  eapply outcome_get; [by apply vec_insert_Ok|]. eapply outcome_get; [by apply vec_insert_after|].
  change (take i seps ++ sep :: drop i seps) with (take i seps ++ [sep] ++ drop i seps).
  set (seps' := take i seps ++ [sep] ++ drop i seps) in *. set (cs' := take i cs ++ [c; right] ++ drop (Datatypes.S i) cs) in *.
  assert (Hlen : length seps' = Datatypes.S (length seps)).
  { unfold seps'. rewrite !length_app, length_take, length_drop. simpl. lia. }
  destruct (Nat.leb_spec (length seps') INTERNAL_MAX_KEYS) as [Hle|Hgt].
  - eapply outcome_bind; [by eapply write_node_outcome|]. intros _ s' (Hr' & Hroom' & Hn' & Hrest). apply outcome_ret.
    exists ({[id]} ∪ foot). split.
    + exists seps', cs', foot. split; [done|]. split; [done|]. split; [|done].
      eapply (forest_frame_in kcmp); [|exact Hf]. intros q Hq. apply Hrest. set_solver.
    + split_and!; [done|lia|done|by left|]. intros q Hq. apply Hrest. set_solver.
  - destruct (split_internal kcmp _ _ _ _ _ _ _ _ _ Hf) as
      (p & seps1 & seps2 & cs1 & cs2 & m & es1 & es2 & foot1 & foot2 & Hp & Hsp & Hcs & H1 & Hbt & H2 & Hd & -> & -> & Hl1 & Hl2); [lia|].
    eapply outcome_get; [exact Hp|]. eapply outcome_get; [exact Hsp|]. cbn beta iota. rewrite removelast_last.
    eapply outcome_get; [exact Hcs|].
    pose proof (forest_readable kcmp _ _ _ _ _ _ _ _ _ _ (tree_readable kcmp from_slice s h) H1) as Hrd1.
    pose proof (forest_readable kcmp _ _ _ _ _ _ _ _ _ _ (tree_readable kcmp from_slice s h) H2) as Hrd2.
    eapply outcome_bind; [by apply alloc_outcome|]. intros q s1 (Hr1 & Hroom1 & Hfresh & Hnew & Hold1).
    assert (Hqid : q <> id). { intros ->. by rewrite Hold in Hfresh. }
    assert (Hq1 : q ∉ foot1). { intros Hq. by rewrite Hrd1 in Hfresh. }
    assert (Hq2 : q ∉ foot2). { intros Hq. by rewrite Hrd2 in Hfresh. }
    eapply outcome_bind; [eapply (write_node_outcome _ _ old); [done|by rewrite Hold1]|].
    intros _ s2 (Hr2 & Hroom2 & Hn2 & Hold2).
    eapply outcome_bind; [eapply (write_node_outcome _ _ (empty_page Internal)); [done|by rewrite Hold2]|].
    intros _ s3 (Hr3 & Hroom3 & Hn3 & Hold3). apply outcome_ret. cbn [inserted separator_key right_page_id].
    assert (Hframe : forall r, r <> q -> r <> id -> ps_read s3 r = ps_read s r).
    { intros r Hrq Hrid. by rewrite Hold3, Hold2, Hold1. }
    exists es1, es2, m, ({[id]} ∪ foot1), ({[q]} ∪ foot2). split.
    { exists seps1, cs1, foot1. split. { rewrite (nodes_ext from_slice s2); [done|by apply Hold3]. }
      split; [done|]. split; [|split; [set_solver|done]]. eapply (forest_frame_in kcmp); [|exact H1].
      intros r Hr'. apply Hframe; set_solver. }
    split.
    { exists seps2, cs2, foot2. split; [done|]. split; [done|]. split; [|done]. eapply (forest_frame_in kcmp); [|exact H2].
      intros r Hr'. apply Hframe; set_solver. }
    split; [set_solver|]. split; [done|]. split; [done|]. split_and!; [done|lia|set_solver| |].
    + intros r Hr'. destruct (decide (r = q)) as [->|]; [by right|left; set_solver].
    + intros r Hr'. apply Hframe; set_solver.
Qed.

(** Locking the page of a node and reading it. *)
Lemma lock_read_outcome {A} s id node (k : Node K -> ST S A) Q :
  ps_ready s -> nodes s id = Some node ->
  (forall s', ps_ready s' -> ps_room s' = ps_room s -> same_reads s s' -> outcome (k node s') Q) ->
  outcome ((ps_lock id ;;! let! node := st_get (fun pager => read_node from_slice pager id) in k node) s) Q.
Proof.
  intros Hr Hn Hk. destruct (nodes_readable from_slice _ _ _ Hn) as [page Hpage].
  eapply outcome_bind; [by eapply lock_outcome|]. intros _ s' (Hr' & Hroom & Hsame).
  eapply outcome_get; [|by apply Hk]. apply nodes_Some. rewrite <- Hn. by apply nodes_ext.
Qed.

(** The child of an internal node that holds a key, and the node around its new version. *)
Definition rebuilds (s : S) (h : nat) lo hi id seps cs first nxt es0 es2 (k : K) foot0 foot1 lo' hi' first' nxt' : Prop :=
  forall s1 s2 n seps' cs' es1' foot1',
    ps_room s1 = ps_room s -> same_reads s s1 -> extended n s1 s2 foot1 foot1' ->
    forest kcmp (tree_in s2 h) lo' hi' seps' cs' first' nxt' es1' foot1' ->
    let i := partition_point kcmp k seps in
    id ∉ foot1' /\ ps_read s2 id = ps_read s id /\
    forest kcmp (tree_in s2 h) lo hi (take i seps ++ seps' ++ drop i seps) (take i cs ++ cs' ++ drop (Datatypes.S i) cs)
      first nxt (es0 ++ es1' ++ es2) (foot0 ∪ foot1') /\
    extended n s s2 ({[id]} ∪ (foot0 ∪ foot1)) ({[id]} ∪ (foot0 ∪ foot1')).

Lemma focus_in s h lo hi id seps cs first nxt es foot k :
  readable s ({[id]} ∪ foot) -> id ∉ foot -> forest kcmp (tree_in s h) lo hi seps cs first nxt es foot -> in_range kcmp lo hi k ->
  let i := partition_point kcmp k seps in
  exists c lo' hi' first' nxt' es0 es1 es2 foot0 foot1,
    cs !! i = Some c /\ tree_in s h lo' hi' c first' nxt' es1 foot1 /\ in_range kcmp lo' hi' k /\
    foot = foot0 ∪ foot1 /\ es = es0 ++ es1 ++ es2 /\ all_below kcmp es0 k /\ all_above kcmp es2 k /\
    (i <= length seps)%nat /\ rebuilds s h lo hi id seps cs first nxt es0 es2 k foot0 foot1 lo' hi' first' nxt'.
Proof.
  intros Hread Hid Hf Hk i.
  destruct (forest_focus kcmp _ _ _ _ _ _ _ _ _ k (tree_orderly kcmp _ h) Hf Hk)
    as (c & lo' & hi' & first' & nxt' & es0 & es1 & es2 & foot0 & foot1 & Hc & Ht & Hk' & -> & Hd & -> & Hb & Ha & Hi & Hclose).
  exists c, lo', hi', first', nxt', es0, es1, es2, foot0, foot1. split_and!; [done..|].
  intros s1 s2 n seps' cs' es1' foot1' Hroom Hsame He Hf'.
  assert (Hdis : foot1' ## ({[id]} ∪ foot0)).
  { eapply extended_disjoint; [exact He| |set_solver]. intros q Hq. rewrite Hsame. apply Hread. set_solver. }
  assert (Hold : forall q, q ∈ {[id]} ∪ foot0 -> ps_read s2 q = ps_read s q).
  { intros q Hq. destruct He as (_ & _ & _ & _ & He). rewrite He by set_solver. apply Hsame. }
  split; [set_solver|]. split; [apply Hold; set_solver|]. split.
  - apply Hclose; [|done|set_solver]. intros lo0 hi0 id0 first0 nxt0 es3 f Hsub Ht3.
    eapply (tree_frame_in kcmp); [|exact Ht3]. intros q Hq. apply Hold. set_solver.
  - rewrite !(assoc_L (∪)). apply extended_grow. destruct He as (H1 & H2 & H3 & H4 & H5).
    split_and!; [done|lia|done| |].
    + intros q Hq. rewrite <- (Hsame q). by apply H4.
    + intros q Hq. rewrite H5 by done. apply Hsame.
Qed.

Lemma insert_into_page_outcome h : forall fuel s lo hi id first nxt es foot k v,
  (h < fuel)%nat -> ps_ready s -> Z.of_nat h + 1 <= ps_room s ->
  tree_in s h lo hi id first nxt es foot -> in_range kcmp lo hi k ->
  outcome (insert_into_page kcmp to_vec from_slice fuel id k v s)
    (inserted (Z.of_nat h + 1) s h lo hi id first nxt (assoc_insert kcmp k v es) foot).
Proof.
  induction h as [|h IH]; intros [|fuel] s lo hi id first nxt es foot k v Hfuel Hr Hroom Ht Hk; [lia| |lia|];
    cbn [insert_into_page].
  - pose proof Ht as (-> & -> & Hn & Hs & Hb & Hl). eapply lock_read_outcome; [done..|]. intros s1 Hr1 Hroom1 Hsame.
    eapply outcome_weaken; [apply (insert_into_leaf_outcome s1 lo hi); [done|lia| |done..]|].
    + rewrite <- Hn. by apply nodes_ext.
    + intros split s' Hi. eapply (inserted_after 0 1); [by apply extended_same|done].
  - pose proof (tree_readable kcmp from_slice _ _ _ _ _ _ _ _ _ Ht) as Hread. destruct Ht as (seps & cs & foot' & Hn & Hl & Hf & Hid & ->).
    eapply lock_read_outcome; [done..|]. intros s1 Hr1 Hroom1 Hsame. cbn [children]. unfold child_index. cbn [separators].
    destruct (focus_in s h lo hi id seps cs first nxt es foot' k) as (c & lo' & hi' & first' & nxt' & es0 & es1 & es2 & foot0 & foot1
      & Hc & Ht1 & Hk1 & -> & -> & Hb0 & Ha2 & Hi & Hrebuild); [done..|].
    eapply outcome_get; [unfold vec_index; by rewrite Hc|].
    eapply outcome_bind; [apply (IH fuel s1 lo' hi' c first' nxt' es1 foot1 k v); [lia|done|lia| |done]|].
    { eapply (tree_frame_in kcmp); [|done]. intros q _. apply Hsame. }
    rewrite assoc_insert_app by done. replace (Z.of_nat (Datatypes.S h) + 1) with (Z.of_nat h + 1 + 1) by lia. intros [[sep right]|] s2.
    + intros (es1a & es1b & mid & foot1a & foot1b & HtA & HtB & Hdab & Hbt & -> & He). cbn [separator_key right_page_id] in *.
      destruct (Hrebuild s1 s2 _ [sep] [c; right] (es1a ++ es1b) _ Hroom1 Hsame He) as (Hid' & Hold & Hf' & He').
      { eapply forest_cons; [done|done|by constructor|done]. }
      destruct (nodes_readable from_slice _ _ _ Hn) as [old Hr0]. rewrite Hr0 in Hold. destruct He as (Hr2 & Hroom2 & _).
      eapply outcome_weaken; [apply (insert_split_outcome s2 h lo hi id old seps cs _ c sep right first nxt
        (es0 ++ (es1a ++ es1b) ++ es2) (foot0 ∪ (foot1a ∪ foot1b))); try done; [lia|set_solver]|].
      intros split s3 Hins. by eapply inserted_after.
    + intros (foot1' & Ht2 & He). apply outcome_ret.
      destruct (Hrebuild s1 s2 _ [] [c] _ _ Hroom1 Hsame He (forest_one _ _ _ _ _ _ _ _ _ Ht2)) as (Hid' & Hold & Hf' & He').
      cbn [app] in Hf'. rewrite take_drop, take_drop_middle in Hf' by done.
      exists ({[id]} ∪ (foot0 ∪ foot1')). split.
      * exists seps, cs, (foot0 ∪ foot1'). rewrite (nodes_ext from_slice s) by done. split_and!; [done..|set_solver|done].
      * destruct He' as (H1 & H2 & H3). split; [done|]. split; [lia|done].
Qed.

(** A new root over two trees. *)
Lemma new_root_outcome s h lo hi id sep right first mid nxt es1 es2 foot1 foot2 :
  ps_ready s -> 0 < ps_room s ->
  tree_in s h lo (Some sep) id first (Some mid) es1 foot1 -> between kcmp lo hi sep ->
  tree_in s h (Some sep) hi right mid nxt es2 foot2 -> foot1 ## foot2 ->
  outcome ((let! new_root := ps_alloc Internal in
            write_node to_vec new_root (NInternal (from_split id sep right)) ;;!
            st_ret new_root) s)
    (fun root s' => exists foot', tree_in s' (Datatypes.S h) lo hi root first nxt (es1 ++ es2) foot' /\
       extended 1 s s' (foot1 ∪ foot2) foot').
Proof.
  intros Hr Hroom H1 Hb H2 Hd. eapply outcome_bind; [by apply alloc_outcome|].
  intros q s1 (Hr1 & Hroom1 & Hfresh & Hnew & Hold1).
  eapply outcome_bind; [by eapply write_node_outcome|]. intros _ s2 (Hr2 & Hroom2 & Hn2 & Hold2). apply outcome_ret.
  assert (Hq : q ∉ foot1 ∪ foot2).
  { intros [Hq|Hq]%elem_of_union; [rewrite (tree_readable kcmp from_slice _ _ _ _ _ _ _ _ _ H1) in Hfresh|
      rewrite (tree_readable kcmp from_slice _ _ _ _ _ _ _ _ _ H2) in Hfresh]; done. }
  assert (Hsame : forall r, r <> q -> ps_read s2 r = ps_read s r) by (intros r Hne; by rewrite Hold2, Hold1).
  exists ({[q]} ∪ (foot1 ∪ foot2)). split.
  - exists [sep], [id; right], (foot1 ∪ foot2). split; [done|]. split; [unfold INTERNAL_MAX_KEYS; simpl; lia|].
    split; [|done]. eapply forest_cons; [| |apply forest_one|done].
    + eapply (tree_frame_in kcmp); [|exact H1]. intros r Hr'. apply Hsame. set_solver.
    + done.
    + eapply (tree_frame_in kcmp); [|exact H2]. intros r Hr'. apply Hsame. set_solver.
  - split_and!; [done|lia|set_solver| |].
    + intros r Hr'. destruct (decide (r = q)) as [->|]; [by right|left; set_solver].
    + intros r Hr'. apply Hsame. set_solver.
Qed.

(** ** Deletion *)

Lemma delete_from_page_outcome h : forall fuel s lo hi id first nxt es foot k,
  (h < fuel)%nat -> ps_ready s -> tree_in s h lo hi id first nxt es foot -> in_range kcmp lo hi k ->
  outcome (delete_from_page kcmp to_vec from_slice fuel id k s)
    (fun _ s' => tree_in s' h lo hi id first nxt (assoc_delete kcmp k es) foot /\ extended 0 s s' foot foot).
Proof.
  induction h as [|h IH]; intros [|fuel] s lo hi id first nxt es foot k Hfuel Hr Ht Hk; [lia| |lia|];
    cbn [delete_from_page].
  - pose proof Ht as (-> & -> & Hn & Hs & Hb & Hl). eapply lock_read_outcome; [done..|]. intros s1 Hr1 Hroom1 Hsame.
    cbn [entries next]. pose proof (delete_by_index kcmp k es) as Hdel. destruct (nodes_readable from_slice _ _ _ Hn) as [page Hpage].
    destruct (binary_search kcmp es k) as [index|index].
    + eapply outcome_get; [exact Hdel|].
      eapply outcome_weaken; [eapply (write_node_outcome _ _ page); [done|by rewrite Hsame]|].
      intros _ s2 (Hr2 & Hroom2 & Hn2 & Hold2). split.
      * split_and!; [done..|by apply assoc_delete_sorted|by apply (assoc_delete_Forall kcmp (in_range kcmp lo hi))|].
        pose proof (length_assoc_delete kcmp k es). lia.
      * split_and!; [done|lia|done|by left|]. intros q Hq. rewrite Hold2 by set_solver. apply Hsame.
    + apply outcome_ret. rewrite Hdel. split; [|by apply extended_same]. eapply (tree_frame_in kcmp); [|exact Ht]. intros; apply Hsame.
  - pose proof (tree_readable kcmp from_slice _ _ _ _ _ _ _ _ _ Ht) as Hread. destruct Ht as (seps & cs & foot' & Hn & Hl & Hf & Hid & ->).
    eapply lock_read_outcome; [done..|]. intros s1 Hr1 Hroom1 Hsame. cbn [children]. unfold child_index. cbn [separators].
    destruct (focus_in s h lo hi id seps cs first nxt es foot' k) as (c & lo' & hi' & first' & nxt' & es0 & es1 & es2 & foot0 & foot1
      & Hc & Ht1 & Hk1 & -> & -> & Hb0 & Ha2 & Hi & Hrebuild); [done..|].
    eapply outcome_get; [unfold vec_index; by rewrite Hc|].
    eapply outcome_weaken; [apply (IH fuel s1 lo' hi' c first' nxt' es1 foot1 k); [lia|done| |done]|].
    { eapply (tree_frame_in kcmp); [|done]. intros q _. apply Hsame. }
    intros _ s2 (Ht2 & He). rewrite assoc_delete_app by done.
    destruct (Hrebuild s1 s2 _ [] [c] _ _ Hroom1 Hsame He (forest_one _ _ _ _ _ _ _ _ _ Ht2)) as (Hid' & Hold & Hf' & He').
    cbn [app] in Hf'. rewrite take_drop, take_drop_middle in Hf' by done. split; [|done].
    exists seps, cs, (foot0 ∪ foot1). rewrite (nodes_ext from_slice s) by done. by split_and!.
Qed.

(** ** Overwriting *)

Lemma length_assoc_overwrite k v es :
  sorted_entries kcmp es -> is_Some (assoc_lookup kcmp k es) -> length (assoc_insert kcmp k v es) = length es.
Proof.
  induction 1 as [|e es Hes IH He]; [by intros []|]. rewrite assoc_lookup_cons. cbn [assoc_insert].
  destruct (kcmp (key e) k) eqn:E; cbn [length]; [done|by intros Hk; rewrite IH|]. intros Hk. exfalso.
  rewrite (assoc_lookup_below kcmp) in Hk; [by destruct Hk|]. apply (kcmp_Gt kcmp) in E.
  eapply Forall_impl; [exact He|]. intros e' Hlt. by apply (klt_trans kcmp _ (key e)).
Qed.

(** Inserting under a key that is there replaces its value in place: no page is added and
    the root stays. *)
Lemma overwrite_in_page_outcome h : forall fuel s lo hi id first nxt es foot k v,
  (h < fuel)%nat -> ps_ready s -> tree_in s h lo hi id first nxt es foot -> in_range kcmp lo hi k ->
  is_Some (assoc_lookup kcmp k es) ->
  outcome (insert_into_page kcmp to_vec from_slice fuel id k v s)
    (fun split s' => split = None /\ tree_in s' h lo hi id first nxt (assoc_insert kcmp k v es) foot /\ extended 0 s s' foot foot).
Proof.
  induction h as [|h IH]; intros [|fuel] s lo hi id first nxt es foot k v Hfuel Hr Ht Hk Hin; [lia| |lia|];
    cbn [insert_into_page].
  - pose proof Ht as (-> & -> & Hn & Hs & Hb & Hl). eapply lock_read_outcome; [done..|]. intros s1 Hr1 Hroom1 Hsame.
    destruct (nodes_readable from_slice _ _ _ Hn) as [page Hpage]. unfold insert_into_leaf.
    eapply outcome_get; [apply insert_by_index|]. cbn [next entries]. pose proof (length_assoc_overwrite k v es Hs Hin) as Hlen.
    destruct (Nat.leb_spec (length (assoc_insert kcmp k v es)) LEAF_MAX_ENTRIES) as [Hle|Hgt]; [|lia].
    eapply outcome_bind; [eapply (write_node_outcome _ _ page); [done|by rewrite Hsame]|].
    intros _ s2 (Hr2 & Hroom2 & Hn2 & Hold2). apply outcome_ret. split; [done|]. split.
    + split_and!; [done..|by apply assoc_insert_sorted|by apply (assoc_insert_Forall kcmp (in_range kcmp lo hi))|done].
    + split_and!; [done|lia|done|by left|]. intros q Hq. rewrite Hold2 by set_solver. apply Hsame.
  - pose proof (tree_readable kcmp from_slice _ _ _ _ _ _ _ _ _ Ht) as Hread. destruct Ht as (seps & cs & foot' & Hn & Hl & Hf & Hid & ->).
    eapply lock_read_outcome; [done..|]. intros s1 Hr1 Hroom1 Hsame. cbn [children]. unfold child_index. cbn [separators].
    destruct (focus_in s h lo hi id seps cs first nxt es foot' k) as (c & lo' & hi' & first' & nxt' & es0 & es1 & es2 & foot0 & foot1
      & Hc & Ht1 & Hk1 & -> & -> & Hb0 & Ha2 & Hi & Hrebuild); [done..|].
    rewrite assoc_lookup_app in Hin by done. eapply outcome_get; [unfold vec_index; by rewrite Hc|].
    eapply outcome_bind; [apply (IH fuel s1 lo' hi' c first' nxt' es1 foot1 k v); [lia|done| |done|done]|].
    { eapply (tree_frame_in kcmp); [|done]. intros q _. apply Hsame. }
    intros split s2 (-> & Ht2 & He). apply outcome_ret. split; [done|]. rewrite assoc_insert_app by done.
    destruct (Hrebuild s1 s2 _ [] [c] _ _ Hroom1 Hsame He (forest_one _ _ _ _ _ _ _ _ _ Ht2)) as (Hid' & Hold & Hf' & He').
    cbn [app] in Hf'. rewrite take_drop, take_drop_middle in Hf' by done. split; [|done].
    exists seps, cs, (foot0 ∪ foot1). rewrite (nodes_ext from_slice s) by done. by split_and!.
Qed.

(** ** Whole trees *)

Lemma tree_overwrite_outcome s root h es foot fuel k v :
  tree_at s root h es foot -> ps_ready s -> (h < fuel)%nat -> is_Some (assoc_lookup kcmp k es) ->
  outcome (tree_insert kcmp to_vec from_slice fuel root k v s) (fun root' s' =>
    root' = root /\ tree_at s' root h (assoc_insert kcmp k v es) foot /\ extended 0 s s' foot foot).
Proof.
  intros [first Ht] Hr Hfuel Hin. unfold tree_insert.
  eapply outcome_bind; [eapply overwrite_in_page_outcome; [done|done|done|apply in_range_all|done]|].
  intros split s1 (-> & Ht' & He). apply outcome_ret. split; [done|]. split; [by eexists|done].
Qed.

Lemma tree_insert_outcome s root h es foot fuel k v :
  tree_at s root h es foot -> ps_ready s -> Z.of_nat h + 2 <= ps_room s -> (h < fuel)%nat ->
  outcome (tree_insert kcmp to_vec from_slice fuel root k v s) (fun root' s' =>
    exists h' foot', tree_at s' root' h' (assoc_insert kcmp k v es) foot' /\ (h <= h' <= Datatypes.S h)%nat /\
      extended (Z.of_nat h + 2) s s' foot foot').
Proof.
  intros [first Ht] Hr Hroom Hfuel. unfold tree_insert.
  eapply outcome_bind; [eapply insert_into_page_outcome; [done|done|lia|done|apply in_range_all]|].
  intros [[sep right]|] s1; cbn [separator_key right_page_id].
  - intros (es1 & es2 & mid & foot1 & foot2 & H1 & H2 & Hd & Hb & Heq & He). cbn [separator_key right_page_id] in *.
    assert (He' := He). destruct He' as (Hr1 & Hroom1 & _).
    eapply outcome_weaken; [eapply (new_root_outcome s1 h None None); [done|lia|done..]|].
    intros root' s2 (foot' & Ht' & He'). exists (Datatypes.S h), foot'. rewrite Heq. split; [by eexists|]. split; [lia|].
    replace (Z.of_nat h + 2) with (Z.of_nat h + 1 + 1) by lia. by eapply extended_trans.
  - intros (foot' & Ht' & He). apply outcome_ret. exists h, foot'. split; [by eexists|]. split; [lia|].
    destruct He as (H1 & H2 & H3). split; [done|]. split; [lia|done].
Qed.

Lemma tree_create_outcome s :
  ps_ready s -> 0 < ps_room s ->
  outcome (tree_create to_vec s) (fun root s' => tree_at s' root 0 [] {[root]} /\ extended 1 s s' ∅ {[root]}).
Proof.
  intros Hr Hroom. unfold tree_create. eapply outcome_bind; [by apply alloc_outcome|].
  intros q s1 (Hr1 & Hroom1 & Hfresh & Hnew & Hold1).
  eapply outcome_bind; [by eapply write_node_outcome|]. intros _ s2 (Hr2 & Hroom2 & Hn2 & Hold2). apply outcome_ret. split.
  - exists q. cbn [tree]. split_and!; [done|done|done|constructor|constructor|]. unfold LEAF_MAX_ENTRIES. simpl. lia.
  - split_and!; [done|lia|set_solver| |].
    + intros r ->%elem_of_singleton. by right.
    + intros r Hr'. rewrite Hold2, Hold1 by set_solver. done.
Qed.
End Ops.
