(* ===== verification/V2Trees.v ===== *)
(** * The trees are sorted maps

    What [get], [insert], [delete] and [scan_all] do on a well-formed tree, and the two
    instances over the pager: any sequence of insertions and deletions of one
    transaction leaves a tree that holds what a sorted association list would hold. *)

From S2P Require Import Prelude Types Ast V2Page Wal TxTypes TxnManager TxnRelease V2Pager PageStore.
From S2P Require Import V2Mvcc PagerStore V2BTree V2BTreeShape V2BTreeOps.

(** ** Sequences of operations *)

Inductive TreeOp (K : Type) :=
  | TInsert (k : K) (v : bytes)
  | TDelete (k : K).
Arguments TInsert {K} k v.
Arguments TDelete {K} k.

Section Trees.
Context {S : Type} `{PageStore S} (ps_ready : S -> Prop) (ps_room : S -> Z) `{!PageStoreLaws S ps_ready ps_room}.
Context {K : Type} (kcmp : K -> K -> comparison) `{!CmpLaws (fun _ => True) kcmp}.
Context (to_vec : Node K -> Result bytes) (from_slice : bytes -> Result (Node K)).
Context (node_json : forall node, exists payload, to_vec node = Ok payload /\ from_slice payload = Ok node).

Abbreviation tree_of := (tree_at kcmp from_slice).

(** The tree after each operation, by its root. *)
Fixpoint run_tree (insert : PageId -> K -> bytes -> ST S PageId) (delete : PageId -> K -> ST S unit)
    (ops : list (TreeOp K)) (root : PageId) : ST S PageId :=
  match ops with
  | [] => st_ret root
  | TInsert k v :: ops =>
      let! root := insert root k v in
      run_tree insert delete ops root
  | TDelete k :: ops =>
      delete root k ;;!
      run_tree insert delete ops root
  end.

Fixpoint run_list (ops : list (TreeOp K)) (es : list (LeafEntry K)) : list (LeafEntry K) :=
  match ops with
  | [] => es
  | TInsert k v :: ops => run_list ops (assoc_insert kcmp k v es)
  | TDelete k :: ops => run_list ops (assoc_delete kcmp k es)
  end.

(** Pages that suffice for a number of operations on a tree of height [h]. *)
Definition room_for (n h : nat) : Z := Z.of_nat (n * (n + h + 2)).

Lemma run_tree_outcome fuel ops : forall s root h es foot,
  tree_of s root h es foot -> ps_ready s -> room_for (length ops) h <= ps_room s -> (h + length ops < fuel)%nat ->
  outcome ps_ready (run_tree (tree_insert kcmp to_vec from_slice fuel) (tree_delete kcmp to_vec from_slice fuel) ops root s) (fun root' s' =>
    exists h' foot', tree_of s' root' h' (run_list ops es) foot' /\ (h' <= h + length ops)%nat /\ ps_ready s').
Proof.
  unfold room_for. induction ops as [|[k v|k] ops IH]; intros s root h es foot Ht Hr Hroom Hfuel; cbn [run_tree run_list length] in *.
  - apply outcome_ret. exists h, foot. split; [done|]. split; [lia|done].
  - eapply outcome_bind; [eapply (tree_insert_outcome ps_ready ps_room); [done..|nia|lia]|].
    intros root' s' (h' & foot' & Ht' & Hh & Hr' & Hroom' & _).
    eapply outcome_weaken; [apply (IH s' root' h' (assoc_insert kcmp k v es) foot'); [done|done|nia|lia]|].
    intros root2 s2 (h2 & foot2 & H2 & H3 & H4). exists h2, foot2. split; [done|]. split; [lia|done].
  - destruct Ht as [first Ht]. unfold tree_delete.
    eapply outcome_bind; [eapply (delete_from_page_outcome ps_ready ps_room kcmp to_vec from_slice node_json h fuel s None None root first None es foot k);
      [lia|done..]|].
    intros _ s' (Ht' & Hr' & Hroom' & _).
    eapply outcome_weaken; [apply (IH s' root h (assoc_delete kcmp k es) foot); [by eexists|done|nia|lia]|].
    intros root2 s2 (h2 & foot2 & H2 & H3 & H4). exists h2, foot2. split; [done|]. split; [lia|done].
Qed.

(** Reading a whole tree. *)
Lemma tree_reads leaf_lookup chain fuel s root h es foot :
  (forall leaf k, sorted_entries kcmp (entries leaf) -> leaf_lookup leaf k = assoc_lookup kcmp k (entries leaf)) ->
  tree_of s root h es foot -> (size foot < fuel)%nat ->
  (forall k, tree_get kcmp from_slice leaf_lookup fuel root s k = Ok (assoc_lookup kcmp k es)) /\
  tree_scan_all from_slice chain fuel root s = Ok (rows_of es) /\ sorted_entries kcmp es.
Proof.
  intros Hlk [first Ht] Hfuel. pose proof (tree_height kcmp from_slice s h None None root first None es foot Ht) as Hh. split_and!.
  - intros k. destruct (find_leaf_correct kcmp from_slice h fuel s None None root first None es foot k)
      as (leaf & Hleaf & Hs & Hl); [lia|done|done|]. unfold tree_get. rewrite Hleaf. cbn [bind]. by rewrite Hlk, Hl.
  - unfold tree_scan_all. rewrite (leftmost_leaf_page_correct kcmp from_slice h fuel s _ _ _ _ _ _ _ ltac:(lia) Ht). cbn [bind].
    destruct (tree_scans kcmp from_slice chain s h _ _ _ _ _ _ _ Ht) as (n & Hn & Hscan).
    replace fuel with (n + Datatypes.S (fuel - n - 1))%nat by lia. rewrite Hscan. done.
  - by eapply (tree_orderly kcmp (nodes from_slice s) h).
Qed.
End Trees.

(** ** Keys and codecs of the two instances *)

#[export] Instance bytes_cmp_laws : CmpLaws (fun _ => True) IndexTree.bytes_cmp.
Proof.
  unfold IndexTree.bytes_cmp. assert (H : CmpLaws (Forall (fun _ : Z => True)) (lex_cmp Z.compare)) by apply _.
  assert (Hall : forall l : bytes, Forall (fun _ => True) l) by (intros l; by apply Forall_true).
  split.
  - apply cmp_refl.
  - intros a b _ _. by apply cmp_eq.
  - intros a b. apply cmp_antisym.
  - intros a b c _ _ _. by apply cmp_trans.
Qed.

Section SampleNodes.
Context {K : Type} `{Countable K}.

#[export] Instance LeafEntry_eq_dec : EqDecision (LeafEntry K).
Proof. solve_decision. Defined.
#[export] Instance LeafEntry_countable : Countable (LeafEntry K).
Proof. refine (inj_countable' (fun e => (key e, value e)) (fun '(k, v) => mkLeafEntry k v) _). by intros []. Defined.

Definition node_sum (node : Node K) : (list (LeafEntry K) * option Z) + (list K * list Z) :=
  match node with
  | NLeaf leaf => inl (entries leaf, next leaf)
  | NInternal internal => inr (separators internal, children internal)
  end.
Definition sum_node (x : (list (LeafEntry K) * option Z) + (list K * list Z)) : Node K :=
  match x with
  | inl (es, nx) => NLeaf (mkLeafNode es nx)
  | inr (seps, cs) => NInternal (mkInternalNode seps cs)
  end.

Definition sample_node_to_vec (node : Node K) : Result bytes := Ok (bits_of (encode (node_sum node))).
Definition sample_node_from_slice (b : bytes) : Result (Node K) :=
  let? x := ok_or (decode (of_bits b)) (Serde "invalid node") in Ok (sum_node x).

Lemma sample_node_json node :
  exists payload, sample_node_to_vec node = Ok payload /\ sample_node_from_slice payload = Ok node.
Proof.
  eexists. split; [done|]. unfold sample_node_from_slice. rewrite of_bits_of, decode_encode. cbn.
  by destruct node as [[]|[]].
Qed.
End SampleNodes.

(** A handle on a fresh database in which transaction 3 has just begun. *)
Definition fresh_pager : Pager :=
  mkPager (mkShared (mkDisk (mkFiles (Some []) (Some [])) []) ∅ (begin ReadCommitted (with_next_txn_id 3)).2)
    (mkMetaPage PAGE_SIZE 2 1 4) 2 {[ 3 := ∅ ]}.

Lemma fresh_pager_ready : pager_ready 3 fresh_pager.
Proof.
  split.
  - split; [|by split]. eexists. split; reflexivity.
  - by eexists.
  - done.
  - intros q [x Hx]. done.
Qed.

(** The same handle once the transaction has created a tree with one entry on page 2. *)
Definition sample_entries : list (LeafEntry Z) := [mkLeafEntry 5 [9]].
Definition sample_leaf : Node Z := NLeaf (mkLeafNode sample_entries None).
Definition leaf_page : bytes :=
  let payload := bits_of (encode (node_sum sample_leaf)) in
  set_bytes (set_bytes (empty_page Leaf) PAYLOAD_LEN_OFFSET (to_le 4 (Zlen payload))) PAYLOAD_OFFSET payload.
Definition tree_pager : Pager :=
  mkPager (mkShared (mkDisk (mkFiles (Some []) (Some [])) []) {[ 2 := leaf_page ]} (begin ReadCommitted (with_next_txn_id 3)).2)
    (mkMetaPage PAGE_SIZE 3 1 4) 2 {[ 3 := ∅ ]}.

Lemma tree_pager_ready : pager_ready 3 tree_pager.
Proof.
  split.
  - split; [|by split]. eexists. split; reflexivity.
  - by eexists.
  - done.
  - cbn. intros q [x [<- _]%lookup_singleton_Some]. done.
Qed.

Lemma tree_pager_tree :
  @tree_at Pager (pager_store (fun sh => sh) 1 3) Z Z.compare sample_node_from_slice tree_pager 2 0 sample_entries {[ 2 ]}.
Proof.
  exists 2. split_and!; [done|done| |by repeat constructor|by repeat constructor|].
  - destruct (sample_node_json sample_leaf) as (payload & Hv & Hf).
    apply (@read_payload Pager (pager_store (fun sh => sh) 1 3) Z sample_node_from_slice tree_pager 2 sample_leaf payload leaf_page);
      [done| |done].
    apply Ok_inj in Hv. subst payload. apply encode_payload_page_Ok. vm_compute. discriminate.
  - unfold LEAF_MAX_ENTRIES. cbn. lia.
Qed.

(** ** Theorems *)

Section Claims.
Context {S : Type} `{PageStore S} (ps_ready : S -> Prop) (ps_room : S -> Z) `{!PageStoreLaws S ps_ready ps_room}.
Context {K : Type} (kcmp : K -> K -> comparison) `{!CmpLaws (fun _ => True) kcmp}.
Context (to_vec : Node K -> Result bytes) (from_slice : bytes -> Result (Node K)).
Context (node_json : forall node, exists payload, to_vec node = Ok payload /\ from_slice payload = Ok node).

(** C18: insertion into a B+ tree. On a page store that keeps its promises, inserting into
    a well-formed tree with fuel beyond its height and room for a page per level and a
    root ends; it fails only when a node does not fit its page, and then the transaction
    can still be rolled back. Otherwise the result is the root of a well-formed tree
    (sorted, at most 16 entries and separators in a node, leaves at one depth and chained
    in order), at most one level higher, in which the key has the value and every other
    key is as before; the pages it has gained could not be read before, and no page
    outside it has changed. *)
Theorem tree_insert_correct (s : S) (root : PageId) (h fuel : nat) (es : list (LeafEntry K)) (foot : gset PageId)
    (k : K) (v : bytes) :
  tree_at kcmp from_slice s root h es foot -> ps_ready s -> Z.of_nat h + 2 <= ps_room s -> (h < fuel)%nat ->
  outcome ps_ready (tree_insert kcmp to_vec from_slice fuel root k v s) (fun root' s' =>
    exists h' es' foot', tree_at kcmp from_slice s' root' h' es' foot' /\ (h <= h' <= Datatypes.S h)%nat /\ ps_ready s' /\
      (forall k', assoc_lookup kcmp k' es' = match kcmp k' k with Eq => Some v | _ => assoc_lookup kcmp k' es end) /\
      foot ⊆ foot' /\ (forall q, q ∈ foot' -> q ∈ foot \/ is_ok (ps_read s q) = false) /\
      (forall q, q ∉ foot' -> ps_read s' q = ps_read s q)).
Proof.
  intros Ht Hr Hroom Hfuel. eapply outcome_weaken; [by eapply (tree_insert_outcome ps_ready ps_room)|].
  intros root' s' (h' & foot' & Ht' & Hh & Hr' & _ & He). exists h', (assoc_insert kcmp k v es), foot'.
  split; [done|]. split; [done|]. split; [done|]. split; [|done]. intros k'. apply assoc_lookup_insert; [done|].
  destruct Ht as [first Ht]. by eapply (tree_orderly kcmp (nodes from_slice s) h).
Qed.

(** C28: deletion from a B+ tree. With fuel beyond the height it ends, and it fails only
    when a node does not fit its page. Otherwise the tree at the same root is well-formed
    and has the same height and pages; the key is gone, every other key is as before, and
    no page outside the tree has changed. *)
Theorem tree_delete_correct (s : S) (root : PageId) (h fuel : nat) (es : list (LeafEntry K)) (foot : gset PageId) (k : K) :
  tree_at kcmp from_slice s root h es foot -> ps_ready s -> (h < fuel)%nat ->
  outcome ps_ready (tree_delete kcmp to_vec from_slice fuel root k s) (fun _ s' =>
    exists es', tree_at kcmp from_slice s' root h es' foot /\ ps_ready s' /\
      (forall k', assoc_lookup kcmp k' es' = match kcmp k' k with Eq => None | _ => assoc_lookup kcmp k' es end) /\
      (forall q, q ∉ foot -> ps_read s' q = ps_read s q)).
Proof.
  intros [first Ht] Hr Hfuel. unfold tree_delete.
  eapply outcome_weaken; [eapply (delete_from_page_outcome ps_ready ps_room kcmp to_vec from_slice node_json h fuel s None None root first None es foot k); done|].
  intros _ s' (Ht' & Hr' & _ & _ & _ & He). exists (assoc_delete kcmp k es). split; [by eexists|]. split; [done|].
  split; [|done]. intros k'. apply assoc_lookup_delete; [done|]. by eapply (tree_orderly kcmp (nodes from_slice s) h).
Qed.
End Claims.

Lemma tree_insert_correct_witness :
  outcome (pager_ready 3)
    (@tree_insert Pager (pager_store (fun sh => sh) 1 3) Z Z.compare sample_node_to_vec sample_node_from_slice 1 2 7 [8] tree_pager)
    (fun root' s' => exists h' es' foot',
      @tree_at Pager (pager_store (fun sh => sh) 1 3) Z Z.compare sample_node_from_slice s' root' h' es' foot' /\
      (0 <= h' <= 1)%nat /\ pager_ready 3 s' /\
      (forall k', assoc_lookup Z.compare k' es' =
         match k' ?= 7 with Eq => Some [8] | _ => assoc_lookup Z.compare k' sample_entries end) /\
      {[ 2 ]} ⊆ foot' /\ (forall q, q ∈ foot' -> q ∈ ({[ 2 ]} : gset Z) \/ is_ok (read_page tree_pager q) = false) /\
      (forall q, q ∉ foot' -> read_page s' q = read_page tree_pager q)).
Proof.
  apply (@tree_insert_correct Pager (pager_store (fun sh => sh) 1 3) (pager_ready 3) pager_room
    (pager_store_laws (fun sh => sh) 1 3 Nat.lt_0_1) Z Z.compare Z_cmp_laws sample_node_to_vec sample_node_from_slice sample_node_json
    tree_pager 2 0 1 sample_entries {[ 2 ]} 7 [8] tree_pager_tree tree_pager_ready).
  - vm_compute. discriminate.
  - apply Nat.lt_0_1.
Defined.

Lemma tree_delete_correct_witness :
  outcome (pager_ready 3)
    (@tree_delete Pager (pager_store (fun sh => sh) 1 3) Z Z.compare sample_node_to_vec sample_node_from_slice 1 2 5 tree_pager)
    (fun _ s' => exists es',
      @tree_at Pager (pager_store (fun sh => sh) 1 3) Z Z.compare sample_node_from_slice s' 2 0 es' {[ 2 ]} /\ pager_ready 3 s' /\
      (forall k', assoc_lookup Z.compare k' es' =
         match k' ?= 5 with Eq => None | _ => assoc_lookup Z.compare k' sample_entries end) /\
      (forall q, q ∉ ({[ 2 ]} : gset Z) -> read_page s' q = read_page tree_pager q)).
Proof.
  apply (@tree_delete_correct Pager (pager_store (fun sh => sh) 1 3) (pager_ready 3) pager_room
    (pager_store_laws (fun sh => sh) 1 3 Nat.lt_0_1) Z Z.compare Z_cmp_laws sample_node_to_vec sample_node_from_slice sample_node_json
    tree_pager 2 0 1 sample_entries {[ 2 ]} 5 tree_pager_tree tree_pager_ready).
  apply Nat.lt_0_1.
Defined.

Section OnPager.
Context (others : Shared -> Shared) (wait : nat) (t : Z).
#[local] Instance store : PageStore Pager := pager_store others wait t.

(** What a finished run promises of the handle it leaves. *)
Definition reads_as {K} (kcmp : K -> K -> comparison) (get : nat -> PageId -> Pager -> K -> Result (option bytes))
    (scan_all : nat -> PageId -> Pager -> Result (list (K * bytes))) (es : list (LeafEntry K)) (root : PageId) (p : Pager) : Prop :=
  pager_ready t p /\ sorted_entries kcmp es /\
  exists pages, forall fuel, (pages < fuel)%nat ->
    (forall k, get fuel root p k = Ok (assoc_lookup kcmp k es)) /\ scan_all fuel root p = Ok (rows_of es).

Lemma run_from_create {K} (kcmp : K -> K -> comparison) `{!CmpLaws (fun _ => True) kcmp} to_vec from_slice leaf_lookup chain
    (fuel : nat) (p : Pager) (ops : list (TreeOp K)) :
  (forall node, exists payload, to_vec node = Ok payload /\ from_slice payload = Ok node) ->
  (forall leaf k, sorted_entries kcmp (entries leaf) -> leaf_lookup leaf k = assoc_lookup kcmp k (entries leaf)) ->
  (0 < wait)%nat -> pager_ready t p -> 1 + room_for (length ops) 0 <= pager_room p -> (length ops < fuel)%nat ->
  outcome (pager_ready t)
    ((let! root := tree_create to_vec in
      run_tree (tree_insert kcmp to_vec from_slice fuel) (tree_delete kcmp to_vec from_slice fuel) ops root) p)
    (reads_as kcmp (tree_get kcmp from_slice leaf_lookup) (tree_scan_all from_slice chain) (run_list kcmp ops [])).
Proof.
  intros Hjson Hlk Hwait Hr Hroom Hfuel.
  pose proof (pager_store_laws others wait t Hwait) as Hlaws.
  assert (Hpos : 0 < pager_room p) by (unfold room_for in Hroom; lia).
  eapply outcome_bind; [by eapply (tree_create_outcome (pager_ready t) pager_room kcmp)|].
  intros root p1 (Ht & Hr1 & Hroom1 & _).
  eapply outcome_weaken; [eapply (run_tree_outcome (pager_ready t) pager_room kcmp to_vec from_slice Hjson); [done|done|lia|lia]|].
  intros root' p2 (h' & foot' & Ht' & _ & Hr2). split; [done|].
  destruct (tree_reads kcmp from_slice leaf_lookup chain (S (size foot')) p2 root' h' _ foot' Hlk Ht') as (_ & _ & Hs); [lia|].
  split; [done|]. exists (size foot'). intros f Hf.
  by destruct (tree_reads kcmp from_slice leaf_lookup chain f p2 root' h' _ foot' Hlk Ht' Hf) as (H1 & H2 & _).
Qed.

(** C20: table trees. On a handle whose transaction is undisturbed, creating a table tree
    and running any insertions and deletions on it ends; it fails only when a node does
    not fit its page. Otherwise [get] returns for every key, and [scan_all] in ascending
    order, exactly what the same insertions and deletions leave in a sorted association
    list. *)
Theorem table_tree_correct (to_vec : Node Z -> Result bytes) (from_slice : bytes -> Result (Node Z)) (fuel : nat)
    (p : Pager) (ops : list (TreeOp Z)) :
  (forall node, exists payload, to_vec node = Ok payload /\ from_slice payload = Ok node) ->
  (0 < wait)%nat -> pager_ready t p -> 1 + room_for (length ops) 0 <= pager_room p -> (length ops < fuel)%nat ->
  outcome (pager_ready t)
    ((let! root := BTree.create to_vec in
      run_tree (BTree.insert to_vec from_slice fuel) (BTree.delete to_vec from_slice fuel) ops root) p)
    (reads_as Z.compare (BTree.get from_slice) (BTree.scan_all from_slice) (run_list Z.compare ops [])).
Proof. intros Hjson. apply (run_from_create Z.compare); [done|]. by intros leaf k _. Qed.

(** Index trees: the same, for byte-string keys in lexicographic order. *)
Theorem index_tree_correct (to_vec : Node bytes -> Result bytes) (from_slice : bytes -> Result (Node bytes)) (fuel : nat)
    (p : Pager) (ops : list (TreeOp bytes)) :
  (forall node, exists payload, to_vec node = Ok payload /\ from_slice payload = Ok node) ->
  (0 < wait)%nat -> pager_ready t p -> 1 + room_for (length ops) 0 <= pager_room p -> (length ops < fuel)%nat ->
  outcome (pager_ready t)
    ((let! root := IndexTree.create to_vec in
      run_tree (IndexTree.insert to_vec from_slice fuel) (IndexTree.delete to_vec from_slice fuel) ops root) p)
    (reads_as IndexTree.bytes_cmp (IndexTree.get from_slice) (IndexTree.scan_all from_slice)
       (run_list IndexTree.bytes_cmp ops [])).
Proof. intros Hjson. apply (run_from_create IndexTree.bytes_cmp); [done|]. intros leaf k.
  apply (lookup_by_index IndexTree.bytes_cmp). Qed.
End OnPager.

(** A tree created on the fresh handle, and operations on it. *)
Lemma sample_room : 1 + room_for 2 0 <= pager_room fresh_pager.
Proof. vm_compute. discriminate. Qed.

Lemma table_tree_correct_witness :
  let ops := [TInsert 7 [1; 2]; TDelete 7] in
  outcome (pager_ready 3)
    ((let! root := @BTree.create Pager (pager_store (fun sh => sh) 1 3) sample_node_to_vec in
      run_tree (@BTree.insert Pager (pager_store (fun sh => sh) 1 3) sample_node_to_vec sample_node_from_slice 3)
        (@BTree.delete Pager (pager_store (fun sh => sh) 1 3) sample_node_to_vec sample_node_from_slice 3) ops root) fresh_pager)
    (reads_as 3 Z.compare (@BTree.get Pager (pager_store (fun sh => sh) 1 3) sample_node_from_slice)
       (@BTree.scan_all Pager (pager_store (fun sh => sh) 1 3) sample_node_from_slice) (run_list Z.compare ops [])).
Proof.
  apply (table_tree_correct (fun sh => sh) 1 3); [apply sample_node_json|apply Nat.lt_0_1|apply fresh_pager_ready|apply sample_room|].
  apply (bool_decide_unpack _). vm_compute. exact I.
Defined.

Lemma index_tree_correct_witness :
  let ops := [TInsert [7; 1] [1; 2]; TDelete [7]] in
  outcome (pager_ready 3)
    ((let! root := @IndexTree.create Pager (pager_store (fun sh => sh) 1 3) sample_node_to_vec in
      run_tree (@IndexTree.insert Pager (pager_store (fun sh => sh) 1 3) sample_node_to_vec sample_node_from_slice 3)
        (@IndexTree.delete Pager (pager_store (fun sh => sh) 1 3) sample_node_to_vec sample_node_from_slice 3) ops root) fresh_pager)
    (reads_as 3 IndexTree.bytes_cmp (@IndexTree.get Pager (pager_store (fun sh => sh) 1 3) sample_node_from_slice)
       (@IndexTree.scan_all Pager (pager_store (fun sh => sh) 1 3) sample_node_from_slice) (run_list IndexTree.bytes_cmp ops [])).
Proof.
  apply (index_tree_correct (fun sh => sh) 1 3); [apply sample_node_json|apply Nat.lt_0_1|apply fresh_pager_ready|apply sample_room|].
  apply (bool_decide_unpack _). vm_compute. exact I.
Defined.
