(* ===== verification/V2Catalog.v ===== *)
(** * The catalog of the v2 engine: [src/storage/v2/catalog.rs]

    The schemas, indexes and tree roots of a database, kept as JSON on page 1, and the
    projection of a row to an index key ([project_index_key] of [codec.rs]). [Codecs]
    collects the [serde_json] functions the engine uses, one pair per type it stores;
    the laws a theorem needs are stated there, about the values concerned. *)

From S2P Require Import Prelude Types Ast Schema V2Page TxTypes TxnManager V2Codec V2Pager V2BTree.

#[export] Instance IndexMeta_eq_dec : EqDecision IndexMeta.
Proof. solve_decision. Defined.

Record CatalogState {SelectStatement : Type} := mkCatalogState {
  schemas : gmap string (Schema SelectStatement);
  table_roots : gmap string PageId;
  catalog_row_ids : gmap string Z;
  indexes : gmap string (gmap string IndexMeta);
  index_roots : gmap string (gmap string PageId)
}.
Arguments CatalogState : clear implicits.

(** [serde_json::to_vec] and [from_slice] at the types the engine stores. *)
Class Codecs (SelectStatement : Type) := {
  row_to_vec : StoredRow -> Result bytes;
  row_from_slice : bytes -> Result StoredRow;
  node_to_vec : Node Z -> Result bytes;
  node_from_slice : bytes -> Result (Node Z);
  index_node_to_vec : Node bytes -> Result bytes;
  index_node_from_slice : bytes -> Result (Node bytes);
  catalog_to_vec : CatalogState SelectStatement -> Result bytes;
  catalog_from_slice : bytes -> Result (CatalogState SelectStatement);
  key_to_vec : list Value -> Result bytes;
  key_from_slice : bytes -> Result (list Value);
  row_ids_to_vec : list RowId -> Result bytes;
  row_ids_from_slice : bytes -> Result (list RowId)
}.

Section Catalog.
Context {SelectStatement : Type} `{Codecs SelectStatement}.
Abbreviation CatalogState := (CatalogState SelectStatement).

(** [CatalogState::default()] *)
Definition catalog_default : CatalogState := mkCatalogState _ ∅ ∅ ∅ ∅ ∅.

Definition set_schemas x (c : CatalogState) : CatalogState :=
  mkCatalogState _ x (table_roots c) (catalog_row_ids c) (indexes c) (index_roots c).
Definition set_table_roots x (c : CatalogState) : CatalogState :=
  mkCatalogState _ (schemas c) x (catalog_row_ids c) (indexes c) (index_roots c).
Definition set_catalog_row_ids x (c : CatalogState) : CatalogState :=
  mkCatalogState _ (schemas c) (table_roots c) x (indexes c) (index_roots c).
Definition set_indexes x (c : CatalogState) : CatalogState :=
  mkCatalogState _ (schemas c) (table_roots c) (catalog_row_ids c) x (index_roots c).
Definition set_index_roots x (c : CatalogState) : CatalogState :=
  mkCatalogState _ (schemas c) (table_roots c) (catalog_row_ids c) (indexes c) x.

(** [CatalogState::allocate_row_id] *)
Definition catalog_allocate_row_id (table : string) : ST CatalogState RowId :=
  let! next := st_read (fun c => default 1 (catalog_row_ids c !! table)) in
  st_mod (fun c => set_catalog_row_ids (<[table := next]> (catalog_row_ids c)) c) ;;!
  let! next' := st_get (fun _ => u64_add next 1) in
  st_mod (fun c => set_catalog_row_ids (<[table := next']> (catalog_row_ids c)) c) ;;!
  st_ret next.

Definition load_catalog (pager : Pager) : Result CatalogState :=
  let? page := read_page pager 1 in
  let? payload := decode_payload page Catalog in
  if bool_decide (payload = []) then Ok catalog_default else catalog_from_slice payload.

Definition store_catalog (others : Shared -> Shared) (fuel : nat) (txn_id : Z) (catalog : CatalogState) : ST Pager unit :=
  let! payload := st_get (fun _ => catalog_to_vec catalog) in
  let! page := st_get (fun _ => encode_payload_page Catalog payload) in
  write_page others fuel txn_id 1 page.

(** ** Tables and indexes by name *)

Definition table_schema_and_root (c : CatalogState) (table : string) : Result (Schema SelectStatement * PageId) :=
  let? schema := ok_or (schemas c !! table) (Storage ("unknown table: " ++ table)%string) in
  let? root := ok_or (table_roots c !! table) (Storage ("missing table root for " ++ table)%string) in
  Ok (schema, root).

Definition missing_index_root (table index_name : string) : DbError :=
  Storage ("missing index root for " ++ index_name ++ " on table " ++ table)%string.
Definition unknown_index (table index_name : string) : DbError :=
  Storage ("unknown index " ++ index_name ++ " on table " ++ table)%string.

(** [map.get(table).and_then(|entry| entry.get(name))] *)
Definition get_nested {A} (m : gmap string (gmap string A)) (table name : string) : option A :=
  m !! table ≫= fun entry => entry !! name.

Definition index_meta_and_root (c : CatalogState) (table index_name : string) : Result (IndexMeta * PageId) :=
  let? index := ok_or (get_nested (indexes c) table index_name) (unknown_index table index_name) in
  let? root := ok_or (get_nested (index_roots c) table index_name) (missing_index_root table index_name) in
  Ok (index, root).

Definition indexes_for_table (c : CatalogState) (table : string) : Result (list (string * IndexMeta * PageId)) :=
  match indexes c !! table with
  | None => Ok []
  | Some indexes =>
      mapM_res (fun nm : string * IndexMeta =>
        let? root := ok_or (get_nested (index_roots c) table nm.1) (missing_index_root table nm.1) in
        Ok (nm.1, nm.2, root)) (sorted_by_name indexes)
  end.

(** The [for column in &index.columns] loop; [seen] is the [BTreeSet]. *)
Fixpoint validate_index_columns (schema : Schema SelectStatement) (seen : gset string) (cols : list string) : Result unit :=
  match cols with
  | [] => Ok tt
  | column :: cols =>
      if negb (has_column schema column) then
        Err (Storage ("unknown column " ++ column ++ " on table " ++ schema_name schema)%string)
      else if bool_decide (column ∈ seen) then Err (Storage ("duplicate index column " ++ column)%string)
      else validate_index_columns schema ({[column]} ∪ seen) cols
  end.

Definition validate_new_index (schema : Schema SelectStatement) (by_name : option (gmap string IndexMeta)) (index : IndexMeta)
    : Result unit :=
  if bool_decide (index_columns index = []) then Err (Storage "index must define at least one column")
  else
    validate_index_columns schema ∅ (index_columns index) ;;?
    match by_name ≫= fun m => m !! index_name index with
    | Some _ => Err (Storage ("index " ++ index_name index ++ " already exists")%string)
    | None => Ok tt
    end.

(** [project_index_key] *)
Definition project_index_key (schema : Schema SelectStatement) (index : IndexMeta) (row : Row) : Result (list Value) :=
  mapM_res (fun column =>
    let? position := ok_or (column_position column (columns schema))
                       (Storage ("unknown column " ++ column ++ " on table " ++ schema_name schema)%string) in
    ok_or (row !! position) (Storage ("row for table " ++ schema_name schema ++ " is missing column " ++ column)%string))
    (index_columns index).

(** [entry(table).or_default().insert(name, x)] *)
Definition insert_nested {A} (table name : string) (x : A) (m : gmap string (gmap string A)) : gmap string (gmap string A) :=
  <[table := <[name := x]> (default ∅ (m !! table))]> m.

(** [remove(old)] and, if there was an entry, [insert(new, ..)]. *)
Definition move_key {A} (old_name new_name : string) (m : gmap string A) : gmap string A :=
  match m !! old_name with
  | Some x => <[new_name := x]> (delete old_name m)
  | None => m
  end.
End Catalog.
