(* ===== verification/V2Engine.v ===== *)
(** * The v2 storage engine: [FileStorage] of [src/storage/v2/mod.rs]

    One handle: the pager (with the shared part: files, page cache, transaction manager),
    its own copy of the catalog, and the catalog snapshots of its transactions. Each
    operation validates its transaction, waits for a table lock, and works on the trees
    through the pager. [others] is what other threads do to the shared part while this one
    waits; [wait] bounds the waits of one request, [depth] the height of a tree and the
    length of its leaf chain.

    The catalog is read and written by the engine's own thread only, so the borrows of
    its [RefCell]s never overlap a mutable one and are left out. The operations of the
    storage traits are in V2Storage.v and V2Rows.v. *)

From S2P Require Import Prelude Types Ast Schema V2Page TxTypes TxnManager V2Codec V2Mvcc V2Pager PageStore PagerStore V2BTree V2Catalog.

Record FileStorage {SelectStatement : Type} := mkFileStorage {
  pager : Pager;
  catalog : CatalogState SelectStatement;
  session_catalog_snapshots : gmap TransactionId (CatalogState SelectStatement)
}.
Arguments FileStorage : clear implicits.

(** [is_waitable_lock_error] of this file: the pager's, and the table locks. *)
Definition is_waitable_error (e : DbError) : bool :=
  let message := error_to_string e in
  str_contains message "table lock wait"
  || str_contains message "table lock conflict"
  || is_waitable_lock_error e.

Section Engine.
Context {SelectStatement : Type} `{!EqDecision SelectStatement} `{Codecs SelectStatement}.
Context (others : Shared -> Shared) (wait depth : nat).
Abbreviation FileStorage := (FileStorage SelectStatement).
Abbreviation CatalogState := (CatalogState SelectStatement).
Abbreviation Schema := (Schema SelectStatement).

(** ** The parts of the state *)

Definition set_pager (x : Pager) (e : FileStorage) : FileStorage :=
  mkFileStorage _ x (catalog e) (session_catalog_snapshots e).
Definition set_catalog (x : CatalogState) (e : FileStorage) : FileStorage :=
  mkFileStorage _ (pager e) x (session_catalog_snapshots e).
Definition set_session_catalog_snapshots x (e : FileStorage) : FileStorage :=
  mkFileStorage _ (pager e) (catalog e) x.

(** [self.txn_manager]: the manager the pager shares. *)
Definition manager (e : FileStorage) : TxnManager := txn_manager (shared (pager e)).

Definition on_pager {A} (m : ST Pager A) : ST FileStorage A := fun e =>
  let (r, p) := m (pager e) in (r, set_pager p e).
Definition on_txns {A} (m : ST TxnManager A) : ST FileStorage A := on_pager (on_manager m).
Definition mod_catalog (f : CatalogState -> CatalogState) : ST FileStorage unit :=
  st_mod (fun e => set_catalog (f (catalog e)) e).
(** A lookup in the catalog that fails with [?]. *)
Definition from_catalog {A} (f : CatalogState -> Result A) : ST FileStorage A := st_get (fun e => f (catalog e)).

(** ** The trees of the engine *)

Definition table_get (root : PageId) (row_id : RowId) : ST FileStorage (option bytes) :=
  st_get (fun e => @BTree.get Pager (pager_store others wait 0) node_from_slice depth root (pager e) row_id).
Definition table_scan (root : PageId) : ST FileStorage (list (Z * bytes)) :=
  st_get (fun e => @BTree.scan_all Pager (pager_store others wait 0) node_from_slice depth root (pager e)).
Definition table_insert (txn_id : Z) (root : PageId) (row_id : RowId) (b : bytes) : ST FileStorage PageId :=
  on_pager (@BTree.insert Pager (pager_store others wait txn_id) node_to_vec node_from_slice depth root row_id b).
Definition table_delete (txn_id : Z) (root : PageId) (row_id : RowId) : ST FileStorage unit :=
  on_pager (@BTree.delete Pager (pager_store others wait txn_id) node_to_vec node_from_slice depth root row_id).
Definition index_get (root : PageId) (key : bytes) : ST FileStorage (option bytes) :=
  st_get (fun e => @IndexTree.get Pager (pager_store others wait 0) index_node_from_slice depth root (pager e) key).
Definition index_scan (root : PageId) : ST FileStorage (list (bytes * bytes)) :=
  st_get (fun e => @IndexTree.scan_all Pager (pager_store others wait 0) index_node_from_slice depth root (pager e)).
Definition index_insert (txn_id : Z) (root : PageId) (key b : bytes) : ST FileStorage PageId :=
  on_pager (@IndexTree.insert Pager (pager_store others wait txn_id) index_node_to_vec index_node_from_slice depth root key b).
Definition index_delete (txn_id : Z) (root : PageId) (key : bytes) : ST FileStorage unit :=
  on_pager (@IndexTree.delete Pager (pager_store others wait txn_id) index_node_to_vec index_node_from_slice depth root key).

(** ** Transactions: checks, snapshots, waits *)

Definition validate_txn (txn_id : TransactionId) (e : FileStorage) : Result unit :=
  match TxnManager.get (manager e) txn_id with
  | Ok txn => if is_active txn then Ok tt else Err (not_active txn_id)
  | Err error => Err error
  | Panic w => Panic w
  | OutOfFuel => OutOfFuel
  end.

Definition validate_snapshot_transaction (txn_id : option TransactionId) (e : FileStorage) : Result unit :=
  match txn_id with
  | Some id => validate_txn id e
  | None =>
      if negb (bool_decide (session_catalog_snapshots e = ∅)) then
        Err (Txn "metadata snapshot requires the active transaction id while a transaction is open")
      else Ok tt
  end.

Definition snapshot_for_transaction (txn_id : TransactionId) : ST FileStorage TxnSnapshot :=
  let! level := st_get (fun e => get_isolation_level (manager e) txn_id) in
  match level with
  | ReadCommitted => on_txns (refresh_snapshot txn_id)
  | _ => st_get (fun e => get_snapshot (manager e) txn_id)
  end.

(** The loop of the five [wait_for_*] methods around their request. *)
Fixpoint wait_for (fuel : nat) (request : ST TxnManager unit) : ST FileStorage unit :=
  match fuel with
  | O => st_fuel
  | S fuel =>
      st_catch (on_txns request) (fun error =>
        if is_deadlock_error error then st_err error
        else if is_waitable_error error then
          st_mod (fun e => set_pager (set_shared (others (shared (pager e))) (pager e)) e) ;;!
          wait_for fuel request
        else st_err error)
  end.

Definition wait_for_write_conflicts (txn_id : TransactionId) (table : string) (index_keys : list (string * list Value)) :=
  wait_for wait (check_write_conflicts txn_id table index_keys).
Definition wait_for_table_read_lock (txn_id : TransactionId) (table : string) :=
  wait_for wait (acquire_table_intention_read txn_id table).
Definition wait_for_table_scan_lock (txn_id : TransactionId) (table : string) :=
  wait_for wait (acquire_table_read_lock txn_id table).
Definition wait_for_table_write_lock (txn_id : TransactionId) (table : string) :=
  wait_for wait (acquire_table_intention_write txn_id table).
Definition wait_for_table_exclusive_lock (txn_id : TransactionId) (table : string) :=
  wait_for wait (acquire_table_exclusive txn_id table).

Definition record_storage_undo (txn_id : TransactionId) (record : UndoRecord) : ST FileStorage unit :=
  on_txns (record_undo txn_id record).

Definition sync_transaction_page_writes (txn_id : TransactionId) : ST FileStorage unit :=
  let! writes := st_get (fun e => pending_page_writes (pager e) txn_id) in
  on_txns (replace_page_write_set txn_id writes).

(** ** Rows as a transaction sees them *)

(** [.map(|bytes| visible_row(..)).transpose()?.flatten()] *)
Definition visible_bytes (txn_id : TransactionId) (snap : TxnSnapshot) (b : option bytes) : Result (option Row) :=
  match b with
  | Some b => visible_row row_from_slice b txn_id snap
  | None => Ok None
  end.

(** [filter_map(|(row_id, bytes)| visible_row(..).transpose() ..).collect()] *)
Fixpoint visible_rows (txn_id : TransactionId) (snap : TxnSnapshot) (rows : list (Z * bytes)) : Result (list (RowId * Row)) :=
  match rows with
  | [] => Ok []
  | (row_id, b) :: rows =>
      let? r := visible_row row_from_slice b txn_id snap in
      let? rs := visible_rows txn_id snap rows in
      Ok (match r with Some r => (row_id, r) :: rs | None => rs end)
  end.

Definition visible_row_at_root (txn_id : TransactionId) (root : PageId) (row_id : RowId) : ST FileStorage (option Row) :=
  let! snap := snapshot_for_transaction txn_id in
  let! b := table_get root row_id in
  st_get (fun _ => visible_bytes txn_id snap b).

Fixpoint filter_index_row_ids_for_key (txn_id : TransactionId) (schema : Schema) (table_root : PageId) (index : IndexMeta)
    (key_values : list Value) (row_ids : list RowId) : ST FileStorage (list RowId) :=
  match row_ids with
  | [] => st_ret []
  | row_id :: row_ids =>
      let! row := visible_row_at_root txn_id table_root row_id in
      match row with
      | None => filter_index_row_ids_for_key txn_id schema table_root index key_values row_ids
      | Some row =>
          let! key := st_get (fun _ => project_index_key schema index row) in
          let! visible := filter_index_row_ids_for_key txn_id schema table_root index key_values row_ids in
          st_ret (if row_eqb key key_values then row_id :: visible else visible)
      end
  end.

(** ** Index entries *)

(** [.map(|bytes| decode_row_ids(&bytes)).transpose()?.unwrap_or_default()] *)
Definition decode_ids (b : option bytes) : Result (list RowId) :=
  match b with Some b => row_ids_from_slice b | None => Ok [] end.

Definition add_row_id (row_id : RowId) (row_ids : list RowId) : list RowId :=
  if bool_decide (row_id ∈ row_ids) then row_ids else sort_by Z.compare (row_ids ++ [row_id]).

(** Both return the root the tree has afterwards. *)
Definition upsert_index_entry (txn_id : Z) (root : PageId) (encoded_key : bytes) (row_id : RowId) : ST FileStorage PageId :=
  let! b := index_get root encoded_key in
  let! row_ids := st_get (fun _ => decode_ids b) in
  let! encoded := st_get (fun _ => row_ids_to_vec (add_row_id row_id row_ids)) in
  index_insert txn_id root encoded_key encoded.

Definition remove_row_id_from_index_entry (txn_id : Z) (root : PageId) (encoded_key : bytes) (row_id : RowId)
    : ST FileStorage PageId :=
  let! b := index_get root encoded_key in
  match b with
  | None => st_ret root
  | Some b =>
      let! row_ids := st_get (fun _ => row_ids_from_slice b) in
      let row_ids := List.filter (fun candidate => negb (candidate =? row_id)) row_ids in
      if bool_decide (row_ids = []) then index_delete txn_id root encoded_key ;;! st_ret root
      else
        let! encoded := st_get (fun _ => row_ids_to_vec row_ids) in
        index_insert txn_id root encoded_key encoded
  end.

(** ** Commit and rollback *)

(** The inner loop of [finalize_transaction_row_versions]; [root] is the tree's. *)
Fixpoint finalize_rows (txn_id commit_ts : Z) (root : PageId) (rows : list (Z * bytes)) : ST FileStorage unit :=
  match rows with
  | [] => st_ret tt
  | (row_id, b) :: rows =>
      let! finalized := st_get (fun _ => finalize_row_versions row_to_vec row_from_slice b txn_id commit_ts) in
      if bool_decide (finalized = b) then finalize_rows txn_id commit_ts root rows
      else
        let! root := table_insert txn_id root row_id finalized in
        finalize_rows txn_id commit_ts root rows
  end.

Definition finalize_transaction_row_versions (txn_id commit_ts : Z) : ST FileStorage unit :=
  let! roots := st_read (fun e => map snd (sorted_by_name (table_roots (catalog e)))) in
  st_each (fun root =>
    let! rows := table_scan root in
    finalize_rows txn_id commit_ts root rows) roots.

(** [if let Ok((_, root)) = lookup { body(root) }] *)
Definition if_found {A} (lookup : CatalogState -> Result (A * PageId)) (body : PageId -> ST FileStorage unit)
    : ST FileStorage unit :=
  let! found := st_read (fun e => lookup (catalog e)) in
  match found with
  | Ok (_, root) => body root
  | _ => st_ret tt
  end.

Definition replay_undo_record (txn_id : TransactionId) (record : UndoRecord) : ST FileStorage unit :=
  match record with
  | UPageWrite _ => st_ret tt
  | UInsertRow table row_id =>
      if_found (fun c => table_schema_and_root c table) (fun root => table_delete txn_id root row_id)
  | UDeleteRow table row_id previous_bytes =>
      if_found (fun c => table_schema_and_root c table) (fun root =>
        let! _ := table_insert txn_id root row_id previous_bytes in st_ret tt)
  | UIndexInsert table index row_id key =>
      if_found (fun c => index_meta_and_root c table index) (fun root =>
        let! encoded_key := st_get (fun _ => key_to_vec key) in
        let! _ := remove_row_id_from_index_entry txn_id root encoded_key row_id in st_ret tt)
  | UIndexDelete table index row_id key =>
      if_found (fun c => index_meta_and_root c table index) (fun root =>
        let! encoded_key := st_get (fun _ => key_to_vec key) in
        let! _ := upsert_index_entry txn_id root encoded_key row_id in st_ret tt)
  end.

Definition replay_undo_records (txn_id : TransactionId) : ST FileStorage unit :=
  let! records := on_txns (take_undo_records txn_id) in
  st_each (replay_undo_record txn_id) records.

(** The versions [purge_deleted_row] keeps are [retained_versions]. *)
Definition purge_deleted_row (txn_id : TransactionId) (table : string) (row_id : RowId) (purge_horizon : Z) : ST FileStorage unit :=
  if_found (fun c => table_schema_and_root c table) (fun root =>
    let! b := table_get root row_id in
    match b with
    | None => st_ret tt
    | Some b =>
        let! versioned := st_get (fun _ => decode_versioned_row row_from_slice b) in
        let retained := retained_versions purge_horizon (versions versioned) in
        if bool_decide (retained = []) then table_delete txn_id root row_id
        else
          let! retained_bytes := st_get (fun _ => row_to_vec (Versioned (mkVersionedRow retained))) in
          if bool_decide (retained_bytes = b) then st_ret tt
          else let! _ := table_insert txn_id root row_id retained_bytes in st_ret tt
    end).

Definition purge_record (txn_id : TransactionId) (purge_horizon : Z) (record : UndoRecord) : ST FileStorage unit :=
  match record with
  | UDeleteRow table row_id _ => purge_deleted_row txn_id table row_id purge_horizon
  | _ => st_ret tt
  end.

Definition purge_row_versions (txn_id : TransactionId) (purge_horizon : Z) (planned_batch : list (TransactionId * UndoRecord))
    : ST FileStorage unit :=
  st_each (fun planned => purge_record txn_id purge_horizon planned.2) planned_batch.

(** [ilog2().saturating_add(1).clamp(1, 8)] *)
Definition purge_batch_size (history : Z) : nat := Z.to_nat (Z.min 8 (Z.max 1 (Z.log2 history + 1))).

Definition maybe_purge_garbage : ST FileStorage unit :=
  let! horizon := st_read (fun e => purge_horizon (manager e)) in
  let finished := on_txns (purge_finished_transactions_up_to horizon) in
  finished ;;!
  let! history := st_read (fun e => history_list_length (manager e)) in
  if history =? 0 then st_ret tt
  else
    let! batch := st_read (fun e => planned_purge_batch (manager e) horizon (purge_batch_size history)) in
    if bool_decide (batch = []) then finished
    else
      let! purge_txn := on_txns (begin ReadCommitted) in
      st_catch (on_pager (begin_with_txn_id purge_txn)) (fun error =>
        st_ignore (on_txns (abort purge_txn)) ;;! finished ;;! st_err error) ;;!
      let! outcome := st_catch (purge_row_versions purge_txn horizon batch ;;! st_ret (Ok tt)) (fun error => st_ret (Err error)) in
      match outcome with
      | Err error =>
          st_ignore (on_pager (rollback purge_txn)) ;;!
          st_ignore (on_txns (abort purge_txn)) ;;!
          finished ;;! st_err error
      | _ =>
          let! _ := on_txns (commit purge_txn) in
          on_pager (commit_pager purge_txn) ;;!
          on_txns (complete_purge_batch batch) ;;!
          finished
      end.

Definition begin_with_isolation (level : IsolationLevel) : ST FileStorage TransactionId :=
  let! txn := on_txns (begin level) in
  st_catch (on_pager (begin_with_txn_id txn)) (fun error => st_ignore (on_txns (abort txn)) ;;! st_err error) ;;!
  st_mod (fun e => set_session_catalog_snapshots (<[txn := catalog e]> (session_catalog_snapshots e)) e) ;;!
  st_ret txn.

Definition commit_storage (txn_id : TransactionId) : ST FileStorage unit :=
  st_get (validate_txn txn_id) ;;!
  sync_transaction_page_writes txn_id ;;!
  let! commit_ts := on_txns (reserve_commit_ts txn_id) in
  finalize_transaction_row_versions txn_id commit_ts ;;!
  let! c := st_read catalog in
  on_pager (store_catalog others wait txn_id c) ;;!
  on_pager (commit_pager txn_id) ;;!
  on_txns (finalize_commit txn_id commit_ts) ;;!
  st_mod (fun e => set_session_catalog_snapshots (delete txn_id (session_catalog_snapshots e)) e) ;;!
  maybe_purge_garbage.

(** The arms of [rollback], before the catalog is restored. *)
Definition rollback_transaction (txn_id : TransactionId) : ST FileStorage unit :=
  let! status := st_get (fun e => get_status (manager e) txn_id) in
  match status with
  | Active =>
      sync_transaction_page_writes txn_id ;;!
      replay_undo_records txn_id ;;!
      on_pager (rollback txn_id) ;;!
      on_txns (abort txn_id)
  | Aborted =>
      let! _ := on_txns (take_undo_records txn_id) in
      on_txns (clear_terminal_error txn_id)
  | Committed => st_err (not_active txn_id)
  end.

Definition restore_session_catalog (txn_id : TransactionId) (e : FileStorage) : FileStorage :=
  match session_catalog_snapshots e !! txn_id with
  | Some c => set_catalog c (set_session_catalog_snapshots (delete txn_id (session_catalog_snapshots e)) e)
  | None => e
  end.

Definition rollback_storage (txn_id : TransactionId) : ST FileStorage unit :=
  rollback_transaction txn_id ;;!
  st_mod (restore_session_catalog txn_id) ;;!
  maybe_purge_garbage.
End Engine.
