(* ===== verification/V2Storage.v ===== *)
(** * The operations of the v2 engine: [CatalogStore], [TableStore] and [IndexStore]

    The trait implementations of [src/storage/v2/mod.rs] over the state of V2Engine.v,
    opening a database, and the catalog a planner gets. *)

From S2P Require Import Prelude Types Ast Schema V2Page TxTypes TxnManager V2Codec V2Pager PageStore PagerStore V2BTree V2Catalog V2Engine.

(** ** Opening: [FileStorage::open] *)

Section Open.
Context {SelectStatement : Type} `{Codecs SelectStatement}.

(** [shared] is the transaction manager other handles of this process registered for the
    path, if there is one; the page cache is theirs too. *)
Definition open_storage (cache : gmap PageId bytes) (registered : option TxnManager) : ST Disk (FileStorage SelectStatement) :=
  let! pager := open_pager cache in
  let! catalog := st_get (fun _ => load_catalog pager) in
  let manager := default (with_next_txn_id (V2Page.next_txn_id (meta pager))) registered in
  let! manager := st_get (fun _ => let '(r, m) := sync_next_row_ids (catalog_row_ids catalog) manager in r ;;? Ok m) in
  st_ret (mkFileStorage _ (set_txn_manager manager pager) catalog ∅).
End Open.

Section Operations.
Context {SelectStatement : Type} `{Codecs SelectStatement}.
Context (others : Shared -> Shared) (wait depth : nat).
Abbreviation FileStorage := (FileStorage SelectStatement).
Abbreviation CatalogState := (CatalogState SelectStatement).
Abbreviation Schema := (Schema SelectStatement).

#[local] Abbreviation table_get := (table_get others wait depth).
#[local] Abbreviation table_scan := (table_scan others wait depth).
#[local] Abbreviation table_insert := (table_insert others wait depth).
#[local] Abbreviation index_get := (index_get others wait depth).
#[local] Abbreviation index_scan := (index_scan others wait depth).
#[local] Abbreviation upsert_index_entry := (upsert_index_entry others wait depth).
#[local] Abbreviation filter_ids := (filter_index_row_ids_for_key others wait depth).

(** ** The planner's view: [planning_catalog_snapshot] *)

Section Planning.
Context (catalog_eqb : CatalogState -> CatalogState -> bool).

Definition planning_catalog_snapshot (txn_id : option TransactionId) : ST FileStorage CatalogState :=
  match txn_id with
  | None => st_read catalog
  | Some txn_id =>
      let! level := st_get (fun e => get_isolation_level (manager e) txn_id) in
      match level with
      | ReadCommitted =>
          let! _ := on_txns (refresh_snapshot txn_id) in
          let! current := st_read catalog in
          let! session := st_read (fun e => session_catalog_snapshots e !! txn_id) in
          (match session with
           | Some snapshot =>
               if catalog_eqb snapshot current then
                 let! loaded := st_get (fun e => load_catalog (pager e)) in
                 st_mod (set_catalog loaded) ;;! st_ret loaded
               else st_ret current
           | None => st_ret current
           end)
      | _ => st_read catalog
      end
  end.

(** [planning_context_snapshot]: the schemas and the indexes of each table. *)
Definition planning_context_snapshot (txn_id : option TransactionId)
    : ST FileStorage (gmap string Schema * gmap string (list IndexMeta)) :=
  st_get (validate_snapshot_transaction txn_id) ;;!
  let! c := planning_catalog_snapshot txn_id in
  st_ret (schemas c, (fun by_name => map snd (sorted_by_name by_name)) <$> indexes c).
End Planning.

(** ** [CatalogStore] *)

Definition create_schema (txn_id : TransactionId) (schema : Schema) : ST FileStorage unit :=
  st_get (validate_txn txn_id) ;;!
  wait_for_table_exclusive_lock others wait txn_id (schema_name schema) ;;!
  let! known := st_read (fun e => schemas (catalog e) !! schema_name schema) in
  match known with
  | Some _ => st_err (Storage ("table " ++ schema_name schema ++ " already exists")%string)
  | None =>
      let table_name := schema_name schema in
      let! root := on_pager (@BTree.create Pager (pager_store others wait txn_id) node_to_vec) in
      mod_catalog (fun c => set_schemas (<[table_name := schema]> (schemas c)) c) ;;!
      mod_catalog (fun c => set_table_roots (<[table_name := root]> (table_roots c)) c) ;;!
      mod_catalog (fun c => set_catalog_row_ids (<[table_name := default 1 (catalog_row_ids c !! table_name)]> (catalog_row_ids c)) c)
  end.

Definition drop_schema (txn_id : TransactionId) (name : string) : ST FileStorage unit :=
  st_get (validate_txn txn_id) ;;!
  wait_for_table_exclusive_lock others wait txn_id name ;;!
  let! known := st_read (fun e => schemas (catalog e) !! name) in
  match known with
  | None => st_err (Storage ("unknown table: " ++ name)%string)
  | Some _ =>
      mod_catalog (fun c => mkCatalogState _ (delete name (schemas c)) (delete name (table_roots c))
        (delete name (catalog_row_ids c)) (delete name (indexes c)) (delete name (index_roots c)))
  end.

Definition replace_schema (txn_id : TransactionId) (schema : Schema) : ST FileStorage unit :=
  st_get (validate_txn txn_id) ;;!
  wait_for_table_exclusive_lock others wait txn_id (schema_name schema) ;;!
  let! known := st_read (fun e => schemas (catalog e) !! schema_name schema) in
  match known with
  | None => st_err (Storage ("unknown table: " ++ schema_name schema)%string)
  | Some _ => mod_catalog (fun c => set_schemas (<[schema_name schema := schema]> (schemas c)) c)
  end.

(** The catalog part of [rename_schema]. *)
Definition rename_in_catalog (old_name new_name : string) (schema : Schema) (c : CatalogState) : CatalogState :=
  let schemas := <[new_name := with_schema_name new_name schema]> (delete old_name (schemas c)) in
  mkCatalogState _ (rename_foreign_key_ref_table old_name new_name <$> schemas) (move_key old_name new_name (table_roots c))
    (move_key old_name new_name (catalog_row_ids c)) (move_key old_name new_name (indexes c))
    (move_key old_name new_name (index_roots c)).

Definition rename_schema (txn_id : TransactionId) (old_name new_name : string) : ST FileStorage unit :=
  st_get (validate_txn txn_id) ;;!
  wait_for_table_exclusive_lock others wait txn_id old_name ;;!
  (if String.eqb old_name new_name then st_ret tt else wait_for_table_exclusive_lock others wait txn_id new_name) ;;!
  let! c := st_read catalog in
  match schemas c !! new_name with
  | Some _ => st_err (Storage ("table already exists: " ++ new_name)%string)
  | None =>
      match schemas c !! old_name with
      | None => st_err (Storage ("unknown table: " ++ old_name)%string)
      | Some schema => mod_catalog (rename_in_catalog old_name new_name schema)
      end
  end.

(** The catalog part of [rename_column]. *)
Definition rename_column_in_catalog (table old_name new_name : string) (updated : Schema) (c : CatalogState) : CatalogState :=
  let rename_index index := mkIndexMeta (index_name index) (map (rename old_name new_name) (index_columns index))
                              (decorated_columns index) (index_unique index) (predicate index) in
  let c := set_schemas (<[table := updated]> (schemas c)) c in
  let c := set_indexes (alter (fun by_name : gmap string IndexMeta => rename_index <$> by_name) table (indexes c)) c in
  set_schemas (map_imap (fun name schema => Some (if String.eqb name table then schema
                 else rename_foreign_key_ref_column table old_name new_name schema)) (schemas c)) c.

Definition rename_column (txn_id : TransactionId) (table old_name new_name : string) : ST FileStorage unit :=
  st_get (validate_txn txn_id) ;;!
  wait_for_table_exclusive_lock others wait txn_id table ;;!
  let! (schema, _) := from_catalog (fun c => table_schema_and_root c table) in
  if negb (has_column schema old_name) then
    st_err (Storage ("unknown column " ++ old_name ++ " on table " ++ table)%string)
  else if has_column schema new_name then
    st_err (Storage ("column already exists on table " ++ table ++ ": " ++ new_name)%string)
  else
    let updated := rename_foreign_key_ref_column table old_name new_name (rename_column_references old_name new_name schema) in
    st_get (fun _ => validate_constraints_metadata updated) ;;!
    mod_catalog (rename_column_in_catalog table old_name new_name updated).

Definition get_schema (txn_id : TransactionId) (name : string) : ST FileStorage (option Schema) :=
  st_get (validate_txn txn_id) ;;! st_read (fun e => schemas (catalog e) !! name).

Definition list_schemas (txn_id : TransactionId) : ST FileStorage (list Schema) :=
  st_get (validate_txn txn_id) ;;! st_read (fun e => map snd (sorted_by_name (schemas (catalog e)))).

(** ** [TableStore] *)

(** [let Ok((_, root)) = self.table_schema_and_root(table) else { return Ok(absent) }] *)
Definition with_table {A} (table : string) (absent : A) (body : PageId -> ST FileStorage A) : ST FileStorage A :=
  let! found := st_read (fun e => table_schema_and_root (catalog e) table) in
  match found with
  | Ok (_, root) => body root
  | _ => st_ret absent
  end.

Definition get_row (txn_id : TransactionId) (table : string) (row_id : RowId) : ST FileStorage (option Row) :=
  st_get (validate_txn txn_id) ;;!
  wait_for_table_read_lock others wait txn_id table ;;!
  with_table table None (fun root =>
    let! snap := snapshot_for_transaction txn_id in
    let! b := table_get root row_id in
    st_get (fun _ => visible_bytes txn_id snap b)).

Definition scan_rows (txn_id : TransactionId) (table : string) : ST FileStorage (list (RowId * Row)) :=
  st_get (validate_txn txn_id) ;;!
  wait_for_table_scan_lock others wait txn_id table ;;!
  with_table table [] (fun root =>
    let! snap := snapshot_for_transaction txn_id in
    let! rows := table_scan root in
    st_get (fun _ => visible_rows txn_id snap rows)).

(** [self.indexes_for_table(table)?.map(|(_, meta, _)| (meta.name, project_index_key(..)?))] *)
Definition write_index_keys (c : CatalogState) (schema : Schema) (table : string) (row : Row)
    : Result (list (string * list Value)) :=
  let? indexes := indexes_for_table c table in
  mapM_res (fun nmr : string * IndexMeta * PageId =>
    let? key := project_index_key schema nmr.1.2 row in Ok (index_name nmr.1.2, key)) indexes.

(** [catalog.table_roots.insert(..)] when the root has moved. *)
Definition move_table_root (table : string) (root root' : PageId) : ST FileStorage unit :=
  if root' =? root then st_ret tt
  else mod_catalog (fun c => set_table_roots (<[table := root']> (table_roots c)) c).

Definition missing_row (table : string) (row_id : RowId) : DbError :=
  Storage ("missing row " ++ pretty row_id ++ " on table " ++ table)%string.

(** [delete_row] once the row to delete is known. *)
Definition delete_visible_row (txn_id : TransactionId) (table : string) (root : PageId) (row_id : RowId) (snap : TxnSnapshot)
    (existing_row : Row) : ST FileStorage unit :=
  let! (schema, _) := from_catalog (fun c => table_schema_and_root c table) in
  let! index_keys := from_catalog (fun c => write_index_keys c schema table existing_row) in
  wait_for_write_conflicts others wait txn_id table index_keys ;;!
  let! b := table_get root row_id in
  let! existing_bytes := st_get (fun _ => ok_or b (missing_row table row_id)) in
  record_storage_undo txn_id (UDeleteRow table row_id existing_bytes) ;;!
  st_each (fun ik : string * list Value => record_storage_undo txn_id (UIndexDelete table ik.1 row_id ik.2)) index_keys ;;!
  let! updated := st_get (fun _ => mark_row_deleted row_to_vec row_from_slice existing_bytes txn_id snap) in
  match updated with
  | Some updated_bytes =>
      let! root' := table_insert txn_id root row_id updated_bytes in
      move_table_root table root root'
  | None => st_ret tt
  end.

Definition delete_row (txn_id : TransactionId) (table : string) (row_id : RowId) : ST FileStorage unit :=
  st_get (validate_txn txn_id) ;;!
  wait_for_table_write_lock others wait txn_id table ;;!
  with_table table tt (fun root =>
    let! snap := snapshot_for_transaction txn_id in
    let! b := table_get root row_id in
    let! existing_row := st_get (fun _ => visible_bytes txn_id snap b) in
    match existing_row with
    | None => st_ret tt
    | Some existing_row => delete_visible_row txn_id table root row_id snap existing_row
    end).

(** ** [IndexStore] *)

Definition unique_failed (name : string) : DbError := Storage ("unique index " ++ name ++ " constraint failed")%string.

(** The loop of [create_index] over the rows of the table; it returns the tree's root. *)
Fixpoint index_rows (txn_id : TransactionId) (schema : Schema) (index : IndexMeta) (root : PageId) (rows : list (Z * bytes))
    : ST FileStorage PageId :=
  match rows with
  | [] => st_ret root
  | (row_id, b) :: rows =>
      let! row := st_get (fun _ => decode_row row_from_slice b) in
      let! key_values := st_get (fun _ => project_index_key schema index row) in
      let! encoded_key := st_get (fun _ => key_to_vec key_values) in
      let! taken :=
        (if enforces_unique_key index key_values then
           let! entry := index_get root encoded_key in
           let! row_ids := st_get (fun _ => decode_ids entry) in
           st_ret (negb (bool_decide (row_ids = [])))
         else st_ret false) in
      if taken : bool then st_err (unique_failed (index_name index))
      else
        let! root := upsert_index_entry txn_id root encoded_key row_id in
        index_rows txn_id schema index root rows
  end.

Definition create_index (txn_id : TransactionId) (table : string) (index : IndexMeta) : ST FileStorage unit :=
  st_get (validate_txn txn_id) ;;!
  wait_for_table_exclusive_lock others wait txn_id table ;;!
  let! (schema, table_root) := from_catalog (fun c => table_schema_and_root c table) in
  from_catalog (fun c => validate_new_index schema (indexes c !! table) index) ;;!
  let! existing_rows := table_scan table_root in
  let! root := on_pager (@IndexTree.create Pager (pager_store others wait txn_id) index_node_to_vec) in
  let! root := index_rows txn_id schema index root existing_rows in
  mod_catalog (fun c => set_indexes (insert_nested table (index_name index) index (indexes c)) c) ;;!
  mod_catalog (fun c => set_index_roots (insert_nested table (index_name index) root (index_roots c)) c).

Definition drop_index (txn_id : TransactionId) (table name : string) : ST FileStorage unit :=
  st_get (validate_txn txn_id) ;;!
  wait_for_table_exclusive_lock others wait txn_id table ;;!
  let! known := st_read (fun e => get_nested (indexes (catalog e)) table name) in
  match known with
  | None => st_err (unknown_index table name)
  | Some _ =>
      mod_catalog (fun c => set_indexes (alter (delete name) table (indexes c)) c) ;;!
      mod_catalog (fun c => set_index_roots (alter (delete name) table (index_roots c)) c)
  end.

Definition get_index (txn_id : TransactionId) (table name : string) : ST FileStorage (option IndexMeta) :=
  st_get (validate_txn txn_id) ;;! st_read (fun e => get_nested (indexes (catalog e)) table name).

Definition list_indexes (txn_id : TransactionId) (table : string) : ST FileStorage (list IndexMeta) :=
  st_get (validate_txn txn_id) ;;!
  st_read (fun e => match indexes (catalog e) !! table with
                    | Some by_name => map snd (sorted_by_name by_name)
                    | None => []
                    end).

Definition key_count_error (index : IndexMeta) (n : nat) (expected : string) : DbError :=
  Storage ("index " ++ index_name index ++ " expected " ++ expected ++ pretty (length (index_columns index))
           ++ " key values but got " ++ pretty n)%string.

Definition lookup_index (txn_id : TransactionId) (table name : string) (key : list Value) : ST FileStorage (list RowId) :=
  st_get (validate_txn txn_id) ;;!
  wait_for_table_read_lock others wait txn_id table ;;!
  let! (schema, table_root) := from_catalog (fun c => table_schema_and_root c table) in
  let! (index, root) := from_catalog (fun c => index_meta_and_root c table name) in
  if negb (length key =? length (index_columns index))%nat then st_err (key_count_error index (length key) "")
  else
    on_txns (acquire_exact_key_lock txn_id table name key) ;;!
    let! encoded_key := st_get (fun _ => key_to_vec key) in
    let! b := index_get root encoded_key in
    let! row_ids := st_get (fun _ => decode_ids b) in
    filter_ids txn_id schema table_root index key row_ids.

(** The loop of the two index scans: the entries whose key [keep] accepts. *)
Fixpoint scan_entries (txn_id : TransactionId) (schema : Schema) (table_root : PageId) (index : IndexMeta)
    (keep : list Value -> bool) (entries : list (bytes * bytes)) (row_ids : gset RowId) : ST FileStorage (gset RowId) :=
  match entries with
  | [] => st_ret row_ids
  | (encoded_key, encoded_row_ids) :: entries =>
      let! decoded_key := st_get (fun _ => key_from_slice encoded_key) in
      if keep decoded_key then
        let! ids := st_get (fun _ => row_ids_from_slice encoded_row_ids) in
        let! visible := filter_ids txn_id schema table_root index decoded_key ids in
        scan_entries txn_id schema table_root index keep entries (list_to_set visible ∪ row_ids)
      else scan_entries txn_id schema table_root index keep entries row_ids
  end.

Definition scan_index_prefix (txn_id : TransactionId) (table name : string) (key_prefix : list Value) : ST FileStorage (list RowId) :=
  st_get (validate_txn txn_id) ;;!
  wait_for_table_read_lock others wait txn_id table ;;!
  let! (schema, table_root) := from_catalog (fun c => table_schema_and_root c table) in
  let! (index, root) := from_catalog (fun c => index_meta_and_root c table name) in
  if (length (index_columns index) <? length key_prefix)%nat then
    st_err (key_count_error index (length key_prefix) "at most ")
  else
    on_txns (acquire_prefix_lock txn_id table name key_prefix) ;;!
    let! entries := index_scan root in
    let! row_ids := scan_entries txn_id schema table_root index (fun key => starts_with key key_prefix) entries ∅ in
    st_ret (sorted_elements row_ids).

(** [matches_bounds]; [matches_compare] and [compare_values] repeat those of
    [txn_manager.rs]. *)
Definition matches_bounds (candidate : Value) (lower upper : option (CompareOp * Value)) : bool :=
  none_or (fun ov => matches_compare candidate ov.1 ov.2) lower
  && none_or (fun ov => matches_compare candidate ov.1 ov.2) upper.

Definition scan_index_range (txn_id : TransactionId) (table name : string) (key_prefix : list Value)
    (lower upper : option (CompareOp * Value)) : ST FileStorage (list RowId) :=
  st_get (validate_txn txn_id) ;;!
  wait_for_table_read_lock others wait txn_id table ;;!
  let! (schema, table_root) := from_catalog (fun c => table_schema_and_root c table) in
  let! (index, root) := from_catalog (fun c => index_meta_and_root c table name) in
  if (length (index_columns index) <=? length key_prefix)%nat then
    st_err (Storage ("index " ++ index_name index ++ " has no range column after prefix of length "
                     ++ pretty (length key_prefix))%string)
  else
    on_txns (acquire_range_lock txn_id table name key_prefix lower upper) ;;!
    let! entries := index_scan root in
    let! row_ids := scan_entries txn_id schema table_root index (fun key =>
      starts_with key key_prefix
      && match key !! length key_prefix with
         | Some candidate => matches_bounds candidate lower upper
         | None => false
         end) entries ∅ in
    st_ret (sorted_elements row_ids).
End Operations.
