(* ===== verification/V2Rows.v ===== *)
(** * Writing rows in the v2 engine: [insert_row], [update_row], [add_column], [drop_column]

    The operations of [src/storage/v2/mod.rs] that evaluate check constraints or normalise
    values; the others are in V2Storage.v. [debug] formats the key of a composite primary
    key with [{:?}] and occurs in an error's text only. [now] is the system clock, which a
    column's default value may read. *)

From S2P Require Import Prelude Text Types Ast Floats Schema CheckValues CheckEval V2Page TxTypes TxnManager V2Codec V2Pager PageStore PagerStore V2BTree V2Catalog V2Engine V2Storage.

Section Rows.
Context {SelectStatement : Type} `{Codecs SelectStatement} `{Libm, JsonParser}.
Context (others : Shared -> Shared) (wait depth : nat) (debug : list Value -> string) (now : Z + string).
Abbreviation FileStorage := (FileStorage SelectStatement).
Abbreviation CatalogState := (CatalogState SelectStatement).
Abbreviation Schema := (Schema SelectStatement).

#[local] Abbreviation table_get := (table_get others wait depth).
#[local] Abbreviation table_scan := (table_scan others wait depth).
#[local] Abbreviation table_insert := (table_insert others wait depth).
#[local] Abbreviation index_get := (index_get others wait depth).
#[local] Abbreviation upsert_index_entry := (upsert_index_entry others wait depth).
#[local] Abbreviation remove_row_id_from_index_entry := (remove_row_id_from_index_entry others wait depth).
#[local] Abbreviation filter_ids := (filter_index_row_ids_for_key others wait depth).

(** ** The checks before a write *)

(** The first part of both: the number of values, the column types, the constraints. *)
Definition check_row (operation : string) (schema : Schema) (table : string) (row : Row) : Result unit :=
  if negb (length row =? length (columns schema))%nat then
    Err (Storage (operation ++ table ++ " expected " ++ pretty (length (columns schema))
                  ++ " values but got " ++ pretty (length row))%string)
  else validate_row_values schema row ;;? validate_check_constraints schema row.

(** The rows of the table the transaction sees, [skip] apart. *)
Definition visible_others (txn_id : TransactionId) (root : PageId) (snap : TxnSnapshot) (skip : option RowId)
    : ST FileStorage (list Row) :=
  let! rows := table_scan root in
  st_get (fun _ =>
    let? visible := visible_rows txn_id snap (filter (fun ib : Z * bytes => Some ib.1 <> skip) rows) in
    Ok (map snd visible)).

(** The rows an index entry names that the transaction sees with the key. *)
Definition conflicting_rows (txn_id : TransactionId) (schema : Schema) (table_root : PageId) (index : IndexMeta) (root : PageId)
    (key_values : list Value) : ST FileStorage (list RowId) :=
  let! encoded_key := st_get (fun _ => key_to_vec key_values) in
  let! b := index_get root encoded_key in
  let! row_ids := st_get (fun _ => decode_ids b) in
  filter_ids txn_id schema table_root index key_values row_ids.

(** The unique check of one index; a row does not conflict with itself. *)
Definition check_unique (txn_id : TransactionId) (schema : Schema) (table_root : PageId) (skip : option RowId)
    (index : IndexMeta) (root : PageId) (key_values : list Value) : ST FileStorage unit :=
  if negb (enforces_unique_key index key_values) then st_ret tt
  else
    let! row_ids := conflicting_rows txn_id schema table_root index root key_values in
    if bool_decide (filter (fun candidate => Some candidate <> skip) row_ids = []) then st_ret tt
    else st_err (unique_failed (index_name index)).

(** [entry(table).or_default().insert(index_name, root)] when the root has moved. *)
Definition move_index_root (table name : string) (root root' : PageId) : ST FileStorage unit :=
  if root' =? root then st_ret tt
  else mod_catalog (fun c => set_index_roots (insert_nested table name root' (index_roots c)) c).

(** ** [insert_row] *)

(** The body of the last loop: the row id goes under its key in one index. *)
Definition insert_index_entry (txn_id : TransactionId) (schema : Schema) (table : string) (row_id : RowId) (row : Row)
    (nmr : string * IndexMeta * PageId) : ST FileStorage unit :=
  let '(name, index, root) := nmr in
  let! key_values := st_get (fun _ => project_index_key schema index row) in
  record_storage_undo txn_id (UIndexInsert table name row_id key_values) ;;!
  let! encoded_key := st_get (fun _ => key_to_vec key_values) in
  let! root' := upsert_index_entry txn_id root encoded_key row_id in
  move_index_root table name root root'.

(** The row gets its id and goes to the tree and the indexes. *)
Definition store_new_row (txn_id : TransactionId) (schema : Schema) (table : string) (root : PageId) (row : Row) : ST FileStorage RowId :=
  let! fallback := st_read (fun e => default 1 (catalog_row_ids (catalog e) !! table)) in
  let! row_id := on_txns (allocate_row_id txn_id table fallback) in
  mod_catalog (fun c => set_catalog_row_ids (<[table := saturating_add64 row_id 1]> (catalog_row_ids c)) c) ;;!
  record_storage_undo txn_id (UInsertRow table row_id) ;;!
  let! b := st_get (fun _ => encode_uncommitted_row_version row_to_vec row txn_id) in
  let! root' := table_insert txn_id root row_id b in
  move_table_root table root root' ;;!
  let! indexes := from_catalog (fun c => indexes_for_table c table) in
  st_each (insert_index_entry txn_id schema table row_id row) indexes ;;!
  st_ret row_id.

Definition insert_row (txn_id : TransactionId) (table : string) (row : Row) : ST FileStorage RowId :=
  st_get (validate_txn txn_id) ;;!
  wait_for_table_write_lock others wait txn_id table ;;!
  let! (schema, root) := from_catalog (fun c => table_schema_and_root c table) in
  st_get (fun _ => check_row "insert into " schema table row) ;;!
  let! index_keys := from_catalog (fun c => write_index_keys c schema table row) in
  wait_for_write_conflicts others wait txn_id table index_keys ;;!
  let! snap := snapshot_for_transaction txn_id in
  let! existing_rows := visible_others txn_id root snap None in
  st_get (fun _ => validate_primary_key_uniqueness value_display debug schema row existing_rows) ;;!
  let! indexes := from_catalog (fun c => indexes_for_table c table) in
  st_each (fun nmr : string * IndexMeta * PageId =>
    let! key_values := st_get (fun _ => project_index_key schema nmr.1.2 row) in
    check_unique txn_id schema root None nmr.1.2 nmr.2 key_values) indexes ;;!
  store_new_row txn_id schema table root row.

(** ** [update_row] *)

(** An entry of [index_changes]. *)
Record IndexChange := mkIndexChange {
  ch_name : string;
  ch_index : IndexMeta;
  ch_root : PageId;
  old_key : list Value;
  new_key : list Value
}.

Definition key_changed (change : IndexChange) : bool := negb (row_eqb (old_key change) (new_key change)).

Definition index_change (schema : Schema) (existing_row row : Row) (nmr : string * IndexMeta * PageId) : Result IndexChange :=
  let '(name, index, root) := nmr in
  let? old_key := project_index_key schema index existing_row in
  let? new_key := project_index_key schema index row in
  Ok (mkIndexChange name index root old_key new_key).

(** [if !indexed_keys.iter().any(..) { indexed_keys.push(..) }] *)
Definition push_key (name : string) (key : list Value) (indexed_keys : list (string * list Value)) : list (string * list Value) :=
  if existsb (fun nk : string * list Value => String.eqb nk.1 name && row_eqb nk.2 key) indexed_keys then indexed_keys
  else indexed_keys ++ [(name, key)].

Definition indexed_keys (changes : list IndexChange) : list (string * list Value) :=
  fold_left (fun keys change => push_key (ch_name change) (new_key change) (push_key (ch_name change) (old_key change) keys)) changes [].

Definition record_index_change (txn_id : TransactionId) (table : string) (row_id : RowId) (change : IndexChange) : ST FileStorage unit :=
  if key_changed change then
    record_storage_undo txn_id (UIndexDelete table (ch_name change) row_id (old_key change)) ;;!
    record_storage_undo txn_id (UIndexInsert table (ch_name change) row_id (new_key change))
  else st_ret tt.

Definition apply_index_change (txn_id : TransactionId) (table : string) (row_id : RowId) (change : IndexChange) : ST FileStorage unit :=
  if key_changed change then
    let! old_encoded_key := st_get (fun _ => key_to_vec (old_key change)) in
    let! new_encoded_key := st_get (fun _ => key_to_vec (new_key change)) in
    let! root' := remove_row_id_from_index_entry txn_id (ch_root change) old_encoded_key row_id in
    let! root' := upsert_index_entry txn_id root' new_encoded_key row_id in
    move_index_root table (ch_name change) (ch_root change) root'
  else st_ret tt.

(** The changes, once the old row is known and the checks have passed. *)
Definition store_updated_row (txn_id : TransactionId) (table : string) (root : PageId) (row_id : RowId) (row : Row)
    (snap : TxnSnapshot) (changes : list IndexChange) : ST FileStorage unit :=
  let! b := table_get root row_id in
  let! existing_bytes := st_get (fun _ => ok_or b (missing_row table row_id)) in
  record_storage_undo txn_id (UDeleteRow table row_id existing_bytes) ;;!
  st_each (record_index_change txn_id table row_id) changes ;;!
  let! updated := st_get (fun _ => append_row_version row_to_vec row_from_slice existing_bytes row txn_id snap) in
  match updated with
  | Some updated_bytes =>
      let! root' := table_insert txn_id root row_id updated_bytes in
      move_table_root table root root'
  | None => st_ret tt
  end ;;!
  st_each (apply_index_change txn_id table row_id) changes.

Definition replace_visible_row (txn_id : TransactionId) (schema : Schema) (table : string) (root : PageId) (row_id : RowId) (row : Row)
    (snap : TxnSnapshot) (existing_row : Row) : ST FileStorage unit :=
  let! indexes := from_catalog (fun c => indexes_for_table c table) in
  let! changes := st_get (fun _ => mapM_res (index_change schema existing_row row) indexes) in
  wait_for_write_conflicts others wait txn_id table (indexed_keys changes) ;;!
  let! existing_rows := visible_others txn_id root snap (Some row_id) in
  st_get (fun _ => validate_primary_key_uniqueness value_display debug schema row existing_rows) ;;!
  st_each (fun change =>
    check_unique txn_id schema root (Some row_id) (ch_index change) (ch_root change) (new_key change)) changes ;;!
  store_updated_row txn_id table root row_id row snap changes.

Definition update_row (txn_id : TransactionId) (table : string) (row_id : RowId) (row : Row) : ST FileStorage unit :=
  st_get (validate_txn txn_id) ;;!
  wait_for_table_write_lock others wait txn_id table ;;!
  let! (schema, root) := from_catalog (fun c => table_schema_and_root c table) in
  st_get (fun _ => check_row "update " schema table row) ;;!
  let! snap := snapshot_for_transaction txn_id in
  let! b := table_get root row_id in
  let! existing_row := st_get (fun _ => visible_bytes txn_id snap b) in
  match existing_row with
  | None => st_ret tt
  | Some existing_row =>
      if row_eqb existing_row row then st_ret tt
      else replace_visible_row txn_id schema table root row_id row snap existing_row
  end.

(** ** [add_column] *)

(** The row with the new column's value, as the loops of [add_column] make it. *)
Definition extended_row (updated : Schema) (default_value : Value) (b : bytes) : Result Row :=
  let? row := decode_row row_from_slice b in
  normalize_strict_row_values updated (row ++ [default_value]).

Fixpoint rewrite_rows (txn_id : TransactionId) (updated : Schema) (default_value : Value) (root : PageId) (rows : list (Z * bytes))
    : ST FileStorage PageId :=
  match rows with
  | [] => st_ret root
  | (row_id, b) :: rows =>
      let! row := st_get (fun _ => extended_row updated default_value b) in
      let! encoded := st_get (fun _ => encode_row row_to_vec row) in
      let! root := table_insert txn_id root row_id encoded in
      rewrite_rows txn_id updated default_value root rows
  end.

Definition add_column (txn_id : TransactionId) (table : string) (column : ColumnDef) : ST FileStorage unit :=
  st_get (validate_txn txn_id) ;;!
  wait_for_table_exclusive_lock others wait txn_id table ;;!
  let! (schema, root) := from_catalog (fun c => table_schema_and_root c table) in
  if has_column schema (column_name column) then
    st_err (Storage ("column already exists on table " ++ table ++ ": " ++ column_name column)%string)
  else
    let! default_value := st_get (fun _ => match default_value column with Some d => evaluate now d | None => Ok Null end) in
    let! rows := table_scan root in
    let updated := with_columns (columns schema ++ [column]) schema in
    st_get (fun _ => validate_constraints_metadata updated) ;;!
    st_get (fun _ => each_res (fun ib : Z * bytes =>
      let? candidate := extended_row updated default_value ib.2 in
      validate_row_values updated candidate ;;? validate_check_constraints updated candidate) rows) ;;!
    mod_catalog (fun c => set_schemas (<[table := updated]> (schemas c)) c) ;;!
    let! root' := rewrite_rows txn_id updated default_value root rows in
    move_table_root table root root'.

(** ** [drop_column] *)

(** The catalog part: the new schema, without the indexes on the column. *)
Definition drop_column_in_catalog (table column : string) (updated : Schema) (c : CatalogState) : CatalogState :=
  let c := set_schemas (<[table := updated]> (schemas c)) c in
  let keep (entries : gmap string IndexMeta) := filter (fun ni : string * IndexMeta => column ∉ index_columns ni.2) entries in
  let c := set_indexes (alter keep table (indexes c)) c in
  let retained := default ∅ (indexes c !! table) in
  set_index_roots (alter (fun roots : gmap string PageId => filter (fun nr : string * PageId => is_Some (retained !! nr.1)) roots)
                     table (index_roots c)) c.

Definition reinsert_row (txn_id : TransactionId) (table : string) (removed_index : nat) (row : Row) : ST FileStorage unit :=
  let! row := st_get (fun _ => vec_remove row removed_index) in
  let! _ := insert_row txn_id table row in
  st_ret tt.

Definition drop_table_column (txn_id : TransactionId) (table column : string) : ST FileStorage unit :=
  st_get (validate_txn txn_id) ;;!
  wait_for_table_exclusive_lock others wait txn_id table ;;!
  let! (schema, _) := from_catalog (fun c => table_schema_and_root c table) in
  let! (updated, removed_index) := st_get (fun _ => drop_column column schema) in
  let! existing_rows := scan_rows others wait depth txn_id table in
  mod_catalog (drop_column_in_catalog table column updated) ;;!
  st_each (fun ir : RowId * Row => delete_row others wait depth txn_id table ir.1) existing_rows ;;!
  st_each (fun ir : RowId * Row => reinsert_row txn_id table removed_index ir.2) existing_rows.
End Rows.
