(* ===== verification/V2EngineLaws.v ===== *)
(** * What a transaction reads from a table

    The contents of a table as a map from row ids to versions, and the refinement of
    [get_row] and [scan_rows] to the view a snapshot gives of that map. *)

From S2P Require Import Prelude Types Ast Schema V2Page TxTypes TxnManager WaitGraph TxnRelease TxnLocks TxnRequests V2Codec V2Mvcc V2Pager PageStore PagerStore V2BTree V2BTreeShape V2BTreeOps V2Trees V2Catalog V2Engine V2Storage.



(** ** Tables as maps *)

(** The rows of a table by row id, each with its versions. *)
Abbreviation Table := (gmap RowId (list RowVersion)).

(** What the transaction [t] sees of a table through a snapshot. *)
Definition table_view (t : TransactionId) (snap : TxnSnapshot) (rows : Table) : gmap RowId Row :=
  omap (visible_loop t snap) rows.

Section Contents.
Context {SelectStatement : Type} `{Codecs SelectStatement}.

(** The tree at [root] stores [rows]: its pages are [foot], and each entry decodes to the
    versions of its row. *)
Definition stores (p : Pager) (root : PageId) (rows : Table) (foot : gset PageId) : Prop :=
  exists h es, @tree_at Pager (pager_store (fun sh => sh) 0 0) Z Z.compare node_from_slice p root h es foot /\
    forall k, match assoc_lookup Z.compare k es, rows !! k with
              | Some b, Some vs => row_holds row_from_slice b vs
              | None, None => True
              | _, _ => False
              end.
End Contents.

(** Two stores over the pager read the same trees. *)
Lemma tree_at_store others wait t others' wait' t' {K} (kcmp : K -> K -> comparison) from_slice p root h es foot :
  @tree_at Pager (pager_store others wait t) K kcmp from_slice p root h es foot =
  @tree_at Pager (pager_store others' wait' t') K kcmp from_slice p root h es foot.
Proof. reflexivity. Qed.

(** ** Sorted association lists and maps *)

Lemma assoc_lookup_elem (es : list (LeafEntry Z)) k b :
  sorted_entries Z.compare es -> assoc_lookup Z.compare k es = Some b <-> mkLeafEntry k b ∈ es.
Proof.
  induction 1 as [|e es Hes IH He].
  - split; [done|]. by intros ?%not_elem_of_nil.
  - rewrite assoc_lookup_cons, elem_of_cons. destruct (key e ?= k) eqn:E.
    + apply Z.compare_eq in E. subst k. split.
      * intros [= <-]. left. by destruct e.
      * intros [<-|Hin]; [done|]. rewrite Forall_forall in He. specialize (He _ Hin). unfold klt in He. cbn in He.
        rewrite Z.compare_refl in He. done.
    + rewrite IH. split; [by right|]. intros [<-|?]; [|done]. by rewrite Z.compare_refl in E.
    + rewrite IH. split; [by right|]. intros [<-|?]; [|done]. by rewrite Z.compare_refl in E.
Qed.

(** ** Reading *)

Section Reads.
Context {SelectStatement : Type} `{Codecs SelectStatement}.
Context (others : Shared -> Shared) (wait depth : nat).
#[local] Instance reading : PageStore Pager := pager_store others wait 0.

Lemma stores_get p root rows foot t snap id :
  stores p root rows foot -> (size foot < depth)%nat ->
  exists b, @BTree.get Pager (pager_store others wait 0) node_from_slice depth root p id = Ok b /\
    visible_bytes t snap b = Ok (table_view t snap rows !! id).
Proof.
  intros (h & es & Ht & Hes) Hd.
  destruct (tree_reads Z.compare node_from_slice (lookup_find Z.compare) "B+Tree" depth p root h es foot) as (Hget & _ & _); [done..|].
  exists (assoc_lookup Z.compare id es). split; [apply Hget|]. unfold table_view. rewrite lookup_omap. specialize (Hes id).
  destruct (assoc_lookup Z.compare id es) as [b|], (rows !! id) as [vs|]; try done. cbn. by apply row_holds_visible.
Qed.

Lemma visible_rows_run t snap (rows : Table) es :
  (forall e, e ∈ es -> exists vs, rows !! key e = Some vs /\ row_holds row_from_slice (value e) vs) ->
  visible_rows t snap (rows_of es) = Ok (omap (fun e => pair (key e) <$> table_view t snap rows !! key e) es).
Proof.
  induction es as [|e es IH]; intros He; [done|]. cbn [rows_of map visible_rows omap list_omap].
  destruct (He e) as (vs & Hk & Hh); [by left|]. rewrite (row_holds_visible _ _ _ _ _ Hh). cbn [bind].
  fold (rows_of es). rewrite IH by (intros; apply He; by right). cbn [bind].
  assert (Hv : table_view t snap rows !! key e = visible_loop t snap vs).
  { unfold table_view. by rewrite lookup_omap, Hk. }
  rewrite Hv. by destruct (visible_loop t snap vs).
Qed.

Lemma stores_scan p root rows foot t snap :
  stores p root rows foot -> (size foot < depth)%nat ->
  exists l, @BTree.scan_all Pager (pager_store others wait 0) node_from_slice depth root p = Ok l /\
    visible_rows t snap l = Ok (sorted_items (table_view t snap rows)).
Proof.
  intros (h & es & Ht & Hes) Hd.
  destruct (tree_reads Z.compare node_from_slice (lookup_find Z.compare) "B+Tree" depth p root h es foot) as (_ & Hscan & Hs); [done..|].
  exists (rows_of es). split; [done|].
  assert (Hin : forall e, e ∈ es <-> assoc_lookup Z.compare (key e) es = Some (value e)).
  { intros e. rewrite (assoc_lookup_elem es) by done. by destruct e. }
  rewrite (visible_rows_run t snap rows).
  2:{ intros e He%Hin. specialize (Hes (key e)). rewrite He in Hes. destruct (rows !! key e) as [vs|]; [by exists vs|done]. }
  f_equal. apply ascending_unique; [|apply sorted_items_ascending|].
  - clear -Hs. induction Hs as [|e es Hs IH He]; [constructor|]. cbn. destruct (table_view t snap rows !! key e) as [r|]; [|done].
    cbn. constructor; [done|]. apply Forall_forall. intros [k r'] Hin. apply list_elem_of_omap in Hin as (e' & He' & Hk).
    apply fmap_Some in Hk as (r2 & _ & [= -> ->]). rewrite Forall_forall in He. by apply Z.compare_lt_iff, (He e').
  - intros [k r]. rewrite elem_of_sorted_items, list_elem_of_omap. split.
    + intros (e & _ & Hk). apply fmap_Some in Hk as (r2 & Hr & [= -> ->]). done.
    + intros Hv. pose proof Hv as Hv'. unfold table_view in Hv'. rewrite lookup_omap in Hv'. specialize (Hes k).
      destruct (rows !! k) as [vs|]; [|done]. destruct (assoc_lookup Z.compare k es) as [b|] eqn:Eb; [|done].
      exists (mkLeafEntry k b). split; [by apply (assoc_lookup_elem es)|]. cbn [key]. by rewrite Hv.
Qed.

(** ** Running the parts of an operation *)

Implicit Types e : FileStorage SelectStatement.

Definition with_manager (m : TxnManager) (e : FileStorage SelectStatement) : FileStorage SelectStatement :=
  set_pager (set_txn_manager m (pager e)) e.

Lemma on_txns_run {A} (f : ST TxnManager A) e :
  on_txns f e = ((f (manager e)).1, with_manager (f (manager e)).2 e).
Proof. unfold on_txns, on_pager, on_manager, manager. by destruct (f (txn_manager (shared (pager e)))). Qed.

Lemma validate_txn_Ok t e : active (manager e) t -> validate_txn t e = Ok tt.
Proof. intros (txn & Hg & Ha). unfold validate_txn, TxnManager.get. rewrite Hg. cbn [ok_or]. apply is_active_true in Ha. by rewrite Ha. Qed.

Lemma wait_for_granted (request : ST TxnManager unit) m1 e :
  (0 < wait)%nat -> request (manager e) = (Ok tt, m1) -> wait_for others wait request e = (Ok tt, with_manager m1 e).
Proof.
  intros Hw Hr. destruct wait as [|fuel]; [lia|]. cbn [wait_for]. unfold st_catch. rewrite on_txns_run, Hr. done.
Qed.

(** The snapshot a statement of [t] reads through. *)
Definition snapshot_now (m : TxnManager) (t : TransactionId) (txn : TxnState) : TxnSnapshot :=
  match isolation_level txn with
  | ReadCommitted => mkTxnSnapshot (next_commit_ts m)
      (list_to_set (map (fun txn => id txn) (filter (fun txn => is_active txn && negb (id txn =? t)) (map snd (map_to_list (txns m))))))
  | _ => snapshot txn
  end.

Lemma snapshot_for_transaction_run t e txn :
  txns (manager e) !! t = Some txn ->
  exists m, snapshot_for_transaction t e = (Ok (snapshot_now (manager e) t txn), with_manager m e).
Proof.
  intros Ht. unfold snapshot_for_transaction, snapshot_now. rewrite st_bind_run. cbn [st_get fst snd].
  unfold get_isolation_level, get_snapshot, TxnManager.get. rewrite Ht. cbn [ok_or bind].
  assert (Hsame : with_manager (manager e) e = e) by by destruct e as [[[]]].
  destruct (isolation_level txn).
  - rewrite on_txns_run. unfold refresh_snapshot. rewrite st_bind_run. cbn [st_read fst snd].
    rewrite st_bind_run. unfold update_txn. rewrite st_bind_run. cbn [st_get fst snd]. unfold TxnManager.get. rewrite Ht.
    cbn [ok_or st_mod fst snd st_ret]. by eexists.
  - unfold st_get. cbn beta. unfold get_snapshot, TxnManager.get. rewrite Ht. exists (manager e). by rewrite Hsame.
  - unfold st_get. cbn beta. unfold get_snapshot, TxnManager.get. rewrite Ht. exists (manager e). by rewrite Hsame.
Qed.

(** A read of a table whose lock is granted: the snapshot, then the tree. *)
Lemma read_run {A} (request : ST TxnManager unit) e t table schema root m1 txn (absent : A)
    (body : PageId -> TxnSnapshot -> ST (FileStorage SelectStatement) A) :
  (0 < wait)%nat -> active (manager e) t -> request (manager e) = (Ok tt, m1) -> txns m1 !! t = Some txn ->
  table_schema_and_root (catalog e) table = Ok (schema, root) ->
  exists m2,
    (st_get (validate_txn t) ;;! wait_for others wait request ;;!
     with_table table absent (fun root => let! snap := snapshot_for_transaction t in body root snap)) e =
    body root (snapshot_now m1 t txn) (with_manager m2 e).
Proof.
  intros Hw Ha Hr Ht Htab. rewrite st_bind_run. cbn [st_get fst snd]. rewrite validate_txn_Ok by done.
  rewrite st_bind_run. rewrite (wait_for_granted request m1) by done. cbn [fst snd]. unfold with_table.
  rewrite st_bind_run. cbn [st_read fst snd]. change (catalog (with_manager m1 e)) with (catalog e). rewrite Htab.
  rewrite st_bind_run. destruct (snapshot_for_transaction_run t (with_manager m1 e) txn Ht) as [m2 Hm]. rewrite Hm. cbn [fst snd].
  by exists m2.
Qed.

Lemma stores_with_manager p m root rows foot : stores p root rows foot -> stores (set_txn_manager m p) root rows foot.
Proof. done. Qed.
End Reads.

(** ** Theorems *)

Section Claims.
Context {SelectStatement : Type} `{Codecs SelectStatement}.
Context (others : Shared -> Shared) (wait depth : nat).

(** C17: what a statement reads. Let a table's tree store a map of row versions and let the
    transaction be active. When its lock request is granted at once, [get_row] returns the
    row its snapshot shows under the id (none if there is none), and [scan_rows] exactly
    the rows its snapshot shows, in ascending order of their ids; nothing but the
    transaction manager changes. The snapshot is the transaction's own, or, under read
    committed, one taken after the lock was granted. *)
Theorem reads_follow_snapshot (e : FileStorage SelectStatement) (t : TransactionId) (table : string) (schema : Schema SelectStatement)
    (root : PageId) (rows : Table) (foot : gset PageId) :
  (0 < wait)%nat -> active (manager e) t -> table_schema_and_root (catalog e) table = Ok (schema, root) ->
  stores (pager e) root rows foot -> (size foot < depth)%nat ->
  (forall m1 txn id, acquire_table_intention_read t table (manager e) = (Ok tt, m1) -> txns m1 !! t = Some txn ->
     exists m2, get_row others wait depth t table id e =
                (Ok (table_view t (snapshot_now m1 t txn) rows !! id), with_manager m2 e)) /\
  (forall m1 txn, acquire_table_read_lock t table (manager e) = (Ok tt, m1) -> txns m1 !! t = Some txn ->
     exists m2, scan_rows others wait depth t table e =
                (Ok (sorted_items (table_view t (snapshot_now m1 t txn) rows)), with_manager m2 e)).
Proof.
  intros Hw Ha Htab Hst Hd. split.
  - intros m1 txn id Hr Ht. set (snap := snapshot_now m1 t txn).
    destruct (read_run others wait _ e t table schema root m1 txn None
      (fun root snap => let! b := table_get others wait depth root id in st_get (fun _ => visible_bytes t snap b)) Hw Ha Hr Ht Htab) as [m2 Hrun].
    exists m2. unfold get_row, wait_for_table_read_lock. rewrite Hrun. rewrite st_bind_run. unfold table_get. cbn [st_get fst snd].
    destruct (stores_get others wait depth _ _ _ _ t snap id (stores_with_manager _ m2 _ _ _ Hst) Hd) as (b & Hb & Hv).
    change (pager (with_manager m2 e)) with (set_txn_manager m2 (pager e)). rewrite Hb. unfold st_get. fold snap. by rewrite Hv.
  - intros m1 txn Hr Ht. set (snap := snapshot_now m1 t txn).
    destruct (read_run others wait _ e t table schema root m1 txn []
      (fun root snap => let! rows := table_scan others wait depth root in st_get (fun _ => visible_rows t snap rows)) Hw Ha Hr Ht Htab) as [m2 Hrun].
    exists m2. unfold scan_rows, wait_for_table_scan_lock. rewrite Hrun. rewrite st_bind_run. unfold table_scan. cbn [st_get fst snd].
    destruct (stores_scan others wait depth _ _ _ _ t snap (stores_with_manager _ m2 _ _ _ Hst) Hd) as (l & Hl & Hv).
    change (pager (with_manager m2 e)) with (set_txn_manager m2 (pager e)). rewrite Hl. unfold st_get. fold snap. by rewrite Hv.
Qed.
End Claims.

(** ** A handle with one table *)

(** Codecs under which the byte string [[9]] is the stored form of [sample_row]. *)
Definition short_row_to_vec (s : StoredRow) : Result bytes :=
  match s with
  | Versioned versioned => if bool_decide (versions versioned = sample_row) then Ok [9] else sample_to_vec s
  | Legacy _ => sample_to_vec s
  end.
Definition short_row_from_slice (b : bytes) : Result StoredRow :=
  if bool_decide (b = [9]) then Ok (Versioned (mkVersionedRow sample_row)) else sample_from_slice b.

Definition sample_codecs : Codecs unit := {|
  row_to_vec := short_row_to_vec;
  row_from_slice := short_row_from_slice;
  node_to_vec := sample_node_to_vec;
  node_from_slice := sample_node_from_slice;
  index_node_to_vec := sample_node_to_vec;
  index_node_from_slice := sample_node_from_slice;
  catalog_to_vec := fun _ => Ok [1];
  catalog_from_slice := fun _ => Ok catalog_default;
  key_to_vec := fun key => Ok (bits_of (encode key));
  key_from_slice := fun b => ok_or (decode (of_bits b)) (Serde "invalid key");
  row_ids_to_vec := fun ids => Ok (bits_of (encode ids));
  row_ids_from_slice := fun b => ok_or (decode (of_bits b)) (Serde "invalid row ids")
|}.

Definition sample_table : Schema unit := mkSchema unit "t" [] ObjTable None None None [] [] None [] [] false false.
Definition sample_catalog : CatalogState unit := mkCatalogState unit {[ "t" := sample_table ]} {[ "t" := 2 ]} ∅ ∅ ∅.
Definition sample_storage : FileStorage unit := mkFileStorage unit tree_pager sample_catalog ∅.
Definition sample_rows : Table := {[ 5 := sample_row ]}.

Lemma sample_stores : @stores unit sample_codecs (pager sample_storage) 2 sample_rows {[ 2 ]}.
Proof.
  exists 0%nat, sample_entries. split; [apply tree_pager_tree|]. intros k. unfold sample_entries. rewrite assoc_lookup_cons. cbn [key value].
  unfold sample_rows. destruct (Z.compare_spec 5 k) as [<-|Hlt|Hlt].
  - rewrite lookup_singleton_eq. split; [reflexivity|]. by repeat constructor.
  - rewrite lookup_singleton_ne by lia. done.
  - rewrite lookup_singleton_ne by lia. done.
Qed.

Lemma sample_active : active (manager sample_storage) 3.
Proof. eexists. split; reflexivity. Qed.

Lemma reads_follow_snapshot_witness :
  (forall m1 txn id, acquire_table_intention_read 3 "t" (manager sample_storage) = (Ok tt, m1) -> txns m1 !! 3 = Some txn ->
     exists m2, @get_row unit sample_codecs (fun sh => sh) 1 2 3 "t" id sample_storage =
                (Ok (table_view 3 (snapshot_now m1 3 txn) sample_rows !! id), with_manager m2 sample_storage)) /\
  (forall m1 txn, acquire_table_read_lock 3 "t" (manager sample_storage) = (Ok tt, m1) -> txns m1 !! 3 = Some txn ->
     exists m2, @scan_rows unit sample_codecs (fun sh => sh) 1 2 3 "t" sample_storage =
                (Ok (sorted_items (table_view 3 (snapshot_now m1 3 txn) sample_rows)), with_manager m2 sample_storage)).
Proof.
  apply (@reads_follow_snapshot unit sample_codecs (fun sh => sh) 1 2 sample_storage 3 "t" sample_table 2 sample_rows {[ 2 ]}).
  - apply Nat.lt_0_1.
  - apply sample_active.
  - reflexivity.
  - apply sample_stores.
  - rewrite size_singleton. lia.
Defined.

Example sample_read : (@get_row unit sample_codecs (fun sh => sh) 1 2 3 "t" 5 sample_storage).1 = Ok (Some [Integer 1; Text "a"]).
Proof. vm_compute. reflexivity. Qed.

(** * What a transaction writes to a table

    Finalization at commit and deletion of a row, on the contents of tables: while no
    other transaction holds or waits for pages, they change exactly the versions they
    should, in place. *)


Section Writes.
Context {SelectStatement : Type} `{Codecs SelectStatement}.
Context (others : Shared -> Shared) (wait depth : nat) (t : TransactionId).
Abbreviation FileStorage := (FileStorage SelectStatement).
Implicit Types e : FileStorage.

(** The transaction can write through the handle. *)
Definition ready e : Prop := pager_ready t (pager e).

(** An operation on the pager, as one of the engine. *)
Lemma on_pager_outcome {A} (m : ST Pager A) e (Q : A -> Pager -> Prop) (R : A -> FileStorage -> Prop) :
  outcome (pager_ready t) (m (pager e)) Q -> (forall a p, Q a p -> R a (set_pager p e)) -> outcome ready (on_pager m e) R.
Proof. unfold outcome, on_pager, ready. destruct (m (pager e)) as [[] p]; cbn; auto. Qed.

(** ** Overwriting and deleting a row of a stored table *)

Context (node_json : forall node, exists payload, node_to_vec node = Ok payload /\ node_from_slice payload = Ok node).
Context (Hwait : (0 < wait)%nat).

(** Pages outside [foot] read as before. *)
Definition frame (foot : gset PageId) (p p' : Pager) : Prop := forall q, q ∉ foot -> read_page p' q = read_page p q.

Lemma stores_frame p p' root rows foot foot' :
  frame foot' p p' -> foot ## foot' -> stores p root rows foot -> stores p' root rows foot.
Proof.
  intros Hf Hd (h & es & [first Ht] & Hes). exists h, es. split; [|done]. exists first.
  eapply (tree_frame_in Z.compare); [|exact Ht]. intros q Hq. apply Hf. set_solver.
Qed.

Lemma stores_readable p root rows foot q : stores p root rows foot -> q ∈ foot -> is_ok (read_page p q) = true.
Proof. intros (h & es & [first Ht] & _) Hq. by eapply (@tree_readable Pager (pager_store (fun sh => sh) 0 0)). Qed.

Lemma table_insert_overwrites e root rows foot id vs0 vs b :
  ready e -> stores (pager e) root rows foot -> (size foot < depth)%nat -> rows !! id = Some vs0 -> row_holds row_from_slice b vs ->
  outcome ready (table_insert others wait depth t root id b e) (fun root' e' =>
    root' = root /\ ready e' /\ stores (pager e') root (<[id := vs]> rows) foot /\ frame foot (pager e) (pager e') /\
    e' = set_pager (pager e') e).
Proof.
  intros Hr (h & es & Ht & Hes) Hd Hid Hb. pose proof (pager_store_laws others wait t Hwait) as Hlaws.
  assert (Hin : is_Some (assoc_lookup Z.compare id es)).
  { specialize (Hes id). rewrite Hid in Hes. by destruct (assoc_lookup Z.compare id es). }
  assert (Hh : (h < depth)%nat).
  { destruct Ht as [first Ht]. pose proof (tree_height Z.compare node_from_slice _ _ _ _ _ _ _ _ _ Ht). lia. }
  assert (Hs : sorted_entries Z.compare es).
  { destruct Ht as [first Ht]. by eapply (tree_orderly Z.compare (nodes node_from_slice (pager e)) h). }
  unfold table_insert. eapply on_pager_outcome.
  { apply (@tree_overwrite_outcome Pager (pager_store others wait t) (pager_ready t) pager_room Hlaws Z Z.compare _
      node_to_vec node_from_slice node_json (pager e) root h es foot depth id b); done. }
  intros root' p' (-> & Ht' & Hr' & _ & _ & _ & Hold). split; [done|]. split; [done|]. split; [|done].
  exists h, (assoc_insert Z.compare id b es). split; [done|]. intros k. rewrite (assoc_lookup_insert Z.compare) by exact Hs.
  destruct (k ?= id) eqn:E.
  - apply Z.compare_eq in E. subst k. by rewrite lookup_insert_eq.
  - rewrite lookup_insert_ne; [apply Hes|]. intros ->. by rewrite Z.compare_refl in E.
  - rewrite lookup_insert_ne; [apply Hes|]. intros ->. by rewrite Z.compare_refl in E.
Qed.

(** ** Finalizing the rows of a table *)

Context (Hjson : json_roundtrip row_to_vec row_from_slice) (commit_ts : Z).
Abbreviation finalized := (map (finalize_version t commit_ts)).

Lemma row_holds_inj b vs vs' : row_holds row_from_slice b vs -> row_holds row_from_slice b vs' -> vs = vs'.
Proof. intros [H1 _] [H2 _]. congruence. Qed.

Lemma stores_same p root rows foot id vs b :
  stores p root rows foot -> rows !! id = Some vs -> row_holds row_from_slice b vs -> vs = finalized vs ->
  stores p root (<[id := finalized vs]> rows) foot.
Proof. intros Hst Hid _ Heq. rewrite <- Heq, insert_id; done. Qed.

Lemma finalize_rows_outcome root foot l : forall e rows,
  ready e -> stores (pager e) root rows foot -> (size foot < depth)%nat -> NoDup (map fst l) ->
  (forall id b, (id, b) ∈ l -> exists vs, rows !! id = Some vs /\ row_holds row_from_slice b vs) ->
  outcome ready (finalize_rows others wait depth t commit_ts root l e) (fun _ e' =>
    ready e' /\ frame foot (pager e) (pager e') /\ e' = set_pager (pager e') e /\
    exists rows', stores (pager e') root rows' foot /\
      forall id, rows' !! id = if bool_decide (id ∈ map fst l) then finalized <$> rows !! id else rows !! id).
Proof.
  induction l as [|[id b] l IH]; intros e rows Hr Hst Hd Hnd Hl; cbn [finalize_rows].
  - apply outcome_ret. split; [done|]. split; [done|]. split; [by destruct e|]. exists rows. split; [done|]. intros id.
    by rewrite bool_decide_false by apply not_elem_of_nil.
  - apply NoDup_cons in Hnd as [Hn Hnd]. change (id ∉ map fst l) in Hn. change (NoDup (map fst l)) in Hnd.
    destruct (Hl id b) as (vs & Hid & Hb); [by left|].
    destruct (row_holds_finalize _ _ Hjson b vs t commit_ts Hb) as (b' & Hf & Hb').
    assert (Hl' : forall id0 b0, (id0, b0) ∈ l -> exists vs0, <[id := finalized vs]> rows !! id0 = Some vs0 /\ row_holds row_from_slice b0 vs0).
    { intros id0 b0 Hin. destruct (Hl id0 b0) as (vs0 & H1 & H2); [by right|]. exists vs0. split; [|done].
      rewrite lookup_insert_ne; [done|]. intros <-. apply Hn. exact (list_elem_of_fmap_2 fst l _ Hin). }
    assert (Hfinal : forall rows' : Table,
      (forall id0, rows' !! id0 = if bool_decide (id0 ∈ map fst l) then finalized <$> <[id := finalized vs]> rows !! id0
                                  else <[id := finalized vs]> rows !! id0) ->
      forall id0, rows' !! id0 = if bool_decide (id0 ∈ map fst ((id, b) :: l)) then finalized <$> rows !! id0 else rows !! id0).
    { intros rows' H' id0. rewrite H'. cbn [map fst]. destruct (decide (id0 = id)) as [->|Hne].
      - rewrite (bool_decide_false _ Hn), bool_decide_true by (by left). by rewrite lookup_insert_eq, Hid.
      - rewrite lookup_insert_ne by done. erewrite (bool_decide_ext (id0 ∈ id :: _)); [done|]. set_solver. }
    eapply outcome_get; [exact Hf|]. case_bool_decide as Heq.
    + subst b'. pose proof (row_holds_inj _ _ _ Hb Hb') as Hsame.
      eapply outcome_weaken; [apply (IH e (<[id := finalized vs]> rows)); [done|by eapply stores_same|done..]|].
      intros _ e' (Hr' & Hfr & He & rows' & Hst' & Hrows). split_and!; [done..|]. exists rows'. split; [done|]. by apply Hfinal.
    + eapply outcome_bind; [by apply (table_insert_overwrites e root rows foot id vs (finalized vs) b')|].
      intros root' e1 (-> & Hr1 & Hst1 & Hfr1 & He1).
      eapply outcome_weaken; [apply (IH e1 (<[id := finalized vs]> rows)); done|].
      intros _ e' (Hr' & Hfr & He & rows' & Hst' & Hrows). split; [done|]. split; [intros q Hq; by rewrite Hfr, Hfr1|].
      split; [rewrite He, He1; by destruct e|]. exists rows'. split; [done|]. by apply Hfinal.
Qed.

(** What a scan of a stored table returns. *)
Lemma stores_entries p root rows foot :
  stores p root rows foot -> (size foot < depth)%nat ->
  exists l, @BTree.scan_all Pager (pager_store others wait 0) node_from_slice depth root p = Ok l /\ NoDup (map fst l) /\
    (forall id b, (id, b) ∈ l -> exists vs, rows !! id = Some vs /\ row_holds row_from_slice b vs) /\
    (forall id vs, rows !! id = Some vs -> id ∈ map fst l).
Proof.
  intros (h & es & Ht & Hes) Hd.
  destruct (@tree_reads Pager (pager_store others wait 0) Z Z.compare Z_cmp_laws node_from_slice (lookup_find Z.compare) "B+Tree" depth p root h es foot)
    as (_ & Hscan & Hs); [done..|]. exists (rows_of es). split; [done|].
  assert (Hin : forall id b, (id, b) ∈ rows_of es <-> assoc_lookup Z.compare id es = Some b).
  { intros id b. rewrite (assoc_lookup_elem es) by done. unfold rows_of. rewrite list_elem_of_fmap. split.
    - by intros ([k v] & [= -> ->] & Hin).
    - intros Hin. by exists (mkLeafEntry id b). }
  split_and!.
  - unfold rows_of. rewrite map_map. clear -Hs. induction Hs as [|e es Hs IH He]; [constructor|]. cbn [map fst]. constructor; [|done].
    intros (e' & Heq & Hin)%list_elem_of_fmap. cbn in Heq. rewrite Forall_forall in He. specialize (He e' Hin). unfold klt in He. rewrite Heq, Z.compare_refl in He. done.
  - intros id b Hl%Hin. specialize (Hes id). rewrite Hl in Hes. destruct (rows !! id) as [vs|]; [by exists vs|done].
  - intros id vs Hid. specialize (Hes id). rewrite Hid in Hes. destruct (assoc_lookup Z.compare id es) as [b|] eqn:Eb; [|done].
    exact (list_elem_of_fmap_2 fst _ (id, b) (proj2 (Hin id b) Eb)).
Qed.

(** ** All tables of a catalog *)

(** The tables under [roots] are stored, each on pages of its own. *)
Definition database (p : Pager) (roots : gmap string PageId) (tables : gmap string Table) (feet : gmap string (gset PageId)) : Prop :=
  (forall name root, roots !! name = Some root -> exists rows foot,
     tables !! name = Some rows /\ feet !! name = Some foot /\ stores p root rows foot /\ (size foot < depth)%nat) /\
  (forall n1 n2 f1 f2, n1 <> n2 -> feet !! n1 = Some f1 -> feet !! n2 = Some f2 -> f1 ## f2).

Definition finalize_table (rows : Table) : Table := finalized <$> rows.

Lemma finalize_table_outcome e root rows foot :
  ready e -> stores (pager e) root rows foot -> (size foot < depth)%nat ->
  outcome ready ((let! l := table_scan others wait depth root in finalize_rows others wait depth t commit_ts root l) e) (fun _ e' =>
    ready e' /\ frame foot (pager e) (pager e') /\ e' = set_pager (pager e') e /\ stores (pager e') root (finalize_table rows) foot).
Proof.
  intros Hr Hst Hd. destruct (stores_entries _ _ _ _ Hst Hd) as (l & Hscan & Hnd & Hl & Hall).
  unfold table_scan. eapply outcome_get; [exact Hscan|].
  eapply outcome_weaken; [by apply (finalize_rows_outcome root foot l e rows)|].
  intros _ e' (Hr' & Hfr & He & rows' & Hst' & Hrows). split_and!; [done..|].
  replace (finalize_table rows) with rows'; [done|]. apply map_eq. intros id. rewrite Hrows. unfold finalize_table. rewrite lookup_fmap.
  case_bool_decide as Hid; [done|]. destruct (rows !! id) as [vs|] eqn:E; [|done]. by apply Hall in E.
Qed.

Lemma database_frame p p' roots tables feet name rows rows' root foot :
  database p roots tables feet -> roots !! name = Some root -> tables !! name = Some rows -> feet !! name = Some foot ->
  frame foot p p' -> stores p' root rows' foot -> database p' roots (<[name := rows']> tables) feet.
Proof.
  intros [Hdb Hdis] Hroot Hrows Hfoot Hfr Hst. split; [|done]. intros name2 root2 Hr2.
  destruct (decide (name2 = name)) as [->|Hne].
  - destruct (Hdb name root2 Hr2) as (rows2 & foot2 & H1 & H2 & H3 & H4). assert (foot2 = foot) as -> by congruence.
    assert (root2 = root) as -> by congruence. exists rows', foot. by rewrite lookup_insert_eq.
  - destruct (Hdb name2 root2 Hr2) as (rows2 & foot2 & H1 & H2 & H3 & H4). exists rows2, foot2. rewrite lookup_insert_ne by done.
    split_and!; [done..| |done]. eapply stores_frame; [exact Hfr| |done]. by eapply Hdis; [|exact H2|exact Hfoot].
Qed.

Definition outside (feet : gmap string (gset PageId)) (p p' : Pager) : Prop :=
  forall q, (forall name foot, feet !! name = Some foot -> q ∉ foot) -> read_page p' q = read_page p q.

Lemma finalize_tables_outcome feet (l : list (string * PageId)) : forall e tables,
  ready e -> database (pager e) (table_roots (catalog e)) tables feet -> NoDup (map fst l) ->
  (forall name root, (name, root) ∈ l -> table_roots (catalog e) !! name = Some root) ->
  outcome ready (st_each (fun root => let! rows := table_scan others wait depth root in finalize_rows others wait depth t commit_ts root rows) (map snd l) e)
    (fun _ e' => ready e' /\ outside feet (pager e) (pager e') /\ e' = set_pager (pager e') e /\
       exists tables', database (pager e') (table_roots (catalog e)) tables' feet /\
         forall name, tables' !! name = if bool_decide (name ∈ map fst l) then finalize_table <$> tables !! name else tables !! name).
Proof.
  induction l as [|[name root] l IH]; intros e tables Hr Hdb Hnd Hl; cbn [map snd st_each].
  - apply outcome_ret. split_and!; [done|done|by destruct e|]. exists tables. split; [done|]. intros name.
    by rewrite bool_decide_false by apply not_elem_of_nil.
  - apply NoDup_cons in Hnd as [Hn Hnd]. change (name ∉ map fst l) in Hn. change (NoDup (map fst l)) in Hnd.
    assert (Hroot : table_roots (catalog e) !! name = Some root) by (apply Hl; by left).
    destruct (proj1 Hdb name root Hroot) as (rows & foot & Hrows & Hfoot & Hst & Hd).
    eapply outcome_bind; [by eapply finalize_table_outcome|]. intros _ e1 (Hr1 & Hfr1 & He1 & Hst1).
    assert (Hc1 : catalog e1 = catalog e) by (rewrite He1; done).
    pose proof (database_frame _ _ _ _ _ _ _ _ _ _ Hdb Hroot Hrows Hfoot Hfr1 Hst1) as Hdb1.
    eapply outcome_weaken; [apply (IH e1 (<[name := finalize_table rows]> tables)); rewrite ?Hc1; try done|].
    { intros name2 root2 Hin. apply Hl. by right. }
    intros _ e' (Hr' & Hout & He & tables' & Hdb' & Htab). split; [done|]. split.
    { intros q Hq. rewrite Hout by done. apply Hfr1. by apply (Hq name). }
    split; [rewrite He, He1; by destruct e|]. rewrite Hc1 in Hdb'. exists tables'. split; [done|]. intros name2. rewrite Htab. cbn [map fst].
    destruct (decide (name2 = name)) as [->|Hne].
    + rewrite (bool_decide_false _ Hn), bool_decide_true by (by left). by rewrite lookup_insert_eq, Hrows.
    + rewrite lookup_insert_ne by done. erewrite (bool_decide_ext (name2 ∈ name :: _)); [done|]. set_solver.
Qed.

Lemma finalize_outcome e tables feet :
  ready e -> database (pager e) (table_roots (catalog e)) tables feet -> dom tables ⊆ dom (table_roots (catalog e)) ->
  outcome ready (finalize_transaction_row_versions others wait depth t commit_ts e) (fun _ e' =>
    ready e' /\ outside feet (pager e) (pager e') /\ e' = set_pager (pager e') e /\
    database (pager e') (table_roots (catalog e)) (finalize_table <$> tables) feet).
Proof.
  intros Hr Hdb Hdom. unfold finalize_transaction_row_versions.
  eapply outcome_bind; [apply (outcome_ret ready _ _ (fun roots e' => roots = map snd (sorted_by_name (table_roots (catalog e))) /\ e' = e)); done|].
  intros roots e0 [-> ->].
  eapply outcome_weaken; [apply (finalize_tables_outcome feet (sorted_by_name (table_roots (catalog e))) e tables); try done|].
  - apply sorted_by_name_NoDup.
  - intros name root. apply sorted_by_name_elem.
  - intros _ e' (Hr' & Hout & He & tables' & Hdb' & Htab). split_and!; [done..|].
    replace (finalize_table <$> tables) with tables'; [done|]. apply map_eq. intros name. rewrite Htab, lookup_fmap.
    case_bool_decide as Hin; [done|]. destruct (tables !! name) as [rows|] eqn:E; [|done]. exfalso. apply Hin.
    assert (Hn : name ∈ dom (table_roots (catalog e))) by (apply Hdom, elem_of_dom; by eexists).
    apply elem_of_dom in Hn as [root Hroot]. apply sorted_by_name_elem in Hroot. exact (list_elem_of_fmap_2 fst _ _ Hroot).
Qed.
End Writes.

(** ** Who sees a commit *)

(** The transaction [t] has not committed: none of its stamps on [v] is final. *)
Definition open_version (t : TransactionId) (v : RowVersion) : Prop :=
  (created_by_txn v = t -> created_commit_ts v = None) /\ (deleted_by_txn v = Some t -> deleted_commit_ts v = None).

(** The reader [u] has changed nothing here. *)
Definition untouched (u : TransactionId) (v : RowVersion) : Prop := created_by_txn v <> u /\ deleted_by_txn v <> Some u.

(** The final stamps as the code computes them. *)
Lemma finalize_version_fields t ts r c cts d dts :
  finalize_version t ts (mkRowVersion r c cts d dts) =
  mkRowVersion r c (if (c =? t) && bool_decide (cts = None) then Some ts else cts) d
    (if bool_decide (d = Some t) && bool_decide (dts = None) then Some ts else dts).
Proof.
  unfold finalize_version. cbn [created_by_txn created_commit_ts]. destruct ((c =? t) && bool_decide (cts = None));
    unfold with_created_commit_ts; cbn [row deleted_by_txn deleted_commit_ts created_by_txn];
    by destruct (bool_decide (d = Some t) && bool_decide (dts = None)).
Qed.

(** A deletion stamp that hides the version. *)
Definition hides (u : TransactionId) (snap : TxnSnapshot) (d : option TransactionId) (dts : option Z) : bool :=
  match d with
  | Some d => (d =? u) || match dts with Some ts => includes snap d ts | None => false end
  | None => false
  end.

Lemma version_visible_fields u snap r c cts d dts :
  version_visible u snap (mkRowVersion r c cts d dts) =
  version_visible_to_snapshot c cts u snap && negb (hides u snap d dts).
Proof.
  unfold version_visible, deletion_visible, hides. cbn [created_by_txn created_commit_ts deleted_by_txn deleted_commit_ts].
  destruct (version_visible_to_snapshot c cts u snap); [|done]. cbn [negb andb]. destruct d as [d|]; [|done].
  destruct (Z.eqb_spec d u) as [->|Hne]; [by rewrite bool_decide_true|]. rewrite bool_decide_false by congruence. by destruct dts.
Qed.

Lemma created_stamp t ts u snap c cts :
  version_visible_to_snapshot c (if (c =? t) && bool_decide (cts = None) then Some ts else cts) u snap =
  if (c =? t) && bool_decide (cts = None) then includes snap t ts else version_visible_to_snapshot c cts u snap.
Proof. destruct (Z.eqb_spec c t) as [->|]; [|done]. by destruct (bool_decide (cts = None)). Qed.

Lemma deleted_stamp t ts u snap d dts :
  hides u snap d (if bool_decide (d = Some t) && bool_decide (dts = None) then Some ts else dts) =
  if bool_decide (d = Some t) && bool_decide (dts = None) then (t =? u) || includes snap t ts else hides u snap d dts.
Proof. case_bool_decide as Hd; [subst d|done]. by destruct (bool_decide (dts = None)). Qed.

Lemma finalize_hidden t ts u snap v :
  u <> t -> includes snap t ts = false -> version_visible u snap (finalize_version t ts v) = version_visible u snap v.
Proof.
  intros Hu Hi. destruct v as [r c cts d dts]. rewrite finalize_version_fields, !version_visible_fields, created_stamp, deleted_stamp, Hi.
  f_equal; [|f_equal].
  - destruct (Z.eqb_spec c t) as [->|]; [|done]. cbn. case_bool_decide; [subst cts|done]. cbn. by destruct (Z.eqb_spec t u).
  - case_bool_decide; [subst d|done]. cbn. case_bool_decide; [by subst dts|done].
Qed.

Lemma finalize_included t ts u snap v :
  u <> t -> includes snap t ts = true -> open_version t v -> untouched u v ->
  version_visible u snap (finalize_version t ts v) = version_visible t snap v.
Proof.
  intros Hu Hi. destruct v as [r c cts d dts]. unfold open_version, untouched. rewrite finalize_version_fields, !version_visible_fields.
  cbn [created_by_txn created_commit_ts deleted_by_txn deleted_commit_ts]. intros [Ho1 Ho2] [Hc Hd].
  rewrite created_stamp, deleted_stamp, Hi. f_equal; [|f_equal].
  - destruct (Z.eqb_spec c t) as [->|Hne]; cbn [andb].
    + rewrite Ho1 by done. cbn. by rewrite Z.eqb_refl.
    + destruct cts; [done|]. cbn. destruct (Z.eqb_spec c u), (Z.eqb_spec c t); done.
  - case_bool_decide as E; [subst d|]; cbn [andb].
    + rewrite Ho2 by done. cbn. by rewrite Z.eqb_refl, orb_true_r.
    + destruct d as [d|]; [|done]. cbn. destruct (Z.eqb_spec d u), (Z.eqb_spec d t); congruence || done.
Qed.

Lemma visible_loop_map f u snap u' snap' vs :
  (forall v, v ∈ vs -> version_visible u snap (f v) = version_visible u' snap' v) -> (forall v, row (f v) = row v) ->
  visible_loop u snap (map f vs) = visible_loop u' snap' vs.
Proof.
  intros Hv Hr. induction vs as [|v vs IH]; [done|]. cbn [map visible_loop]. rewrite Hv by (by left). rewrite Hr.
  rewrite IH; [done|]. intros v' Hin. apply Hv. by right.
Qed.

Lemma row_finalize t ts v : row (finalize_version t ts v) = row v.
Proof. destruct v. by rewrite finalize_version_fields. Qed.

Lemma view_hidden t ts u snap rows :
  u <> t -> includes snap t ts = false -> table_view u snap (finalize_table t ts rows) = table_view u snap rows.
Proof.
  intros Hu Hi. apply map_eq. intros id. unfold table_view, finalize_table. rewrite !lookup_omap, lookup_fmap.
  destruct (rows !! id) as [vs|]; [|done]. cbn. apply visible_loop_map; [|apply row_finalize]. intros v _. by apply finalize_hidden.
Qed.

Lemma view_included t ts u snap rows :
  u <> t -> includes snap t ts = true ->
  (forall id vs v, rows !! id = Some vs -> v ∈ vs -> open_version t v /\ untouched u v) ->
  table_view u snap (finalize_table t ts rows) = table_view t snap rows.
Proof.
  intros Hu Hi Hv. apply map_eq. intros id. unfold table_view, finalize_table. rewrite !lookup_omap, lookup_fmap.
  destruct (rows !! id) as [vs|] eqn:E; [|done]. cbn. apply visible_loop_map; [|apply row_finalize]. intros v Hin.
  destruct (Hv id vs v E Hin). by apply finalize_included.
Qed.

(** ** Theorems *)

Section Claims.
Context {SelectStatement : Type} `{Codecs SelectStatement}.
Context (others : Shared -> Shared) (wait depth : nat).

(** C16: finalizing a transaction. Let every table of the catalog be stored, each on pages of
    its own, and let the transaction be able to write. Then
    [finalize_transaction_row_versions] ends; it fails only when a node does not fit its
    page. Otherwise each table, still under the same root and on the same pages, holds the
    same rows with the transaction's stamps made final, and no other page and no other part
    of the handle changes. A reader whose snapshot does not contain the commit sees every
    table as before; a reader whose snapshot contains it, and who has not changed the table
    itself, sees what the transaction would have seen through that snapshot. *)
Theorem finalize_publishes (e : FileStorage SelectStatement) (t : TransactionId) (ts : Z) (tables : gmap string Table)
    (feet : gmap string (gset PageId)) :
  (forall node, exists payload, node_to_vec node = Ok payload /\ node_from_slice payload = Ok node) ->
  json_roundtrip row_to_vec row_from_slice -> (0 < wait)%nat -> ready t e ->
  database depth (pager e) (table_roots (catalog e)) tables feet -> dom tables ⊆ dom (table_roots (catalog e)) ->
  outcome (ready t) (finalize_transaction_row_versions others wait depth t ts e) (fun _ e' =>
    ready t e' /\ outside feet (pager e) (pager e') /\ e' = set_pager (pager e') e /\
    database depth (pager e') (table_roots (catalog e)) (finalize_table t ts <$> tables) feet) /\
  forall name rows u snap, tables !! name = Some rows -> u <> t ->
    (includes snap t ts = false -> table_view u snap (finalize_table t ts rows) = table_view u snap rows) /\
    (includes snap t ts = true -> (forall id vs v, rows !! id = Some vs -> v ∈ vs -> open_version t v /\ untouched u v) ->
     table_view u snap (finalize_table t ts rows) = table_view t snap rows).
Proof.
  intros Hnode Hjson Hw Hr Hdb Hdom. split; [by apply finalize_outcome|].
  intros name rows u snap _ Hu. split; [by apply view_hidden|by apply view_included].
Qed.
End Claims.

(** ** The handle with one table *)

Lemma bits_of_not_nine p : bits_of p <> [9].
Proof. by destruct p as [p|p|]. Qed.

Lemma short_json : json_roundtrip short_row_to_vec short_row_from_slice.
Proof.
  assert (Hs : forall s, exists b, sample_to_vec s = Ok b /\ short_row_from_slice b = Ok s).
  { intros s. unfold sample_to_vec. eexists. split; [reflexivity|]. unfold short_row_from_slice.
    rewrite bool_decide_false by apply bits_of_not_nine. unfold sample_from_slice. by rewrite of_bits_of, decode_encode. }
  intros [r|[vs]] _; [apply Hs|]. cbn [short_row_to_vec versions]. case_bool_decide as E; [|apply Hs].
  subst vs. exists [9]. split; [done|]. unfold short_row_from_slice. by rewrite bool_decide_true.
Qed.

Lemma sample_database :
  @database unit sample_codecs 2 (pager sample_storage) (table_roots (catalog sample_storage)) {[ "t" := sample_rows ]} {[ "t" := {[ 2 ]} ]}.
Proof.
  split.
  - intros name root Hroot. change (({[ "t" := 2 ]} : gmap string PageId) !! name = Some root) in Hroot.
    apply lookup_singleton_Some in Hroot as [<- <-]. exists sample_rows, {[ 2 ]}. rewrite !lookup_singleton_eq.
    split_and!; [done..|apply sample_stores|rewrite size_singleton; lia].
  - intros n1 n2 f1 f2 Hne (<- & _)%lookup_singleton_Some (<- & _)%lookup_singleton_Some. done.
Qed.

Lemma finalize_publishes_witness :
  outcome (ready 3) (@finalize_transaction_row_versions unit sample_codecs (fun sh => sh) 1 2 3 7 sample_storage) (fun _ e' =>
    ready 3 e' /\ outside {[ "t" := {[ 2 ]} ]} (pager sample_storage) (pager e') /\ e' = set_pager (pager e') sample_storage /\
    @database unit sample_codecs 2 (pager e') (table_roots (catalog sample_storage)) (finalize_table 3 7 <$> {[ "t" := sample_rows ]})
      {[ "t" := {[ 2 ]} ]}) /\
  forall name rows u snap, ({[ "t" := sample_rows ]} : gmap string Table) !! name = Some rows -> u <> 3 ->
    (includes snap 3 7 = false -> table_view u snap (finalize_table 3 7 rows) = table_view u snap rows) /\
    (includes snap 3 7 = true -> (forall id vs v, rows !! id = Some vs -> v ∈ vs -> open_version 3 v /\ untouched u v) ->
     table_view u snap (finalize_table 3 7 rows) = table_view 3 snap rows).
Proof.
  apply (@finalize_publishes unit sample_codecs (fun sh => sh) 1 2 sample_storage 3 7 {[ "t" := sample_rows ]} {[ "t" := {[ 2 ]} ]}).
  - apply sample_node_json.
  - apply short_json.
  - apply Nat.lt_0_1.
  - apply tree_pager_ready.
  - apply sample_database.
  - reflexivity.
Defined.
