(* ===== verification/V2RowLaws.v ===== *)
(** * What writing a row does to its table

    [insert_row], [update_row] and [delete_row] against an abstract specification on the
    map of rows a transaction sees, for tables without secondary indexes, while nobody
    stands in the transaction's way. *)

From S2P Require Import Prelude Text Types Ast Floats Schema CheckValues CheckEval V2Page TxTypes TxnManager WaitGraph TxnRelease TxnLocks TxnRequests V2Codec V2Mvcc V2Pager.
From S2P Require Import SchemaLaws CheckLaws PageStore PagerStore V2BTree V2BTreeShape V2BTreeOps V2Trees V2Catalog V2Engine V2Storage V2Rows V2EngineLaws.

(** ** The versions of one row *)

Section Versions.
Context (t : TransactionId) (snap : TxnSnapshot).

(** The version the transaction reads has not been deleted by another one. *)
Definition uncontended (vs : list RowVersion) : Prop :=
  forall v, v ∈ vs -> version_visible t snap v = true -> deleted_by_txn v = None.

Lemma position_visible vs : visible_loop t snap vs =
  match position (version_visible t snap) vs with
  | Some i => row <$> vs !! i
  | None => None
  end.
Proof.
  induction vs as [|v vs IH]; [done|]. cbn [visible_loop position]. destruct (version_visible t snap v); [done|].
  rewrite IH. by destruct (position (version_visible t snap) vs).
Qed.

(** The version read, with those before it. *)
Lemma visible_split vs r :
  visible_loop t snap vs = Some r -> exists l1 v l2, vs = l1 ++ v :: l2 /\ row v = r /\ version_visible t snap v = true /\
    Forall (fun x => version_visible t snap x = false) l1.
Proof.
  rewrite position_visible. destruct (position (version_visible t snap) vs) as [i|] eqn:Hp; [|done]. intros Hr.
  apply position_split in Hp as (l1 & v & l2 & -> & <- & Hv & Hl1). rewrite list_lookup_middle in Hr by done. injection Hr as <-.
  by exists l1, v, l2.
Qed.

Lemma visible_after l1 v l2 : Forall (fun x => version_visible t snap x = false) l1 -> version_visible t snap v = true ->
  visible_loop t snap (l1 ++ v :: l2) = Some (row v).
Proof. intros Hl1 Hv. rewrite visible_loop_app, visible_loop_none by done. cbn [visible_loop]. by rewrite Hv. Qed.

Lemma with_row_visible u usnap r v : version_visible u usnap (with_row r v) = version_visible u usnap v.
Proof. by destruct v. Qed.

Lemma open_hidden u usnap v : u <> t -> created_by_txn v = t -> created_commit_ts v = None -> version_visible u usnap v = false.
Proof.
  intros Hu Hc Hn. unfold version_visible, version_visible_to_snapshot. rewrite Hc, Hn. destruct (Z.eqb_spec t u); [congruence|done].
Qed.

(** Appending a version to a row the transaction sees. *)
Lemma append_versions_view vs old new :
  visible_loop t snap vs = Some old -> exists vs', append_versions new t snap vs = Some vs' /\
    visible_loop t snap vs' = Some new /\
    (forall v, v ∈ vs' -> row v = new \/ exists v0, v0 ∈ vs /\ row v = row v0) /\
    (uncontended vs -> forall u usnap, u <> t -> visible_loop u usnap vs' = visible_loop u usnap vs).
Proof.
  intros (l1 & v & l2 & -> & _ & Hv & Hl1)%visible_split. unfold append_versions.
  assert (Hp : position (version_visible t snap) (l1 ++ v :: l2) = Some (length l1)) by (apply position_split; by exists l1, v, l2).
  rewrite Hp, list_lookup_middle by done.
  assert (Hins : forall w, <[length l1:=w]> (l1 ++ v :: l2) = l1 ++ w :: l2).
  { intros w. rewrite insert_app_r_alt by lia. by rewrite Nat.sub_diag. }
  rewrite !Hins. destruct ((created_by_txn v =? t) && bool_decide (created_commit_ts v = None)) eqn:Hown.
  - apply andb_prop in Hown as [Hc%Z.eqb_eq Hn%bool_decide_eq_true]. eexists. split; [reflexivity|]. split_and!.
    + rewrite visible_after; [by destruct v|done|by rewrite with_row_visible].
    + intros w [Hw|[->|Hw]%elem_of_cons]%elem_of_app; [right|left; by destruct v|right]; exists w; set_solver.
    + intros _ u usnap Hu. rewrite !visible_loop_app. cbn [visible_loop]. rewrite with_row_visible. by rewrite (open_hidden u usnap v).
  - eexists. split; [reflexivity|]. split_and!.
    + cbn [visible_loop]. by rewrite own_version_visible.
    + intros w [->|[Hw|[->|Hw]%elem_of_cons]%elem_of_app]%elem_of_cons; [by left|right..]; [exists w|exists v|exists w];
        (split; [set_solver|by destruct v || done]).
    + intros Hun u usnap Hu. cbn [visible_loop]. rewrite others_version_hidden by done. rewrite !visible_loop_app. cbn [visible_loop].
      rewrite others_deletion; [by destruct v|done|]. apply Hun; [set_solver|done].
Qed.

(** The transaction sees one version of the row at most. *)
Definition lone_version (vs : list RowVersion) : Prop :=
  forall l1 v l2, vs = l1 ++ v :: l2 -> version_visible t snap v = true -> Forall (fun x => version_visible t snap x = false) l2.

(** Marking the version the transaction sees. *)
Lemma mark_loop_view vs old :
  visible_loop t snap vs = Some old -> exists vs', mark_loop t snap vs = Some vs' /\
    (lone_version vs -> visible_loop t snap vs' = None) /\
    (forall v, v ∈ vs' -> exists v0, v0 ∈ vs /\ row v = row v0) /\
    (uncontended vs -> forall u usnap, u <> t -> visible_loop u usnap vs' = visible_loop u usnap vs).
Proof.
  intros (l1 & v & l2 & -> & _ & Hv & Hl1)%visible_split. exists (l1 ++ with_deleted (Some t) None v :: l2). split_and!.
  - apply mark_loop_split. by exists l1, v, l2.
  - intros Hlone. specialize (Hlone _ _ _ eq_refl Hv). apply visible_loop_none. apply Forall_app. split; [done|].
    constructor; [apply own_deletion|done].
  - intros w [Hw|[->|Hw]%elem_of_cons]%elem_of_app; [exists w|exists v|exists w]; (split; [set_solver|by destruct v || done]).
  - intros Hun u usnap Hu. rewrite !visible_loop_app. cbn [visible_loop].
    rewrite others_deletion; [by destruct v|done|]. apply Hun; [set_solver|done].
Qed.
End Versions.

(** ** The rows the checks read *)

Definition plain_row (r : Row) : Prop := Forall (fun v => match v with Real _ => False | _ => True end) r.

Section Scans.
Context {SelectStatement : Type} `{Codecs SelectStatement}.

Lemma visible_rows_filter t snap (skip : option RowId) l : forall r,
  visible_rows t snap l = Ok r ->
  visible_rows t snap (filter (fun ib : Z * bytes => Some ib.1 <> skip) l) = Ok (filter (fun ir : RowId * Row => Some ir.1 <> skip) r).
Proof.
  induction l as [|[id b] l IH]; intros r Hr; cbn [visible_rows] in Hr.
  - injection Hr as <-. done.
  - destruct (visible_row row_from_slice b t snap) as [o| | |] eqn:Ev; try done. cbn [bind] in Hr.
    destruct (visible_rows t snap l) as [rs| | |] eqn:El; try done. injection Hr as <-. specialize (IH rs eq_refl).
    rewrite filter_cons. cbn [fst]. case_decide as Hskip.
    + cbn [visible_rows]. rewrite Ev. cbn [bind]. rewrite IH. cbn [bind]. destruct o; [|done]. by rewrite filter_cons_True.
    + rewrite IH. destruct o; [|done]. rewrite filter_cons_False; [done|]. intros Hne. by apply Hne.
Qed.
End Scans.

Lemma filter_sorted_items {A} (skip : option RowId) (m : gmap RowId A) :
  filter (fun ir : RowId * A => Some ir.1 <> skip) (sorted_items m) = sorted_items (match skip with Some id => delete id m | None => m end).
Proof.
  apply ascending_unique; [|apply sorted_items_ascending|].
  - induction (sorted_items_ascending m) as [|a l Hl IH Ha]; [constructor|]. rewrite filter_cons. case_decide; [|done].
    constructor; [done|]. rewrite Forall_forall in *. intros b [_ Hb]%list_elem_of_filter. by apply Ha.
  - intros [k x]. rewrite list_elem_of_filter, !elem_of_sorted_items. cbn [fst]. destruct skip as [id|]; [|naive_solver].
    rewrite lookup_delete_Some. naive_solver.
Qed.

(** ** Operations against a specification *)

Section Implements.
Context {SelectStatement : Type} `{Codecs SelectStatement}.
Context (others : Shared -> Shared) (wait depth : nat) (t : TransactionId) (e : FileStorage SelectStatement).

(** The operation started with the manager at [m] ends as the specification says; where
    the specification refuses, nothing but the manager has changed. *)
Definition implements {V A} (op : ST (FileStorage SelectStatement) A) (m : TxnManager) (spec : Result V)
    (Q : V -> A -> FileStorage SelectStatement -> Prop) : Prop :=
  match spec with
  | Ok v => outcome (ready t) (op (with_manager m e)) (Q v)
  | Err x => exists m', op (with_manager m e) = (Err x, with_manager m' e)
  | Panic w => exists m', op (with_manager m e) = (Panic w, with_manager m' e)
  | OutOfFuel => exists m', op (with_manager m e) = (OutOfFuel, with_manager m' e)
  end.

Lemma with_manager_twice m m' : with_manager m' (with_manager m e) = with_manager m' e.
Proof. reflexivity. Qed.

Lemma implements_run {V A} (op1 op2 : ST (FileStorage SelectStatement) A) m1 m2 (spec : Result V) Q :
  op1 (with_manager m1 e) = op2 (with_manager m2 e) -> implements op2 m2 spec Q -> implements op1 m1 spec Q.
Proof. unfold implements. by intros ->. Qed.

Lemma implements_get {V A B} (f : FileStorage SelectStatement -> Result B) b (k : B -> ST (FileStorage SelectStatement) A) m (spec : Result V) Q :
  f (with_manager m e) = Ok b -> implements (k b) m spec Q -> implements (st_bind (st_get f) k) m spec Q.
Proof. intros Hf. apply implements_run. rewrite st_bind_run. cbn [st_get fst snd]. by rewrite Hf. Qed.

(** A check both sides make. *)
Lemma implements_check {V A B} (r : Result B) (k : B -> ST (FileStorage SelectStatement) A) m (spec : B -> Result V) Q :
  (forall b, r = Ok b -> implements (k b) m (spec b) Q) -> implements (st_bind (st_get (fun _ => r)) k) m (let? b := r in spec b) Q.
Proof.
  intros Hk. destruct r as [b| | |]; cbn [bind]; [by eapply implements_get; [done|apply Hk]|..]; exists m; rewrite st_bind_run; done.
Qed.

Lemma implements_txns {V A B} (f : ST TxnManager B) b m m' (k : B -> ST (FileStorage SelectStatement) A) (spec : Result V) Q :
  f m = (Ok b, m') -> implements (k b) m' spec Q -> implements (st_bind (on_txns f) k) m spec Q.
Proof.
  intros Hf. apply implements_run. rewrite st_bind_run, on_txns_run. change (manager (with_manager m e)) with m. rewrite Hf. done.
Qed.

Lemma implements_wait {V A} (f : ST TxnManager unit) m m' (k : unit -> ST (FileStorage SelectStatement) A) (spec : Result V) Q :
  (0 < wait)%nat -> f m = (Ok tt, m') -> implements (k tt) m' spec Q ->
  implements (st_bind (wait_for others wait f) k) m spec Q.
Proof.
  intros Hw Hf. apply implements_run. rewrite st_bind_run. rewrite (wait_for_granted others wait f m') by done. done.
Qed.

Lemma implements_done {V A} (a : A) m (v : V) (Q : V -> A -> FileStorage SelectStatement -> Prop) :
  Q v a (with_manager m e) -> implements (st_ret a) m (Ok v) Q.
Proof. done. Qed.

(** The snapshot of a statement. *)
Lemma implements_snapshot {V A} m txn (k : TxnSnapshot -> ST (FileStorage SelectStatement) A) (spec : Result V) Q :
  unhindered t m -> txns m !! t = Some txn ->
  (forall m', unhindered t m' -> next_row_ids m' = next_row_ids m -> implements (k (snapshot_now m t txn)) m' spec Q) ->
  implements (st_bind (snapshot_for_transaction t) k) m spec Q.
Proof.
  intros Hu Ht Hk.
  assert (Hs : exists m', snapshot_for_transaction t (with_manager m e) = (Ok (snapshot_now m t txn), with_manager m' e) /\
            unhindered t m' /\ next_row_ids m' = next_row_ids m).
  { unfold snapshot_for_transaction, snapshot_now. rewrite st_bind_run. cbn [st_get fst snd]. change (manager (with_manager m e)) with m.
    unfold get_isolation_level, get_snapshot, TxnManager.get. rewrite Ht. cbn [ok_or bind].
    destruct (isolation_level txn).
    - rewrite on_txns_run. change (manager (with_manager m e)) with m. unfold refresh_snapshot. rewrite st_bind_run. cbn [st_read fst snd].
      set (snap := mkTxnSnapshot _ _). destruct (own_update_granted t (with_snapshot snap) m Hu) as (m' & Hm & Hu' & Hn); [done|].
      exists m'. rewrite st_bind_run, Hm. done.
    - unfold st_get. change (manager (with_manager m e)) with m. unfold get_snapshot, TxnManager.get. rewrite Ht. by exists m.
    - unfold st_get. change (manager (with_manager m e)) with m. unfold get_snapshot, TxnManager.get. rewrite Ht. by exists m. }
  destruct Hs as (m' & Hs & Hu' & Hn). eapply implements_run; [|by apply (Hk m')]. rewrite st_bind_run, Hs. done.
Qed.

Lemma snapshot_now_same m m' txn : same_clock m m' -> snapshot_now m' t txn = snapshot_now m t txn.
Proof. intros (H1 & H2 & _). unfold snapshot_now. by rewrite H1, H2. Qed.
End Implements.

(** ** Writing to a table without indexes *)

Section Writes.
Context {SelectStatement : Type} `{Codecs SelectStatement} `{Libm, JsonParser}.
Context (others : Shared -> Shared) (wait depth : nat) (debug : list Value -> string).
Context (node_json : forall node, exists payload, node_to_vec node = Ok payload /\ node_from_slice payload = Ok node).
Context (Hjson : json_roundtrip row_to_vec row_from_slice) (Hwait : (0 < wait)%nat).

(** A transaction that may write, and a table it can write to: no index, stored under its
    root on the pages [foot]. *)
Record writable (e : FileStorage SelectStatement) (t : TransactionId) (txn : TxnState) (table : string) (schema : Schema SelectStatement)
    (root : PageId) (rows : Table) (foot : gset PageId) : Prop := {
  wr_ready : ready t e;
  wr_way : unhindered t (manager e);
  wr_txn : txns (manager e) !! t = Some txn;
  wr_table : table_schema_and_root (catalog e) table = Ok (schema, root);
  wr_no_index : indexes (catalog e) !! table = None;
  wr_stores : stores (pager e) root rows foot;
  wr_depth : (size foot < depth)%nat
}.

(** The rows the transaction sees with [row] in place of those under [skip]: refused where
    the row or its primary key is invalid. *)
Definition checked_write (schema : Schema SelectStatement) (row : Row) (seen : gmap RowId Row) (id : RowId) : Result (gmap RowId Row) :=
  validate_primary_key_uniqueness value_display debug schema row (map snd (sorted_items (delete id seen))) ;;? Ok (<[id := row]> seen).

Definition update_spec (schema : Schema SelectStatement) (table : string) (id : RowId) (row : Row) (seen : gmap RowId Row)
    : Result (gmap RowId Row) :=
  check_row "update " schema table row ;;?
  match seen !! id with
  | None => Ok seen
  | Some old => if row_eqb old row then Ok seen else checked_write schema row seen id
  end.

Definition insert_spec (schema : Schema SelectStatement) (table : string) (id : RowId) (row : Row) (seen : gmap RowId Row)
    : Result (gmap RowId Row) :=
  check_row "insert into " schema table row ;;?
  validate_primary_key_uniqueness value_display debug schema row (map snd (sorted_items seen)) ;;? Ok (<[id := row]> seen).

(** A tree has grown from the pages [foot] to [foot'], by pages nobody used. *)
Definition grown (foot foot' : gset PageId) (p p' : Pager) : Prop :=
  foot ⊆ foot' /\ (forall q, q ∈ foot' -> q ∈ foot \/ is_ok (read_page p q) = false) /\ frame foot' p p'.

Lemma table_insert_new t e root rows foot id vs b :
  ready t e -> stores (pager e) root rows foot -> (size foot < depth)%nat -> Z.of_nat (size foot) + 2 <= pager_room (pager e) ->
  row_holds row_from_slice b vs ->
  outcome (ready t) (table_insert others wait depth t root id b e) (fun root' e' =>
    ready t e' /\ e' = set_pager (pager e') e /\
    exists foot', stores (pager e') root' (<[id := vs]> rows) foot' /\ grown foot foot' (pager e) (pager e')).
Proof.
  intros Hr (h & es & Ht & Hes) Hd Hroom Hb. pose proof (pager_store_laws others wait t Hwait) as Hlaws.
  assert (Hh : (h < size foot)%nat).
  { destruct Ht as [first Ht]. exact (tree_height Z.compare node_from_slice _ _ _ _ _ _ _ _ _ Ht). }
  assert (Hs : sorted_entries Z.compare es).
  { destruct Ht as [first Ht]. by eapply (tree_orderly Z.compare (nodes node_from_slice (pager e)) h). }
  unfold table_insert. eapply on_pager_outcome.
  { apply (@tree_insert_outcome Pager (pager_store others wait t) (pager_ready t) pager_room Hlaws Z Z.compare _
      node_to_vec node_from_slice node_json (pager e) root h es foot depth id b); [done|done|lia|lia]. }
  intros root' p' (h' & foot' & Ht' & _ & Hr' & _ & Hsub & Hnew & Hold). split; [done|]. split; [done|]. exists foot'. split; [|done].
  exists h', (assoc_insert Z.compare id b es). split; [done|]. intros k. rewrite (assoc_lookup_insert Z.compare) by exact Hs.
  destruct (Z.compare_spec k id) as [->|Hlt|Hlt].
  - by rewrite lookup_insert_eq.
  - rewrite lookup_insert_ne by lia. apply Hes.
  - rewrite lookup_insert_ne by lia. apply Hes.
Qed.

Section Table.
Context (e : FileStorage SelectStatement) (t : TransactionId) (txn : TxnState) (table : string) (schema : Schema SelectStatement).
Context (root : PageId) (rows : Table) (foot : gset PageId) (Hwr : writable e t txn table schema root rows foot).
#[local] Abbreviation snap := (snapshot_now (manager e) t txn).
#[local] Abbreviation seen := (table_view t snap rows).

(** The other transactions' views of the table, where nobody else has deleted what this
    transaction reads. *)
Definition others_unchanged (rows' : Table) : Prop :=
  (forall id vs, rows !! id = Some vs -> uncontended t snap vs) ->
  forall u usnap, u <> t -> table_view u usnap rows' = table_view u usnap rows.

(** The table's pages hold rows of which the transaction sees [seen']; the rest of the
    handle and of the file is as before. *)
Definition table_becomes (seen' : gmap RowId Row) (e' : FileStorage SelectStatement) : Prop :=
  ready t e' /\ frame foot (pager e) (pager e') /\ e' = set_pager (pager e') e /\
  exists rows', stores (pager e') root rows' foot /\ table_view t snap rows' = seen' /\ others_unchanged rows'.

Lemma unhindered_ready m : unhindered t m -> ready t (with_manager m e).
Proof.
  intros Hu. unfold ready. apply (ready_set_manager t (pager e) m); [apply (wr_ready _ _ _ _ _ _ _ _ Hwr)|].
  split_and!; [apply (way_active _ _ Hu)|apply (way_page_queues _ _ Hu)|apply (way_pages _ _ Hu)].
Qed.

Lemma table_unchanged m : unhindered t m -> table_becomes seen (with_manager m e).
Proof.
  intros Hu. split; [by apply unhindered_ready|]. split; [done|]. split; [done|].
  exists rows. split_and!; [apply (wr_stores _ _ _ _ _ _ _ _ Hwr)|done|done].
Qed.

Lemma get_stored m id :
  exists b, table_get others wait depth root id (with_manager m e) = (Ok b, with_manager m e) /\
    visible_bytes t snap b = Ok (seen !! id) /\
    match rows !! id with Some vs => exists b', b = Some b' /\ row_holds row_from_slice b' vs | None => b = None end.
Proof.
  pose proof (stores_with_manager _ m _ _ _ (wr_stores _ _ _ _ _ _ _ _ Hwr)) as Hst. pose proof (wr_depth _ _ _ _ _ _ _ _ Hwr) as Hd.
  destruct (stores_get others wait depth (set_txn_manager m (pager e)) root rows foot t snap id Hst Hd) as (b & Hb & Hv).
  exists b. split; [exact (f_equal (fun r => (r, with_manager m e)) Hb)|]. split; [done|]. destruct Hst as (h & es & Ht & Hes).
  destruct (@tree_reads Pager (pager_store others wait 0) Z Z.compare Z_cmp_laws node_from_slice (lookup_find Z.compare) "B+Tree" depth
    (set_txn_manager m (pager e)) root h es foot) as (Hget & _ & _); [done..|].
  specialize (Hes id). assert (b = assoc_lookup Z.compare id es) as -> by (pose proof (eq_trans (eq_sym Hb) (Hget id)); congruence).
  destruct (assoc_lookup Z.compare id es) as [b|], (rows !! id) as [vs|]; try done. by exists b.
Qed.

Lemma scan_others m skip :
  visible_others others wait depth t root snap skip (with_manager m e) =
  (Ok (map snd (sorted_items (match skip with Some id => delete id seen | None => seen end))), with_manager m e).
Proof.
  destruct (stores_scan others wait depth (set_txn_manager m (pager e)) root rows foot t snap
    (stores_with_manager _ m _ _ _ (wr_stores _ _ _ _ _ _ _ _ Hwr)) (wr_depth _ _ _ _ _ _ _ _ Hwr)) as (l & Hl & Hv).
  unfold visible_others. rewrite st_bind_run. unfold table_scan. cbn [st_get fst snd].
  change (pager (with_manager m e)) with (set_txn_manager m (pager e)). rewrite Hl. unfold st_get.
  rewrite (visible_rows_filter t snap skip _ _ Hv). cbn [bind]. by rewrite filter_sorted_items.
Qed.
(** The row's versions are replaced in place. *)
Lemma rewrite_stored m id vs vs' b' :
  unhindered t m -> rows !! id = Some vs -> row_holds row_from_slice b' vs' ->
  (uncontended t snap vs -> forall u usnap, u <> t -> visible_loop u usnap vs' = visible_loop u usnap vs) ->
  outcome (ready t) ((let! root' := table_insert others wait depth t root id b' in move_table_root table root root') (with_manager m e))
    (fun _ e' => table_becomes (partial_alter (fun _ => visible_loop t snap vs') id seen) e').
Proof.
  intros Hu Hid Hb Hothers. eapply outcome_bind.
  { apply (table_insert_overwrites others wait depth t node_json Hwait (with_manager m e) root rows foot id vs vs' b');
      [by apply unhindered_ready|exact (wr_stores _ _ _ _ _ _ _ _ Hwr)|apply (wr_depth _ _ _ _ _ _ _ _ Hwr)|done|done]. }
  intros root' e' (-> & Hr & Hst & Hfr & He'). unfold move_table_root. rewrite Z.eqb_refl. apply outcome_ret.
  split; [done|]. split; [exact Hfr|]. split; [rewrite He'; reflexivity|]. exists (<[id := vs']> rows). split; [done|]. split.
  - unfold table_view. apply map_eq. intros k. rewrite lookup_omap. destruct (decide (k = id)) as [->|Hk].
    + by rewrite lookup_insert_eq, lookup_partial_alter_eq.
    + rewrite lookup_insert_ne, lookup_partial_alter_ne by done. by rewrite lookup_omap.
  - intros Hun u usnap Hut. unfold table_view. apply map_eq. intros k. rewrite !lookup_omap. destruct (decide (k = id)) as [->|Hk].
    + rewrite lookup_insert_eq, Hid. cbn. apply Hothers; [|done]. by eapply Hun.
    + by rewrite lookup_insert_ne.
Qed.

Lemma update_stored m id vs old new :
  unhindered t m -> rows !! id = Some vs -> visible_loop t snap vs = Some old -> plain_row new ->
  outcome (ready t) (store_updated_row others wait depth t table root id new snap [] (with_manager m e))
    (fun _ e' => table_becomes (<[id := new]> seen) e').
Proof.
  intros Hu Hid Hold Hplain. unfold store_updated_row.
  destruct (get_stored m id) as (b & Hb & _ & Hrow). rewrite Hid in Hrow. destruct Hrow as (b0 & -> & Hdec & Hsafe).
  rewrite st_bind_run, Hb. cbn [fst snd]. eapply outcome_get; [reflexivity|].
  destruct (record_undo_granted t (UDeleteRow table id b0) m Hu) as (m1 & Hm1 & Hu1 & _).
  rewrite st_bind_run. unfold record_storage_undo. rewrite on_txns_run. change (manager (with_manager m e)) with m. rewrite Hm1. cbn [fst snd].
  rewrite st_bind_run. cbn [st_each st_ret fst snd].
  destruct (append_versions_view t snap vs old new Hold) as (vs' & Happ & Hnew & Hrows & Hothers).
  destruct (row_holds_encode row_to_vec row_from_slice Hjson vs') as (b' & Hb' & Hholds).
  { cbn in *. rewrite Forall_forall in Hsafe |- *. intros v Hv. destruct (Hrows v Hv) as [->|(v0 & Hv0 & ->)]; [done|by apply Hsafe]. }
  eapply (outcome_get _ _ (Some b')).
  { unfold append_row_version. rewrite Hdec. cbn [bind versions]. rewrite Happ. by rewrite Hb'. }
  eapply outcome_bind; [by eapply (rewrite_stored m1 id vs vs' b')|].
  intros [] e' He'. apply outcome_ret. by rewrite Hnew in He'.
Qed.

Lemma no_indexes : indexes_for_table (catalog e) table = Ok [].
Proof. unfold indexes_for_table. by rewrite (wr_no_index _ _ _ _ _ _ _ _ Hwr). Qed.

Lemma update_implements id row :
  plain_row row ->
  implements t e (update_row others wait depth debug t table id row) (manager e) (update_spec schema table id row seen)
    (fun seen' _ e' => table_becomes seen' e').
Proof.
  intros Hplain. unfold update_row, update_spec. pose proof (wr_way _ _ _ _ _ _ _ _ Hwr) as Hu.
  eapply implements_get; [apply validate_txn_Ok, (way_active _ _ Hu)|].
  destruct (table_write_granted t table _ Hu) as (m1 & Hm1 & Hu1 & Hclock).
  eapply implements_wait; [done|exact Hm1|].
  eapply (implements_get _ _ _ (schema, root)); [apply (wr_table _ _ _ _ _ _ _ _ Hwr)|]. apply implements_check. intros [] _.
  eapply (implements_snapshot t e m1 txn); [done|rewrite (proj1 Hclock); apply (wr_txn _ _ _ _ _ _ _ _ Hwr)|].
  intros m2 Hu2 _. rewrite (snapshot_now_same t _ _ txn Hclock).
  destruct (get_stored m2 id) as (b & Hb & Hvis & Hrow).
  eapply implements_run; [rewrite st_bind_run, Hb; reflexivity|].
  eapply implements_get; [exact Hvis|].
  destruct (seen !! id) as [old|] eqn:Hold; [|by apply implements_done, table_unchanged].
  destruct (row_eqb old row); [by apply implements_done, table_unchanged|].
  unfold replace_visible_row, checked_write.
  eapply (implements_get _ _ _ []); [exact no_indexes|].
  eapply implements_get; [reflexivity|].
  destruct (write_conflicts_granted t table (indexed_keys []) m2 Hu2) as (m3 & Hm3 & Hu3 & _).
  eapply implements_wait; [done|exact Hm3|].
  eapply implements_run; [rewrite st_bind_run, scan_others; reflexivity|]. apply implements_check. intros [] _.
  eapply implements_run; [rewrite st_bind_run; reflexivity|].
  unfold table_view in Hold. rewrite lookup_omap in Hold. destruct (rows !! id) as [vs|] eqn:Hid; [|done].
  by eapply (update_stored m3 id vs old row).
Qed.
Lemma delete_stored m id vs old :
  unhindered t m -> rows !! id = Some vs -> visible_loop t snap vs = Some old -> lone_version t snap vs ->
  outcome (ready t) (delete_visible_row others wait depth t table root id snap old (with_manager m e))
    (fun _ e' => table_becomes (delete id seen) e').
Proof.
  intros Hu Hid Hold Hlone. unfold delete_visible_row.
  eapply (outcome_get _ _ (schema, root)); [apply (wr_table _ _ _ _ _ _ _ _ Hwr)|].
  eapply (outcome_get _ _ []); [change (write_index_keys (catalog e) schema table old = Ok []); unfold write_index_keys; by rewrite no_indexes|].
  destruct (write_conflicts_granted t table [] m Hu) as (m1 & Hm1 & Hu1 & _). unfold wait_for_write_conflicts.
  rewrite st_bind_run, (wait_for_granted others wait _ m1) by done. cbn [fst snd]. rewrite with_manager_twice.
  destruct (get_stored m1 id) as (b & Hb & _ & Hrow). rewrite Hid in Hrow. destruct Hrow as (b0 & -> & Hdec & Hsafe).
  rewrite st_bind_run, Hb. cbn [fst snd]. eapply outcome_get; [reflexivity|].
  destruct (record_undo_granted t (UDeleteRow table id b0) m1 Hu1) as (m2 & Hm2 & Hu2 & _).
  rewrite st_bind_run. unfold record_storage_undo. rewrite on_txns_run. change (manager (with_manager m1 e)) with m1. rewrite Hm2. cbn [fst snd].
  rewrite st_bind_run. cbn [st_each st_ret fst snd].
  destruct (mark_loop_view t snap vs old Hold) as (vs' & Hmark & Hgone & Hrows & Hothers).
  destruct (row_holds_encode row_to_vec row_from_slice Hjson vs') as (b' & Hb' & Hholds).
  { cbn in *. rewrite Forall_forall in Hsafe |- *. intros v Hv. destruct (Hrows v Hv) as (v0 & Hv0 & ->). by apply Hsafe. }
  eapply (outcome_get _ _ (Some b')).
  { unfold mark_row_deleted. rewrite Hdec. cbn [bind versions]. rewrite Hmark. by rewrite Hb'. }
  eapply outcome_weaken; [by eapply (rewrite_stored m2 id vs vs' b')|].
  intros [] e' He'. by rewrite (Hgone Hlone) in He'.
Qed.

Lemma delete_implements id :
  (forall vs, rows !! id = Some vs -> lone_version t snap vs) ->
  implements t e (delete_row others wait depth t table id) (manager e) (Ok (delete id seen)) (fun seen' _ e' => table_becomes seen' e').
Proof.
  intros Hlone. unfold delete_row. pose proof (wr_way _ _ _ _ _ _ _ _ Hwr) as Hu.
  eapply implements_get; [apply validate_txn_Ok, (way_active _ _ Hu)|].
  destruct (table_write_granted t table _ Hu) as (m1 & Hm1 & Hu1 & Hclock).
  eapply implements_wait; [done|exact Hm1|]. unfold with_table.
  eapply implements_run; [rewrite st_bind_run; cbn [st_read fst snd]; change (catalog (with_manager m1 e)) with (catalog e);
    rewrite (wr_table _ _ _ _ _ _ _ _ Hwr); reflexivity|].
  eapply (implements_snapshot t e m1 txn); [done|rewrite (proj1 Hclock); apply (wr_txn _ _ _ _ _ _ _ _ Hwr)|].
  intros m2 Hu2 _. rewrite (snapshot_now_same t _ _ txn Hclock).
  destruct (get_stored m2 id) as (b & Hb & Hvis & Hrow).
  eapply implements_run; [rewrite st_bind_run, Hb; reflexivity|].
  eapply implements_get; [exact Hvis|].
  destruct (seen !! id) as [old|] eqn:Hold.
  - unfold table_view in Hold. rewrite lookup_omap in Hold. destruct (rows !! id) as [vs|] eqn:Hid; [|done].
    eapply (delete_stored m2 id vs old); [done..|by apply Hlone].
  - rewrite delete_id by done. by apply implements_done, table_unchanged.
Qed.
(** The row id the next insertion gets. *)
Definition new_row_id : RowId := fresh_row_id (manager e) table (default 1 (catalog_row_ids (catalog e) !! table)).

(** The row is in the table, which may have moved and grown; the other tables and what the
    other transactions see are as before. *)
Definition row_inserted (seen' : gmap RowId Row) (id : RowId) (e' : FileStorage SelectStatement) : Prop :=
  id = new_row_id /\ ready t e' /\ schemas (catalog e') = schemas (catalog e) /\ indexes (catalog e') = indexes (catalog e) /\
  (forall name, name <> table -> table_roots (catalog e') !! name = table_roots (catalog e) !! name) /\
  exists root' foot' rows', table_schema_and_root (catalog e') table = Ok (schema, root') /\
    stores (pager e') root' rows' foot' /\ grown foot foot' (pager e) (pager e') /\ table_view t snap rows' = seen' /\
    forall u usnap, u <> t -> table_view u usnap rows' = table_view u usnap rows.

Lemma move_table_root_run root' (e' : FileStorage SelectStatement) :
  move_table_root table root root' e' =
  (Ok tt, if root' =? root then e' else set_catalog (set_table_roots (<[table := root']> (table_roots (catalog e'))) (catalog e')) e').
Proof. unfold move_table_root. by destruct (root' =? root). Qed.

Lemma moved_catalog (c : CatalogState SelectStatement) root' :
  table_schema_and_root c table = Ok (schema, root) ->
  let c' := if root' =? root then c else set_table_roots (<[table := root']> (table_roots c)) c in
  table_schema_and_root c' table = Ok (schema, root') /\ schemas c' = schemas c /\ indexes c' = indexes c /\
  (forall name, name <> table -> table_roots c' !! name = table_roots c !! name).
Proof.
  intros Ht c'. unfold c'. destruct (Z.eqb_spec root' root) as [->|Hne]; [done|]. split; [|split_and!; try done].
  - unfold table_schema_and_root in *. cbn. destruct (schemas c !! table); [|done]. cbn [ok_or bind] in *.
    rewrite lookup_insert_eq. cbn [ok_or bind]. by destruct (table_roots c !! table) as [r|]; [injection Ht as -> _|].
  - intros name Hn. cbn. by rewrite lookup_insert_ne.
Qed.
Lemma fresh_inserted id r : rows !! id = None ->
  table_view t snap (<[id := [mkRowVersion r t None None None]]> rows) = <[id := r]> seen /\
  forall u usnap, u <> t -> table_view u usnap (<[id := [mkRowVersion r t None None None]]> rows) = table_view u usnap rows.
Proof.
  intros Hid. unfold table_view. split; [|intros u usnap Hut]; apply map_eq; intros k; rewrite ?lookup_omap;
    (destruct (decide (k = id)) as [->|Hk]; [rewrite !lookup_insert_eq|rewrite !lookup_insert_ne by done]); try by rewrite ?lookup_omap.
  - cbn. by rewrite own_version_visible.
  - rewrite Hid. cbn. by rewrite others_version_hidden.
Qed.

Lemma insert_stored m row :
  unhindered t m -> next_row_ids m = next_row_ids (manager e) -> new_row_id < u64_max -> rows !! new_row_id = None ->
  Z.of_nat (size foot) + 2 <= pager_room (pager e) -> plain_row row ->
  outcome (ready t) (store_new_row others wait depth t schema table root row (with_manager m e))
    (fun id e' => row_inserted (<[new_row_id := row]> seen) id e').
Proof.
  intros Hu Hnext Hmax Hid Hroom Hplain. unfold store_new_row.
  rewrite st_bind_run. cbn [st_read fst snd]. change (catalog (with_manager m e)) with (catalog e). set (fallback := default 1 _).
  assert (Hnew : fresh_row_id m table fallback = new_row_id) by (unfold new_row_id, fresh_row_id; by rewrite Hnext).
  destruct (row_id_granted t table fallback m Hu) as (m1 & Hm1 & Hu1); [by rewrite Hnew|]. rewrite Hnew in Hm1.
  rewrite st_bind_run, on_txns_run. change (manager (with_manager m e)) with m. rewrite Hm1. cbn [fst snd].
  rewrite st_bind_run. cbn [mod_catalog st_mod fst snd]. rewrite with_manager_twice. set (e1 := set_catalog _ _).
  destruct (record_undo_granted t (UInsertRow table new_row_id) m1 Hu1) as (m2 & Hm2 & Hu2 & _).
  rewrite st_bind_run. unfold record_storage_undo. rewrite on_txns_run. change (manager e1) with m1. rewrite Hm2. cbn [fst snd].
  destruct (row_holds_encode row_to_vec row_from_slice Hjson [mkRowVersion row t None None None]) as (b & Hb & Hholds).
  { by repeat constructor. }
  eapply outcome_get; [exact Hb|].
  eapply outcome_bind.
  { apply (table_insert_new t (with_manager m2 e1) root rows foot new_row_id [mkRowVersion row t None None None] b);
      [by apply unhindered_ready|exact (wr_stores _ _ _ _ _ _ _ _ Hwr)|apply (wr_depth _ _ _ _ _ _ _ _ Hwr)|done|done]. }
  intros root' e2 (Hr2 & He2 & foot' & Hst2 & Hgrown). rewrite st_bind_run, move_table_root_run. cbn [fst snd].
  assert (Hc2 : catalog e2 = set_catalog_row_ids (<[table := saturating_add64 new_row_id 1]> (catalog_row_ids (catalog e))) (catalog e)) by (rewrite He2; done).
  destruct (moved_catalog (catalog e2) root') as (Ht & Hs & Hi & Ho); [rewrite Hc2; exact (wr_table _ _ _ _ _ _ _ _ Hwr)|].
  set (c3 := if root' =? root then catalog e2 else _) in *. set (e3 := if root' =? root then e2 else _).
  assert (H3 : catalog e3 = c3 /\ pager e3 = pager e2) by (unfold e3, c3; by destruct (root' =? root)). destruct H3 as [Hc3 Hp3].
  eapply (outcome_get _ _ []).
  { rewrite Hc3. unfold indexes_for_table. rewrite Hi, Hc2. cbn. by rewrite (wr_no_index _ _ _ _ _ _ _ _ Hwr). }
  rewrite st_bind_run. cbn [st_each st_ret fst snd]. apply outcome_ret. unfold row_inserted, ready. rewrite Hc3, Hp3, Hs, Hi, Hc2. cbn.
  destruct (fresh_inserted new_row_id row Hid) as [Hown Hothers].
  split_and!; [done|exact Hr2|done|done|intros name Hn; rewrite Ho by done; by rewrite Hc2|].
  exists root', foot', (<[new_row_id := [mkRowVersion row t None None None]]> rows). by split_and!.
Qed.

Lemma insert_implements row :
  new_row_id < u64_max -> rows !! new_row_id = None -> Z.of_nat (size foot) + 2 <= pager_room (pager e) -> plain_row row ->
  implements t e (insert_row others wait depth debug t table row) (manager e) (insert_spec schema table new_row_id row seen) row_inserted.
Proof.
  intros Hmax Hid Hroom Hplain. unfold insert_row, insert_spec. pose proof (wr_way _ _ _ _ _ _ _ _ Hwr) as Hu.
  eapply implements_get; [apply validate_txn_Ok, (way_active _ _ Hu)|].
  destruct (table_write_granted t table _ Hu) as (m1 & Hm1 & Hu1 & Hclock).
  eapply implements_wait; [done|exact Hm1|].
  eapply (implements_get _ _ _ (schema, root)); [apply (wr_table _ _ _ _ _ _ _ _ Hwr)|]. apply implements_check. intros [] _.
  eapply (implements_get _ _ _ []); [change (write_index_keys (catalog e) schema table row = Ok []); unfold write_index_keys; by rewrite no_indexes|].
  destruct (write_conflicts_granted t table [] m1 Hu1) as (m2 & Hm2 & Hu2 & Hclock2).
  eapply implements_wait; [done|exact Hm2|].
  eapply (implements_snapshot t e m2 txn); [done|rewrite (proj1 Hclock2), (proj1 Hclock); apply (wr_txn _ _ _ _ _ _ _ _ Hwr)|].
  intros m3 Hu3 Hn3. rewrite (snapshot_now_same t _ _ txn Hclock2), (snapshot_now_same t _ _ txn Hclock).
  eapply implements_run; [rewrite st_bind_run, scan_others; reflexivity|]. apply implements_check. intros [] _.
  eapply (implements_get _ _ _ []); [exact no_indexes|].
  eapply implements_run; [rewrite st_bind_run; reflexivity|].
  apply (insert_stored m3 row); [done| |done..]. rewrite Hn3. destruct Hclock as (_ & _ & <-), Hclock2 as (_ & _ & <-). done.
Qed.
End Table.
End Writes.

(** ** Theorems *)

Section Claims.
Context {SelectStatement : Type} `{Codecs SelectStatement} `{Libm, JsonParser}.
Context (others : Shared -> Shared) (wait depth : nat) (debug : list Value -> string).

(** [implements], of an operation started in the state itself. *)
Definition refines {V A} (t : TransactionId) (e : FileStorage SelectStatement) (op : ST (FileStorage SelectStatement) A) (spec : Result V)
    (Q : V -> A -> FileStorage SelectStatement -> Prop) : Prop :=
  match spec with
  | Ok v => outcome (ready t) (op e) (Q v)
  | Err x => exists m', op e = (Err x, with_manager m' e)
  | Panic w => exists m', op e = (Panic w, with_manager m' e)
  | OutOfFuel => exists m', op e = (OutOfFuel, with_manager m' e)
  end.

Lemma implements_refines {V A} t e (op : ST (FileStorage SelectStatement) A) (spec : Result V) Q :
  implements t e op (manager e) spec Q -> refines t e op spec Q.
Proof.
  unfold implements, refines. assert (with_manager (manager e) e = e) as -> by by destruct e as [[[]]]. done.
Qed.

Definition node_codec : Prop := forall node, exists payload, node_to_vec node = Ok payload /\ node_from_slice payload = Ok node.



End Claims.

(** ** A table of two columns *)

Definition people : Schema unit :=
  mkSchema unit "t" [sample_column "id" CtInteger true; sample_column "name" CtText false] ObjTable None None None
    [mkCheckConstraint "named" true (CkLengthCompare "name" CkOpGt (Integer 0))] [] None [] [OrderCheck 0] false false.
Definition people_storage : FileStorage unit := set_catalog (set_schemas {[ "t" := people ]} sample_catalog) sample_storage.
Definition people_txn : TxnState := default (mkTxnState 0 Serializable Active None 0 None sample_snapshot write_set_default [] [])
  (txns (manager people_storage) !! 3).

Lemma people_unhindered : unhindered 3 (manager people_storage).
Proof.
  split; [apply sample_active|..]; try done.
  all: by intros l ?%not_elem_of_nil.
Qed.

Lemma people_writable : @writable unit sample_codecs 2 people_storage 3 people_txn "t" people 2 sample_rows {[ 2 ]}.
Proof.
  split; [apply tree_pager_ready|apply people_unhindered|reflexivity|reflexivity|reflexivity|apply sample_stores|].
  rewrite size_singleton. lia.
Qed.

Definition no_others (sh : Shared) : Shared := sh.
Definition no_debug (_ : list Value) : string := "".



