(* ===== verification/V2Scenarios.v ===== *)
(** * Runs of the v2 engine

    Executions of the model on a small table, with a codec that packs values into few
    bytes. They show what the operations answer, and three runs with surprising answers: a
    deleted row comes back, a committed update is hidden by another, and a unique index is
    refused because of a deleted row. *)

From S2P Require Import Prelude Text Types Ast Floats Schema SchemaLaws CheckValues CheckEval CheckLaws V2Page TxTypes TxnManager V2Codec V2Mvcc V2Pager PageStore PagerStore V2BTree V2BTreeOps V2Trees V2Catalog V2Engine V2Storage V2Rows V2EngineLaws V2RowLaws.

(** ** A compact codec *)

(** The bits of [p] above the [acc] collected so far, eight to a byte. *)
Fixpoint pack (p : positive) (w acc : Z) : bytes :=
  match p with
  | xH => [acc + w]
  | xO p => if w =? 128 then acc :: pack p 1 0 else pack p (2 * w) acc
  | xI p => if w =? 128 then acc + 128 :: pack p 1 0 else pack p (2 * w) (acc + w)
  end.
Definition unpack (b : bytes) : Z := foldr (fun d n => d + 256 * n) 0 b.

Lemma unpack_pack p : forall w acc, unpack (pack p w acc) = Z.pos p * w + acc.
Proof.
  induction p as [p IH|p IH|]; intros w acc; cbn [pack]; [| |cbn; lia];
    (destruct (Z.eqb_spec w 128) as [->|]; [change (unpack (?a :: ?l)) with (a + 256 * unpack l)|]; rewrite IH; lia).
Qed.

Definition packed {A} (to_vec : A -> Result bytes) (x : A) : Result bytes :=
  let? b := to_vec x in Ok (pack (of_bits b) 1 0).
Definition unpacked {A} (from_slice : bytes -> Result A) (b : bytes) : Result A := from_slice (bits_of (Z.to_pos (unpack b))).

Definition packed_codecs : Codecs unit := {|
  row_to_vec := packed sample_to_vec;
  row_from_slice := unpacked sample_from_slice;
  node_to_vec := packed sample_node_to_vec;
  node_from_slice := unpacked sample_node_from_slice;
  index_node_to_vec := packed sample_node_to_vec;
  index_node_from_slice := unpacked sample_node_from_slice;
  catalog_to_vec := fun _ => Ok [1];
  catalog_from_slice := fun _ => Ok catalog_default;
  key_to_vec := fun key => Ok (pack (encode key) 1 0);
  key_from_slice := fun b => ok_or (decode (Z.to_pos (unpack b))) (Serde "invalid key");
  row_ids_to_vec := fun ids => Ok (pack (encode ids) 1 0);
  row_ids_from_slice := fun b => ok_or (decode (Z.to_pos (unpack b))) (Serde "invalid row ids")
|}.

Lemma packed_json : json_roundtrip (packed sample_to_vec) (unpacked sample_from_slice).
Proof.
  intros s Hs. eexists. split; [reflexivity|]. unfold unpacked. rewrite unpack_pack, Z.mul_1_r, Z.add_0_r, Pos2Z.id.
  destruct (V2Mvcc.sample_json s Hs) as (b & [= <-] & Hf). by rewrite of_bits_of.
Qed.

#[local] Existing Instances packed_codecs sample_libm.
#[local] Existing Instance CheckLaws.sample_json.

(** ** A database with one table of two rows *)

Abbreviation Handle := (FileStorage unit).

Definition fill_table : ST Handle unit :=
  let! t := begin_with_isolation ReadCommitted in
  create_schema no_others 1 t people ;;!
  let! _ := insert_row no_others 1 4 no_debug t "t" [Integer 1; Text "ann"] in
  let! _ := insert_row no_others 1 4 no_debug t "t" [Integer 2; Text "bob"] in
  commit_storage no_others 1 4 t.

(** The handle that has created the database on an empty disk and filled the table. *)
Definition filled : Handle :=
  match open_storage ∅ None (mkDisk (mkFiles None None) []) with
  | (Ok e, _) => (fill_table e).2
  | _ => people_storage
  end.

(** The rows a new transaction sees. *)
Definition rows_now : ST Handle (list (RowId * Row)) :=
  let! t := begin_with_isolation ReadCommitted in
  let! rows := scan_rows no_others 1 4 t "t" in
  rollback_storage no_others 1 4 t ;;!
  st_ret rows.

(** In a transaction of its own. *)
Definition committed (body : TransactionId -> ST Handle unit) : ST Handle unit :=
  let! t := begin_with_isolation ReadCommitted in
  body t ;;!
  commit_storage no_others 1 4 t.

(** What the operations answer, from an empty disk on. *)
Example people_rows :
  let run {A} (op : TransactionId -> ST Handle A) := ((let! t := begin_with_isolation ReadCommitted in op t) filled).1 in
  (rows_now filled).1 = Ok [(1, [Integer 1; Text "ann"]); (2, [Integer 2; Text "bob"])] /\
  run (fun t => insert_row no_others 1 4 no_debug t "t" [Integer 7; Text "eve"]) = Ok 3 /\
  run (fun t => insert_row no_others 1 4 no_debug t "t" [Integer 1; Text "eve"]) =
    Err (Storage "duplicate primary key value for column 'id': 1") /\
  run (fun t => insert_row no_others 1 4 no_debug t "t" [Integer 7; Text ""]) =
    Err (Storage "check constraint 'named' failed") /\
  ((let! _ := committed (fun t => update_row no_others 1 4 no_debug t "t" 1 [Integer 7; Text "eve"]) in rows_now) filled).1
    = Ok [(1, [Integer 7; Text "eve"]); (2, [Integer 2; Text "bob"])].
Proof. vm_compute. repeat split. Qed.

(** ** Adding a column brings deleted rows back *)

(** While the snapshot of a reader keeps the deleted row from being purged, a transaction
    adds a column: it rewrites the row as one every snapshot sees. *)
Definition resurrection : ST Handle (list (RowId * Row) * list (RowId * Row)) :=
  let! _ := begin_with_isolation RepeatableRead in
  committed (fun t => delete_row no_others 1 4 t "t" 1) ;;!
  let! before := rows_now in
  committed (fun t => add_column no_others 1 4 (inl 0) t "t" (sample_column "nickname" CtText false)) ;;!
  let! after := rows_now in
  st_ret (before, after).

(** [add_column] brings deleted rows back: in a database built from an empty disk, row 1
    is deleted and the deletion committed; after a column has been added, every
    transaction sees the row again. *)
Theorem add_column_resurrects :
  (resurrection filled).1 =
  Ok ([(2, [Integer 2; Text "bob"])],
      [(1, [Integer 1; Text "ann"; Null]); (2, [Integer 2; Text "bob"; Null])]).
Proof. vm_compute. reflexivity. Qed.

(** ** An update that waited for its page undoes a commit *)

Definition shared_of (e : Handle) : Shared := shared (pager e).
(** The handle, with what the handles share as another one left it. *)
Definition join (sh : Shared) (e : Handle) : Handle := set_pager (set_shared sh (pager e)) e.

(** A second handle of the process, on the same files, cache and manager. *)
Definition second_handle (e : Handle) : Handle :=
  match open_storage (page_cache (shared_of e)) (Some (manager e)) (disk (shared_of e)) with
  | (Ok e2, _) => set_catalog (catalog e) e2
  | _ => e
  end.

(** Two transactions, 2 on the first handle and 3 on the second, begin; 2 updates row 1
    and so owns its page. *)
Definition began : Handle * Handle :=
  let e1 := (begin_with_isolation ReadCommitted filled).2 in
  let e2 := (begin_with_isolation ReadCommitted (join (shared_of e1) (second_handle filled))).2 in
  (e1, e2).
Definition first_updates : Result unit * Handle :=
  update_row no_others 1 4 no_debug 2 "t" 1 [Integer 1; Text "amy"] (join (shared_of began.2) began.1).
(** While 3 waits for the page, 2 commits. *)
Definition first_commits (sh : Shared) : Shared := shared_of (commit_storage no_others 1 4 2 (join sh first_updates.2)).2.
Definition second_updates : Result unit * Handle :=
  update_row first_commits 2 4 no_debug 3 "t" 1 [Integer 1; Text "eve"] (join (shared_of first_updates.2) began.2).

(** [update_row] reads the row before it waits for the page and writes back what it read:
    both updates succeed and the first commits, yet a transaction that begins afterwards
    does not see the committed row but the one before it, as long as the second update is
    not committed. Had the second transaction not been there, it would see it. *)
Theorem stale_update_hides_commit :
  first_updates.1 = Ok tt /\ second_updates.1 = Ok tt /\
  (commit_storage no_others 1 4 2 first_updates.2).1 = Ok tt /\
  (rows_now (commit_storage no_others 1 4 2 first_updates.2).2).1 = Ok [(1, [Integer 1; Text "amy"]); (2, [Integer 2; Text "bob"])] /\
  (rows_now second_updates.2).1 = Ok [(1, [Integer 1; Text "ann"]); (2, [Integer 2; Text "bob"])].
Proof. vm_compute. repeat split. Qed.

(** ** A unique index over deleted rows *)

(** One of two rows of the same name is deleted, while a reader keeps it from being
    purged; then a unique index on the name is asked for. *)
Definition unique_names : IndexMeta := mkIndexMeta "names" ["name"] None true None.
Definition index_over_deleted : ST Handle (list (RowId * Row) * Result unit) :=
  committed (fun t => update_row no_others 1 4 no_debug t "t" 2 [Integer 2; Text "ann"]) ;;!
  let! _ := begin_with_isolation RepeatableRead in
  committed (fun t => delete_row no_others 1 4 t "t" 1) ;;!
  let! rows := rows_now in
  let! t := begin_with_isolation ReadCommitted in
  let! created := st_catch (create_index no_others 1 4 t "t" unique_names ;;! st_ret (Ok tt)) (fun error => st_ret (Err error)) in
  st_ret (rows, created).

(** [create_index] counts rows that are deleted but not yet purged: the table has one row
    for every reader that begins, and a unique index on it is refused. *)
Theorem create_index_counts_deleted :
  (index_over_deleted filled).1 =
  Ok ([(2, [Integer 2; Text "ann"])], Err (Storage "unique index names constraint failed")).
Proof. vm_compute. reflexivity. Qed.
